(* ===== verification/_CoqProject ===== *)
-Q . S2P
Prelude.v
Visibility.v
Kotva.v
Descriptor.v
Conformance.v
BillingMeter.v
BillingTariff.v
BillingPricing.v
BillingReceipt.v
BillingPrepaid.v
BillingSettlement.v
BillingSim.v
RustStr.v
RustText.v
Sni.v
Tunnel.v
Auth.v
Ingress.v
Base32.v
B64.v
Dkim.v
Directory.v
ForwardedAddr.v
Window.v
OutboundGuard.v
ColdGate.v
AliasMap.v
Provenance.v
Attestation.v
KotvaMail.v
Spf.v
Dmarc.v
Inbound.v
Admission.v
Quota.v
AliasAllocator.v
MultiDomain.v
Dns.v
Mx.v
MtaSts.v
DnsResolvers.v
Net.v
OutboundTcp.v
InboundTcp.v
Outbound.v
LegacyNet.v
Submission.v
Admin.v
AdminProofs.v
Mesh.v
ImapAccess.v
Personal.v
Startup.v
Patala.v
Operator.v
Media.v
Main.v
Adapter.v
RelayServer.v
OperatorTasks.v
PrepaidTasks.v
