(* ===== verification/Prelude.v ===== *)
(** * Ephor: a verification development

    Ephor is the coordinator ("broker") of the KOTVA standard: service points that
    peers hire for what they cannot do among themselves.  The Rust workspace under
    [crates/] has four parts, and this library models the logic of each of them.

    - _Economics and conformance_ ([broker-economics], [broker-conformance] and the
      crates of the coordinator kinds): a coordinator publishes a signed descriptor
      with its kind, its content visibility and its tariff, and a harness checks it
      against the clauses COORD-1..8 of its contract.
    - _Billing_ ([broker-billing]): usage is metered, priced by a signed tariff,
      paid from prepaid credit or over a settlement rail, and receipted.
    - _Reachability_ ([reachability-adapter]): a box behind NAT authenticates over
      a control connection and registers a name; an ingress connection is routed
      to it by the server name of its TLS hello, without being decrypted.
    - _The mail gateway_ ([gateway]): senders are admitted by challenge and
      response and within quotas, mail crosses with an attestation and a
      provenance record, aliases and forwarded addresses map between the two
      worlds.  Inbound mail comes in over the MX listener, passes an anti-abuse
      gate, SPF, DKIM and DMARC, and is answered 250 only when the recipient's mesh
      has taken it over; outbound mail is rendered, signed and handed to the SMTP
      client under the destination's MTA-STS policy.  Legacy mail programs read
      over IMAP and POP3 and submit over SMTP; one daemon serves an operator's own
      domain, another many tenants under an administration interface.

    Beside them: an operator's control plane ([admin]), a settlement rail over an
    external payment library ([broker-billing-patala]) and the control of external
    media servers ([media-relay]).

    ** Files

    Each file models the source it names; names are those of the source where
    Rocq's syntax allows them.

    - [Prelude]: [Result] as a monad, [u64]/[i64] with their wrapping and
      saturating operations, bytes, UTF-8, lists, the counting lemma [single_use],
      the hint database [ephor].  [RustStr], [RustText]: the [str], number and
      address parsing methods of Rust's standard library.  [Kotva]: the interface
      of the external [kotva_core] crate, as type classes with their laws, and an
      instance [Reference] that satisfies all of them.
    - [Visibility] ([broker-economics/src/visibility.rs], [kinds.rs]),
      [Descriptor] ([descriptor.rs]), [Conformance] ([broker-conformance] and the
      [Coordinator] implementations of the kind crates and of
      [gateway/src/coordinator.rs]).
    - [BillingMeter], [BillingTariff], [BillingPricing], [BillingReceipt],
      [BillingPrepaid], [BillingSim]: the files of the same names in
      [broker-billing/src]; [BillingSettlement]: [settlement.rs],
      [subscription.rs], [stake.rs].
    - [Sni], [Tunnel], [Auth], [Ingress]: the files of the same names in
      [reachability-adapter/src]; [Adapter]: the whole adapter as one transition
      system, with both listeners of [ingress.rs] and the handle and task of [tunnel.rs].
    - [RelayServer] ([relay/src/server.rs]): the handle and the swarm task of the libp2p
      relay.
    - [Base32] and [AliasMap] ([gateway/src/alias_map.rs]), [ForwardedAddr]
      ([forwarded_addr.rs]), [OutboundGuard] ([outbound_guard.rs]) and [ColdGate]
      ([ColdSenderGate] of [inbound.rs]) over the sliding windows of [Window],
      [Provenance] ([provenance.rs]), [Attestation] ([attestation.rs]), the three
      parts of [authz.rs]: [Admission], [Quota], [AliasAllocator], and over them
      [MultiDomain] ([multidomain.rs]).
    - [B64] ([b64.rs]), [Dkim], [Spf], [Dmarc] and [Directory]: the files of the
      same names in [gateway/src]; [KotvaMail]: the interface of the external mail
      crates; [Inbound]: [InboundGateway] and [MxSession] of [inbound.rs].
    - [Dns] ([dns.rs], [idn.rs]), [Mx] ([mx.rs]), [MtaSts] ([mta_sts.rs] and the
      TLS policy trait of [outbound.rs]), [DnsResolvers] (the DNS-backed resolvers
      of [spf.rs], [dkim.rs] and [dmarc.rs]).
    - [Net] ([net.rs]), [OutboundTcp] ([outbound_tcp.rs]), [InboundTcp]
      ([inbound_tcp.rs]), [Outbound] ([outbound.rs] and the policy fetcher of
      [mta_sts.rs]).
    - [LegacyNet] ([legacy_net.rs]): the sessions of the access servers over any line
      protocol; [Submission]: the accept loops (Module Listener), [pop3_access.rs] and
      [smtp_submission.rs] with its spool; [ImapAccess] ([imap_access.rs]); [Mesh]
      ([mesh.rs]), the link to the recipient's node.
    - [Admin] ([admin.rs]) and [AdminProofs]: the administration interface over
      [MultiDomain], from the bytes of a connection to the answer.
    - [Personal] (the configuration part of [personal.rs]), [Startup] (what its
      [serve] builds and binds), [Main] ([main.rs]).
    - [Operator] ([admin/src]), [Patala] ([broker-billing-patala/src/lib.rs]), [Media]
      ([media-relay/src/sfu.rs], [mock.rs], [external.rs]).
    - [OperatorTasks] and [PrepaidTasks]: [admin/src] and [prepaid.rs] once more, with
      every critical section a step of its own.

    ** How state and effects are modelled

    A struct is a record, an enum an inductive type, a map or set a [gmap] or
    [gset].  A method with [&mut self], or one that locks a mutex, takes the state
    and returns the new one with its result; a single lock makes a method atomic, so an
    interleaving of calls is a sequence of them.  The histories the invariants
    speak of are such sequences: inductive step relations with the reflexive
    transitive closure ([BillingPrepaid], [BillingSettlement], [Tunnel],
    [AliasAllocator]) or lists of operations ([Auth], [Admission], [Quota],
    [OutboundGuard], [ColdGate], [AliasMap], [BillingMeter], [BillingSim],
    [MultiDomain]); the connection limiter of [Net] is a step relation in which the
    load and the compare-exchange of a thread are separate steps.  A connection is
    the bytes its peer sends, in clear and behind a TLS handshake; the SMTP client
    is written in a state and error monad over it ([OutboundTcp.M]).  Where the boundaries
    of reads matter ([LegacyNet], [ImapAccess], [Admin]) the peer is a list of reads.
    What the daemon finds around it is a [Startup.World]; processes are a table
    ([Media.ExternalSfu.Os]).  Where an await or a second lock lets other calls in, the
    steps are separate: a call or handler is a record with a phase, each of its critical
    sections is a step, and any number of them interleave ([PrepaidTasks], [OperatorTasks],
    [Patala], [Adapter]; in [RelayServer] the calls on the handle and the turns of the task).
    [PrepaidTasks.alone_is_method] and [OperatorTasks.alone_is_serve] show that a task
    that nothing interrupts is the operation of [BillingPrepaid] and [Operator].
    Errors are values of [result] or [option].  Machine integers are [Z] with the
    wrap-around, saturation or truncation of the source written out.  The clock,
    random draws and what a socket read returns are arguments.  Traits are type
    classes: [Meter], [SettlementRail], [Coordinator], [GatewayAuthz],
    [GatewayMeter], [AntiAbuse], [KeyDirectory], [MeshDelivery], [SpfResolver],
    [DkimKeyResolver], [DmarcTxtResolver], [MxResolver], [TlsPolicy], [TxtResolver],
    [PolicyFetcher], [AddressClaimAuthz], [OutboundTransport], [LineProtocol],
    [SubmissionSink], [MediaSfu].

    Code that is not in the repository is a parameter with the laws its
    documentation gives: CBOR encoding and the signature scheme of [kotva_core]
    ([KotvaCbor], [KotvaIdentity], [KotvaUnforgeable], [KotvaContentId]), its
    sealing and mail parsing ([KotvaMote], [KotvaMime], [KotvaMimeEncode]), SHA-256
    and Ed25519 ([DkimCrypto]), the public suffix list ([PublicSuffixList]), IDNA
    ([Idna]), the protocol sessions and the store of the mail library ([SmtpSession],
    [Pop3Session], [ImapSession], [ImapFraming], [MailStore], [Authenticators],
    [KotvaMoteCbor]), the payment rail ([PaymentRail]), hexadecimal ([HexCodec]), Rust's
    [Debug] text ([StrDebug]) and map order ([HashMapIter]), libp2p ([Libp2p]) and the polls
    of the multiplexer in the tunnel driver.
    Unforgeability and collision resistance are read symbolically.

    ** What is proved

    - _Round trips_: signed descriptors, tariff schedules, billed operations,
      registration frames, provenance records, the SNI of every well-formed
      ClientHello, forwarded addresses, directory files, DMARC and MTA-STS policies,
      DNS responses, SMTP replies, rendered messages, spooled submissions, mesh
      endpoints, the requests, forms and JSON texts of the administration interface,
      an operator's policy and price lists; signing and verifying of a
      message with DKIM; a message from the wire form of the client to the session
      that receives it.
    - _Invariants over all histories_: conservation in the prepaid ledger and the
      double-entry ledger, the audit trail of the billing replay, one writer per
      registered name, the rate windows of both guards, quotas, the two indexes of
      the alias allocator, the life of a random alias; credit that is backed by
      verified receipts, the identities an operator has used and the billing of every
      metered unit once, all in every interleaving, one live process for every running
      media session, the listeners and commands of the relay.
    - _Security_: nonces and admission challenges are single-use, an accepted
      response, descriptor, attestation or provenance hop is the very object that
      was signed, only authenticated registrations are routed to, a cold sender is
      accepted only after it was deferred, a message is answered 250 only when it
      was taken over and passed its gates, the domains of a gateway do not influence
      each other, the SMTP client never dials an internal address and never falls
      back to clear text, and only admitted senders relay, as addresses they may
      claim; nothing received in clear is read as if it came through TLS, a request
      of an administrator changes the tenant it names only (but for removed recipients, and
      for added ones when the path names a domain in address characters) and needs the
      token, the daemons come up only as configured, a descriptor is not weakened silently.
    - _Bills_: a decoded price schedule and the bills it makes fit their machine widths,
      and a bill is exactly the units above the free allowance at their prices, saturating,
      or the first kind without a price ([BillingTariff.accepted_tariff_bills_typed]).
    - _Decisions_: the conformance check against its reading as a posture, the
      evaluation of bills with exact arithmetic or an error, SPF against the rules
      of its RFC, with a bound on the number of DNS queries, DMARC against its
      alignment rules, DNS names against their grammar, exchanger names against the
      patterns of a policy.
    - _Concurrency_: the prepaid ledger under interleaved critical sections has the
      balances of the atomic ledger, and its audit trails up to order and numbers, and
      never blocks for good ([PrepaidTasks.shared_ledger_refines_atomic],
      [no_call_is_stuck]); in the running adapter a client's bytes reach only the box
      that signed for the name in its hello, and the box's bytes only that client
      ([Adapter.client_and_box_only]), the registry stays in a state of the abstract one
      ([adapter_refines_registry]), and the tunnels that have ended are released
      ([ended_tunnels_are_released]); the control plane keeps its identities and its
      books ([OperatorTasks.identities_survive_interleaving], [every_unit_billed_once]),
      and its visibility as long as updates do not overlap
      ([serialised_updates_keep_visibility]).
    - _Refinement_: the in-memory meter against a usage log, the in-memory ledger
      as a settlement rail, the SPF evaluator against its semantics, the MX listener
      against the session fed with the lines of each channel ([InboundTcp.play]), the configuration parser against a table of keys, an access
      session over TLS against its protocol line by line, the mock media server against
      the set of running sessions.
    - _Termination_: the decoder of DNS names and the service of a connection, MX or
      access server, end on every input; the wait for a relay's listener ends, and its
      task ends after the handle is dropped.
    - _Defects_: [Tunnel.mixed_case_registration_unreachable],
      [Settlement.oversized_charge_credits_payer],
      [Inbound.second_recipient_replaces_first],
      [MultiDomain.bracketed_recipient_unreachable], [Dns.reply_id_unchecked],
      [DnsResolvers.servfail_is_no_record], [Net.reply_panics],
      [OutboundSafety.unsent_is_delivered], [InboundTcp.helo_identity_lost],
      [InboundTcp.data_tab_desync], [Submission.quit_word_ends_any_session],
      [Submission.message_extends_trace_header], [AdminProofs.removal_crosses_tenants],
      [AdminWitness.bracketed_path_crosses_tenants], [Submission.restarted_sink_replaces],
      [AdminProofs.head_not_capped], [Personal.env_fails_open],
      [Startup.unlimited_quota_refuses], [Startup.outbound_sends_nothing],
      [Patala.overlapping_calls_credit_twice], [Operator.failed_billing_loses_usage],
      [Operator.rotation_between_breaks_descriptor],
      [OperatorTasks.rotation_serves_unverifiable],
      [OperatorTasks.overlapping_updates_downgrade],
      [OperatorTasks.rotations_out_of_order], [PrepaidTasks.debits_out_of_order],
      [Adapter.refused_box_keeps_task],
      [Operator.self_check_always_conformant] and
      [ExternalSfu.exited_probe_blocks_restart] exhibit behaviour the code does not
      intend.

    ** Bounds and fuel

    Loops that are not structural take fuel that the caller derives from the
    input: the TLS parser's loops take one more than the bytes left, of which each
    round takes at least three ([Sni.names_loop_fuel] and
    [Sni.extensions_loop_fuel] show that more makes no difference); [Base32.emit]
    takes the number of pending bits, of which each round takes five; trimming,
    white-space splitting and lossy decoding take the length of the text, of
    which each round takes at least one byte.  The DNS name decoder takes
    [Dns.name_fuel], which [Dns.read_name_terminates] shows to be enough: a pointer
    goes backwards at most 33 times.  Replies and lines of a connection take one
    more than the bytes of the input, of which each takes at least one
    ([InboundTcp.connection_terminates], [LegacyNet.session_terminates]).  The head of an
    administration request takes one more than the bytes still to come.  The wait for a
    listener of the relay takes any fuel above the looks that
    [RelayServer.wait_for_listener_returns] bounds; a task of [OperatorTasks.alone] takes
    ten sections, the longest handler.  SPF recurses on the depth guard of the source
    itself.  The minting of an alias takes the list of random draws.

    ** Not modelled

    Sockets, TLS handshakes, clocks and signals are inputs of the model; time-outs,
    log lines and thread start-up are left out.  The libp2p swarm, the yamux multiplexer,
    the web framework and the JSON codec of [admin] and the pretty-printed LiveKit
    configuration are external.  What is left of the modelled files are accessors, socket
    and TLS set-up and the texts of messages.  The Go, JavaScript and Svelte parts of the
    repository are not modelled. *)

From Stdlib Require Import ZArith Lia.
From Stdlib Require Strings.Byte Strings.String Strings.Ascii.
From stdpp Require Import base decidable numbers option list gmap strings sorting.

Declare Scope ephor_scope.
Delimit Scope ephor_scope with ephor.
Open Scope Z_scope.

(** ** Rust's [Result] *)

(** [Result<A, E>] with the error type first, so that [result E] is a monad. *)
Inductive result (E A : Type) : Type :=
| Ok (a : A)
| Err (e : E).
Arguments Ok {E A} a.
Arguments Err {E A} e.

#[export] Instance result_ret E : MRet (result E) := fun A a => Ok a.
#[export] Instance result_bind E : MBind (result E) :=
  fun A B k m => match m with Ok a => k a | Err e => Err e end.
#[export] Instance result_fmap E : FMap (result E) :=
  fun A B f m => match m with Ok a => Ok (f a) | Err e => Err e end.

#[export] Instance result_eq_dec E A `{EqDecision E, EqDecision A} :
  EqDecision (result E A).
Proof. solve_decision. Defined.

(** [Result::map_err], also what [?] does through [From]. *)
Definition map_err {E F A} (f : E → F) (m : result E A) : result F A :=
  match m with Ok a => Ok a | Err e => Err (f e) end.

(** [Option::ok_or]. *)
Definition ok_or {E A} (e : E) (o : option A) : result E A :=
  match o with Some a => Ok a | None => Err e end.

(** [Option<Result<..>>::transpose]. *)
Definition transpose {E A} (o : option (result E A)) : result E (option A) :=
  match o with
  | None => Ok None
  | Some (Ok a) => Ok (Some a)
  | Some (Err e) => Err e
  end.

Definition is_ok {E A} (m : result E A) : bool :=
  match m with Ok _ => true | Err _ => false end.

Lemma bind_Ok {E A B} (m : result E A) (k : A → result E B) b :
  (m ≫= k) = Ok b ↔ ∃ a, m = Ok a ∧ k a = Ok b.
Proof. destruct m; naive_solver. Qed.

Lemma map_err_Ok {E F A} (f : E → F) (m : result E A) a :
  map_err f m = Ok a ↔ m = Ok a.
Proof. destruct m; naive_solver. Qed.

Lemma ok_or_Ok {E A} (e : E) (o : option A) a : ok_or e o = Ok a ↔ o = Some a.
Proof. destruct o; naive_solver. Qed.

(** ** Machine integers

    A [u64]/[i64]/[u16]/[u8] is a [Z]; the saturating and wrapping operations
    of the Rust standard library are written out.  Plain [+]/[-] on a fixed
    width type is modelled with the release profile's wrap-around (the
    workspace sets no [overflow-checks]). *)

Module U64.
Definition MAX : Z := 18446744073709551615.
Definition valid (z : Z) : Prop := 0 ≤ z ≤ MAX.
#[global] Instance valid_dec z : Decision (valid z).
Proof. unfold valid. apply _. Defined.

Definition wrap (z : Z) : Z := z mod 18446744073709551616.
Definition saturating_add (a b : Z) : Z := Z.min (a + b) MAX.
Definition saturating_sub (a b : Z) : Z := Z.max (a - b) 0.
Definition saturating_mul (a b : Z) : Z := Z.min (a * b) MAX.

Lemma wrap_small z : valid z → wrap z = z.
Proof. unfold valid, MAX, wrap. intros. apply Z.mod_small. lia. Qed.
Lemma wrap_valid z : valid (wrap z).
Proof.
  unfold valid, MAX, wrap.
  pose proof (Z.mod_pos_bound z 18446744073709551616). lia.
Qed.
Lemma wrap_add_l a b : wrap (wrap a + b) = wrap (a + b).
Proof. unfold wrap. apply Zplus_mod_idemp_l. Qed.
Lemma saturating_add_valid a b :
  valid a → valid b → valid (saturating_add a b).
Proof. unfold valid, saturating_add, MAX. lia. Qed.
Lemma saturating_sub_valid a b :
  valid a → valid b → valid (saturating_sub a b).
Proof. unfold valid, saturating_sub, MAX. lia. Qed.
Lemma saturating_mul_valid a b :
  valid a → valid b → valid (saturating_mul a b).
Proof. unfold valid, saturating_mul, MAX. intros. nia. Qed.
End U64.

Module I64.
Definition MIN : Z := -9223372036854775808.
Definition MAX : Z := 9223372036854775807.
Definition valid (z : Z) : Prop := MIN ≤ z ≤ MAX.
#[global] Instance valid_dec z : Decision (valid z).
Proof. unfold valid. apply _. Defined.

(** Two's complement reading of the low 64 bits: both [x as i64] of a [u64]
    and the wrap-around of [i64] arithmetic. *)
Definition wrap (z : Z) : Z :=
  (z + 9223372036854775808) mod 18446744073709551616 - 9223372036854775808.

Lemma iwrap_small z : valid z → wrap z = z.
Proof. unfold valid, MIN, MAX, wrap. intros. rewrite Z.mod_small; lia. Qed.
Lemma iwrap_valid z : valid (wrap z).
Proof.
  unfold valid, MIN, MAX, wrap.
  pose proof (Z.mod_pos_bound (z + 9223372036854775808) 18446744073709551616).
  lia.
Qed.
(** Reducing a summand first changes nothing: the ring structure modulo 2^64. *)
Lemma iwrap_add_l a b : wrap (wrap a + b) = wrap (a + b).
Proof.
  unfold wrap. f_equal.
  set (m := 18446744073709551616). set (h := 9223372036854775808).
  replace ((a + h) `mod` m - h + b + h) with ((a + h) `mod` m + b) by lia.
  rewrite Zplus_mod_idemp_l. f_equal. lia.
Qed.
Lemma iwrap_wrap a : wrap (wrap a) = wrap a.
Proof. apply iwrap_small, iwrap_valid. Qed.
Lemma iwrap_add_r a b : wrap (a + wrap b) = wrap (a + b).
Proof. rewrite Z.add_comm, iwrap_add_l. f_equal. lia. Qed.
Lemma iwrap_sub_r a b : wrap (a - wrap b) = wrap (a - b).
Proof.
  unfold wrap. f_equal.
  set (m := 18446744073709551616). set (h := 9223372036854775808).
  replace (a - ((b + h) `mod` m - h) + h) with (a + (h + h) - (b + h) `mod` m) by lia.
  rewrite Zminus_mod_idemp_r. f_equal. lia.
Qed.
Lemma iwrap_sub_l a b : wrap (wrap a - b) = wrap (a - b).
Proof. apply iwrap_add_l. Qed.
End I64.

(** ** Bytes *)

Abbreviation byte := Byte.byte.
Abbreviation bytes := (list Byte.byte).

#[export] Instance byte_eq_dec : EqDecision byte := Byte.byte_eq_dec.
#[export] Instance byte_countable : Countable byte :=
  inj_countable Byte.to_N Byte.of_N Byte.of_to_N.

(** A byte as an unsigned number, and back (the low eight bits). *)
Definition b2z (b : byte) : Z := Z.of_N (Byte.to_N b).
Definition z2b (z : Z) : byte :=
  default Byte.x00 (Byte.of_N (Z.to_N (z mod 256))).

Lemma b2z_range b : 0 ≤ b2z b < 256.
Proof. unfold b2z. pose proof (Byte.to_N_bounded b). lia. Qed.
Lemma z2b_b2z b : z2b (b2z b) = b.
Proof.
  pose proof (b2z_range b). unfold z2b. rewrite Z.mod_small by done.
  unfold b2z. rewrite N2Z.id, Byte.of_to_N. done.
Qed.
Lemma b2z_z2b z : 0 ≤ z < 256 → b2z (z2b z) = z.
Proof.
  intros. unfold z2b, b2z. rewrite Z.mod_small by done.
  destruct (Byte.of_N (Z.to_N z)) as [b|] eqn:Hb; simpl.
  - apply Byte.to_of_N in Hb. rewrite Hb. lia.
  - apply Byte.of_N_None_iff in Hb. lia.
Qed.
Lemma b2z_inj a b : b2z a = b2z b → a = b.
Proof. intros H. rewrite <- (z2b_b2z a), <- (z2b_b2z b). by rewrite H. Qed.

(** [u16::from_be_bytes] / [u32::from_be_bytes] and the big-endian writer. *)
Definition u16_from_be_bytes (a b : byte) : Z := b2z a * 256 + b2z b.
Definition u24_from_be_bytes (a b c : byte) : Z :=
  b2z a * 65536 + b2z b * 256 + b2z c.
Definition u16_to_be_bytes (z : Z) : bytes := [z2b (z / 256); z2b z].

Lemma u16_from_be_range a b : 0 ≤ u16_from_be_bytes a b < 65536.
Proof.
  unfold u16_from_be_bytes. pose proof (b2z_range a). pose proof (b2z_range b). lia.
Qed.

Lemma z2b_mod z : z2b (z mod 256) = z2b z.
Proof. unfold z2b. by rewrite Zmod_mod. Qed.

Lemma u16_be_roundtrip z :
  0 ≤ z < 65536 →
  ∃ a b, u16_to_be_bytes z = [a; b] ∧ u16_from_be_bytes a b = z.
Proof.
  intros. eexists _, _. split; [reflexivity|].
  unfold u16_from_be_bytes. rewrite <- (z2b_mod z).
  assert (0 ≤ z / 256 < 256)
    by (split; [apply Z.div_pos; lia | apply Z.div_lt_upper_bound; lia]).
  rewrite !b2z_z2b; [|apply Z.mod_pos_bound; lia|done].
  pose proof (Z.div_mod z 256). lia.
Qed.

(** Big-endian bytes; [u64::to_be_bytes] is [be_bytes 8]. *)
Fixpoint be_bytes (n : nat) (z : Z) : bytes :=
  match n with O => [] | S n => be_bytes n (z / 256) ++ [z2b z] end.

Lemma be_bytes_length n z : length (be_bytes n z) = n.
Proof. revert z. induction n as [|n IH]; intros z; simpl; [done|]. rewrite length_app, IH. simpl. lia. Qed.

Lemma be_bytes_inj n z z' :
  0 ≤ z < 256 ^ Z.of_nat n → 0 ≤ z' < 256 ^ Z.of_nat n → be_bytes n z = be_bytes n z' → z = z'.
Proof.
  revert z z'. induction n as [|n IH]; intros z z' Hz Hz' E; simpl in E; [simpl in *; lia|].
  apply app_inj_2 in E as [E1 E2]; [|done]. injection E2 as E2.
  rewrite Nat2Z.inj_succ, Z.pow_succ_r in * by lia.
  assert (z / 256 = z' / 256) as Ed.
  { apply IH; [| |done]; (split; [apply Z.div_pos; lia|apply Z.div_lt_upper_bound; lia]). }
  apply (f_equal b2z) in E2. rewrite <- (z2b_mod z), <- (z2b_mod z') in E2.
  rewrite !b2z_z2b in E2 by (apply Z.mod_pos_bound; lia).
  rewrite (Z.div_mod z 256), (Z.div_mod z' 256) by lia. lia.
Qed.

(** ** Strings

    A Rust [String]/[&str] is its sequence of UTF-8 bytes, held in Rocq's
    [string] (one [ascii] per byte), so that literals read as in the source. *)

Abbreviation as_bytes := String.list_byte_of_string.

Definition in_range (lo hi : Z) (b : byte) : bool := (lo <=? b2z b) && (b2z b <=? hi).

(** The well-formedness test of [core::str::from_utf8] (RFC 3629, table 3-7 of
    the Unicode standard). *)
Fixpoint utf8_valid (bs : bytes) : bool :=
  match bs with
  | [] => true
  | b0 :: r0 =>
      if in_range 0 127 b0 then utf8_valid r0
      else match r0 with
      | [] => false
      | b1 :: r1 =>
          if in_range 194 223 b0 then in_range 128 191 b1 && utf8_valid r1
          else match r1 with
          | [] => false
          | b2 :: r2 =>
              if in_range 224 224 b0
              then in_range 160 191 b1 && in_range 128 191 b2 && utf8_valid r2
              else if in_range 225 236 b0 || in_range 238 239 b0
              then in_range 128 191 b1 && in_range 128 191 b2 && utf8_valid r2
              else if in_range 237 237 b0
              then in_range 128 159 b1 && in_range 128 191 b2 && utf8_valid r2
              else match r2 with
              | [] => false
              | b3 :: r3 =>
                  let tail := in_range 128 191 b2 && in_range 128 191 b3 in
                  if in_range 240 240 b0
                  then in_range 144 191 b1 && tail && utf8_valid r3
                  else if in_range 241 243 b0
                  then in_range 128 191 b1 && tail && utf8_valid r3
                  else if in_range 244 244 b0
                  then in_range 128 143 b1 && tail && utf8_valid r3
                  else false
              end
          end
      end
  end.

(** [std::str::from_utf8(..).map(str::to_owned)] / [String::from_utf8]. *)
Definition from_utf8 (bs : bytes) : option string :=
  if utf8_valid bs then Some (String.string_of_list_byte bs) else None.

Lemma from_utf8_as_bytes s :
  utf8_valid (as_bytes s) = true → from_utf8 (as_bytes s) = Some s.
Proof.
  intros H. unfold from_utf8. rewrite H.
  by rewrite String.string_of_list_byte_of_string.
Qed.
Lemma from_utf8_Some bs s :
  from_utf8 bs = Some s → as_bytes s = bs ∧ utf8_valid bs = true.
Proof.
  unfold from_utf8. destruct (utf8_valid bs); [|done]. intros [= <-].
  by rewrite String.list_byte_of_string_of_list_byte.
Qed.

Definition str_len (s : string) : Z := Z.of_nat (length (as_bytes s)).

(** [str::to_ascii_lowercase]: only the 26 ASCII capitals change. *)
Definition ascii_lower (c : Ascii.ascii) : Ascii.ascii :=
  let n := Ascii.nat_of_ascii c in
  if ((65 <=? n) && (n <=? 90))%nat then Ascii.ascii_of_nat (n + 32) else c.
Fixpoint to_ascii_lowercase (s : string) : string :=
  match s with
  | String.EmptyString => String.EmptyString
  | String.String c r => String.String (ascii_lower c) (to_ascii_lowercase r)
  end.

Lemma ascii_lower_idem c : ascii_lower (ascii_lower c) = ascii_lower c.
Proof. destruct c as [[] [] [] [] [] [] [] []]; reflexivity. Qed.
Lemma to_ascii_lowercase_idem s :
  to_ascii_lowercase (to_ascii_lowercase s) = to_ascii_lowercase s.
Proof. induction s as [|c s IH]; simpl; [done|]. by rewrite ascii_lower_idem, IH. Qed.

(** ** Lists *)

Definition sum_Z (l : list Z) : Z := foldr Z.add 0 l.

Lemma sum_Z_app l k : sum_Z (l ++ k) = sum_Z l + sum_Z k.
Proof. induction l as [|x l IH]; simpl in *; [done|]. unfold sum_Z in *. lia. Qed.
Lemma sum_Z_nonneg l : Forall (λ x, 0 ≤ x) l → 0 ≤ sum_Z l.
Proof. induction 1; simpl; [done|]. unfold sum_Z in *. lia. Qed.

Lemma Forall_filter_mono {A} (P Q : A → Prop) `{∀ x, Decision (Q x)} l :
  Forall P l → Forall P (filter Q l).
Proof.
  rewrite !Forall_forall. intros HP x [_ Hx]%list_elem_of_filter. by apply HP.
Qed.

Lemma sum_filter_snoc {A} (f : A → Z) (P : A → Prop) `{∀ x, Decision (P x)} l x :
  sum_Z (f <$> filter P (l ++ [x]))
  = sum_Z (f <$> filter P l) + (if decide (P x) then f x else 0).
Proof.
  rewrite filter_app, fmap_app, sum_Z_app, filter_cons, filter_nil. f_equal.
  case_decide; simpl; unfold sum_Z; simpl; lia.
Qed.

(** [Iterator::find] on a boolean predicate. *)
Fixpoint find_first {A} (p : A → bool) (l : list A) : option A :=
  match l with
  | [] => None
  | x :: r => if p x then Some x else find_first p r
  end.

Lemma find_first_Some {A} (p : A → bool) l x :
  find_first p l = Some x → x ∈ l ∧ p x = true.
Proof.
  induction l as [|y l IH]; simpl; [done|].
  destruct (p y) eqn:E; [intros [= ->]; set_solver|].
  intros H. destruct (IH H). set_solver.
Qed.
Lemma find_first_is_Some {A} (p : A → bool) l x :
  x ∈ l → p x = true → is_Some (find_first p l).
Proof.
  induction l as [|y l IH]; intros Hin Hp; [by apply elem_of_nil in Hin|].
  simpl. destruct (p y) eqn:E; [done|].
  apply IH; [|done]. apply elem_of_cons in Hin as [->|]; congruence.
Qed.
Lemma find_first_None {A} (p : A → bool) l x : find_first p l = None → x ∈ l → p x = false.
Proof.
  intros Hn Hx. destruct (p x) eqn:E; [|done].
  destruct (find_first_is_Some p l x Hx E) as [y Hy]. congruence.
Qed.
Lemma find_first_app {A} (p : A → bool) l k :
  find_first p (l ++ k) =
  match find_first p l with Some x => Some x | None => find_first p k end.
Proof. induction l as [|y l IH]; simpl; [done|]. by destruct (p y). Qed.

Lemma app_eq_prefix_le {A} (a b c d : list A) :
  a ++ b = c ++ d → (length a ≤ length c)%nat → a `prefix_of` c.
Proof.
  revert c. induction a as [|x a IH]; intros c H Hl; [by apply prefix_nil|].
  destruct c as [|y c]; simpl in *; [lia|]. injection H as -> H.
  apply prefix_cons, (IH c); [done|lia].
Qed.

(** ** Histories of operations *)

(** How many operations of a history satisfy a predicate on the state they meet. *)
Fixpoint count_run {S O} (step : S → O → S) (p : S → O → bool) (ops : list O) (s : S) : nat :=
  match ops with
  | [] => 0
  | o :: ops => (if p s o then 1 else 0) + count_run step p ops (step s o)
  end%nat.

(** The accounting behind every single-use token: if a token is accepted only
    while it is live, accepting ends its life, and only issuing it starts one,
    then over any history it is accepted at most once per issue. *)
Lemma single_use {S O} (step : S → O → S) (live : S → bool) (issues accepts : S → O → bool) ops s :
  (∀ s o, accepts s o = true → live s = true ∧ issues s o = false) →
  (∀ s o, live (step s o) = true → (live s = true ∧ accepts s o = false) ∨ issues s o = true) →
  (count_run step accepts ops s ≤ (if live s then 1 else 0) + count_run step issues ops s)%nat.
Proof.
  intros Hacc Hlive. revert s. induction ops as [|o ops IH]; intros s; simpl; [lia|].
  specialize (IH (step s o)). specialize (Hacc s o). specialize (Hlive s o).
  destruct (accepts s o), (live s), (issues s o), (live (step s o)); simpl in *; try lia;
    exfalso; naive_solver.
Qed.

(** ** Automation *)

Create HintDb ephor discriminated.
#[export] Hint Resolve U64.wrap_valid U64.saturating_add_valid
  U64.saturating_sub_valid U64.saturating_mul_valid I64.iwrap_valid : ephor.

(** Case analysis on every [match]/[if] of a hypothesis or the goal, killing
    the contradictory branches as it goes. *)
Ltac case_all :=
  repeat first
    [ progress simplify_eq/=
    | case_decide
    | case_match
    | done ].

(** Invert a monadic [result] computation that returned [Ok]. *)
Ltac inv_ok :=
  repeat match goal with
  | H : mbind _ _ = Ok _ |- _ =>
      let a := fresh "a" in let Ha := fresh "Hok" in
      apply bind_Ok in H as (a & Ha & H)
  | H : (let '(_, _) := ?p in _) = Ok _ |- _ =>
      first [is_var p; destruct p | let E := fresh "Epair" in destruct p eqn:E]
  | H : map_err _ _ = Ok _ |- _ => apply map_err_Ok in H
  | H : ok_or _ _ = Ok _ |- _ => apply ok_or_Ok in H
  | H : Ok _ = Ok _ |- _ => injection H as H; subst
  | H : Err _ = Ok _ |- _ => discriminate H
  | H : Ok _ = Err _ |- _ => discriminate H
  end.

(** Reduce the [result] combinators only. *)
Ltac simpl_res := cbn [mbind result_bind fmap result_fmap map_err ok_or transpose].
