(* ===== verification/Visibility.v ===== *)
(** * The content-visibility property and the coordinator kinds

    [crates/broker-economics/src/visibility.rs] and [kinds.rs]: what an
    intermediary declares it can read, how strongly that is guaranteed, and the
    closed table of coordinator kinds with their wire strings. *)

From stdpp Require Import base decidable option list strings.
From S2P Require Import Prelude.

(** ** visibility.rs *)
Module Visibility.

Inductive VisibilityClass := Blind | BlindRouting | Terminating.
Inductive AssuranceLevel := Structural | Attested | Declared.

#[global] Instance VisibilityClass_eq_dec : EqDecision VisibilityClass.
Proof. solve_decision. Defined.
#[global] Instance AssuranceLevel_eq_dec : EqDecision AssuranceLevel.
Proof. solve_decision. Defined.

Definition is_verifiable (l : AssuranceLevel) : bool :=
  match l with Structural | Attested => true | Declared => false end.

Record ContentVisibility := new {
  class : VisibilityClass;
  level : AssuranceLevel;
}.
#[global] Instance ContentVisibility_eq_dec : EqDecision ContentVisibility.
Proof. solve_decision. Defined.

Definition is_terminating (c : VisibilityClass) : bool :=
  match c with Terminating => true | _ => false end.

Definition is_verifiably_blind (v : ContentVisibility) : bool :=
  negb (is_terminating (class v)) && is_verifiable (level v).

Definition must_not_present_as_verified (v : ContentVisibility) : bool :=
  negb (is_terminating (class v)) && negb (is_verifiable (level v)).

Definition class_fmt (c : VisibilityClass) : string :=
  match c with
  | Blind => "blind"
  | BlindRouting => "blind-routing"
  | Terminating => "terminating"
  end.
Definition level_fmt (l : AssuranceLevel) : string :=
  match l with
  | Structural => "structural"
  | Attested => "attested"
  | Declared => "declared"
  end.
(** [write!(f, "{} / {}", self.class, self.level)] *)
Definition visibility_fmt (v : ContentVisibility) : string :=
  class_fmt (class v) +:+ " / " +:+ level_fmt (level v).

(** A declaration is exactly one of: a terminating boundary, a checkable blind
    claim, an unverifiable blind claim. *)
Lemma presentation_partition v :
  (if is_terminating (class v) then 1 else 0)
  + (if is_verifiably_blind v then 1 else 0)
  + (if must_not_present_as_verified v then 1 else 0) = 1.
Proof. destruct v as [[] []]; reflexivity. Qed.

End Visibility.

(** ** kinds.rs *)
Module Kinds.
Import Visibility.

Inductive CoordinatorKind :=
| Gateway | Relay | MediaRelay | ReachabilityAdapter | Indexer | Labeler
| Matcher | Compute | Arbiter | Oracle | CustodialEscrow.

#[global] Instance CoordinatorKind_eq_dec : EqDecision CoordinatorKind.
Proof. solve_decision. Defined.

Definition as_str (k : CoordinatorKind) : string :=
  match k with
  | Gateway => "gateway"
  | Relay => "relay"
  | MediaRelay => "media-relay"
  | ReachabilityAdapter => "reachability-adapter"
  | Indexer => "indexer"
  | Labeler => "labeler"
  | Matcher => "matcher"
  | Compute => "compute"
  | Arbiter => "arbiter"
  | Oracle => "oracle"
  | CustodialEscrow => "custodial-escrow"
  end.

Definition typical_visibility (k : CoordinatorKind) : option ContentVisibility :=
  let v c l := Some (new c l) in
  match k with
  | Gateway => v Terminating Declared
  | Relay => v Blind Structural
  | MediaRelay => v BlindRouting Structural
  | ReachabilityAdapter => v BlindRouting Structural
  | Indexer => None
  | Labeler => None
  | Matcher => v Terminating Declared
  | Compute => v Terminating Declared
  | Arbiter => v Terminating Declared
  | Oracle => v Terminating Declared
  | CustodialEscrow => v Terminating Declared
  end.

Definition is_load_bearing_exception (k : CoordinatorKind) : bool :=
  match k with CustodialEscrow => true | _ => false end.

Definition from_wire_str (s : string) : option CoordinatorKind :=
  if decide (s = "gateway"%string) then Some Gateway
  else if decide (s = "relay"%string) then Some Relay
  else if decide (s = "media-relay"%string) then Some MediaRelay
  else if decide (s = "reachability-adapter"%string) then Some ReachabilityAdapter
  else if decide (s = "indexer"%string) then Some Indexer
  else if decide (s = "labeler"%string) then Some Labeler
  else if decide (s = "matcher"%string) then Some Matcher
  else if decide (s = "compute"%string) then Some Compute
  else if decide (s = "arbiter"%string) then Some Arbiter
  else if decide (s = "oracle"%string) then Some Oracle
  else if decide (s = "custodial-escrow"%string) then Some CustodialEscrow
  else None.

Definition is_scarce_reachability (k : CoordinatorKind) : bool :=
  match k with Gateway | ReachabilityAdapter => true | _ => false end.

Lemma from_wire_str_as_str k : from_wire_str (as_str k) = Some k.
Proof. by destruct k. Qed.

(** The parser accepts exactly the eleven printed names. *)
Lemma from_wire_str_Some s k : from_wire_str s = Some k ↔ s = as_str k.
Proof.
  split; [|intros ->; apply from_wire_str_as_str].
  unfold from_wire_str. intros H. case_all.
Qed.

End Kinds.
