(* ===== verification/Kotva.v ===== *)
(** * The kotva-core interface

    Signing, identity and the canonical CBOR codec live in the pinned external
    crate [kotva-core] (tag [core-v0.2.0]); its source is not part of the
    repository.  This file states what the repository relies on: the operations
    it calls ([KotvaCbor], [KotvaIdentity]) and, separately, the documented
    behaviour of those operations ([KotvaCborLaws], [KotvaIdentityLaws]) that
    client theorems assume.  The last module shows the laws are satisfiable by a
    concrete, executable codec and signature scheme, used by the witnesses. *)

From Stdlib Require Import ZArith Lia.
From stdpp Require Import base decidable option list strings gmap sorting countable pretty.
From S2P Require Import Prelude.

(** ** kotva_core::cbor *)

(** The value tree [Cv] (constructors and the pattern matches the callers use),
    the deterministic codec, the scalar readers and the map reader [Fields]. *)
Class KotvaCbor := {
  Cv : Type;
  CborError : Type;
  cv_u64 : Z → Cv;
  cv_bytes : bytes → Cv;
  cv_text : string → Cv;
  cv_map : list (Z * Cv) → Cv;
  (** [match cv { Cv::Text(s) => Some(s), _ => None }] and the like *)
  match_text : Cv → option string;
  match_map : Cv → option (list (Z * Cv));
  cbor_encode : Cv → bytes;
  cbor_decode : bytes → result CborError Cv;
  as_u64 : Cv → result CborError Z;
  as_u8 : Cv → result CborError Z;
  as_bytes_cv : Cv → result CborError bytes;
  as_text : Cv → result CborError string;
  Fields : Type;
  fields_from_cv : Cv → result CborError Fields;
  fields_req : Z → Fields → result CborError (Cv * Fields);
  fields_take : Z → Fields → option Cv * Fields;
  fields_deny_unknown : Fields → result CborError unit;
  fields_into_pairs : Fields → list (Z * Cv);
}.

(** Association-list lookup and removal by integer key: the vocabulary in which
    the behaviour of [Fields] is stated. *)
Fixpoint assoc {A} (k : Z) (m : list (Z * A)) : option A :=
  match m with
  | [] => None
  | (k', v) :: r => if decide (k = k') then Some v else assoc k r
  end.
Definition without {A} (k : Z) (m : list (Z * A)) : list (Z * A) :=
  filter (λ kv, kv.1 ≠ k) m.

(** Map keys of a canonical map: [u64], strictly ascending. *)
Definition keys_ascending {A} (m : list (Z * A)) : Prop :=
  StronglySorted Z.lt m.*1 ∧ Forall (λ kv, U64.valid kv.1) m.

Class KotvaCborLaws `{K : KotvaCbor} := {
  (** values the codec represents losslessly *)
  cv_ok : Cv → Prop;
  cv_ok_u64 n : U64.valid n → cv_ok (cv_u64 n);
  cv_ok_bytes b : cv_ok (cv_bytes b);
  cv_ok_text s : cv_ok (cv_text s);
  cv_ok_map m : keys_ascending m → Forall (λ kv, cv_ok kv.2) m → cv_ok (cv_map m);
  (** decoding inverts the deterministic encoding *)
  cbor_decode_encode cv : cv_ok cv → cbor_decode (cbor_encode cv) = Ok cv;
  match_text_text s : match_text (cv_text s) = Some s;
  match_map_map m : match_map (cv_map m) = Some m;
  as_u64_u64 n : U64.valid n → as_u64 (cv_u64 n) = Ok n;
  as_u64_valid cv n : as_u64 cv = Ok n → U64.valid n;
  as_u8_u64 n : 0 ≤ n < 256 → as_u8 (cv_u64 n) = Ok n;
  as_bytes_bytes b : as_bytes_cv (cv_bytes b) = Ok b;
  as_text_text s : as_text (cv_text s) = Ok s;
  (** [Fields] is the map's pair list; [req]/[take] remove the key they read, a
      missing required key is an error, and [deny_unknown] accepts only when
      every key has been consumed *)
  fields_from_map m :
    keys_ascending m →
    ∃ f, fields_from_cv (cv_map m) = Ok f ∧ fields_into_pairs f = m;
  fields_req_Some k f v :
    assoc k (fields_into_pairs f) = Some v →
    ∃ f', fields_req k f = Ok (v, f') ∧
          fields_into_pairs f' = without k (fields_into_pairs f);
  fields_req_None k f :
    assoc k (fields_into_pairs f) = None → ∃ e, fields_req k f = Err e;
  fields_take_spec k f :
    (fields_take k f).1 = assoc k (fields_into_pairs f) ∧
    fields_into_pairs (fields_take k f).2 = without k (fields_into_pairs f);
  fields_deny_nil f : fields_into_pairs f = [] → fields_deny_unknown f = Ok tt;
  fields_deny_cons f :
    fields_into_pairs f ≠ [] → ∃ e, fields_deny_unknown f = Err e;
}.

(** ** kotva_core::identity *)

Class KotvaIdentity := {
  IdentityKey : Type;
  IdentityError : Type;
  public : IdentityKey → bytes;
  sign_domain : IdentityKey → bytes → bytes → bytes;
  verify_domain : bytes → bytes → bytes → bytes → result IdentityError unit;
}.

(** A signature is over the concatenation [domain ‖ msg]; an honest signature
    verifies. *)
Class KotvaIdentityLaws `{KotvaIdentity} := {
  sign_verify ik ds m :
    verify_domain (public ik) ds m (sign_domain ik ds m) = Ok tt;
}.

(** The unforgeability of the scheme in its symbolic reading: a signature made by
    a key over one preimage verifies under that key over that preimage only. *)
Class KotvaUnforgeable `{KotvaIdentity} := {
  verify_binding ik ds m pk ds' m' :
    verify_domain pk ds' m' (sign_domain ik ds m) = Ok tt →
    pk = public ik ∧ ds' ++ m' = ds ++ m;
}.

(** ** Lemmas on pair lists *)

Section assoc.
Context {A : Type}.
Implicit Types m : list (Z * A).

Lemma assoc_None k m : assoc k m = None ↔ k ∉ m.*1.
Proof.
  induction m as [|[k' v] m IH]; simpl; [set_solver|].
  case_decide; set_solver.
Qed.

Lemma without_notin k m : k ∉ m.*1 → without k m = m.
Proof.
  induction m as [|[k' v] m IH]; [done|]. intros Hn. unfold without in *.
  rewrite filter_cons_True by set_solver. by rewrite IH by set_solver.
Qed.

(** Removing the head key of an ascending list leaves its tail. *)
Lemma without_head k v m :
  keys_ascending ((k, v) :: m) → without k ((k, v) :: m) = m.
Proof.
  intros [Hs _]. unfold without. rewrite filter_cons_False by naive_solver.
  apply without_notin. inversion Hs as [|? ? _ Hlt]; simplify_eq/=.
  intros Hin. rewrite Forall_forall in Hlt. specialize (Hlt k Hin). lia.
Qed.
End assoc.

(** Sequential consumption of the keys of a [Fields] value: reading the head key
    of its pair list. *)
Lemma fields_req_head `{KotvaCborLaws} k v m f :
  fields_into_pairs f = (k, v) :: m → keys_ascending ((k, v) :: m) →
  ∃ f', fields_req k f = Ok (v, f') ∧ fields_into_pairs f' = m.
Proof.
  intros Hf Ha. destruct (fields_req_Some k f v) as (f' & -> & Hp).
  { rewrite Hf. simpl. by rewrite decide_True. }
  exists f'. split; [done|]. by rewrite Hp, Hf, without_head.
Qed.

Lemma fields_take_head `{KotvaCborLaws} k v m f :
  fields_into_pairs f = (k, v) :: m → keys_ascending ((k, v) :: m) →
  ∃ f', fields_take k f = (Some v, f') ∧ fields_into_pairs f' = m.
Proof.
  intros Hf Ha. destruct (fields_take_spec k f) as [H1 H2].
  destruct (fields_take k f) as [o f'] eqn:E. simpl in *. exists f'.
  rewrite H1, H2, Hf, without_head by done. simpl. by rewrite decide_True.
Qed.

Lemma fields_take_absent `{KotvaCborLaws} k f :
  k ∉ (fields_into_pairs f).*1 →
  ∃ f', fields_take k f = (None, f') ∧ fields_into_pairs f' = fields_into_pairs f.
Proof.
  intros Hn. destruct (fields_take_spec k f) as [H1 H2].
  destruct (fields_take k f) as [o f'] eqn:E. simpl in *. exists f'.
  rewrite H1, H2, without_notin by done. by apply assoc_None in Hn as ->.
Qed.

(** What a successful read says about the pairs. *)
Lemma fields_req_inv `{KotvaCborLaws} k f v f' :
  fields_req k f = Ok (v, f') →
  assoc k (fields_into_pairs f) = Some v ∧
  fields_into_pairs f' = without k (fields_into_pairs f).
Proof.
  intros E. destruct (assoc k (fields_into_pairs f)) as [v'|] eqn:Ha.
  - destruct (fields_req_Some k f v' Ha) as (f'' & E' & Hp). rewrite E in E'. by simplify_eq.
  - destruct (fields_req_None k f Ha) as [e E']. congruence.
Qed.

Lemma fields_deny_inv `{KotvaCborLaws} f :
  fields_deny_unknown f = Ok tt → fields_into_pairs f = [].
Proof.
  intros E. destruct (fields_into_pairs f) eqn:Hp; [done|].
  destruct (fields_deny_cons f) as [e E']; congruence.
Qed.

Lemma assoc_without_ne {A} k k' (m : list (Z * A)) :
  k ≠ k' → assoc k (without k' m) = assoc k m.
Proof.
  intros Hne. induction m as [|[j v] m IH]; [done|]. unfold without in *.
  rewrite filter_cons. simpl. repeat case_decide; simpl; simplify_eq; try done.
  - by rewrite decide_True.
  - by rewrite decide_False.
Qed.

Lemma without_keys {A} k k' (m : list (Z * A)) :
  k ∈ m.*1 → k ≠ k' → k ∈ (without k' m).*1.
Proof.
  intros (kv & -> & Hin)%list_elem_of_fmap Hne. apply list_elem_of_fmap.
  exists kv. split; [done|]. by apply list_elem_of_filter.
Qed.

Lemma keys_ascending_tail {A} (kv : Z * A) m :
  keys_ascending (kv :: m) → keys_ascending m.
Proof. intros [Hs Hv]. inversion Hs; inversion Hv; by simplify_eq/=. Qed.

(** Discharge [keys_ascending] on a literal key list. *)
Ltac solve_ascending :=
  split; simpl;
  [ repeat first [apply SSorted_nil | apply SSorted_cons | apply Forall_nil_2
                 | apply Forall_cons_2; [lia|]]
  | repeat first [apply Forall_nil_2
                 | apply Forall_cons_2; [unfold U64.valid, U64.MAX; simpl; lia|]] ].

(** The key is not among the pairs' keys (for an optional field). *)
Ltac solve_absent := simpl; rewrite ?not_elem_of_cons; repeat split; try lia; set_solver.

(** Discharge [cv_ok] of a literal value tree. *)
Ltac solve_cv_ok :=
  repeat first
    [ progress simpl
    | assumption
    | apply Forall_nil_2
    | apply Forall_cons_2
    | apply cv_ok_bytes
    | apply cv_ok_text
    | apply cv_ok_u64; first [assumption | unfold U64.valid, U64.MAX; lia]
    | apply cv_ok_map; [solve_ascending|] ].

(** One read of a [Fields] value whose remaining pairs are known. *)
Ltac fields_step :=
  match goal with
  | Hf : fields_into_pairs ?f = (?k, ?v) :: ?m |- context [fields_req ?k ?f] =>
      let f' := fresh "f" in let E := fresh "E" in let Hf' := fresh "Hf" in
      destruct (fields_req_head k v m f Hf) as (f' & E & Hf');
      [solve_ascending | rewrite E; clear E Hf; simpl]
  | Hf : fields_into_pairs ?f = (?k, ?v) :: ?m |- context [fields_take ?k ?f] =>
      let f' := fresh "f" in let E := fresh "E" in let Hf' := fresh "Hf" in
      destruct (fields_take_head k v m f Hf) as (f' & E & Hf');
      [solve_ascending | rewrite E; clear E Hf; simpl]
  | Hf : fields_into_pairs ?f = ?m |- context [fields_take ?k ?f] =>
      let f' := fresh "f" in let E := fresh "E" in let Hf' := fresh "Hf" in
      destruct (fields_take_absent k f) as (f' & E & Hf');
      [rewrite Hf; solve_absent | rewrite E; rewrite Hf in Hf'; clear E Hf; simpl]
  | Hf : fields_into_pairs ?f = [] |- context [fields_deny_unknown ?f] =>
      rewrite (fields_deny_nil f Hf); simpl
  | |- context [fields_from_cv (cv_map ?m)] =>
      let f' := fresh "f" in let E := fresh "E" in let Hf' := fresh "Hf" in
      destruct (fields_from_map m) as (f' & E & Hf');
      [solve_ascending | rewrite E; clear E; simpl]
  end.

(** ** A concrete instance

    A value tree with the four constructors, an injective bit-level codec and a
    signature scheme whose signatures carry key and preimage.  It satisfies all
    the laws above, and evaluates. *)
Module Reference.

#[local] Unset Elimination Schemes.
Inductive tcv :=
| TU64 (n : Z)
| TBytes (b : bytes)
| TText (s : string)
| TMap (m : list (Z * tcv)).
#[local] Set Elimination Schemes.

Fixpoint tcv_ind (P : tcv → Prop)
  (HU : ∀ n, P (TU64 n)) (HB : ∀ b, P (TBytes b)) (HT : ∀ s, P (TText s))
  (HM : ∀ m, Forall (λ kv, P kv.2) m → P (TMap m)) (c : tcv) : P c :=
  match c with
  | TU64 n => HU n
  | TBytes b => HB b
  | TText s => HT s
  | TMap m => HM m
      ((fix go (l : list (Z * tcv)) : Forall (λ kv, P kv.2) l :=
          match l with
          | [] => Forall_nil_2 _
          | kv :: r => Forall_cons_2 _ _ _ (tcv_ind P HU HB HT HM kv.2) (go r)
          end) m)
  end.

Abbreviation tree := (gen_tree (Z + (bytes + string))).

Fixpoint to_tree (c : tcv) : tree :=
  match c with
  | TU64 n => GenLeaf (inl n)
  | TBytes b => GenLeaf (inr (inl b))
  | TText s => GenLeaf (inr (inr s))
  | TMap m => GenNode 0 (map (λ kv, GenNode 1 [GenLeaf (inl kv.1); to_tree kv.2]) m)
  end.

Fixpoint of_tree (t : tree) : tcv :=
  match t with
  | GenLeaf (inl n) => TU64 n
  | GenLeaf (inr (inl b)) => TBytes b
  | GenLeaf (inr (inr s)) => TText s
  | GenNode _ l =>
      TMap (map (λ t', match t' with
                       | GenNode _ [GenLeaf (inl k); v] => (k, of_tree v)
                       | _ => (0, TU64 0)
                       end) l)
  end.

Lemma of_to_tree c : of_tree (to_tree c) = c.
Proof.
  induction c as [n|b|s|m IH]; simpl; try done. f_equal.
  induction IH as [|[k v] m Hv _ IH']; simpl in *; [done|].
  by rewrite Hv, IH'.
Qed.

Fixpoint pos_to_bytes (p : positive) : bytes :=
  match p with
  | xH => [Byte.x02]
  | xO p => Byte.x00 :: pos_to_bytes p
  | xI p => Byte.x01 :: pos_to_bytes p
  end.
Fixpoint bytes_to_pos (bs : bytes) : option positive :=
  match bs with
  | [Byte.x02] => Some xH
  | Byte.x00 :: r => xO <$> bytes_to_pos r
  | Byte.x01 :: r => xI <$> bytes_to_pos r
  | _ => None
  end.
Lemma bytes_to_pos_to_bytes p : bytes_to_pos (pos_to_bytes p) = Some p.
Proof. induction p as [p IH|p IH|]; simpl; [by rewrite IH..|done]. Qed.

#[export] Instance ref_cbor : KotvaCbor := {|
  Cv := tcv;
  CborError := string;
  cv_u64 := TU64; cv_bytes := TBytes; cv_text := TText; cv_map := TMap;
  match_text c := match c with TText s => Some s | _ => None end;
  match_map c := match c with TMap m => Some m | _ => None end;
  cbor_encode c := pos_to_bytes (encode (to_tree c));
  cbor_decode bs :=
    match bytes_to_pos bs ≫= decode with
    | Some t => Ok (of_tree t)
    | None => Err "malformed"%string
    end;
  as_u64 c := match c with
              | TU64 n => if decide (U64.valid n) then Ok n else Err "range"%string
              | _ => Err "type"%string
              end;
  as_u8 c := match c with
             | TU64 n => if decide (0 ≤ n < 256) then Ok n else Err "range"%string
             | _ => Err "type"%string
             end;
  as_bytes_cv c := match c with TBytes b => Ok b | _ => Err "type"%string end;
  as_text c := match c with TText s => Ok s | _ => Err "type"%string end;
  Fields := list (Z * tcv);
  fields_from_cv c := match c with TMap m => Ok m | _ => Err "type"%string end;
  fields_req k m := match assoc k m with
                    | Some v => Ok (v, without k m)
                    | None => Err "missing"%string
                    end;
  fields_take k m := (assoc k m, without k m);
  fields_deny_unknown m := match m with [] => Ok tt | _ => Err "unknown"%string end;
  fields_into_pairs m := m;
|}.

#[export] Program Instance ref_cbor_laws : KotvaCborLaws := {|
  cv_ok c := True
|}.
Solve Obligations with (simpl; intros; try done; eauto).
Next Obligation.
  intros cv _. simpl. rewrite bytes_to_pos_to_bytes. simpl.
  rewrite decode_encode. by rewrite of_to_tree.
Qed.
Next Obligation. intros n Hn. simpl. by rewrite decide_True. Qed.
Next Obligation. intros cv n. simpl. intros. by case_all. Qed.
Next Obligation. intros n Hn. simpl. by rewrite decide_True. Qed.
Next Obligation. intros k f v. simpl. intros ->. eauto. Qed.
Next Obligation. intros k f. simpl. intros ->. eauto. Qed.
Next Obligation. intros f. simpl. by intros ->. Qed.
Next Obligation. intros f. simpl. destruct f; [done|eauto]. Qed.

Definition seal (pk m : bytes) : bytes := pos_to_bytes (encode (pk, m)).
Lemma seal_inj pk m pk' m' : seal pk m = seal pk' m' → pk = pk' ∧ m = m'.
Proof.
  unfold seal. intros H. apply (f_equal bytes_to_pos) in H.
  rewrite !bytes_to_pos_to_bytes in H. injection H as H.
  apply (inj encode) in H. naive_solver.
Qed.

#[export] Instance ref_identity : KotvaIdentity := {|
  IdentityKey := bytes;
  IdentityError := unit;
  public ik := ik;
  sign_domain ik ds m := seal ik (ds ++ m);
  verify_domain pk ds m sig :=
    if decide (sig = seal pk (ds ++ m)) then Ok tt else Err tt;
|}.

#[export] Instance ref_identity_laws : KotvaIdentityLaws.
Proof. constructor. intros. simpl. by rewrite decide_True. Qed.
#[export] Instance ref_identity_unforgeable : KotvaUnforgeable.
Proof.
  constructor. intros ik ds m pk ds' m'. simpl. case_decide as Hs; [|done].
  intros _. apply seal_inj in Hs as [-> ->]. done.
Qed.

End Reference.
