(* ===== verification/Descriptor.v ===== *)
(** * Descriptor, tariff and usage receipt

    [crates/broker-economics/src/descriptor.rs]: the three signed objects of the
    coordinator contract, their canonical-CBOR bodies, domain-separated
    signatures, and the fail-closed decoders. *)

From Stdlib Require Import ZArith Lia.
From stdpp Require Import base decidable option list strings gmap sorting.
From S2P Require Import Prelude Visibility Kotva.
Import Visibility Kinds.

(** [Suite::from_u8(b)] matched against [Some(Suite::Classical)]
    ([kotva_core::suite]). *)
Class KotvaSuite := suite_is_classical : Z → bool.
(** [0x01] is the classical suite's id and no other byte is. *)
Class KotvaSuiteLaws `{KotvaSuite} :=
  suite_classical b : suite_is_classical b = true ↔ b = 1.

Definition DESCRIPTOR_DS : bytes := as_bytes "DMTAP-COORD-v0/descriptor" ++ [Byte.x00].
Definition TARIFF_DS : bytes := as_bytes "DMTAP-COORD-v0/tariff" ++ [Byte.x00].
Definition USAGE_RECEIPT_DS : bytes := as_bytes "DMTAP-COORD-v0/usage-receipt" ++ [Byte.x00].

Definition SUITE : Z := 1.

Section descriptor.
Context `{KC : KotvaCbor} `{KI : KotvaIdentity} `{KS : KotvaSuite}.

Inductive DescriptorError :=
| BadSignature (e : IdentityError)
| BadEncoding (e : CborError)
| Malformed (what : string)
| UnsupportedSuite (b : Z)
| Expired (valid_until now : Z).

Definition require_supported_suite (cv : Cv) : result DescriptorError unit :=
  b ← map_err BadEncoding (as_u8 cv);
  if suite_is_classical b then Ok tt else Err (UnsupportedSuite b).

(** [Cbor(pub Vec<u8>)]: opaque deterministic-CBOR bytes. *)
Definition Cbor := bytes.
Definition Cbor_from_cv (cv : Cv) : Cbor := cbor_encode cv.
Definition Cbor_decode (c : Cbor) : result CborError Cv := cbor_decode c.

Definition visibility_to_cv (v : ContentVisibility) : Cv :=
  let class := match class v with
               | Blind => "blind"
               | BlindRouting => "blind-routing"
               | Terminating => "terminating"
               end in
  let level := match level v with
               | Structural => "structural"
               | Attested => "attested"
               | Declared => "declared"
               end in
  cv_map [(1, cv_text class); (2, cv_text level)].

Definition visibility_from_cv (cv : Cv) : result DescriptorError ContentVisibility :=
  f ← map_err BadEncoding (fields_from_cv cv);
  '(v, f) ← map_err BadEncoding (fields_req 1 f);
  t ← map_err BadEncoding (as_text v);
  class ← (if decide (t = "blind"%string) then Ok Blind
           else if decide (t = "blind-routing"%string) then Ok BlindRouting
           else if decide (t = "terminating"%string) then Ok Terminating
           else Err (Malformed "unknown visibility class"));
  '(v, f) ← map_err BadEncoding (fields_req 2 f);
  t ← map_err BadEncoding (as_text v);
  level ← (if decide (t = "structural"%string) then Ok Structural
           else if decide (t = "attested"%string) then Ok Attested
           else if decide (t = "declared"%string) then Ok Declared
           else Err (Malformed "unknown assurance level"));
  _ ← map_err BadEncoding (fields_deny_unknown f);
  Ok (new class level).

(** *** Tariff *)

Record Tariff := {
  tariff_identity : bytes;
  schedule : Cbor;
  valid_until : option Z;
  tariff_sig : bytes;
}.

Definition Tariff_body_cv (identity : bytes) (schedule : Cbor) (valid_until : option Z) : Cv :=
  cv_map ([(1, cv_u64 SUITE); (2, cv_bytes identity); (3, cv_bytes schedule)]
          ++ match valid_until with Some v => [(4, cv_u64 v)] | None => [] end).

Definition Tariff_signing_body (identity : bytes) (schedule : Cbor) (valid_until : option Z) : bytes :=
  cbor_encode (Tariff_body_cv identity schedule valid_until).

Definition Tariff_sign_with_validity (schedule : Cbor) (valid_until : option Z)
    (ik : IdentityKey) : Tariff :=
  let identity := public ik in
  let sig := sign_domain ik TARIFF_DS (Tariff_signing_body identity schedule valid_until) in
  {| tariff_identity := identity; schedule := schedule;
     valid_until := valid_until; tariff_sig := sig |}.

Definition Tariff_sign (schedule : Cbor) (ik : IdentityKey) : Tariff :=
  Tariff_sign_with_validity schedule None ik.

(** [now] is the wall clock [now_ms()] reads. *)
Definition Tariff_verify (now : Z) (t : Tariff) : result DescriptorError unit :=
  _ ← map_err BadSignature
        (verify_domain (tariff_identity t) TARIFF_DS
           (Tariff_signing_body (tariff_identity t) (schedule t) (valid_until t))
           (tariff_sig t));
  match valid_until t with
  | Some v => if v <? now then Err (Expired v now) else Ok tt
  | None => Ok tt
  end.

Definition Tariff_to_cv (t : Tariff) : Cv :=
  cv_map ([(1, cv_u64 SUITE); (2, cv_bytes (tariff_identity t)); (3, cv_bytes (schedule t))]
          ++ match valid_until t with Some v => [(4, cv_u64 v)] | None => [] end
          ++ [(5, cv_bytes (tariff_sig t))]).

Definition Tariff_from_cv (cv : Cv) : result DescriptorError Tariff :=
  f ← map_err BadEncoding (fields_from_cv cv);
  '(v, f) ← map_err BadEncoding (fields_req 1 f);
  _ ← require_supported_suite v;
  '(v, f) ← map_err BadEncoding (fields_req 2 f);
  identity ← map_err BadEncoding (as_bytes_cv v);
  '(v, f) ← map_err BadEncoding (fields_req 3 f);
  schedule ← map_err BadEncoding (as_bytes_cv v);
  let '(o, f) := fields_take 4 f in
  valid_until ← map_err BadEncoding (transpose (as_u64 <$> o));
  '(v, f) ← map_err BadEncoding (fields_req 5 f);
  sig ← map_err BadEncoding (as_bytes_cv v);
  _ ← map_err BadEncoding (fields_deny_unknown f);
  Ok {| tariff_identity := identity; schedule := schedule;
        valid_until := valid_until; tariff_sig := sig |}.

(** *** Descriptor *)

Record Descriptor := {
  identity : bytes;
  kind : CoordinatorKind;
  visibility : ContentVisibility;
  policy : Cbor;
  tariff : option Tariff;
}.

(** The pairs [to_cv] wraps in a map; [SignedDescriptor::det_cbor] takes them
    apart again to append the signature. *)
Definition Descriptor_pairs (d : Descriptor) : list (Z * Cv) :=
  [(1, cv_u64 SUITE); (2, cv_text (as_str (kind d))); (3, cv_bytes (identity d));
   (4, visibility_to_cv (visibility d)); (5, cv_bytes (policy d))]
  ++ match tariff d with Some t => [(6, Tariff_to_cv t)] | None => [] end.

Definition Descriptor_to_cv (d : Descriptor) : Cv := cv_map (Descriptor_pairs d).

Definition Descriptor_from_cv (cv : Cv) : result DescriptorError Descriptor :=
  f ← map_err BadEncoding (fields_from_cv cv);
  '(v, f) ← map_err BadEncoding (fields_req 1 f);
  _ ← require_supported_suite v;
  '(v, f) ← map_err BadEncoding (fields_req 2 f);
  s ← map_err BadEncoding (as_text v);
  kind ← ok_or (Malformed "unknown coordinator kind") (from_wire_str s);
  '(v, f) ← map_err BadEncoding (fields_req 3 f);
  identity ← map_err BadEncoding (as_bytes_cv v);
  '(v, f) ← map_err BadEncoding (fields_req 4 f);
  visibility ← visibility_from_cv v;
  '(v, f) ← map_err BadEncoding (fields_req 5 f);
  policy ← map_err BadEncoding (as_bytes_cv v);
  let '(o, f) := fields_take 6 f in
  tariff ← transpose (Tariff_from_cv <$> o);
  _ ← map_err BadEncoding (fields_deny_unknown f);
  Ok {| identity := identity; kind := kind; visibility := visibility;
        policy := policy; tariff := tariff |}.

Definition Descriptor_signing_body (d : Descriptor) : bytes :=
  cbor_encode (Descriptor_to_cv d).

Record SignedDescriptor := {
  descriptor : Descriptor;
  sd_sig : bytes;
}.

Definition Descriptor_sign (d : Descriptor) (ik : IdentityKey) : SignedDescriptor :=
  {| descriptor := d; sd_sig := sign_domain ik DESCRIPTOR_DS (Descriptor_signing_body d) |}.

Definition SignedDescriptor_verify (s : SignedDescriptor) : result DescriptorError unit :=
  map_err BadSignature
    (verify_domain (identity (descriptor s)) DESCRIPTOR_DS
       (Descriptor_signing_body (descriptor s)) (sd_sig s)).

Definition SignedDescriptor_det_cbor (s : SignedDescriptor) : bytes :=
  cbor_encode (cv_map (Descriptor_pairs (descriptor s) ++ [(7, cv_bytes (sd_sig s))])).

Definition SignedDescriptor_from_det_cbor (bs : bytes) : result DescriptorError SignedDescriptor :=
  cv ← map_err BadEncoding (cbor_decode bs);
  f ← map_err BadEncoding (fields_from_cv cv);
  '(v, f) ← map_err BadEncoding (fields_req 7 f);
  sig ← map_err BadEncoding (as_bytes_cv v);
  d ← Descriptor_from_cv (cv_map (fields_into_pairs f));
  let signed := {| descriptor := d; sd_sig := sig |} in
  _ ← SignedDescriptor_verify signed;
  Ok signed.

(** *** UsageReceipt *)

Record UsageReceipt := {
  receipt_identity : bytes;
  operation : Cbor;
  receipt_sig : bytes;
}.

Definition UsageReceipt_body_cv (identity : bytes) (operation : Cbor) : Cv :=
  cv_map [(1, cv_u64 SUITE); (2, cv_bytes identity); (3, cv_bytes operation)].

Definition UsageReceipt_signing_body (identity : bytes) (operation : Cbor) : bytes :=
  cbor_encode (UsageReceipt_body_cv identity operation).

Definition UsageReceipt_sign (operation : Cbor) (ik : IdentityKey) : UsageReceipt :=
  let identity := public ik in
  {| receipt_identity := identity; operation := operation;
     receipt_sig := sign_domain ik USAGE_RECEIPT_DS (UsageReceipt_signing_body identity operation) |}.

Definition UsageReceipt_verify (r : UsageReceipt) : result DescriptorError unit :=
  map_err BadSignature
    (verify_domain (receipt_identity r) USAGE_RECEIPT_DS
       (UsageReceipt_signing_body (receipt_identity r) (operation r)) (receipt_sig r)).

End descriptor.


(** ** Laws of the codecs *)

Section codec_laws.
Context `{KC : KotvaCbor} `{KCL : !KotvaCborLaws} `{KI : KotvaIdentity} `{KS : KotvaSuite} `{KSL : !KotvaSuiteLaws}.

(** A descriptor/tariff whose optional expiry is a [u64]. *)
Definition Tariff_wf (t : Tariff) : Prop :=
  match valid_until t with Some v => U64.valid v | None => True end.
Definition Descriptor_wf (d : Descriptor) : Prop :=
  match tariff d with Some t => Tariff_wf t | None => True end.

Lemma suite_accepted : require_supported_suite (cv_u64 SUITE) = Ok tt.
Proof.
  unfold require_supported_suite, SUITE. rewrite as_u8_u64 by lia. simpl.
  by rewrite (proj2 (suite_classical 1) eq_refl).
Qed.

Hint Rewrite suite_accepted as_bytes_bytes as_text_text
  from_wire_str_as_str : wire.
Ltac wire := repeat first [fields_step | progress (autorewrite with wire; simpl)]; try done.

Lemma visibility_roundtrip v : visibility_from_cv (visibility_to_cv v) = Ok v.
Proof.
  unfold visibility_from_cv, visibility_to_cv. destruct v as [[] []]; simpl; by wire.
Qed.

Lemma Tariff_roundtrip t : Tariff_wf t → Tariff_from_cv (Tariff_to_cv t) = Ok t.
Proof.
  unfold Tariff_wf, Tariff_from_cv, Tariff_to_cv.
  destruct t as [ik sch [v|] sig]; simpl; intros Hw; wire.
  rewrite as_u64_u64 by done. simpl. by wire.
Qed.

Lemma Descriptor_roundtrip d :
  Descriptor_wf d → Descriptor_from_cv (Descriptor_to_cv d) = Ok d.
Proof.
  unfold Descriptor_wf, Descriptor_from_cv, Descriptor_to_cv, Descriptor_pairs.
  destruct d as [ik k v p [t|]]; simpl; intros Hw; wire;
    rewrite visibility_roundtrip; simpl; wire.
  by rewrite Tariff_roundtrip by done; simpl; wire.
Qed.

(** Whatever decodes has a [u64] expiry. *)
Lemma Tariff_from_cv_wf cv t : Tariff_from_cv cv = Ok t → Tariff_wf t.
Proof.
  unfold Tariff_from_cv, Tariff_wf. intros H. inv_ok. simpl. case_match; [|done]. subst.
  match goal with Hv : transpose (as_u64 <$> ?o) = Ok (Some _) |- _ =>
    destruct o as [cv'|]; simpl in Hv; [|done];
    destruct (as_u64 cv') eqn:E; simplify_eq end.
  by eapply as_u64_valid.
Qed.

Lemma Tariff_to_cv_ok t : Tariff_wf t → cv_ok (Tariff_to_cv t).
Proof.
  unfold Tariff_wf, Tariff_to_cv, SUITE.
  destruct t as [ik sch [v|] sig]; simpl; intros Hv; solve_cv_ok.
Qed.

Lemma Descriptor_pairs_ok d :
  Descriptor_wf d → Forall (λ kv, cv_ok kv.2) (Descriptor_pairs d).
Proof.
  unfold Descriptor_wf, Descriptor_pairs, visibility_to_cv, SUITE.
  destruct d as [ik k v p [t|]]; simpl; intros Hw; [apply Tariff_to_cv_ok in Hw|];
    solve_cv_ok.
Qed.

Lemma Descriptor_to_cv_ok d : Descriptor_wf d → cv_ok (Descriptor_to_cv d).
Proof.
  intros Hw. apply cv_ok_map; [|by apply Descriptor_pairs_ok].
  unfold Descriptor_pairs. destruct (tariff d); solve_ascending.
Qed.

(** The signing body determines the descriptor. *)
Lemma Descriptor_signing_body_inj d d' :
  Descriptor_wf d → Descriptor_wf d' →
  Descriptor_signing_body d = Descriptor_signing_body d' → d = d'.
Proof.
  intros Hd Hd' H. unfold Descriptor_signing_body in H.
  apply (f_equal cbor_decode) in H.
  rewrite !cbor_decode_encode in H by by apply Descriptor_to_cv_ok.
  injection H as H. apply (f_equal Descriptor_from_cv) in H.
  rewrite !Descriptor_roundtrip in H by done. congruence.
Qed.

Lemma det_cbor_decodes s :
  Descriptor_wf (descriptor s) →
  SignedDescriptor_from_det_cbor (SignedDescriptor_det_cbor s) =
  (_ ← SignedDescriptor_verify s; Ok s).
Proof.
  intros Hw. unfold SignedDescriptor_from_det_cbor, SignedDescriptor_det_cbor.
  rewrite cbor_decode_encode.
  2:{ apply cv_ok_map.
      - unfold Descriptor_pairs. destruct (tariff (descriptor s)); solve_ascending.
      - apply Forall_app; split; [by apply Descriptor_pairs_ok|].
        solve_cv_ok. }
  simpl_res.
  destruct (fields_from_map (Descriptor_pairs (descriptor s) ++ [(7, cv_bytes (sd_sig s))]))
    as (f & -> & Hf).
  { unfold Descriptor_pairs. destruct (tariff (descriptor s)); solve_ascending. }
  simpl_res. destruct (fields_req_Some 7 f (cv_bytes (sd_sig s))) as (f' & -> & Hf').
  { rewrite Hf. unfold Descriptor_pairs. by destruct (tariff (descriptor s)). }
  simpl_res. rewrite as_bytes_bytes. simpl_res.
  assert (fields_into_pairs f' = Descriptor_pairs (descriptor s)) as ->.
  { rewrite Hf', Hf. unfold Descriptor_pairs. by destruct (tariff (descriptor s)). }
  change (cv_map (Descriptor_pairs (descriptor s))) with (Descriptor_to_cv (descriptor s)).
  rewrite Descriptor_roundtrip by done. simpl_res. by destruct s.
Qed.
End codec_laws.

(** ** What the signed objects guarantee *)

Section descriptor_theorems.
Context `{KC : KotvaCbor} `{KCL : !KotvaCborLaws} `{KI : KotvaIdentity}
  `{KS : KotvaSuite} `{KSL : !KotvaSuiteLaws}.

Lemma Descriptor_from_cv_wf cv d : Descriptor_from_cv cv = Ok d → Descriptor_wf d.
Proof.
  unfold Descriptor_from_cv, Descriptor_wf. intros H. inv_ok. simpl.
  case_match; [|done]. subst.
  match goal with Ht : transpose (Tariff_from_cv <$> ?o) = Ok (Some _) |- _ =>
    destruct o as [cv'|]; simpl in Ht; [|done];
    destruct (Tariff_from_cv cv') eqn:E; simplify_eq end.
  by eapply Tariff_from_cv_wf.
Qed.

Lemma from_det_cbor_inv bs s :
  SignedDescriptor_from_det_cbor bs = Ok s →
  SignedDescriptor_verify s = Ok tt ∧ Descriptor_wf (descriptor s).
Proof.
  unfold SignedDescriptor_from_det_cbor. intros H. inv_ok. simpl.
  repeat match goal with u : unit |- _ => destruct u end.
  eauto using Descriptor_from_cv_wf.
Qed.

End descriptor_theorems.

Section descriptor_properties.
Context `{KC : KotvaCbor} `{KCL : !KotvaCborLaws} `{KI : KotvaIdentity}
  `{KIL : !KotvaIdentityLaws} `{KU : !KotvaUnforgeable}
  `{KS : KotvaSuite} `{KSL : !KotvaSuiteLaws}.

(** A descriptor signed under the key it declares survives the wire: encoding
    the signed form and running the untrusted decoder gives it back, verified. *)
Theorem signed_descriptor_roundtrip d ik :
  Descriptor_wf d → identity d = public ik →
  SignedDescriptor_from_det_cbor (SignedDescriptor_det_cbor (Descriptor_sign d ik))
  = Ok (Descriptor_sign d ik).
Proof using KCL KIL KSL.
  intros Hw Hik. rewrite det_cbor_decodes by done.
  unfold SignedDescriptor_verify, Descriptor_sign. simpl.
  by rewrite Hik, sign_verify.
Qed.

(** Tamper evidence: a wire descriptor the decoder accepts, carrying a signature
    that key [ik] made over descriptor [d0], is [d0] and declares [ik]. *)
Theorem accepted_descriptor_is_the_signed_one bs s d0 ik :
  Descriptor_wf d0 →
  SignedDescriptor_from_det_cbor bs = Ok s →
  sd_sig s = sd_sig (Descriptor_sign d0 ik) →
  descriptor s = d0 ∧ identity d0 = public ik.
Proof using KCL KU KSL.
  intros Hd0 (Hv & Hw)%from_det_cbor_inv Hsig.
  unfold SignedDescriptor_verify in Hv. rewrite Hsig in Hv. apply map_err_Ok in Hv.
  apply verify_binding in Hv as [Hid Heq].
  apply app_inv_head in Heq. apply Descriptor_signing_body_inj in Heq; [|done..].
  by subst.
Qed.

(** The decoder is strict: whatever it accepts as a descriptor body has exactly
    keys within [1..6], the five mandatory ones present, and suite [0x01]. *)
Theorem descriptor_decoder_strict m d :
  keys_ascending m →
  Descriptor_from_cv (cv_map m) = Ok d →
  Forall (λ kv, 1 ≤ kv.1 ≤ 6) m ∧
  (∃ v, assoc 1 m = Some v ∧ as_u8 v = Ok 1) ∧
  Forall (λ k, is_Some (assoc k m)) [2; 3; 4; 5].
Proof using KCL KSL.
  intros Hm. unfold Descriptor_from_cv.
  destruct (fields_from_map m Hm) as (f0 & -> & Hf0). simpl_res. intros H. inv_ok.
  repeat match goal with
  | E : fields_req _ _ = Ok _ |- _ => apply fields_req_inv in E as [? ?]
  | u : unit |- _ => destruct u
  | E : fields_deny_unknown _ = Ok _ |- _ => apply fields_deny_inv in E
  | E : fields_take 6 ?f = (_, _) |- _ =>
      let H1 := fresh in destruct (fields_take_spec 6 f) as [_ H1]; rewrite E in H1; simpl in H1; clear E
  end.
  repeat match goal with
  | E : fields_into_pairs ?f = without _ _ |- _ => rewrite E in *; clear E
  end.
  repeat match goal with
  | E : assoc _ (without _ _) = Some _ |- _ => rewrite !assoc_without_ne in E by lia
  end.
  split; [|split].
  - apply Forall_forall. intros kv Hin. destruct (decide (1 ≤ kv.1 ≤ 6)) as [|Hn]; [done|].
    exfalso. assert (kv.1 ∈ (fields_into_pairs f0).*1) as Hk by (apply list_elem_of_fmap; eauto).
    match goal with E : without 6 _ = [] |- _ =>
      eapply (not_elem_of_nil kv.1); change [] with (@fmap list _ (Z * Cv) Z fst []);
      rewrite <- E end.
    repeat (apply without_keys; [|lia]). done.
  - eexists. split; [done|].
    match goal with E : require_supported_suite _ = Ok _ |- _ => unfold require_supported_suite in E end.
    inv_ok. destruct (suite_is_classical _) eqn:Hc in *; [|done]. apply suite_classical in Hc. by subst.
  - repeat constructor; eauto.
Qed.

(** A tariff verifies exactly when its signature does and the clock has not
    passed its expiry; one the operator signs verifies until that instant and
    reports [Expired] after it. *)
Theorem tariff_validity_window sch v ik now :
  Tariff_verify now (Tariff_sign_with_validity sch (Some v) ik)
    = (if decide (now ≤ v) then Ok tt else Err (Expired v now)) ∧
  Tariff_verify now (Tariff_sign sch ik) = Ok tt.
Proof using KIL.
  unfold Tariff_verify, Tariff_sign, Tariff_sign_with_validity. simpl.
  rewrite !sign_verify. simpl. split; [|done].
  destruct (Z.ltb_spec v now); case_decide; [lia|done|done|lia].
Qed.
End descriptor_properties.

(** ** Witnesses *)
Module DescriptorWitness.
Import Reference.

#[local] Instance suite : KotvaSuite := λ b, b =? 1.
#[local] Instance suite_laws : KotvaSuiteLaws.
Proof. intros b. apply Z.eqb_eq. Qed.

Definition key : IdentityKey := [Byte.x11].
Definition sample : Descriptor :=
  {| identity := public key; kind := Relay; visibility := new Blind Structural;
     policy := []; tariff := Some (Tariff_sign_with_validity [Byte.x07] (Some 99) key) |}.

Lemma sample_wf : Descriptor_wf sample.
Proof. split; vm_compute; discriminate. Qed.

Lemma signed_descriptor_roundtrip_witness :
  SignedDescriptor_from_det_cbor (SignedDescriptor_det_cbor (Descriptor_sign sample key))
  = Ok (Descriptor_sign sample key).
Proof. apply (signed_descriptor_roundtrip sample key); [apply sample_wf|reflexivity]. Defined.

Lemma accepted_descriptor_witness :
  descriptor (Descriptor_sign sample key) = sample ∧ identity sample = public key.
Proof.
  apply (accepted_descriptor_is_the_signed_one
    (SignedDescriptor_det_cbor (Descriptor_sign sample key)) (Descriptor_sign sample key));
    [apply sample_wf | | reflexivity].
  rewrite det_cbor_decodes by apply sample_wf. unfold SignedDescriptor_verify.
  change (identity (descriptor (Descriptor_sign sample key))) with (public key).
  unfold Descriptor_sign. cbn [descriptor sd_sig]. by rewrite sign_verify.
Defined.

Lemma descriptor_decoder_strict_witness :
  Forall (λ kv : Z * Cv, 1 ≤ kv.1 ≤ 6) (Descriptor_pairs sample) ∧
  (∃ v, assoc 1 (Descriptor_pairs sample) = Some v ∧ as_u8 v = Ok 1) ∧
  Forall (λ k, is_Some (assoc k (Descriptor_pairs sample))) [2; 3; 4; 5].
Proof.
  apply (descriptor_decoder_strict (Descriptor_pairs sample) sample);
    [solve_ascending | apply (Descriptor_roundtrip sample), sample_wf].
Defined.

Lemma tariff_validity_window_witness :
  Tariff_verify 100 (Tariff_sign_with_validity [Byte.x07] (Some 99) key) = Err (Expired 99 100) ∧
  Tariff_verify 100 (Tariff_sign [Byte.x07] key) = Ok tt.
Proof. apply (tariff_validity_window [Byte.x07] 99 key 100). Defined.
End DescriptorWitness.
