(* ===== verification/Conformance.v ===== *)
(** * The conformance harness and the coordinator kinds

    [crates/broker-conformance/src/lib.rs] (the [Coordinator] trait and the
    COORD-1..8 checklist [check]) and the [Coordinator] implementations of the
    ten kind crates: [relay], [media-relay], [reachability-adapter], [gateway],
    [indexer], [labeler], [matcher], [arbiter], [oracle], [compute]. *)

From Stdlib Require Import ZArith Lia.
From stdpp Require Import base decidable option list strings gmap.
From S2P Require Import Prelude Visibility Kotva Descriptor.
Import Visibility Kinds.

(** ** broker-conformance *)
Module Conformance.

Inductive LockIn := LockIn_None | LockIn_Requires (why : string).
Inductive SelfHost :=
| Backstop | ScarceReachabilityException | SelfHost_None (why : string).
Inductive Gate :=
| Authorization | Classification (why : string) | DerivedViewOnly | NoDeliveryPath.
Inductive Metering := NotMetered | SignedReceiptsToPayer | NoReceipts (why : string).
Inductive Settlement := ExistingAssetsOnly | MintsToken (why : string).

(** [trait Coordinator] *)
Class Coordinator (T : Type) := {
  coord_kind : T → CoordinatorKind;
  coord_descriptor : T → Descriptor;
  lock_in : T → LockIn;
  self_host : T → SelfHost;
  delivery_path_gate : T → Gate;
  metering : T → Metering;
  settlement : T → Settlement;
}.

Inductive Outcome := Pass | Violation (why : string) | Behavioral (what : string).

Record Finding := { finding_id : string; clause : string; outcome : Outcome }.
Record Report := { report_kind : CoordinatorKind; findings : list Finding }.

Definition is_violation (o : Outcome) : bool :=
  match o with Violation _ => true | _ => false end.
Definition is_behavioral (o : Outcome) : bool :=
  match o with Behavioral _ => true | _ => false end.

Definition is_conformant (r : Report) : bool :=
  negb (existsb (λ f, is_violation (outcome f)) (findings r)).

Definition behavioral (r : Report) : list Finding :=
  List.filter (λ f, is_behavioral (outcome f)) (findings r).

Definition coord4 (v : ContentVisibility) : Outcome :=
  if must_not_present_as_verified v then
    Behavioral ("declared-level " +:+ visibility_fmt v +:+
      " claim: client MUST surface it as unverified, not verified (§3.4)")
  else Pass.

Definition check {T} `{Coordinator T} (c : T) : Report :=
  let d := coord_descriptor c in
  {| report_kind := coord_kind c;
     findings :=
     [ {| finding_id := "COORD-1"; clause := "§2.1";
          outcome :=
            if decide (kind d = coord_kind c)
            then Behavioral "verify descriptor signature once kotva-core is pinned"
            else Violation ("descriptor kind " +:+ as_str (kind d) +:+
                   " != operating kind " +:+ as_str (coord_kind c)) |};
       {| finding_id := "COORD-2"; clause := "§2.2";
          outcome := match lock_in c with
                     | LockIn_None => Pass
                     | LockIn_Requires why => Violation why
                     end |};
       {| finding_id := "COORD-3"; clause := "§2.3";
          outcome := match self_host c with
                     | Backstop => Pass
                     | ScarceReachabilityException =>
                         if is_scarce_reachability (coord_kind c) then Pass
                         else Violation (as_str (coord_kind c) +:+
                           " claims the scarce-reachability exception but is not a member of that class")
                     | SelfHost_None why => Violation why
                     end |};
       {| finding_id := "COORD-4"; clause := "§2.4/§3"; outcome := coord4 (visibility d) |};
       {| finding_id := "COORD-5"; clause := "§3.2";
          outcome := Behavioral "assert observed TLS behavior matches the declared visibility class" |};
       {| finding_id := "COORD-6"; clause := "§4";
          outcome := match delivery_path_gate c with
                     | Authorization | DerivedViewOnly | NoDeliveryPath => Pass
                     | Classification why => Violation why
                     end |};
       {| finding_id := "COORD-7"; clause := "§6";
          outcome := match metering c with
                     | NotMetered | SignedReceiptsToPayer => Pass
                     | NoReceipts why => Violation why
                     end |};
       {| finding_id := "COORD-8"; clause := "§6";
          outcome := match settlement c with
                     | ExistingAssetsOnly => Pass
                     | MintsToken why => Violation why
                     end |} ] |}.

(** The contract posture [check] is meant to decide, stated on its own. *)
Record posture_conformant {T} `{Coordinator T} (c : T) : Prop := {
  pc_kind : kind (coord_descriptor c) = coord_kind c;
  pc_lock_in : lock_in c = LockIn_None;
  pc_self_host :
    self_host c = Backstop ∨
    (self_host c = ScarceReachabilityException ∧ is_scarce_reachability (coord_kind c) = true);
  pc_gate : ∀ why, delivery_path_gate c ≠ Classification why;
  pc_metering : ∀ why, metering c ≠ NoReceipts why;
  pc_settlement : settlement c = ExistingAssetsOnly;
}.

Lemma posture_check {T} `{Coordinator T} (c : T) :
  posture_conformant c → is_conformant (check c) = true.
Proof.
  unfold is_conformant, check, coord4. simpl. intros []. case_all; naive_solver.
Qed.

(** The checklist's verdict is exactly the posture; no clause is skipped. *)
Theorem check_decides_posture {T} `{Coordinator T} (c : T) :
  is_conformant (check c) = true ↔ posture_conformant c.
Proof.
  split; [|apply posture_check].
  unfold is_conformant, check, coord4. simpl. intros Hc. split; case_all; naive_solver.
Qed.

(** The harness never passes the two clauses it cannot decide: COORD-5 is
    always deferred, COORD-1 is deferred or violated, and a declared-level blind
    claim keeps COORD-4 deferred. *)
Theorem check_never_overclaims {T} `{Coordinator T} (c : T) :
  (∀ f, f ∈ findings (check c) →
     (finding_id f = "COORD-5" → is_behavioral (outcome f) = true) ∧
     (finding_id f = "COORD-1" → outcome f ≠ Pass) ∧
     (finding_id f = "COORD-4" →
      must_not_present_as_verified (visibility (coord_descriptor c)) = true →
      is_behavioral (outcome f) = true)) ∧
  (finding_id <$> findings (check c)) =
    ["COORD-1"; "COORD-2"; "COORD-3"; "COORD-4"; "COORD-5"; "COORD-6"; "COORD-7"; "COORD-8"].
Proof.
  split; [|reflexivity]. unfold check, coord4. simpl. intros f Hf.
  rewrite !elem_of_cons in Hf.
  destruct_or!; subst; simpl; try (by apply elem_of_nil in Hf);
    (split; [|split]); intros; simpl in *; try done; case_all.
Qed.

End Conformance.
Import Conformance.

(** ** The kind crates *)

(** [crates/relay/src/lib.rs] *)
Module RelayCrate.
Definition RELAY_VISIBILITY : ContentVisibility := new Blind Structural.
Record RelayCoordinator := Relay_new {
  Relay_descriptor : Descriptor;
  Relay_metered : bool;
}.

Definition Relay_signed `{KC : KotvaCbor, KI : KotvaIdentity} (ik : IdentityKey) (policy : Cbor)
    (tariff : option Tariff) (metered : bool) : RelayCoordinator * SignedDescriptor :=
  let d := {| identity := public ik; kind := Relay; visibility := RELAY_VISIBILITY;
              policy := policy; tariff := tariff |} in
  (Relay_new d metered, Descriptor_sign d ik).
#[export] Instance Relay_Coordinator : Coordinator RelayCoordinator := {|
  coord_kind _ := Relay;
  coord_descriptor c := Relay_descriptor c;
  lock_in _ := LockIn_None;
  self_host _ := Backstop;
  delivery_path_gate _ := NoDeliveryPath;
  metering c := if Relay_metered c then SignedReceiptsToPayer else NotMetered;
  settlement _ := ExistingAssetsOnly;
|}.
End RelayCrate.

(** [crates/media-relay/src/lib.rs] *)
Module MediaRelayCrate.
Definition MEDIA_RELAY_VISIBILITY : ContentVisibility := new BlindRouting Structural.
Record MediaRelayCoordinator := MediaRelay_new {
  MediaRelay_descriptor : Descriptor;
  MediaRelay_metered : bool;
}.

Definition MediaRelay_signed `{KC : KotvaCbor, KI : KotvaIdentity} (ik : IdentityKey) (policy : Cbor)
    (tariff : option Tariff) (metered : bool) : MediaRelayCoordinator * SignedDescriptor :=
  let d := {| identity := public ik; kind := MediaRelay; visibility := MEDIA_RELAY_VISIBILITY;
              policy := policy; tariff := tariff |} in
  (MediaRelay_new d metered, Descriptor_sign d ik).
#[export] Instance MediaRelay_Coordinator : Coordinator MediaRelayCoordinator := {|
  coord_kind _ := MediaRelay;
  coord_descriptor c := MediaRelay_descriptor c;
  lock_in _ := LockIn_None;
  self_host _ := Backstop;
  delivery_path_gate _ := NoDeliveryPath;
  metering c := if MediaRelay_metered c then SignedReceiptsToPayer else NotMetered;
  settlement _ := ExistingAssetsOnly;
|}.
End MediaRelayCrate.

(** [crates/arbiter/src/lib.rs] *)
Module ArbiterCrate.
Definition ARBITER_VISIBILITY : ContentVisibility := new Terminating Declared.
Record ArbiterCoordinator := Arbiter_new {
  Arbiter_descriptor : Descriptor;
  Arbiter_metered : bool;
}.

Definition Arbiter_signed `{KC : KotvaCbor, KI : KotvaIdentity} (ik : IdentityKey) (policy : Cbor)
    (tariff : option Tariff) (metered : bool) : ArbiterCoordinator * SignedDescriptor :=
  let d := {| identity := public ik; kind := Arbiter; visibility := ARBITER_VISIBILITY;
              policy := policy; tariff := tariff |} in
  (Arbiter_new d metered, Descriptor_sign d ik).
#[export] Instance Arbiter_Coordinator : Coordinator ArbiterCoordinator := {|
  coord_kind _ := Arbiter;
  coord_descriptor c := Arbiter_descriptor c;
  lock_in _ := LockIn_None;
  self_host _ := Backstop;
  delivery_path_gate _ := NoDeliveryPath;
  metering c := if Arbiter_metered c then SignedReceiptsToPayer else NotMetered;
  settlement _ := ExistingAssetsOnly;
|}.
End ArbiterCrate.

(** [crates/oracle/src/lib.rs] *)
Module OracleCrate.
Definition ORACLE_VISIBILITY : ContentVisibility := new Terminating Declared.
Record OracleCoordinator := Oracle_new {
  Oracle_descriptor : Descriptor;
  Oracle_metered : bool;
}.

Definition Oracle_signed `{KC : KotvaCbor, KI : KotvaIdentity} (ik : IdentityKey) (policy : Cbor)
    (tariff : option Tariff) (metered : bool) : OracleCoordinator * SignedDescriptor :=
  let d := {| identity := public ik; kind := Oracle; visibility := ORACLE_VISIBILITY;
              policy := policy; tariff := tariff |} in
  (Oracle_new d metered, Descriptor_sign d ik).
#[export] Instance Oracle_Coordinator : Coordinator OracleCoordinator := {|
  coord_kind _ := Oracle;
  coord_descriptor c := Oracle_descriptor c;
  lock_in _ := LockIn_None;
  self_host _ := Backstop;
  delivery_path_gate _ := NoDeliveryPath;
  metering c := if Oracle_metered c then SignedReceiptsToPayer else NotMetered;
  settlement _ := ExistingAssetsOnly;
|}.
End OracleCrate.

(** [crates/labeler/src/lib.rs] *)
Module LabelerCrate.
Definition LABELER_VISIBILITY : ContentVisibility := new Terminating Declared.
Record LabelerCoordinator := Labeler_new {
  Labeler_descriptor : Descriptor;
  Labeler_metered : bool;
}.

Definition Labeler_signed `{KC : KotvaCbor, KI : KotvaIdentity} (ik : IdentityKey) (policy : Cbor)
    (tariff : option Tariff) (metered : bool) : LabelerCoordinator * SignedDescriptor :=
  let d := {| identity := public ik; kind := Labeler; visibility := LABELER_VISIBILITY;
              policy := policy; tariff := tariff |} in
  (Labeler_new d metered, Descriptor_sign d ik).
#[export] Instance Labeler_Coordinator : Coordinator LabelerCoordinator := {|
  coord_kind _ := Labeler;
  coord_descriptor c := Labeler_descriptor c;
  lock_in _ := LockIn_None;
  self_host _ := Backstop;
  delivery_path_gate _ := DerivedViewOnly;
  metering c := if Labeler_metered c then SignedReceiptsToPayer else NotMetered;
  settlement _ := ExistingAssetsOnly;
|}.
End LabelerCrate.

(** [crates/indexer/src/lib.rs] *)
Module IndexerCrate.
Inductive QueryChannel := Query_Terminating | Query_Attested.
Definition QueryChannel_declared_visibility (c : QueryChannel) : ContentVisibility :=
  match c with
  | Query_Terminating => new Terminating Declared
  | Query_Attested => new Blind Attested
  end.
Record IndexerCoordinator := Indexer_new {
  Indexer_descriptor : Descriptor;
  Indexer_metered : bool;
}.

Definition Indexer_signed `{KC : KotvaCbor, KI : KotvaIdentity} (ik : IdentityKey) (channel : QueryChannel)
    (policy : Cbor) (tariff : option Tariff) (metered : bool)
    : IndexerCoordinator * SignedDescriptor :=
  let d := {| identity := public ik; kind := Indexer;
              visibility := QueryChannel_declared_visibility channel;
              policy := policy; tariff := tariff |} in
  (Indexer_new d metered, Descriptor_sign d ik).
#[export] Instance Indexer_Coordinator : Coordinator IndexerCoordinator := {|
  coord_kind _ := Indexer;
  coord_descriptor c := Indexer_descriptor c;
  lock_in _ := LockIn_None;
  self_host _ := Backstop;
  delivery_path_gate _ := DerivedViewOnly;
  metering c := if Indexer_metered c then SignedReceiptsToPayer else NotMetered;
  settlement _ := ExistingAssetsOnly;
|}.
End IndexerCrate.

(** [crates/matcher/src/lib.rs] *)
Module MatcherCrate.
Inductive MatchChannel := Match_Terminating | Match_Attested.
Definition MatchChannel_declared_visibility (c : MatchChannel) : ContentVisibility :=
  match c with
  | Match_Terminating => new Terminating Declared
  | Match_Attested => new Blind Attested
  end.
Record MatcherCoordinator := Matcher_new {
  Matcher_descriptor : Descriptor;
  Matcher_metered : bool;
}.

Definition Matcher_signed `{KC : KotvaCbor, KI : KotvaIdentity} (ik : IdentityKey) (channel : MatchChannel)
    (policy : Cbor) (tariff : option Tariff) (metered : bool)
    : MatcherCoordinator * SignedDescriptor :=
  let d := {| identity := public ik; kind := Matcher;
              visibility := MatchChannel_declared_visibility channel;
              policy := policy; tariff := tariff |} in
  (Matcher_new d metered, Descriptor_sign d ik).
#[export] Instance Matcher_Coordinator : Coordinator MatcherCoordinator := {|
  coord_kind _ := Matcher;
  coord_descriptor c := Matcher_descriptor c;
  lock_in _ := LockIn_None;
  self_host _ := Backstop;
  delivery_path_gate _ := DerivedViewOnly;
  metering c := if Matcher_metered c then SignedReceiptsToPayer else NotMetered;
  settlement _ := ExistingAssetsOnly;
|}.
End MatcherCrate.

(** [crates/compute/src/lib.rs] *)
Module ComputeCrate.
Inductive ComputeChannel := Compute_Terminating | Compute_Attested.
Definition ComputeChannel_declared_visibility (c : ComputeChannel) : ContentVisibility :=
  match c with
  | Compute_Terminating => new Terminating Declared
  | Compute_Attested => new Blind Attested
  end.
Record ComputeCoordinator := Compute_new {
  Compute_descriptor : Descriptor;
  Compute_metered : bool;
}.

Definition Compute_signed `{KC : KotvaCbor, KI : KotvaIdentity} (ik : IdentityKey) (channel : ComputeChannel)
    (policy : Cbor) (tariff : option Tariff) (metered : bool)
    : ComputeCoordinator * SignedDescriptor :=
  let d := {| identity := public ik; kind := Compute;
              visibility := ComputeChannel_declared_visibility channel;
              policy := policy; tariff := tariff |} in
  (Compute_new d metered, Descriptor_sign d ik).
#[export] Instance Compute_Coordinator : Coordinator ComputeCoordinator := {|
  coord_kind _ := Compute;
  coord_descriptor c := Compute_descriptor c;
  lock_in _ := LockIn_None;
  self_host _ := Backstop;
  delivery_path_gate _ := NoDeliveryPath;
  metering c := if Compute_metered c then SignedReceiptsToPayer else NotMetered;
  settlement _ := ExistingAssetsOnly;
|}.
End ComputeCrate.

(** [crates/reachability-adapter/src/lib.rs] *)
Module ReachCrate.
Inductive NameKind := OwnDomain | AdapterZoneVanity.
Definition NameKind_declared_visibility (n : NameKind) : ContentVisibility :=
  let level := match n with OwnDomain => Structural | AdapterZoneVanity => Declared end in
  new BlindRouting level.
Record ReachabilityAdapter := ReachabilityAdapter_new {
  ra_descriptor : Descriptor;
  ra_metered : bool;
}.
#[export] Instance ReachabilityAdapter_Coordinator : Coordinator ReachabilityAdapter := {|
  coord_kind _ := Kinds.ReachabilityAdapter;
  coord_descriptor c := ra_descriptor c;
  lock_in _ := LockIn_None;
  self_host _ := ScarceReachabilityException;
  delivery_path_gate _ := NoDeliveryPath;
  metering c := if ra_metered c then SignedReceiptsToPayer else NotMetered;
  settlement _ := ExistingAssetsOnly;
|}.
End ReachCrate.

(** [crates/gateway/src/coordinator.rs] *)
Module GatewayCrate.
Record GatewayCoordinator := {
  gw_descriptor : Descriptor;
  gw_metered : bool;
}.
Definition GatewayCoordinator_new `{KI : KotvaIdentity} (ik : IdentityKey) (policy : Cbor)
    (metered : bool) : GatewayCoordinator :=
  {| gw_descriptor :=
       {| identity := public ik; kind := Gateway; visibility := new Terminating Declared;
          policy := policy; tariff := None |};
     gw_metered := metered |}.
Definition GatewayCoordinator_sign `{KC : KotvaCbor, KI : KotvaIdentity}
    (g : GatewayCoordinator) (ik : IdentityKey) : SignedDescriptor :=
  Descriptor_sign (gw_descriptor g) ik.
#[export] Instance GatewayCoordinator_Coordinator : Coordinator GatewayCoordinator := {|
  coord_kind _ := Gateway;
  coord_descriptor c := gw_descriptor c;
  lock_in _ := LockIn_None;
  self_host _ := ScarceReachabilityException;
  delivery_path_gate _ := Authorization;
  metering c := if gw_metered c then SignedReceiptsToPayer else NotMetered;
  settlement _ := ExistingAssetsOnly;
|}.
End GatewayCrate.

Import RelayCrate MediaRelayCrate ArbiterCrate OracleCrate LabelerCrate IndexerCrate
  MatcherCrate ComputeCrate ReachCrate GatewayCrate.

(** ** What the kinds guarantee *)

Section kinds.
Context `{KC : KotvaCbor} `{KI : KotvaIdentity} `{KIL : !KotvaIdentityLaws}.

(** The freshly minted coordinator of a kind conforms, is the one its signed
    descriptor describes, and that descriptor verifies. *)
Definition minted_ok {T} `{Coordinator T} (p : T * SignedDescriptor) : Prop :=
  is_conformant (check p.1) = true ∧
  coord_descriptor p.1 = descriptor p.2 ∧
  SignedDescriptor_verify p.2 = Ok tt.

Lemma minted_ok_intro {T} `{Coordinator T} (p : T * SignedDescriptor) ik :
  posture_conformant p.1 → identity (coord_descriptor p.1) = public ik →
  p.2 = Descriptor_sign (coord_descriptor p.1) ik → minted_ok p.
Proof using KIL.
  intros Hp Hik Hs. split; [by apply posture_check|]. rewrite Hs. split; [done|].
  unfold SignedDescriptor_verify. simpl. by rewrite Hik, sign_verify.
Qed.

(** Every kind's constructor mints a conformant coordinator with a verifying
    descriptor, whatever policy, tariff, channel and metering the operator picks. *)
Theorem every_kind_mints_conformant ik pol t met :
  minted_ok (Relay_signed ik pol t met) ∧
  minted_ok (MediaRelay_signed ik pol t met) ∧
  minted_ok (Arbiter_signed ik pol t met) ∧
  minted_ok (Oracle_signed ik pol t met) ∧
  minted_ok (Labeler_signed ik pol t met) ∧
  (∀ ch, minted_ok (Indexer_signed ik ch pol t met)) ∧
  (∀ ch, minted_ok (Matcher_signed ik ch pol t met)) ∧
  (∀ ch, minted_ok (Compute_signed ik ch pol t met)) ∧
  (let g := GatewayCoordinator_new ik pol met in
   minted_ok (g, GatewayCoordinator_sign g ik)).
Proof using KIL.
  repeat match goal with |- _ ∧ _ => split end; intros;
    apply (minted_ok_intro _ ik); try done; split; simpl; destruct met; naive_solver.
Qed.

(** A relay constructed around a descriptor of the right kind is reported
    conformant, with COORD-4 passed, whatever content-visibility the descriptor
    declares other than a declared-level blind one, [terminating] included. *)
Theorem relay_visibility_mismatch_not_reported d met :
  kind d = Relay → must_not_present_as_verified (visibility d) = false →
  is_conformant (check (Relay_new d met)) = true ∧
  (∀ f, f ∈ findings (check (Relay_new d met)) → finding_id f = "COORD-4" → outcome f = Pass).
Proof using.
  intros Hk Hv. split.
  - apply posture_check. split; simpl; destruct met; naive_solver.
  - intros f Hf Hid. unfold check, coord4 in Hf. simpl in Hf. rewrite Hv in Hf.
    rewrite !elem_of_cons in Hf. destruct_or!; subst; try done.
    by apply elem_of_nil in Hf.
Qed.
End kinds.

(** ** Witnesses *)
Module ConformanceWitness.
Import Reference.

Lemma every_kind_witness :
  minted_ok (T := RelayCoordinator) (Relay_signed ([Byte.x11] : IdentityKey) [] None true).
Proof. exact (proj1 (every_kind_mints_conformant ([Byte.x11] : IdentityKey) [] None true)). Defined.

Definition leaky : Descriptor :=
  {| identity := [Byte.x11]; kind := Relay; visibility := new Terminating Declared;
     policy := []; tariff := None |}.
Lemma relay_visibility_mismatch_witness :
  is_conformant (check (Relay_new leaky false)) = true ∧
  (∀ f, f ∈ findings (check (Relay_new leaky false)) → finding_id f = "COORD-4" → outcome f = Pass).
Proof. apply (relay_visibility_mismatch_not_reported leaky false); reflexivity. Defined.
End ConformanceWitness.
