(* ===== verification/BillingMeter.v ===== *)
(** * Metering

    [crates/broker-billing/src/meter.rs]: units consumed per payer and resource
    kind.  The in-memory table is shown to implement an abstract usage log. *)

From Stdlib Require Import ZArith Lia.
From stdpp Require Import base decidable option list gmap.
From S2P Require Import Prelude.

Inductive ResourceKind := BytesForwarded | Connections | Messages | ComputeSeconds.

#[export] Instance ResourceKind_eq_dec : EqDecision ResourceKind.
Proof. solve_decision. Defined.

Definition wire_tag (k : ResourceKind) : Z :=
  match k with
  | BytesForwarded => 1
  | Connections => 2
  | Messages => 3
  | ComputeSeconds => 4
  end.

Definition from_wire_tag (tag : Z) : option ResourceKind :=
  if decide (tag = 1) then Some BytesForwarded
  else if decide (tag = 2) then Some Connections
  else if decide (tag = 3) then Some Messages
  else if decide (tag = 4) then Some ComputeSeconds
  else None.

Lemma from_wire_tag_wire_tag k : from_wire_tag (wire_tag k) = Some k.
Proof. by destruct k. Qed.
Lemma from_wire_tag_Some tag k : from_wire_tag tag = Some k ↔ tag = wire_tag k.
Proof.
  split; [|intros ->; apply from_wire_tag_wire_tag].
  unfold from_wire_tag. intros. by case_all.
Qed.

#[export] Instance ResourceKind_countable : Countable ResourceKind :=
  inj_countable wire_tag from_wire_tag from_wire_tag_wire_tag.

(** The variants in declaration order, which is the derived [Ord] and hence the
    iteration order of a [BTreeMap<ResourceKind, _>]. *)
Definition all_kinds : list ResourceKind :=
  [BytesForwarded; Connections; Messages; ComputeSeconds].
Definition btree_iter {A} (m : gmap ResourceKind A) : list (ResourceKind * A) :=
  omap (λ k, (k,.) <$> m !! k) all_kinds.

Abbreviation Usage := (gmap ResourceKind Z).

(** [trait Meter], in state-passing form. *)
Class Meter (T : Type) := {
  record : bytes → ResourceKind → Z → T → T;
  usage : bytes → T → Usage;
  reset : bytes → T → Usage * T;
}.

(** [struct InMemoryMeter { usage: Mutex<BTreeMap<Vec<u8>, BTreeMap<..>>> }] *)
Record InMemoryMeter := { table : gmap bytes Usage }.

Definition InMemoryMeter_new : InMemoryMeter := {| table := ∅ |}.

#[export] Instance InMemoryMeter_Meter : Meter InMemoryMeter := {|
  record payer kind units m :=
    let entry := default ∅ (table m !! payer) in
    {| table := <[payer := <[kind := U64.saturating_add (default 0 (entry !! kind)) units]> entry]>
                  (table m) |};
  usage payer m := default ∅ (table m !! payer);
  reset payer m :=
    (default ∅ (table m !! payer), {| table := delete payer (table m) |});
|}.

(** ** Abstract specification: a log of usage events *)

Record UsageEvent := { ev_payer : bytes; ev_kind : ResourceKind; ev_units : Z }.

(** The units logged for a payer and kind; [None] when nothing was logged. *)
Definition logged (p : bytes) (k : ResourceKind) (log : list UsageEvent) : list Z :=
  ev_units <$> filter (λ e, ev_payer e = p ∧ ev_kind e = k) log.
Definition log_usage (p : bytes) (k : ResourceKind) (log : list UsageEvent) : option Z :=
  match logged p k log with
  | [] => None
  | l => Some (Z.min (sum_Z l) U64.MAX)
  end.

(** What a metering store promises its clients: after any history it reports,
    for each payer and kind, the logged units since the payer's last reset,
    capped at [u64::MAX], and a reset forgets that payer's events only. *)
Class MeterSpec (T : Type) `{Meter T} := {
  meter_rel : T → list UsageEvent → Prop;
  meter_rel_usage m log p k :
    meter_rel m log → usage p m !! k = log_usage p k log;
  meter_rel_record m log p k n :
    U64.valid n → meter_rel m log →
    meter_rel (record p k n m) (log ++ [{| ev_payer := p; ev_kind := k; ev_units := n |}]);
  meter_rel_reset m log p :
    meter_rel m log →
    (reset p m).1 = usage p m ∧
    meter_rel (reset p m).2 (filter (λ e, ev_payer e ≠ p) log);
}.

Lemma logged_app p k l1 l2 : logged p k (l1 ++ l2) = logged p k l1 ++ logged p k l2.
Proof. unfold logged. by rewrite filter_app, fmap_app. Qed.

Lemma logged_nonneg p k log :
  Forall (λ e, U64.valid (ev_units e)) log → 0 ≤ sum_Z (logged p k log).
Proof.
  intros Hl. apply sum_Z_nonneg, Forall_fmap.
  induction Hl as [|e log He Hl IH]; [constructor|].
  rewrite filter_cons. case_decide; [|done]. constructor; [|done].
  destruct He. simpl. lia.
Qed.

Lemma logged_filter_ne p q k log :
  logged p k (filter (λ e, ev_payer e ≠ q) log) = if decide (p = q) then [] else logged p k log.
Proof.
  unfold logged. induction log as [|e log IH]; [by case_decide|].
  rewrite !filter_cons. destruct (decide (ev_payer e = q)) as [Hq|Hq].
  - rewrite decide_False by auto. rewrite IH. repeat case_decide; naive_solver.
  - rewrite decide_True by done. rewrite filter_cons.
    destruct (decide (ev_payer e = p ∧ ev_kind e = k)) as [[Hp Hk]|Hn]; [|done].
    rewrite !fmap_cons, IH. case_decide; naive_solver.
Qed.

#[export] Program Instance InMemoryMeter_spec : MeterSpec InMemoryMeter := {|
  meter_rel m log :=
    Forall (λ e, U64.valid (ev_units e)) log ∧
    ∀ p k, usage p m !! k = log_usage p k log
|}.
Next Obligation. naive_solver. Qed.
Next Obligation.
  intros m log p k n Hn [Hv Hrel]. split.
  - apply Forall_app; split; [done|]. by apply Forall_singleton.
  - intros p' k'. simpl. unfold log_usage. rewrite logged_app.
    destruct (decide (p' = p)) as [->|Hp].
    + rewrite lookup_insert_eq. simpl. destruct (decide (k' = k)) as [->|Hk].
      * rewrite lookup_insert_eq. specialize (Hrel p k). simpl in Hrel. rewrite Hrel.
        unfold log_usage, logged at 3. simpl. rewrite filter_cons_True by done. simpl.
        pose proof (logged_nonneg p k log Hv) as Hpos.
        unfold U64.saturating_add. destruct Hn.
        destruct (logged p k log) as [|u l] eqn:E; simpl.
        -- f_equal. unfold sum_Z. simpl. lia.
        -- f_equal. change (u :: l ++ [n]) with ((u :: l) ++ [n]).
           rewrite sum_Z_app. unfold sum_Z at 3. simpl. unfold U64.MAX in *. lia.
      * rewrite lookup_insert_ne by done.
        unfold logged at 2. simpl. rewrite filter_cons_False by naive_solver. simpl.
        rewrite app_nil_r. specialize (Hrel p k'). done.
    + rewrite lookup_insert_ne by done.
      unfold logged at 2. simpl. rewrite filter_cons_False by naive_solver. simpl.
      rewrite app_nil_r. apply Hrel.
Qed.
Next Obligation.
  intros m log p [Hv Hrel]. split; [done|]. split.
  - by apply Forall_filter_mono.
  - intros p' k'. simpl. unfold log_usage. rewrite logged_filter_ne.
    case_decide as Hp; subst.
    + by rewrite lookup_delete_eq.
    + rewrite lookup_delete_ne by done. apply Hrel.
Qed.

(** ** Histories *)

Inductive MeterOp := OpRecord (p : bytes) (k : ResourceKind) (n : Z) | OpReset (p : bytes).

Definition op_valid (o : MeterOp) : Prop :=
  match o with OpRecord _ _ n => U64.valid n | OpReset _ => True end.
Definition run_op {T} `{Meter T} (m : T) (o : MeterOp) : T :=
  match o with OpRecord p k n => record p k n m | OpReset p => (reset p m).2 end.
Definition log_op (log : list UsageEvent) (o : MeterOp) : list UsageEvent :=
  match o with
  | OpRecord p k n => log ++ [{| ev_payer := p; ev_kind := k; ev_units := n |}]
  | OpReset p => filter (λ e, ev_payer e ≠ p) log
  end.

Lemma meter_rel_run {T} `{MeterSpec T} ops (m : T) log :
  Forall op_valid ops → meter_rel m log →
  meter_rel (foldl run_op m ops) (foldl log_op log ops).
Proof.
  intros Hops. revert m log. induction Hops as [|o ops Ho Hops IH]; intros m log Hr; [done|].
  simpl. apply IH. destruct o; simpl in *.
  - by apply meter_rel_record.
  - by apply meter_rel_reset.
Qed.

(** The in-memory meter implements the usage log: after any sequence of records
    and resets it reports, per payer and kind, the sum of the units recorded since
    that payer's last reset, saturated at [u64::MAX], and nothing for a kind never
    recorded. *)
Theorem in_memory_meter_refines_log ops p k :
  Forall op_valid ops →
  usage p (foldl run_op InMemoryMeter_new ops) !! k = log_usage p k (foldl log_op [] ops).
Proof.
  intros Hops. apply (meter_rel_usage (T := InMemoryMeter)), meter_rel_run; [done|].
  split; [constructor|]. intros p' k'. simpl. by rewrite lookup_empty.
Qed.

Lemma in_memory_meter_refines_log_witness :
  usage [Byte.x01] (foldl run_op InMemoryMeter_new
    [OpRecord [Byte.x01] Messages 7; OpReset [Byte.x01];
     OpRecord [Byte.x01] Messages 5; OpRecord [Byte.x01] Messages U64.MAX]) !! Messages
  = Some U64.MAX.
Proof.
  rewrite (in_memory_meter_refines_log _ [Byte.x01] Messages);
    [reflexivity | repeat (constructor; [vm_compute; intuition discriminate|]); constructor].
Defined.
