(* ===== verification/BillingTariff.v ===== *)
(** * Tariff schedules and bills

    [crates/broker-billing/src/tariff.rs]: the wire form of a price schedule and
    its evaluation against metered usage. *)

From Stdlib Require Import ZArith Lia.
From stdpp Require Import base decidable option list strings gmap sorting.
From S2P Require Import Prelude Kotva Descriptor BillingMeter.

Record TariffSchedule := {
  currency : string;
  prices : gmap ResourceKind Z;
  free_allowance : gmap ResourceKind Z;
  period_seconds : option Z;
}.

Record LineItem := {
  li_kind : ResourceKind;
  metered_units : Z;
  free_units_applied : Z;
  billed_units : Z;
  unit_price : Z;
  li_amount : Z;
}.

Record Bill := {
  bill_currency : string;
  bill_amount : Z;
  line_items : list LineItem;
}.

Section tariff.
Context `{KC : KotvaCbor}.

Inductive BillingError :=
| BadEncoding (e : CborError)
| Malformed (what : string)
| UnpricedKind (k : ResourceKind).

Definition price_pairs (m : gmap ResourceKind Z) : list (Z * Cv) :=
  (λ kv, (wire_tag kv.1, cv_u64 kv.2)) <$> btree_iter m.

Definition TariffSchedule_to_cv (s : TariffSchedule) : Cv :=
  cv_map ([(1, cv_text (currency s));
           (2, cv_map (price_pairs (prices s)));
           (3, cv_map (price_pairs (free_allowance s)))]
          ++ match period_seconds s with Some p => [(4, cv_u64 p)] | None => [] end).

(** The loop of [resource_price_map]. *)
Fixpoint price_map_loop (entries : list (Z * Cv)) (out : gmap ResourceKind Z)
    : result BillingError (gmap ResourceKind Z) :=
  match entries with
  | [] => Ok out
  | (tag, v) :: rest =>
      k ← ok_or (Malformed "unknown resource-kind wire tag") (from_wire_tag tag);
      n ← map_err BadEncoding (as_u64 v);
      price_map_loop rest (<[k := n]> out)
  end.

Definition resource_price_map (cv : Cv) : result BillingError (gmap ResourceKind Z) :=
  match match_map cv with
  | Some entries => price_map_loop entries ∅
  | None => Err (Malformed "expected a resource-kind price map")
  end.

Definition TariffSchedule_from_cv (cv : Cv) : result BillingError TariffSchedule :=
  f ← map_err BadEncoding (fields_from_cv cv);
  '(v, f) ← map_err BadEncoding (fields_req 1 f);
  currency ← ok_or (Malformed "currency must be a text string") (match_text v);
  '(v, f) ← map_err BadEncoding (fields_req 2 f);
  prices ← resource_price_map v;
  '(v, f) ← map_err BadEncoding (fields_req 3 f);
  free_allowance ← resource_price_map v;
  let '(o, f) := fields_take 4 f in
  period_seconds ← map_err BadEncoding (transpose (as_u64 <$> o));
  _ ← map_err BadEncoding (fields_deny_unknown f);
  Ok {| currency := currency; prices := prices; free_allowance := free_allowance;
        period_seconds := period_seconds |}.

Definition TariffSchedule_to_cbor (s : TariffSchedule) : Cbor :=
  Cbor_from_cv (TariffSchedule_to_cv s).

Definition TariffSchedule_from_cbor (c : Cbor) : result BillingError TariffSchedule :=
  cv ← map_err BadEncoding (Cbor_decode c);
  TariffSchedule_from_cv cv.

Definition TariffSchedule_from_tariff (t : Tariff) : result BillingError TariffSchedule :=
  TariffSchedule_from_cbor (schedule t).

Definition TariffSchedule_sign `{KotvaIdentity} (s : TariffSchedule) (ik : IdentityKey) : Tariff :=
  Tariff_sign (TariffSchedule_to_cbor s) ik.

(** The body of [evaluate]'s loop for one kind. *)
Definition line_item (s : TariffSchedule) (kind : ResourceKind) (units unit_price : Z) : LineItem :=
  let free := default 0 (free_allowance s !! kind) in
  let billed_units := U64.saturating_sub units free in
  {| li_kind := kind; metered_units := units;
     free_units_applied := Z.min free units;
     billed_units := billed_units; unit_price := unit_price;
     li_amount := U64.saturating_mul billed_units unit_price |}.

Fixpoint evaluate_loop (s : TariffSchedule) (usage : list (ResourceKind * Z))
    (amount : Z) (items : list LineItem) : result BillingError Bill :=
  match usage with
  | [] => Ok {| bill_currency := currency s; bill_amount := amount; line_items := items |}
  | (kind, units) :: rest =>
      unit_price ← ok_or (UnpricedKind kind) (prices s !! kind);
      let item := line_item s kind units unit_price in
      evaluate_loop s rest (U64.saturating_add amount (li_amount item)) (items ++ [item])
  end.

Definition evaluate (s : TariffSchedule) (usage : gmap ResourceKind Z) : result BillingError Bill :=
  evaluate_loop s (btree_iter usage) 0 [].

End tariff.

(** ** Well-formed schedules and usage: every number is a [u64] *)

Definition all_u64 (m : gmap ResourceKind Z) : Prop := map_Forall (λ _ n, U64.valid n) m.
#[export] Instance all_u64_dec m : Decision (all_u64 m).
Proof. unfold all_u64. apply _. Defined.

Record schedule_wf (s : TariffSchedule) : Prop := {
  wf_prices : all_u64 (prices s);
  wf_free : all_u64 (free_allowance s);
  wf_period : match period_seconds s with Some p => U64.valid p | None => True end;
}.

(** Iterating a map over the four kinds: the values, in kind order. *)
Lemma btree_iter_elem {A} (m : gmap ResourceKind A) k v :
  (k, v) ∈ btree_iter m ↔ m !! k = Some v.
Proof.
  unfold btree_iter. rewrite list_elem_of_omap. split.
  - intros (k' & _ & Hk). destruct (m !! k') eqn:E; naive_solver.
  - intros Hm. exists k. rewrite Hm. split; [|done]. destruct k; set_solver.
Qed.

Lemma btree_iter_insert_all {A} (m : gmap ResourceKind A) :
  foldl (λ out kv, <[kv.1 := kv.2]> out) (∅ : gmap ResourceKind A) (btree_iter m) = m.
Proof.
  apply map_eq. intros k. unfold btree_iter. simpl.
  destruct (m !! BytesForwarded) eqn:E1, (m !! Connections) eqn:E2,
    (m !! Messages) eqn:E3, (m !! ComputeSeconds) eqn:E4;
    destruct k; simpl; simplify_map_eq; done.
Qed.

(** Iteration is by ascending tag: nothing after a key precedes it. *)
Lemma btree_iter_order {A} (m : gmap ResourceKind A) l1 k (n : A) l2 k' n' :
  btree_iter m = l1 ++ (k, n) :: l2 → (k', n') ∈ (k, n) :: l2 → wire_tag k ≤ wire_tag k'.
Proof.
  intros Hi Hin. apply elem_of_cons in Hin as [[= -> ->]|Hin]; [done|].
  assert (StronglySorted Z.lt (wire_tag ∘ fst <$> btree_iter m)) as Hs.
  { unfold btree_iter. simpl.
    destruct (m !! BytesForwarded), (m !! Connections), (m !! Messages), (m !! ComputeSeconds);
      simpl; repeat first [apply SSorted_nil | apply SSorted_cons | apply Forall_nil_2
                          | apply Forall_cons_2; [simpl; lia|]]. }
  rewrite Hi, fmap_app in Hs. simpl in Hs.
  apply StronglySorted_app in Hs as (_ & _ & Hs).
  apply StronglySorted_inv in Hs as [_ Hf]. rewrite Forall_fmap, Forall_forall in Hf.
  specialize (Hf _ Hin). simpl in Hf. lia.
Qed.

Lemma btree_iter_forall (m : gmap ResourceKind Z) :
  all_u64 m → Forall (λ kv, U64.valid kv.2) (btree_iter m).
Proof.
  intros Hm. apply Forall_forall. intros [k v] Hin%btree_iter_elem. by apply (Hm k).
Qed.

Section tariff_laws.
Context `{KC : KotvaCbor} `{KCL : !KotvaCborLaws}.

Lemma price_pairs_ascending m : keys_ascending (price_pairs m).
Proof.
  unfold price_pairs, btree_iter. simpl.
  destruct (m !! BytesForwarded), (m !! Connections), (m !! Messages), (m !! ComputeSeconds);
    simpl; solve_ascending.
Qed.

Lemma price_pairs_ok m : all_u64 m → Forall (λ kv, cv_ok kv.2) (price_pairs m).
Proof.
  intros Hm. apply Forall_fmap. eapply Forall_impl; [by apply btree_iter_forall|].
  intros [k v] Hv. by apply cv_ok_u64.
Qed.

Lemma price_map_loop_pairs l out :
  Forall (λ kv : ResourceKind * Z, U64.valid kv.2) l →
  price_map_loop ((λ kv, (wire_tag kv.1, cv_u64 kv.2)) <$> l) out
  = Ok (foldl (λ out kv, <[kv.1 := kv.2]> out) out l).
Proof.
  intros Hl. revert out. induction Hl as [|[k v] l Hv Hl IH]; intros out; [done|].
  simpl. rewrite from_wire_tag_wire_tag. simpl. rewrite as_u64_u64 by done. simpl. apply IH.
Qed.

Lemma resource_price_map_pairs m :
  all_u64 m → resource_price_map (cv_map (price_pairs m)) = Ok m.
Proof.
  intros Hm. unfold resource_price_map. rewrite match_map_map.
  unfold price_pairs. rewrite price_map_loop_pairs by by apply btree_iter_forall.
  by rewrite btree_iter_insert_all.
Qed.

Lemma schedule_cv_ok s : schedule_wf s → cv_ok (TariffSchedule_to_cv s).
Proof.
  intros [Hp Hf Ht]. unfold TariffSchedule_to_cv.
  assert (cv_ok (cv_map (price_pairs (prices s)))).
  { apply cv_ok_map; [apply price_pairs_ascending | by apply price_pairs_ok]. }
  assert (cv_ok (cv_map (price_pairs (free_allowance s)))).
  { apply cv_ok_map; [apply price_pairs_ascending | by apply price_pairs_ok]. }
  destruct (period_seconds s); solve_cv_ok.
Qed.

Lemma schedule_from_to_cv s :
  schedule_wf s → TariffSchedule_from_cv (TariffSchedule_to_cv s) = Ok s.
Proof.
  intros [Hp Hf Ht]. unfold TariffSchedule_from_cv, TariffSchedule_to_cv.
  destruct s as [c p f [t|]]; simpl in *;
    repeat first
      [ fields_step
      | rewrite match_text_text; simpl
      | rewrite resource_price_map_pairs by done; simpl
      | rewrite as_u64_u64 by done; simpl ]; done.
Qed.
End tariff_laws.

Section tariff_roundtrip.
Context `{KC : KotvaCbor} `{KCL : !KotvaCborLaws} `{KI : KotvaIdentity}.

Lemma signed_schedule_read s ik : schedule_wf s → TariffSchedule_from_tariff (TariffSchedule_sign s ik) = Ok s.
Proof using KCL.
  intros Hs. unfold TariffSchedule_from_tariff, TariffSchedule_from_cbor.
  simpl. unfold Cbor_decode, TariffSchedule_to_cbor, Cbor_from_cv.
  rewrite cbor_decode_encode by by apply schedule_cv_ok. simpl.
  by apply schedule_from_to_cv.
Qed.
(** A schedule signed into a tariff parses back to itself. *)
Theorem tariff_schedule_roundtrip s ik :
  schedule_wf s → TariffSchedule_from_tariff (TariffSchedule_sign s ik) = Ok s.
Proof using KCL. apply signed_schedule_read. Qed.
End tariff_roundtrip.

(** ** Evaluation *)

(** The exact, unbounded amount owed: the reference the saturating loop is
    compared with. *)
Definition exact_line (s : TariffSchedule) (kv : ResourceKind * Z) : Z :=
  Z.max 0 (kv.2 - default 0 (free_allowance s !! kv.1)) * default 0 (prices s !! kv.1).
Definition exact_total (s : TariffSchedule) (usage : gmap ResourceKind Z) : Z :=
  sum_Z (exact_line s <$> btree_iter usage).

Definition priced (s : TariffSchedule) (kv : ResourceKind * Z) : Prop :=
  is_Some (prices s !! kv.1).

Definition items_of (s : TariffSchedule) (l : list (ResourceKind * Z)) : list LineItem :=
  (λ kv, line_item s kv.1 kv.2 (default 0 (prices s !! kv.1))) <$> l.

Section evaluate.
Context `{KC : KotvaCbor}.

Lemma line_item_exact s kv :
  0 ≤ default 0 (prices s !! kv.1) →
  li_amount (line_item s kv.1 kv.2 (default 0 (prices s !! kv.1)))
  = Z.min (exact_line s kv) U64.MAX ∧ 0 ≤ exact_line s kv.
Proof.
  intros Hp. unfold line_item, exact_line, U64.saturating_mul, U64.saturating_sub. simpl.
  rewrite (Z.max_comm 0). split; [done|]. apply Z.mul_nonneg_nonneg; lia.
Qed.

Lemma evaluate_loop_Ok s l amount items :
  schedule_wf s → 0 ≤ amount → Forall (priced s) l →
  evaluate_loop s l (Z.min amount U64.MAX) items =
  Ok {| bill_currency := currency s;
        bill_amount := Z.min (amount + sum_Z (exact_line s <$> l)) U64.MAX;
        line_items := items ++ items_of s l |}.
Proof.
  intros Hs Ha Hl. revert amount items Ha.
  induction Hl as [|[k n] l [p Hp] Hl IH]; intros amount items Ha; simpl.
  - unfold sum_Z. simpl. rewrite Z.add_0_r. by rewrite app_nil_r.
  - simpl in Hp. rewrite Hp. simpl.
    destruct (wf_prices s Hs k p Hp) as [Hp0 _].
    destruct (line_item_exact s (k, n)) as [Hli Hpos].
    { simpl. by rewrite Hp. }
    simpl in Hli. rewrite Hp in Hli. simpl in Hli.
    replace (U64.saturating_add _ _)
      with (Z.min (amount + exact_line s (k, n)) U64.MAX).
    2:{ unfold U64.saturating_add. simpl. simpl in Hli. rewrite Hli.
        unfold U64.MAX in *. lia. }
    rewrite IH by lia. f_equal. f_equal.
    + unfold sum_Z. cbn [fmap list_fmap foldr]. by rewrite Z.add_assoc.
    + by rewrite <- app_assoc.
Qed.

Lemma evaluate_loop_Err s l1 k n l2 amount items :
  Forall (priced s) l1 → prices s !! k = None →
  evaluate_loop s (l1 ++ (k, n) :: l2) amount items = Err (UnpricedKind k).
Proof.
  intros Hl Hk. revert amount items.
  induction Hl as [|[k' n'] l1 [p Hp] Hl IH]; intros amount items; simpl.
  - by rewrite Hk.
  - simpl in Hp. rewrite Hp. simpl. apply IH.
Qed.

(** Evaluating usage that is fully priced yields one line per metered kind, in
    kind order; on each line the free and billed units add up to the metered
    ones, and the total is the exact charge [Σ max(0, units - free) * price],
    capped at [u64::MAX]: it is never above the exact charge, and equal to it
    whenever that fits in 64 bits. *)
Theorem evaluate_exact s usage :
  schedule_wf s → all_u64 usage → Forall (priced s) (btree_iter usage) →
  ∃ b, evaluate s usage = Ok b ∧
    bill_currency b = currency s ∧
    bill_amount b = Z.min (exact_total s usage) U64.MAX ∧
    (li_kind <$> line_items b) = (btree_iter usage).*1 ∧
    (metered_units <$> line_items b) = (btree_iter usage).*2 ∧
    Forall (λ i, free_units_applied i + billed_units i = metered_units i ∧
                 prices s !! li_kind i = Some (unit_price i) ∧
                 li_amount i = Z.min (billed_units i * unit_price i) U64.MAX)
      (line_items b).
Proof.
  intros Hs Hu Hp. eexists. split.
  { unfold evaluate. change 0 with (Z.min 0 U64.MAX). by apply evaluate_loop_Ok. }
  simpl. split_and!; try done; try (unfold items_of; by rewrite <- list_fmap_compose).
  apply Forall_fmap. apply Forall_forall. intros [k n] Hin. simpl.
  apply btree_iter_elem in Hin as Hk. destruct (Hu k n Hk) as [Hn0 _].
  rewrite Forall_forall in Hp. destruct (Hp (k, n) Hin) as [p Hpk]. simpl in Hpk.
  split_and!; [|by rewrite Hpk|done].
  unfold U64.saturating_sub.
  destruct (free_allowance s !! k) as [fr|] eqn:E; simpl.
  - destruct (wf_free s Hs k fr E). lia.
  - lia.
Qed.

Lemma evaluate_priced s usage :
  schedule_wf s → Forall (priced s) (btree_iter usage) →
  evaluate s usage = Ok {| bill_currency := currency s; bill_amount := Z.min (exact_total s usage) U64.MAX;
                           line_items := items_of s (btree_iter usage) |}.
Proof. intros Hs Hp. unfold evaluate. change 0 with (Z.min 0 U64.MAX). by rewrite evaluate_loop_Ok. Qed.
Lemma items_exact s usage :
  schedule_wf s → all_u64 usage → Forall (priced s) (btree_iter usage) →
  Forall (λ i, prices s !! li_kind i = Some (unit_price i) ∧
    free_units_applied i = Z.min (default 0 (free_allowance s !! li_kind i)) (metered_units i) ∧
    billed_units i = metered_units i - free_units_applied i ∧
    li_amount i = Z.min (billed_units i * unit_price i) U64.MAX) (items_of s (btree_iter usage)).
Proof.
  intros Hs Hu Hp. apply Forall_fmap. apply Forall_forall. intros [k n] Hin. cbn.
  apply btree_iter_elem in Hin as Hk. destruct (Hu k n Hk) as [Hn0 _].
  rewrite Forall_forall in Hp. destruct (Hp (k, n) Hin) as [p Hpk]. cbn in Hpk. split_and!; [by rewrite Hpk|done| |done].
  unfold U64.saturating_sub. destruct (free_allowance s !! k) as [fr|] eqn:E; cbn; [destruct (wf_free s Hs k fr E)|]; lia.
Qed.
Lemma evaluate_unpriced s usage l1 k n l2 :
  btree_iter usage = l1 ++ (k, n) :: l2 → Forall (priced s) l1 → prices s !! k = None → evaluate s usage = Err (UnpricedKind k).
Proof. intros Hiter Hl1 Hk. unfold evaluate. rewrite Hiter. by apply evaluate_loop_Err. Qed.
Lemma first_unpriced s usage l1 k n l2 :
  btree_iter usage = l1 ++ (k, n) :: l2 → Forall (priced s) l1 → prices s !! k = None →
  UnpricedKind k = UnpricedKind k ∧ is_Some (usage !! k) ∧ prices s !! k = None ∧
  ∀ k', is_Some (usage !! k') → wire_tag k' < wire_tag k → is_Some (prices s !! k').
Proof.
  intros Hiter Hl1 Hk. assert (usage !! k = Some n) as Huk by (apply btree_iter_elem; rewrite Hiter; set_solver).
  split; [done|]. split; [by exists n|]. split; [done|].
  intros k' [n' Hn'] Hlt. apply btree_iter_elem in Hn'. rewrite Hiter in Hn'. apply elem_of_app in Hn' as [Hin|Hin].
  - rewrite Forall_forall in Hl1. by apply (Hl1 (k', n')).
  - pose proof (btree_iter_order usage l1 k n l2 k' n' Hiter Hin). lia.
Qed.
Lemma priced_or_first_unpriced s (l : list (ResourceKind * Z)) :
  Forall (priced s) l ∨
  ∃ l1 k n l2, l = l1 ++ (k, n) :: l2 ∧ Forall (priced s) l1 ∧ prices s !! k = None.
Proof.
  induction l as [|[k n] l IH]; [by left|].
  destruct (prices s !! k) as [p|] eqn:E; [|right; by exists [], k, n, l].
  destruct IH as [IH|(l1 & k' & n' & l2 & -> & ? & ?)].
  - left. constructor; [|done]. by exists p.
  - right. exists ((k, n) :: l1), k', n', l2. split_and!; try done.
    constructor; [|done]. by exists p.
Qed.

(** Fail closed on unpriced usage: evaluation succeeds exactly when every
    metered kind is priced, and otherwise names the first kind that is not. *)
Theorem evaluate_fails_closed s usage :
  schedule_wf s →
  (is_ok (evaluate s usage) = true ↔ ∀ k, is_Some (usage !! k) → is_Some (prices s !! k)) ∧
  (∀ e, evaluate s usage = Err e →
     ∃ k, e = UnpricedKind k ∧ is_Some (usage !! k) ∧ prices s !! k = None ∧
          ∀ k', is_Some (usage !! k') → wire_tag k' < wire_tag k → is_Some (prices s !! k')).
Proof.
  intros Hs.
  destruct (priced_or_first_unpriced s (btree_iter usage)) as [Hall|(l1 & k & n & l2 & Hiter & Hl1 & Hk)].
  - rewrite evaluate_priced by done. split; [|done]. split; [|done]. intros _ k [n Hn].
    rewrite Forall_forall in Hall. by apply (Hall (k, n)), btree_iter_elem.
  - rewrite (evaluate_unpriced s usage l1 k n l2) by done. pose proof (first_unpriced s usage l1 k n l2 Hiter Hl1 Hk) as Hf. split.
    + split; [done|]. intros Hall. destruct Hf as (_ & Hu & Hn & _). destruct (Hall k Hu) as [p Hp]. congruence.
    + intros e [= <-]. by exists k.
Qed.
End evaluate.

(** ** Typing: every number of an accepted schedule and of its bills is a [u64] *)

Definition item_u64 (i : LineItem) : Prop :=
  U64.valid (metered_units i) ∧ U64.valid (free_units_applied i) ∧ U64.valid (billed_units i) ∧
  U64.valid (unit_price i) ∧ U64.valid (li_amount i).
Definition bill_u64 (b : Bill) : Prop := U64.valid (bill_amount b) ∧ Forall item_u64 (line_items b).

Section typing.
Context `{KC : KotvaCbor} `{KCL : !KotvaCborLaws}.

Lemma price_map_loop_u64 l m out : all_u64 m → price_map_loop l m = Ok out → all_u64 out.
Proof using KCL.
  revert m. induction l as [|[tag v] l IH]; intros m Hm; cbn [price_map_loop]; [by intros [= <-]|].
  destruct (from_wire_tag tag) as [k|]; [|done]. cbn. destruct (as_u64 v) as [n|] eqn:E; [|done]. cbn.
  apply IH. apply map_Forall_insert_2; [by eapply as_u64_valid|done].
Qed.
Lemma resource_price_map_u64 v m : resource_price_map v = Ok m → all_u64 m.
Proof using KCL.
  unfold resource_price_map. destruct (match_map v); [|done]. apply price_map_loop_u64, map_Forall_empty.
Qed.
Lemma schedule_from_cv_wf cv s : TariffSchedule_from_cv cv = Ok s → schedule_wf s.
Proof using KCL.
  unfold TariffSchedule_from_cv. destruct (fields_from_cv cv) as [f|]; [|done]. cbn.
  destruct (fields_req 1 f) as [[v1 f1]|]; [|done]. cbn. destruct (match_text v1); [|done]. cbn.
  destruct (fields_req 2 f1) as [[v2 f2]|]; [|done]. cbn. destruct (resource_price_map v2) as [p|] eqn:Ep; [|done]. cbn.
  destruct (fields_req 3 f2) as [[v3 f3]|]; [|done]. cbn. destruct (resource_price_map v3) as [fr|] eqn:Ef; [|done]. cbn.
  destruct (fields_take 4 f3) as [o f4]. destruct (transpose (as_u64 <$> o)) as [t|] eqn:Et; [|done]. cbn.
  destruct (fields_deny_unknown f4); [|done]. cbn. intros [= <-].
  split; cbn; [by eapply resource_price_map_u64..|]. destruct o as [c|]; cbn in Et; [|by injection Et as <-].
  destruct (as_u64 c) as [n|] eqn:E; [|done]. injection Et as <-. by eapply as_u64_valid.
Qed.
Lemma line_item_u64 s k n p : schedule_wf s → U64.valid n → U64.valid p → item_u64 (line_item s k n p).
Proof.
  intros Hs Hn Hp.
  assert (U64.valid (default 0 (free_allowance s !! k))) as Hf.
  { destruct (free_allowance s !! k) as [f|] eqn:E; [by apply (wf_free s Hs k)|unfold U64.valid, U64.MAX; cbn; lia]. }
  unfold item_u64, line_item. cbn. split_and!; auto with ephor. unfold U64.valid in *. lia.
Qed.
Lemma evaluate_loop_u64 s l amount items b :
  schedule_wf s → Forall (λ kv, U64.valid kv.2) l → U64.valid amount → Forall item_u64 items →
  evaluate_loop s l amount items = Ok b → bill_u64 b.
Proof.
  intros Hs Hl. revert amount items. induction Hl as [|[k n] l Hn _ IH]; intros amount items Ha Hi; cbn [evaluate_loop].
  - by intros [= <-].
  - destruct (prices s !! k) as [p|] eqn:E; [|done]. cbn.
    pose proof (line_item_u64 s k n p Hs Hn (wf_prices s Hs k p E)) as Hli.
    apply IH; [|by apply Forall_app_2; [|constructor]]. destruct Hli as (_ & _ & _ & _ & Hli). auto with ephor.
Qed.

(** C32: Whatever bytes a tariff carries: if they are read as a schedule, every price, allowance
    and period of it is a [u64], and any usage is either refused for its first kind that
    has no price, or billed exactly.  A bill has a line for each metered kind, in order;
    the units of a line beyond the free allowance are billed, at the price of the
    schedule; every number fits its 64 bits by stopping at the largest, never by wrapping
    around; and the total is the exact charge, or the largest number where that is less. *)
Theorem accepted_tariff_bills_typed t s usage :
  TariffSchedule_from_tariff t = Ok s → all_u64 usage →
  schedule_wf s ∧
  match evaluate s usage with
  | Ok b =>
      bill_u64 b ∧ bill_currency b = currency s ∧
      bill_amount b = Z.min (exact_total s usage) U64.MAX ∧
      ((λ i, (li_kind i, metered_units i)) <$> line_items b) = btree_iter usage ∧
      Forall (λ i, prices s !! li_kind i = Some (unit_price i) ∧
        free_units_applied i = Z.min (default 0 (free_allowance s !! li_kind i)) (metered_units i) ∧
        billed_units i = metered_units i - free_units_applied i ∧
        li_amount i = Z.min (billed_units i * unit_price i) U64.MAX) (line_items b)
  | Err e => ∃ k, e = UnpricedKind k ∧ is_Some (usage !! k) ∧ prices s !! k = None ∧
      ∀ k', is_Some (usage !! k') → wire_tag k' < wire_tag k → is_Some (prices s !! k')
  end.
Proof using KCL.
  intros Ht Hu. assert (schedule_wf s) as Hs.
  { unfold TariffSchedule_from_tariff, TariffSchedule_from_cbor in Ht. destruct (Cbor_decode (schedule t)) as [cv|]; [|done].
    cbn in Ht. by apply schedule_from_cv_wf in Ht. }
  split; [done|]. destruct (priced_or_first_unpriced s (btree_iter usage)) as [Hp|(l1 & k & n & l2 & Hiter & Hl1 & Hk)].
  - pose proof (evaluate_priced s usage Hs Hp) as He. rewrite He. split.
    { revert He. apply evaluate_loop_u64; [done|by apply btree_iter_forall|unfold U64.valid, U64.MAX; lia|done]. }
    cbn. split_and!; try done.
    + unfold items_of. rewrite <- list_fmap_compose. rewrite <- (list_fmap_id (btree_iter usage)) at 2. by apply list_fmap_ext; intros ? [].
    + by apply items_exact.
  - rewrite (evaluate_unpriced s usage l1 k n l2) by done. exists k. by eapply first_unpriced.
Qed.
End typing.

(** ** Witnesses *)
Module TariffWitness.
Import Reference.

Definition sample : TariffSchedule :=
  {| currency := "USD"; prices := {[BytesForwarded := 3; Messages := 10]};
     free_allowance := {[BytesForwarded := 100]}; period_seconds := Some 2592000 |}.
Definition sample_usage : gmap ResourceKind Z := {[BytesForwarded := 250; Messages := 2]}.

Lemma sample_schedule_wf : schedule_wf sample.
Proof.
  split; [apply (bool_decide_unpack _); vm_compute; exact I..|].
  split; vm_compute; discriminate.
Qed.

Lemma tariff_schedule_roundtrip_witness :
  TariffSchedule_from_tariff (TariffSchedule_sign sample ([Byte.x11] : IdentityKey)) = Ok sample.
Proof. apply (tariff_schedule_roundtrip sample), sample_schedule_wf. Defined.

Lemma evaluate_exact_witness : ∃ b, evaluate sample sample_usage = Ok b ∧ bill_amount b = 470.
Proof.
  destruct (evaluate_exact sample sample_usage) as (b & Hb & _ & Ha & _).
  - apply sample_schedule_wf.
  - apply (bool_decide_unpack _). vm_compute. exact I.
  - repeat (constructor; [eexists; reflexivity|]); constructor.
  - exists b. split; [exact Hb|]. rewrite Ha. reflexivity.
Defined.

Definition signed : Tariff := TariffSchedule_sign sample ([Byte.x11] : @IdentityKey ref_identity).
Lemma accepted_tariff_bills_typed_witness :
  ∃ b, evaluate sample sample_usage = Ok b ∧ bill_u64 b ∧ bill_amount b = 470 ∧ (li_amount <$> line_items b) = [450; 20] ∧
  evaluate sample {[Connections := 1]} = Err (UnpricedKind Connections) ∧ prices sample !! Connections = None.
Proof.
  assert (TariffSchedule_from_tariff signed = Ok sample) as Hs by apply signed_schedule_read, sample_schedule_wf.
  pose proof (accepted_tariff_bills_typed signed sample sample_usage Hs) as H1.
  pose proof (accepted_tariff_bills_typed signed sample {[Connections := 1]} Hs) as H2.
  assert (li_amount <$> match evaluate sample sample_usage with Ok b => line_items b | Err _ => [] end = [450; 20]) as Hl by (vm_compute; reflexivity).
  destruct H1 as (_ & H1); [apply (bool_decide_unpack _); vm_compute; exact I|].
  destruct H2 as (_ & H2); [apply (bool_decide_unpack _); vm_compute; exact I|].
  destruct (evaluate sample sample_usage) as [b|e] eqn:E; [|discriminate E]. destruct H1 as (Hu & _ & Ha & _).
  exists b. split; [reflexivity|]. split; [exact Hu|]. split; [rewrite Ha; vm_compute; reflexivity|]. split; [exact Hl|].
  destruct (evaluate sample {[Connections := 1]}) as [b2|e2] eqn:E2; [discriminate E2|]. destruct H2 as (k & -> & Hk & Hn & _).
  injection E2 as <-. split; [reflexivity|exact Hn].
Defined.

Lemma evaluate_fails_closed_witness :
  evaluate sample {[Connections := 1]} = Err (UnpricedKind Connections) ∧
  ¬ (∀ k, is_Some (({[Connections := 1]} : gmap ResourceKind Z) !! k) → is_Some (prices sample !! k)).
Proof.
  destruct (evaluate_fails_closed sample {[Connections := 1]} sample_schedule_wf) as [[_ H] _].
  split; [reflexivity|]. intros Hall. specialize (H Hall). discriminate H.
Defined.
End TariffWitness.
