(* ===== verification/BillingPricing.v ===== *)
(** * Recommended pricing

    [crates/broker-billing/src/pricing.rs]: the integer cost-plus model behind
    [recommended_tariff], and that its rounding never under-recovers cost. *)

From Stdlib Require Import ZArith Lia.
From stdpp Require Import base decidable option list strings gmap.
From S2P Require Import Prelude BillingMeter BillingTariff.

Definition RECOMMENDED_CURRENCY : string := "USD".
Definition RECOMMENDED_MARKUP_X100 : Z := 200.
Definition ASSUMED_MONTHLY_GIB : Z := 500.
Definition ASSUMED_MONTHLY_MESSAGES : Z := 200000.
Definition ASSUMED_MONTHLY_COMPUTE_SECONDS : Z := 500000.
Definition BYTES_FORWARDED_BATCH_BYTES : Z := 1024 * 1024 * 1024.
Definition MESSAGES_BATCH : Z := 1000.
Definition COMPUTE_SECONDS_BATCH : Z := 1000.
Definition NOMINAL_PERIOD_SECONDS : Z := 30 * 24 * 3600.

Definition ceil_div (a b : Z) : Z :=
  if b =? 0 then 0 else U64.saturating_add a (b - 1) / b.

Definition gib_billing_units (raw_bytes : Z) : Z := ceil_div raw_bytes BYTES_FORWARDED_BATCH_BYTES.
Definition messages_billing_units (raw_messages : Z) : Z := ceil_div raw_messages MESSAGES_BATCH.
Definition compute_seconds_billing_units (raw : Z) : Z := ceil_div raw COMPUTE_SECONDS_BATCH.

Record HostingProfile := {
  profile_name : string;
  base_vps_usd_cents_per_month : Z;
  bandwidth_usd_cents_per_gib : Z;
  reachability_premium_usd_cents_per_month : Z;
}.

Definition HETZNER_CX : HostingProfile := {|
  profile_name := "hetzner-cx-illustrative";
  base_vps_usd_cents_per_month := 500;
  bandwidth_usd_cents_per_gib := 1;
  reachability_premium_usd_cents_per_month := 500 |}.
Definition VULTR_GENERIC : HostingProfile := {|
  profile_name := "vultr-generic-illustrative";
  base_vps_usd_cents_per_month := 600;
  bandwidth_usd_cents_per_gib := 1;
  reachability_premium_usd_cents_per_month := 500 |}.
Definition GENERIC_VPS : HostingProfile := {|
  profile_name := "generic-vps-conservative";
  base_vps_usd_cents_per_month := 1000;
  bandwidth_usd_cents_per_gib := 2;
  reachability_premium_usd_cents_per_month := 1000 |}.

Inductive CoordinatorPricingKind :=
| PricingRelay | PricingMediaRelay | PricingReachabilityAdapter | PricingGateway | PricingCompute.

Definition markup (cost : Z) : Z :=
  ceil_div (U64.saturating_mul cost RECOMMENDED_MARKUP_X100) 100.

Definition bandwidth_schedule (profile : HostingProfile) (include_reachability_premium : bool)
    : TariffSchedule :=
  let fixed := U64.saturating_add (base_vps_usd_cents_per_month profile)
                 (if include_reachability_premium
                  then reachability_premium_usd_cents_per_month profile else 0) in
  let amortized_per_gib := ceil_div fixed ASSUMED_MONTHLY_GIB in
  let cost_per_gib := U64.saturating_add (bandwidth_usd_cents_per_gib profile) amortized_per_gib in
  let recommended_per_gib := markup cost_per_gib in
  {| currency := RECOMMENDED_CURRENCY;
     prices := {[BytesForwarded := Z.max recommended_per_gib 1]};
     free_allowance := ∅;
     period_seconds := Some NOMINAL_PERIOD_SECONDS |}.

Definition gateway_schedule (profile : HostingProfile) : TariffSchedule :=
  let fixed := U64.saturating_add (base_vps_usd_cents_per_month profile)
                 (reachability_premium_usd_cents_per_month profile) in
  let amortized_per_1k_messages := ceil_div fixed (ASSUMED_MONTHLY_MESSAGES / MESSAGES_BATCH) in
  let recommended_per_1k := markup amortized_per_1k_messages in
  {| currency := RECOMMENDED_CURRENCY;
     prices := {[Messages := Z.max recommended_per_1k 1]};
     free_allowance := ∅;
     period_seconds := Some NOMINAL_PERIOD_SECONDS |}.

Definition compute_schedule (profile : HostingProfile) : TariffSchedule :=
  let fixed := base_vps_usd_cents_per_month profile in
  let amortized_per_1k_seconds :=
    ceil_div fixed (ASSUMED_MONTHLY_COMPUTE_SECONDS / COMPUTE_SECONDS_BATCH) in
  let recommended_per_1k := markup amortized_per_1k_seconds in
  {| currency := RECOMMENDED_CURRENCY;
     prices := {[ComputeSeconds := Z.max recommended_per_1k 1]};
     free_allowance := ∅;
     period_seconds := Some NOMINAL_PERIOD_SECONDS |}.

Definition recommended_tariff (kind : CoordinatorPricingKind) (profile : HostingProfile)
    : TariffSchedule :=
  match kind with
  | PricingRelay | PricingMediaRelay => bandwidth_schedule profile false
  | PricingReachabilityAdapter => bandwidth_schedule profile true
  | PricingGateway => gateway_schedule profile
  | PricingCompute => compute_schedule profile
  end.

(** ** Rounding *)

(** Without saturation [ceil_div] is the ceiling of the quotient. *)
Lemma ceil_div_bounds a b :
  0 < b → 0 ≤ a → a + (b - 1) ≤ U64.MAX → a ≤ b * ceil_div a b < a + b.
Proof.
  intros Hb Ha Hm. unfold ceil_div, U64.saturating_add.
  destruct (Z.eqb_spec b 0); [lia|]. rewrite Z.min_l by lia.
  pose proof (Z.div_mod (a + (b - 1)) b). pose proof (Z.mod_pos_bound (a + (b - 1)) b). lia.
Qed.

Lemma ceil_div_mono a a' b : 0 ≤ b → a ≤ a' → ceil_div a b ≤ ceil_div a' b.
Proof.
  intros Hb Ha. unfold ceil_div, U64.saturating_add. destruct (Z.eqb_spec b 0); [done|].
  apply Z.div_le_mono; lia.
Qed.

Lemma ceil_div_valid a b : U64.valid a → 0 < b → U64.valid b → U64.valid (ceil_div a b).
Proof.
  unfold U64.valid. intros Ha Hb Hb'. unfold ceil_div, U64.saturating_add.
  destruct (Z.eqb_spec b 0); [lia|]. split.
  - apply Z.div_pos; lia.
  - etransitivity; [apply Z.div_le_mono, Z.le_min_r; lia|]. apply Z.div_le_upper_bound; nia.
Qed.

Lemma markup_doubles c : 0 ≤ c → c * 200 + 99 ≤ U64.MAX → markup c = 2 * c.
Proof.
  intros Hc Hm. unfold markup, RECOMMENDED_MARKUP_X100, U64.saturating_mul.
  rewrite Z.min_l by lia. pose proof (ceil_div_bounds (c * 200) 100). lia.
Qed.

(** The monthly infra cost of running a kind at the assumed volume, in cents, and
    the priced unit with that volume in batches. *)
Definition monthly_cost (kind : CoordinatorPricingKind) (p : HostingProfile) : Z :=
  match kind with
  | PricingRelay | PricingMediaRelay =>
      base_vps_usd_cents_per_month p + bandwidth_usd_cents_per_gib p * 500
  | PricingReachabilityAdapter =>
      base_vps_usd_cents_per_month p + reachability_premium_usd_cents_per_month p
      + bandwidth_usd_cents_per_gib p * 500
  | PricingGateway => base_vps_usd_cents_per_month p + reachability_premium_usd_cents_per_month p
  | PricingCompute => base_vps_usd_cents_per_month p
  end.
Definition priced_unit (kind : CoordinatorPricingKind) : ResourceKind * Z :=
  match kind with
  | PricingRelay | PricingMediaRelay | PricingReachabilityAdapter => (BytesForwarded, 500)
  | PricingGateway => (Messages, 200)
  | PricingCompute => (ComputeSeconds, 500)
  end.

Definition profile_nonneg (p : HostingProfile) : Prop :=
  0 ≤ base_vps_usd_cents_per_month p ∧ 0 ≤ bandwidth_usd_cents_per_gib p ∧
  0 ≤ reachability_premium_usd_cents_per_month p.
(** Costs small enough that no step of the formula saturates (about 10^16 cents). *)
Definition profile_small (p : HostingProfile) : Prop :=
  base_vps_usd_cents_per_month p ≤ 10000000000000000 ∧
  bandwidth_usd_cents_per_gib p ≤ 10000000000000000 ∧
  reachability_premium_usd_cents_per_month p ≤ 10000000000000000.

Lemma sat_add_small a b :
  0 ≤ a + b ≤ 30000000000000000 → U64.saturating_add a b = a + b.
Proof. unfold U64.saturating_add, U64.MAX. lia. Qed.

(** The shape shared by the schedules: a fixed cost amortised over [vol] batches,
    plus a marginal cost per batch, marked up. *)
Lemma amortised_bandwidth_price fixed bw vol :
  0 < vol ≤ 500 → 0 ≤ fixed ≤ 20000000000000000 → 0 ≤ bw ≤ 10000000000000000 →
  let price := Z.max (markup (U64.saturating_add bw (ceil_div fixed vol))) 1 in
  1 ≤ price ≤ U64.MAX ∧ 2 * (fixed + bw * vol) ≤ price * vol.
Proof.
  intros Hv Hf Hb price.
  pose proof (ceil_div_bounds fixed vol) as Hc. unfold U64.MAX in Hc.
  assert (0 ≤ ceil_div fixed vol ≤ 20000000000000000) as Hr by (split; nia).
  unfold price. rewrite sat_add_small by lia.
  rewrite markup_doubles by (unfold U64.MAX; lia).
  unfold U64.MAX. split; [lia|]. nia.
Qed.

Lemma amortised_price fixed vol :
  0 < vol ≤ 500 → 0 ≤ fixed ≤ 20000000000000000 →
  let price := Z.max (markup (ceil_div fixed vol)) 1 in
  1 ≤ price ≤ U64.MAX ∧ 2 * fixed ≤ price * vol.
Proof.
  intros Hv Hf price.
  pose proof (amortised_bandwidth_price fixed 0 vol Hv Hf ltac:(lia)) as H.
  pose proof (ceil_div_bounds fixed vol) as Hc. unfold U64.MAX in Hc.
  assert (0 ≤ ceil_div fixed vol ≤ 20000000000000000) as Hr by (split; nia).
  rewrite sat_add_small, Z.add_0_l in H by lia. simpl in H. rewrite Z.mul_0_l, Z.add_0_r in H.
  exact H.
Qed.

(** Selling the assumed monthly volume at the recommended price recovers at least
    twice the monthly cost (the 2.00x cost-plus markup), for every kind: the
    roundings all go up. *)
Theorem recommended_price_recovers_cost kind p :
  profile_nonneg p → profile_small p →
  ∃ price, prices (recommended_tariff kind p) = {[(priced_unit kind).1 := price]} ∧
    1 ≤ price ≤ U64.MAX ∧
    2 * monthly_cost kind p ≤ price * (priced_unit kind).2.
Proof.
  intros (H1 & H2 & H3) (L1 & L2 & L3).
  destruct kind; simpl; unfold bandwidth_schedule, gateway_schedule, compute_schedule; simpl;
    eexists; (split; [reflexivity|]);
    rewrite ?(sat_add_small (base_vps_usd_cents_per_month p)) by lia; rewrite ?Z.add_0_r.
  - apply (amortised_bandwidth_price _ _ 500); lia.
  - apply (amortised_bandwidth_price _ _ 500); lia.
  - apply (amortised_bandwidth_price _ _ 500); lia.
  - apply (amortised_price _ 200); lia.
  - apply (amortised_price _ 500); lia.
Qed.

(** The scarce-reachability premium never makes the recommendation cheaper: the
    adapter's per-GiB price is at least the relay's on the same profile. *)
Theorem reachability_premium_monotone p pr pa :
  profile_nonneg p →
  prices (recommended_tariff PricingRelay p) !! BytesForwarded = Some pr →
  prices (recommended_tariff PricingReachabilityAdapter p) !! BytesForwarded = Some pa →
  pr ≤ pa.
Proof.
  intros (H1 & H2 & H3). simpl. rewrite !lookup_singleton_eq. intros [= <-] [= <-].
  apply Z.max_le_compat_r. unfold markup. apply ceil_div_mono; [lia|].
  unfold U64.saturating_mul, U64.saturating_add.
  assert (ceil_div (Z.min (base_vps_usd_cents_per_month p + 0) U64.MAX) ASSUMED_MONTHLY_GIB
    ≤ ceil_div (Z.min (base_vps_usd_cents_per_month p + reachability_premium_usd_cents_per_month p) U64.MAX)
        ASSUMED_MONTHLY_GIB) by (apply ceil_div_mono; unfold ASSUMED_MONTHLY_GIB; lia).
  unfold RECOMMENDED_MARKUP_X100. lia.
Qed.

(** Raw usage is rounded up into billing units: the units cover the raw amount,
    and by less than one batch; at the top of the [u64] range the saturating
    addition rounds down instead. *)
Theorem billing_units_round_up raw :
  0 ≤ raw ≤ U64.MAX - 999 →
  raw ≤ 1000 * messages_billing_units raw < raw + 1000 ∧
  1000 * messages_billing_units U64.MAX < U64.MAX.
Proof.
  intros H. split; [|vm_compute; reflexivity].
  unfold messages_billing_units, MESSAGES_BATCH. apply ceil_div_bounds; lia.
Qed.

(** ** Witnesses *)
Lemma recommended_price_recovers_cost_witness :
  ∃ price, prices (recommended_tariff PricingGateway HETZNER_CX) = {[Messages := price]} ∧
    1 ≤ price ≤ U64.MAX ∧ 2 * 1000 ≤ price * 200.
Proof.
  apply (recommended_price_recovers_cost PricingGateway HETZNER_CX);
    unfold profile_nonneg, profile_small; simpl; lia.
Defined.

Lemma reachability_premium_monotone_witness : 4 ≤ 6.
Proof.
  apply (reachability_premium_monotone HETZNER_CX);
    [unfold profile_nonneg; simpl; lia | reflexivity | reflexivity].
Defined.

Lemma billing_units_round_up_witness :
  1001 ≤ 1000 * messages_billing_units 1001 < 1001 + 1000 ∧
  1000 * messages_billing_units U64.MAX < U64.MAX.
Proof. apply (billing_units_round_up 1001). unfold U64.MAX. lia. Defined.
