(* ===== verification/BillingReceipt.v ===== *)
(** * Usage receipts

    [crates/broker-billing/src/receipt.rs]: the billed operation carried by a
    signed usage receipt, and the issuance log. *)

From Stdlib Require Import ZArith Lia.
From stdpp Require Import base decidable option list strings gmap sorting.
From S2P Require Import Prelude Kotva Descriptor BillingMeter BillingTariff.

Record BilledOperation := {
  op_payer : bytes;
  op_kind : ResourceKind;
  op_metered_units : Z;
  op_billed_units : Z;
  op_amount : Z;
  op_currency : string;
  op_sequence : Z;
}.

Section receipt.
Context `{KC : KotvaCbor} `{KI : KotvaIdentity}.

Inductive ReceiptError :=
| ReceiptBadEncoding (e : CborError)
| ReceiptMalformed (what : string)
| ReceiptSignature (e : DescriptorError).

Definition BilledOperation_to_cv (op : BilledOperation) : Cv :=
  cv_map [(1, cv_bytes (op_payer op));
          (2, cv_u64 (wire_tag (op_kind op)));
          (3, cv_u64 (op_metered_units op));
          (4, cv_u64 (op_billed_units op));
          (5, cv_u64 (op_amount op));
          (6, cv_text (op_currency op));
          (7, cv_u64 (op_sequence op))].

Definition BilledOperation_from_cv (cv : Cv) : result ReceiptError BilledOperation :=
  f ← map_err ReceiptBadEncoding (fields_from_cv cv);
  '(v, f) ← map_err ReceiptBadEncoding (fields_req 1 f);
  payer ← map_err ReceiptBadEncoding (as_bytes_cv v);
  '(v, f) ← map_err ReceiptBadEncoding (fields_req 2 f);
  tag ← map_err ReceiptBadEncoding (as_u64 v);
  kind ← ok_or (ReceiptMalformed "unknown resource-kind wire tag") (from_wire_tag tag);
  '(v, f) ← map_err ReceiptBadEncoding (fields_req 3 f);
  metered_units ← map_err ReceiptBadEncoding (as_u64 v);
  '(v, f) ← map_err ReceiptBadEncoding (fields_req 4 f);
  billed_units ← map_err ReceiptBadEncoding (as_u64 v);
  '(v, f) ← map_err ReceiptBadEncoding (fields_req 5 f);
  amount ← map_err ReceiptBadEncoding (as_u64 v);
  '(v, f) ← map_err ReceiptBadEncoding (fields_req 6 f);
  currency ← map_err ReceiptBadEncoding (as_text v);
  '(v, f) ← map_err ReceiptBadEncoding (fields_req 7 f);
  sequence ← map_err ReceiptBadEncoding (as_u64 v);
  _ ← map_err ReceiptBadEncoding (fields_deny_unknown f);
  Ok {| op_payer := payer; op_kind := kind; op_metered_units := metered_units;
        op_billed_units := billed_units; op_amount := amount;
        op_currency := currency; op_sequence := sequence |}.

Definition BilledOperation_to_cbor (op : BilledOperation) : Cbor :=
  Cbor_from_cv (BilledOperation_to_cv op).

Definition BilledOperation_sign (op : BilledOperation) (ik : IdentityKey) : UsageReceipt :=
  UsageReceipt_sign (BilledOperation_to_cbor op) ik.

Definition BilledOperation_from_receipt (r : UsageReceipt) : result ReceiptError BilledOperation :=
  cv ← map_err ReceiptBadEncoding (Cbor_decode (operation r));
  BilledOperation_from_cv cv.

Record ReceiptLog := {
  receipts : list UsageReceipt;
  next_sequence : Z;
}.

Definition ReceiptLog_new : ReceiptLog := {| receipts := []; next_sequence := 0 |}.

(** The operation built for one line item, with the log's next counter. *)
Definition line_operation (payer : bytes) (b : Bill) (item : LineItem) (seq : Z) : BilledOperation :=
  {| op_payer := payer; op_kind := li_kind item;
     op_metered_units := metered_units item; op_billed_units := billed_units item;
     op_amount := li_amount item; op_currency := bill_currency b; op_sequence := seq |}.

(** The closure [issue_for_bill] maps over the line items, threading the log. *)
Fixpoint issue_items (payer : bytes) (b : Bill) (ik : IdentityKey) (items : list LineItem)
    (log : ReceiptLog) : list UsageReceipt * ReceiptLog :=
  match items with
  | [] => ([], log)
  | item :: rest =>
      let op := line_operation payer b item (next_sequence log) in
      let receipt := BilledOperation_sign op ik in
      let log := {| receipts := receipts log ++ [receipt];
                    next_sequence := U64.wrap (next_sequence log + 1) |} in
      let '(rs, log) := issue_items payer b ik rest log in
      (receipt :: rs, log)
  end.

Definition issue_for_bill (payer : bytes) (b : Bill) (ik : IdentityKey) (log : ReceiptLog)
    : list UsageReceipt * ReceiptLog :=
  issue_items payer b ik (line_items b) log.

Definition issue (op : BilledOperation) (ik : IdentityKey) (log : ReceiptLog)
    : UsageReceipt * ReceiptLog :=
  let receipt := BilledOperation_sign op ik in
  (receipt, {| receipts := receipts log ++ [receipt]; next_sequence := next_sequence log |}).

Fixpoint verify_list (l : list UsageReceipt) : result DescriptorError unit :=
  match l with
  | [] => Ok tt
  | r :: rest => _ ← UsageReceipt_verify r; verify_list rest
  end.
Definition verify_all (log : ReceiptLog) : result DescriptorError unit :=
  verify_list (receipts log).

End receipt.

#[local] Coercion Z.of_nat : nat >-> Z.

(** ** Codec *)

Definition operation_wf (op : BilledOperation) : Prop :=
  U64.valid (op_metered_units op) ∧ U64.valid (op_billed_units op) ∧
  U64.valid (op_amount op) ∧ U64.valid (op_sequence op).

Lemma wire_tag_valid k : U64.valid (wire_tag k).
Proof. destruct k; unfold U64.valid, U64.MAX; simpl; lia. Qed.

Section receipt_laws.
Context `{KC : KotvaCbor} `{KCL : !KotvaCborLaws} `{KI : KotvaIdentity} `{KIL : !KotvaIdentityLaws}.

Lemma operation_from_to_cv op :
  operation_wf op → BilledOperation_from_cv (BilledOperation_to_cv op) = Ok op.
Proof using KCL.
  intros (H1 & H2 & H3 & H4). unfold BilledOperation_from_cv, BilledOperation_to_cv.
  pose proof (wire_tag_valid (op_kind op)) as Ht.
  destruct op; simpl in *;
    repeat first
      [ fields_step
      | rewrite as_bytes_bytes; simpl
      | rewrite as_text_text; simpl
      | rewrite from_wire_tag_wire_tag; simpl
      | rewrite as_u64_u64 by done; simpl ]; done.
Qed.

Lemma operation_from_receipt_sign op ik :
  operation_wf op → BilledOperation_from_receipt (BilledOperation_sign op ik) = Ok op.
Proof using KCL.
  intros Hw. unfold BilledOperation_from_receipt. simpl.
  unfold Cbor_decode, BilledOperation_to_cbor, Cbor_from_cv.
  rewrite cbor_decode_encode; [by apply operation_from_to_cv|].
  unfold BilledOperation_to_cv. destruct Hw as (H1 & H2 & H3 & H4).
  pose proof (wire_tag_valid (op_kind op)). solve_cv_ok.
Qed.

Lemma receipt_sign_verifies op ik : UsageReceipt_verify (BilledOperation_sign op ik) = Ok tt.
Proof using KIL.
  unfold UsageReceipt_verify, BilledOperation_sign, UsageReceipt_sign. simpl.
  by rewrite sign_verify.
Qed.

Lemma verify_list_app l k :
  verify_list (l ++ k) = (_ ← verify_list l; verify_list k).
Proof using. induction l as [|r l IH]; simpl; [done|]. destruct (UsageReceipt_verify r); [apply IH|done]. Qed.

(** The operations a bill is receipted with: one per line, numbered
    consecutively from [seq]. *)
Fixpoint bill_operations (payer : bytes) (b : Bill) (items : list LineItem) (seq : Z)
    : list BilledOperation :=
  match items with
  | [] => []
  | item :: rest =>
      line_operation payer b item seq :: bill_operations payer b rest (seq + 1)
  end.

(** While the counter does not wrap, issuing for a bill appends exactly the
    signed operations of its lines. *)
Lemma issue_items_spec payer b ik items log :
  0 ≤ next_sequence log → next_sequence log + length items ≤ U64.MAX →
  issue_items payer b ik items log =
  (let rs := (λ op, BilledOperation_sign op ik) <$> bill_operations payer b items (next_sequence log) in
   (rs, {| receipts := receipts log ++ rs; next_sequence := next_sequence log + length items |})).
Proof using.
  revert log. induction items as [|item items IH]; intros log H0 Hn; simpl.
  - rewrite app_nil_r, Z.add_0_r. by destruct log.
  - rewrite Nat2Z.inj_succ in *.
    assert (U64.wrap (next_sequence log + 1) = next_sequence log + 1) as Hw.
    { apply U64.wrap_small. unfold U64.valid. simpl in Hn. lia. }
    rewrite IH; simpl; rewrite Hw; simpl in *; [|lia|lia].
    rewrite <- app_assoc. simpl. f_equal. f_equal. lia.
Qed.

Lemma bill_operations_lookup payer b items seq (i : nat) item :
  items !! i = Some item →
  bill_operations payer b items seq !! i = Some (line_operation payer b item (seq + i)).
Proof using.
  revert seq i. induction items as [|x items IH]; intros seq [|i] H; simpl in *; try done.
  - injection H as ->. by rewrite Z.add_0_r.
  - rewrite (IH _ _ H). do 2 f_equal. lia.
Qed.

Lemma bill_operations_length payer b items seq :
  length (bill_operations payer b items seq) = length items.
Proof using. revert seq. induction items; simpl; auto. Qed.

Definition items_wf (items : list LineItem) : Prop :=
  Forall (λ i, U64.valid (metered_units i) ∧ U64.valid (billed_units i) ∧ U64.valid (li_amount i)) items.

(** Issuing for a bill hands the payer one receipt per line item, in order,
    each verifying under the coordinator's key and decoding to that line's
    units, amount and currency with consecutive sequence numbers; the log grows
    by exactly those receipts. *)
Theorem issue_for_bill_receipts_every_line payer b ik log rs log' :
  items_wf (line_items b) →
  0 ≤ next_sequence log → next_sequence log + length (line_items b) ≤ U64.MAX →
  issue_for_bill payer b ik log = (rs, log') →
  length rs = length (line_items b) ∧
  receipts log' = receipts log ++ rs ∧
  next_sequence log' = next_sequence log + length rs ∧
  verify_list rs = Ok tt ∧
  (∀ (i : nat) item, line_items b !! i = Some item →
     ∃ r, rs !! i = Some r ∧ receipt_identity r = public ik ∧
       BilledOperation_from_receipt r =
       Ok {| op_payer := payer; op_kind := li_kind item;
             op_metered_units := metered_units item; op_billed_units := billed_units item;
             op_amount := li_amount item; op_currency := bill_currency b;
             op_sequence := next_sequence log + i |}).
Proof using KCL KIL.
  intros Hwf H0 Hn. unfold issue_for_bill. rewrite issue_items_spec by done.
  intros [= <- <-]. simpl. rewrite length_fmap, bill_operations_length.
  split_and!; try done.
  - generalize (bill_operations payer b (line_items b) (next_sequence log)).
    intros l. induction l as [|op l IH]; simpl; [done|]. by rewrite receipt_sign_verifies.
  - intros i item Hi. pose proof (lookup_lt_Some _ _ _ Hi) as Hlt.
    rewrite list_lookup_fmap, (bill_operations_lookup _ _ _ _ _ _ Hi). simpl.
    eexists. split_and!; [done|done|]. apply operation_from_receipt_sign.
    unfold items_wf in Hwf. rewrite Forall_lookup in Hwf. destruct (Hwf _ _ Hi) as (? & ? & ?).
    unfold operation_wf. simpl. split_and!; try done. unfold U64.valid. lia.
Qed.

(** The documented one-directional audit: a receipt for any well-formed
    operation the key holder makes up verifies and decodes, with no reference to
    a meter; verification is evidence of signing only. *)
Theorem fabricated_receipt_verifies op ik log :
  operation_wf op → verify_all log = Ok tt →
  let '(r, log') := issue op ik log in
  UsageReceipt_verify r = Ok tt ∧ BilledOperation_from_receipt r = Ok op ∧
  verify_all log' = Ok tt.
Proof using KCL KIL.
  intros Hw Hl. simpl. rewrite receipt_sign_verifies, operation_from_receipt_sign by done.
  split_and!; try done. unfold verify_all in *. simpl.
  rewrite verify_list_app, Hl. simpl. by rewrite receipt_sign_verifies.
Qed.
End receipt_laws.

(** ** Witnesses *)
Module ReceiptWitness.
Import Reference.
Definition ik : IdentityKey := [Byte.x11].
Definition bill : Bill :=
  {| bill_currency := "USD"; bill_amount := 20;
     line_items := [{| li_kind := Messages; metered_units := 5; free_units_applied := 3;
                       billed_units := 2; unit_price := 10; li_amount := 20 |}] |}.
Definition op : BilledOperation :=
  {| op_payer := [Byte.x01]; op_kind := Messages; op_metered_units := 9; op_billed_units := 9;
     op_amount := 9; op_currency := "USD"; op_sequence := 0 |}.

Lemma issue_for_bill_witness :
  verify_list (issue_for_bill [Byte.x01] bill ik ReceiptLog_new).1 = Ok tt.
Proof.
  destruct (issue_for_bill [Byte.x01] bill ik ReceiptLog_new) as [rs log'] eqn:E.
  apply (issue_for_bill_receipts_every_line [Byte.x01] bill ik ReceiptLog_new rs log').
  - apply Forall_singleton. unfold U64.valid, U64.MAX. simpl. lia.
  - simpl. lia.
  - unfold U64.MAX. simpl. lia.
  - exact E.
Defined.

Lemma fabricated_receipt_witness :
  let '(r, log') := issue op ik ReceiptLog_new in
  UsageReceipt_verify r = Ok tt ∧ BilledOperation_from_receipt r = Ok op ∧
  verify_all log' = Ok tt.
Proof.
  apply (fabricated_receipt_verifies op ik ReceiptLog_new);
    [unfold operation_wf, U64.valid, U64.MAX; simpl; lia | reflexivity].
Defined.
End ReceiptWitness.
