(* ===== verification/BillingPrepaid.v ===== *)
(** * The prepaid ledger

    [crates/broker-billing/src/prepaid.rs]: credit balances, idempotent top-ups,
    fail-closed debits and refunds, and their audit trails.  Each public method
    is one step on the ledger's state: the source holds the balance lock across every
    check-and-update, and the [credited_refs] lock across a top-up.  [PrepaidTasks] takes
    the methods apart into their critical sections and justifies this. *)

From Stdlib Require Import ZArith Lia.
From stdpp Require Import base decidable option list strings gmap.
From S2P Require Import Prelude Kotva Descriptor BillingMeter BillingTariff BillingReceipt.

Inductive BillingState := StateOk | StateLowBalance | StateExhausted.

Inductive PrepaidError :=
| CurrencyMismatch (bill_currency ledger_currency : string)
| Exhausted (payer : bytes) (balance amount : Z) (currency : string)
| RefundExceedsBalance (payer : bytes) (amount balance : Z).

Record TopUpRecord := {
  tu_payer : bytes;
  tu_amount : Z;
  tu_currency : string;
  funding_ref : string;
  tu_tx_seq : Z;
}.
Record DebitRecord := { de_payer : bytes; de_amount : Z; de_currency : string; de_tx_seq : Z }.
Record RefundRecord := { re_payer : bytes; re_amount : Z; re_currency : string; re_tx_seq : Z }.

Record CreditAccount := {
  ca_payer : bytes;
  ca_currency : string;
  ca_balance : Z;
  ca_low_balance_threshold : Z;
}.

Definition account_state (a : CreditAccount) : BillingState :=
  if ca_balance a =? 0 then StateExhausted
  else if ca_balance a <=? ca_low_balance_threshold a then StateLowBalance
  else StateOk.

Record PrepaidLedger := {
  pl_currency : string;
  low_balance_threshold : Z;
  balances : gmap bytes Z;
  top_ups : list TopUpRecord;
  debits : list DebitRecord;
  refunds : list RefundRecord;
  next_tx_seq : Z;
  credited_refs : gset string;
}.

Definition PrepaidLedger_new (currency : string) (threshold : Z) : PrepaidLedger := {|
  pl_currency := currency; low_balance_threshold := threshold; balances := ∅;
  top_ups := []; debits := []; refunds := []; next_tx_seq := 0; credited_refs := ∅ |}.

Definition balance (payer : bytes) (l : PrepaidLedger) : Z := default 0 (balances l !! payer).

Definition account (payer : bytes) (l : PrepaidLedger) : CreditAccount :=
  {| ca_payer := payer; ca_currency := pl_currency l; ca_balance := balance payer l;
     ca_low_balance_threshold := low_balance_threshold l |}.
Definition state (payer : bytes) (l : PrepaidLedger) : BillingState := account_state (account payer l).

(** [next_seq]: hand out the counter and advance it (wrapping). *)
Definition advanced (l : PrepaidLedger) : Z := U64.wrap (next_tx_seq l + 1).

(** [top_up]; [None] is the panic of the [expect] on the replay path. *)
Definition top_up (payer : bytes) (amount : Z) (fref : string) (l : PrepaidLedger)
    : option (TopUpRecord * PrepaidLedger) :=
  if decide (fref ∈ credited_refs l) then
    match find_first (λ r, bool_decide (funding_ref r = fref)) (top_ups l) with
    | Some r => Some (r, l)
    | None => None
    end
  else
    let entry := U64.saturating_add (balance payer l) amount in
    let record := {| tu_payer := payer; tu_amount := amount; tu_currency := pl_currency l;
                     funding_ref := fref; tu_tx_seq := next_tx_seq l |} in
    Some (record,
      {| pl_currency := pl_currency l; low_balance_threshold := low_balance_threshold l;
         balances := <[payer := entry]> (balances l);
         top_ups := top_ups l ++ [record]; debits := debits l; refunds := refunds l;
         next_tx_seq := advanced l; credited_refs := {[fref]} ∪ credited_refs l |}).

Definition debit (payer : bytes) (bill : Bill) (l : PrepaidLedger)
    : result PrepaidError DebitRecord * PrepaidLedger :=
  if decide (bill_currency bill ≠ pl_currency l) then
    (Err (CurrencyMismatch (bill_currency bill) (pl_currency l)), l)
  else if balance payer l <? bill_amount bill then
    (Err (Exhausted payer (balance payer l) (bill_amount bill) (pl_currency l)), l)
  else
    let record := {| de_payer := payer; de_amount := bill_amount bill;
                     de_currency := pl_currency l; de_tx_seq := next_tx_seq l |} in
    (Ok record,
      {| pl_currency := pl_currency l; low_balance_threshold := low_balance_threshold l;
         balances := <[payer := balance payer l - bill_amount bill]> (balances l);
         top_ups := top_ups l; debits := debits l ++ [record]; refunds := refunds l;
         next_tx_seq := advanced l; credited_refs := credited_refs l |}).

Definition refund (payer : bytes) (amount : Z) (l : PrepaidLedger)
    : result PrepaidError RefundRecord * PrepaidLedger :=
  if balance payer l <? amount then
    (Err (RefundExceedsBalance payer amount (balance payer l)), l)
  else
    let record := {| re_payer := payer; re_amount := amount;
                     re_currency := pl_currency l; re_tx_seq := next_tx_seq l |} in
    (Ok record,
      {| pl_currency := pl_currency l; low_balance_threshold := low_balance_threshold l;
         balances := <[payer := balance payer l - amount]> (balances l);
         top_ups := top_ups l; debits := debits l; refunds := refunds l ++ [record];
         next_tx_seq := advanced l; credited_refs := credited_refs l |}).

Definition debit_and_receipt `{KotvaCbor, KotvaIdentity} (payer : bytes) (bill : Bill)
    (log : ReceiptLog) (ik : IdentityKey) (l : PrepaidLedger)
    : result PrepaidError (DebitRecord * list UsageReceipt) * ReceiptLog * PrepaidLedger :=
  match debit payer bill l with
  | (Err e, l) => (Err e, log, l)
  | (Ok record, l) =>
      let '(receipts, log) := issue_for_bill payer bill ik log in
      (Ok (record, receipts), log, l)
  end.

(** ** Steps and reachability *)

Inductive ledger_step : PrepaidLedger → PrepaidLedger → Prop :=
| step_top_up payer amount fref l r l' :
    U64.valid amount → top_up payer amount fref l = Some (r, l') → ledger_step l l'
| step_debit payer bill l res l' :
    U64.valid (bill_amount bill) → debit payer bill l = (res, l') → ledger_step l l'
| step_refund payer amount l res l' :
    U64.valid amount → refund payer amount l = (res, l') → ledger_step l l'.

Definition reachable (currency : string) (threshold : Z) (l : PrepaidLedger) : Prop :=
  rtc ledger_step (PrepaidLedger_new currency threshold) l.

(** ** The invariant *)

Definition topped_up (p : bytes) (l : PrepaidLedger) : Z :=
  sum_Z (tu_amount <$> filter (λ r, tu_payer r = p) (top_ups l)).
Definition debited (p : bytes) (l : PrepaidLedger) : Z :=
  sum_Z (de_amount <$> filter (λ r, de_payer r = p) (debits l)).
Definition refunded (p : bytes) (l : PrepaidLedger) : Z :=
  sum_Z (re_amount <$> filter (λ r, re_payer r = p) (refunds l)).

Definition all_seqs (l : PrepaidLedger) : list Z :=
  (tu_tx_seq <$> top_ups l) ++ (de_tx_seq <$> debits l) ++ (re_tx_seq <$> refunds l).

(** The transaction counter counts the records; while it has not wrapped, the
    numbers handed out are distinct. *)
Definition seqs_ok (seqs : list Z) (next : Z) : Prop :=
  next = U64.wrap (Z.of_nat (length seqs)) ∧
  (Z.of_nat (length seqs) ≤ U64.MAX →
   NoDup seqs ∧ Forall (λ s, 0 ≤ s < Z.of_nat (length seqs)) seqs).

Record ledger_inv (l : PrepaidLedger) : Prop := {
  inv_balance p : U64.valid (balance p l);
  inv_nonneg p : 0 ≤ topped_up p l ∧ 0 ≤ debited p l ∧ 0 ≤ refunded p l;
  (** money conservation, exact as long as the payer's top-ups fit in 64 bits *)
  inv_spent p : balance p l + debited p l + refunded p l ≤ topped_up p l;
  inv_conserved p :
    topped_up p l ≤ U64.MAX → balance p l + debited p l + refunded p l = topped_up p l;
  (** one top-up record per credited funding reference *)
  inv_refs : credited_refs l = list_to_set (funding_ref <$> top_ups l);
  inv_refs_nodup : NoDup (funding_ref <$> top_ups l);
  inv_seqs : seqs_ok (all_seqs l) (next_tx_seq l);
}.

Lemma seqs_ok_extend seqs seqs' next :
  seqs_ok seqs next → seqs' ≡ₚ next :: seqs → seqs_ok seqs' (U64.wrap (next + 1)).
Proof.
  intros [-> Hs] Hp.
  assert (length seqs' = S (length seqs)) as Hlen by by rewrite Hp.
  split.
  - rewrite U64.wrap_add_l. f_equal. lia.
  - intros Hm. destruct Hs as [Hnd Hf]; [lia|].
    rewrite U64.wrap_small in Hp by (unfold U64.valid; lia).
    rewrite Hp. split.
    + constructor; [|done]. intros Hin. rewrite Forall_forall in Hf.
      specialize (Hf _ Hin). lia.
    + constructor; [lia|]. eapply Forall_impl; [exact Hf|]. simpl. lia.
Qed.

Lemma new_inv cur thr : ledger_inv (PrepaidLedger_new cur thr).
Proof.
  split; try (intros p); unfold balance, topped_up, debited, refunded, all_seqs; simpl;
    rewrite ?lookup_empty; simpl; unfold sum_Z, U64.valid, U64.MAX; simpl; try lia; try done.
  - by apply NoDup_nil_2.
  - split; [done|]. intros _. split; [by apply NoDup_nil_2|constructor].
Qed.

Lemma balance_insert q p b l bs tu de re nx cr cur thr :
  bs = <[p := b]> (balances l) →
  balance q {| pl_currency := cur; low_balance_threshold := thr; balances := bs; top_ups := tu;
               debits := de; refunds := re; next_tx_seq := nx; credited_refs := cr |}
  = if decide (p = q) then b else balance q l.
Proof.
  intros ->. unfold balance. simpl. rewrite lookup_insert. by case_decide.
Qed.

(** Unfold the per-payer sums of an updated ledger. *)
Ltac ledger_sums :=
  unfold topped_up, debited, refunded in *; cbn [top_ups debits refunds] in *;
  rewrite ?sum_filter_snoc; cbn [tu_payer de_payer re_payer tu_amount de_amount re_amount].

(** Bring the invariant of [l] at the operation's payer and at [q] into context. *)
Ltac inv_facts l I payer q :=
  try rewrite (balance_insert q payer _ l) by reflexivity;
  pose proof (inv_balance l I payer); try pose proof (inv_balance l I q);
  try pose proof (inv_nonneg l I q); try pose proof (inv_spent l I q);
  try pose proof (inv_conserved l I q); unfold U64.valid in *.

Lemma top_up_inv payer amount fref l r l' :
  ledger_inv l → U64.valid amount → top_up payer amount fref l = Some (r, l') → ledger_inv l'.
Proof.
  intros I Ha. unfold top_up. case_decide as Hc; [intros; case_all|]. intros [= <- <-].
  rewrite (inv_refs l I), elem_of_list_to_set in Hc.
  unfold U64.valid in Ha.
  split; try (intros q); inv_facts l I payer q.
  - case_decide; [|done]. unfold U64.saturating_add, U64.MAX in *. lia.
  - ledger_sums. repeat case_decide; lia.
  - ledger_sums. unfold U64.saturating_add. repeat case_decide; simplify_eq; lia.
  - ledger_sums. unfold U64.saturating_add. repeat case_decide; simplify_eq; lia.
  - simpl. rewrite fmap_app, list_to_set_app_L, (inv_refs l I). simpl. set_solver.
  - simpl. rewrite fmap_app. apply NoDup_app. split_and!; [apply (inv_refs_nodup l I)| |].
    + simpl. intros x Hx Hx'. set_solver.
    + apply NoDup_singleton.
  - unfold all_seqs. simpl. eapply seqs_ok_extend; [apply (inv_seqs l I)|].
    unfold all_seqs. rewrite fmap_app. simpl. solve_Permutation.
Qed.

Lemma debit_inv payer bill l res l' :
  ledger_inv l → U64.valid (bill_amount bill) → debit payer bill l = (res, l') → ledger_inv l'.
Proof.
  intros I Ha. unfold debit. case_decide; [by intros [= _ <-]|].
  destruct (Z.ltb_spec (balance payer l) (bill_amount bill)) as [|Hle]; [by intros [= _ <-]|].
  intros [= _ <-]. unfold U64.valid in Ha.
  split; try (intros q); inv_facts l I payer q.
  - case_decide; lia.
  - ledger_sums. repeat case_decide; simplify_eq; lia.
  - ledger_sums. repeat case_decide; simplify_eq; lia.
  - ledger_sums. repeat case_decide; simplify_eq; lia.
  - apply (inv_refs l I).
  - apply (inv_refs_nodup l I).
  - unfold all_seqs. simpl. eapply seqs_ok_extend; [apply (inv_seqs l I)|].
    unfold all_seqs. rewrite fmap_app. simpl. solve_Permutation.
Qed.

Lemma refund_inv payer amount l res l' :
  ledger_inv l → U64.valid amount → refund payer amount l = (res, l') → ledger_inv l'.
Proof.
  intros I Ha. unfold refund.
  destruct (Z.ltb_spec (balance payer l) amount) as [|Hle]; [by intros [= _ <-]|].
  intros [= _ <-]. unfold U64.valid in Ha.
  split; try (intros q); inv_facts l I payer q.
  - case_decide; lia.
  - ledger_sums. repeat case_decide; simplify_eq; lia.
  - ledger_sums. repeat case_decide; simplify_eq; lia.
  - ledger_sums. repeat case_decide; simplify_eq; lia.
  - apply (inv_refs l I).
  - apply (inv_refs_nodup l I).
  - unfold all_seqs. simpl. eapply seqs_ok_extend; [apply (inv_seqs l I)|].
    unfold all_seqs. rewrite fmap_app. simpl. solve_Permutation.
Qed.

#[export] Hint Resolve new_inv top_up_inv debit_inv refund_inv : ephor.

Lemma ledger_step_inv l l' : ledger_step l l' → ledger_inv l → ledger_inv l'.
Proof. destruct 1; eauto with ephor. Qed.

Lemma rtc_ledger_inv l l' : rtc ledger_step l l' → ledger_inv l → ledger_inv l'.
Proof. induction 1; eauto using ledger_step_inv. Qed.

Lemma reachable_inv cur thr l : reachable cur thr l → ledger_inv l.
Proof. intros H. eapply rtc_ledger_inv; eauto with ephor. Qed.

Lemma credited_has_record l fref :
  ledger_inv l → fref ∈ credited_refs l →
  ∃ r, find_first (λ r, bool_decide (funding_ref r = fref)) (top_ups l) = Some r ∧ funding_ref r = fref.
Proof.
  intros I Hin. rewrite (inv_refs l I), elem_of_list_to_set, list_elem_of_fmap in Hin.
  destruct Hin as (r & -> & Hr).
  destruct (find_first_is_Some (λ r', bool_decide (funding_ref r' = funding_ref r)) _ r Hr)
    as [r' Hr']; [by rewrite bool_decide_eq_true|].
  exists r'. split; [done|]. apply find_first_Some in Hr' as [_ ?%bool_decide_eq_true]. done.
Qed.

Lemma find_first_unique (fref : string) (trs : list TopUpRecord) r :
  NoDup (funding_ref <$> trs) → r ∈ trs → funding_ref r = fref →
  find_first (λ r, bool_decide (funding_ref r = fref)) trs = Some r.
Proof.
  intros Hnd Hin Hr.
  destruct (find_first_is_Some (λ r', bool_decide (funding_ref r' = fref)) trs r Hin)
    as [r' Hr']; [by rewrite bool_decide_eq_true|].
  rewrite Hr'. apply find_first_Some in Hr' as [Hin' He%bool_decide_eq_true].
  f_equal. apply list_elem_of_lookup in Hin as [i Hi], Hin' as [j Hj].
  assert (i = j) as ->; [|congruence].
  eapply (NoDup_lookup (funding_ref <$> trs) i j fref); [done| |];
    rewrite list_lookup_fmap, ?Hi, ?Hj; simpl; congruence.
Qed.

(** The audit trails only grow, so a credited reference stays credited. *)
Lemma ledger_step_top_ups l l' : ledger_step l l' → top_ups l `prefix_of` top_ups l'.
Proof.
  destruct 1 as [? ? ? ? ? ? _ H|? ? ? ? ? _ H|? ? ? ? ? _ H]; revert H;
    unfold top_up, debit, refund; intros; case_all; simplify_eq; simpl;
    eauto using prefix_app_r.
Qed.

Lemma rtc_top_ups l l' : rtc ledger_step l l' → top_ups l `prefix_of` top_ups l'.
Proof.
  induction 1 as [|l1 l2 l3 Hs _ IH]; [done|].
  etrans; [by apply ledger_step_top_ups|done].
Qed.

Lemma top_up_replay p amount fref l r :
  ledger_inv l → r ∈ top_ups l → funding_ref r = fref → top_up p amount fref l = Some (r, l).
Proof.
  intros I Hin Hr. unfold top_up.
  rewrite decide_True.
  - by rewrite (find_first_unique fref (top_ups l) r (inv_refs_nodup l I)).
  - rewrite (inv_refs l I), elem_of_list_to_set, list_elem_of_fmap. eauto.
Qed.

(** ** Properties *)

(** On every ledger reachable by top-ups, debits and refunds in any order,
    every payer's balance is a valid [u64] and their spending never exceeds what
    was topped up; while the payer's top-ups fit in 64 bits (top-ups saturate)
    the books balance exactly; and the transaction numbers of all records are
    distinct until the counter wraps. *)
Theorem prepaid_conservation cur thr l :
  reachable cur thr l →
  (∀ p, U64.valid (balance p l) ∧
        balance p l + debited p l + refunded p l ≤ topped_up p l ∧
        (topped_up p l ≤ U64.MAX → balance p l + debited p l + refunded p l = topped_up p l)) ∧
  (Z.of_nat (length (all_seqs l)) ≤ U64.MAX → NoDup (all_seqs l)).
Proof.
  intros I%reachable_inv. split.
  - intros p. split_and!; [apply (inv_balance l I)|apply (inv_spent l I)|apply (inv_conserved l I)].
  - intros Hlen. by destruct (proj2 (inv_seqs l I) Hlen).
Qed.

(** [top_up] never panics on a reachable ledger; a fresh funding reference
    credits its payer alone, by the amount (saturating); and from then on, after
    any further operations, a replay of that reference, whatever payer and amount
    it names, returns the original record and changes nothing. *)
Theorem top_up_credits_once cur thr l payer amount fref :
  reachable cur thr l → U64.valid amount →
  ∃ r l', top_up payer amount fref l = Some (r, l') ∧ funding_ref r = fref ∧
    (if decide (fref ∈ credited_refs l) then l' = l
     else ∀ q, balance q l' = if decide (payer = q) then U64.saturating_add (balance q l) amount
                              else balance q l) ∧
    (∀ l'' payer' amount', rtc ledger_step l' l'' →
       top_up payer' amount' fref l'' = Some (r, l'')).
Proof.
  intros Hr%reachable_inv Ha.
  assert (∃ r l', top_up payer amount fref l = Some (r, l') ∧ funding_ref r = fref ∧ r ∈ top_ups l')
    as (r & l' & E & Hf & Hin).
  { unfold top_up. case_decide as Hc.
    - destruct (credited_has_record l fref Hr Hc) as (r & E & Hf). rewrite E.
      exists r, l. split_and!; [done|done|]. by apply find_first_Some in E as [? _].
    - eexists _, _. split_and!; [done|done|]. simpl. set_solver. }
  assert (ledger_inv l') as I' by eauto with ephor.
  exists r, l'. split_and!; [done|done| |].
  - revert E. unfold top_up. case_decide; [by intros; case_all|].
    intros [= _ <-] q. rewrite (balance_insert q payer _ l) by reflexivity.
    by case_decide; subst.
  - intros l'' p' a' Hs. apply top_up_replay; [by eapply rtc_ledger_inv| |done].
    eapply elem_of_prefix; [exact Hin|by apply rtc_top_ups].
Qed.

(** [debit_and_receipt] is all or nothing: it succeeds exactly when the bill is
    in the ledger's currency and the balance covers it, and then takes the amount
    from that payer alone, records one debit and issues the bill's receipts;
    otherwise neither the ledger nor the receipt log changes. *)
Theorem debit_and_receipt_all_or_nothing `{KotvaCbor, KotvaIdentity} payer bill log ik l :
  match debit_and_receipt payer bill log ik l with
  | (Ok (record, rs), log', l') =>
      bill_currency bill = pl_currency l ∧ bill_amount bill ≤ balance payer l ∧
      (∀ q, balance q l' = if decide (payer = q) then balance q l - bill_amount bill
                           else balance q l) ∧
      debits l' = debits l ++ [record] ∧ de_amount record = bill_amount bill ∧
      de_payer record = payer ∧ top_ups l' = top_ups l ∧ refunds l' = refunds l ∧
      (rs, log') = issue_for_bill payer bill ik log
  | (Err e, log', l') =>
      log' = log ∧ l' = l ∧
      (e = CurrencyMismatch (bill_currency bill) (pl_currency l) ∧ bill_currency bill ≠ pl_currency l ∨
       e = Exhausted payer (balance payer l) (bill_amount bill) (pl_currency l) ∧
       bill_currency bill = pl_currency l ∧ balance payer l < bill_amount bill)
  end.
Proof.
  unfold debit_and_receipt, debit. case_decide as Hc; [by eauto|].
  destruct (Z.ltb_spec (balance payer l) (bill_amount bill)); [by eauto 6|].
  destruct (issue_for_bill payer bill ik log) as [rs log'] eqn:E. split_and!; try done.
  intros q. rewrite (balance_insert q payer _ l) by reflexivity. by case_decide; subst.
Qed.

(** ** Witnesses *)
Module PrepaidWitness.
Definition p : bytes := [Byte.x01].
Definition l0 := PrepaidLedger_new "USD" 10.
Definition l1 : PrepaidLedger :=
  match top_up p 100 "wire-1" l0 with Some (_, l) => l | None => l0 end.
Definition l2 : PrepaidLedger := (refund p 30 l1).2.

Lemma reachable_l2 : reachable "USD" 10 l2.
Proof.
  eapply rtc_l; [eapply (step_top_up p 100 "wire-1"); [|reflexivity]; unfold U64.valid, U64.MAX; lia|].
  eapply rtc_l; [|apply rtc_refl].
  eapply (step_refund p 30); [unfold U64.valid, U64.MAX; lia|]. apply surjective_pairing.
Qed.

Lemma prepaid_conservation_witness : balance p l2 = 70 ∧ NoDup (all_seqs l2).
Proof.
  destruct (prepaid_conservation "USD" 10 l2 reachable_l2) as [_ Hnd].
  split; [reflexivity|]. apply Hnd. vm_compute. intros Hle. discriminate.
Defined.

Lemma top_up_credits_once_witness :
  ∃ r l', top_up p 50 "wire-1" l2 = Some (r, l') ∧ tu_amount r = 100.
Proof.
  destruct (top_up_credits_once "USD" 10 l2 p 50 "wire-1" reachable_l2)
    as (r & l' & E & _); [unfold U64.valid, U64.MAX; lia|].
  exists r, l'. split; [exact E|]. vm_compute in E. injection E as <- _. reflexivity.
Defined.
End PrepaidWitness.
