(* ===== verification/BillingSettlement.v ===== *)
(** * Settlement rails

    [crates/broker-billing/src/settlement.rs], [subscription.rs] and [stake.rs]:
    the [SettlementRail] trait with the in-memory double-entry ledger that
    implements it, the monthly subscription charged through any rail, and the
    fail-closed stake verifier.  Rail methods take [&self] and mutate behind
    locks; here they pass the rail's state. *)

From Stdlib Require Import ZArith Lia.
From stdpp Require Import base decidable option list strings gmap.
From S2P Require Import Prelude.

Module Settlement.
Record SettlementReceipt := {
  sr_payer : bytes; sr_amount : Z; sr_currency : string; sr_tx_seq : Z }.

Class SettlementRail (R E : Type) := {
  charge : bytes → Z → string → R → result E SettlementReceipt * R;
  balance : bytes → string → R → result E Z;
}.

(** What a rail promises the components that charge through it: a receipt
    echoes the charge it settles, and a failed charge settles nothing. *)
Class SettlementRailLaws (R E : Type) `{SettlementRail R E} := {
  charge_receipt payer amount currency rail r rail' :
    charge payer amount currency rail = (Ok r, rail') →
    sr_payer r = payer ∧ sr_amount r = amount ∧ sr_currency r = currency;
  charge_failed payer amount currency rail e rail' :
    charge payer amount currency rail = (Err e, rail') → rail' = rail;
}.

Inductive LedgerError :=
| InsufficientBalance (payer : bytes) (balance amount : Z) (currency : string).

Record InMemoryLedger := {
  balances : gmap (bytes * string) Z;
  house : gmap string Z;
  next_tx_seq : Z;
}.
Definition InMemoryLedger_new : InMemoryLedger :=
  {| balances := ∅; house := ∅; next_tx_seq := 0 |}.

Definition payer_balance (key : bytes * string) (l : InMemoryLedger) : Z :=
  default 0 (balances l !! key).
Definition house_balance (currency : string) (l : InMemoryLedger) : Z :=
  default 0 (house l !! currency).

Definition deposit (payer : bytes) (amount : Z) (currency : string) (l : InMemoryLedger)
    : InMemoryLedger :=
  {| balances := <[(payer, currency) :=
       I64.wrap (payer_balance (payer, currency) l + I64.wrap amount)]> (balances l);
     house := <[currency := I64.wrap (house_balance currency l - I64.wrap amount)]> (house l);
     next_tx_seq := next_tx_seq l |}.

(** [next_seq] hands out the counter and advances it. *)
Definition InMemoryLedger_charge (payer : bytes) (amount : Z) (currency : string)
    (l : InMemoryLedger) : result LedgerError SettlementReceipt * InMemoryLedger :=
  let key := (payer, currency) in
  let bal := payer_balance key l in
  if bal <? I64.wrap amount then (Err (InsufficientBalance payer bal amount currency), l)
  else
    (Ok {| sr_payer := payer; sr_amount := amount; sr_currency := currency;
           sr_tx_seq := next_tx_seq l |},
     {| balances := <[key := I64.wrap (bal - I64.wrap amount)]> (balances l);
        house := <[currency := I64.wrap (house_balance currency l + I64.wrap amount)]> (house l);
        next_tx_seq := U64.wrap (next_tx_seq l + 1) |}).

Definition InMemoryLedger_balance (payer : bytes) (currency : string) (l : InMemoryLedger)
    : result LedgerError Z := Ok (payer_balance (payer, currency) l).

#[export] Instance InMemoryLedger_SettlementRail : SettlementRail InMemoryLedger LedgerError :=
  {| charge := InMemoryLedger_charge; balance := InMemoryLedger_balance |}.

(** [grand_total]: the wrapping [i64] sum of the payer balances in a currency,
    plus the house account. *)
Definition add_balance (currency : string) (key : bytes * string) (v acc : Z) : Z :=
  if decide (key.2 = currency) then I64.wrap (acc + v) else acc.
Definition grand_total (currency : string) (l : InMemoryLedger) : Z :=
  I64.wrap (map_fold (add_balance currency) 0 (balances l) + house_balance currency l).

(** ** The subscription *)

Record Subscription := {
  sub_payer : bytes; monthly_amount : Z; sub_currency : string; active : bool }.
Definition Subscription_new (payer : bytes) (amount : Z) (currency : string) : Subscription :=
  {| sub_payer := payer; monthly_amount := amount; sub_currency := currency; active := true |}.
Definition Subscription_charge `{SettlementRail R E} (s : Subscription) (rail : R)
    : result E SettlementReceipt * R :=
  charge (sub_payer s) (monthly_amount s) (sub_currency s) rail.

(** ** Stake verification *)

Class StakeVerifier (V E : Type) := {
  verify_stake : V → bytes → string → Z → result E bool }.
Inductive NoStakeRail := mkNoStakeRail.
#[export] Instance NoStakeRail_StakeVerifier : StakeVerifier NoStakeRail Empty_set :=
  {| verify_stake _ _ _ _ := Ok false |}.

(** ** Double entry *)

Lemma add_balance_comm (c : string) (k1 k2 : bytes * string) v1 v2 y :
  add_balance c k1 v1 (add_balance c k2 v2 y) = add_balance c k2 v2 (add_balance c k1 v1 y).
Proof.
  unfold add_balance. repeat case_decide; rewrite ?I64.iwrap_add_l; try done. f_equal. lia.
Qed.

Lemma fold_delete (c : string) (m : gmap (bytes * string) Z) k :
  map_fold (add_balance c) 0 m =
  let s := map_fold (add_balance c) 0 (delete k m) in
  match m !! k with Some w => add_balance c k w s | None => s end.
Proof.
  simpl. destruct (m !! k) as [w|] eqn:E; [|by rewrite delete_id].
  rewrite <- map_fold_insert_L by (rewrite ?lookup_delete_eq; auto using add_balance_comm).
  by rewrite insert_delete_id.
Qed.

(** Changing one payer's balance changes the sum, modulo 2^64, by the change. *)
Lemma fold_insert (c : string) (m : gmap (bytes * string) Z) k v :
  I64.wrap (map_fold (add_balance c) 0 (<[k := v]> m)) =
  I64.wrap (map_fold (add_balance c) 0 m +
            (if decide (k.2 = c) then v - default 0 (m !! k) else 0)).
Proof.
  rewrite <- insert_delete_eq,
    map_fold_insert_L by (rewrite ?lookup_delete_eq; auto using add_balance_comm).
  rewrite (fold_delete c m k). simpl.
  generalize (map_fold (add_balance c) 0 (delete k m)). intros s.
  unfold add_balance. case_decide; destruct (m !! k); simpl;
    rewrite ?I64.iwrap_wrap, ?I64.iwrap_add_l; f_equal; lia.
Qed.

Definition double_entry (l : InMemoryLedger) : Prop := ∀ c, grand_total c l = 0.

(** A transfer between a payer and the house, of any size, keeps the books at
    zero: the two updates cancel modulo 2^64. *)
Lemma transfer_double_entry l payer c d seq :
  double_entry l →
  double_entry {| balances := <[(payer, c) := I64.wrap (payer_balance (payer, c) l + d)]> (balances l);
                  house := <[c := I64.wrap (house_balance c l - d)]> (house l);
                  next_tx_seq := seq |}.
Proof.
  intros Hd c'. specialize (Hd c'). unfold grand_total, house_balance, payer_balance in *.
  simpl. rewrite <- I64.iwrap_add_l, fold_insert, I64.iwrap_add_l. simpl.
  etrans; [|exact Hd]. clear Hd.
  destruct (decide (c = c')) as [<-|Hne].
  - rewrite lookup_insert_eq. simpl. rewrite I64.iwrap_add_r.
    set (s := map_fold _ _ _). set (b := default 0 (balances l !! (payer, c))). set (h := default 0 (house l !! c)).
    replace (s + (I64.wrap (b + d) - b) + (h - d))
      with (s + (h - d - b) + I64.wrap (b + d)) by lia.
    rewrite I64.iwrap_add_r. f_equal. lia.
  - rewrite lookup_insert_ne by done. f_equal. lia.
Qed.

Lemma deposit_double_entry payer amount c l :
  double_entry l → double_entry (deposit payer amount c l).
Proof. apply transfer_double_entry. Qed.

Lemma charge_double_entry payer amount c l :
  double_entry l → double_entry (charge payer amount c l).2.
Proof.
  intros Hd. simpl. unfold InMemoryLedger_charge. case_match; [done|]. simpl.
  pose proof (transfer_double_entry l payer c (- I64.wrap amount) (U64.wrap (next_tx_seq l + 1)) Hd) as H'.
  by rewrite Z.sub_opp_r, Z.add_opp_r in H'.
Qed.

#[export] Hint Resolve deposit_double_entry charge_double_entry : ephor.

Inductive rail_step : InMemoryLedger → InMemoryLedger → Prop :=
| step_deposit payer amount c l : U64.valid amount → rail_step l (deposit payer amount c l)
| step_charge payer amount c l : U64.valid amount → rail_step l (charge payer amount c l).2.

Lemma rail_rtc_double_entry l l' : rtc rail_step l l' → double_entry l → double_entry l'.
Proof. induction 1 as [|? ? ? [] _ IH]; eauto with ephor. Qed.

Lemma payer_balance_valid l l' key :
  rtc rail_step l l' → I64.valid (payer_balance key l) → I64.valid (payer_balance key l').
Proof.
  induction 1 as [|? ? ? Hs _ IH]; [done|]. intros Hv. apply IH. clear IH.
  destruct Hs as [payer a c l|payer a c l]; revert Hv; simpl;
    unfold deposit, InMemoryLedger_charge; repeat case_match; unfold payer_balance; simpl; try done;
    (destruct (decide ((payer, c) = key)) as [<-|];
     [rewrite lookup_insert_eq; intros; apply I64.iwrap_valid|by rewrite lookup_insert_ne by done]).
Qed.

#[export] Instance InMemoryLedger_laws : SettlementRailLaws InMemoryLedger LedgerError.
Proof.
  split; simpl; unfold InMemoryLedger_charge; intros until 0; case_match; intros; by simplify_eq.
Qed.

(** Double entry: after any history of deposits and charges of any [u64]
    amounts, the payer balances and the house account of every currency net to
    zero ([mock_ledger_balances], for all histories). *)
Theorem ledger_nets_to_zero l :
  rtc rail_step InMemoryLedger_new l → ∀ currency, grand_total currency l = 0.
Proof.
  intros Hr. eapply rail_rtc_double_entry; [done|]. intros c. unfold grand_total, house_balance.
  simpl. by rewrite map_fold_empty, lookup_empty.
Qed.

(** A charge up to [i64::MAX] against a reachable ledger settles exactly when
    the payer's balance in that currency covers it; it then takes the amount
    from that account only, and otherwise leaves the ledger as it was. *)
Theorem charge_exact l payer amount currency :
  rtc rail_step InMemoryLedger_new l → 0 ≤ amount ≤ I64.MAX →
  let bal := payer_balance (payer, currency) l in
  match charge payer amount currency l with
  | (Ok r, l') =>
      0 ≤ amount ≤ bal ∧ sr_tx_seq r = next_tx_seq l ∧
      ∀ key, payer_balance key l' =
             if decide (key = (payer, currency)) then bal - amount else payer_balance key l
  | (Err e, l') => bal < amount ∧ l' = l ∧ e = InsufficientBalance payer bal amount currency
  end.
Proof.
  intros Hr Ha. simpl. unfold InMemoryLedger_charge.
  assert (I64.valid (payer_balance (payer, currency) l)) as Hb.
  { eapply payer_balance_valid; [exact Hr|]. vm_compute. split; discriminate. }
  unfold I64.valid, I64.MIN, I64.MAX in *.
  rewrite (I64.iwrap_small amount) by (unfold I64.valid, I64.MIN, I64.MAX; lia).
  destruct (Z.ltb_spec (payer_balance (payer, currency) l) amount); [done|].
  split_and!; [lia|lia|done|]. intros key. unfold payer_balance at 1. simpl.
  case_decide; subst.
  - rewrite lookup_insert_eq. simpl. apply I64.iwrap_small.
    unfold I64.valid, I64.MIN, I64.MAX. lia.
  - by rewrite lookup_insert_ne.
Qed.

(** Above [i64::MAX] the cast [amount as i64] is negative: a charge of such
    an amount to a payer whose balance is not negative settles although no
    balance can cover it, returns a receipt for the full amount, and {e credits}
    the payer by [2^64 - amount]. *)
Theorem oversized_charge_credits_payer l payer amount currency :
  I64.MAX < amount ≤ U64.MAX →
  let bal := payer_balance (payer, currency) l in
  0 ≤ bal → bal + (U64.MAX + 1 - amount) ≤ I64.MAX →
  ∃ r l', charge payer amount currency l = (Ok r, l') ∧ sr_amount r = amount ∧
    payer_balance (payer, currency) l' = bal + (U64.MAX + 1 - amount).
Proof.
  simpl. intros Ha Hb Hs. unfold InMemoryLedger_charge.
  assert (I64.wrap amount = amount - (U64.MAX + 1)) as ->.
  { unfold I64.wrap, I64.MAX, U64.MAX in *.
    rewrite <- (Z.mod_unique _ 18446744073709551616 1 (amount - 9223372036854775808)); lia. }
  unfold I64.MAX, U64.MAX in *.
  destruct (Z.ltb_spec (payer_balance (payer, currency) l) (amount - (18446744073709551615 + 1))); [lia|].
  eexists _, _. split_and!; [done|done|]. unfold payer_balance at 1. simpl.
  rewrite lookup_insert_eq. simpl.
  rewrite I64.iwrap_small by (unfold I64.valid, I64.MIN, I64.MAX; lia). lia.
Qed.

(** A subscription's period is charged at most once and for its fixed amount,
    whatever the rail: the receipt is for the payer, amount and currency of the
    subscription, and a refusal leaves the rail untouched. *)
Lemma subscription_charge_spec `{SettlementRailLaws R E} s (rail : R) :
  match Subscription_charge s rail with
  | (Ok r, _) => sr_payer r = sub_payer s ∧ sr_amount r = monthly_amount s ∧
                 sr_currency r = sub_currency s
  | (Err _, rail') => rail' = rail
  end.
Proof.
  unfold Subscription_charge. destruct (charge _ _ _ rail) as [[r|e] rail'] eqn:Eq.
  - by eapply charge_receipt.
  - by eapply charge_failed.
Qed.
End Settlement.

(** ** Witnesses *)
Module SettlementWitness.
Import Settlement.
Definition p : bytes := [Byte.x01].
Definition l1 := deposit p 500 "USD" InMemoryLedger_new.

Lemma reachable_l1 : rtc rail_step InMemoryLedger_new l1.
Proof. eapply rtc_l, rtc_refl. constructor. unfold U64.valid, U64.MAX. lia. Qed.

Lemma ledger_nets_to_zero_witness : grand_total "USD" l1 = 0 ∧ house_balance "USD" l1 = -500.
Proof. split; [apply (ledger_nets_to_zero l1 reachable_l1 "USD")|reflexivity]. Defined.

Lemma charge_exact_witness : payer_balance (p, "USD") (charge p 300 "USD" l1).2 = 200.
Proof.
  pose proof (charge_exact l1 p 300 "USD" reachable_l1 ltac:(unfold I64.MAX; lia)) as H.
  destruct (charge p 300 "USD" l1) as [[r|e] l'] eqn:E; cbv zeta in H.
  - destruct H as (_ & _ & Hb). simpl. rewrite Hb. reflexivity.
  - destruct H as (Hlt & _). vm_compute in Hlt. discriminate.
Defined.

(** A charge of [u64::MAX] to an empty account leaves it one unit richer. *)
Lemma oversized_charge_witness :
  ∃ r l', charge p U64.MAX "USD" InMemoryLedger_new = (Ok r, l') ∧ sr_amount r = U64.MAX ∧
    payer_balance (p, "USD") l' = 1.
Proof.
  apply (oversized_charge_credits_payer InMemoryLedger_new p U64.MAX "USD").
  - unfold I64.MAX, U64.MAX. lia.
  - reflexivity.
  - vm_compute. discriminate.
Defined.
End SettlementWitness.
