(* ===== verification/BillingSim.v ===== *)
(** * The billing pipeline

    [crates/broker-billing/src/sim.rs]: [SimEngine] drives the meter, the tariff
    evaluation, the prepaid ledger, the receipt log and a settlement rail through
    a stream of billing events.  The engine is generic in its rail; so is the
    model, through the [SettlementRail] interface. *)

From Stdlib Require Import ZArith Lia.
From stdpp Require Import base decidable option list strings gmap.
From S2P Require Import Prelude Kotva Descriptor BillingMeter BillingTariff BillingReceipt BillingPrepaid BillingSettlement.

Inductive BillingEvent :=
| EvTopUp (payer : bytes) (amount : Z) (funding_ref : string)
| EvMeteredUsage (payer : bytes) (kind : ResourceKind) (units : Z)
| EvTariffChange (schedule : TariffSchedule)
| EvRefund (payer : bytes) (amount : Z)
| EvMonthlyCharge (payer : bytes) (amount : Z) (currency : string).

Inductive BillingOutcome :=
| OutToppedUp (record : TopUpRecord)
| OutDebited (record : DebitRecord) (receipts : list UsageReceipt)
| OutDebitFailed (payer : bytes) (error : PrepaidError)
| OutTariffChanged
| OutRefunded (record : RefundRecord)
| OutLowBalance (payer : bytes) (balance : Z)
| OutExhausted (payer : bytes)
| OutMonthlyCharged (receipt : Settlement.SettlementReceipt)
| OutMonthlyChargeFailed (payer : bytes) (error : string).

(** Rust's [Debug] bound on the rail's error type. *)
Class DebugFmt (E : Type) := debug_fmt : E → string.

Section sim.
Context `{KC : KotvaCbor} `{KI : KotvaIdentity}.
Context {R E : Type} `{Rail : Settlement.SettlementRail R E} `{Dbg : DebugFmt E}.

Record SimEngine := {
  meter : InMemoryMeter;
  ledger : PrepaidLedger;
  schedule : TariffSchedule;
  sim_log : ReceiptLog;
  sim_ik : IdentityKey;
  rail : R;
}.

Definition SimEngine_new (l : PrepaidLedger) (s : TariffSchedule) (ik : IdentityKey) (r : R)
    : SimEngine :=
  {| meter := InMemoryMeter_new; ledger := l; schedule := s; sim_log := ReceiptLog_new;
     sim_ik := ik; rail := r |}.

Definition push_state_notification (payer : bytes) (l : PrepaidLedger) : list BillingOutcome :=
  match state payer l with
  | StateLowBalance => [OutLowBalance payer (balance payer l)]
  | StateExhausted => [OutExhausted payer]
  | StateOk => []
  end.

(** [apply]: the outcomes pushed for one event and the engine after it.
    [None] is [top_up]'s panic. *)
Definition apply (event : BillingEvent) (e : SimEngine) : option (list BillingOutcome * SimEngine) :=
  match event with
  | EvTopUp payer amount fref =>
      '(record, l) ← top_up payer amount fref (ledger e);
      Some ([OutToppedUp record],
            {| meter := meter e; ledger := l; schedule := schedule e; sim_log := sim_log e;
               sim_ik := sim_ik e; rail := rail e |})
  | EvMeteredUsage payer kind units =>
      let m := record payer kind units (meter e) in
      let '(usage, m) := reset payer m in
      match evaluate (schedule e) usage with
      | Ok bill =>
          let '(res, log, l) := debit_and_receipt payer bill (sim_log e) (sim_ik e) (ledger e) in
          let e' := {| meter := m; ledger := l; schedule := schedule e; sim_log := log;
                       sim_ik := sim_ik e; rail := rail e |} in
          match res with
          | Ok (record, receipts) =>
              Some (OutDebited record receipts :: push_state_notification payer l, e')
          | Err error => Some ([OutDebitFailed payer error], e')
          end
      | Err _ =>
          Some ([OutDebitFailed payer (CurrencyMismatch "unpriced-kind" (pl_currency (ledger e)))],
                {| meter := m; ledger := ledger e; schedule := schedule e; sim_log := sim_log e;
                   sim_ik := sim_ik e; rail := rail e |})
      end
  | EvTariffChange s =>
      Some ([OutTariffChanged],
            {| meter := meter e; ledger := ledger e; schedule := s; sim_log := sim_log e;
               sim_ik := sim_ik e; rail := rail e |})
  | EvRefund payer amount =>
      let '(res, l) := refund payer amount (ledger e) in
      let e' := {| meter := meter e; ledger := l; schedule := schedule e; sim_log := sim_log e;
                   sim_ik := sim_ik e; rail := rail e |} in
      match res with
      | Ok record => Some (OutRefunded record :: push_state_notification payer l, e')
      | Err error => Some ([OutDebitFailed payer error], e')
      end
  | EvMonthlyCharge payer amount currency =>
      let '(res, r) := Settlement.charge payer amount currency (rail e) in
      let e' := {| meter := meter e; ledger := ledger e; schedule := schedule e;
                   sim_log := sim_log e; sim_ik := sim_ik e; rail := r |} in
      match res with
      | Ok receipt => Some ([OutMonthlyCharged receipt], e')
      | Err err => Some ([OutMonthlyChargeFailed payer (debug_fmt err)], e')
      end
  end.

Fixpoint replay (events : list BillingEvent) (e : SimEngine)
    : option (list BillingOutcome * SimEngine) :=
  match events with
  | [] => Some ([], e)
  | event :: rest =>
      '(out, e) ← apply event e;
      '(out', e) ← replay rest e;
      Some (out ++ out', e)
  end.
End sim.
#[global] Arguments SimEngine {KI} R.

(** ** The trace and the audit trails *)

(** The [u64]s and schedules an event carries are values of their types. *)
Definition event_valid (ev : BillingEvent) : Prop :=
  match ev with
  | EvTopUp _ amount _ => U64.valid amount
  | EvMeteredUsage _ _ units => U64.valid units
  | EvTariffChange s => schedule_wf s
  | EvRefund _ amount => U64.valid amount
  | EvMonthlyCharge _ amount _ => U64.valid amount
  end.

Definition debited_of (o : BillingOutcome) : list DebitRecord :=
  match o with OutDebited r _ => [r] | _ => [] end.
Definition receipts_of (o : BillingOutcome) : list UsageReceipt :=
  match o with OutDebited _ rs => rs | _ => [] end.
Definition refunded_of (o : BillingOutcome) : list RefundRecord :=
  match o with OutRefunded r => [r] | _ => [] end.

Section sim_laws.
Context `{KC : KotvaCbor} `{KI : KotvaIdentity} `{KIL : !KotvaIdentityLaws}.
Context {R E : Type} `{Rail : Settlement.SettlementRail R E} `{Dbg : DebugFmt E}.

Record engine_inv (e : SimEngine R) : Prop := {
  ei_ledger : ledger_inv (ledger e);
  ei_meter : table (meter e) = ∅;
  ei_schedule : schedule_wf (schedule e);
  ei_receipts : verify_all (sim_log e) = Ok tt;
}.

(** The engine moved from [e] to [e'] having reported [outs]. *)
Record traced (e : SimEngine R) (outs : list BillingOutcome) (e' : SimEngine R) : Prop := {
  tr_debits : debits (ledger e') = debits (ledger e) ++ (outs ≫= debited_of);
  tr_refunds : refunds (ledger e') = refunds (ledger e) ++ (outs ≫= refunded_of);
  tr_receipts : receipts (sim_log e') = receipts (sim_log e) ++ (outs ≫= receipts_of);
}.

Lemma traced_trans e1 o1 e2 o2 e3 : traced e1 o1 e2 → traced e2 o2 e3 → traced e1 (o1 ++ o2) e3.
Proof using.
  intros [D1 F1 R1] [D2 F2 R2]. split; rewrite bind_app, app_assoc; congruence.
Qed.

Lemma meter_increment payer k n (m : InMemoryMeter) :
  table m = ∅ → U64.valid n → reset payer (record payer k n m) = ({[k := n]}, m).
Proof using.
  intros Hm [H0 H1]. destruct m as [t]. simpl in *. subst t.
  rewrite lookup_insert_eq. simpl.
  rewrite !lookup_empty. simpl. rewrite lookup_empty. simpl. unfold U64.saturating_add.
  rewrite Z.min_l by lia. rewrite insert_empty. f_equal. f_equal.
  by rewrite delete_insert_id by (by rewrite lookup_empty).
Qed.

Lemma bill_operations_verify ik ops :
  verify_list ((λ op, BilledOperation_sign op ik) <$> ops) = Ok tt.
Proof using KIL. induction ops; simpl; [done|]. by rewrite receipt_sign_verifies. Qed.

Lemma issue_items_log payer b ik items log rs log' :
  issue_items payer b ik items log = (rs, log') →
  receipts log' = receipts log ++ rs ∧ verify_list rs = Ok tt.
Proof using KIL.
  revert log rs log'. induction items as [|i items IH]; intros log rs log'; simpl.
  { intros [= <- <-]. by rewrite app_nil_r. }
  destruct (issue_items payer b ik items _) as [rs1 log1] eqn:Eq.
  intros [= <- <-]. apply IH in Eq as [-> Hv]. simpl. rewrite <- app_assoc.
  split; [done|]. by rewrite receipt_sign_verifies.
Qed.

Lemma notification_silent payer l :
  (push_state_notification payer l ≫= debited_of) = [] ∧
  (push_state_notification payer l ≫= refunded_of) = [] ∧
  (push_state_notification payer l ≫= receipts_of) = [].
Proof using. unfold push_state_notification. by destruct (state payer l). Qed.

(** The bill of one increment of usage. *)
Definition increment_bill (s : TariffSchedule) (k : ResourceKind) (n price : Z) : Bill :=
  {| bill_currency := currency s;
     bill_amount := Z.min (Z.max 0 (n - default 0 (free_allowance s !! k)) * price) U64.MAX;
     line_items := [line_item s k n price] |}.

Lemma evaluate_increment s k n :
  schedule_wf s →
  evaluate s {[k := n]} =
  match prices s !! k with
  | None => Err (UnpricedKind k)
  | Some price => Ok (increment_bill s k n price)
  end.
Proof using.
  intros Hs. unfold evaluate. assert (btree_iter {[k := n]} = [(k, n)]) as -> by by destruct k.
  simpl. destruct (prices s !! k) as [price|] eqn:Hp; [|done]. simpl.
  destruct (wf_prices s Hs k price Hp). unfold increment_bill. f_equal. f_equal.
  unfold U64.saturating_add, U64.saturating_mul, U64.saturating_sub.
  rewrite (Z.max_comm 0).
  assert (0 ≤ Z.max (n - default 0 (free_allowance s !! k)) 0 * price)
    by (apply Z.mul_nonneg_nonneg; lia).
  unfold U64.MAX in *. lia.
Qed.

Lemma increment_bill_valid s k n price :
  schedule_wf s → prices s !! k = Some price → U64.valid (bill_amount (increment_bill s k n price)).
Proof using.
  intros Hs Hp. destruct (wf_prices s Hs k price Hp). unfold U64.valid. simpl.
  assert (0 ≤ Z.max 0 (n - default 0 (free_allowance s !! k)) * price)
    by (apply Z.mul_nonneg_nonneg; lia).
  unfold U64.MAX in *. lia.
Qed.

(** [debit_and_receipt] on the audit trails. *)
Lemma debit_and_receipt_trail payer bill log ik l res log' l' :
  debit_and_receipt payer bill log ik l = (res, log', l') →
  U64.valid (bill_amount bill) → ledger_inv l → verify_all log = Ok tt →
  ledger_inv l' ∧ verify_all log' = Ok tt ∧ refunds l' = refunds l ∧
  match res with
  | Ok (record, rs) => debits l' = debits l ++ [record] ∧ receipts log' = receipts log ++ rs
  | Err _ => l' = l ∧ log' = log
  end.
Proof using KIL.
  unfold debit_and_receipt. intros Heq Hb I Hv.
  destruct (debit payer bill l) as [res1 l1] eqn:Hd.
  assert (ledger_inv l1) as I1 by (by eapply debit_inv).
  unfold debit in Hd. repeat case_match; simplify_eq; try done.
  match goal with H : issue_for_bill _ _ _ _ = _ |- _ =>
    apply issue_items_log in H as [Hr Hvl] end.
  split_and!; try done. unfold verify_all in *. rewrite Hr, verify_list_app, Hv. done.
Qed.

(** One event preserves the engine's invariant, never panics, and reports
    exactly what it appended to the audit trails. *)
Lemma apply_sound ev e :
  engine_inv e → event_valid ev →
  ∃ outs e', apply ev e = Some (outs, e') ∧ engine_inv e' ∧ traced e outs e'.
Proof using KIL.
  intros [I Hm Hs Hv] Hev. destruct ev as [p a f|p k n|s|p a|p a c]; simpl in Hev.
  - assert (is_Some (top_up p a f (ledger e))) as [[r l'] Ht].
    { unfold top_up. case_decide as Hc; [|by eauto].
      destruct (credited_has_record _ _ I Hc) as (r & -> & _). eauto. }
    eexists _, _. unfold apply. rewrite Ht. split; [done|].
    split; [split; simpl; [by eapply top_up_inv|done..]|].
    revert Ht. unfold top_up. intros; split; case_all; simplify_eq; simpl; by rewrite app_nil_r.
  - unfold apply. rewrite meter_increment, evaluate_increment by done.
    destruct (prices (schedule e) !! k) as [price|] eqn:Hp.
    + pose proof (increment_bill_valid (schedule e) k n price Hs Hp) as Hb.
      destruct (debit_and_receipt _ _ _ _ _) as [[res log'] l'] eqn:Hd.
      destruct (debit_and_receipt_trail _ _ _ _ _ _ _ _ Hd Hb I Hv) as (I' & Hv' & Hf & Hres).
      destruct (notification_silent p l') as (Nd & Nf & Nr); unfold mbind in Nd, Nf, Nr.
      destruct res as [[record rs]|err]; eexists _, _; (split; [done|]);
        (split; [by split|]); destruct Hres as [Hl Hr];
        split; simpl; rewrite ?Nd, ?Nf, ?Nr, ?app_nil_r; congruence.
    + eexists _, _. split; [done|]. split; [by split|]. split; simpl; by rewrite app_nil_r.
  - eexists _, _. split; [done|]. split; [by split|]. split; simpl; by rewrite app_nil_r.
  - unfold apply. destruct (refund p a (ledger e)) as [res l'] eqn:Hr.
    assert (ledger_inv l') as I' by (by eapply refund_inv).
    destruct (notification_silent p l') as (Nd & Nf & Nr); unfold mbind in Nd, Nf, Nr.
    unfold refund in Hr. case_match; simplify_eq;
      (eexists _, _; split; [done|]; split; [by split|]; split; simpl in *;
       rewrite ?Nd, ?Nf, ?Nr, ?app_nil_r; done).
  - unfold apply. destruct (Settlement.charge p a c (rail e)) as [res r].
    destruct res; (eexists _, _; split; [done|]; split; [by split|]; split; simpl;
      by rewrite app_nil_r).
Qed.

Lemma replay_inv events e :
  Forall event_valid events → engine_inv e →
  ∃ outs e', replay events e = Some (outs, e') ∧ engine_inv e' ∧ traced e outs e'.
Proof using KIL.
  intros Hev. revert e. induction Hev as [|ev events Hev _ IH]; intros e He.
  - eexists _, _. split; [done|]. split; [done|]. split; simpl; by rewrite app_nil_r.
  - destruct (apply_sound ev e He Hev) as (o1 & e1 & Ha & He1 & T1).
    destruct (IH e1 He1) as (o2 & e2 & Hr & He2 & T2).
    exists (o1 ++ o2), e2. simpl. rewrite Ha. simpl. rewrite Hr. simpl.
    eauto using traced_trans.
Qed.

(** Replaying any stream of billing events on a fresh engine over a reachable
    ledger terminates without a panic, keeps the ledger's books, leaves no
    metered usage behind, and reports exactly what it did: the ledger's new
    debits and refunds are those of the outcomes, in order, and the receipt log
    holds exactly the receipts handed out, all of which verify. *)
Theorem replay_reports_audit_trail cur thr l s ik r events :
  reachable cur thr l → schedule_wf s → Forall event_valid events →
  ∃ outs e', replay events (SimEngine_new l s ik r) = Some (outs, e') ∧
    ledger_inv (ledger e') ∧ table (meter e') = ∅ ∧
    debits (ledger e') = debits l ++ (outs ≫= debited_of) ∧
    refunds (ledger e') = refunds l ++ (outs ≫= refunded_of) ∧
    receipts (sim_log e') = (outs ≫= receipts_of) ∧
    verify_all (sim_log e') = Ok tt.
Proof using KIL.
  intros Hl%reachable_inv Hs Hev.
  destruct (replay_inv events (SimEngine_new l s ik r) Hev) as (outs & e' & Hr & [] & []);
    [by split|].
  exists outs, e'. by split_and!.
Qed.

(** What one metered increment does: an unpriced kind, a currency other than
    the ledger's or too little credit is reported as [DebitFailed] and changes
    nothing (the increment is not kept for later); otherwise the exact charge is
    taken, and the payer is notified when the balance left is zero or at most
    the low-balance threshold. *)
Theorem metered_usage_outcome (e : SimEngine R) p k n :
  table (meter e) = ∅ → schedule_wf (schedule e) → U64.valid n →
  let l := ledger e in
  match prices (schedule e) !! k with
  | None =>
      apply (EvMeteredUsage p k n) e =
      Some ([OutDebitFailed p (CurrencyMismatch "unpriced-kind" (pl_currency l))], e)
  | Some price =>
      let amount :=
        Z.min (Z.max 0 (n - default 0 (free_allowance (schedule e) !! k)) * price) U64.MAX in
      if decide (currency (schedule e) = pl_currency l ∧ amount ≤ balance p l) then
        ∃ record rs notes e', apply (EvMeteredUsage p k n) e = Some (OutDebited record rs :: notes, e') ∧
          de_amount record = amount ∧ length rs = 1%nat ∧
          balance p (ledger e') = balance p l - amount ∧
          notes = (if balance p l - amount =? 0 then [OutExhausted p]
                   else if balance p l - amount <=? low_balance_threshold l
                        then [OutLowBalance p (balance p l - amount)] else [])
      else ∃ err, apply (EvMeteredUsage p k n) e = Some ([OutDebitFailed p err], e)
  end.
Proof using.
  intros Hm Hs Hn. cbv zeta. unfold apply. rewrite meter_increment, evaluate_increment by done.
  destruct e as [m l s log ik r]. simpl in *.
  destruct (prices s !! k) as [price|]; [|done].
  unfold debit_and_receipt, debit. simpl.
  set (amount := Z.min _ _).
  destruct (decide (currency s ≠ pl_currency l)) as [Hc|Hc].
  { rewrite decide_False by tauto. by eauto. }
  destruct (Z.ltb_spec (balance p l) amount).
  { rewrite decide_False by lia. by eauto. }
  rewrite decide_True by (split; [by apply dec_stable|done]).
  eexists _, _, _, _. split; [done|]. split_and!; try done.
  - simpl. rewrite (balance_insert p p _ l) by reflexivity. by rewrite decide_True.
  - unfold push_state_notification, state, account_state. simpl.
    rewrite !(balance_insert p p _ l) by reflexivity. rewrite !decide_True by done.
    by repeat case_match.
Qed.
End sim_laws.

(** ** Witnesses *)
Module SimWitness.
Import Reference Settlement.
#[local] Instance ledger_debug : DebugFmt LedgerError := λ _, "InsufficientBalance".
Definition p : bytes := [Byte.x01].
Definition ik : IdentityKey := [Byte.x11].
Definition sched : TariffSchedule :=
  {| currency := "USD"; prices := {[Messages := 2]}; free_allowance := ∅; period_seconds := None |}.
Definition events : list BillingEvent :=
  [EvTopUp p 100 "wire-1"; EvMeteredUsage p Messages 45; EvRefund p 10].

Lemma sched_wf : schedule_wf sched.
Proof.
  split; simpl; [|by intros ? ?|done].
  intros k v [<- <-]%lookup_singleton_Some. unfold U64.valid, U64.MAX. lia.
Qed.

Lemma replay_reports_audit_trail_witness :
  ∃ outs e', replay events (SimEngine_new (PrepaidLedger_new "USD" 20) sched ik InMemoryLedger_new)
             = Some (outs, e') ∧ verify_all (sim_log e') = Ok tt.
Proof.
  destruct (replay_reports_audit_trail "USD" 20 (PrepaidLedger_new "USD" 20) sched ik
              InMemoryLedger_new events) as (outs & e' & Hr & _ & _ & _ & _ & _ & Hv).
  - apply rtc_refl.
  - exact sched_wf.
  - repeat constructor; unfold U64.MAX; simpl; lia.
  - exists outs, e'. split; [exact Hr|exact Hv].
Defined.

Lemma metered_usage_outcome_witness :
  ∃ err, apply (EvMeteredUsage p Messages 1)
           (SimEngine_new (PrepaidLedger_new "USD" 20) sched ik InMemoryLedger_new)
         = Some ([OutDebitFailed p err],
                 SimEngine_new (PrepaidLedger_new "USD" 20) sched ik InMemoryLedger_new).
Proof.
  apply (metered_usage_outcome
    (SimEngine_new (PrepaidLedger_new "USD" 20) sched ik InMemoryLedger_new) p Messages 1).
  - reflexivity.
  - exact sched_wf.
  - unfold U64.valid, U64.MAX. lia.
Defined.
End SimWitness.
