(* ===== verification/RustStr.v ===== *)
(** * String operations of the Rust standard library

    The [str] and [u8] methods the gateway crate calls, on Rocq strings read as
    UTF-8 byte sequences, with the lemmas the gateway's components share.  Each
    function is the documented behaviour of the method it is named after. *)

From Stdlib Require Import ZArith Lia Ascii String.
From stdpp Require Import base decidable option list strings.
From S2P Require Import Prelude.
Local Open Scope Z_scope.

(** ** Bytes as characters *)

Definition code (c : ascii) : Z := Z.of_N (Ascii.N_of_ascii c).
Definition char_in (lo hi : Z) (c : ascii) : bool := (lo <=? code c) && (code c <=? hi).

(** [u8::is_ascii_digit], [is_ascii_alphabetic], [is_ascii_alphanumeric]. *)
Definition is_ascii_digit (c : ascii) : bool := char_in 48 57 c.
Definition is_ascii_alphabetic (c : ascii) : bool := char_in 65 90 c || char_in 97 122 c.
Definition is_ascii_alphanumeric (c : ascii) : bool := is_ascii_alphabetic c || is_ascii_digit c.

(** [String::push(b as char)] for a byte [b]: the scalar value [b], in UTF-8. *)
Definition byte_as_char (c : ascii) : string :=
  if code c <? 128 then String c EmptyString
  else String (Ascii.ascii_of_N (Z.to_N (192 + code c / 64)))
         (String (Ascii.ascii_of_N (Z.to_N (128 + code c mod 64))) EmptyString).

(** ** Scanning *)

(** [s.bytes().all(p)] and [s.bytes().any(p)]. *)
Fixpoint str_all (p : ascii → bool) (s : string) : bool :=
  match s with EmptyString => true | String c r => p c && str_all p r end.
Fixpoint str_any (p : ascii → bool) (s : string) : bool :=
  match s with EmptyString => false | String c r => p c || str_any p r end.

Definition is_char (c d : ascii) : bool := bool_decide (c = d).
Definition contains_char (c : ascii) (s : string) : bool := str_any (is_char c) s.

Definition starts_with_char (c : ascii) (s : string) : bool :=
  match s with String d _ => is_char c d | EmptyString => false end.
Fixpoint ends_with_char (c : ascii) (s : string) : bool :=
  match s with
  | EmptyString => false
  | String d EmptyString => is_char c d
  | String _ r => ends_with_char c r
  end.

(** [s.starts_with(p)] and [s.contains(p)] for a string pattern. *)
Fixpoint starts_with (p s : string) : bool :=
  match p, s with
  | EmptyString, _ => true
  | String c p, String d s => is_char c d && starts_with p s
  | _, _ => false
  end.
Fixpoint contains_str (p s : string) : bool :=
  starts_with p s || match s with EmptyString => false | String _ r => contains_str p r end.

(** [s.strip_prefix(p)]. *)
Fixpoint strip_prefix (p s : string) : option string :=
  match p, s with
  | EmptyString, _ => Some s
  | String c p, String d s => if is_char c d then strip_prefix p s else None
  | _, _ => None
  end.

(** [s.split(c)]: never empty; [n] separators give [n + 1] pieces. *)
Fixpoint split_char (c : ascii) (s : string) : list string :=
  match s with
  | EmptyString => [EmptyString]
  | String d r =>
      if is_char c d then EmptyString :: split_char c r
      else match split_char c r with
           | [] => [String d EmptyString]
           | piece :: rest => String d piece :: rest
           end
  end.

(** [s.split_once(c)] and [s.rsplit_once(c)]. *)
Fixpoint split_once (c : ascii) (s : string) : option (string * string) :=
  match s with
  | EmptyString => None
  | String d r =>
      if is_char c d then Some (EmptyString, r)
      else '(a, b) ← split_once c r; Some (String d a, b)
  end.
Fixpoint rsplit_once (c : ascii) (s : string) : option (string * string) :=
  match s with
  | EmptyString => None
  | String d r =>
      match rsplit_once c r with
      | Some (a, b) => Some (String d a, b)
      | None => if is_char c d then Some (EmptyString, r) else None
      end
  end.

(** [s.replace(c, d)] for characters. *)
Fixpoint replace_char (c d : ascii) (s : string) : string :=
  match s with
  | EmptyString => EmptyString
  | String e r => String (if is_char c e then d else e) (replace_char c d r)
  end.

(** ** Trimming

    [str::trim] removes the characters with the Unicode [White_Space] property,
    here as their UTF-8 encodings. *)
Definition white_space : list bytes :=
  [[Byte.x09]; [Byte.x0a]; [Byte.x0b]; [Byte.x0c]; [Byte.x0d]; [Byte.x20];
   [Byte.xc2; Byte.x85]; [Byte.xc2; Byte.xa0]; [Byte.xe1; Byte.x9a; Byte.x80];
   [Byte.xe2; Byte.x80; Byte.x80]; [Byte.xe2; Byte.x80; Byte.x81]; [Byte.xe2; Byte.x80; Byte.x82];
   [Byte.xe2; Byte.x80; Byte.x83]; [Byte.xe2; Byte.x80; Byte.x84]; [Byte.xe2; Byte.x80; Byte.x85];
   [Byte.xe2; Byte.x80; Byte.x86]; [Byte.xe2; Byte.x80; Byte.x87]; [Byte.xe2; Byte.x80; Byte.x88];
   [Byte.xe2; Byte.x80; Byte.x89]; [Byte.xe2; Byte.x80; Byte.x8a]; [Byte.xe2; Byte.x80; Byte.xa8];
   [Byte.xe2; Byte.x80; Byte.xa9]; [Byte.xe2; Byte.x80; Byte.xaf]; [Byte.xe2; Byte.x81; Byte.x9f];
   [Byte.xe3; Byte.x80; Byte.x80]].

Fixpoint strip_bytes (p bs : bytes) : option bytes :=
  match p, bs with
  | [], _ => Some bs
  | a :: p, b :: bs => if bool_decide (a = b) then strip_bytes p bs else None
  | _, _ => None
  end.

Fixpoint strip_any (ps : list bytes) (bs : bytes) : option bytes :=
  match ps with
  | [] => None
  | p :: ps => match strip_bytes p bs with Some r => Some r | None => strip_any ps bs end
  end.

(** Every pattern is non-empty, so the length bounds the rounds. *)
Fixpoint strip_while (fuel : nat) (ps : list bytes) (bs : bytes) : bytes :=
  match fuel with
  | O => bs
  | S fuel => match strip_any ps bs with Some r => strip_while fuel ps r | None => bs end
  end.

Definition trim_bytes (bs : bytes) : bytes :=
  let front := strip_while (length bs) white_space bs in
  reverse (strip_while (length front) (reverse <$> white_space) (reverse front)).
Definition trim (s : string) : string :=
  String.string_of_list_byte (trim_bytes (as_bytes s)).

(** [a.eq_ignore_ascii_case(b)]. *)
Definition eq_ignore_ascii_case (a b : string) : bool :=
  bool_decide (to_ascii_lowercase a = to_ascii_lowercase b).

(** ** Lemmas *)

Lemma is_char_true c d : is_char c d = true ↔ c = d.
Proof. unfold is_char. apply bool_decide_eq_true. Qed.
Lemma is_char_refl c : is_char c c = true.
Proof. by apply is_char_true. Qed.
Lemma is_char_false c d : is_char c d = false ↔ c ≠ d.
Proof. unfold is_char. apply bool_decide_eq_false. Qed.

(** [String.append] does not reduce by [simpl]; these equations do its steps. *)
Lemma str_app_cons x (a b : string) : (String x a +:+ b) = String x (a +:+ b).
Proof. done. Qed.
Lemma str_app_nil_l (b : string) : (EmptyString +:+ b) = b.
Proof. done. Qed.
#[export] Hint Rewrite str_app_cons str_app_nil_l : str.
Ltac str_simpl := autorewrite with str; simpl; autorewrite with str.

Lemma str_app_nil_r (s : string) : (s +:+ EmptyString) = s.
Proof. induction s as [|c s IH]; str_simpl; congruence. Qed.
Lemma str_app_assoc (a b c : string) : (a +:+ (b +:+ c)) = ((a +:+ b) +:+ c).
Proof. induction a as [|x a IH]; str_simpl; congruence. Qed.

Lemma as_bytes_app a b : as_bytes (a +:+ b) = as_bytes a ++ as_bytes b.
Proof.
  unfold String.list_byte_of_string in *.
  induction a as [|c a IH]; str_simpl; [done|]. by f_equal.
Qed.
Lemma str_len_app a b : str_len (a +:+ b) = str_len a + str_len b.
Proof. unfold str_len. rewrite as_bytes_app, length_app. lia. Qed.
Lemma str_len_nonneg s : 0 ≤ str_len s.
Proof. unfold str_len. lia. Qed.

Lemma str_all_app p a b : str_all p (a +:+ b) = str_all p a && str_all p b.
Proof. induction a as [|c a IH]; str_simpl; [done|]. by rewrite IH, andb_assoc. Qed.
Lemma str_all_impl (p q : ascii → bool) s :
  (∀ c, p c = true → q c = true) → str_all p s = true → str_all q s = true.
Proof.
  intros Hpq. induction s as [|c s IH]; simpl; [done|].
  rewrite !andb_true_iff. naive_solver.
Qed.
Lemma str_any_all p s : str_any p s = false ↔ str_all (λ c, negb (p c)) s = true.
Proof.
  induction s as [|c s IH]; simpl; [done|]. rewrite orb_false_iff, andb_true_iff, IH.
  by rewrite negb_true_iff.
Qed.

Lemma to_ascii_lowercase_app a b :
  to_ascii_lowercase (a +:+ b) = (to_ascii_lowercase a +:+ to_ascii_lowercase b).
Proof. induction a as [|c a IH]; str_simpl; congruence. Qed.
Lemma to_ascii_lowercase_len s : str_len (to_ascii_lowercase s) = str_len s.
Proof.
  unfold str_len, String.list_byte_of_string. rewrite !List.length_map.
  induction s as [|c s IH]; simpl; [done|]. lia.
Qed.

(** A separator that does not occur on the right splits there from the right. *)
Lemma rsplit_once_none c s : rsplit_once c s = None ↔ contains_char c s = false.
Proof.
  unfold contains_char. induction s as [|d s IH]; simpl; [done|].
  rewrite orb_false_iff, <- IH. destruct (rsplit_once c s) as [[]|]; [naive_solver|].
  destruct (is_char c d) eqn:E; [naive_solver|]. naive_solver.
Qed.
Lemma rsplit_once_app c a b :
  contains_char c b = false → rsplit_once c (a +:+ String c b) = Some (a, b).
Proof.
  intros Hb. induction a as [|d a IH]; str_simpl.
  - apply rsplit_once_none in Hb. rewrite Hb. by rewrite is_char_refl.
  - by rewrite IH.
Qed.

(** ** Trimming leaves printable text alone *)

Definition printable (c : ascii) : bool := char_in 33 126 c.

Lemma code_byte_of_ascii c : b2z (byte_of_ascii c) = code c.
Proof. destruct c as [[] [] [] [] [] [] [] []]; reflexivity. Qed.

Lemma str_all_bytes (P : Z → Prop) (p : ascii → bool) s :
  (∀ c, p c = true → P (code c)) → str_all p s = true → Forall (λ b, P (b2z b)) (as_bytes s).
Proof.
  intros Hp. unfold String.list_byte_of_string. induction s as [|c s IH]; simpl; [constructor|].
  intros [Hc Hs]%andb_true_iff. constructor; [|by apply IH]. rewrite code_byte_of_ascii. by apply Hp.
Qed.

(** No white-space sequence, read from either end, starts with a printable byte. *)
Definition not_printable_head (p : bytes) : Prop :=
  match p with a :: _ => b2z a < 33 ∨ 126 < b2z a | [] => False end.
#[local] Instance not_printable_head_dec p : Decision (not_printable_head p).
Proof. destruct p; simpl; apply _. Defined.

Lemma white_space_heads :
  Forall not_printable_head white_space ∧ Forall not_printable_head (reverse <$> white_space).
Proof. split; apply (bool_decide_unpack _); vm_compute; exact I. Qed.

Lemma strip_any_printable ps b bs :
  Forall not_printable_head ps → 33 ≤ b2z b ≤ 126 → strip_any ps (b :: bs) = None.
Proof.
  induction 1 as [|p ps Hp Hps IH]; intros Hb; simpl; [done|]. destruct p as [|a p]; [done|].
  simpl in Hp |- *. rewrite bool_decide_false by (intros ->; lia). by apply IH.
Qed.

Lemma strip_while_printable fuel ps bs :
  Forall not_printable_head ps → Forall (λ b, 33 ≤ b2z b ≤ 126) bs → strip_while fuel ps bs = bs.
Proof.
  intros Hps Hbs. destruct fuel as [|fuel]; [done|]. simpl.
  destruct bs as [|b bs].
  - assert (strip_any ps [] = None) as ->; [|done].
    clear Hbs. induction Hps as [|p ps Hp Hps IH]; simpl; [done|]. destruct p; [done|exact IH].
  - apply Forall_cons in Hbs as [Hb _]. by rewrite strip_any_printable.
Qed.

Lemma trim_printable s : str_all printable s = true → trim s = s.
Proof.
  intros Hs. unfold trim, trim_bytes. destruct white_space_heads as [H1 H2].
  assert (Forall (λ b, 33 ≤ b2z b ≤ 126) (as_bytes s)) as Hb.
  { eapply (str_all_bytes (λ z, 33 ≤ z ≤ 126)); [|exact Hs]. intros c.
    unfold printable, char_in. rewrite andb_true_iff, !Z.leb_le. done. }
  rewrite (strip_while_printable _ white_space) by done.
  rewrite strip_while_printable by (done || by rewrite Forall_reverse).
  rewrite reverse_involutive. apply String.string_of_list_byte_of_string.
Qed.
