(* ===== verification/RustText.v ===== *)
(** * Text and address parsing of the Rust standard library

    More [str] methods, the number parser, the lossy UTF-8 decoder and the address
    parser of [core::net], as the gateway's mail components use them.  Each
    function is the documented behaviour of the method it is named after. *)

From Stdlib Require Import ZArith Lia Ascii String.
From stdpp Require Import base decidable option sets list strings.
From S2P Require Import Prelude RustStr.
Local Open Scope Z_scope.

(** [s.trim_start_matches(c)] and [s.trim_end_matches(c)] for a character. *)
Fixpoint trim_start_matches (c : ascii) (s : string) : string :=
  match s with
  | String d r => if is_char c d then trim_start_matches c r else s
  | EmptyString => EmptyString
  end.
Fixpoint trim_end_matches (c : ascii) (s : string) : string :=
  match s with
  | EmptyString => EmptyString
  | String d r =>
      match trim_end_matches c r with
      | EmptyString => if is_char c d then EmptyString else String d EmptyString
      | r' => String d r'
      end
  end.

Definition ascii_upper (c : ascii) : ascii :=
  if char_in 97 122 c then Ascii.ascii_of_N (Z.to_N (code c - 32)) else c.
Fixpoint to_ascii_uppercase (s : string) : string :=
  match s with EmptyString => EmptyString | String c r => String (ascii_upper c) (to_ascii_uppercase r) end.

(** [s.find(p)] for a predicate on characters, as the text before the first match
    and the text from it on. *)
Fixpoint break_at (p : ascii → bool) (s : string) : string * string :=
  match s with
  | EmptyString => (EmptyString, EmptyString)
  | String c r => if p c then (EmptyString, s) else let '(a, b) := break_at p r in (String c a, b)
  end.

(** The white-space character at the head, dropped. *)
Definition strip_space (bs : bytes) : option bytes := strip_any white_space bs.

(** [s.split_whitespace()]: the non-empty pieces between white space. [word] is
    the piece read so far; one byte or more goes per round. *)
Fixpoint split_ws_loop (fuel : nat) (word bs : bytes) : list bytes :=
  match fuel with
  | O => []
  | S fuel =>
      match strip_space bs with
      | Some r => (match word with [] => [] | _ => [word] end) ++ split_ws_loop fuel [] r
      | None =>
          match bs with
          | [] => match word with [] => [] | _ => [word] end
          | b :: r => split_ws_loop fuel (word ++ [b]) r
          end
      end
  end.
Definition split_whitespace (s : string) : list string :=
  String.string_of_list_byte <$> split_ws_loop (S (length (as_bytes s))) [] (as_bytes s).

(** [s.chars().filter(|c| !c.is_whitespace()).collect()]. *)
Definition remove_whitespace (s : string) : string :=
  foldr String.append EmptyString (split_whitespace s).

(** [s.parse::<u8>()]: an optional plus sign, digits, no more than 255. *)
Definition digit_value (c : ascii) : option Z :=
  if is_ascii_digit c then Some (code c - 48) else None.
Fixpoint read_digits (acc : Z) (s : string) : option Z :=
  match s with
  | EmptyString => Some acc
  | String c r => d ← digit_value c; read_digits (acc * 10 + d) r
  end.
Definition parse_u8 (s : string) : option Z :=
  let digits := match s with String c r => if is_char "+" c then r else s | EmptyString => s end in
  match digits with
  | EmptyString => None
  | _ => n ← read_digits 0 digits; if n <=? 255 then Some n else None
  end.

(** [n.to_string()] of a [u64]: no more than twenty digits. *)
Fixpoint decimal_loop (fuel : nat) (n : Z) (acc : string) : string :=
  let acc := String (Ascii.ascii_of_N (Z.to_N (48 + n mod 10))) acc in
  match fuel with
  | O => acc
  | S fuel => if n <? 10 then acc else decimal_loop fuel (n / 10) acc
  end.
Definition u64_to_string (n : Z) : string := decimal_loop 19 n EmptyString.

(** [names.join(sep)]. *)
Fixpoint join (sep : string) (l : list string) : string :=
  match l with
  | [] => EmptyString
  | [s] => s
  | s :: l => s +:+ sep +:+ join sep l
  end.

(** [s.strip_suffix(c)] for a character, or [s] itself. *)
Fixpoint without_suffix (c : ascii) (s : string) : string :=
  match s with
  | EmptyString => EmptyString
  | String d EmptyString => if is_char c d then EmptyString else s
  | String d r => String d (without_suffix c r)
  end.
(** [s.lines()]: pieces that end with LF or CRLF; an empty last piece is none. *)
Fixpoint line_pieces (pieces : list string) : list string :=
  match pieces with
  | [] => []
  | [last] => if bool_decide (last = EmptyString) then [] else [last]
  | p :: rest => without_suffix "013" p :: line_pieces rest
  end.
Definition str_lines (s : string) : list string := line_pieces (split_char "010" s).

(** [String::from_utf8_lossy]: a maximal ill-formed part becomes U+FFFD.  [cont]
    reads the continuation bytes a lead byte asks for. *)
Definition replacement : bytes := [Byte.xef; Byte.xbf; Byte.xbd].
Definition lead (b : byte) : option (nat * (Z * Z)) :=
  if in_range 194 223 b then Some (1%nat, (128, 191))
  else if in_range 224 224 b then Some (2%nat, (160, 191))
  else if in_range 237 237 b then Some (2%nat, (128, 159))
  else if in_range 225 239 b then Some (2%nat, (128, 191))
  else if in_range 240 240 b then Some (3%nat, (144, 191))
  else if in_range 241 243 b then Some (3%nat, (128, 191))
  else if in_range 244 244 b then Some (3%nat, (128, 143))
  else None.
Fixpoint cont (n : nat) (rng : Z * Z) (bs : bytes) : bool * bytes * bytes :=
  match n with
  | O => (true, [], bs)
  | S n =>
      match bs with
      | b :: r =>
          if in_range rng.1 rng.2 b then let '(ok, got, r) := cont n (128, 191) r in (ok, b :: got, r)
          else (false, [], bs)
      | [] => (false, [], [])
      end
  end.
Fixpoint lossy_loop (fuel : nat) (bs : bytes) : bytes :=
  match fuel with
  | O => []
  | S fuel =>
      match bs with
      | [] => []
      | b :: r =>
          if in_range 0 127 b then b :: lossy_loop fuel r
          else match lead b with
               | None => replacement ++ lossy_loop fuel r
               | Some (n, rng) =>
                   let '(ok, got, r) := cont n rng r in
                   (if (ok : bool) then b :: got else replacement) ++ lossy_loop fuel r
               end
      end
  end.
Definition from_utf8_lossy (bs : bytes) : string :=
  String.string_of_list_byte (lossy_loop (length bs) bs).

(** ** [core::net]: addresses in text *)

Inductive IpAddr := V4 (a : Z) | V6 (a : Z).
#[global] Instance IpAddr_eq_dec : EqDecision IpAddr.
Proof. solve_decision. Defined.

Definition hex_value (c : ascii) : option Z :=
  if is_ascii_digit c then Some (code c - 48)
  else if char_in 97 102 c then Some (code c - 87)
  else if char_in 65 70 c then Some (code c - 55)
  else None.

(** [Parser::read_number]: up to [max] digits; the flag allows a leading zero;
    [limit] is the largest value of the result's type. *)
Fixpoint number_digits (value : ascii → option Z) (radix : Z) (max : nat) (acc : Z) (count : nat) (s : string)
    : option (Z * nat * string) :=
  match s with
  | String c r =>
      match value c with
      | Some d =>
          match max with
          | O => None
          | S max => number_digits value radix max (acc * radix + d) (S count) r
          end
      | None => Some (acc, count, s)
      end
  | EmptyString => Some (acc, count, s)
  end.
Definition read_number (value : ascii → option Z) (radix : Z) (max : nat) (zero_prefix : bool) (limit : Z)
    (s : string) : option (Z * string) :=
  '(n, count, rest) ← number_digits value radix max 0 0 s;
  if (count =? 0)%nat then None
  else if negb zero_prefix && starts_with_char "0" s && (1 <? count)%nat then None
  else if limit <? n then None
  else Some (n, rest).

(** [Parser::read_separator]: the separator before every part but the first. *)
Definition read_separator {A} (sep : ascii) (index : nat) (read : string → option (A * string)) (s : string)
    : option (A * string) :=
  match index, s with
  | O, _ => read s
  | S _, String c r => if is_char sep c then read r else None
  | S _, EmptyString => None
  end.

Definition read_octet : string → option (Z * string) := read_number digit_value 10 3 false 255.
Definition read_ipv4_addr (s : string) : option (Z * string) :=
  '(a, s) ← read_separator "." 0 read_octet s;
  '(b, s) ← read_separator "." 1 read_octet s;
  '(c, s) ← read_separator "." 2 read_octet s;
  '(d, s) ← read_separator "." 3 read_octet s;
  Some (((a * 256 + b) * 256 + c) * 256 + d, s).

(** [read_groups]: groups of an IPv6 address from index [i] on, [room] of them at
    most, with an IPv4 address as the last two; whether there was one. *)
Fixpoint read_groups (room i : nat) (s : string) : list Z * bool * string :=
  match room with
  | O => ([], false, s)
  | S room' =>
      match (if (0 <? room')%nat then read_separator ":" i read_ipv4_addr s else None) with
      | Some (v4, s) => ([v4 / 65536; v4 mod 65536], true, s)
      | None =>
          match read_separator ":" i (read_number hex_value 16 4 true 65535) s with
          | Some (g, s) => let '(gs, v4, s) := read_groups room' (S i) s in (g :: gs, v4, s)
          | None => ([], false, s)
          end
      end
  end.

Definition of_groups (gs : list Z) : Z := foldl (λ acc g, acc * 65536 + g) 0 gs.

Definition read_ipv6_addr (s : string) : option (Z * string) :=
  let '(head, head_v4, s) := read_groups 8 0 s in
  if (length head =? 8)%nat then Some (of_groups head, s)
  else if head_v4 then None
  else
    s ← strip_prefix "::" s;
    let '(tail, _, s) := read_groups (8 - (length head + 1)) 0 s in
    Some (of_groups (head ++ replicate (8 - length head - length tail) 0 ++ tail), s).

(** [parse_with]: the whole text is read. *)
Definition parse_with {A} (read : string → option (A * string)) (s : string) : option A :=
  '(a, rest) ← read s;
  match rest with EmptyString => Some a | _ => None end.

Definition parse_ipv4 (s : string) : option Z :=
  if 15 <? str_len s then None else parse_with read_ipv4_addr s.
Definition parse_ipv6 (s : string) : option Z := parse_with read_ipv6_addr s.
Definition parse_ip (s : string) : option IpAddr :=
  parse_with (λ s, match read_ipv4_addr s with
                   | Some (a, r) => Some (V4 a, r)
                   | None => '(a, r) ← read_ipv6_addr s; Some (V6 a, r)
                   end) s.

(** Samples of the documented behaviour. *)
Example parse_ip_samples :
  parse_ip "10.0.0.1" = Some (V4 167772161) ∧ parse_ip "10.0.0.01" = None ∧
  parse_ip "1.2.3.4.5" = None ∧ parse_ip "::1" = Some (V6 1) ∧ parse_ip "::" = Some (V6 0) ∧
  parse_ip "1:2:3:4:5:6:7:8" = Some (V6 5192455318486707404433266433261576) ∧
  parse_ip "::ffff:1.2.3.4" = Some (V6 281470698652420) ∧ parse_ip "1::2::3" = None ∧
  parse_ip "1:2:3:4:5:6:7::" = Some (V6 5192455318486707404433266433261568) ∧
  parse_ip "2001:db8::12345" = None ∧ parse_ip ":1" = None.
Proof. vm_compute. done. Qed.
Example text_samples :
  split_whitespace " v=spf1  a  -all " = ["v=spf1"; "a"; "-all"]%string ∧
  remove_whitespace "a b	c" = "abc"%string ∧ parse_u8 "+07" = Some 7 ∧ parse_u8 "256" = None ∧
  parse_u8 "" = None ∧ u64_to_string 0 = "0"%string ∧
  u64_to_string 18446744073709551615 = "18446744073709551615"%string ∧ trim_end_matches "." "a.b.." = "a.b"%string ∧
  from_utf8_lossy [Byte.x41; Byte.xe2; Byte.x28; Byte.xa1] =
    String.string_of_list_byte ([Byte.x41] ++ replacement ++ [Byte.x28] ++ replacement).
Proof. vm_compute. done. Qed.

(** ** Lemmas *)

Lemma break_at_app p s : (break_at p s).1 +:+ (break_at p s).2 = s.
Proof.
  induction s as [|c s IH]; simpl; [done|]. destruct (p c); [done|].
  destruct (break_at p s) as [a b]. simpl in *. rewrite str_app_cons. congruence.
Qed.

Lemma contains_app c a b : contains_char c (a +:+ b) = contains_char c a || contains_char c b.
Proof. unfold contains_char. induction a as [|d a IH]; [done|]. rewrite str_app_cons. cbn. by rewrite IH, orb_assoc. Qed.
(** A separator that does not occur on the left splits there; joined pieces
    without the separator split into themselves. *)
Lemma split_char_none c s : contains_char c s = false → split_char c s = [s].
Proof.
  unfold contains_char. induction s as [|d s IH]; simpl; [done|].
  intros [-> Hs]%orb_false_iff. by rewrite IH.
Qed.
Lemma split_char_app c a b :
  contains_char c a = false → split_char c (a +:+ String c b) = a :: split_char c b.
Proof.
  unfold contains_char. induction a as [|d a IH]; str_simpl.
  - intros _. by rewrite is_char_refl.
  - intros [-> Ha]%orb_false_iff. by rewrite IH.
Qed.
Lemma split_join c l :
  l ≠ [] → Forall (λ s, contains_char c s = false) l → split_char c (join (String c EmptyString) l) = l.
Proof.
  intros Hl HF. induction HF as [|s l Hs HF IH]; [done|]. destruct l as [|s' l].
  - simpl. by apply split_char_none.
  - change (join (String c EmptyString) (s :: s' :: l))
      with (s +:+ (String c EmptyString +:+ join (String c EmptyString) (s' :: l))).
    rewrite str_app_cons, str_app_nil_l, split_char_app by done. by rewrite IH.
Qed.
Lemma split_once_app c a b :
  contains_char c a = false → split_once c (a +:+ String c b) = Some (a, b).
Proof.
  unfold contains_char. induction a as [|d a IH]; str_simpl.
  - intros _. by rewrite is_char_refl.
  - intros [-> Ha]%orb_false_iff. by rewrite IH.
Qed.

(** ** White space and printable text *)

Lemma printable_byte c : printable c = true → 33 ≤ b2z (byte_of_ascii c) ≤ 126.
Proof. rewrite code_byte_of_ascii. unfold printable, char_in. rewrite andb_true_iff, !Z.leb_le. done. Qed.
Lemma printable_bytes s : str_all printable s = true → Forall (λ b, 33 ≤ b2z b ≤ 126) (as_bytes s).
Proof.
  apply (str_all_bytes (λ z, 33 ≤ z ≤ 126)). intros c H%printable_byte. by rewrite <- code_byte_of_ascii.
Qed.
Lemma as_bytes_cons c s : as_bytes (String c s) = byte_of_ascii c :: as_bytes s.
Proof. done. Qed.

(** One leading space goes. *)
Lemma trim_space s : str_all printable s = true → trim (String " " s) = s.
Proof.
  intros Hs. assert (trim (String " " s) = trim s) as ->; [|by apply trim_printable].
  reflexivity.
Qed.

Lemma strip_space_printable b bs : 33 ≤ b2z b ≤ 126 → strip_space (b :: bs) = None.
Proof. apply strip_any_printable, white_space_heads. Qed.

Lemma split_ws_printable bs word fuel :
  Forall (λ b, 33 ≤ b2z b ≤ 126) bs → (length bs < fuel)%nat → word ++ bs ≠ [] →
  split_ws_loop fuel word bs = [word ++ bs].
Proof.
  intros HF. revert word fuel. induction HF as [|b bs Hb HF IH]; intros word fuel Hf Hne.
  - destruct fuel as [|fuel]; [simpl in Hf; lia|]. rewrite app_nil_r in *. simpl. by destruct word.
  - destruct fuel as [|fuel]; [simpl in Hf; lia|]. cbn [split_ws_loop].
    rewrite strip_space_printable by done.
    rewrite IH; [by rewrite <- app_assoc|simpl in Hf; lia|by destruct word].
Qed.
Lemma remove_whitespace_printable s : str_all printable s = true → remove_whitespace s = s.
Proof.
  intros Hs%printable_bytes. unfold remove_whitespace, split_whitespace.
  destruct (as_bytes s) as [|b bs] eqn:E.
  - destruct s; [done|discriminate E].
  - rewrite split_ws_printable; [|done|simpl; lia|done]. rewrite app_nil_l, <- E. simpl.
    rewrite String.string_of_list_byte_of_string. apply str_app_nil_r.
Qed.

(** Decoding of ASCII text. *)
Definition is_ascii (c : ascii) : bool := code c <? 128.
(** Well-formed UTF-8, which decoding keeps. *)
Inductive well_formed : bytes → Prop :=
| wf_nil : well_formed []
| wf_ascii b r : in_range 0 127 b = true → well_formed r → well_formed (b :: r)
| wf_chunk b n rng got r :
    in_range 0 127 b = false → lead b = Some (n, rng) → cont n rng got = (true, got, []) → well_formed r → well_formed (b :: got ++ r).
Lemma cont_app n rng got r : cont n rng got = (true, got, []) → cont n rng (got ++ r) = (true, got, r).
Proof.
  revert rng got. induction n as [|n IH]; intros rng got H; cbn [cont] in *; [by injection H as <-|].
  destruct got as [|b got]; [done|]. cbn [app]. destruct (in_range rng.1 rng.2 b); [|done].
  destruct (cont n (128, 191) got) as [[ok got'] r'] eqn:E. injection H as -> -> ->. by rewrite (IH _ _ E).
Qed.
Lemma cont_split n rng bs got r : cont n rng bs = (true, got, r) → cont n rng got = (true, got, []).
Proof.
  revert rng bs got. induction n as [|n IH]; intros rng bs got H; cbn [cont] in *; [by injection H as <- _|].
  destruct bs as [|b bs]; [done|]. destruct (in_range rng.1 rng.2 b) eqn:Eb; [|done].
  destruct (cont n (128, 191) bs) as [[ok got'] r'] eqn:E. injection H as -> <- ->. rewrite Eb. by rewrite (IH _ _ _ E).
Qed.
Lemma lossy_well_formed fuel bs : well_formed (lossy_loop fuel bs).
Proof.
  revert bs. induction fuel as [|fuel IH]; intros [|b r]; cbn [lossy_loop]; try constructor.
  destruct (in_range 0 127 b) eqn:Eb; [by constructor|].
  assert (∀ r, well_formed (replacement ++ lossy_loop fuel r)) as Hrep.
  { intros r'. by apply (wf_chunk Byte.xef 2 (128, 191) [Byte.xbf; Byte.xbd]). }
  destruct (lead b) as [[n rng]|] eqn:El; [|apply Hrep].
  destruct (cont n rng r) as [[[] got] r'] eqn:Ec; [|apply Hrep]. eapply wf_chunk; try done. by eapply cont_split.
Qed.
Lemma lossy_id bs fuel : well_formed bs → (length bs ≤ fuel)%nat → lossy_loop fuel bs = bs.
Proof.
  intros H. revert fuel. induction H as [|b r Hb Hr IH|b n rng got r Hb Hl Hc Hr IH]; intros [|fuel] Hf; cbn [length] in Hf; try lia; try done;
    cbn [lossy_loop]; rewrite Hb.
  - by rewrite IH by lia.
  - rewrite Hl, (cont_app _ _ _ r Hc). cbn [app]. by rewrite IH by (rewrite length_app in Hf; lia).
Qed.
Lemma from_utf8_lossy_idem bs : from_utf8_lossy (as_bytes (from_utf8_lossy bs)) = from_utf8_lossy bs.
Proof.
  unfold from_utf8_lossy at 1 2. rewrite String.list_byte_of_string_of_list_byte. unfold from_utf8_lossy. f_equal.
  apply lossy_id; [apply lossy_well_formed|done].
Qed.
Lemma lossy_ascii bs fuel :
  Forall (λ b, b2z b < 128) bs → (length bs ≤ fuel)%nat → lossy_loop fuel bs = bs.
Proof.
  intros HF. revert fuel. induction HF as [|b bs Hb HF IH]; intros fuel Hf.
  - by destruct fuel.
  - destruct fuel as [|fuel]; [simpl in Hf; lia|]. cbn [lossy_loop].
    assert (in_range 0 127 b = true) as ->.
    { unfold in_range. pose proof (b2z_range b). apply andb_true_iff. rewrite !Z.leb_le. lia. }
    rewrite IH; [done|simpl in Hf; lia].
Qed.
Lemma from_utf8_lossy_ascii s : str_all is_ascii s = true → from_utf8_lossy (as_bytes s) = s.
Proof.
  intros Hs. unfold from_utf8_lossy. rewrite lossy_ascii; [apply String.string_of_list_byte_of_string| |lia].
  apply (str_all_bytes (λ z, z < 128) is_ascii); [|done]. intros c. apply Z.ltb_lt.
Qed.

(** ** Trimming and case

    Lower-casing changes letters only, and white space and dots are none. *)

Definition byte_lower (b : byte) : byte := byte_of_ascii (ascii_lower (ascii_of_byte b)).
Lemma as_bytes_lower s : as_bytes (to_ascii_lowercase s) = byte_lower <$> as_bytes s.
Proof.
  induction s as [|c s IH]; [done|]. cbn [to_ascii_lowercase]. rewrite !as_bytes_cons, fmap_cons, IH.
  f_equal. unfold byte_lower. by rewrite ascii_of_byte_of_ascii.
Qed.

Definition caseless (a : byte) : Prop := ∀ b, byte_lower b = a ↔ b = a.
Lemma caseless_spec a : byte_lower a = a ∧ ¬ (97 ≤ b2z a ≤ 122) → caseless a.
Proof.
  intros [Ha Hl] b. split; [|by intros ->]. intros E. subst a.
  assert (byte_lower b = b ∨ 97 ≤ b2z (byte_lower b) ≤ 122) as [H|H].
  { clear. by destruct b; vm_compute; (left; reflexivity) || (right; split; discriminate). }
  - by rewrite H.
  - by destruct Hl.
Qed.
Lemma white_space_caseless : Forall (Forall caseless) white_space ∧ Forall (Forall caseless) (reverse <$> white_space).
Proof.
  assert (Forall (Forall (λ a, byte_lower a = a ∧ ¬ (97 ≤ b2z a ≤ 122))) white_space ∧
          Forall (Forall (λ a, byte_lower a = a ∧ ¬ (97 ≤ b2z a ≤ 122))) (reverse <$> white_space)) as [H1 H2].
  { split; apply (bool_decide_unpack _); vm_compute; exact I. }
  split; [eapply Forall_impl; [exact H1|]|eapply Forall_impl; [exact H2|]];
    intros p Hp; (eapply Forall_impl; [exact Hp|exact caseless_spec]).
Qed.

Lemma strip_bytes_lower p (bs : bytes) : Forall caseless p → strip_bytes p (byte_lower <$> bs) = (fmap (M := list) byte_lower) <$> strip_bytes p bs.
Proof.
  intros HF. revert bs. induction HF as [|a p Ha HF IH]; intros [|b bs]; [done..|]. cbn [strip_bytes fmap list_fmap].
  destruct (decide (b = a)) as [->|Hne].
  - rewrite !bool_decide_true; [apply IH|done|by symmetry; apply Ha].
  - rewrite !bool_decide_false; [done|done|]. intros E. apply Hne. by apply Ha.
Qed.
Lemma strip_any_lower ps (bs : bytes) :
  Forall (Forall caseless) ps → strip_any ps (byte_lower <$> bs) = (fmap (M := list) byte_lower) <$> strip_any ps bs.
Proof.
  induction 1 as [|p ps Hp HF IH]; [done|]. cbn [strip_any]. rewrite strip_bytes_lower by done.
  by destruct (strip_bytes p bs).
Qed.
Lemma strip_while_lower fuel ps (bs : bytes) :
  Forall (Forall caseless) ps → strip_while fuel ps (byte_lower <$> bs) = byte_lower <$> strip_while fuel ps bs.
Proof.
  intros HF. revert bs. induction fuel as [|fuel IH]; intros bs; [done|]. cbn [strip_while].
  rewrite strip_any_lower by done. destruct (strip_any ps bs); cbn [fmap option_fmap option_map]; [apply IH|done].
Qed.

Lemma trim_lower s : trim (to_ascii_lowercase s) = to_ascii_lowercase (trim s).
Proof.
  destruct white_space_caseless as [H1 H2].
  assert (as_bytes (trim (to_ascii_lowercase s)) = as_bytes (to_ascii_lowercase (trim s))) as E.
  { rewrite as_bytes_lower. unfold trim. rewrite !String.list_byte_of_string_of_list_byte, as_bytes_lower. unfold trim_bytes.
    rewrite !length_fmap, strip_while_lower by done. rewrite !length_fmap, <- fmap_reverse, strip_while_lower by done.
    by rewrite <- fmap_reverse. }
  rewrite <- (String.string_of_list_byte_of_string (trim _)), E. apply String.string_of_list_byte_of_string.
Qed.
Lemma trim_end_dots_lower s : trim_end_matches "." (to_ascii_lowercase s) = to_ascii_lowercase (trim_end_matches "." s).
Proof.
  induction s as [|c s IH]; [done|]. cbn [to_ascii_lowercase trim_end_matches]. rewrite IH.
  assert (is_char "." (ascii_lower c) = is_char "." c) as Hc by (by destruct c as [[] [] [] [] [] [] [] []]).
  destruct (trim_end_matches "." s); cbn [to_ascii_lowercase]; [|done]. rewrite Hc. by destruct (is_char "." c).
Qed.

(** ** Trimming twice *)

Lemma strip_bytes_Some p bs r : strip_bytes p bs = Some r ↔ bs = p ++ r.
Proof.
  revert bs. induction p as [|a p IH]; intros [|b bs]; simpl; try naive_solver.
  case_bool_decide; [rewrite IH; naive_solver|naive_solver].
Qed.
Lemma strip_any_Some ps bs r : strip_any ps bs = Some r → ∃ p, p ∈ ps ∧ bs = p ++ r.
Proof.
  induction ps as [|p ps IH]; simpl; [done|]. destruct (strip_bytes p bs) eqn:E.
  - intros [= ->]. apply strip_bytes_Some in E. exists p. set_solver.
  - intros (q & ? & ?)%IH. exists q. set_solver.
Qed.
Lemma strip_any_None ps bs : strip_any ps bs = None ↔ ∀ p r, p ∈ ps → bs ≠ p ++ r.
Proof.
  induction ps as [|p ps IH]; simpl; [set_solver|]. destruct (strip_bytes p bs) as [r|] eqn:E.
  - apply strip_bytes_Some in E. split; [done|]. intros H. destruct (H p r); set_solver.
  - rewrite IH. split; [|set_solver]. intros H q r [->|Hq]%elem_of_cons; [|by apply H].
    rewrite <- strip_bytes_Some. by rewrite E.
Qed.
(** With enough rounds nothing is left to strip. *)
Lemma strip_while_done fuel ps bs :
  Forall (λ p, p ≠ []) ps → (length bs ≤ fuel)%nat → strip_any ps (strip_while fuel ps bs) = None.
Proof.
  intros Hps. revert bs. induction fuel as [|fuel IH]; intros bs Hl; simpl.
  - destruct bs; [|simpl in Hl; lia]. apply strip_any_None. intros p r Hp. apply (proj1 (Forall_forall _ _) Hps) in Hp. by destruct p.
  - destruct (strip_any ps bs) as [r|] eqn:E; [|done]. apply IH. apply strip_any_Some in E as (p & Hp & ->).
    apply (proj1 (Forall_forall _ _) Hps) in Hp. rewrite length_app in Hl. destruct p; [done|]. simpl in Hl. lia.
Qed.
Lemma strip_while_suffix fuel ps bs : ∃ p, bs = p ++ strip_while fuel ps bs.
Proof.
  revert bs. induction fuel as [|fuel IH]; intros bs; simpl; [by exists []|].
  destruct (strip_any ps bs) as [r|] eqn:E; [|by exists []]. apply strip_any_Some in E as (p & _ & ->).
  destruct (IH r) as [q Hq]. exists (p ++ q). by rewrite <- app_assoc, <- Hq.
Qed.
Lemma strip_while_stable fuel ps bs : strip_any ps bs = None → strip_while fuel ps bs = bs.
Proof. intros H. destruct fuel; simpl; [done|by rewrite H]. Qed.
Lemma trim_bytes_idem bs : trim_bytes (trim_bytes bs) = trim_bytes bs.
Proof.
  assert (Forall (λ p, p ≠ []) white_space ∧ Forall (λ p, p ≠ []) (reverse <$> white_space)) as [H1 H2]
    by (split; apply (bool_decide_unpack _); vm_compute; exact I).
  unfold trim_bytes at 2 3. set (front := strip_while (length bs) white_space bs).
  assert (strip_any white_space front = None) as Hf by by apply strip_while_done.
  set (back := strip_while (length front) (reverse <$> white_space) (reverse front)).
  assert (strip_any (reverse <$> white_space) back = None) as Hb by (apply strip_while_done; [done|by rewrite length_reverse]).
  assert (strip_any white_space (reverse back) = None) as Hr.
  { apply strip_any_None. intros p r Hp E. destruct (strip_while_suffix (length front) (reverse <$> white_space) (reverse front)) as [q Hq].
    fold back in Hq. assert (front = reverse back ++ reverse q) as Hfr by (rewrite <- (reverse_involutive front), Hq; by rewrite reverse_app).
    rewrite E, <- app_assoc in Hfr. by eapply (proj1 (strip_any_None _ _) Hf). }
  unfold trim_bytes. rewrite (strip_while_stable _ white_space) by done. rewrite reverse_involutive.
  by rewrite strip_while_stable.
Qed.
Lemma trim_idem s : trim (trim s) = trim s.
Proof. unfold trim. by rewrite String.list_byte_of_string_of_list_byte, trim_bytes_idem. Qed.

(** ** Lines and fields *)

Lemma without_suffix_none c s : contains_char c s = false → without_suffix c s = s.
Proof.
  unfold contains_char. induction s as [|d s IH]; [done|]. cbn [str_any]. intros [Hd Hs]%orb_false_iff.
  cbn [without_suffix]. destruct s; [by rewrite Hd|]. by rewrite IH.
Qed.
(** Lines without line breaks, each ended by LF. *)
Lemma str_lines_concat lines :
  Forall (λ l, contains_char "010" l = false ∧ contains_char "013" l = false) lines →
  str_lines (foldr (λ l r, l +:+ String "010" r) EmptyString lines) = lines.
Proof.
  unfold str_lines. induction 1 as [|l lines [Hlf Hcr] HF IH]; [done|]. cbn [foldr].
  rewrite split_char_app by done. cbn [line_pieces]. rewrite without_suffix_none by done.
  destruct (split_char "010" _) as [|p ps] eqn:E; [|by rewrite IH].
  exfalso. clear -E. destruct (foldr _ _ _) as [|d s]; simpl in E; [done|]. destruct (is_char _ _); [done|].
  by destruct (split_char "010" s).
Qed.

Lemma split_ws_word bs word r fuel :
  Forall (λ b, 33 ≤ b2z b ≤ 126) bs → word ++ bs ≠ [] →
  split_ws_loop (length bs + S fuel) word (bs ++ Byte.x20 :: r) = (word ++ bs) :: split_ws_loop fuel [] r.
Proof.
  intros HF. revert word. induction HF as [|b bs Hb HF IH]; intros word Hne.
  - rewrite app_nil_r in *. cbn [length Nat.add app split_ws_loop].
    change (strip_space (Byte.x20 :: r)) with (Some r). by destruct word.
  - cbn [length Nat.add app split_ws_loop]. rewrite strip_space_printable by done.
    rewrite IH by (by destruct word). by rewrite <- app_assoc.
Qed.
Definition word_ok (s : string) : Prop := str_all printable s = true ∧ s ≠ EmptyString.
Lemma word_bytes s : word_ok s → Forall (λ b, 33 ≤ b2z b ≤ 126) (as_bytes s) ∧ as_bytes s ≠ [].
Proof. intros [H1 H2]. split; [by apply printable_bytes|]. by destruct s. Qed.
Lemma split_whitespace_three a b c :
  word_ok a → word_ok b → word_ok c →
  split_whitespace (a +:+ String " " (b +:+ String " " c)) = [a; b; c].
Proof.
  intros [Ha Ha']%word_bytes [Hb Hb']%word_bytes [Hc Hc']%word_bytes. unfold split_whitespace.
  rewrite as_bytes_app, as_bytes_cons, as_bytes_app, as_bytes_cons.
  change (byte_of_ascii " ") with Byte.x20. rewrite !length_app. cbn [length]. rewrite length_app. cbn [length].
  replace (S (length (as_bytes a) + S (length (as_bytes b) + S (length (as_bytes c)))))
    with (length (as_bytes a) + S (length (as_bytes b) + S (S (length (as_bytes c)))))%nat by lia.
  rewrite split_ws_word by done. rewrite split_ws_word by done.
  rewrite split_ws_printable by (done || lia). rewrite !app_nil_l. rewrite !fmap_cons, fmap_nil.
  by rewrite !String.string_of_list_byte_of_string.
Qed.

(** Trimming looks at the ends only. *)
Lemma strip_while_head fuel ps b bs :
  Forall not_printable_head ps → 33 ≤ b2z b ≤ 126 → strip_while fuel ps (b :: bs) = b :: bs.
Proof. intros Hps Hb. destruct fuel; [done|]. cbn [strip_while]. by rewrite strip_any_printable. Qed.
Lemma trim_ends a m b : word_ok a → word_ok b → trim (a +:+ (m +:+ b)) = (a +:+ (m +:+ b)).
Proof.
  intros [Ha Ha']%word_bytes [Hb Hb']%word_bytes. destruct white_space_heads as [H1 H2].
  unfold trim, trim_bytes. set (w := as_bytes (a +:+ (m +:+ b))).
  assert (strip_while (length w) white_space w = w) as ->.
  { unfold w. rewrite as_bytes_app. destruct (as_bytes a) as [|x xs]; [done|].
    apply Forall_cons in Ha as [Hx _]. by apply strip_while_head. }
  assert (strip_while (length w) (reverse <$> white_space) (reverse w) = reverse w) as ->.
  { assert (∃ y ys, reverse w = y :: ys ∧ 33 ≤ b2z y ≤ 126) as (y & ys & -> & Hy); [|by apply strip_while_head].
    unfold w. rewrite !as_bytes_app, !reverse_app.
    destruct (reverse (as_bytes b)) as [|y ys] eqn:E; [by apply (f_equal reverse) in E; rewrite reverse_involutive in E|].
    exists y. eexists. split; [reflexivity|]. apply Forall_reverse in Hb. rewrite E in Hb. by apply Forall_cons in Hb as [? _]. }
  rewrite reverse_involutive. unfold w. apply String.string_of_list_byte_of_string.
Qed.

(** Trimming a character. *)
Lemma trim_start_none c s : contains_char c s = false → trim_start_matches c s = s.
Proof. destruct s as [|x s]; [done|]. unfold contains_char. cbn. by destruct (is_char c x). Qed.
Lemma trim_end_none c s : contains_char c s = false → trim_end_matches c s = s.
Proof.
  unfold contains_char. induction s as [|x s IH]; [done|]. cbn. intros [Hx Hs]%orb_false_iff. rewrite IH by done.
  destruct s; [by rewrite Hx|done].
Qed.
Lemma trim_end_app c s : trim_end_matches c (s +:+ String c EmptyString) = trim_end_matches c s.
Proof.
  induction s as [|x s IH]; [rewrite str_app_nil_l|rewrite str_app_cons]; cbn [trim_end_matches]; [by rewrite is_char_refl|].
  by rewrite IH.
Qed.

(** What a split gives back. *)
Lemma split_once_eq c s a b : split_once c s = Some (a, b) → s = a +:+ String c b.
Proof.
  revert a. induction s as [|d s IH]; intros a; [done|]. cbn. destruct (is_char c d) eqn:E.
  - intros [= <- <-]. apply is_char_true in E as ->. done.
  - destruct (split_once c s) as [[x y]|]; [|done]. intros [= <- <-]. by rewrite (IH x eq_refl).
Qed.
Lemma rsplit_once_eq c s a b : rsplit_once c s = Some (a, b) → s = a +:+ String c b.
Proof.
  revert a. induction s as [|d s IH]; intros a; [done|]. cbn. destruct (rsplit_once c s) as [[x y]|].
  - intros [= <- <-]. by rewrite (IH x eq_refl).
  - destruct (is_char c d) eqn:E; [|done]. intros [= <- <-]. apply is_char_true in E as ->. done.
Qed.
