(* ===== verification/Sni.v ===== *)
(** * Peeking the SNI of a TLS ClientHello

    [crates/reachability-adapter/src/sni.rs]: the bounds-checked cursor, the
    ClientHello parser, and the loop that reads a stream until the first record
    can be parsed.  A stream is the list of what its reads return; each source
    read fills at most 1024 bytes.  The two [while] loops carry fuel, one more
    than the bytes left: [extensions_loop_fuel] and [names_loop_fuel] show
    it never runs out. *)

From Stdlib Require Import ZArith Lia.
From stdpp Require Import base decidable option list strings.
From S2P Require Import Prelude.

Module Sni.
Definition MAX_CLIENT_HELLO_BYTES : nat := 16 * 1024.
Definition CONTENT_TYPE_HANDSHAKE : Z := 22.
Definition HANDSHAKE_TYPE_CLIENT_HELLO : Z := 1.
Definition EXTENSION_SERVER_NAME : Z := 0.
Definition NAME_TYPE_HOST_NAME : Z := 0.

Inductive SniError :=
| NotHandshake
| Malformed (reason : string)
| NoSni
| EmptySni
| TooLarge
| UnexpectedEof
| Io (error : string).

Record ClientHelloPeek := { server_name : string; raw : bytes }.

(** ** The cursor *)

Record Cursor := { cbuf : bytes; pos : nat }.
Definition Cursor_new (buf : bytes) : Cursor := {| cbuf := buf; pos := 0 |}.
Definition remaining (c : Cursor) : nat := length (cbuf c) - pos c.

Definition take_n (n : nat) (c : Cursor) : result SniError (bytes * Cursor) :=
  if (remaining c <? n)%nat then Err (Malformed "truncated field")
  else Ok (take n (drop (pos c) (cbuf c)), {| cbuf := cbuf c; pos := pos c + n |}).

(** Indexing the slice [take] returned; its length is the one asked for. *)
Definition at_ (i : nat) (b : bytes) : byte := default Byte.x00 (b !! i).

Definition u8 (c : Cursor) : result SniError (Z * Cursor) :=
  '(b, c) ← take_n 1 c; Ok (b2z (at_ 0 b), c).
Definition u16 (c : Cursor) : result SniError (Z * Cursor) :=
  '(b, c) ← take_n 2 c; Ok (u16_from_be_bytes (at_ 0 b) (at_ 1 b), c).
Definition u24 (c : Cursor) : result SniError (Z * Cursor) :=
  '(b, c) ← take_n 3 c; Ok (u24_from_be_bytes (at_ 0 b) (at_ 1 b) (at_ 2 b), c).

(** ** The parser *)

Fixpoint names_loop (fuel : nat) (lc : Cursor) : result SniError string :=
  match fuel with
  | O => Err NoSni
  | S fuel =>
      if (remaining lc =? 0)%nat then Err NoSni
      else
        '(name_type, lc) ← u8 lc;
        '(name_len, lc) ← u16 lc;
        '(name, lc) ← take_n (Z.to_nat name_len) lc;
        if name_type =? NAME_TYPE_HOST_NAME then
          match name with
          | [] => Err EmptySni
          | _ => ok_or (Malformed "server_name is not valid UTF-8") (from_utf8 name)
          end
        else names_loop fuel lc
  end.

Definition parse_server_name_extension (data : bytes) : result SniError string :=
  let c := Cursor_new data in
  '(list_len, c) ← u16 c;
  '(list, c) ← take_n (Z.to_nat list_len) c;
  let lc := Cursor_new list in
  names_loop (S (remaining lc)) lc.

Fixpoint extensions_loop (fuel : nat) (ec : Cursor) : result SniError string :=
  match fuel with
  | O => Err NoSni
  | S fuel =>
      if (remaining ec =? 0)%nat then Err NoSni
      else
        '(ext_type, ec) ← u16 ec;
        '(ext_len, ec) ← u16 ec;
        '(ext_data, ec) ← take_n (Z.to_nat ext_len) ec;
        if ext_type =? EXTENSION_SERVER_NAME then parse_server_name_extension ext_data
        else extensions_loop fuel ec
  end.

Definition parse_client_hello_body (body : bytes) : result SniError string :=
  let c := Cursor_new body in
  '(_, c) ← take_n 2 c;
  '(_, c) ← take_n 32 c;
  '(session_id_len, c) ← u8 c;
  '(_, c) ← take_n (Z.to_nat session_id_len) c;
  '(cipher_suites_len, c) ← u16 c;
  '(_, c) ← take_n (Z.to_nat cipher_suites_len) c;
  '(compression_methods_len, c) ← u8 c;
  '(_, c) ← take_n (Z.to_nat compression_methods_len) c;
  if (remaining c =? 0)%nat then Err NoSni
  else
    '(extensions_len, c) ← u16 c;
    '(extensions, c) ← take_n (Z.to_nat extensions_len) c;
    let ec := Cursor_new extensions in
    extensions_loop (S (remaining ec)) ec.

Inductive Parsed := Incomplete | Complete (name : string).

Definition parse_record (record : bytes) : result SniError Parsed :=
  let c := Cursor_new record in
  '(hs_type, c) ← u8 c;
  if negb (hs_type =? HANDSHAKE_TYPE_CLIENT_HELLO) then
    Err (Malformed "first handshake message is not ClientHello")
  else
    '(hs_len, c) ← u24 c;
    '(body, c) ← map_err (λ _, Malformed "ClientHello spans multiple TLS records (unsupported)")
                   (take_n (Z.to_nat hs_len) c);
    name ← parse_client_hello_body body;
    Ok (Complete name).

Definition try_parse (buf : bytes) : result SniError Parsed :=
  match buf with
  | b0 :: _ :: _ :: b3 :: b4 :: rest =>
      if negb (b2z b0 =? CONTENT_TYPE_HANDSHAKE) then Err NotHandshake
      else
        let record_len := u16_from_be_bytes b3 b4 in
        if (record_len =? 0) || (16384 <? record_len) then
          Err (Malformed "record length out of range")
        else if (length rest <? Z.to_nat record_len)%nat then Ok Incomplete
        else parse_record (take (Z.to_nat record_len) rest)
  | _ => Ok Incomplete
  end.

(** ** Reading the stream *)

(** What one [stream.read(&mut chunk)] returns; no bytes means end of file. *)
Inductive Read := ReadBytes (b : bytes) | ReadError (error : string).

Fixpoint peek_loop (buf : bytes) (stream : list Read) : result SniError ClientHelloPeek * list Read :=
  match try_parse buf with
  | Err e => (Err e, stream)
  | Ok (Complete name) => (Ok {| server_name := name; raw := buf |}, stream)
  | Ok Incomplete =>
      if (MAX_CLIENT_HELLO_BYTES <=? length buf)%nat then (Err TooLarge, stream)
      else
        match stream with
        | [] => (Err UnexpectedEof, [])
        | ReadError e :: stream => (Err (Io e), stream)
        | ReadBytes [] :: stream => (Err UnexpectedEof, stream)
        | ReadBytes chunk :: stream => peek_loop (buf ++ chunk) stream
        end
  end.
Definition peek_client_hello (stream : list Read) : result SniError ClientHelloPeek * list Read :=
  peek_loop [] stream.

(** ** Cursor lemmas *)

(** The cursor that has read [pre] and has [rest] left. *)
Definition cursor_at (pre rest : bytes) : Cursor := {| cbuf := pre ++ rest; pos := length pre |}.

Lemma Cursor_new_at buf : Cursor_new buf = cursor_at [] buf.
Proof. done. Qed.
Lemma remaining_at pre rest : remaining (cursor_at pre rest) = length rest.
Proof. unfold remaining. simpl. rewrite length_app. lia. Qed.

Lemma take_n_at pre rest n :
  take_n n (cursor_at pre rest) =
  if (length rest <? n)%nat then Err (Malformed "truncated field")
  else Ok (take n rest, cursor_at (pre ++ take n rest) (drop n rest)).
Proof.
  unfold take_n. rewrite remaining_at. simpl. rewrite drop_app_length.
  destruct (Nat.ltb_spec (length rest) n); [done|]. do 2 f_equal.
  unfold cursor_at. rewrite <- app_assoc, take_drop, length_app, length_take. f_equal. lia.
Qed.

Lemma take_n_app pre a rest :
  take_n (length a) (cursor_at pre (a ++ rest)) = Ok (a, cursor_at (pre ++ a) rest).
Proof.
  rewrite take_n_at, length_app, take_app_length, drop_app_length.
  destruct (Nat.ltb_spec (length a + length rest) (length a)); [lia|done].
Qed.

Lemma take_n_exact n pre a rest :
  length a = n → take_n n (cursor_at pre (a ++ rest)) = Ok (a, cursor_at (pre ++ a) rest).
Proof. intros <-. apply take_n_app. Qed.

Lemma take_n_all pre a : take_n (length a) (cursor_at pre a) = Ok (a, cursor_at (pre ++ a) []).
Proof. rewrite <- (app_nil_r a) at 2. apply take_n_app. Qed.

Lemma u8_app pre n rest :
  0 ≤ n < 256 → u8 (cursor_at pre (z2b n :: rest)) = Ok (n, cursor_at (pre ++ [z2b n]) rest).
Proof.
  intros Hn. unfold u8. pose proof (take_n_app pre [z2b n] rest) as Ht.
  cbn [length app] in Ht. rewrite Ht. cbn. unfold at_. simpl. by rewrite b2z_z2b.
Qed.

Lemma u16_app pre n rest :
  0 ≤ n < 65536 →
  u16 (cursor_at pre (u16_to_be_bytes n ++ rest)) = Ok (n, cursor_at (pre ++ u16_to_be_bytes n) rest).
Proof.
  intros Hn. unfold u16. destruct (u16_be_roundtrip n Hn) as (a & b & -> & <-).
  pose proof (take_n_app pre [a; b] rest) as Ht. cbn [length] in Ht. by rewrite Ht.
Qed.

(** A field that was read shortens what is left. *)
Lemma take_n_shorter n c b c' :
  take_n n c = Ok (b, c') → (pos c ≤ length (cbuf c))%nat →
  remaining c' = (remaining c - n)%nat ∧ (pos c' ≤ length (cbuf c'))%nat ∧ length b = n.
Proof.
  unfold take_n, remaining. destruct (Nat.ltb_spec (length (cbuf c) - pos c) n); [done|].
  intros [= <- <-] Hp. simpl. rewrite length_take, length_drop. lia.
Qed.

Lemma u8_shorter c n c' :
  u8 c = Ok (n, c') → (pos c ≤ length (cbuf c))%nat →
  remaining c' = (remaining c - 1)%nat ∧ (pos c' ≤ length (cbuf c'))%nat ∧ (1 ≤ remaining c)%nat.
Proof.
  unfold u8. intros H Hp. inv_ok. unfold take_n in Hok. case_match eqn:Hl; [done|].
  apply Nat.ltb_ge in Hl. simplify_eq. unfold remaining in *. simpl. lia.
Qed.
Lemma u16_shorter c n c' :
  u16 c = Ok (n, c') → (pos c ≤ length (cbuf c))%nat →
  remaining c' = (remaining c - 2)%nat ∧ (pos c' ≤ length (cbuf c'))%nat ∧ (2 ≤ remaining c)%nat.
Proof.
  unfold u16. intros H Hp. inv_ok. unfold take_n in Hok. case_match eqn:Hl; [done|].
  apply Nat.ltb_ge in Hl. simplify_eq. unfold remaining in *. simpl. lia.
Qed.

(** ** The loops never run out of fuel *)

Lemma names_loop_fuel f1 f2 c :
  (remaining c < f1)%nat → (remaining c < f2)%nat → (pos c ≤ length (cbuf c))%nat →
  names_loop f1 c = names_loop f2 c.
Proof.
  revert f2 c. induction f1 as [|f1 IH]; intros [|f2] c H1 H2 Hp; try lia. simpl.
  destruct (Nat.eqb_spec (remaining c) 0); [done|].
  destruct (u8 c) as [[t c1]|] eqn:E1; [|done]. simpl.
  destruct (u8_shorter _ _ _ E1 Hp) as (R1 & P1 & M1).
  destruct (u16 c1) as [[len c2]|] eqn:E2; [|done]. simpl.
  destruct (u16_shorter _ _ _ E2 P1) as (R2 & P2 & M2).
  destruct (take_n _ c2) as [[b c3]|] eqn:E3; [|done]. simpl.
  destruct (take_n_shorter _ _ _ _ E3 P2) as (R3 & P3 & _).
  case_match; [done|]. apply IH; lia.
Qed.

Lemma extensions_loop_fuel f1 f2 c :
  (remaining c < f1)%nat → (remaining c < f2)%nat → (pos c ≤ length (cbuf c))%nat →
  extensions_loop f1 c = extensions_loop f2 c.
Proof.
  revert f2 c. induction f1 as [|f1 IH]; intros [|f2] c H1 H2 Hp; try lia. simpl.
  destruct (Nat.eqb_spec (remaining c) 0); [done|].
  destruct (u16 c) as [[t c1]|] eqn:E1; [|done]. simpl.
  destruct (u16_shorter _ _ _ E1 Hp) as (R1 & P1 & M1).
  destruct (u16 c1) as [[len c2]|] eqn:E2; [|done]. simpl.
  destruct (u16_shorter _ _ _ E2 P1) as (R2 & P2 & M2).
  destruct (take_n _ c2) as [[b c3]|] eqn:E3; [|done]. simpl.
  destruct (take_n_shorter _ _ _ _ E3 P2) as (R3 & P3 & _).
  case_match; [done|]. apply IH; lia.
Qed.

Lemma cursor_at_wf pre rest : (pos (cursor_at pre rest) ≤ length (cbuf (cursor_at pre rest)))%nat.
Proof. simpl. rewrite length_app. lia. Qed.

(** ** The wire format (RFC 8446 §4.1.2, RFC 6066 §3) *)

(** The reference: a ClientHello as data, and its serialisation. *)
Record ClientHello := {
  legacy_version : bytes;
  random : bytes;
  session_id : bytes;
  cipher_suites : bytes;
  compression_methods : bytes;
  extensions : list (Z * bytes);
}.

Definition u8_vec (b : bytes) : bytes := z2b (Z.of_nat (length b)) :: b.
Definition u16_vec (b : bytes) : bytes := u16_to_be_bytes (Z.of_nat (length b)) ++ b.
Definition u24_to_be_bytes (z : Z) : bytes := [z2b (z / 65536); z2b (z / 256); z2b z].

Definition encode_extension (e : Z * bytes) : bytes := u16_to_be_bytes e.1 ++ u16_vec e.2.
Definition encode_extensions (l : list (Z * bytes)) : bytes := l ≫= encode_extension.
Definition encode_body (h : ClientHello) : bytes :=
  legacy_version h ++ random h ++ u8_vec (session_id h) ++ u16_vec (cipher_suites h) ++
  u8_vec (compression_methods h) ++ u16_vec (encode_extensions (extensions h)).
Definition encode_handshake (h : ClientHello) : bytes :=
  z2b HANDSHAKE_TYPE_CLIENT_HELLO ::
  u24_to_be_bytes (Z.of_nat (length (encode_body h))) ++ encode_body h.
Definition encode_record (version : byte * byte) (h : ClientHello) : bytes :=
  z2b CONTENT_TYPE_HANDSHAKE :: version.1 :: version.2 ::
  u16_to_be_bytes (Z.of_nat (length (encode_handshake h))) ++ encode_handshake h.

(** A [server_name] list: entries of a name type and a name. *)
Definition encode_name (e : Z * bytes) : bytes := z2b e.1 :: u16_vec e.2.
Definition encode_names (l : list (Z * bytes)) : bytes := l ≫= encode_name.
Definition server_name_extension (l : list (Z * bytes)) : Z * bytes :=
  (EXTENSION_SERVER_NAME, u16_vec (encode_names l)).

Definition extension_ok (e : Z * bytes) : Prop :=
  0 ≤ e.1 < 65536 ∧ Z.of_nat (length e.2) < 65536.
Definition name_ok (e : Z * bytes) : Prop :=
  0 ≤ e.1 < 256 ∧ Z.of_nat (length e.2) < 65536.

Record hello_ok (h : ClientHello) : Prop := {
  ok_version : length (legacy_version h) = 2%nat;
  ok_random : length (random h) = 32%nat;
  ok_session : Z.of_nat (length (session_id h)) < 256;
  ok_ciphers : Z.of_nat (length (cipher_suites h)) < 65536;
  ok_compression : Z.of_nat (length (compression_methods h)) < 256;
  ok_extensions : Forall extension_ok (extensions h);
  ok_size : Z.of_nat (length (encode_handshake h)) ≤ 16384;
}.

(** The name a list of entries stands for: its first host name. *)
Definition is_host_name (e : Z * bytes) : bool := e.1 =? NAME_TYPE_HOST_NAME.
Definition is_sni (e : Z * bytes) : bool := e.1 =? EXTENSION_SERVER_NAME.
Definition names_sni (l : list (Z * bytes)) : result SniError string :=
  match find_first is_host_name l with
  | None => Err NoSni
  | Some (_, []) => Err EmptySni
  | Some (_, name) => ok_or (Malformed "server_name is not valid UTF-8") (from_utf8 name)
  end.

Lemma u24_app pre n rest :
  0 ≤ n < 16777216 →
  u24 (cursor_at pre (u24_to_be_bytes n ++ rest)) = Ok (n, cursor_at (pre ++ u24_to_be_bytes n) rest).
Proof.
  intros Hn. unfold u24. pose proof (take_n_app pre (u24_to_be_bytes n) rest) as Ht.
  change (length (u24_to_be_bytes n)) with 3%nat in Ht. rewrite Ht. cbn. do 2 f_equal.
  unfold at_, u24_from_be_bytes. simpl.
  rewrite <- (z2b_mod n), <- (z2b_mod (n / 256)).
  assert (0 ≤ n / 65536 < 256)
    by (split; [apply Z.div_pos; lia | apply Z.div_lt_upper_bound; lia]).
  rewrite !b2z_z2b by (try apply Z.mod_pos_bound; lia).
  assert (n / 65536 = n / 256 / 256) as -> by (by rewrite Zdiv_Zdiv by lia).
  pose proof (Z.div_mod n 256). pose proof (Z.div_mod (n / 256) 256). lia.
Qed.

Lemma u16_vec_length b : length (u16_vec b) = S (S (length b)).
Proof. done. Qed.

(** Reading a 16-bit length-prefixed vector. *)
Lemma u16_vec_app {A} pre b rest (k : bytes → Cursor → result SniError A) :
  Z.of_nat (length b) < 65536 →
  ('(n, c) ← u16 (cursor_at pre (u16_vec b ++ rest)); '(d, c) ← take_n (Z.to_nat n) c; k d c)
  = k b (cursor_at (pre ++ u16_vec b) rest).
Proof.
  intros Hb. unfold u16_vec. rewrite <- app_assoc, u16_app by lia. cbn.
  by rewrite Nat2Z.id, take_n_app, <- app_assoc.
Qed.

Lemma u8_vec_app {A} pre b rest (k : Cursor → result SniError A) :
  Z.of_nat (length b) < 256 →
  ('(n, c) ← u8 (cursor_at pre (u8_vec b ++ rest)); '(_, c) ← take_n (Z.to_nat n) c; k c)
  = k (cursor_at (pre ++ u8_vec b) rest).
Proof.
  intros Hb. unfold u8_vec. rewrite <- app_comm_cons, u8_app by lia. cbn.
  rewrite Nat2Z.id, take_n_app, <- app_assoc. done.
Qed.

Lemma names_loop_encode fuel pre l :
  Forall name_ok l → (length (encode_names l) < fuel)%nat →
  names_loop fuel (cursor_at pre (encode_names l)) = names_sni l.
Proof.
  intros Hl. revert fuel pre. induction Hl as [|[t name] l [Ht Hn] Hl IH];
    intros [|fuel] pre Hf; try (simpl in Hf; lia).
  - cbn [names_loop]. by rewrite remaining_at.
  - cbn [names_loop]. rewrite remaining_at.
    change (encode_names ((t, name) :: l)) with (encode_name (t, name) ++ encode_names l) in *.
    unfold encode_name in *. cbn [fst snd] in *.
    rewrite length_app in *. cbn [length] in *. cbn [Nat.eqb Nat.add].
    rewrite <- app_comm_cons, u8_app by done. cbn [mbind result_bind].
    rewrite u16_vec_app by done.
    unfold names_sni, is_host_name. simpl. case_match.
    + by destruct name.
    + apply IH. rewrite u16_vec_length in Hf. lia.
Qed.

Lemma parse_server_name_encode l :
  Forall name_ok l → Z.of_nat (length (encode_names l)) < 65536 →
  parse_server_name_extension (server_name_extension l).2 = names_sni l.
Proof.
  intros Hl Hn. unfold parse_server_name_extension. cbn [server_name_extension snd].
  rewrite Cursor_new_at, <- (app_nil_r (u16_vec _)), u16_vec_app by done.
  rewrite Cursor_new_at, remaining_at. apply names_loop_encode; [done|lia].
Qed.

Lemma extensions_loop_encode fuel pre l :
  Forall extension_ok l → (length (encode_extensions l) < fuel)%nat →
  extensions_loop fuel (cursor_at pre (encode_extensions l)) =
  match find_first is_sni l with
  | None => Err NoSni
  | Some e => parse_server_name_extension e.2
  end.
Proof.
  intros Hl. revert fuel pre. induction Hl as [|[t d] l [Ht Hn] Hl IH];
    intros [|fuel] pre Hf; try (simpl in Hf; lia).
  - cbn [extensions_loop]. by rewrite remaining_at.
  - cbn [extensions_loop]. rewrite remaining_at.
    change (encode_extensions ((t, d) :: l)) with (encode_extension (t, d) ++ encode_extensions l) in *.
    unfold encode_extension in *. cbn [fst snd] in *.
    rewrite !length_app in *. change (length (u16_to_be_bytes t)) with 2%nat in *.
    cbn [Nat.eqb Nat.add]. rewrite <- app_assoc, u16_app by done. cbn [mbind result_bind].
    rewrite u16_vec_app by done. unfold is_sni. cbn [find_first fst].
    destruct (t =? EXTENSION_SERVER_NAME); [done|].
    apply IH. lia.
Qed.

Lemma parse_body_encode h :
  hello_ok h →
  parse_client_hello_body (encode_body h) =
  match find_first is_sni (extensions h) with
  | None => Err NoSni
  | Some e => parse_server_name_extension e.2
  end.
Proof.
  intros [Hv Hr Hs Hc Hm He Hz]. unfold parse_client_hello_body, encode_body.
  assert (Z.of_nat (length (encode_extensions (extensions h))) < 65536) as Hel.
  { unfold encode_handshake, encode_body in Hz. cbn [length] in Hz.
    rewrite !length_app, !u16_vec_length in Hz. lia. }
  rewrite Cursor_new_at, (take_n_exact 2) by done. cbn [mbind result_bind].
  rewrite (take_n_exact 32) by done. cbn [mbind result_bind].
  rewrite u8_vec_app by done. rewrite u16_vec_app by done. rewrite u8_vec_app by done.
  rewrite remaining_at, u16_vec_length. cbn [Nat.eqb].
  rewrite <- (app_nil_r (u16_vec (encode_extensions _))), u16_vec_app by done.
  rewrite Cursor_new_at, remaining_at. apply extensions_loop_encode; [done|lia].
Qed.

Lemma parse_record_encode h :
  hello_ok h →
  parse_record (encode_handshake h) =
  match find_first is_sni (extensions h) with
  | None => Err NoSni
  | Some e => name ← parse_server_name_extension e.2; Ok (Complete name)
  end.
Proof.
  intros Hh. pose proof (ok_size h Hh) as Hz. unfold parse_record, encode_handshake in *.
  assert (Z.of_nat (length (encode_body h)) < 16777216).
  { cbn [length] in Hz. rewrite length_app in Hz. lia. }
  rewrite Cursor_new_at, u8_app by (unfold HANDSHAKE_TYPE_CLIENT_HELLO; lia).
  cbn [mbind result_bind].
  rewrite Z.eqb_refl. cbn [negb]. rewrite u24_app by lia. cbn [mbind result_bind].
  rewrite Nat2Z.id, take_n_all.
  cbn [map_err mbind result_bind]. rewrite parse_body_encode by done.
  by case_match.
Qed.

(** [try_parse] on a whole record followed by anything. *)
Lemma try_parse_record v0 v1 n record rest :
  0 < n ≤ 16384 → length record = Z.to_nat n →
  try_parse (z2b CONTENT_TYPE_HANDSHAKE :: v0 :: v1 :: u16_to_be_bytes n ++ record ++ rest)
  = parse_record record.
Proof.
  intros Hn Hl. destruct (u16_be_roundtrip n) as (a & b & -> & E); [lia|].
  cbn [app try_parse]. rewrite E.
  rewrite b2z_z2b by (unfold CONTENT_TYPE_HANDSHAKE; lia). simpl.
  destruct (Z.eqb_spec n 0); [lia|]. destruct (Z.ltb_spec 16384 n); [lia|]. simpl.
  rewrite length_app, Hl.
  destruct (Nat.ltb_spec (Z.to_nat n + length rest) (Z.to_nat n)); [lia|].
  by rewrite <- Hl, take_app_length.
Qed.

Lemma encode_handshake_length h : (0 < length (encode_handshake h))%nat.
Proof. unfold encode_handshake. simpl. lia. Qed.

Lemma try_parse_encode v h rest :
  hello_ok h →
  try_parse (encode_record v h ++ rest) =
  match find_first is_sni (extensions h) with
  | None => Err NoSni
  | Some e => name ← parse_server_name_extension e.2; Ok (Complete name)
  end.
Proof.
  intros Hh. unfold encode_record. rewrite <- !app_comm_cons, <- app_assoc.
  pose proof (encode_handshake_length h). pose proof (ok_size h Hh).
  rewrite try_parse_record by (rewrite ?Nat2Z.id; lia). by apply parse_record_encode.
Qed.

(** C8: The parser implements the wire format: on the serialisation of any
    ClientHello that fits one record, followed by any bytes, it returns the
    first host name of the first [server_name] extension; it reports [NoSni]
    when there is no such extension or no host name in it, [EmptySni] for an
    empty name, and refuses a name that is not UTF-8. *)
Theorem try_parse_reads_sni v h rest :
  hello_ok h →
  (find_first is_sni (extensions h) = None →
   try_parse (encode_record v h ++ rest) = Err NoSni) ∧
  (∀ names, find_first is_sni (extensions h) = Some (server_name_extension names) →
     Forall name_ok names →
     try_parse (encode_record v h ++ rest) = (Complete <$> names_sni names)).
Proof.
  intros Hh. rewrite try_parse_encode by done. split; [by intros ->|].
  intros names Hf Hn. rewrite Hf.
  apply find_first_Some in Hf as [Hin _].
  pose proof (ok_extensions h Hh) as He. rewrite Forall_forall in He.
  specialize (He _ Hin) as [_ Hl]. cbn [snd server_name_extension] in Hl.
  rewrite u16_vec_length in Hl.
  rewrite parse_server_name_encode by (done || lia). by destruct (names_sni names).
Qed.

(** ** Incremental parsing *)

Lemma try_parse_early buf more :
  try_parse buf = Ok Incomplete ∨ try_parse (buf ++ more) = try_parse buf.
Proof.
  destruct buf as [|b0 [|b1 [|b2 [|b3 [|b4 rest]]]]]; try (by left). simpl.
  case_match; [by right|]. case_match; [by right|].
  destruct (Nat.ltb_spec (length rest) (Z.to_nat (u16_from_be_bytes b3 b4))); [by left|].
  right. rewrite length_app.
  destruct (Nat.ltb_spec (length rest + length more) (Z.to_nat (u16_from_be_bytes b3 b4))); [lia|].
  by rewrite take_app_le by lia.
Qed.

Lemma try_parse_complete_app buf more name :
  try_parse buf = Ok (Complete name) → try_parse (buf ++ more) = Ok (Complete name).
Proof. intros E. destruct (try_parse_early buf more); congruence. Qed.

(** A decision once taken is final: with [Complete] or an error on the bytes
    present, no further bytes change the answer. *)
Theorem try_parse_decides_early buf more :
  try_parse buf = Ok Incomplete ∨ try_parse (buf ++ more) = try_parse buf.
Proof. apply try_parse_early. Qed.

(** The bytes a stream delivers. *)
Definition stream_bytes (stream : list Read) : bytes :=
  stream ≫= λ r, match r with ReadBytes b => b | ReadError _ => [] end.
(** Every read returns at most the 1024 bytes of the source's buffer. *)
Definition read_ok (r : Read) : Prop :=
  match r with ReadBytes b => (length b ≤ 1024)%nat | ReadError _ => True end.

Lemma peek_loop_spec buf stream :
  (length buf < MAX_CLIENT_HELLO_BYTES + 1024)%nat → Forall read_ok stream →
  match peek_loop buf stream with
  | (Ok p, rest) =>
      try_parse (raw p) = Ok (Complete (server_name p)) ∧
      raw p ++ stream_bytes rest = buf ++ stream_bytes stream ∧
      (length (raw p) < MAX_CLIENT_HELLO_BYTES + 1024)%nat
  | (Err _, _) => True
  end.
Proof.
  intros Hb Hs. revert buf Hb. induction Hs as [|r stream Hr Hs IH]; intros buf Hb; cbn [peek_loop].
  - destruct (try_parse buf) as [[|name]|] eqn:E; [|done|done]. by destruct (_ <=? _)%nat.
  - destruct (try_parse buf) as [[|name]|] eqn:E; [|done|done].
    destruct (Nat.leb_spec MAX_CLIENT_HELLO_BYTES (length buf)); [done|].
    destruct r as [[|b chunk]|e]; [done| |done].
    specialize (IH (buf ++ b :: chunk)). rewrite length_app in IH.
    unfold read_ok in Hr. cbn [length] in *. destruct (peek_loop (buf ++ b :: chunk) stream) as [[p|e] rest]; [|done].
    destruct IH as (Hp & Hbytes & Hlen); [lia|].
    split_and!; [done| |done]. rewrite Hbytes. unfold stream_bytes. simpl.
    by rewrite <- app_assoc.
Qed.

(** When peeking succeeds, the bytes kept for replay followed by what is still
    unread are exactly the stream, the name is the one [try_parse] finds in the
    stream's own bytes (so it does not depend on how the stream was split into
    reads), and the buffer never exceeded the bound by more than one read. *)
Theorem peek_replays_verbatim stream p rest :
  Forall read_ok stream → peek_client_hello stream = (Ok p, rest) →
  raw p ++ stream_bytes rest = stream_bytes stream ∧
  try_parse (stream_bytes stream) = Ok (Complete (server_name p)) ∧
  (length (raw p) < MAX_CLIENT_HELLO_BYTES + 1024)%nat.
Proof.
  intros Hs Hp. pose proof (peek_loop_spec [] stream) as H.
  unfold peek_client_hello in Hp. rewrite Hp in H.
  destruct H as (Hc & Hb & Hl); [cbn [length]; lia|done|]. cbn [app] in Hb.
  split_and!; [done| |done].
  rewrite <- Hb. by apply try_parse_complete_app.
Qed.
End Sni.

(** ** Witnesses *)
Module SniWitness.
Import Sni.
Definition hello (exts : list (Z * bytes)) : ClientHello := {|
  legacy_version := [Byte.x03; Byte.x03]; random := replicate 32 Byte.x42;
  session_id := []; cipher_suites := [Byte.x13; Byte.x01]; compression_methods := [Byte.x00];
  extensions := exts |}.
Definition sni : Z * bytes := server_name_extension [(0, as_bytes "svc.alice.reach.example")].
Definition h : ClientHello := hello [(43, [Byte.x02; Byte.x03; Byte.x04]); sni].
Definition record : bytes := encode_record (Byte.x03, Byte.x01) h.

Lemma h_ok : hello_ok h.
Proof. split; try (vm_compute; done). repeat constructor; vm_compute; done. Qed.

Lemma try_parse_reads_sni_witness :
  try_parse (record ++ []) = Ok (Complete "svc.alice.reach.example").
Proof.
  destruct (try_parse_reads_sni (Byte.x03, Byte.x01) h [] h_ok) as [_ H].
  unfold record. rewrite (H [(0, as_bytes "svc.alice.reach.example")]); [reflexivity|reflexivity|].
  repeat constructor; vm_compute; done.
Defined.

(** The record split across two reads, with application data behind it. *)
Definition stream : list Read :=
  [ReadBytes (take 40 record); ReadBytes (drop 40 record); ReadBytes [Byte.x17]].

Lemma peek_replays_verbatim_witness :
  ∃ p rest, peek_client_hello stream = (Ok p, rest) ∧ rest = [ReadBytes [Byte.x17]] ∧
    raw p ++ stream_bytes rest = stream_bytes stream.
Proof.
  eexists _, _. split; [vm_compute; reflexivity|]. split; [reflexivity|].
  eapply (peek_replays_verbatim stream); [|vm_compute; reflexivity].
  repeat constructor; vm_compute; lia.
Defined.
End SniWitness.
