(* ===== verification/Tunnel.v ===== *)
(** * Reverse tunnels: registration frames, the registry, the mux driver

    [crates/reachability-adapter/src/tunnel.rs].  The inbound side of a control
    connection is the list of bytes still to be read from it; reading past its
    end is the I/O error of a closed connection.  A [HashSet] is written in its
    iteration order, which the standard library leaves open: the writer takes the
    order as an argument.  A tunnel handle is opaque here (it is the sending end
    of a channel), so the registry is generic in it. *)

From Stdlib Require Import ZArith Lia.
From stdpp Require Import base decidable option list strings gmap.
From S2P Require Import Prelude.

Module Tunnel.
Definition MAX_REGISTRATION_FIELD_BYTES : Z := 4096.
Definition MAX_REGISTRATION_SERVICES : Z := 256.

Inductive TunnelError :=
| Closed
| Yamux (error : string)
| Io (error : string)
| MalformedRegistration (reason : string).

Record Registration := { name : string; allowed_services : gset string }.

(** ** Reading and writing a control connection *)

Definition unexpected_eof : string := "early eof".

(** [AsyncReadExt::read_u16] and [read_exact]. *)
Definition read_u16 (s : bytes) : result TunnelError (Z * bytes) :=
  match s with
  | a :: b :: rest => Ok (u16_from_be_bytes a b, rest)
  | _ => Err (Io unexpected_eof)
  end.
Definition read_exact (n : nat) (s : bytes) : result TunnelError (bytes * bytes) :=
  if (length s <? n)%nat then Err (Io unexpected_eof) else Ok (take n s, drop n s).

Definition read_length_prefixed_string (s : bytes) : result TunnelError (string * bytes) :=
  '(len, s) ← read_u16 s;
  if MAX_REGISTRATION_FIELD_BYTES <? len then
    Err (MalformedRegistration "field exceeds max length")
  else
    '(buf, s) ← read_exact (Z.to_nat len) s;
    str ← ok_or (MalformedRegistration "field is not UTF-8") (from_utf8 buf);
    Ok (str, s).

Fixpoint read_services (count : nat) (acc : gset string) (s : bytes)
    : result TunnelError (gset string * bytes) :=
  match count with
  | O => Ok (acc, s)
  | S count =>
      '(svc, s) ← read_length_prefixed_string s;
      read_services count ({[svc]} ∪ acc) s
  end.

Definition read_registration (s : bytes) : result TunnelError (Registration * bytes) :=
  '(n, s) ← read_length_prefixed_string s;
  if decide (n = EmptyString) then Err (MalformedRegistration "name is empty")
  else
    '(service_count, s) ← read_u16 s;
    if MAX_REGISTRATION_SERVICES <? service_count then
      Err (MalformedRegistration "too many declared services")
    else
      '(services, s) ← read_services (Z.to_nat service_count) ∅ s;
      Ok ({| name := n; allowed_services := services |}, s).

(** [x as u16] keeps the low sixteen bits. *)
Definition as_u16 (z : Z) : Z := z mod 65536.
Definition write_string (str : string) : bytes :=
  u16_to_be_bytes (as_u16 (str_len str)) ++ as_bytes str.
(** [order] is the iteration order of the service set. *)
Definition write_registration (reg : Registration) (order : list string) : bytes :=
  write_string (name reg) ++
  u16_to_be_bytes (as_u16 (Z.of_nat (size (allowed_services reg)))) ++
  (order ≫= write_string).

(** ** The registry *)

Inductive RegistryError := OwnedByDifferentIdentity (n : string).

Section registry.
Context {H : Type}.

Record RegisteredTunnel := {
  handle : H;
  rt_allowed_services : gset string;
  owner_ik : bytes;
  generation : Z;
}.
Record RegistryState := {
  tunnels : gmap string RegisteredTunnel;
  next_generation : Z;
}.
Definition RegistryState_new : RegistryState := {| tunnels := ∅; next_generation := 0 |}.

Record RegistrationGuard := { guard_name : string; guard_generation : Z }.
Record TunnelLookup := { tl_handle : H; tl_allowed_services : gset string }.

Definition register (reg : Registration) (ik : bytes) (h : H) (st : RegistryState)
    : result RegistryError RegistrationGuard * RegistryState :=
  let taken := match tunnels st !! name reg with
               | Some existing => bool_decide (owner_ik existing ≠ ik)
               | None => false
               end in
  if taken then (Err (OwnedByDifferentIdentity (name reg)), st)
  else
    let g := next_generation st in
    (Ok {| guard_name := name reg; guard_generation := g |},
     {| tunnels := <[name reg := {| handle := h; rt_allowed_services := allowed_services reg;
                                    owner_ik := ik; generation := g |}]> (tunnels st);
        next_generation := U64.wrap (g + 1) |}).

Definition lookup_name (sni_name : string) (st : RegistryState) : option TunnelLookup :=
  t ← tunnels st !! to_ascii_lowercase sni_name;
  Some {| tl_handle := handle t; tl_allowed_services := rt_allowed_services t |}.

Definition deregister (n : string) (g : Z) (st : RegistryState) : RegistryState :=
  match tunnels st !! n with
  | Some existing =>
      if generation existing =? g
      then {| tunnels := delete n (tunnels st); next_generation := next_generation st |}
      else st
  | None => st
  end.

(** [Drop for RegistrationGuard]. *)
Definition drop_guard (g : RegistrationGuard) (st : RegistryState) : RegistryState :=
  deregister (guard_name g) (guard_generation g) st.
End registry.
Arguments RegisteredTunnel : clear implicits.
Arguments RegistryState : clear implicits.
Arguments TunnelLookup : clear implicits.

(** ** The driver of one tunnel's mux session *)

Section driver.
(** A reply channel, an opened stream and yamux's connection error. *)
Context {Reply Stream : Type}.

(** What the three polls of one turn of the loop return. *)
Inductive OpenPoll := OpenReady (reply : Reply) | OpenClosed | OpenPending.
Inductive OutboundPoll := OutReady (res : result string Stream) | OutPending.
Inductive InboundPoll := InStream (s : Stream) | InEnd | InPending.
Record Polls := { poll_recv : OpenPoll; poll_new_outbound : OutboundPoll;
                  poll_next_inbound : InboundPoll }.

Record DriverState := {
  pending : list Reply;
  open_rx_closed : bool;
  (** what was sent on the reply channels so far *)
  answered : list (Reply * result TunnelError Stream);
}.
Definition DriverState_new : DriverState :=
  {| pending := []; open_rx_closed := false; answered := [] |}.

(** One turn: [inl] is [Poll::Ready(())], the end of the driver; [inr] goes
    on, with [progressed]. *)
Definition drive_turn (p : Polls) (d : DriverState) : DriverState + (DriverState * bool) :=
  let '(d, progressed) :=
    if open_rx_closed d then (d, false)
    else match poll_recv p with
    | OpenReady reply =>
        ({| pending := pending d ++ [reply]; open_rx_closed := false; answered := answered d |}, true)
    | OpenClosed =>
        ({| pending := pending d; open_rx_closed := true; answered := answered d |}, true)
    | OpenPending => (d, false)
    end in
  let '(d, progressed) :=
    match pending d with
    | [] => (d, progressed)
    | reply :: rest =>
        match poll_new_outbound p with
        | OutReady res =>
            ({| pending := rest; open_rx_closed := open_rx_closed d;
                answered := answered d ++ [(reply, map_err Yamux res)] |}, true)
        | OutPending => (d, progressed)
        end
    end in
  match poll_next_inbound p with
  | InStream _ => inr (d, true)
  | InEnd =>
      inl {| pending := []; open_rx_closed := open_rx_closed d;
             answered := answered d ++ ((λ r, (r, Err Closed)) <$> pending d) |}
  | InPending => inr (d, progressed)
  end.

(** The driver over the polls of all its turns, of this and later wake-ups:
    whether it ended, and the state it is in. *)
Fixpoint drive (turns : list Polls) (d : DriverState) : bool * DriverState :=
  match turns with
  | [] => (false, d)
  | p :: turns =>
      match drive_turn p d with
      | inl d => (true, d)
      | inr (d, _) => drive turns d
      end
  end.

(** The requests taken from the channel by the turns that ran. *)
Fixpoint received (turns : list Polls) (d : DriverState) : list Reply :=
  match turns with
  | [] => []
  | p :: turns =>
      (if open_rx_closed d then []
       else match poll_recv p with OpenReady r => [r] | _ => [] end) ++
      match drive_turn p d with
      | inl _ => []
      | inr (d, _) => received turns d
      end
  end.
End driver.

(** ** Frames round-trip *)

(** A Rust string is UTF-8; a field fits the reader's bound. *)
Definition field_ok (s : string) : Prop :=
  utf8_valid (as_bytes s) = true ∧ str_len s ≤ MAX_REGISTRATION_FIELD_BYTES.

Lemma read_write_u16 n rest :
  0 ≤ n < 65536 → read_u16 (u16_to_be_bytes n ++ rest) = Ok (n, rest).
Proof. intros Hn. by destruct (u16_be_roundtrip n Hn) as (a & b & -> & <-). Qed.

Lemma read_write_string s rest :
  field_ok s → read_length_prefixed_string (write_string s ++ rest) = Ok (s, rest).
Proof.
  intros [Hu Hl]. unfold read_length_prefixed_string, write_string.
  assert (0 ≤ str_len s) by (unfold str_len; lia).
  unfold MAX_REGISTRATION_FIELD_BYTES, as_u16 in *. rewrite Z.mod_small by lia.
  rewrite <- app_assoc, read_write_u16 by lia. cbn [mbind result_bind].
  destruct (Z.ltb_spec 4096 (str_len s)); [lia|].
  unfold read_exact, str_len. rewrite Nat2Z.id, length_app.
  destruct (Nat.ltb_spec (length (as_bytes s) + length rest) (length (as_bytes s))); [lia|].
  cbn [mbind result_bind]. rewrite take_app_length, drop_app_length.
  by rewrite from_utf8_as_bytes.
Qed.

Lemma read_write_services l acc rest :
  Forall field_ok l →
  read_services (length l) acc ((l ≫= write_string) ++ rest) = Ok (list_to_set l ∪ acc, rest).
Proof.
  intros Hl. revert acc. induction Hl as [|s l Hs Hl IH]; intros acc.
  - simpl. by rewrite (left_id_L ∅ (∪)).
  - change ((s :: l) ≫= write_string) with (write_string s ++ (l ≫= write_string)).
    cbn [length read_services]. rewrite <- app_assoc, read_write_string by done.
    cbn [mbind result_bind]. rewrite IH. do 2 f_equal. set_solver.
Qed.

Lemma read_write_registration reg order rest :
  order ≡ₚ elements (allowed_services reg) →
  name reg ≠ EmptyString → field_ok (name reg) → Forall field_ok order →
  Z.of_nat (size (allowed_services reg)) ≤ MAX_REGISTRATION_SERVICES →
  read_registration (write_registration reg order ++ rest) = Ok (reg, rest).
Proof.
  intros Ho Hne Hn Hs Hc. unfold read_registration, write_registration.
  rewrite <- !app_assoc, read_write_string by done. cbn [mbind result_bind].
  rewrite decide_False by done. unfold MAX_REGISTRATION_SERVICES, as_u16 in *.
  rewrite Z.mod_small by lia. rewrite read_write_u16 by lia. cbn [mbind result_bind].
  destruct (Z.ltb_spec 256 (Z.of_nat (size (allowed_services reg)))); [lia|].
  assert (size (allowed_services reg) = length order) as -> by (by rewrite Ho).
  rewrite Nat2Z.id, read_write_services by done.
  cbn [mbind result_bind]. rewrite (right_id_L ∅ (∪)), (list_to_set_perm_L _ _ Ho).
  rewrite list_to_set_elements_L. by destruct reg.
Qed.

(** The box's frame is read back as the registration it declares, whatever
    order the service set is written in, and the connection is left exactly
    behind the frame. *)
Theorem registration_roundtrip reg order rest :
  order ≡ₚ elements (allowed_services reg) →
  name reg ≠ EmptyString → field_ok (name reg) → Forall field_ok order →
  Z.of_nat (size (allowed_services reg)) ≤ MAX_REGISTRATION_SERVICES →
  read_registration (write_registration reg order ++ rest) = Ok (reg, rest).
Proof. apply read_write_registration. Qed.

(** ** The registry as a state machine *)

Section registry_laws.
Context {H : Type}.

(** The registry together with the guards currently held. *)
Record World := { w_reg : RegistryState H; w_guards : list RegistrationGuard }.
Definition World_new : World := {| w_reg := RegistryState_new; w_guards := [] |}.

(** Registrations (accepted or refused) and guard drops, in any order; the
    counter is assumed not to have wrapped. *)
Inductive world_step : World → World → Prop :=
| step_registered r ik h g st st' gs :
    next_generation st < U64.MAX → register r ik h st = (Ok g, st') →
    world_step {| w_reg := st; w_guards := gs |} {| w_reg := st'; w_guards := g :: gs |}
| step_refused r ik h e st st' gs :
    register r ik h st = (Err e, st') →
    world_step {| w_reg := st; w_guards := gs |} {| w_reg := st'; w_guards := gs |}
| step_drop g st gs gs' :
    gs ≡ₚ g :: gs' →
    world_step {| w_reg := st; w_guards := gs |} {| w_reg := drop_guard g st; w_guards := gs' |}.

Record world_inv (w : World) : Prop := {
  wi_live n t : tunnels (w_reg w) !! n = Some t →
    {| guard_name := n; guard_generation := generation t |} ∈ w_guards w;
  wi_next : 0 ≤ next_generation (w_reg w) ≤ U64.MAX;
  wi_fresh g : g ∈ w_guards w → 0 ≤ guard_generation g < next_generation (w_reg w);
  wi_nodup : NoDup (guard_generation <$> w_guards w);
}.

Lemma register_inv r ik h g st st' gs :
  next_generation st < U64.MAX → register r ik h st = (Ok g, st') →
  world_inv {| w_reg := st; w_guards := gs |} → world_inv {| w_reg := st'; w_guards := g :: gs |}.
Proof.
  intros Hn Hr [HL HN HF HD]. unfold register in Hr. simpl in *.
  destruct (match tunnels st !! name r with Some _ => _ | None => _ end); [done|].
  simplify_eq. assert (U64.wrap (next_generation st + 1) = next_generation st + 1) as Hw.
  { apply U64.wrap_small. unfold U64.valid. lia. }
  split; simpl; rewrite ?Hw.
  - intros n t. destruct (decide (name r = n)) as [<-|].
    + rewrite lookup_insert_eq. intros [= <-]. simpl. by left.
    + rewrite lookup_insert_ne by done. intros Ht. right. by apply HL.
  - lia.
  - intros g [->|Hg]%elem_of_cons; simpl; [lia|]. specialize (HF g Hg). lia.
  - constructor; [|done]. intros (g & Hg & Hin)%list_elem_of_fmap.
    specialize (HF g Hin). lia.
Qed.

Lemma drop_inv g st gs gs' :
  gs ≡ₚ g :: gs' →
  world_inv {| w_reg := st; w_guards := gs |} →
  world_inv {| w_reg := drop_guard g st; w_guards := gs' |}.
Proof.
  intros Hp [HL HN HF HD]. simpl in *.
  assert (next_generation (drop_guard g st) = next_generation st) as Hng.
  { unfold drop_guard, deregister. by repeat case_match. }
  split; simpl; rewrite ?Hng; try done.
  - intros n t Ht.
    assert (tunnels st !! n = Some t ∧
            {| guard_name := n; guard_generation := generation t |} ≠ g) as [Ht' Hg].
    { revert Ht. unfold drop_guard, deregister.
      destruct (tunnels st !! guard_name g) as [e|] eqn:E.
      - destruct (Z.eqb_spec (generation e) (guard_generation g)) as [He|He]; simpl.
        + intros [Hne Hn]%lookup_delete_Some. split; [done|]. intros <-. done.
        + intros Hn. split; [done|]. intros <-. simpl in *. naive_solver.
      - intros Hn. split; [done|]. intros <-. simpl in *. congruence. }
    specialize (HL _ _ Ht'). rewrite Hp in HL.
    apply elem_of_cons in HL as [HL|HL]; [naive_solver|done].
  - intros g' Hg'. apply HF. rewrite Hp. by right.
  - rewrite Hp in HD. simpl in HD. by apply NoDup_cons in HD as [_ HD].
Qed.

Lemma world_reachable_inv w : rtc world_step World_new w → world_inv w.
Proof.
  assert (world_inv World_new) as H0.
  { split; simpl; [|unfold U64.MAX; lia| |by apply NoDup_nil_2].
    - intros n t. by rewrite lookup_empty.
    - intros g Hg. by apply elem_of_nil in Hg. }
  revert H0. generalize World_new. intros w0 H0 Hr. revert H0.
  induction Hr as [|w1 w2 w3 Hs _ IH]; [done|]. intros I. apply IH.
  destruct Hs; eauto using register_inv, drop_inv.
  unfold register in *. by repeat case_match; simplify_eq.
Qed.

(** C4: Single writer: on every reachable registry, a name that is held stays
    held by the same identity through every step, whoever registers what and
    whichever guards are dropped, except that dropping the guard of that very
    registration releases it (a stale guard of a refreshed name does not);
    and each live entry has its guard still held, so it will be released. *)
Theorem registry_single_writer w w' n t :
  rtc world_step World_new w → world_step w w' →
  tunnels (w_reg w) !! n = Some t →
  {| guard_name := n; guard_generation := generation t |} ∈ w_guards w ∧
  ((∃ t', tunnels (w_reg w') !! n = Some t' ∧ owner_ik t' = owner_ik t) ∨
   (tunnels (w_reg w') !! n = None ∧
    w_guards w ≡ₚ {| guard_name := n; guard_generation := generation t |} :: w_guards w')).
Proof.
  intros Hr Hs Ht. apply world_reachable_inv in Hr as I.
  split; [by apply (wi_live w I)|].
  destruct Hs as [r ik h g st st' gs _ Hreg|r ik h e st st' gs Hreg|g st gs gs' Hp]; simpl in *.
  - unfold register in Hreg. left. destruct (decide (name r = n)) as [<-|Hne].
    + rewrite Ht in Hreg. case_bool_decide; [done|]. simplify_eq. simpl.
      rewrite lookup_insert_eq. eexists. split; [done|]. by simpl.
    + destruct (match tunnels st !! name r with Some _ => _ | None => _ end); [done|].
      simplify_eq. simpl. rewrite lookup_insert_ne by done. eauto.
  - unfold register in Hreg. repeat case_match; simplify_eq; eauto.
  - unfold drop_guard, deregister. destruct (tunnels st !! guard_name g) as [e|] eqn:E; [|by eauto].
    destruct (Z.eqb_spec (generation e) (guard_generation g)) as [He|]; [|by eauto].
    simpl. destruct (decide (guard_name g = n)) as [<-|Hne].
    + right. rewrite lookup_delete_eq. split; [done|]. rewrite E in Ht. simplify_eq.
      rewrite Hp, He. by destruct g.
    + left. rewrite lookup_delete_ne by done. eauto.
Qed.

(** [register] keys by the name as declared while [lookup] folds the SNI to
    lower case: a registration whose name has a capital is accepted, yet no
    SNI, in any spelling, is routed to it, and it does not keep another
    identity from taking the lower-case spelling. *)
Theorem mixed_case_registration_unreachable reg ik (h : H) st g st' :
  to_ascii_lowercase (name reg) ≠ name reg →
  register reg ik h st = (Ok g, st') →
  (∀ sni, lookup_name sni st' = lookup_name sni st) ∧
  (∀ ik' reg' h', name reg' = to_ascii_lowercase (name reg) →
     (∃ g' st'', register reg' ik' h' st' = (Ok g', st'')) ↔
     (∃ g' st'', register reg' ik' h' st = (Ok g', st''))).
Proof.
  intros Hn Hr. unfold register in Hr.
  destruct (match tunnels st !! name reg with Some _ => _ | None => _ end); [done|].
  simplify_eq. split.
  - intros sni. unfold lookup_name. simpl. rewrite lookup_insert_ne; [done|].
    intros E. apply Hn. rewrite E. apply to_ascii_lowercase_idem.
  - intros ik' reg' h' E'. unfold register. simpl. rewrite lookup_insert_ne by congruence.
    destruct (match tunnels st !! name reg' with Some _ => _ | None => _ end); naive_solver.
Qed.
End registry_laws.

(** ** The driver *)

Section driver_laws.
Context {Reply Stream : Type}.

Lemma fst_pairs {A B} (b : B) (l : list A) : ((λ a, (a, b)) <$> l).*1 = l.
Proof. induction l as [|a l IH]; [done|]. cbn. by f_equal. Qed.

Lemma drive_accounts (turns : list (@Polls Reply Stream)) d :
  let '(ended, d') := drive turns d in
  (answered d').*1 ++ pending d' = (answered d).*1 ++ pending d ++ received turns d ∧
  answered d `prefix_of` answered d' ∧
  (ended = true → pending d' = []).
Proof.
  revert d. induction turns as [|p turns IH]; intros d; cbn [drive received].
  { rewrite app_nil_r. done. }
  assert (match drive_turn p d with
          | inl d' | inr (d', _) =>
              (answered d').*1 ++ pending d' =
              (answered d).*1 ++ pending d ++
                (if open_rx_closed d then []
                 else match poll_recv p with OpenReady r => [r] | _ => [] end) ∧
              answered d `prefix_of` answered d'
          end ∧ ∀ d', drive_turn p d = inl d' → pending d' = []) as [Hturn Hend].
  { unfold drive_turn. destruct d as [pd cl an], p as [[] [] []], cl; destruct pd; simpl;
      (split; [|intros; by simplify_eq/=]); (split; [|eauto using prefix_app_r]);
      rewrite ?fmap_app; cbn; rewrite ?fmap_app, ?fst_pairs, ?app_nil_r, <- ?app_assoc; try done. }
  destruct (drive_turn p d) as [d1|[d1 b]] eqn:Ed.
  - rewrite app_nil_r. destruct Hturn. split_and!; [done|done|]. intros _. by apply Hend.
  - specialize (IH d1). destruct (drive turns d1) as [ended d'].
    destruct IH as (E & Hp & He), Hturn as (E1 & Hp1).
    split_and!; [|by etrans|done]. rewrite E, app_assoc, E1, <- !app_assoc. done.
Qed.

(** The tunnel driver answers stream-open requests one for one and in the
    order they came: at any moment the replies sent so far, followed by the
    requests still queued, are exactly the requests received; once the
    connection has ended none is left without an answer. *)
Theorem driver_answers_every_open (turns : list (@Polls Reply Stream)) :
  let '(ended, d) := drive turns DriverState_new in
  (answered d).*1 ++ pending d = received turns DriverState_new ∧
  (ended = true → (answered d).*1 = received turns DriverState_new).
Proof.
  pose proof (drive_accounts turns DriverState_new) as Hd.
  destruct (drive turns DriverState_new) as [ended d].
  destruct Hd as (E & _ & He). simpl in E. split; [done|].
  intros Hend. by rewrite <- E, He, app_nil_r.
Qed.
End driver_laws.
End Tunnel.

(** ** Witnesses *)
Module TunnelWitness.
Import Tunnel.
Definition box : Registration :=
  {| name := "svc.alice.reach.example"; allowed_services := {["443"; "git-ssh"]} |}.
Definition order : list string := elements (allowed_services box).

Lemma registration_roundtrip_witness :
  read_registration (write_registration box order ++ [Byte.x00]) = Ok (box, [Byte.x00]).
Proof.
  apply (registration_roundtrip box order [Byte.x00]).
  - reflexivity.
  - discriminate.
  - split; [reflexivity|]. vm_compute. discriminate.
  - apply (bool_decide_unpack _). vm_compute. exact I.
  - vm_compute. discriminate.
Defined.

Definition alice : bytes := [Byte.x0a].
Definition w1 : @World nat :=
  {| w_reg := (register box alice 7%nat RegistryState_new).2;
     w_guards := [{| guard_name := name box; guard_generation := 0 |}] |}.
Definition live : RegisteredTunnel nat :=
  {| handle := 7%nat; rt_allowed_services := allowed_services box; owner_ik := alice;
     generation := 0 |}.
Definition refused : @World nat :=
  {| w_reg := (register box [Byte.x0b] 8%nat (w_reg w1)).2; w_guards := w_guards w1 |}.

(** Another identity asks for the name: the entry keeps its owner. *)
Lemma registry_single_writer_witness :
  world_step w1 refused ∧
  {| guard_name := name box; guard_generation := generation live |} ∈ w_guards w1.
Proof.
  assert (world_step w1 refused) as Hs.
  { eapply (step_refused box [Byte.x0b] 8%nat). vm_compute. reflexivity. }
  split; [exact Hs|].
  apply (registry_single_writer w1 refused (name box) live).
  - eapply rtc_l, rtc_refl.
    apply (step_registered box alice 7%nat {| guard_name := name box; guard_generation := 0 |}
             RegistryState_new _ []); [vm_compute; reflexivity|reflexivity].
  - exact Hs.
  - reflexivity.
Defined.

Definition shouting : Registration := {| name := "Alice.example"; allowed_services := {["443"]} |}.
Lemma mixed_case_registration_witness :
  lookup_name "Alice.example" (register shouting alice 7%nat RegistryState_new).2 = None ∧
  lookup_name "alice.example" (register shouting alice 7%nat RegistryState_new).2 = None.
Proof.
  destruct (mixed_case_registration_unreachable shouting alice 7%nat RegistryState_new
    {| guard_name := name shouting; guard_generation := 0 |}
    (register shouting alice 7%nat RegistryState_new).2) as [Hl _];
    [vm_compute; discriminate | reflexivity |].
  split; rewrite Hl; reflexivity.
Defined.
End TunnelWitness.
