(* ===== verification/Auth.v ===== *)
(** * Key authentication of the control connection

    [crates/reachability-adapter/src/auth.rs]: the announce/challenge/response
    handshake and the registry of single-use nonces.  The nonce the OS generator
    draws is an argument of [issue].  [authenticate_box_connection] awaits the
    box between issuing the nonce and consuming it, so it is two steps:
    [auth_challenge] up to the challenge and [auth_response] from the response
    on; any number of other handshakes may run in between. *)

From Stdlib Require Import ZArith Lia.
From stdpp Require Import base decidable option list strings gmap.
From S2P Require Import Prelude Kotva Descriptor Tunnel.

Module Auth.
Definition TUNNEL_AUTH_DS : bytes := as_bytes "EPHOR-REACH-v0/tunnel-auth" ++ [Byte.x00].

Definition IK_LEN : nat := 32.
Definition NONCE_LEN : nat := 32.
Definition SIG_LEN : nat := 64.
Definition MAX_PENDING_NONCES : Z := 10000.

Inductive AuthError :=
| Io (error : string)
| Malformed (reason : string)
| RegistrationError (e : Tunnel.TunnelError)
| NonceReplayed
| BadSignature.

Record AuthAnnounce := { claimed_ik : bytes; registration : Tunnel.Registration }.
Record AuthenticatedRegistration := {
  ar_registration : Tunnel.Registration;
  authenticated_ik : bytes;
}.

Definition signing_preimage (nonce : bytes) (name : string) : bytes := nonce ++ as_bytes name.

(** [read_fixed::<N>]. *)
Definition read_fixed (n : nat) (s : bytes) : result AuthError (bytes * bytes) :=
  if (length s <? n)%nat then Err (Io Tunnel.unexpected_eof) else Ok (take n s, drop n s).

Definition read_announce (s : bytes) : result AuthError (AuthAnnounce * bytes) :=
  '(ik, s) ← read_fixed IK_LEN s;
  '(reg, s) ← map_err RegistrationError (Tunnel.read_registration s);
  Ok ({| claimed_ik := ik; registration := reg |}, s).
Definition write_announce (a : AuthAnnounce) (order : list string) : bytes :=
  claimed_ik a ++ Tunnel.write_registration (registration a) order.
Definition read_challenge (s : bytes) : result AuthError (bytes * bytes) := read_fixed NONCE_LEN s.
Definition write_challenge (nonce : bytes) : bytes := nonce.
Definition read_response (s : bytes) : result AuthError (bytes * bytes) := read_fixed SIG_LEN s.
Definition write_response (sig : bytes) : bytes := sig.

(** ** The nonce registry *)

Record NonceState := { pending : gset bytes; order : list bytes }.
Definition NonceState_new : NonceState := {| pending := ∅; order := [] |}.

(** Evict at capacity, then record the drawn nonce. *)
Definition issue (nonce : bytes) (st : NonceState) : NonceState :=
  let st :=
    if MAX_PENDING_NONCES <=? Z.of_nat (length (order st)) then
      match order st with
      | oldest :: rest => {| pending := pending st ∖ {[oldest]}; order := rest |}
      | [] => st
      end
    else st in
  {| pending := {[nonce]} ∪ pending st; order := order st ++ [nonce] |}.

Definition consume (nonce : bytes) (st : NonceState) : bool * NonceState :=
  (bool_decide (nonce ∈ pending st), {| pending := pending st ∖ {[nonce]}; order := order st |}).

(** ** The handshake *)

Section handshake.
Context `{KI : KotvaIdentity}.

(** A control connection that has been challenged and owes its response. *)
Record Challenged := { ch_announce : AuthAnnounce; ch_nonce : bytes }.

(** [read_announce], [issue], [write_challenge]: the challenge to send, what
    is left of the inbound bytes, and the connection waiting. *)
Definition auth_challenge (s nonce : bytes) (st : NonceState)
    : result AuthError (bytes * Challenged * bytes) * NonceState :=
  match read_announce s with
  | Err e => (Err e, st)
  | Ok (a, s) =>
      (Ok (write_challenge nonce, {| ch_announce := a; ch_nonce := nonce |}, s), issue nonce st)
  end.

(** From [read_response] to the end. *)
Definition auth_response (ch : Challenged) (s : bytes) (st : NonceState)
    : result AuthError (AuthenticatedRegistration * bytes) * NonceState :=
  match read_response s with
  | Err e => (Err e, st)
  | Ok (sig, s) =>
      let '(live, st) := consume (ch_nonce ch) st in
      if negb live then (Err NonceReplayed, st)
      else
        let a := ch_announce ch in
        let preimage := signing_preimage (ch_nonce ch) (Tunnel.name (registration a)) in
        match verify_domain (claimed_ik a) TUNNEL_AUTH_DS preimage sig with
        | Err _ => (Err BadSignature, st)
        | Ok _ =>
            (Ok ({| ar_registration := registration a; authenticated_ik := claimed_ik a |}, s), st)
        end
  end.

(** The box's side: what it writes first, and what it answers a challenge. *)
Definition box_announce (ik : IdentityKey) (reg : Tunnel.Registration) (order : list string) : bytes :=
  write_announce {| claimed_ik := public ik; registration := reg |} order.
Definition box_respond (ik : IdentityKey) (reg : Tunnel.Registration) (s : bytes)
    : result AuthError (bytes * bytes) :=
  '(nonce, s) ← read_challenge s;
  let sig := sign_domain ik TUNNEL_AUTH_DS (signing_preimage nonce (Tunnel.name reg)) in
  if (length sig =? SIG_LEN)%nat then Ok (write_response sig, s)
  else Err (Malformed "IK signature was not 64 bytes").
End handshake.

(** ** Nonces are single-use *)

Lemma read_fixed_app n a rest :
  length a = n → read_fixed n (a ++ rest) = Ok (a, rest).
Proof.
  intros <-. unfold read_fixed. rewrite length_app, take_app_length, drop_app_length.
  destruct (Nat.ltb_spec (length a + length rest) (length a)); [lia|done].
Qed.

Lemma read_fixed_inv n s a rest :
  read_fixed n s = Ok (a, rest) → s = a ++ rest ∧ length a = n.
Proof.
  unfold read_fixed. destruct (Nat.ltb_spec (length s) n); [done|]. intros [= <- <-].
  by rewrite take_drop, length_take_le.
Qed.

Inductive NonceOp := OpIssue (nonce : bytes) | OpConsume (nonce : bytes).
Definition run_nonce_op (st : NonceState) (o : NonceOp) : NonceState :=
  match o with OpIssue n => issue n st | OpConsume n => (consume n st).2 end.
Definition issues (nonce : bytes) (_ : NonceState) (o : NonceOp) : bool :=
  match o with OpIssue n => bool_decide (n = nonce) | OpConsume _ => false end.
Definition accepts (nonce : bytes) (st : NonceState) (o : NonceOp) : bool :=
  match o with OpConsume n => bool_decide (n = nonce) && (consume n st).1 | OpIssue _ => false end.
(** How often a history issues a nonce, and how often it accepts it. *)
Definition n_issued (nonce : bytes) (ops : list NonceOp) (st : NonceState) : nat :=
  count_run run_nonce_op (issues nonce) ops st.
Definition n_accepted (nonce : bytes) (ops : list NonceOp) (st : NonceState) : nat :=
  count_run run_nonce_op (accepts nonce) ops st.

Lemma pending_run o st nonce :
  nonce ∈ pending (run_nonce_op st o) →
  (nonce ∈ pending st ∧ accepts nonce st o = false) ∨ issues nonce st o = true.
Proof.
  destruct o as [n|n]; simpl.
  - intros [->%elem_of_singleton|Hin]%elem_of_union; [right; by apply bool_decide_eq_true|].
    left. split; [|done]. case_match; [|done]. case_match; simpl in *; set_solver.
  - intros [Hin Hne]%elem_of_difference. left. split; [done|].
    rewrite bool_decide_false by set_solver. done.
Qed.

Lemma accepts_bounded nonce ops st :
  (n_accepted nonce ops st ≤
   (if bool_decide (nonce ∈ pending st) then 1 else 0) + n_issued nonce ops st)%nat.
Proof.
  pose proof (single_use run_nonce_op (λ st, bool_decide (nonce ∈ pending st))
                (issues nonce) (accepts nonce) ops st) as H.
  apply H; clear H.
  - intros s [n|n]; simpl; [done|]. intros [<-%bool_decide_eq_true Hp]%andb_true_iff. done.
  - intros s o H%bool_decide_eq_true. rewrite bool_decide_eq_true. by apply pending_run.
Qed.

Lemma size_list_to_set_le (l : list bytes) : (size (list_to_set l : gset bytes) ≤ length l)%nat.
Proof.
  induction l as [|x l IH]; [done|]. simpl. rewrite size_union_alt, size_singleton.
  assert (size (list_to_set l ∖ {[x]} : gset bytes) ≤ size (list_to_set l : gset bytes))%nat
    by (apply subseteq_size; set_solver). lia.
Qed.

Definition bounded (st : NonceState) : Prop :=
  Z.of_nat (length (order st)) ≤ MAX_PENDING_NONCES ∧ pending st ⊆ list_to_set (order st).

Lemma run_bounded ops st : bounded st → bounded (foldl run_nonce_op st ops).
Proof.
  revert st. induction ops as [|o ops IH]; intros st Hb; [done|]. simpl. apply IH.
  destruct Hb as [Hl Hs], o as [n|n]; simpl; [|split; simpl; [done|set_solver]].
  unfold issue. destruct (Z.leb_spec MAX_PENDING_NONCES (Z.of_nat (length (order st)))).
  - destruct (order st) as [|old rest] eqn:E; [unfold MAX_PENDING_NONCES in *; simpl in *; lia|].
    split; simpl in *; [rewrite length_app; simpl; lia|].
    rewrite list_to_set_app_L. set_solver.
  - split; simpl; [rewrite length_app; simpl; lia|]. rewrite list_to_set_app_L. set_solver.
Qed.

(** C10: Over any interleaving of issues and consumes from any number of
    connections, a nonce is accepted no more often than the generator drew it,
    so at most once while draws do not repeat; and never more than
    [MAX_PENDING_NONCES] nonces are live. *)
Theorem nonces_single_use ops :
  (∀ nonce, (n_accepted nonce ops NonceState_new ≤ n_issued nonce ops NonceState_new)%nat) ∧
  Z.of_nat (size (pending (foldl run_nonce_op NonceState_new ops))) ≤ MAX_PENDING_NONCES.
Proof.
  split.
  - intros nonce. pose proof (accepts_bounded nonce ops NonceState_new) as H.
    by rewrite bool_decide_false in H by set_solver.
  - destruct (run_bounded ops NonceState_new) as [Hl Hs].
    { split; simpl; [unfold MAX_PENDING_NONCES; lia|set_solver]. }
    apply subseteq_size in Hs.
    pose proof (size_list_to_set_le (order (foldl run_nonce_op NonceState_new ops))). lia.
Qed.

(** ** The handshake is complete and sound *)

Lemma issue_pending nonce st : nonce ∈ pending (issue nonce st).
Proof. unfold issue. simpl. set_solver. Qed.

(** What the reader needs of a registration, as in the frame round trip. *)
Record sendable (reg : Tunnel.Registration) (ord : list string) : Prop := {
  send_order : ord ≡ₚ elements (Tunnel.allowed_services reg);
  send_name : Tunnel.name reg ≠ EmptyString;
  send_name_ok : Tunnel.field_ok (Tunnel.name reg);
  send_services_ok : Forall Tunnel.field_ok ord;
  send_count : Z.of_nat (size (Tunnel.allowed_services reg)) ≤ Tunnel.MAX_REGISTRATION_SERVICES;
}.

Lemma read_write_announce a ord rest :
  length (claimed_ik a) = IK_LEN → sendable (registration a) ord →
  read_announce (write_announce a ord ++ rest) = Ok (a, rest).
Proof.
  intros Hik []. unfold read_announce, write_announce.
  rewrite <- app_assoc, read_fixed_app by done. cbn [mbind result_bind].
  rewrite Tunnel.read_write_registration by done. cbn [map_err mbind result_bind].
  by destruct a.
Qed.

Section handshake_laws.
Context `{KI : KotvaIdentity}.

(** An honest box gets in: announcing its registration under its own key and
    answering the challenge as [authenticate_as_box] does, it is authenticated
    with that registration and that key as long as its nonce is still live
    when the response arrives, however the other handshakes interleaved; the
    bytes behind the response are left for the mux. *)
Theorem honest_box_authenticates `{!KotvaIdentityLaws} ik reg ord nonce st rest :
  sendable reg ord →
  length (public ik) = IK_LEN → length nonce = NONCE_LEN →
  (∀ m, length (sign_domain ik TUNNEL_AUTH_DS m) = SIG_LEN) →
  ∃ ch resp,
    auth_challenge (box_announce ik reg ord) nonce st
      = (Ok (write_challenge nonce, ch, []), issue nonce st) ∧
    nonce ∈ pending (issue nonce st) ∧
    box_respond ik reg (write_challenge nonce) = Ok (resp, []) ∧
    ∀ st', nonce ∈ pending st' →
      auth_response ch (resp ++ rest) st'
      = (Ok ({| ar_registration := reg; authenticated_ik := public ik |}, rest),
         (consume nonce st').2).
Proof.
  intros Hs Hik Hn Hsig.
  set (a := {| claimed_ik := public ik; registration := reg |}).
  exists {| ch_announce := a; ch_nonce := nonce |},
    (write_response (sign_domain ik TUNNEL_AUTH_DS (signing_preimage nonce (Tunnel.name reg)))).
  split_and!.
  - unfold auth_challenge, box_announce. rewrite <- (app_nil_r (write_announce _ _)).
    by rewrite (read_write_announce a).
  - apply issue_pending.
  - unfold box_respond, read_challenge, write_challenge.
    pose proof (read_fixed_app NONCE_LEN nonce [] Hn) as Hr. rewrite app_nil_r in Hr.
    rewrite Hr. cbn [mbind result_bind]. by rewrite Hsig, Nat.eqb_refl.
  - intros st' Hp. unfold auth_response, read_response, write_response.
    rewrite read_fixed_app by apply Hsig. simpl. rewrite bool_decide_true by done. simpl.
    by rewrite sign_verify.
Qed.

Lemma auth_response_inv ch s st ar rest st' :
  auth_response ch s st = (Ok (ar, rest), st') →
  ∃ sig, s = sig ++ rest ∧ length sig = SIG_LEN ∧ ch_nonce ch ∈ pending st ∧
    st' = (consume (ch_nonce ch) st).2 ∧
    ar = {| ar_registration := registration (ch_announce ch);
            authenticated_ik := claimed_ik (ch_announce ch) |} ∧
    verify_domain (authenticated_ik ar) TUNNEL_AUTH_DS
      (signing_preimage (ch_nonce ch) (Tunnel.name (ar_registration ar))) sig = Ok tt.
Proof.
  unfold auth_response. destruct (read_response s) as [[sig s']|] eqn:Hr; [|done].
  apply read_fixed_inv in Hr as [-> Hl]. simpl.
  case_bool_decide as Hp; simpl; [|done].
  destruct (verify_domain _ _ _ sig) as [[]|] eqn:Hv; [|done].
  intros [= <- <- <-]. exists sig. by split_and!.
Qed.

(** The tags of the signed objects of this workspace. *)
Definition object_tags : list bytes := [DESCRIPTOR_DS; TARIFF_DS; USAGE_RECEIPT_DS].

Lemma tunnel_tag_separate ds m m' :
  ds ∈ object_tags → ds ++ m ≠ TUNNEL_AUTH_DS ++ m'.
Proof.
  unfold object_tags. intros Hin Heq.
  repeat (apply elem_of_cons in Hin as [->|Hin]; [by vm_compute in Heq|]).
  by apply elem_of_nil in Hin.
Qed.

(** C9: A registration is accepted only on a live nonce, which it uses up, and
    only with a signature for this very challenge: a signature some key made
    over a descriptor, a tariff or a receipt is refused, and one it made as a
    tunnel response is accepted only if it was made by the claimed key, for
    this nonce and for this name. *)
Theorem accepted_response_is_bound `{!KotvaUnforgeable} ch s st ar rest st' :
  auth_response ch s st = (Ok (ar, rest), st') → length (ch_nonce ch) = NONCE_LEN →
  ch_nonce ch ∈ pending st ∧ ch_nonce ch ∉ pending st' ∧
  ∃ sig, s = sig ++ rest ∧
    (∀ ik ds m, ds ∈ object_tags → sig ≠ sign_domain ik ds m) ∧
    (∀ ik nonce name, length nonce = NONCE_LEN →
       sig = sign_domain ik TUNNEL_AUTH_DS (signing_preimage nonce name) →
       authenticated_ik ar = public ik ∧ nonce = ch_nonce ch ∧
       name = Tunnel.name (ar_registration ar)).
Proof.
  intros (sig & -> & Hl & Hp & -> & Har & Hv)%auth_response_inv Hn.
  split_and!; [done|simpl; set_solver|]. exists sig. split_and!; [done| |].
  - intros ik ds m Hds ->. apply verify_binding in Hv as [_ Heq].
    by eapply tunnel_tag_separate.
  - intros ik nonce name Hn' ->. apply verify_binding in Hv as [-> Heq].
    apply app_inv_head in Heq. apply app_inj_1 in Heq as [<- Hname]; [|congruence].
    split_and!; [done|done|].
    rewrite <- (String.string_of_list_byte_of_string name), <- Hname.
    by rewrite String.string_of_list_byte_of_string.
Qed.
End handshake_laws.
End Auth.

(** ** Witnesses *)
Module AuthWitness.
Import Auth.
Definition key : bytes := replicate 32 Byte.x07.
Definition nonce : bytes := replicate 32 Byte.x2a.
Definition reg : Tunnel.Registration := {| Tunnel.name := "a.example"; Tunnel.allowed_services := {["443"]} |}.
Definition message : bytes := TUNNEL_AUTH_DS ++ signing_preimage nonce "a.example".

Lemma reg_sendable : sendable reg (elements (Tunnel.allowed_services reg)).
Proof.
  split; [reflexivity|discriminate| | |vm_compute; discriminate].
  - split; [reflexivity|]. vm_compute. discriminate.
  - apply (bool_decide_unpack _). vm_compute. exact I.
Qed.

(** A scheme with 64-byte signatures (every key signs with itself, twice). *)
Module Short.
#[export] Instance identity : KotvaIdentity := {|
  IdentityKey := bytes; IdentityError := unit; public ik := ik;
  sign_domain ik _ _ := take 64 (ik ++ ik);
  verify_domain pk _ _ sig := if decide (sig = take 64 (pk ++ pk)) then Ok tt else Err tt |}.
#[export] Instance laws : KotvaIdentityLaws.
Proof. constructor. intros. simpl. by rewrite decide_True. Qed.
End Short.

(** An unforgeable scheme in which the signature used below is 64 bytes. *)
Module Binding.
Definition sign (ik m : bytes) : bytes :=
  if decide (ik = key ∧ m = message) then replicate 64 Byte.x00
  else Byte.x01 :: Reference.seal ik m.
Lemma sign_inj ik m ik' m' : sign ik m = sign ik' m' → ik = ik' ∧ m = m'.
Proof.
  unfold sign. repeat case_decide; try done; intros E; simplify_eq/=.
  - naive_solver congruence.
  - by apply Reference.seal_inj.
Qed.
#[export] Instance identity : KotvaIdentity := {|
  IdentityKey := bytes; IdentityError := unit; public ik := ik;
  sign_domain ik ds m := sign ik (ds ++ m);
  verify_domain pk ds m sig := if decide (sig = sign pk (ds ++ m)) then Ok tt else Err tt |}.
#[export] Instance unforgeable : KotvaUnforgeable.
Proof.
  constructor. intros ik ds m pk ds' m'. simpl. case_decide as E; [|done].
  intros _. by apply sign_inj in E as [-> ->].
Qed.
End Binding.

Lemma honest_box_authenticates_witness :
  ∃ ch resp,
    auth_challenge (@box_announce Short.identity key reg (elements (Tunnel.allowed_services reg)))
      nonce NonceState_new = (Ok (write_challenge nonce, ch, []), issue nonce NonceState_new) ∧
    @box_respond Short.identity key reg (write_challenge nonce) = Ok (resp, []).
Proof.
  destruct (@honest_box_authenticates Short.identity Short.laws key reg _ nonce NonceState_new [] reg_sendable)
    as (ch & resp & H1 & _ & H2 & _).
  - reflexivity.
  - reflexivity.
  - intros m. reflexivity.
  - exists ch, resp. split; [exact H1|exact H2].
Defined.

Definition ch : Challenged :=
  {| ch_announce := {| claimed_ik := key; registration := reg |}; ch_nonce := nonce |}.

Lemma accepted_response_is_bound_witness :
  nonce ∉ pending (@auth_response Binding.identity ch (replicate 64 Byte.x00) (issue nonce NonceState_new)).2.
Proof.
  destruct (@accepted_response_is_bound Binding.identity Binding.unforgeable ch (replicate 64 Byte.x00)
    (issue nonce NonceState_new)
    {| ar_registration := reg; authenticated_ik := key |} []
    (@auth_response Binding.identity ch (replicate 64 Byte.x00) (issue nonce NonceState_new)).2)
    as (_ & Hn & _).
  - reflexivity.
  - reflexivity.
  - exact Hn.
Defined.
End AuthWitness.
