(* ===== verification/Ingress.v ===== *)
(** * The adapter server

    [crates/reachability-adapter/src/ingress.rs]: accepting a box's control
    connection and forwarding a public connection.  The server's state is its
    tunnel registry and its nonce registry.  Opening a stream on a tunnel and
    writing to it are yamux's business: their outcomes are arguments, and what
    the handler does to the client socket and the tunnel is the list of actions
    it returns. *)

From Stdlib Require Import ZArith Lia.
From stdpp Require Import base decidable option list strings gmap.
From S2P Require Import Prelude Kotva Descriptor Sni Tunnel Auth.

Module Ingress.
Inductive IngressError :=
| SniErr (e : Sni.SniError)
| UnregisteredName (name : string)
| ServiceNotAllowed (name service : string)
| TunnelErr (e : Tunnel.TunnelError).

Inductive TunnelAcceptError :=
| AcceptAuth (e : Auth.AuthError)
| AcceptTunnel (e : Tunnel.TunnelError)
| AcceptRegistry (e : Tunnel.RegistryError).

Section server.
Context `{KI : KotvaIdentity} {H : Type}.

Record AdapterServer := { registry : Tunnel.RegistryState H; nonces : Auth.NonceState }.
Definition AdapterServer_new : AdapterServer :=
  {| registry := Tunnel.RegistryState_new; nonces := Auth.NonceState_new |}.

(** [accept_box_connection], up to the wait for the box's response. *)
Definition accept_box_challenge (s nonce : bytes) (srv : AdapterServer)
    : result TunnelAcceptError (bytes * Auth.Challenged * bytes) * AdapterServer :=
  let '(res, ns) := Auth.auth_challenge s nonce (nonces srv) in
  (map_err AcceptAuth res, {| registry := registry srv; nonces := ns |}).

(** The rest of it: authenticate, spawn the driver ([h] is the handle
    [TunnelHandle::spawn] returns), register.  The guard is what the clean-up
    task drops when the driver ends. *)
Definition accept_box_response (ch : Auth.Challenged) (s : bytes) (h : H) (srv : AdapterServer)
    : result TunnelAcceptError Tunnel.RegistrationGuard * AdapterServer :=
  match Auth.auth_response ch s (nonces srv) with
  | (Err e, ns) => (Err (AcceptAuth e), {| registry := registry srv; nonces := ns |})
  | (Ok (authed, _), ns) =>
      let '(res, reg) := Tunnel.register (Auth.ar_registration authed)
                           (Auth.authenticated_ik authed) h (registry srv) in
      (map_err AcceptRegistry res, {| registry := reg; nonces := ns |})
  end.

Definition service_allowed (allowed : gset string) (service_id : string) : bool :=
  bool_decide (service_id ∈ allowed).

(** What the handler does with its two ends. *)
Inductive Action :=
| FailClosed                              (* reset the client connection *)
| WriteTunnel (h : H) (b : bytes)         (* onto the stream opened on the tunnel *)
| Splice (h : H) (rest : list Sni.Read).  (* copy the rest both ways until either side closes *)

(** [open_stream] and the outcome of [write_all] are the mux's. *)
Definition handle_ingress_connection (open_stream : H → result Tunnel.TunnelError unit)
    (write_all : H → bytes → result string unit)
    (stream : list Sni.Read) (service_id : string) (srv : AdapterServer)
    : result IngressError unit * list Action :=
  match Sni.peek_client_hello stream with
  | (Err e, _) => (Err (SniErr e), [FailClosed])
  | (Ok peek, rest) =>
      match Tunnel.lookup_name (Sni.server_name peek) (registry srv) with
      | None => (Err (UnregisteredName (Sni.server_name peek)), [FailClosed])
      | Some lookup =>
          if negb (service_allowed (Tunnel.tl_allowed_services lookup) service_id) then
            (Err (ServiceNotAllowed (Sni.server_name peek) service_id), [FailClosed])
          else
            let h := Tunnel.tl_handle lookup in
            match open_stream h with
            | Err e => (Err (TunnelErr e), [FailClosed])
            | Ok _ =>
                match write_all h (Sni.raw peek) with
                | Err e => (Err (TunnelErr (Tunnel.Io e)), [FailClosed])
                | Ok _ => (Ok tt, [WriteTunnel h (Sni.raw peek); Splice h rest])
                end
            end
      end
  end.

(** ** Properties *)

(** A public connection is either reset and nothing else, or forwarded to the
    one tunnel registered for its SNI whose box allows the service, and then
    the box sees exactly the bytes the client sent: the ones buffered while
    peeking, verbatim, followed by the rest of the stream. *)
Theorem ingress_forwards_or_resets open_stream write_all stream service srv :
  Forall Sni.read_ok stream →
  match handle_ingress_connection open_stream write_all stream service srv with
  | (Ok _, acts) =>
      ∃ name t raw rest,
        Sni.try_parse (Sni.stream_bytes stream) = Ok (Sni.Complete name) ∧
        Tunnel.tunnels (registry srv) !! to_ascii_lowercase name = Some t ∧
        service ∈ Tunnel.rt_allowed_services t ∧
        acts = [WriteTunnel (Tunnel.handle t) raw; Splice (Tunnel.handle t) rest] ∧
        raw ++ Sni.stream_bytes rest = Sni.stream_bytes stream
  | (Err _, acts) => acts = [FailClosed]
  end.
Proof using.
  intros Hs. unfold handle_ingress_connection.
  destruct (Sni.peek_client_hello stream) as [[p|e] rest] eqn:Hp; [|done].
  destruct (Tunnel.lookup_name (Sni.server_name p) (registry srv)) as [lk|] eqn:Hl; [|done].
  unfold service_allowed. case_bool_decide as Ha; simpl; [|done].
  destruct (open_stream _); [|done]. destruct (write_all _ _); [|done].
  pose proof (Sni.peek_loop_spec [] stream ltac:(cbn [length]; lia) Hs) as Hspec.
  unfold Sni.peek_client_hello in Hp. rewrite Hp in Hspec. destruct Hspec as (Hc & Hb & _).
  unfold Tunnel.lookup_name in Hl.
  destruct (Tunnel.tunnels (registry srv) !! to_ascii_lowercase (Sni.server_name p))
    as [t|] eqn:Ht; [|done]. simpl in Hl. injection Hl as <-. simpl in Ha.
  exists (Sni.server_name p), t, (Sni.raw p), rest. cbn [app] in Hb. split_and!; try done.
  rewrite <- Hb. by apply Sni.try_parse_complete_app.
Qed.

(** A control connection changes the registry only by registering what it
    was authenticated for: the response verified under the owner's key for
    this connection's live nonce and this name, the name was free or already
    owned by that key, and no other name is affected; a refused connection
    leaves the registry as it was. *)
Theorem accept_registers_authenticated_only ch s h srv :
  match accept_box_response ch s h srv with
  | (Ok g, srv') =>
      let a := Auth.ch_announce ch in
      let n := Tunnel.name (Auth.registration a) in
      Auth.ch_nonce ch ∈ Auth.pending (nonces srv) ∧
      Auth.ch_nonce ch ∉ Auth.pending (nonces srv') ∧
      (∃ sig rest, s = sig ++ rest ∧
         verify_domain (Auth.claimed_ik a) Auth.TUNNEL_AUTH_DS
           (Auth.signing_preimage (Auth.ch_nonce ch) n) sig = Ok tt) ∧
      (∀ t, Tunnel.tunnels (registry srv) !! n = Some t → Tunnel.owner_ik t = Auth.claimed_ik a) ∧
      (∃ t, Tunnel.tunnels (registry srv') !! n = Some t ∧ Tunnel.handle t = h ∧
         Tunnel.owner_ik t = Auth.claimed_ik a ∧
         Tunnel.rt_allowed_services t = Tunnel.allowed_services (Auth.registration a)) ∧
      (∀ n', n' ≠ n → Tunnel.tunnels (registry srv') !! n' = Tunnel.tunnels (registry srv) !! n')
  | (Err _, srv') => registry srv' = registry srv
  end.
Proof using.
  unfold accept_box_response.
  destruct (Auth.auth_response ch s (nonces srv)) as [[[ar rest]|e] ns] eqn:Ha; [|done].
  apply Auth.auth_response_inv in Ha as (sig & -> & _ & Hp & -> & -> & Hv). simpl in Hv |- *.
  unfold Tunnel.register. simpl.
  destruct (Tunnel.tunnels (registry srv) !! _) as [t|] eqn:Ht.
  - case_bool_decide as Ho; [done|]. simpl. split; [done|]. split; [set_solver|].
    split; [by exists sig, rest|]. split; [by intros ? [= <-]|].
    rewrite lookup_insert_eq. split; [eexists; by split_and!|].
    intros n' Hn. by rewrite lookup_insert_ne.
  - simpl. split; [done|]. split; [set_solver|].
    split; [by exists sig, rest|]. split; [done|].
    rewrite lookup_insert_eq. split; [eexists; by split_and!|].
    intros n' Hn. by rewrite lookup_insert_ne.
Qed.

(** End to end: once a box is accepted under a lower-case name, a client
    whose ClientHello carries that name in any spelling, on a service the box
    allows, is forwarded to that box's tunnel. *)
Theorem accepted_box_is_reached ch s h srv g srv' open_stream write_all stream p rest service :
  accept_box_response ch s h srv = (Ok g, srv') →
  let reg := Auth.registration (Auth.ch_announce ch) in
  to_ascii_lowercase (Sni.server_name p) = Tunnel.name reg →
  Sni.peek_client_hello stream = (Ok p, rest) →
  service ∈ Tunnel.allowed_services reg →
  open_stream h = Ok tt → write_all h (Sni.raw p) = Ok tt →
  handle_ingress_connection open_stream write_all stream service srv'
  = (Ok tt, [WriteTunnel h (Sni.raw p); Splice h rest]).
Proof using.
  intros Hacc reg Hn Hp Hsvc Ho Hw. unfold handle_ingress_connection. rewrite Hp.
  unfold accept_box_response in Hacc.
  destruct (Auth.auth_response ch s (nonces srv)) as [[[ar r0]|e] ns] eqn:Ha; [|done].
  apply Auth.auth_response_inv in Ha as (_ & _ & _ & _ & _ & -> & _). simpl in Hacc.
  destruct (Tunnel.register _ _ h (registry srv)) as [res reg'] eqn:Hr.
  destruct res as [g'|]; [|done]. injection Hacc as _ <-.
  unfold Tunnel.register in Hr.
  destruct (match Tunnel.tunnels (registry srv) !! _ with Some _ => _ | None => _ end); [done|].
  injection Hr as _ <-. unfold Tunnel.lookup_name. simpl. rewrite Hn, lookup_insert_eq. simpl.
  unfold service_allowed. rewrite bool_decide_true by done. simpl. by rewrite Ho, Hw.
Qed.
End server.
Arguments AdapterServer : clear implicits.
Arguments Action : clear implicits.
End Ingress.

(** ** Witnesses *)
Module IngressWitness.
Import Ingress.
Definition srv : AdapterServer nat :=
  {| registry := Tunnel.RegistryState_new;
     nonces := Auth.issue AuthWitness.nonce Auth.NonceState_new |}.
Definition hello : Sni.ClientHello :=
  SniWitness.hello [Sni.server_name_extension [(0, as_bytes "A.Example")]].
Definition stream : list Sni.Read :=
  [Sni.ReadBytes (Sni.encode_record (Byte.x03, Byte.x01) hello)].
Definition open_ok (h : nat) : result Tunnel.TunnelError unit := Ok tt.
Definition write_ok (h : nat) (b : bytes) : result string unit := Ok tt.

Lemma ingress_forwards_or_resets_witness :
  (handle_ingress_connection open_ok write_ok stream "443" srv).2 = [FailClosed].
Proof.
  pose proof (ingress_forwards_or_resets open_ok write_ok stream "443" srv) as Hi.
  destruct (handle_ingress_connection open_ok write_ok stream "443" srv) as [[u|e] acts] eqn:E.
  - vm_compute in E. discriminate.
  - apply Hi. apply Forall_singleton. apply (bool_decide_unpack _). vm_compute. exact I.
Defined.

(** The box of the handshake, then a client that spells its name with capitals. *)
Lemma accepted_box_is_reached_witness :
  ∃ p rest,
    handle_ingress_connection open_ok write_ok stream "443"
      (@accept_box_response AuthWitness.Binding.identity nat AuthWitness.ch (replicate 64 Byte.x00) 7%nat srv).2
    = (Ok tt, [WriteTunnel 7%nat (Sni.raw p); Splice 7%nat rest]).
Proof.
  eexists _, _.
  eapply (@accepted_box_is_reached AuthWitness.Binding.identity nat AuthWitness.ch
    (replicate 64 Byte.x00) 7%nat srv {| Tunnel.guard_name := "a.example"; Tunnel.guard_generation := 0 |}
    _ open_ok write_ok stream).
  - reflexivity.
  - instantiate (1 := {| Sni.server_name := "A.Example";
                         Sni.raw := Sni.encode_record (Byte.x03, Byte.x01) hello |}). reflexivity.
  - vm_compute. reflexivity.
  - vm_compute. reflexivity.
  - reflexivity.
  - reflexivity.
Defined.
End IngressWitness.
