(* ===== verification/Base32.v ===== *)
(** * Lower-case base32

    [base32_lower] of [crates/gateway/src/alias_map.rs]; [authz.rs] carries the
    same function.  The accumulator is a [u32] that shifts old bits out. *)

From Stdlib Require Import ZArith Lia Ascii String.
From stdpp Require Import base decidable option list strings.
From S2P Require Import Prelude RustStr.
Local Open Scope Z_scope.

Module Base32.
Definition BASE32_LOWER : string := "abcdefghijklmnopqrstuvwxyz234567".
(** [BASE32_LOWER[d] as char]. *)
Definition digit_char (d : Z) : ascii :=
  default "a"%char (String.get (Z.to_nat d) BASE32_LOWER).

(** The inner [while nbits >= 5]: at most [nbits] rounds. *)
Fixpoint emit (fuel : nat) (bits nbits : Z) : list Z * Z :=
  match fuel with
  | O => ([], nbits)
  | S fuel =>
      if 5 <=? nbits then
        let nbits := nbits - 5 in
        let '(ds, n) := emit fuel bits nbits in
        (Z.land (Z.shiftr bits nbits) 31 :: ds, n)
      else ([], nbits)
  end.

Fixpoint base32_loop (input : bytes) (bits nbits : Z) : list Z :=
  match input with
  | [] => if 0 <? nbits then [Z.land (Z.shiftl bits (5 - nbits) mod 2 ^ 32) 31] else []
  | b :: input =>
      let bits := Z.lor (Z.shiftl bits 8 mod 2 ^ 32) (b2z b) in
      let '(ds, nbits) := emit (Z.to_nat (nbits + 8)) bits (nbits + 8) in
      ds ++ base32_loop input bits nbits
  end.

(** The digits pushed, each as its character. *)
Definition base32_lower (input : bytes) : string :=
  String.string_of_list_ascii (digit_char <$> base32_loop input 0 0).

(** ** What it computes: the base-32 digits of the input as a number *)

Definition num (base : Z) (l : list Z) : Z := foldl (λ acc d, acc * base + d) 0 l.

Lemma num_from base l acc : foldl (λ acc d, acc * base + d) acc l = acc * base ^ Z.of_nat (length l) + num base l.
Proof.
  revert acc. induction l as [|d l IH]; intros acc; unfold num; [simpl; lia|].
  cbn [foldl length]. rewrite IH, (IH (0 * base + d)).
  rewrite Nat2Z.inj_succ, Z.pow_succ_r by lia. ring.
Qed.
Lemma num_app base l k : num base (l ++ k) = num base l * base ^ Z.of_nat (length k) + num base k.
Proof. unfold num. rewrite foldl_app. apply num_from. Qed.
Lemma num_cons base d l : num base (d :: l) = d * base ^ Z.of_nat (length l) + num base l.
Proof. unfold num at 1. cbn [foldl]. rewrite num_from. ring. Qed.

Definition digits_ok (base : Z) (l : list Z) : Prop := Forall (λ d, 0 ≤ d < base) l.

Lemma num_range base l : 0 < base → digits_ok base l → 0 ≤ num base l < base ^ Z.of_nat (length l).
Proof.
  intros Hb Hl. induction Hl as [|d l Hd Hl IH]; [done|].
  rewrite num_cons. cbn [length]. rewrite Nat2Z.inj_succ, Z.pow_succ_r by lia. nia.
Qed.

Lemma num_inj base l k :
  0 < base → digits_ok base l → digits_ok base k → length l = length k →
  num base l = num base k → l = k.
Proof.
  intros Hb Hl. revert k. induction Hl as [|d l Hd Hl IH]; intros [|e k] Hk Hlen E; try done.
  injection Hlen as Hlen. apply Forall_cons in Hk as [He Hk].
  rewrite !num_cons, Hlen in E.
  pose proof (num_range base l Hb Hl). pose proof (num_range base k Hb Hk). rewrite Hlen in *.
  assert (d = e) as -> by nia. f_equal. apply IH; try done. lia.
Qed.

(** The bits still pending: [nbits] low bits of [bits]. *)
Definition low (bits nbits : Z) : Z := bits mod 2 ^ nbits.

Lemma land31 x : Z.land x 31 = x mod 32.
Proof. change 31 with (Z.ones 5). by rewrite Z.land_ones. Qed.

Lemma emit_spec fuel bits nbits ds n :
  0 ≤ nbits → (Z.to_nat nbits ≤ fuel)%nat → emit fuel bits nbits = (ds, n) →
  0 ≤ n < 5 ∧ digits_ok 32 ds ∧ nbits = 5 * Z.of_nat (length ds) + n ∧
  low bits nbits = num 32 ds * 2 ^ n + low bits n.
Proof.
  revert nbits ds. induction fuel as [|fuel IH]; intros nbits ds Hn Hf; cbn [emit].
  { intros [= <- <-]. assert (nbits = 0) as -> by lia. split_and!; try lia; first [by apply Forall_nil_2 | by unfold low, num].  }
  destruct (Z.leb_spec 5 nbits) as [H5|H5].
  2:{ intros [= <- <-]. split_and!; try lia;
    first [by apply Forall_nil_2 | cbn [length]; lia | by unfold num]. }
  destruct (emit fuel bits (nbits - 5)) as [ds1 n1] eqn:E. intros [= <- <-].
  apply IH in E as (Hn1 & Hds & Hlen & Hlow); [|lia..].
  rewrite land31, Z.shiftr_div_pow2 by lia. split_and!.
  - lia.
  - lia.
  - constructor; [apply Z.mod_pos_bound; lia|done].
  - cbn [length]. lia.
  - rewrite num_cons, Z.mul_add_distr_r, <- Z.add_assoc, <- Hlow. unfold low.
    replace (2 ^ nbits) with (2 ^ (nbits - 5) * 32)
      by (change 32 with (2 ^ 5); rewrite <- Z.pow_add_r by lia; f_equal; lia).
    rewrite Z.rem_mul_r by (try apply Z.pow_nonzero; lia).
    assert (32 ^ Z.of_nat (length ds1) * 2 ^ n1 = 2 ^ (nbits - 5)) as Hp.
    { change 32 with (2 ^ 5). rewrite <- Z.pow_mul_r, <- Z.pow_add_r by lia. f_equal. lia. }
    rewrite <- Z.mul_assoc, Hp. lia.
Qed.

Lemma mod_mod_divide a b c : 0 < b → 0 < c → (a mod (b * c)) mod b = a mod b.
Proof.
  intros Hb Hc. rewrite Z.rem_mul_r by lia. rewrite Z.mul_comm, Z_mod_plus_full.
  apply Zmod_mod.
Qed.

(** A byte does not meet a multiple of 256: [|] is [+]. *)
Lemma lor_byte x b : Z.lor (x * 256) (b2z b) = x * 256 + b2z b.
Proof.
  pose proof (b2z_range b) as Hb. rewrite <- Z.add_lor_land.
  assert (Z.land (x * 256) (b2z b) = 0) as ->; [|lia].
  change 256 with (2 ^ 8). rewrite <- Z.shiftl_mul_pow2 by lia.
  apply Z.bits_inj'. intros n Hn. rewrite Z.land_spec, Z.shiftl_spec, Z.bits_0 by done.
  destruct (Z.lt_ge_cases n 8).
  - by rewrite Z.testbit_neg_r by lia.
  - rewrite <- (Z.mod_small (b2z b) (2 ^ 8)) by lia.
    rewrite Z.mod_pow2_bits_high by lia. apply andb_false_r.
Qed.

(** Shifting a byte in, with the [u32]'s overflow: the low bits are right. *)
Lemma low_shift bits b r :
  0 ≤ r < 5 → low (Z.lor (Z.shiftl bits 8 mod 2 ^ 32) (b2z b)) (r + 8) = low bits r * 256 + b2z b.
Proof.
  intros Hr. pose proof (b2z_range b) as Hb. rewrite Z.shiftl_mul_pow2 by lia.
  change (2 ^ 32) with (2 ^ 24 * 2 ^ 8). rewrite Z.mul_mod_distr_r by lia.
  change (2 ^ 8) with 256. rewrite lor_byte. unfold low.
  rewrite Z.pow_add_r by lia. change (2 ^ 8) with 256.
  assert (0 < 2 ^ r) by (apply Z.pow_pos_nonneg; lia).
  assert (0 ≤ bits mod 2 ^ r < 2 ^ r) by (apply Z.mod_pos_bound; lia).
  rewrite <- Zplus_mod_idemp_l, Z.mul_mod_distr_r by lia.
  replace (2 ^ 24) with (2 ^ r * 2 ^ (24 - r)) by (rewrite <- Z.pow_add_r by lia; f_equal; lia).
  rewrite mod_mod_divide by (try apply Z.pow_pos_nonneg; lia).
  apply Z.mod_small. nia.
Qed.

Lemma final_digit bits r :
  0 < r < 5 →
  Z.land (Z.shiftl bits (5 - r) mod 2 ^ 32) 31 = low bits r * 2 ^ (5 - r).
Proof.
  intros Hr. rewrite land31, Z.shiftl_mul_pow2 by lia.
  change (2 ^ 32) with (32 * 2 ^ 27). rewrite mod_mod_divide by lia. unfold low.
  replace 32 with (2 ^ r * 2 ^ (5 - r)) by (rewrite <- Z.pow_add_r by lia; by replace (r + (5 - r)) with 5 by lia).
  apply Z.mul_mod_distr_r; apply Z.pow_nonzero; lia.
Qed.

(** The digits, read as a base-32 number, are the pending bits and the input
    read as a base-256 number, shifted by the padding [p]. *)
Lemma base32_loop_spec input bits r :
  0 ≤ r < 5 →
  ∃ p, 0 ≤ p < 5 ∧ digits_ok 32 (base32_loop input bits r) ∧
    5 * Z.of_nat (length (base32_loop input bits r)) = r + 8 * Z.of_nat (length input) + p ∧
    num 32 (base32_loop input bits r)
    = (low bits r * 256 ^ Z.of_nat (length input) + num 256 (b2z <$> input)) * 2 ^ p.
Proof.
  revert bits r. induction input as [|b input IH]; intros bits r Hr; cbn [base32_loop].
  - destruct (Z.ltb_spec 0 r) as [H0|H0].
    + rewrite final_digit by lia. exists (5 - r). split_and!; try (cbn [length]; lia).
      * apply Forall_singleton. rewrite <- final_digit, land31 by lia. apply Z.mod_pos_bound. lia.
      * unfold num. simpl. lia.
    + assert (r = 0) as -> by lia. exists 0. split_and!; try (cbn [length]; lia).
      * by apply Forall_nil_2.
      * unfold low, num. simpl. rewrite Z.mod_1_r. lia.
  - destruct (emit _ _ (r + 8)) as [ds n] eqn:E.
    apply emit_spec in E as (Hn & Hds & Hlen & Hlow); [|lia..].
    rewrite low_shift in Hlow by done.
    set (bits' := Z.lor _ _) in *. destruct (IH bits' n Hn) as (p & Hp & Hd2 & Hl2 & Hnum).
    exists p. split_and!; try lia; [by apply Forall_app| |].
    + rewrite length_app. cbn [length]. lia.
    + rewrite num_app, Hnum. cbn [fmap list_fmap length]. rewrite num_cons, length_fmap.
      assert (32 ^ Z.of_nat (length (base32_loop input bits' n))
              = 2 ^ n * 256 ^ Z.of_nat (length input) * 2 ^ p) as ->.
      { change 32 with (2 ^ 5). change 256 with (2 ^ 8).
        rewrite <- !Z.pow_mul_r, <- !Z.pow_add_r by lia. f_equal. lia. }
      rewrite Nat2Z.inj_succ, Z.pow_succ_r by lia.
      set (X := 256 ^ Z.of_nat (length input)). set (Y := 2 ^ p).
      transitivity ((low bits r * 256 + b2z b) * (X * Y) + num 256 (b2z <$> input) * Y); [|ring].
      rewrite Hlow. ring.
Qed.

Lemma base32_length input :
  Z.of_nat (length (base32_loop input 0 0)) = (8 * Z.of_nat (length input) + 4) / 5.
Proof.
  destruct (base32_loop_spec input 0 0) as (p & Hp & _ & Hl & _); [lia|].
  apply Z.div_unique with (4 - p); lia.
Qed.

Lemma digits_inj a b :
  length a = length b → base32_loop a 0 0 = base32_loop b 0 0 → a = b.
Proof.
  intros Hlen E.
  destruct (base32_loop_spec a 0 0) as (p & Hp & _ & Hl & Hn); [lia|].
  destruct (base32_loop_spec b 0 0) as (q & Hq & _ & Hl' & Hn'); [lia|].
  rewrite E in *. assert (q = p) as -> by lia. rewrite Hn in Hn'.
  assert (0 < 2 ^ p) by (apply Z.pow_pos_nonneg; lia).
  rewrite Hlen in Hn'. apply Z.mul_cancel_r in Hn'; [|lia]. apply Z.add_cancel_l in Hn'.
  assert (b2z <$> a = b2z <$> b) as Hm.
  { apply (num_inj 256); rewrite ?length_fmap; try done; try lia;
      (apply Forall_fmap, Forall_forall; intros x _; apply b2z_range). }
  clear -Hm. revert b Hm. induction a as [|x a IH]; intros [|y b] Hm; try done.
  cbn in Hm. injection Hm as Hx Hm. f_equal; [by apply b2z_inj|by apply IH].
Qed.

(** ** Strings *)

Definition is_base32_char (c : ascii) : bool := contains_char c BASE32_LOWER.

Lemma digit_char_ok d : 0 ≤ d < 32 → is_base32_char (digit_char d) = true.
Proof.
  intros Hd. assert (∃ n : nat, d = Z.of_nat n ∧ (n < 32)%nat) as (n & -> & Hn).
  { exists (Z.to_nat d). lia. }
  do 32 (destruct n as [|n]; [reflexivity|]). lia.
Qed.

Lemma digit_char_inj d e : 0 ≤ d < 32 → 0 ≤ e < 32 → digit_char d = digit_char e → d = e.
Proof.
  intros Hd He. set (idx := λ c, default 0%nat (String.index 0 (String c EmptyString) BASE32_LOWER)).
  assert (∀ d, 0 ≤ d < 32 → Z.of_nat (idx (digit_char d)) = d) as H.
  { clear. intros d Hd. assert (∃ n : nat, d = Z.of_nat n ∧ (n < 32)%nat) as (n & -> & Hn).
    { exists (Z.to_nat d). lia. }
    do 32 (destruct n as [|n]; [reflexivity|]). lia. }
  intros E. rewrite <- (H d Hd), <- (H e He). by rewrite E.
Qed.

Lemma string_of_list_ascii_len l : str_len (String.string_of_list_ascii l) = Z.of_nat (length l).
Proof.
  unfold str_len, String.list_byte_of_string. rewrite List.length_map.
  by rewrite String.list_ascii_of_string_of_list_ascii.
Qed.

Lemma base32_lower_len input : str_len (base32_lower input) = (8 * Z.of_nat (length input) + 4) / 5.
Proof. unfold base32_lower. by rewrite string_of_list_ascii_len, length_fmap, base32_length. Qed.

Lemma base32_lower_chars input : str_all is_base32_char (base32_lower input) = true.
Proof.
  unfold base32_lower. destruct (base32_loop_spec input 0 0) as (p & _ & Hd & _); [lia|].
  induction Hd as [|d l Hd Hl IH]; [done|]. simpl. by rewrite digit_char_ok.
Qed.

Lemma base32_lower_inj a b : length a = length b → base32_lower a = base32_lower b → a = b.
Proof.
  intros Hlen E. apply digits_inj; [done|].
  unfold base32_lower in E. apply (f_equal String.list_ascii_of_string) in E.
  rewrite !String.list_ascii_of_string_of_list_ascii in E.
  destruct (base32_loop_spec a 0 0) as (_ & _ & Ha & _); [lia|].
  destruct (base32_loop_spec b 0 0) as (_ & _ & Hb & _); [lia|].
  revert E Ha Hb. generalize (base32_loop a 0 0), (base32_loop b 0 0). clear.
  intros l. induction l as [|d l IH]; intros [|e k] E Hl Hk; try done.
  cbn in E. injection E as Ed E. apply Forall_cons in Hl as [Hd Hl], Hk as [He Hk].
  f_equal; [by apply digit_char_inj|by apply IH].
Qed.
End Base32.
