(* ===== verification/B64.v ===== *)
(** * Base64

    [crates/gateway/src/b64.rs]: the standard alphabet with padding, and the
    decoder that ignores white space and stops at the padding.  Its accumulator is
    a [u32] that shifts old bits out. *)

From Stdlib Require Import ZArith Lia Ascii String.
From stdpp Require Import base decidable option list strings.
From S2P Require Import Prelude RustStr Base32.
Local Open Scope Z_scope.

Module B64.
Definition ALPHABET : string := "ABCDEFGHIJKLMNOPQRSTUVWXYZabcdefghijklmnopqrstuvwxyz0123456789+/".
Definition sextet_char (d : Z) : ascii := default "A"%char (String.get (Z.to_nat d) ALPHABET).

(** The three sextets or four of one chunk, [n] as in the source. *)
Definition chunk_word (b0 b1 b2 : Z) : Z := Z.lor (Z.lor (Z.shiftl b0 16) (Z.shiftl b1 8)) b2.
Definition sextet (n k : Z) : ascii := sextet_char (Z.land (Z.shiftr n k) 63).

(** [input.chunks(3)]. *)
Fixpoint encode (input : bytes) : string :=
  match input with
  | [] => EmptyString
  | [a] =>
      let n := chunk_word (b2z a) 0 0 in
      String (sextet n 18) (String (sextet n 12) "==")
  | [a; b] =>
      let n := chunk_word (b2z a) (b2z b) 0 in
      String (sextet n 18) (String (sextet n 12) (String (sextet n 6) "="))
  | a :: b :: c :: rest =>
      let n := chunk_word (b2z a) (b2z b) (b2z c) in
      String (sextet n 18) (String (sextet n 12) (String (sextet n 6) (String (sextet n 0) (encode rest))))
  end.

Inductive Symbol := Value (v : Z) | Padding | Space | Invalid.
Definition symbol (c : ascii) : Symbol :=
  if char_in 65 90 c then Value (code c - 65)
  else if char_in 97 122 c then Value (code c - 97 + 26)
  else if char_in 48 57 c then Value (code c - 48 + 52)
  else if is_char "+" c then Value 62
  else if is_char "/" c then Value 63
  else if is_char "=" c then Padding
  else if is_char " " c || is_char "009" c || is_char "013" c || is_char "010" c then Space
  else Invalid.

Fixpoint decode_loop (input : string) (bits nbits : Z) : result string bytes :=
  match input with
  | EmptyString => Ok []
  | String c rest =>
      match symbol c with
      | Padding => Ok []
      | Space => decode_loop rest bits nbits
      | Invalid => Err "invalid base64 character"%string
      | Value v =>
          let bits := Z.lor (Z.shiftl bits 6 mod 2 ^ 32) v in
          let nbits := nbits + 6 in
          if 8 <=? nbits then
            let nbits := nbits - 8 in
            out ← decode_loop rest bits nbits; Ok (z2b (Z.shiftr bits nbits) :: out)
          else decode_loop rest bits nbits
      end
  end.
Definition decode (input : string) : result string bytes := decode_loop input 0 0.

(** ** Decoding what was encoded *)

Lemma symbol_sextet d : 0 ≤ d < 64 → symbol (sextet_char d) = Value d.
Proof.
  intros Hd. assert (∃ n : nat, d = Z.of_nat n ∧ (n < 64)%nat) as (n & -> & Hn) by (exists (Z.to_nat d); lia).
  do 64 (destruct n as [|n]; [reflexivity|]). lia.
Qed.

Lemma lor_sextet x v : 0 ≤ v < 64 → Z.lor (x * 64) v = x * 64 + v.
Proof.
  intros Hv. rewrite <- Z.add_lor_land. assert (Z.land (x * 64) v = 0) as ->; [|lia].
  change 64 with (2 ^ 6). rewrite <- Z.shiftl_mul_pow2 by lia.
  apply Z.bits_inj'. intros n Hn. rewrite Z.land_spec, Z.shiftl_spec, Z.bits_0 by done.
  destruct (Z.lt_ge_cases n 6); [by rewrite Z.testbit_neg_r by lia|].
  rewrite <- (Z.mod_small v (2 ^ 6)) by lia. rewrite Z.mod_pow2_bits_high by lia. apply andb_false_r.
Qed.

(** Shifting a sextet in, with the overflow of the [u32]: the low bits are right. *)
Lemma shift_in bits v r :
  0 ≤ r ≤ 26 → 0 ≤ v < 64 →
  Z.lor (Z.shiftl bits 6 mod 2 ^ 32) v mod 2 ^ (r + 6) = (bits mod 2 ^ r) * 64 + v.
Proof.
  intros Hr Hv. rewrite Z.shiftl_mul_pow2 by lia.
  change (2 ^ 32) with (2 ^ 26 * 2 ^ 6). rewrite Z.mul_mod_distr_r by lia.
  change (2 ^ 6) with 64. rewrite lor_sextet by done.
  rewrite Z.pow_add_r by lia. change (2 ^ 6) with 64.
  assert (0 < 2 ^ r) by (apply Z.pow_pos_nonneg; lia).
  assert (0 ≤ bits mod 2 ^ r < 2 ^ r) by (apply Z.mod_pos_bound; lia).
  rewrite <- Zplus_mod_idemp_l, Z.mul_mod_distr_r by lia.
  replace (2 ^ 26) with (2 ^ r * 2 ^ (26 - r)) by (rewrite <- Z.pow_add_r by lia; f_equal; lia).
  rewrite Base32.mod_mod_divide by (try apply Z.pow_pos_nonneg; lia).
  apply Z.mod_small. nia.
Qed.

(** The byte pushed is the top of the pending bits. *)
Lemma pushed bits r n : 0 ≤ r → bits mod 2 ^ (r + 8) = n → z2b (Z.shiftr bits r) = z2b (n / 2 ^ r).
Proof.
  intros Hr <-. rewrite Z.shiftr_div_pow2 by done.
  rewrite <- (z2b_mod (bits / 2 ^ r)), <- (z2b_mod (bits mod 2 ^ (r + 8) / 2 ^ r)). f_equal.
  rewrite Z.pow_add_r by lia. change (2 ^ 8) with 256.
  assert (0 < 2 ^ r) by (apply Z.pow_pos_nonneg; lia).
  rewrite (Z.rem_mul_r bits) by lia. rewrite (Z.mul_comm (2 ^ r) (_ mod _)), Z.div_add by lia.
  rewrite (Z.div_small (bits mod 2 ^ r)) by (apply Z.mod_pos_bound; lia). rewrite Z.add_0_l. by rewrite Zmod_mod.
Qed.

Lemma land63 x : Z.land x 63 = x mod 64.
Proof. change 63 with (Z.ones 6). by rewrite Z.land_ones. Qed.

Lemma chunk_word_sum b0 b1 b2 :
  0 ≤ b0 < 256 → 0 ≤ b1 < 256 → 0 ≤ b2 < 256 → chunk_word b0 b1 b2 = b0 * 65536 + b1 * 256 + b2.
Proof.
  intros. unfold chunk_word. rewrite !Z.shiftl_mul_pow2 by lia. change (2 ^ 16) with 65536. change (2 ^ 8) with 256.
  replace (b0 * 65536) with (b0 * 256 * 256) by lia.
  assert (∀ x y, 0 ≤ y < 256 → Z.lor (x * 256) y = x * 256 + y) as Hlor.
  { intros x y Hy. rewrite <- (b2z_z2b y) by done. apply Base32.lor_byte. }
  assert (Z.lor (b0 * 256 * 256) (b1 * 256) = (b0 * 256 + b1) * 256) as ->.
  { rewrite <- Hlor by done.
    assert (∀ x, x * 256 = Z.shiftl x 8) as Hs by (intros; by rewrite Z.shiftl_mul_pow2).
    rewrite !Hs. by rewrite Z.shiftl_lor. }
  rewrite Hlor by done. lia.
Qed.

(** One sextet read: it is kept, and a byte comes out once eight bits are there. *)
Lemma decode_sextet n k rest bits nbits p :
  0 ≤ k → 0 ≤ nbits ≤ 6 → bits mod 2 ^ nbits = p →
  ∃ bits', bits' mod 2 ^ (nbits + 6) = p * 64 + n / 2 ^ k mod 64 ∧
    decode_loop (String (sextet n k) rest) bits nbits =
    if 8 <=? nbits + 6
    then out ← decode_loop rest bits' (nbits + 6 - 8); Ok (z2b ((p * 64 + n / 2 ^ k mod 64) / 2 ^ (nbits + 6 - 8)) :: out)
    else decode_loop rest bits' (nbits + 6).
Proof.
  intros Hk Hn <-. unfold sextet. rewrite land63, Z.shiftr_div_pow2 by done.
  set (v := n / 2 ^ k mod 64). assert (0 ≤ v < 64) by (apply Z.mod_pos_bound; lia).
  cbn [decode_loop]. rewrite symbol_sextet by done. set (bits' := Z.lor _ v).
  assert (bits' mod 2 ^ (nbits + 6) = bits mod 2 ^ nbits * 64 + v) as E by (apply shift_in; lia).
  exists bits'. split; [done|]. destruct (Z.leb_spec 8 (nbits + 6)); [|done].
  rewrite (pushed bits' (nbits + 6 - 8) (bits mod 2 ^ nbits * 64 + v)); [done|lia|].
  by replace (nbits + 6 - 8 + 8) with (nbits + 6) by lia.
Qed.

Lemma mod_mod_low bits p a b : 0 ≤ b ≤ a → bits mod 2 ^ a = p → bits mod 2 ^ b = p mod 2 ^ b.
Proof.
  intros Hab <-. replace (2 ^ a) with (2 ^ b * 2 ^ (a - b)) by (rewrite <- Z.pow_add_r by lia; f_equal; lia).
  by rewrite Base32.mod_mod_divide by (apply Z.pow_pos_nonneg; lia).
Qed.

Ltac euclid := Z.to_euclidean_division_equations; lia.
Lemma z2b_congr x y : x mod 256 = y mod 256 → z2b x = z2b y.
Proof. intros E. by rewrite <- (z2b_mod x), <- (z2b_mod y), E. Qed.

(** The first two sextets give the first byte; four bits stay pending. *)
Lemma decode_two n rest bits :
  ∃ bits', bits' mod 2 ^ 4 = n / 4096 mod 16 ∧
    decode_loop (String (sextet n 18) (String (sextet n 12) rest)) bits 0 =
    (out ← decode_loop rest bits' 4; Ok (z2b (n / 65536) :: out)).
Proof.
  destruct (decode_sextet n 18 (String (sextet n 12) rest) bits 0 0) as (b1 & H1 & ->);
    [lia|lia|apply Z.mod_1_r|]. change (8 <=? 0 + 6) with false. cbv iota.
  destruct (decode_sextet n 12 rest b1 (0 + 6) _ ltac:(lia) ltac:(lia) H1) as (b2 & H2 & ->).
  change (8 <=? 0 + 6 + 6) with true. cbv iota. exists b2. change (0 + 6 + 6 - 8) with 4.
  change (0 + 6 + 6) with 12 in H2. change (2 ^ 18) with 262144 in *. change (2 ^ 12) with 4096 in *.
  split.
  - rewrite (mod_mod_low b2 ((0 * 64 + n / 262144 mod 64) * 64 + n / 4096 mod 64) 12 4); [|lia|exact H2].
    change (2 ^ 4) with 16. clear. euclid.
  - rewrite (z2b_congr _ (n / 65536)); [done|]. change (2 ^ 4) with 16. clear. euclid.
Qed.

(** The third gives the second byte; two bits stay pending. *)
Lemma decode_third n rest bits :
  bits mod 2 ^ 4 = n / 4096 mod 16 →
  ∃ bits', bits' mod 2 ^ 2 = n / 64 mod 4 ∧
    decode_loop (String (sextet n 6) rest) bits 4 =
    (out ← decode_loop rest bits' 2; Ok (z2b (n / 256) :: out)).
Proof.
  intros H. destruct (decode_sextet n 6 rest bits 4 _ ltac:(lia) ltac:(lia) H) as (b1 & H1 & ->).
  change (8 <=? 4 + 6) with true. cbv iota. exists b1. change (4 + 6 - 8) with 2.
  change (2 ^ 6) with 64 in *. split.
  - rewrite (mod_mod_low _ _ (4 + 6) 2 ltac:(lia) H1). change (2 ^ 2) with 4. clear. euclid.
  - rewrite (z2b_congr _ (n / 256)); [done|]. change (2 ^ 2) with 4. clear. euclid.
Qed.

(** The fourth gives the last byte; nothing stays. *)
Lemma decode_fourth n rest bits :
  bits mod 2 ^ 2 = n / 64 mod 4 →
  ∃ bits', decode_loop (String (sextet n 0) rest) bits 2 =
    (out ← decode_loop rest bits' 0; Ok (z2b n :: out)).
Proof.
  intros H. destruct (decode_sextet n 0 rest bits 2 _ ltac:(lia) ltac:(lia) H) as (b1 & _ & ->).
  change (8 <=? 2 + 6) with true. cbv iota. exists b1. change (2 + 6 - 8) with 0.
  change (2 ^ 0) with 1 in *. rewrite (z2b_congr _ n); [done|]. clear. euclid.
Qed.

Lemma z2b_word b0 b1 b2 :
  let n := chunk_word (b2z b0) (b2z b1) (b2z b2) in
  z2b (n / 65536) = b0 ∧ z2b (n / 256) = b1 ∧ z2b n = b2.
Proof.
  pose proof (b2z_range b0). pose proof (b2z_range b1). pose proof (b2z_range b2).
  intros n. subst n. rewrite chunk_word_sum by done.
  split_and!.
  - transitivity (z2b (b2z b0)); [apply z2b_congr; euclid|apply z2b_b2z].
  - transitivity (z2b (b2z b1)); [apply z2b_congr; euclid|apply z2b_b2z].
  - transitivity (z2b (b2z b2)); [apply z2b_congr; euclid|apply z2b_b2z].
Qed.

(** What was encoded decodes to itself, whatever bits are left over. *)
Lemma decode_encode_from input bits : decode_loop (encode input) bits 0 = Ok input.
Proof.
  assert (∀ n input, (length input ≤ n)%nat → ∀ bits, decode_loop (encode input) bits 0 = Ok input) as H;
    [|apply (H (length input)); lia].
  clear. induction n as [|n IH]; intros input Hn bits; [destruct input; simpl in Hn; [done|lia]|].
  destruct input as [|a [|b [|c rest]]]; [done|..]; cbn [encode].
  - destruct (z2b_word a Byte.x00 Byte.x00) as (Ha & _).
    destruct (decode_two (chunk_word (b2z a) 0 0) "==" bits) as (b1 & _ & ->).
    change (b2z Byte.x00) with 0 in Ha. by rewrite Ha.
  - destruct (z2b_word a b Byte.x00) as (Ha & Hb & _). change (b2z Byte.x00) with 0 in *.
    set (w := chunk_word (b2z a) (b2z b) 0) in *.
    destruct (decode_two w (String (sextet w 6) "=") bits) as (b1 & H1 & ->).
    destruct (decode_third w "=" b1 H1) as (b2 & _ & ->). by rewrite Ha, Hb.
  - destruct (z2b_word a b c) as (Ha & Hb & Hc). set (w := chunk_word (b2z a) (b2z b) (b2z c)) in *.
    destruct (decode_two w (String (sextet w 6) (String (sextet w 0) (encode rest))) bits) as (b1 & H1 & ->).
    destruct (decode_third w (String (sextet w 0) (encode rest)) b1 H1) as (b2 & H2 & ->).
    destruct (decode_fourth w (encode rest) b2 H2) as (b3 & ->).
    rewrite IH by (simpl in Hn; lia). by rewrite Ha, Hb, Hc.
Qed.

(** Base64 round-trips. *)
Theorem base64_roundtrip input : decode (encode input) = Ok input.
Proof. apply decode_encode_from. Qed.
End B64.
