(* ===== verification/Dkim.v ===== *)
(** * DKIM

    [crates/gateway/src/dkim.rs]: signing of outbound mail with a delegated
    selector, and verification of inbound mail (RFC 6376 with relaxed/relaxed
    canonicalisation, RFC 8463).  SHA-256 and Ed25519 are external crates and
    parameters here; the key lookup over DNS is the resolver of the trait. *)

From Stdlib Require Import ZArith Lia Ascii String.
From stdpp Require Import base decidable option list strings.
From S2P Require Import Prelude RustStr RustText B64.
Local Open Scope Z_scope.

(** ** The external crates

    [sha2::Sha256::digest]; [ed25519_dalek] with its keys and signatures as byte
    strings.  [ed_from_bytes] is [VerifyingKey::from_bytes]: not every string is a
    key. *)
Class DkimCrypto := {
  SigningKey : Type;
  sha256 : bytes → bytes;
  ed_public : SigningKey → bytes;
  ed_sign : SigningKey → bytes → bytes;
  ed_from_bytes : bytes → bool;
  ed_verify : bytes → bytes → bytes → bool;
}.
Class DkimCryptoLaws `{DkimCrypto} := {
  sha256_length m : length (sha256 m) = 32%nat;
  ed_public_length k : length (ed_public k) = 32%nat;
  ed_public_valid k : ed_from_bytes (ed_public k) = true;
  ed_sign_length k d : length (ed_sign k d) = 64%nat;
  ed_sign_verify k d : ed_verify (ed_public k) d (ed_sign k d) = true;
}.
(** A signature verifies over the digest it was made for only. *)
Class DkimUnforgeable `{DkimCrypto} := {
  ed_verify_binding k d pk d' :
    length d = 32%nat → length d' = 32%nat → ed_verify pk d' (ed_sign k d) = true → d' = d;
}.

Module Dkim.

Definition CRLF : bytes := [Byte.x0d; Byte.x0a].
Definition is_wsp (b : byte) : bool := bool_decide (b = Byte.x20) || bool_decide (b = Byte.x09).

Definition Header : Type := string * bytes.

(** ** Splitting a message *)

(** [message.windows(4).position(..)]. *)
Fixpoint find_blank_line (message : bytes) : option nat :=
  match strip_bytes (CRLF ++ CRLF) message with
  | Some _ => Some O
  | None => match message with [] => None | _ :: r => S <$> find_blank_line r end
  end.

Fixpoint split_crlf (bs : bytes) : list bytes :=
  match bs with
  | a :: ((b :: r) as t) =>
      if bool_decide (a = Byte.x0d) && bool_decide (b = Byte.x0a) then [] :: split_crlf r
      else match split_crlf t with
           | [] => [[a]]
           | line :: rest => (a :: line) :: rest
           end
  | _ => [bs]
  end.

(** [bytes.strip_suffix(CRLF).unwrap_or(bytes)]. *)
Definition strip_final_crlf (bs : bytes) : bytes :=
  match strip_bytes (reverse CRLF) (reverse bs) with Some r => reverse r | None => bs end.

(** The name and the value around the first colon. *)
Fixpoint split_colon (raw : bytes) : option (bytes * bytes) :=
  match raw with
  | [] => None
  | b :: r =>
      if bool_decide (b = Byte.x3a) then Some ([], r)
      else '(n, v) ← split_colon r; Some (b :: n, v)
  end.

(** [out.last_mut()], extended. *)
Fixpoint extend_last (more : bytes) (out : list Header) : list Header :=
  match out with
  | [] => []
  | [(n, v)] => [(n, v ++ more)]
  | h :: out => h :: extend_last more out
  end.

Definition parse_line (out : list Header) (raw : bytes) : list Header :=
  match raw with
  | [] => out
  | b :: _ =>
      if is_wsp b then extend_last (CRLF ++ raw) out
      else match split_colon raw with
           | Some (n, v) => out ++ [(from_utf8_lossy n, v)]
           | None => out
           end
  end.
Definition parse_headers (head : bytes) : list Header := foldl parse_line [] (split_crlf head).

Definition split_headers_body (message : bytes) : list Header * bytes :=
  let '(head, body) :=
    match find_blank_line message with
    | Some idx => (take idx message, drop (idx + 4) message)
    | None => (message, [])
    end in
  (parse_headers head, body).

Definition named (name : string) (h : Header) : bool := eq_ignore_ascii_case (trim h.1) name.
Definition find_header (headers : list Header) (name : string) : option Header :=
  find_first (named name) (reverse headers).

(** ** Canonicalisation *)

(** The loop over the value: [val] as built so far (newest byte first). *)
Fixpoint header_value_loop (value : bytes) (in_wsp : bool) (val : bytes) : bytes :=
  match value with
  | [] => reverse val
  | b :: r =>
      let visit :=
        if is_wsp b then header_value_loop r true val
        else
          let val := if in_wsp && negb (bool_decide (val = [])) then Byte.x20 :: val else val in
          header_value_loop r false (b :: val) in
      match r with
      | c :: r' =>
          if bool_decide (b = Byte.x0d) && bool_decide (c = Byte.x0a) then header_value_loop r' in_wsp val
          else visit
      | [] => visit
      end
  end.
Definition canonicalize_header (name : string) (value : bytes) : bytes :=
  as_bytes (to_ascii_lowercase (trim name)) ++ as_bytes ":" ++ header_value_loop value false [] ++ CRLF.

Fixpoint collapse_line (line : bytes) (in_wsp : bool) : bytes :=
  match line with
  | [] => []
  | b :: r =>
      if is_wsp b then collapse_line r true
      else (if in_wsp then [Byte.x20] else []) ++ b :: collapse_line r false
  end.

(** [while matches!(lines.last(), Some(l) if l.is_empty()) { lines.pop(); }]. *)
Fixpoint drop_empty (lines : list bytes) : list bytes :=
  match lines with [] :: r => drop_empty r | _ => lines end.
Definition pop_empty_lines (lines : list bytes) : list bytes := reverse (drop_empty (reverse lines)).

Fixpoint join_crlf (lines : list bytes) : bytes :=
  match lines with
  | [] => []
  | [l] => l
  | l :: r => l ++ CRLF ++ join_crlf r
  end.
Definition canonicalize_body (body : bytes) : bytes :=
  let lines := pop_empty_lines ((λ l, collapse_line l false) <$> split_crlf body) in
  match lines with [] => [] | _ => join_crlf lines ++ CRLF end.

(** ** Tags *)

Definition parse_tag (part : string) : option (string * string) :=
  let part := trim part in
  if bool_decide (part = EmptyString) then None
  else '(k, v) ← split_once "=" part; Some (trim k, remove_whitespace v).
Definition parse_tags (value : string) : list (string * string) := omap parse_tag (split_char ";" value).
Definition get_tag (tags : list (string * string)) (k : string) : option string :=
  snd <$> find_first (λ t, bool_decide (t.1 = k)) tags.

Fixpoint skip_wsp (bs : bytes) : bytes :=
  match bs with b :: r => if is_wsp b then skip_wsp r else bs | [] => [] end.
Fixpoint skip_to_semicolon (bs : bytes) : bytes :=
  match bs with b :: r => if bool_decide (b = Byte.x3b) then bs else skip_to_semicolon r | [] => [] end.

(** [before] holds the bytes already passed, the last one first. *)
Definition at_boundary (before : bytes) : bool :=
  match before with
  | [] => true
  | _ => match skip_wsp before with b :: _ => bool_decide (b = Byte.x3b) | [] => false end
  end.

(** A round passes one byte or more, so the length bounds the rounds. *)
Fixpoint empty_b_loop (fuel : nat) (before rest : bytes) : bytes :=
  match fuel, rest with
  | S fuel, b :: r =>
      let push := b :: empty_b_loop fuel (b :: before) r in
      if at_boundary before && bool_decide (b = Byte.x62) then
        match skip_wsp r with
        | e :: v =>
            if bool_decide (e = Byte.x3d) then
              let tail := skip_to_semicolon v in
              let passed := take (length rest - length tail) rest in
              as_bytes "b=" ++ empty_b_loop fuel (reverse passed ++ before) tail
            else push
        | [] => push
        end
      else push
  | _, _ => []
  end.
Definition empty_b_value (value : bytes) : bytes := empty_b_loop (length value) [] value.

(** ** The signed headers *)

Definition SIGNED_HEADERS : list string := ["from"; "to"; "subject"; "date"; "message-id"]%string.

(** The [occurrence]-th instance of [key] from the bottom. *)
Definition instance_of (headers : list Header) (key : string) (occurrence : nat) : option Header :=
  filter (λ h, named key h = true) (reverse headers) !! occurrence.

Fixpoint assemble_loop (headers : list Header) (earlier h_names : list string) : bytes :=
  match h_names with
  | [] => []
  | name :: rest =>
      let key := trim name in
      let occurrence := length (filter (λ m, eq_ignore_ascii_case (trim m) key = true) earlier) in
      match instance_of headers key occurrence with
      | Some (n, v) => canonicalize_header n v
      | None => []
      end ++ assemble_loop headers (earlier ++ [name]) rest
  end.
Definition assemble_signed_headers (headers : list Header) (h_names : list string) : bytes :=
  assemble_loop headers [] h_names.

(** ** Signing and verifying *)

Inductive DkimError :=
| NoSignature | UnsupportedAlgorithm | UnsupportedCanonicalization | FromFieldNotSigned
| MalformedSignature | BodyHashMismatch | BadPublicKey | SignatureInvalid.
#[global] Instance DkimError_eq_dec : EqDecision DkimError.
Proof. solve_decision. Defined.

Inductive DkimVerdict :=
| VPass (domain selector : string)
| VFail (e : DkimError)
| VNoSignature
| VKeyUnavailable (domain selector : string).

(** [trait DkimKeyResolver] and its in-memory implementation. *)
Class DkimKeyResolver (R : Type) := {
  resolve_dkim_key : R → string → string → option bytes;
}.
Record StaticDkimKeys := { dkim_entries : list (string * string * bytes) }.
Definition publish_dkim (domain selector : string) (key : bytes) (k : StaticDkimKeys) : StaticDkimKeys :=
  {| dkim_entries := dkim_entries k ++ [(domain, selector, key)] |}.
#[export] Instance StaticDkimKeys_DkimKeyResolver : DkimKeyResolver StaticDkimKeys := {|
  resolve_dkim_key k domain selector :=
    snd <$> find_first (λ e, eq_ignore_ascii_case e.1.1 domain && bool_decide (e.1.2 = selector))
                       (dkim_entries k) |}.

(** The [p=] tag of a key record; an empty one is a revoked key. *)
Fixpoint first_p_tag (parts : list string) : option bytes :=
  match parts with
  | [] => None
  | part :: parts =>
      match strip_prefix "p=" (trim part) with
      | Some v =>
          let v := remove_whitespace v in
          if bool_decide (v = EmptyString) then None
          else match B64.decode v with Ok bs => Some bs | Err _ => None end
      | None => first_p_tag parts
      end
  end.
Definition parse_public_key_txt (txt : string) : option bytes := first_p_tag (split_char ";" txt).

Section dkim.
Context `{DC : DkimCrypto}.

Record DkimKey := { dk_domain : string; dk_selector : string; dk_signing : SigningKey }.
Definition public_p_tag (k : DkimKey) : string := B64.encode (ed_public (dk_signing k)).
Definition public_bytes (k : DkimKey) : bytes := ed_public (dk_signing k).

Definition body_hash (body : bytes) : string := B64.encode (sha256 (canonicalize_body body)).

(** The names of the [h=] tag: those present, and [from] once more. *)
Definition present (headers : list Header) (h : string) : bool :=
  match find_header headers h with Some _ => true | None => false end.
Definition signed_names (headers : list Header) : list string :=
  filter (λ h, present headers h = true) SIGNED_HEADERS ++ ["from"%string].

Definition dkim_header_base (key : DkimKey) (t : Z) (h_tag bh : string) : string :=
  "v=1; a=ed25519-sha256; c=relaxed/relaxed; d=" +:+ dk_domain key +:+ "; s=" +:+ dk_selector key +:+
  "; t=" +:+ u64_to_string t +:+ "; h=" +:+ h_tag +:+ "; bh=" +:+ bh +:+ "; b=".

Definition signing_input (headers : list Header) (h_names : list string) (dkim_value : bytes) : bytes :=
  assemble_signed_headers headers h_names ++
  strip_final_crlf (canonicalize_header "DKIM-Signature" dkim_value).

Definition sign (key : DkimKey) (message : bytes) (t : Z) : string :=
  let '(headers, body) := split_headers_body message in
  let bh := body_hash body in
  let h_names := signed_names headers in
  let base := dkim_header_base key t (join ":" h_names) bh in
  let digest := sha256 (signing_input headers h_names (as_bytes base)) in
  let b := B64.encode (ed_sign (dk_signing key) digest) in
  "DKIM-Signature: " +:+ base +:+ b +:+ String "013" (String "010" EmptyString).

Definition verify (message public_key : bytes) : result DkimError unit :=
  let '(headers, body) := split_headers_body message in
  '(_, dkim_value) ← ok_or NoSignature (find_header headers "dkim-signature");
  let tags := parse_tags (from_utf8_lossy dkim_value) in
  if bool_decide (get_tag tags "a" ≠ Some "ed25519-sha256"%string) then Err UnsupportedAlgorithm
  else if match get_tag tags "c" with
          | Some c => bool_decide (c ≠ "relaxed/relaxed"%string) | None => false end
  then Err UnsupportedCanonicalization
  else
    bh_expected ← ok_or MalformedSignature (get_tag tags "bh");
    if bool_decide (bh_expected ≠ body_hash body) then Err BodyHashMismatch
    else
      h_tag ← ok_or MalformedSignature (get_tag tags "h");
      b_tag ← ok_or MalformedSignature (get_tag tags "b");
      let h_names := filter (λ s, s ≠ EmptyString) (trim <$> split_char ":" h_tag) in
      if negb (existsb (λ n, eq_ignore_ascii_case n "from") h_names) then Err FromFieldNotSigned
      else
        let input := signing_input headers h_names (empty_b_value dkim_value) in
        if bool_decide (length public_key ≠ 32%nat) then Err BadPublicKey
        else if negb (ed_from_bytes public_key) then Err BadPublicKey
        else
          sig_bytes ← map_err (λ _, MalformedSignature) (B64.decode b_tag);
          if bool_decide (length sig_bytes ≠ 64%nat) then Err MalformedSignature
          else if ed_verify public_key (sha256 input) sig_bytes then Ok tt else Err SignatureInvalid.

Definition signing_domain_selector (message : bytes) : option (string * string) :=
  let '(headers, _) := split_headers_body message in
  '(_, value) ← find_header headers "dkim-signature";
  let tags := parse_tags (from_utf8_lossy value) in
  d ← get_tag tags "d"; s ← get_tag tags "s"; Some (d, s).

Definition verify_with_resolver `{DkimKeyResolver R} (message : bytes) (resolver : R) : DkimVerdict :=
  match signing_domain_selector message with
  | None => VNoSignature
  | Some (domain, selector) =>
      match resolve_dkim_key resolver domain selector with
      | Some key =>
          match verify message key with
          | Ok _ => VPass domain selector
          | Err e => VFail e
          end
      | None => VKeyUnavailable domain selector
      end
  end.
End dkim.

(** ** Splitting what was prepended *)

Definition message_head (message : bytes) : bytes :=
  match find_blank_line message with Some idx => take idx message | None => message end.
Definition message_headers (message : bytes) : list Header := (split_headers_body message).1.
Definition message_body (message : bytes) : bytes := (split_headers_body message).2.
Definition first_line (message : bytes) : bytes := List.hd [] (split_crlf (message_head message)).
(** The message starts with a header field. *)
Definition starts_with_field (message : bytes) : Prop := parse_line [] (first_line message) ≠ [].

Lemma split_headers_body_eq m : split_headers_body m = (message_headers m, message_body m).
Proof. unfold message_headers, message_body. by destruct (split_headers_body m). Qed.
Lemma message_headers_eq m : message_headers m = parse_headers (message_head m).
Proof. unfold message_headers, split_headers_body, message_head. by destruct (find_blank_line m). Qed.

Definition no_cr (bs : bytes) : Prop := Forall (λ b, b ≠ Byte.x0d) bs.

Lemma find_blank_line_app l r :
  no_cr l → find_blank_line (l ++ r) = (λ i, length l + i)%nat <$> find_blank_line r.
Proof.
  induction 1 as [|b l Hb Hl IH]; [simpl app; by destruct (find_blank_line r)|].
  change ((b :: l) ++ r) with (b :: l ++ r). cbn [find_blank_line].
  simpl strip_bytes. rewrite bool_decide_false by congruence. rewrite IH.
  by destruct (find_blank_line r).
Qed.
Lemma find_blank_line_crlf r :
  strip_bytes CRLF r = None → find_blank_line (CRLF ++ r) = (λ i, 2 + i)%nat <$> find_blank_line r.
Proof.
  intros Hr. unfold CRLF. simpl app. cbn [find_blank_line].
  change (strip_bytes (CRLF ++ CRLF) (Byte.x0d :: Byte.x0a :: r)) with (strip_bytes CRLF r). rewrite Hr.
  change (strip_bytes (CRLF ++ CRLF) (Byte.x0a :: r)) with (@None bytes).
  by destruct (find_blank_line r).
Qed.

Lemma split_crlf_nonempty bs : split_crlf bs ≠ [].
Proof.
  destruct bs as [|a [|b r]]; [done..|]. cbn [split_crlf]. destruct (_ && _); [done|].
  by destruct (match r with [] => _ | _ => _ end).
Qed.
Lemma split_crlf_app l r : no_cr l → split_crlf (l ++ CRLF ++ r) = l :: split_crlf r.
Proof.
  induction 1 as [|b l Hb Hl IH]; [done|]. change ((b :: l) ++ CRLF ++ r) with (b :: (l ++ CRLF ++ r)).
  destruct (l ++ CRLF ++ r) as [|c t] eqn:E; [by destruct l|].
  cbn [split_crlf]. rewrite bool_decide_false by done. simpl. simpl in IH. by rewrite IH.
Qed.

(** A message that starts with a field does not start with an empty line. *)
Lemma field_no_crlf m : starts_with_field m → strip_bytes CRLF m = None.
Proof.
  intros H. destruct (strip_bytes CRLF m) as [r|] eqn:E; [|done]. exfalso. apply H.
  destruct m as [|a [|b m]]; simpl in E; repeat case_bool_decide; simplify_eq.
  unfold first_line, message_head. cbn [find_blank_line].
  destruct (strip_bytes _ _); [done|]. destruct (strip_bytes _ _); [done|].
  by destruct (find_blank_line r).
Qed.

(** ** Prepending a header *)

Lemma parse_line_cons x out raw :
  out ≠ [] → parse_line (x :: out) raw = x :: parse_line out raw.
Proof.
  intros Hout. unfold parse_line. destruct raw as [|b raw]; [done|].
  destruct (is_wsp b); [|by destruct (split_colon _) as [[]|]]. by destruct out, x.
Qed.
Lemma parse_line_keeps out raw : out ≠ [] → parse_line out raw ≠ [].
Proof.
  intros Hout. unfold parse_line. destruct raw as [|b raw]; [done|].
  destruct (is_wsp b); [|by destruct (split_colon _) as [[]|], out]. by destruct out as [|[] []].
Qed.
Lemma foldl_parse_line x out lines :
  out ≠ [] → foldl parse_line (x :: out) lines = x :: foldl parse_line out lines.
Proof.
  revert out. induction lines as [|l lines IH]; intros out Hout; simpl; [done|].
  rewrite parse_line_cons by done. by apply IH, parse_line_keeps.
Qed.
(** A first line that gives a field is no continuation of what precedes it. *)
Lemma parse_line_first x raw : parse_line [] raw ≠ [] → parse_line [x] raw = x :: parse_line [] raw.
Proof.
  unfold parse_line. destruct raw as [|b raw]; [done|]. destruct (is_wsp b); [done|].
  by destruct (split_colon _) as [[]|].
Qed.

Lemma prepend_header name value m :
  no_cr (name ++ as_bytes ":" ++ value) → Forall (λ b, b ≠ Byte.x3a) name → name ≠ [] →
  match name with b :: _ => is_wsp b = false | [] => True end →
  starts_with_field m →
  split_headers_body (name ++ as_bytes ":" ++ value ++ CRLF ++ m) =
    ((from_utf8_lossy name, value) :: message_headers m, message_body m).
Proof.
  intros Hcr Hcolon Hne Hwsp Hm. pose proof (field_no_crlf m Hm) as Hm'.
  set (l := name ++ as_bytes ":" ++ value) in *.
  assert (name ++ as_bytes ":" ++ value ++ CRLF ++ m = l ++ CRLF ++ m) as ->.
  { unfold l. by rewrite <- !app_assoc. }
  assert (parse_headers (l ++ CRLF ++ message_head m) = (from_utf8_lossy name, value) :: message_headers m) as Hp.
  { rewrite message_headers_eq. unfold parse_headers. rewrite split_crlf_app by done. simpl foldl.
    assert (parse_line [] l = [(from_utf8_lossy name, value)]) as ->.
    { assert (split_colon l = Some (name, value)) as Hs.
      { unfold l. clear -Hcolon. induction Hcolon as [|b n Hb Hn IH]; [done|].
        simpl in *. rewrite bool_decide_false by done. by rewrite IH. }
      unfold parse_line. destruct l as [|b l'] eqn:El; [by destruct name|].
      assert (is_wsp b = false) as ->; [|by rewrite Hs].
      unfold l in El. destruct name; [done|]. simpl in El. by simplify_eq. }
    unfold starts_with_field, first_line in Hm.
    destruct (split_crlf (message_head m)) as [|f rest] eqn:E; [by apply split_crlf_nonempty in E|].
    simpl in *. rewrite parse_line_first by done. by apply foldl_parse_line. }
  unfold split_headers_body at 1. rewrite find_blank_line_app, find_blank_line_crlf by done.
  unfold message_head, message_body, split_headers_body in *.
  destruct (find_blank_line m) as [i|]; cbn [fmap option_fmap option_map fst snd] in *; [|by rewrite Hp].
  f_equal.
  - rewrite <- Hp. f_equal. rewrite take_app_ge by lia. f_equal.
    replace (length l + (2 + i) - length l)%nat with (S (S i)) by lia. done.
  - rewrite drop_app_ge by lia.
    replace (length l + (2 + i) + 4 - length l)%nat with (S (S (i + 4))) by lia. done.
Qed.

(** ** Tag lists *)

(** The characters of a tag name or value that need no care. *)
Definition token_char (c : ascii) : bool := printable c && negb (is_char ";" c).
Definition token (s : string) : bool := str_all token_char s.

Definition tag_text (tag : string * string) : string := String " " (tag.1 +:+ String "=" tag.2).
Definition render_tags (tags : list (string * string)) : string := join ";" (tag_text <$> tags).
Definition tag_ok (tag : string * string) : Prop :=
  token tag.1 = true ∧ contains_char "=" tag.1 = false ∧ token tag.2 = true.

Lemma token_printable s : token s = true → str_all printable s = true.
Proof. apply str_all_impl. intros c. unfold token_char. by rewrite andb_true_iff; intros []. Qed.
Lemma token_no_semicolon s : token s = true → contains_char ";" s = false.
Proof.
  intros H. apply str_any_all. revert H. apply str_all_impl. intros c. unfold token_char.
  by rewrite andb_true_iff; intros [].
Qed.
Lemma token_app a b : token (a +:+ b) = token a && token b.
Proof. apply str_all_app. Qed.

Lemma str_any_app p a b : str_any p (a +:+ b) = str_any p a || str_any p b.
Proof. induction a as [|c a IH]; str_simpl; [done|]. by rewrite IH, orb_assoc. Qed.

Lemma trim_tag_text tag : tag_ok tag → trim (tag_text tag) = (tag.1 +:+ String "=" tag.2).
Proof.
  intros (Hk & _ & Hv). unfold tag_text. apply trim_space. rewrite str_all_app. cbn [str_all].
  by rewrite !token_printable.
Qed.
Lemma parse_tag_text tag : tag_ok tag → parse_tag (tag_text tag) = Some tag.
Proof.
  intros Hok. unfold parse_tag. rewrite trim_tag_text by done.
  destruct tag as [k v], Hok as (Hk & Heq & Hv). cbn [fst snd] in *.
  rewrite bool_decide_false by (by destruct k). rewrite split_once_app by done. simpl.
  by rewrite trim_printable, remove_whitespace_printable by (by apply token_printable).
Qed.

Lemma split_render_tags tags :
  tags ≠ [] → Forall tag_ok tags → split_char ";" (render_tags tags) = tag_text <$> tags.
Proof.
  intros Hne HF. unfold render_tags. rewrite split_join; [done|by destruct tags|].
  apply Forall_fmap. eapply Forall_impl; [exact HF|]. intros [k v] (Hk & _ & Hv). simpl in *.
  unfold tag_text, contains_char. simpl. rewrite str_any_app. simpl.
  apply token_no_semicolon in Hk, Hv. unfold contains_char in *. by rewrite Hk, Hv.
Qed.
(** A rendered tag list parses into its tags. *)
Lemma parse_render_tags tags : tags ≠ [] → Forall tag_ok tags → parse_tags (render_tags tags) = tags.
Proof.
  intros Hne HF. unfold parse_tags. rewrite split_render_tags by done. clear Hne.
  induction HF as [|tag tags Htag HF IH]; [done|].
  rewrite fmap_cons. cbn [omap list_omap]. rewrite parse_tag_text by done. f_equal. exact IH.
Qed.

(** ** Emptying the signature *)

Definition token_byte (b : byte) : Prop := 33 ≤ b2z b ≤ 126 ∧ b ≠ Byte.x3b.
Lemma token_bytes s : token s = true → Forall token_byte (as_bytes s).
Proof.
  intros Hs. unfold String.list_byte_of_string. revert Hs. unfold token.
  induction s as [|c s IH]; simpl; [constructor|]. intros [Hc Hs]%andb_true_iff.
  constructor; [|by apply IH]. unfold token_char in Hc. apply andb_true_iff in Hc as [Hp Hc].
  split; [by apply printable_byte|]. intros E. apply negb_true_iff, is_char_false in Hc. apply Hc.
  apply (f_equal b2z) in E. rewrite code_byte_of_ascii in E. unfold code in E.
  apply (f_equal Z.to_N) in E. rewrite N2Z.id in E. apply (f_equal ascii_of_N) in E.
  rewrite ascii_N_embedding in E. by rewrite E.
Qed.
Lemma token_not_wsp b : token_byte b → is_wsp b = false.
Proof.
  intros [Hb _]. unfold is_wsp. rewrite !bool_decide_false; [done|intros ->; destruct Hb as [Hb _]; by apply Hb..].
Qed.

Notation empty_b before rest := (empty_b_loop (length rest) before rest).

(** Inside a token no tag starts. *)
Lemma empty_b_token w b before rest :
  Forall token_byte w → token_byte b →
  empty_b (b :: before) (w ++ rest) = w ++ empty_b (reverse w ++ b :: before) rest.
Proof.
  intros HF. revert b before. induction HF as [|c w Hc HF IH]; intros b before Hb; [done|].
  change ((c :: w) ++ rest) with (c :: (w ++ rest)). cbn [length empty_b_loop].
  unfold at_boundary. cbn [skip_wsp]. rewrite token_not_wsp, (bool_decide_false (b = _)) by (done || by apply Hb).
  simpl andb. cbv iota. rewrite IH by done. rewrite reverse_cons, <- app_assoc. done.
Qed.

Lemma empty_b_push c before rest :
  c ≠ Byte.x62 → empty_b before (c :: rest) = c :: empty_b (c :: before) rest.
Proof. intros Hc. cbn [length empty_b_loop]. by rewrite (bool_decide_false (c = _)), andb_false_r. Qed.

(** A tag with another name passes unchanged. *)
Lemma empty_b_tag tag before rest :
  tag_ok tag → tag.1 ≠ EmptyString → tag.1 ≠ "b"%string →
  ∃ before', empty_b before (as_bytes (tag_text tag) ++ Byte.x3b :: rest) =
             as_bytes (tag_text tag) ++ Byte.x3b :: empty_b (Byte.x3b :: before') rest.
Proof.
  destruct tag as [k v]. intros (Hk & Heq & Hv) Hne Hb. cbn [fst snd] in *. destruct k as [|c k]; [done|]. clear Hne.
  unfold tag_text. cbn [fst snd]. rewrite as_bytes_cons, str_app_cons, as_bytes_cons, as_bytes_app, as_bytes_cons.
  set (w := as_bytes k ++ byte_of_ascii "=" :: as_bytes v).
  assert (Forall token_byte (byte_of_ascii c :: w)) as [Hc Hw]%Forall_cons.
  { unfold w. change (byte_of_ascii c :: as_bytes k ++ byte_of_ascii "=" :: as_bytes v)
      with (as_bytes (String c k) ++ as_bytes "=" ++ as_bytes v).
    rewrite <- !as_bytes_app. apply token_bytes. rewrite !token_app, Hk, Hv. done. }
  change ((byte_of_ascii " " :: byte_of_ascii c :: w) ++ Byte.x3b :: rest)
    with (Byte.x20 :: byte_of_ascii c :: (w ++ Byte.x3b :: rest)).
  rewrite empty_b_push by done.
  assert (empty_b (Byte.x20 :: before) (byte_of_ascii c :: (w ++ Byte.x3b :: rest)) =
          byte_of_ascii c :: empty_b (byte_of_ascii c :: Byte.x20 :: before) (w ++ Byte.x3b :: rest)) as ->.
  { cbn [length empty_b_loop]. destruct (at_boundary _ && _) eqn:E; [|done].
    apply andb_true_iff in E as [_ E%bool_decide_eq_true]. destruct k as [|d k].
    { assert (c = "b"%char) as ->; [|done]. apply (f_equal ascii_of_byte) in E. by rewrite ascii_of_byte_of_ascii in E. }
    unfold w. rewrite as_bytes_cons. simpl app. cbn [skip_wsp].
    assert (token_byte (byte_of_ascii d)) as Hd.
    { unfold w in Hw. rewrite as_bytes_cons in Hw. simpl in Hw. by apply Forall_cons in Hw as [? _]. }
    rewrite token_not_wsp by done. rewrite bool_decide_false; [done|].
    intros E'. unfold contains_char in Heq. simpl in Heq. rewrite !orb_false_iff in Heq.
    destruct Heq as (_ & Hd' & _). apply is_char_false in Hd'. apply Hd'.
    apply (f_equal ascii_of_byte) in E'. by rewrite ascii_of_byte_of_ascii in E'. }
  rewrite empty_b_token by done. rewrite empty_b_push by done. eauto.
Qed.

(** The signature tag, last in the list, loses its value. *)
Lemma empty_b_last before v :
  token v = true → empty_b (Byte.x3b :: before) (as_bytes (tag_text ("b", v)%string)) = as_bytes (tag_text ("b", ""))%string.
Proof.
  intros Hv. change (as_bytes (tag_text ("b", v)%string)) with (Byte.x20 :: Byte.x62 :: Byte.x3d :: as_bytes v).
  rewrite empty_b_push by done. f_equal.
  change (empty_b (Byte.x20 :: Byte.x3b :: before) (Byte.x62 :: Byte.x3d :: as_bytes v))
    with (let tail := skip_to_semicolon (as_bytes v) in
          let rest := Byte.x62 :: Byte.x3d :: as_bytes v in
          let passed := take (length rest - length tail) rest in
          as_bytes "b=" ++ empty_b_loop (length (Byte.x3d :: as_bytes v))
                             (reverse passed ++ Byte.x20 :: Byte.x3b :: before) tail).
  assert (skip_to_semicolon (as_bytes v) = []) as ->; [|done].
  apply token_bytes in Hv. induction Hv as [|b bs [_ Hb] HF IH]; [done|]. simpl. by rewrite bool_decide_false.
Qed.

Lemma empty_b_tags tags v before :
  tags ≠ [] → Forall (λ tag, tag_ok tag ∧ tag.1 ≠ EmptyString ∧ tag.1 ≠ "b"%string) tags → token v = true →
  empty_b before (as_bytes (render_tags (tags ++ [("b", v)%string]))) = as_bytes (render_tags (tags ++ [("b", "")%string])).
Proof.
  intros Hne HF Hv. revert before. induction HF as [|tag tags (Ht & Hn & Hb) HF IH]; [done|]. intros before.
  assert (∀ w, as_bytes (render_tags ((tag :: tags) ++ [("b", w)%string]))
           = as_bytes (tag_text tag) ++ Byte.x3b :: as_bytes (render_tags (tags ++ [("b", w)%string]))) as Hr.
  { intros w. unfold render_tags. rewrite !fmap_app. rewrite fmap_cons. simpl.
    destruct (tag_text <$> tags); simpl; rewrite !as_bytes_app; done. }
  rewrite !Hr. destruct (empty_b_tag tag before (as_bytes (render_tags (tags ++ [("b", v)%string])))) as [before' ->]; [done..|].
  destruct tags as [|t tags]; [|by rewrite IH].
  do 2 f_equal. unfold render_tags. simpl. by apply empty_b_last.
Qed.

(** ** The values a signature carries are tokens *)

Lemma sextet_char_token n k : token_char (B64.sextet n k) = true.
Proof.
  unfold B64.sextet. rewrite B64.land63. set (d := _ mod 64).
  assert (0 ≤ d < 64) as Hd by (apply Z.mod_pos_bound; lia). clearbody d.
  assert (∃ i : nat, d = Z.of_nat i ∧ (i < 64)%nat) as (i & -> & Hi) by (exists (Z.to_nat d); lia).
  do 64 (destruct i as [|i]; [reflexivity|]). lia.
Qed.
Lemma base64_token_aux n bs : (length bs ≤ n)%nat → token (B64.encode bs) = true.
Proof.
  revert bs. induction n as [|n IH]; intros [|a [|b [|c bs]]] Hn; simpl in Hn; try lia; try done.
  all: unfold token; cbn [B64.encode str_all]; rewrite ?sextet_char_token; try done.
  simpl. apply IH. lia.
Qed.
Lemma base64_token bs : token (B64.encode bs) = true.
Proof. by eapply base64_token_aux. Qed.

Lemma digit_token d : 0 ≤ d < 10 → token_char (ascii_of_N (Z.to_N (48 + d))) = true.
Proof.
  intros Hd. assert (d = 0 ∨ d = 1 ∨ d = 2 ∨ d = 3 ∨ d = 4 ∨ d = 5 ∨ d = 6 ∨ d = 7 ∨ d = 8 ∨ d = 9) as H by lia.
  by repeat destruct H as [->|H]; [..|subst].
Qed.
Lemma u64_to_string_token n : token (u64_to_string n) = true.
Proof.
  unfold u64_to_string. assert (token EmptyString = true) as H by done. revert H.
  generalize EmptyString as acc. generalize 19%nat as fuel. intros fuel. revert n.
  induction fuel as [|fuel IH]; intros n acc Hacc; cbn [decimal_loop].
  all: assert (token (String (ascii_of_N (Z.to_N (48 + n mod 10))) acc) = true) as H
    by (unfold token in *; cbn [str_all]; rewrite digit_token by (apply Z.mod_pos_bound; lia); done).
  - done.
  - destruct (n <? 10); [done|by apply IH].
Qed.

Definition signed_name_lists : list (list string) :=
  flip app ["from"%string] <$> (
    f ← [[]; ["from"%string]]; t ← [[]; ["to"%string]]; s ← [[]; ["subject"%string]];
    d ← [[]; ["date"%string]]; m ← [[]; ["message-id"%string]]; [f ++ t ++ s ++ d ++ m]).
Lemma signed_names_cases headers : signed_names headers ∈ signed_name_lists.
Proof.
  unfold signed_names, SIGNED_HEADERS. rewrite !filter_cons, filter_nil.
  repeat case_decide; apply (bool_decide_unpack _); vm_compute; exact I.
Qed.
(** A name as the [h=] tag has it. *)
Definition key_name (key : string) : Prop :=
  trim key = key ∧ to_ascii_lowercase key = key ∧
  Forall (λ b, b ≠ Byte.x3a) (as_bytes key) ∧ no_cr (as_bytes key).
#[local] Instance key_name_dec key : Decision (key_name key).
Proof. unfold key_name, no_cr. apply _. Defined.

(** What the [h=] tag lists is read back. *)
Definition names_of_tag (h_tag : string) : list string :=
  filter (λ s, s ≠ EmptyString) (trim <$> split_char ":" h_tag).
Lemma signed_names_facts headers :
  let names := signed_names headers in
  names_of_tag (join ":" names) = names ∧ token (join ":" names) = true ∧
  existsb (λ n, eq_ignore_ascii_case n "from") names = true ∧
  Forall (λ n, eq_ignore_ascii_case "DKIM-Signature" (trim n) = false) names ∧ Forall key_name names.
Proof.
  pose proof (signed_names_cases headers) as H. simpl. revert H. generalize (signed_names headers).
  apply Forall_forall. apply (bool_decide_unpack _). vm_compute. exact I.
Qed.

(** ** What verification sees of a signature *)

Section signature.
Context `{DC : DkimCrypto}.

(** Domain and selector are single tokens, as DNS names are. *)
Definition key_ok (key : DkimKey) : Prop := token (dk_domain key) = true ∧ token (dk_selector key) = true.

Definition sig_tags (key : DkimKey) (t : Z) (h_tag bh : string) : list (string * string) :=
  [("v", "1"); ("a", "ed25519-sha256"); ("c", "relaxed/relaxed"); ("d", dk_domain key);
   ("s", dk_selector key); ("t", u64_to_string t); ("h", h_tag); ("bh", bh)]%string.

Lemma render_sig_tags key t h_tag bh b :
  render_tags (sig_tags key t h_tag bh ++ [("b", b)%string]) = String " " (dkim_header_base key t h_tag bh +:+ b).
Proof.
  unfold dkim_header_base, render_tags, tag_text. simpl join.
  repeat first [rewrite <- str_app_assoc | rewrite str_app_cons]. reflexivity.
Qed.

Lemma sig_tags_ok key t h_tag bh :
  key_ok key → token h_tag = true → token bh = true →
  Forall (λ tag, tag_ok tag ∧ tag.1 ≠ EmptyString ∧ tag.1 ≠ "b"%string) (sig_tags key t h_tag bh).
Proof.
  intros [Hd Hs] Hh Hbh. pose proof (u64_to_string_token t).
  repeat (apply Forall_cons; split); [..|by apply Forall_nil].
  all: unfold tag_ok; cbn [fst snd]; repeat split; done.
Qed.

(** ASCII without carriage returns: one header line. *)
Definition line_char (c : ascii) : bool := is_ascii c && negb (is_char "013" c).
Lemma sig_line key t h_tag bh b :
  key_ok key → token h_tag = true → token bh = true → token b = true →
  str_all line_char (render_tags (sig_tags key t h_tag bh ++ [("b", b)%string])) = true.
Proof.
  intros [Hd Hs] Hh Hbh Hb. rewrite render_sig_tags. cbn [str_all]. unfold dkim_header_base.
  pose proof (u64_to_string_token t) as Ht.
  assert (∀ s, token s = true → str_all line_char s = true) as Hline.
  { intros s Hs'%token_printable. revert Hs'. apply str_all_impl. intros c Hc. unfold line_char, is_ascii.
    unfold printable, char_in in Hc. apply andb_true_iff in Hc as [Hc1 Hc2].
    apply Z.leb_le in Hc1, Hc2. apply andb_true_iff. split; [apply Z.ltb_lt; lia|].
    apply negb_true_iff, is_char_false. intros <-. by apply Hc1. }
  rewrite !str_all_app, (Hline _ Hd), (Hline _ Hs), (Hline _ Ht), (Hline _ Hh), (Hline _ Hbh), (Hline _ Hb).
  reflexivity.
Qed.
Lemma line_no_cr s : str_all line_char s = true → no_cr (as_bytes s).
Proof.
  intros Hs. assert (Forall (λ b, b2z b ≠ 13) (as_bytes s)) as HF.
  { apply (str_all_bytes (λ z, z ≠ 13) line_char); [|done]. intros c. unfold line_char.
    rewrite andb_true_iff, negb_true_iff, is_char_false. intros [_ Hc] E. apply Hc.
    unfold code in E. rewrite <- (ascii_N_embedding c). by replace (N_of_ascii c) with 13%N by lia. }
  eapply Forall_impl; [exact HF|]. intros b Hb ->. by apply Hb.
Qed.

Lemma parse_sig_tags key t h_tag bh b :
  key_ok key → token h_tag = true → token bh = true → token b = true →
  parse_tags (from_utf8_lossy (as_bytes (render_tags (sig_tags key t h_tag bh ++ [("b", b)%string])))) =
    sig_tags key t h_tag bh ++ [("b", b)%string].
Proof.
  intros Hk Hh Hbh Hb. pose proof (sig_tags_ok key t h_tag bh Hk Hh Hbh) as HF.
  rewrite from_utf8_lossy_ascii.
  - apply parse_render_tags; [done|]. apply Forall_app. split.
    + eapply Forall_impl; [exact HF|]. by intros ? [].
    + by apply Forall_singleton.
  - eapply str_all_impl; [|by apply sig_line]. intros c. unfold line_char. by rewrite andb_true_iff; intros [].
Qed.

Lemma empty_sig key t h_tag bh b :
  key_ok key → token h_tag = true → token bh = true → token b = true →
  empty_b_value (as_bytes (render_tags (sig_tags key t h_tag bh ++ [("b", b)%string]))) =
    as_bytes (String " " (dkim_header_base key t h_tag bh)).
Proof.
  intros Hk Hh Hbh Hb. unfold empty_b_value. rewrite empty_b_tags; [|done|by apply sig_tags_ok|done].
  by rewrite render_sig_tags, str_app_nil_r.
Qed.

(** The space after the colon makes no difference to the canonical header. *)
Lemma value_loop_step b r in_wsp val :
  b ≠ Byte.x0d →
  header_value_loop (b :: r) in_wsp val =
    if is_wsp b then header_value_loop r true val
    else header_value_loop r false (b :: if in_wsp && negb (bool_decide (val = [])) then Byte.x20 :: val else val).
Proof.
  intros Hb. cbn [header_value_loop]. destruct r as [|c r]; [done|]. by rewrite (bool_decide_false (b = _)).
Qed.
Lemma canonicalize_leading_space name b r :
  b ≠ Byte.x0d → is_wsp b = false →
  canonicalize_header name (Byte.x20 :: b :: r) = canonicalize_header name (b :: r).
Proof.
  intros Hb Hw. unfold canonicalize_header. rewrite value_loop_step by done.
  change (is_wsp Byte.x20) with true. cbv iota. rewrite !value_loop_step by done. by rewrite Hw.
Qed.
Lemma base_bytes key t h_tag bh : ∃ r, as_bytes (dkim_header_base key t h_tag bh) = Byte.x76 :: r.
Proof. unfold dkim_header_base. rewrite as_bytes_app. by eexists. Qed.

Lemma get_sig_tags key t h_tag bh b :
  let tags := sig_tags key t h_tag bh ++ [("b", b)%string] in
  get_tag tags "a" = Some "ed25519-sha256"%string ∧ get_tag tags "c" = Some "relaxed/relaxed"%string ∧
  get_tag tags "d" = Some (dk_domain key) ∧ get_tag tags "s" = Some (dk_selector key) ∧
  get_tag tags "h" = Some h_tag ∧ get_tag tags "bh" = Some bh ∧ get_tag tags "b" = Some b.
Proof. repeat split; reflexivity. Qed.

(** The verdict on a message whose signature header is one [sign] writes. *)
Lemma verify_signature M pk key t headers bh sig n :
  let names := signed_names headers in
  key_ok key → length sig = 64%nat → token bh = true →
  find_header (message_headers M) "dkim-signature" =
    Some (n, as_bytes (render_tags (sig_tags key t (join ":" names) bh ++ [("b", B64.encode sig)%string]))) →
  verify M pk =
    if bool_decide (bh ≠ body_hash (message_body M)) then Err BodyHashMismatch
    else if bool_decide (length pk ≠ 32%nat) then Err BadPublicKey
    else if negb (ed_from_bytes pk) then Err BadPublicKey
    else if ed_verify pk (sha256 (signing_input (message_headers M) names
              (as_bytes (dkim_header_base key t (join ":" names) bh)))) sig
    then Ok tt else Err SignatureInvalid.
Proof.
  intros names Hk Hsig Hbh Hf. destruct (signed_names_facts headers) as (Hnames & Htok & Hfrom & _ & _).
  unfold verify. rewrite split_headers_body_eq, Hf. simpl_res.
  rewrite parse_sig_tags, empty_sig by (done || apply base64_token).
  destruct (get_sig_tags key t (join ":" names) bh (B64.encode sig)) as (-> & -> & _ & _ & -> & -> & ->).
  simpl_res. fold (names_of_tag (join ":" names)). fold names in Hnames, Hfrom. rewrite Hnames, Hfrom.
  rewrite B64.base64_roundtrip. simpl_res. rewrite (bool_decide_false (length sig ≠ _)) by naive_solver.
  unfold signing_input. rewrite as_bytes_cons.
  destruct (base_bytes key t (join ":" names) bh) as [r ->].
  change (byte_of_ascii " ") with Byte.x20. by rewrite canonicalize_leading_space.
Qed.

Lemma sign_eq key m t :
  let names := signed_names (message_headers m) in
  let bh := body_hash (message_body m) in
  let base := dkim_header_base key t (join ":" names) bh in
  let sig := ed_sign (dk_signing key) (sha256 (signing_input (message_headers m) names (as_bytes base))) in
  as_bytes (sign key m t) = as_bytes "DKIM-Signature" ++ as_bytes ":" ++
    as_bytes (render_tags (sig_tags key t (join ":" names) bh ++ [("b", B64.encode sig)%string])) ++ CRLF.
Proof.
  intros names bh base sig. unfold sign. rewrite split_headers_body_eq. rewrite render_sig_tags.
  fold names bh base sig. rewrite (as_bytes_cons " " (base +:+ B64.encode sig)), !as_bytes_app.
  rewrite <- !app_comm_cons, <- !app_assoc.
  reflexivity.
Qed.

(** A header of another name changes nothing that is signed. *)
Lemma assemble_other name v hs earlier names :
  Forall (λ n, eq_ignore_ascii_case (trim name) (trim n) = false) names →
  assemble_loop ((name, v) :: hs) earlier names = assemble_loop hs earlier names.
Proof.
  intros HF. revert earlier. induction HF as [|n names Hn HF IH]; intros earlier; [done|].
  cbn [assemble_loop]. rewrite IH. do 2 f_equal. unfold instance_of. rewrite reverse_cons, filter_app, filter_cons_False, filter_nil.
  - by rewrite app_nil_r.
  - unfold named. cbn [fst]. by rewrite Hn.
Qed.

(** The signed message, split. *)
Lemma split_signed `{DL : !DkimCryptoLaws} key m t :
  key_ok key → starts_with_field m →
  ∃ v, as_bytes (sign key m t) = as_bytes "DKIM-Signature" ++ as_bytes ":" ++ v ++ CRLF ∧
    split_headers_body (as_bytes (sign key m t) ++ m) =
      (("DKIM-Signature"%string, v) :: message_headers m, message_body m).
Proof.
  intros Hk Hm. eexists. split; [apply sign_eq|]. rewrite sign_eq, <- !app_assoc.
  rewrite prepend_header; [reflexivity| |..|done].
  - apply Forall_app. split; [apply (bool_decide_unpack _); vm_compute; exact I|].
    apply Forall_app. split; [apply (bool_decide_unpack _); vm_compute; exact I|].
    apply line_no_cr, sig_line; [done|apply signed_names_facts|apply base64_token..].
  - apply (bool_decide_unpack _). vm_compute. exact I.
  - done.
  - done.
Qed.
End signature.

(** ** Canonical headers are lines *)

Definition is_pair (a b : byte) : bool := bool_decide (a = Byte.x0d) && bool_decide (b = Byte.x0a).
Definition no_crlf (bs : bytes) : Prop := split_crlf bs = [bs].

Lemma split_crlf_cons a b r :
  split_crlf (a :: b :: r) =
    if is_pair a b then [] :: split_crlf r
    else match split_crlf (b :: r) with [] => [[a]] | line :: rest => (a :: line) :: rest end.
Proof. reflexivity. Qed.
Lemma no_crlf_cons a b r : no_crlf (a :: b :: r) ↔ is_pair a b = false ∧ no_crlf (b :: r).
Proof.
  unfold no_crlf. rewrite split_crlf_cons. destruct (is_pair a b).
  - split; [discriminate|]. by intros [? _].
  - destruct (split_crlf (b :: r)) as [|l rest] eqn:E; [by apply split_crlf_nonempty in E|].
    split; [|by intros [_ [= -> ->]]]. by intros [= -> ->].
Qed.
Lemma no_crlf_line l r : no_crlf l → split_crlf (l ++ CRLF ++ r) = l :: split_crlf r.
Proof.
  induction l as [|a l IH]; [done|]. destruct l as [|b l].
  - intros _. simpl app. unfold CRLF. simpl app. cbn [split_crlf].
    rewrite (bool_decide_false (Byte.x0d = Byte.x0a)) by done. rewrite andb_false_r. done.
  - intros [Hab Hl]%no_crlf_cons. specialize (IH Hl).
    change ((a :: b :: l) ++ CRLF ++ r) with (a :: b :: (l ++ CRLF ++ r)).
    change ((b :: l) ++ CRLF ++ r) with (b :: (l ++ CRLF ++ r)) in IH.
    by rewrite split_crlf_cons, Hab, IH.
Qed.
Lemma split_crlf_lines bs : Forall no_crlf (split_crlf bs).
Proof.
  remember (length bs) as n eqn:Hn. revert bs Hn. induction n as [n IH] using lt_wf_ind. intros bs ->.
  destruct bs as [|a [|b r]]; [by repeat constructor..|]. rewrite split_crlf_cons.
  destruct (is_pair a b) eqn:E.
  - constructor; [done|]. eapply IH; [|done]. simpl. lia.
  - assert (Forall no_crlf (split_crlf (b :: r))) as HF by (eapply IH; [|done]; simpl; lia).
    destruct (split_crlf (b :: r)) as [|l rest] eqn:El; [by repeat constructor|].
    apply Forall_cons in HF as [Hl HF]. constructor; [|done]. destruct l as [|c l]; [done|].
    apply no_crlf_cons. split; [|done].
    assert (c = b) as ->; [|done]. destruct r as [|d r]; [by simplify_eq/=|].
    rewrite split_crlf_cons in El. destruct (is_pair b d); [discriminate|].
    destruct (split_crlf (d :: r)); by simplify_eq.
Qed.

Lemma no_crlf_snoc l b : no_crlf l → (∀ l', l = l' ++ [Byte.x0d] → b ≠ Byte.x0a) → no_crlf (l ++ [b]).
Proof.
  induction l as [|a l IH]; [done|]. intros Hl Hb. destruct l as [|c l].
  - simpl. apply no_crlf_cons. split; [|done]. unfold is_pair. case_bool_decide as Ha; [|done].
    subst a. simpl. apply bool_decide_false. by apply (Hb []).
  - apply no_crlf_cons in Hl as [Hac Hl].
    change ((a :: c :: l) ++ [b]) with (a :: c :: (l ++ [b])). apply no_crlf_cons. split; [done|].
    apply IH; [done|]. intros l' E. apply (Hb (a :: l')). by rewrite E.
Qed.

(** Every line break of a value is followed by white space, as after a fold. *)
Fixpoint folded (v : bytes) : Prop :=
  match v with
  | a :: ((b :: r) as t) =>
      if is_pair a b then match r with c :: _ => is_wsp c = true | [] => False end ∧ folded r
      else folded t
  | _ => True
  end.

Lemma folded_cons a b r :
  folded (a :: b :: r) =
    if is_pair a b then match r with c :: _ => is_wsp c = true | [] => False end ∧ folded r
    else folded (b :: r).
Proof. reflexivity. Qed.
Lemma no_crlf_folded v : no_crlf v → folded v.
Proof.
  induction v as [|a [|b r] IH]; [done..|]. intros [Hp Hr]%no_crlf_cons. rewrite folded_cons, Hp. by apply IH.
Qed.
Lemma folded_crlf c raw : is_wsp c = true → no_crlf (c :: raw) → folded (CRLF ++ c :: raw).
Proof. intros Hc Hr. unfold CRLF. simpl app. rewrite folded_cons. split; [done|]. by apply no_crlf_folded. Qed.
Lemma folded_extend v c raw :
  folded v → is_wsp c = true → no_crlf (c :: raw) → folded (v ++ CRLF ++ c :: raw).
Proof.
  intros Hv Hc Hr. remember (length v) as n eqn:Hn. revert v Hv Hn.
  induction n as [n IH] using lt_wf_ind. intros v Hv ->. destruct v as [|a [|b r]].
  - by apply folded_crlf.
  - unfold CRLF. simpl app. rewrite folded_cons. unfold is_pair at 1.
    rewrite (bool_decide_false (Byte.x0d = Byte.x0a)), andb_false_r by done. by apply folded_crlf.
  - change ((a :: b :: r) ++ CRLF ++ c :: raw) with (a :: b :: (r ++ CRLF ++ c :: raw)).
    rewrite folded_cons in Hv |- *. destruct (is_pair a b).
    + destruct Hv as [Hh Hv]. split; [by destruct r|]. eapply IH; [|done|done]. simpl. lia.
    + change (folded ((b :: r) ++ CRLF ++ c :: raw)). eapply IH; [|done|done]. simpl. lia.
Qed.

Lemma split_colon_no_crlf l n v : no_crlf l → split_colon l = Some (n, v) → no_crlf v.
Proof.
  revert n. induction l as [|c l IH]; intros n Hl E; [done|]. cbn [split_colon] in E.
  assert (no_crlf l) as Hl'. { destruct l as [|d l]; [done|]. by apply no_crlf_cons in Hl as [_ ?]. }
  case_bool_decide; [by simplify_eq|]. destruct (split_colon l) as [[n' v']|]; simplify_eq/=. by eapply IH.
Qed.
Lemma parse_headers_folded head : Forall (λ h, folded h.2) (parse_headers head).
Proof.
  unfold parse_headers. pose proof (split_crlf_lines head) as HF.
  assert (Forall (λ h : Header, folded h.2) []) as H0 by constructor. revert H0.
  generalize (@nil Header) as out. induction HF as [|raw lines Hraw HF IH]; intros out Hout; simpl; [done|].
  apply IH. unfold parse_line. destruct raw as [|b raw]; [done|]. destruct (is_wsp b) eqn:Hb.
  - clear IH. induction Hout as [|[n v] out Hv Hout IHo]; simpl; [constructor|].
    destruct out as [|h out]; [|by constructor]. repeat constructor. simpl in *. by apply (folded_extend v b raw).
  - destruct (split_colon (b :: raw)) as [[n v]|] eqn:E; [|done]. apply Forall_app. split; [done|].
    repeat constructor. simpl. apply no_crlf_folded.
    by eapply split_colon_no_crlf.
Qed.

(** A value with folds only becomes one line. *)
Lemma value_loop_pair b c r in_wsp val :
  is_pair b c = true → header_value_loop (b :: c :: r) in_wsp val = header_value_loop r in_wsp val.
Proof. unfold is_pair. intros H. cbn [header_value_loop]. by rewrite H. Qed.
Lemma value_loop_other b r in_wsp val :
  match r with c :: _ => is_pair b c = false | [] => True end →
  header_value_loop (b :: r) in_wsp val =
    if is_wsp b then header_value_loop r true val
    else header_value_loop r false (b :: if in_wsp && negb (bool_decide (val = [])) then Byte.x20 :: val else val).
Proof.
  intros Hb. cbn [header_value_loop]. destruct r as [|c r]; [done|]. unfold is_pair in Hb. by rewrite Hb.
Qed.

Definition starts_with_lf (v : bytes) : Prop := match v with b :: _ => b = Byte.x0a | [] => False end.
Lemma value_loop_line v in_wsp val :
  folded v → no_crlf (reverse val) →
  (∀ val', val = Byte.x0d :: val' → in_wsp = false → ¬ starts_with_lf v) →
  no_crlf (header_value_loop v in_wsp val).
Proof.
  remember (length v) as n eqn:Hn. revert v in_wsp val Hn. induction n as [n IH] using lt_wf_ind.
  intros v in_wsp val -> Hv Hval Hlf. destruct v as [|b r]; [done|].
  destruct (match r with c :: _ => is_pair b c | [] => false end) eqn:Hp.
  - destruct r as [|c r]; [done|]. rewrite value_loop_pair by done. rewrite folded_cons, Hp in Hv.
    destruct Hv as [Hh Hv]. eapply IH; [|done|done|done|]; [simpl; lia|]. intros _ _ _.
    destruct r as [|d r]; [done|]. simpl. by intros ->.
  - assert (folded r) as Hr.
    { destruct r as [|c r]; [done|]. by rewrite folded_cons, Hp in Hv. }
    rewrite value_loop_other by (by destruct r). destruct (is_wsp b) eqn:Hb.
    { eapply IH; [|done|done|done|done]. simpl. lia. }
    eapply IH; [|done|done| |]; [simpl; lia| |].
    + rewrite reverse_cons. destruct (in_wsp && _) eqn:E.
      * rewrite reverse_cons. apply no_crlf_snoc; [apply no_crlf_snoc; [done|by intros]|].
        intros l' El. by apply app_inj_2 in El as [_ [=]].
      * apply no_crlf_snoc; [done|]. intros l' El ->. apply (f_equal reverse) in El.
        rewrite reverse_involutive, reverse_app in El.
        change (val = Byte.x0d :: reverse l') in El. subst val.
        apply (Hlf (reverse l')); [done| |done]. destruct in_wsp; [|done].
        discriminate E.
    + intros val' [= -> _] _. destruct r as [|c r]; [by intros []|]. simpl. intros ->. by vm_compute in Hp.
Qed.

(** ** The signed headers, one by one *)

(** The fields of a name, the bottom-most first, in canonical form. *)
Definition canonical (h : Header) : bytes := canonicalize_header h.1 h.2.
Definition canonical_fields (key : string) (hs : list Header) : list bytes :=
  canonical <$> filter (λ h, named key h = true) (reverse hs).

(** The name a canonical header starts with. *)
Definition labelled (key : string) (block : bytes) : Prop := fst <$> split_colon block = Some (as_bytes key).
#[local] Instance labelled_dec key block : Decision (labelled key block) := decide (_ = _).
Definition count_name (key : string) (names : list string) : nat :=
  length (filter (λ m, eq_ignore_ascii_case (trim m) key = true) names).

Fixpoint blocks (headers : list Header) (earlier h_names : list string) : list bytes :=
  match h_names with
  | [] => []
  | name :: rest =>
      let key := trim name in
      let occurrence := length (filter (λ m, eq_ignore_ascii_case (trim m) key = true) earlier) in
      match instance_of headers key occurrence with
      | Some h => [canonical h]
      | None => []
      end ++ blocks headers (earlier ++ [name]) rest
  end.
Lemma assemble_blocks headers earlier names :
  assemble_loop headers earlier names = concat (blocks headers earlier names).
Proof.
  revert earlier. induction names as [|n names IH]; intros earlier; [done|]. cbn [assemble_loop blocks].
  rewrite IH, concat_app. f_equal. destruct (instance_of _ _ _) as [[]|]; [|done]. simpl. by rewrite app_nil_r.
Qed.

Definition is_line (block : bytes) : Prop := ∃ l, block = l ++ CRLF ∧ no_crlf l.

Lemma no_crlf_app w l : no_cr w → no_crlf l → no_crlf (w ++ l).
Proof.
  intros Hw Hl. induction Hw as [|b w Hb Hw IH]; [done|]. simpl. destruct (w ++ l) as [|c r]; [done|].
  apply no_crlf_cons. split; [|done]. unfold is_pair. by rewrite bool_decide_false.
Qed.
Lemma split_colon_app n v : Forall (λ b, b ≠ Byte.x3a) n → split_colon (n ++ Byte.x3a :: v) = Some (n, v).
Proof. induction 1 as [|b n Hb Hn IH]; [done|]. simpl. rewrite bool_decide_false by done. by rewrite IH. Qed.

Lemma canonical_named key h :
  key_name key → named key h = true → folded h.2 → is_line (canonical h) ∧ labelled key (canonical h).
Proof.
  intros (Ht & Hl & Hc & Hcr) Hn Hf. unfold canonical, canonicalize_header.
  apply bool_decide_eq_true in Hn. rewrite Hn, Hl. split.
  - exists (as_bytes key ++ as_bytes ":" ++ header_value_loop h.2 false []).
    rewrite <- !app_assoc. split; [done|]. apply no_crlf_app; [done|].
    apply no_crlf_app; [by repeat constructor|]. by apply value_loop_line.
  - unfold labelled. change (as_bytes ":") with [Byte.x3a]. simpl app. by rewrite split_colon_app.
Qed.

Lemma concat_lines_inj bs cs :
  Forall is_line bs → Forall is_line cs → concat bs = concat cs → bs = cs.
Proof.
  intros Hbs. revert cs. induction Hbs as [|b bs (l & -> & Hl) Hbs IH]; intros cs Hcs E.
  - destruct Hcs as [|c cs (l & -> & _)]; [done|]. simpl in E. by destruct l.
  - destruct Hcs as [|c cs (l' & -> & Hl') Hcs]; [simpl in E; by destruct l|].
    simpl in E. assert (l = l') as <-.
    { apply (f_equal split_crlf) in E. rewrite <- !app_assoc, !no_crlf_line in E by done. by simplify_eq. }
    rewrite (IH cs Hcs); [done|]. by apply app_inv_head in E.
Qed.

Section blocks.
Context (hs : list Header) (Hf : Forall (λ h, folded h.2) hs).

Lemma instance_named key i h : instance_of hs key i = Some h → named key h = true ∧ folded h.2.
Proof.
  intros H%list_elem_of_lookup_2. apply list_elem_of_filter in H as [Hn Hin]. split; [done|].
  rewrite elem_of_reverse in Hin. rewrite Forall_forall in Hf. by apply Hf.
Qed.

Lemma blocks_lines earlier names : Forall key_name names → Forall is_line (blocks hs earlier names).
Proof.
  intros HF. revert earlier. induction HF as [|n names Hn HF IH]; intros earlier; cbn [blocks]; [constructor|].
  apply Forall_app. split; [|done]. destruct (instance_of _ _ _) as [h|] eqn:E; [|constructor].
  apply Forall_singleton. apply instance_named in E as [Hh Hfold]. pose proof Hn as [Ht _]. rewrite Ht in Hh.
  by eapply canonical_named.
Qed.

Lemma eq_key n key : key_name n → key_name key → eq_ignore_ascii_case (trim n) key = true ↔ n = key.
Proof.
  intros (Ht & Hl & _) (_ & Hl' & _). unfold eq_ignore_ascii_case. rewrite bool_decide_eq_true, Ht, Hl, Hl'. done.
Qed.

Lemma drop_lookup {A} (l : list A) d :
  drop d l = match l !! d with Some x => x :: drop (S d) l | None => [] end.
Proof.
  destruct (l !! d) eqn:E; [by apply drop_S|]. apply drop_ge. by apply lookup_ge_None.
Qed.

(** The blocks of one name are its fields, as many as the name is listed. *)
Lemma blocks_labelled key earlier names :
  key_name key → Forall key_name earlier → Forall key_name names →
  filter (labelled key) (blocks hs earlier names) =
    take (count_name key names) (drop (count_name key earlier) (canonical_fields key hs)).
Proof.
  intros Hk He HF. revert earlier He. induction HF as [|n names Hn HF IH]; intros earlier He; cbn [blocks]; [done|].
  rewrite filter_app, IH by (apply Forall_app; split; [done|by apply Forall_singleton]).
  pose proof Hn as [Ht _]. rewrite Ht. unfold count_name. rewrite !filter_app, !filter_cons, filter_nil.
  fold (count_name n earlier) (count_name key earlier) (count_name key names).
  destruct (decide (n = key)) as [->|Hne].
  - rewrite !decide_True by (by apply eq_key). rewrite !length_app. cbn [length].
    unfold canonical_fields at 2. rewrite (drop_lookup _ (count_name key earlier)), list_lookup_fmap.
    fold (canonical_fields key hs). rewrite Nat.add_1_r. fold (instance_of hs key (count_name key earlier)).
    destruct (instance_of hs key (count_name key earlier)) as [h|] eqn:E; simpl fmap; cbv iota.
    + apply instance_named in E as [Hh Hfold].
      rewrite filter_cons_True, filter_nil by (by eapply canonical_named). done.
    + unfold instance_of in E. fold (count_name key earlier).
      rewrite drop_ge; [by destruct (count_name key names)|]. unfold canonical_fields. rewrite length_fmap. apply lookup_ge_None in E. lia.
  - rewrite !decide_False by (rewrite eq_key; done). rewrite app_nil_r.
    fold (count_name key earlier) (count_name key names).
    destruct (instance_of hs n _) as [h|] eqn:E; [|done]. apply instance_named in E as [Hh Hfold].
    rewrite filter_cons_False; [done|]. destruct (canonical_named n h Hn Hh Hfold) as [_ Hlab].
    unfold labelled in *. rewrite Hlab. intros [= E]. apply Hne.
    rewrite <- (String.string_of_list_byte_of_string n), E. apply String.string_of_list_byte_of_string.
Qed.
End blocks.

(** ** Properties *)

Section properties.
Context `{DC : DkimCrypto, DL : !DkimCryptoLaws}.

(** A hash without a collision between two given texts. *)
Definition no_collision (x y : bytes) : Prop := sha256 x = sha256 y → x = y.

(** What the signature of [m] covers, read off the headers [hs] of a message. *)
Definition signed_text (key : DkimKey) (m : bytes) (t : Z) (hs : list Header) : bytes :=
  let names := signed_names (message_headers m) in
  signing_input hs names (as_bytes (dkim_header_base key t (join ":" names) (body_hash (message_body m)))).

Lemma sign_value_inv key m t v :
  as_bytes (sign key m t) = as_bytes "DKIM-Signature:" ++ v ++ CRLF →
  v = as_bytes (render_tags (sig_tags key t (join ":" (signed_names (message_headers m))) (body_hash (message_body m)) ++
        [("b", B64.encode (ed_sign (dk_signing key) (sha256 (signed_text key m t (message_headers m)))))%string])).
Proof.
  rewrite sign_eq. change (as_bytes "DKIM-Signature:") with (as_bytes "DKIM-Signature" ++ as_bytes ":").
  rewrite <- !app_assoc. intros E. do 2 apply app_inv_head in E. by apply app_inv_tail in E.
Qed.

Lemma B64_encode_inj x y : B64.encode x = B64.encode y → x = y.
Proof. intros E%(f_equal B64.decode). rewrite !B64.base64_roundtrip in E. congruence. Qed.

(** Equal signed texts mean equal fields of every signed name. *)
Lemma signed_text_fields key m t M name :
  signed_text key m t (message_headers M) = signed_text key m t (message_headers m) →
  name ∈ signed_names (message_headers m) →
  let c := count_name name (signed_names (message_headers m)) in
  take c (canonical_fields name (message_headers M)) = take c (canonical_fields name (message_headers m)).
Proof.
  intros E Hin c. set (names := signed_names (message_headers m)) in *.
  destruct (signed_names_facts (message_headers m)) as (_ & _ & _ & _ & Hk). fold names in Hk.
  unfold signed_text, signing_input, assemble_signed_headers in E. apply app_inv_tail in E.
  rewrite !assemble_blocks in E.
  assert (∀ X, Forall (λ h, folded h.2) (message_headers X)) as Hf.
  { intros X. rewrite message_headers_eq. apply parse_headers_folded. }
  apply concat_lines_inj in E; [|by apply blocks_lines..].
  apply (f_equal (filter (labelled name))) in E.
  rewrite !blocks_labelled in E; try done; [by rewrite Forall_forall in Hk; apply Hk|by rewrite Forall_forall in Hk; apply Hk].
Qed.

Lemma count_name_pos name hs : name ∈ signed_names hs → (0 < count_name name (signed_names hs))%nat.
Proof.
  intros Hin. destruct (signed_names_facts hs) as (_ & _ & _ & _ & Hk).
  assert (name ∈ filter (λ m, eq_ignore_ascii_case (trim m) name = true) (signed_names hs)) as H.
  { apply list_elem_of_filter. split; [|done]. rewrite Forall_forall in Hk. by apply eq_key; [apply Hk..|]. }
  unfold count_name. destruct (filter _ _); [by apply not_elem_of_nil in H|simpl; lia].
Qed.

(** [from] is listed once more than it needs. *)
Lemma count_from hs :
  canonical_fields "from" hs ≠ [] →
  "from"%string ∈ signed_names hs ∧ (2 ≤ count_name "from" (signed_names hs))%nat.
Proof.
  intros Hne. assert (present hs "from" = true) as Hp.
  { unfold present, find_header. destruct (find_first (named "from") (reverse hs)) as [|] eqn:E; [done|].
    exfalso. apply Hne. unfold canonical_fields. replace (filter _ _) with (@nil Header); [done|].
    symmetry. apply elem_of_nil_inv. intros x [Hx Hin]%list_elem_of_filter.
    eapply find_first_None in E; [|exact Hin]. congruence. }
  unfold signed_names, SIGNED_HEADERS. rewrite filter_cons_True by done.
  split; [by left|]. unfold count_name. rewrite filter_app. cbn [app]. rewrite filter_cons_True by reflexivity.
  rewrite (filter_cons_True _ "from"%string []) by reflexivity. simpl. rewrite length_app. simpl. lia.
Qed.

Lemma dkim_verify_binds `{DU : !DkimUnforgeable} key m t M pk n v :
  key_ok key → as_bytes (sign key m t) = as_bytes "DKIM-Signature:" ++ v ++ CRLF →
  find_header (message_headers M) "dkim-signature" = Some (n, v) → verify M pk = Ok tt →
  sha256 (canonicalize_body (message_body M)) = sha256 (canonicalize_body (message_body m)) ∧
  sha256 (signed_text key m t (message_headers M)) = sha256 (signed_text key m t (message_headers m)).
Proof.
  intros Hk Hs Hf Hv. apply sign_value_inv in Hs. subst v.
  erewrite verify_signature in Hv; [|done|apply ed_sign_length|apply base64_token|exact Hf].
  case_bool_decide as Hbh; [done|]. case_bool_decide; [done|].
  destruct (negb _); [done|]. destruct (ed_verify _ _ _) eqn:E; [|done]. split.
  - unfold body_hash in Hbh. by apply B64_encode_inj.
  - apply ed_verify_binding in E; [done|apply sha256_length..].
Qed.

Lemma sign_then_verify `{DkimKeyResolver R} (resolver : R) key m t :
  key_ok key → starts_with_field m → find_header (message_headers m) "dkim-signature" = None →
  resolve_dkim_key resolver (dk_domain key) (dk_selector key) = Some (public_bytes key) →
  verify_with_resolver (as_bytes (sign key m t) ++ m) resolver = VPass (dk_domain key) (dk_selector key).
Proof.
  intros Hk Hm Hno Hres. destruct (split_signed key m t Hk Hm) as (v & Hv & Hsplit).
  assert (find_header (("DKIM-Signature"%string, v) :: message_headers m) "dkim-signature" = Some ("DKIM-Signature"%string, v)) as Hf.
  { unfold find_header in *. rewrite reverse_cons, find_first_app, Hno. reflexivity. }
  assert (message_headers (as_bytes (sign key m t) ++ m) = ("DKIM-Signature"%string, v) :: message_headers m ∧
          message_body (as_bytes (sign key m t) ++ m) = message_body m) as [Hh Hb].
  { unfold message_headers at 1, message_body at 1. by rewrite Hsplit. }
  change (as_bytes "DKIM-Signature" ++ as_bytes ":" ++ v ++ CRLF) with (as_bytes "DKIM-Signature:" ++ v ++ CRLF) in Hv.
  apply sign_value_inv in Hv. destruct (signed_names_facts (message_headers m)) as (_ & Htok & _ & Hother & _).
  unfold verify_with_resolver, signing_domain_selector. rewrite Hsplit, Hf. cbn [mbind option_bind].
  assert (Hp := f_equal (λ v, parse_tags (from_utf8_lossy v)) Hv). cbv beta in Hp.
  rewrite parse_sig_tags in Hp by (done || apply base64_token). rewrite Hp.
  destruct (get_sig_tags key t (join ":" (signed_names (message_headers m))) (body_hash (message_body m))
    (B64.encode (ed_sign (dk_signing key) (sha256 (signed_text key m t (message_headers m)))))) as (_ & _ & -> & -> & _).
  cbn [mbind option_bind]. rewrite Hres.
  erewrite verify_signature; [|done|apply ed_sign_length|apply base64_token|rewrite Hh, Hf, Hv; reflexivity].
  rewrite Hb, Hh. rewrite bool_decide_false by naive_solver. unfold public_bytes.
  rewrite bool_decide_false, ed_public_valid by (rewrite ed_public_length; naive_solver).
  unfold signed_text, signing_input, assemble_signed_headers.
  rewrite assemble_other by exact Hother. cbn [negb]. by rewrite ed_sign_verify.
Qed.
(** A message signed with a delegated selector passes at every receiver that finds
    the published key, whatever its headers and body are, as long as it starts with
    a header field and carries no other signature. *)
Theorem dkim_sign_verifies `{DkimKeyResolver R} (resolver : R) key m t :
  key_ok key → starts_with_field m → find_header (message_headers m) "dkim-signature" = None →
  resolve_dkim_key resolver (dk_domain key) (dk_selector key) = Some (public_bytes key) →
  verify_with_resolver (as_bytes (sign key m t) ++ m) resolver = VPass (dk_domain key) (dk_selector key).
Proof. intros Hk Hm Hno Hres. by apply sign_then_verify. Qed.

(** C5: What a signature vouches for cannot be replaced: a message that carries the
    signature of [m] and verifies has the body of [m] and, of every signed name, the
    field of [m], all up to the canonical form; and it has no [From] field besides
    the one of [m].  The hash must not collide on the two bodies and on the two
    signed texts. *)
Theorem dkim_binds_message `{DU : !DkimUnforgeable} key m t M pk n v :
  key_ok key → as_bytes (sign key m t) = as_bytes "DKIM-Signature:" ++ v ++ CRLF →
  length (canonical_fields "from" (message_headers m)) = 1%nat →
  find_header (message_headers M) "dkim-signature" = Some (n, v) → verify M pk = Ok tt →
  no_collision (canonicalize_body (message_body M)) (canonicalize_body (message_body m)) →
  no_collision (signed_text key m t (message_headers M)) (signed_text key m t (message_headers m)) →
  canonicalize_body (message_body M) = canonicalize_body (message_body m) ∧
  canonical_fields "from" (message_headers M) = canonical_fields "from" (message_headers m) ∧
  ∀ name, name ∈ signed_names (message_headers m) →
    head (canonical_fields name (message_headers M)) = head (canonical_fields name (message_headers m)).
Proof.
  intros Hk Hs Hone Hf Hv Hc1 Hc2. destruct (dkim_verify_binds key m t M pk n v Hk Hs Hf Hv) as [Hb%Hc1 Ht%Hc2].
  split; [done|]. split.
  - destruct (count_from (message_headers m)) as [Hin Hc]; [by destruct (canonical_fields _ _)|].
    pose proof (signed_text_fields key m t M "from" Ht Hin) as E. simpl in E.
    set (c := count_name _ _) in *. destruct (canonical_fields "from" (message_headers m)) as [|x [|]]; try done.
    destruct c as [|[|c]]; [lia|lia|]. simpl in E.
    destruct (canonical_fields "from" (message_headers M)) as [|y [|]]; simpl in E; by simplify_eq.
  - intros name Hin. pose proof (signed_text_fields key m t M name Ht Hin) as E. simpl in E.
    pose proof (count_name_pos name _ Hin). set (c := count_name _ _) in *. destruct c as [|c]; [lia|].
    destruct (canonical_fields name (message_headers M)), (canonical_fields name (message_headers m)); by simplify_eq/=.
Qed.
End properties.
End Dkim.

(** ** Witnesses *)

Module DkimWitness.
Import Dkim.

(** A hash and a signature that pad to their lengths. *)
Definition pad32 (m : bytes) : bytes := resize 32 Byte.x00 m.
#[local] Instance toy_crypto : DkimCrypto := {|
  SigningKey := unit;
  sha256 := pad32;
  ed_public _ := replicate 32 Byte.x07;
  ed_sign _ d := pad32 d ++ replicate 32 Byte.x00;
  ed_from_bytes _ := true;
  ed_verify pk d s := bool_decide (pk = replicate 32 Byte.x07 ∧ s = pad32 d ++ replicate 32 Byte.x00) |}.
#[local] Instance toy_laws : DkimCryptoLaws.
Proof.
  assert (∀ m, length (pad32 m) = 32%nat) as Hl by (intros; apply length_resize).
  constructor; intros; try done.
  - cbn [ed_sign toy_crypto]. by rewrite length_app, Hl.
  - by apply bool_decide_true.
Qed.
#[local] Instance toy_unforgeable : DkimUnforgeable.
Proof.
  constructor. intros k d pk d' Hd Hd'. simpl. intros [_ E%app_inv_tail]%bool_decide_eq_true.
  unfold pad32 in E. rewrite !resize_all_alt in E by done. done.
Qed.

Definition key : DkimKey := {| dk_domain := "sender.example"; dk_selector := "s1"; dk_signing := tt |}.
Definition crlf : string := String "013" (String "010" EmptyString).
Definition mail : bytes := as_bytes
  ("From: alice@sender.example" +:+ crlf +:+ "Subject:  hi   there" +:+ crlf +:+ crlf +:+ "hello  bridge " +:+ crlf).
Definition published : StaticDkimKeys := publish_dkim "sender.example" "s1" (public_bytes key) {| dkim_entries := [] |}.

Lemma dkim_sign_verifies_witness :
  verify_with_resolver (as_bytes (sign key mail 1752600000) ++ mail) published = VPass "sender.example" "s1".
Proof.
  apply (dkim_sign_verifies published key mail 1752600000).
  - split; reflexivity.
  - vm_compute. discriminate.
  - vm_compute. reflexivity.
  - vm_compute. reflexivity.
Defined.

(** The same message with its white space rewritten on the way. *)
Definition relayed : bytes := as_bytes (sign key mail 1752600000) ++ as_bytes
  ("From:alice@sender.example" +:+ crlf +:+ "subject: hi there " +:+ crlf +:+ crlf +:+ "hello bridge" +:+ crlf +:+ crlf).
Definition sig_value : bytes := default [] (snd <$> find_header (message_headers relayed) "dkim-signature").

Lemma dkim_binds_message_witness :
  verify relayed (public_bytes key) = Ok tt ∧
  canonical_fields "from" (message_headers relayed) = canonical_fields "from" (message_headers mail).
Proof.
  assert (verify relayed (public_bytes key) = Ok tt) as Hv by (vm_compute; reflexivity).
  split; [exact Hv|].
  refine (proj1 (proj2 (dkim_binds_message key mail 1752600000 relayed (public_bytes key) "DKIM-Signature" sig_value
    _ _ _ _ Hv _ _))).
  - split; reflexivity.
  - vm_compute. reflexivity.
  - vm_compute. reflexivity.
  - vm_compute. reflexivity.
  - intros _. vm_compute. reflexivity.
  - intros _. vm_compute. reflexivity.
Defined.
End DkimWitness.
