(* ===== verification/Directory.v ===== *)
(** * The recipient directory

    [crates/gateway/src/directory.rs] with the [KeyDirectory] trait of
    [inbound.rs]: the table that maps a mail address to the keys a message is
    sealed to, and the text file it is loaded from.  Reading the file itself is
    I/O. *)

From Stdlib Require Import ZArith Lia Ascii String.
From stdpp Require Import base decidable option list strings gmap.
From S2P Require Import Prelude RustStr RustText B64 Dkim.
Local Open Scope Z_scope.

Record RecipientKey := { rk_ik : bytes; rk_seal_pub : bytes }.
#[global] Instance RecipientKey_eq_dec : EqDecision RecipientKey.
Proof. solve_decision. Defined.
Class KeyDirectory (D : Type) := {
  dir_resolve : D → string → option RecipientKey;
}.

Module Directory.

Record InMemoryDirectory := { entries : gmap string RecipientKey }.
Definition InMemoryDirectory_new : InMemoryDirectory := {| entries := ∅ |}.

Definition key_of (email : string) : string := to_ascii_lowercase (trim email).
Definition insert (email : string) (key : RecipientKey) (d : InMemoryDirectory) : InMemoryDirectory :=
  {| entries := <[key_of email := key]> (entries d) |}.
Definition with_recipient (email : string) (key : RecipientKey) (d : InMemoryDirectory) : InMemoryDirectory :=
  insert email key d.
Definition remove (email : string) (d : InMemoryDirectory) : bool * InMemoryDirectory :=
  (bool_decide (is_Some (entries d !! key_of email)), {| entries := delete (key_of email) (entries d) |}).
Definition resolve (d : InMemoryDirectory) (rcpt : string) : option RecipientKey := entries d !! key_of rcpt.
#[export] Instance InMemoryDirectory_KeyDirectory : KeyDirectory InMemoryDirectory := {| dir_resolve := resolve |}.

Inductive DirectoryError :=
| MissingField (line : nat) (field : string)
| TrailingData (line : nat)
| BadAddress (line : nat) (addr : string)
| BadBase64 (line : nat) (field reason : string).

(** [raw.split('#').next()]. *)
Definition before_comment (raw : string) : string := List.hd EmptyString (split_char "#" raw).

Definition parse_line (lineno : nat) (line : string) (dir : InMemoryDirectory) : result DirectoryError InMemoryDirectory :=
  match split_whitespace line with
  | [] => Err (MissingField lineno "email")
  | [_] => Err (MissingField lineno "ik")
  | [_; _] => Err (MissingField lineno "seal")
  | [email; ik_b64; seal_b64] =>
      if negb (contains_char "@" email) then Err (BadAddress lineno email)
      else
        ik ← map_err (BadBase64 lineno "ik") (B64.decode ik_b64);
        seal_pub ← map_err (BadBase64 lineno "seal") (B64.decode seal_b64);
        Ok (insert email {| rk_ik := ik; rk_seal_pub := seal_pub |} dir)
  | _ => Err (TrailingData lineno)
  end.
Fixpoint parse_lines (lineno : nat) (lines : list string) (dir : InMemoryDirectory)
    : result DirectoryError InMemoryDirectory :=
  match lines with
  | [] => Ok dir
  | raw :: lines =>
      let line := trim (before_comment raw) in
      if bool_decide (line = EmptyString) then parse_lines (S lineno) lines dir
      else dir ← parse_line lineno line dir; parse_lines (S lineno) lines dir
  end.
Definition parse (text : string) : result DirectoryError InMemoryDirectory :=
  parse_lines 1 (str_lines text) InMemoryDirectory_new.

(** ** The file format *)

Definition entry_text (e : string * RecipientKey) : string :=
  e.1 +:+ String " " (B64.encode (rk_ik e.2) +:+ String " " (B64.encode (rk_seal_pub e.2))).
Definition file_text (es : list (string * RecipientKey)) : string :=
  foldr (λ e r, entry_text e +:+ String "010" r) EmptyString es.
(** An address that is one printable field, and keys that are not empty. *)
Record entry_ok (e : string * RecipientKey) : Prop := {
  eo_word : str_all printable e.1 = true;
  eo_at : contains_char "@" e.1 = true;
  eo_comment : contains_char "#" e.1 = false;
  eo_ik : rk_ik e.2 ≠ [];
  eo_seal : rk_seal_pub e.2 ≠ [];
}.

Lemma encode_word bs : bs ≠ [] → word_ok (B64.encode bs).
Proof.
  intros Hne. split; [apply Dkim.token_printable, Dkim.base64_token|]. by destruct bs as [|? [|? [|]]].
Qed.
Lemma entry_words e : entry_ok e → word_ok e.1 ∧ word_ok (B64.encode (rk_ik e.2)) ∧ word_ok (B64.encode (rk_seal_pub e.2)).
Proof.
  intros []. repeat split; try by apply encode_word.
  - done.
  - intros E. by rewrite E in eo_at0.
Qed.

(** A character that no base64 text and no space is. *)
Lemma base64_char bs c :
  (is_char c "+" || is_char c "/" || is_char c "=" || is_ascii_alphanumeric c) = false → contains_char c (B64.encode bs) = false.
Proof.
  intros Hc. remember (length bs) as n eqn:Hn. revert bs Hn. induction n as [n IH] using lt_wf_ind. intros bs ->.
  assert (∀ m k, is_char c (B64.sextet m k) = false) as Hs.
  { intros m k. apply is_char_false. intros ->. revert Hc. unfold B64.sextet. rewrite B64.land63.
    set (d := _ mod 64). assert (0 ≤ d < 64) as Hd by (apply Z.mod_pos_bound; lia). clearbody d.
    assert (∃ i : nat, d = Z.of_nat i ∧ (i < 64)%nat) as (i & -> & Hi) by (exists (Z.to_nat d); lia). clear -Hi.
    do 64 (destruct i as [|i]; [by vm_compute|]). lia. }
  assert (is_char c "=" = false) as Heq by (by rewrite !orb_false_iff in Hc; destruct Hc as [[[_ _] ?] _]).
  unfold contains_char in *. destruct bs as [|x [|y [|z bs]]]; [done|..]; cbn [B64.encode str_any]; rewrite ?Hs, ?Heq; [done..|].
  cbn [orb]. eapply IH; [|done]. simpl. lia.
Qed.
Lemma entry_no_char c e :
  contains_char c e.1 = false →
  (is_char c "+" || is_char c "/" || is_char c "=" || is_ascii_alphanumeric c || is_char c " ") = false →
  contains_char c (entry_text e) = false.
Proof.
  intros He [Hc Hsp]%orb_false_iff.
  assert (∀ bs, str_any (is_char c) (B64.encode bs) = false) as Hb by (intros; by apply base64_char).
  unfold entry_text, contains_char in *.
  rewrite Dkim.str_any_app. cbn [str_any]. rewrite Dkim.str_any_app. cbn [str_any].
  by rewrite He, Hsp, !Hb.
Qed.
Lemma printable_no_char c s : str_all printable s = true → printable c = false → contains_char c s = false.
Proof.
  intros Hs Hc. apply str_any_all. revert Hs. apply str_all_impl. intros d Hd. apply negb_true_iff, is_char_false.
  intros <-. congruence.
Qed.

Lemma parse_entry n e d :
  entry_ok e → let line := trim (before_comment (entry_text e)) in
  line ≠ EmptyString ∧ parse_line n line d = Ok (insert e.1 e.2 d).
Proof.
  intros Hok. destruct (entry_words e Hok) as (H1 & H2 & H3). destruct Hok. simpl.
  unfold before_comment. rewrite split_char_none by (by apply entry_no_char). cbn [List.hd].
  assert (trim (entry_text e) = entry_text e) as ->.
  { unfold entry_text. set (x := B64.encode (rk_ik e.2)). set (y := B64.encode (rk_seal_pub e.2)).
    replace (String " " (x +:+ String " " y)) with (String " " (x +:+ " ") +:+ y)
      by (by rewrite str_app_cons, <- str_app_assoc). by apply trim_ends. }
  split; [unfold entry_text; by destruct e.1|]. unfold parse_line, entry_text. rewrite split_whitespace_three by done.
  rewrite eo_at0. cbn [negb]. rewrite !B64.base64_roundtrip. simpl_res. by destruct e as [? []].
Qed.

Lemma parse_entries n es d :
  Forall entry_ok es → parse_lines n (entry_text <$> es) d = Ok (foldl (λ d e, insert e.1 e.2 d) d es).
Proof.
  intros HF. revert n d. induction HF as [|e es He HF IH]; intros n d; [done|]. rewrite fmap_cons. cbn [parse_lines foldl].
  destruct (parse_entry n e d He) as [Hne ->]. rewrite bool_decide_false by done. simpl_res. apply IH.
Qed.

Lemma resolve_inserted es d rcpt :
  resolve (foldl (λ d e, insert e.1 e.2 d) d es) rcpt =
    match find_first (λ e, bool_decide (key_of e.1 = key_of rcpt)) (reverse es) with
    | Some e => Some e.2
    | None => resolve d rcpt
    end.
Proof.
  revert d. induction es as [|e es IH]; intros d; [done|]. cbn [foldl]. rewrite IH, reverse_cons, find_first_app.
  destruct (find_first _ (reverse es)); [done|]. cbn [find_first]. unfold resolve, insert. cbn [entries].
  rewrite lookup_insert. case_bool_decide as E; case_decide; done.
Qed.

(** A directory file resolves exactly what it lists: every address, in any case,
    to its keys, the last line winning for an address listed twice, and nothing
    else. *)
Theorem directory_file_roundtrip es :
  Forall entry_ok es → ∃ d, parse (file_text es) = Ok d ∧
    ∀ rcpt, resolve d rcpt = snd <$> find_first (λ e, bool_decide (key_of e.1 = key_of rcpt)) (reverse es).
Proof.
  intros HF. eexists. split.
  - unfold parse, file_text. replace (foldr _ _ es) with (foldr (λ l r, l +:+ String "010" r) EmptyString (entry_text <$> es)).
    2: { clear. induction es as [|e es IH]; [done|]. rewrite fmap_cons. cbn [foldr]. by rewrite IH. }
    rewrite str_lines_concat; [by apply parse_entries|]. apply Forall_fmap. eapply Forall_impl; [exact HF|].
    intros e [Hw _ _ _ _]. split; (apply entry_no_char; [by apply printable_no_char|done]).
  - intros rcpt. rewrite resolve_inserted. by destruct (find_first _ _).
Qed.

(** A line that is not a comment and has the wrong shape fails the whole file. *)
Lemma parse_lines_fails_closed n before raw after d d' e :
  parse_lines n before d = Ok d' → trim (before_comment raw) ≠ EmptyString →
  parse_line (n + length before) (trim (before_comment raw)) d' = Err e →
  parse_lines n (before ++ raw :: after) d = Err e.
Proof.
  revert n d. induction before as [|b before IH]; intros n d H Hne He.
  - simpl in H. simplify_eq. rewrite Nat.add_0_r in He. cbn [app parse_lines]. rewrite bool_decide_false by done.
    by rewrite He.
  - cbn [app parse_lines length] in *. rewrite <- Nat.add_succ_comm in He. case_bool_decide; [by apply IH|].
    destruct (parse_line n _ d) as [d1|]; [|done]. simpl_res. by apply IH.
Qed.
End Directory.

(** ** Witnesses *)

Module DirectoryWitness.
Import Directory.
Definition alice : RecipientKey := {| rk_ik := [Byte.x01; Byte.xff]; rk_seal_pub := [Byte.x02] |}.
Lemma directory_file_roundtrip_witness :
  ∃ d, parse (file_text [("Alice@Example.org", alice)]%string) = Ok d ∧ resolve d "alice@example.ORG" = Some alice.
Proof.
  destruct (directory_file_roundtrip [("Alice@Example.org", alice)]%string) as (d & Hd & Hr).
  - apply Forall_singleton. constructor; done.
  - exists d. split; [exact Hd|]. rewrite Hr. vm_compute. reflexivity.
Defined.
End DirectoryWitness.
