(* ===== verification/ForwardedAddr.v ===== *)
(** * Forwarded addresses

    [crates/gateway/src/forwarded_addr.rs]: the reversible encoding of a legacy
    sender's address [local@native_domain] into one gateway local-part. *)

From Stdlib Require Import ZArith Lia Ascii String.
From stdpp Require Import base decidable option list strings.
From S2P Require Import Prelude RustStr.
Local Open Scope Z_scope.

Module ForwardedAddr.
Inductive ForwardedAddrError :=
| InvalidLocal (s : string)
| InvalidDomain (s : string)
| TooLong (octets : Z).

Definition MAX_LOCALPART_LEN : Z := 64.

Definition local_char (c : ascii) : bool :=
  is_ascii_alphanumeric c || is_char "." c || is_char "-" c || is_char "_" c || is_char "+" c.
Definition is_valid_local (lp : string) : bool :=
  if bool_decide (lp = EmptyString) || (MAX_LOCALPART_LEN <? str_len lp)
     || starts_with_char "." lp || ends_with_char "." lp || contains_str ".." lp
  then false
  else str_all local_char lp.

Definition label_char (c : ascii) : bool := is_ascii_alphanumeric c || is_char "-" c.
Definition is_valid_label (label : string) : bool :=
  negb (bool_decide (label = EmptyString) || (63 <? str_len label))
  && negb (starts_with_char "-" label || ends_with_char "-" label)
  && str_all label_char label.
Definition is_valid_domain (domain : string) : bool :=
  if bool_decide (domain = EmptyString) || (253 <? str_len domain) then false
  else forallb is_valid_label (split_char "." domain)
       && (1 <=? length (split_char "." domain))%nat.

Fixpoint escape (s : string) : string :=
  match s with
  | EmptyString => EmptyString
  | String b r =>
      (if is_char "-" b then "--" else if is_char "." b then "-." else byte_as_char b) +:+ escape r
  end.

Fixpoint unescape_component (s : string) : option string :=
  match s with
  | EmptyString => Some EmptyString
  | String c r =>
      if is_char "-" c then
        match r with
        | String e r =>
            if is_char "-" e then String "-" <$> unescape_component r
            else if is_char "." e then String "." <$> unescape_component r
            else None
        | EmptyString => None
        end
      else if is_char "." c then None
      else String.append (byte_as_char c) <$> unescape_component r
  end.

Definition encode (local native_domain : string) : result ForwardedAddrError string :=
  let local := to_ascii_lowercase local in
  let native_domain := to_ascii_lowercase native_domain in
  if negb (is_valid_local local) then Err (InvalidLocal local)
  else if negb (is_valid_domain native_domain) then Err (InvalidDomain native_domain)
  else
    let out := (escape local +:+ String "." (escape native_domain)) in
    if MAX_LOCALPART_LEN <? str_len out then Err (TooLong (str_len out)) else Ok out.

(** The scan of [decode]: the unescaped text up to the first bare dot, and what
    follows it; [None] for a bad escape and for a missing separator. *)
Fixpoint scan_local (s : string) : option (string * string) :=
  match s with
  | EmptyString => None
  | String c r =>
      if is_char "-" c then
        match r with
        | String e r =>
            if is_char "-" e then '(l, rest) ← scan_local r; Some (String "-" l, rest)
            else if is_char "." e then '(l, rest) ← scan_local r; Some (String "." l, rest)
            else None
        | EmptyString => None
        end
      else if is_char "." c then Some (EmptyString, r)
      else '(l, rest) ← scan_local r; Some (byte_as_char c +:+ l, rest)
  end.

Definition decode (gateway_localpart : string) : option (string * string) :=
  let s := to_ascii_lowercase gateway_localpart in
  '(local, rest) ← scan_local s;
  native_domain ← unescape_component rest;
  if negb (is_valid_local local) || negb (is_valid_domain native_domain) then None
  else
    match encode local native_domain with
    | Ok canonical => if bool_decide (canonical = s) then Some (local, native_domain) else None
    | Err _ => None
    end.

(** ** Escaping *)

Definition ascii_only (c : ascii) : bool := code c <? 128.

Lemma byte_as_char_ascii c : ascii_only c = true → byte_as_char c = String c EmptyString.
Proof. unfold ascii_only, byte_as_char. by intros ->. Qed.

Lemma scan_escape l rest :
  str_all ascii_only l = true → scan_local (escape l +:+ String "." rest) = Some (l, rest).
Proof.
  induction l as [|c l IH]; str_simpl; [done|]. intros [Hc Hl]%andb_true_iff.
  rewrite <- str_app_assoc.
  destruct (is_char "-" c) eqn:E1; [apply is_char_true in E1 as <-; str_simpl; by rewrite IH|].
  destruct (is_char "." c) eqn:E2; [apply is_char_true in E2 as <-; str_simpl; by rewrite IH|].
  rewrite byte_as_char_ascii by done. str_simpl. rewrite E1, E2, IH by done. simpl.
  by rewrite byte_as_char_ascii.
Qed.

Lemma unescape_escape d :
  str_all ascii_only d = true → unescape_component (escape d) = Some d.
Proof.
  induction d as [|c d IH]; str_simpl; [done|]. intros [Hc Hd]%andb_true_iff.
  destruct (is_char "-" c) eqn:E1; [apply is_char_true in E1 as <-; str_simpl; by rewrite IH|].
  destruct (is_char "." c) eqn:E2; [apply is_char_true in E2 as <-; str_simpl; by rewrite IH|].
  rewrite byte_as_char_ascii by done. str_simpl. rewrite E1, E2, IH by done. simpl.
  by rewrite byte_as_char_ascii.
Qed.

(** The caseless escapes commute with lower-casing. *)
Lemma escape_lower s :
  str_all ascii_only s = true → to_ascii_lowercase (escape s) = escape (to_ascii_lowercase s).
Proof.
  induction s as [|c s IH]; str_simpl; [done|]. intros [Hc Hs]%andb_true_iff.
  rewrite to_ascii_lowercase_app, IH by done. f_equal. clear IH Hs.
  destruct c as [[] [] [] [] [] [] [] []]; first [discriminate Hc | reflexivity].
Qed.

Lemma local_char_ascii c : local_char c = true → ascii_only c = true.
Proof. destruct c as [[] [] [] [] [] [] [] []]; first [reflexivity | discriminate]. Qed.
Lemma label_char_local c : label_char c = true → local_char c = true.
Proof. destruct c as [[] [] [] [] [] [] [] []]; first [reflexivity | discriminate]. Qed.

Lemma is_valid_local_chars l : is_valid_local l = true → str_all local_char l = true.
Proof. unfold is_valid_local. by case_match. Qed.

Lemma split_chars p s :
  forallb (str_all p) (split_char "." s) = true → p "."%char = true → str_all p s = true.
Proof.
  intros Hs Hp. induction s as [|c s IH]; simpl in *; [done|].
  destruct (is_char "." c) eqn:E.
  - apply is_char_true in E as <-. simpl in Hs. rewrite Hp. by apply IH.
  - destruct (split_char "." s) as [|x xs]; simpl in *; rewrite !andb_true_iff in *; naive_solver.
Qed.

Lemma is_valid_domain_chars d : is_valid_domain d = true → str_all local_char d = true.
Proof.
  unfold is_valid_domain. case_match; [done|]. intros [Hf _]%andb_true_iff.
  apply split_chars; [|done]. rewrite forallb_forall in Hf |- *. intros x Hx.
  specialize (Hf x Hx). unfold is_valid_label in Hf. rewrite !andb_true_iff in Hf.
  destruct Hf as [_ Hf]. by eapply str_all_impl; [apply label_char_local|].
Qed.

Lemma local_ascii s : str_all local_char s = true → str_all ascii_only s = true.
Proof. apply str_all_impl, local_char_ascii. Qed.

Lemma encode_inv l d s :
  encode l d = Ok s →
  s = (escape (to_ascii_lowercase l) +:+ String "." (escape (to_ascii_lowercase d))) ∧
  is_valid_local (to_ascii_lowercase l) = true ∧ is_valid_domain (to_ascii_lowercase d) = true ∧
  str_len s ≤ MAX_LOCALPART_LEN.
Proof.
  unfold encode. destruct (is_valid_local _) eqn:Hl; simpl; [|done].
  destruct (is_valid_domain _) eqn:Hd; simpl; [|done].
  destruct (Z.ltb_spec MAX_LOCALPART_LEN
    (str_len (escape (to_ascii_lowercase l) +:+ String "." (escape (to_ascii_lowercase d)))));
    [done|]. by intros [= <-].
Qed.

(** An encoded address is already lower case. *)
Lemma encode_lower l d s : encode l d = Ok s → to_ascii_lowercase s = s.
Proof.
  intros (-> & Hl & Hd & _)%encode_inv.
  apply is_valid_local_chars, local_ascii in Hl. apply is_valid_domain_chars, local_ascii in Hd.
  rewrite to_ascii_lowercase_app. cbn [to_ascii_lowercase].
  rewrite !escape_lower, !to_ascii_lowercase_idem by done. done.
Qed.

Lemma encode_fold l d : encode (to_ascii_lowercase l) (to_ascii_lowercase d) = encode l d.
Proof. unfold encode. by rewrite !to_ascii_lowercase_idem. Qed.

Lemma decode_encoded l d s t :
  encode l d = Ok s → to_ascii_lowercase t = s →
  decode t = Some (to_ascii_lowercase l, to_ascii_lowercase d).
Proof.
  intros He Ht. pose proof (encode_inv _ _ _ He) as (Es & Hl & Hd & _).
  unfold decode. rewrite Ht, Es.
  rewrite scan_escape by by apply local_ascii, is_valid_local_chars. simpl.
  rewrite unescape_escape by by apply local_ascii, is_valid_domain_chars. simpl.
  rewrite Hl, Hd. simpl. rewrite encode_fold, He, <- Es. by rewrite bool_decide_true.
Qed.

(** ** Legality of the encoded local-part *)

Lemma dots_cons c r :
  contains_str ".." (String c r) = (is_char "." c && starts_with_char "." r) || contains_str ".." r.
Proof. cbn. destruct r; by rewrite ?andb_false_r, ?andb_true_r. Qed.

Lemma dots_app a b :
  contains_str ".." a = false → contains_str ".." b = false →
  ends_with_char "." a && starts_with_char "." b = false →
  contains_str ".." (a +:+ b) = false.
Proof.
  induction a as [|c a IH]; [done|]. rewrite str_app_cons. intros Ha Hb He.
  rewrite dots_cons in Ha |- *. apply orb_false_iff in Ha as [Hc Ha].
  apply orb_false_iff. destruct a as [|e a].
  - rewrite str_app_nil_l. split; [exact He|exact Hb].
  - split; [exact Hc|]. by apply IH.
Qed.

Lemma ends_app a b : b ≠ EmptyString → ends_with_char "." (a +:+ b) = ends_with_char "." b.
Proof.
  intros Hb. induction a as [|c a IH]; str_simpl; [done|].
  destruct a as [|e a]; str_simpl; [by destruct b|]. rewrite str_app_cons in IH. exact IH.
Qed.

Lemma escape_start s : str_all ascii_only s = true → starts_with_char "." (escape s) = false.
Proof.
  destruct s as [|c s]; [done|]. simpl. intros [Hc _]%andb_true_iff.
  destruct (is_char "-" c); [done|]. destruct (is_char "." c) eqn:E; [done|].
  by rewrite byte_as_char_ascii.
Qed.

Lemma escape_nonempty s :
  str_all ascii_only s = true → s ≠ EmptyString → escape s ≠ EmptyString.
Proof.
  destruct s as [|c s]; [done|]. cbn [escape str_all]. intros [Hc _]%andb_true_iff _.
  destruct (is_char "-" c); [done|]. destruct (is_char "." c); [done|].
  by rewrite byte_as_char_ascii.
Qed.

Lemma escape_end s :
  str_all ascii_only s = true → ends_with_char "." (escape s) = ends_with_char "." s.
Proof.
  induction s as [|c s IH]; [done|]. intros [Hc Hs]%andb_true_iff. cbn [escape].
  destruct s as [|e s].
  - clear. destruct c as [[] [] [] [] [] [] [] []]; reflexivity.
  - rewrite ends_app; [by rewrite IH|by apply escape_nonempty].
Qed.

Lemma escape_dots s : str_all ascii_only s = true → contains_str ".." (escape s) = false.
Proof.
  induction s as [|c s IH]; [done|]. intros [Hc Hs]%andb_true_iff. cbn [escape].
  apply dots_app; [|by apply IH|by rewrite escape_start, andb_false_r].
  clear -Hc. destruct c as [[] [] [] [] [] [] [] []]; first [discriminate Hc | reflexivity].
Qed.

Lemma escape_local s : str_all local_char s = true → str_all local_char (escape s) = true.
Proof.
  induction s as [|c s IH]; [done|]. intros [Hc Hs]%andb_true_iff. cbn [escape].
  rewrite str_all_app, IH by done. rewrite andb_true_r.
  repeat case_match; try done. rewrite byte_as_char_ascii by by apply local_char_ascii.
  simpl. by rewrite Hc.
Qed.

Lemma split_last s :
  ends_with_char "." s = true → ∃ x l, split_char "." s = x :: l ++ [EmptyString].
Proof.
  induction s as [|c s IH]; [done|]. destruct s as [|e s].
  - simpl. intros ->. by exists EmptyString, [].
  - intros He. destruct (IH He) as (x & l & E). cbn [split_char] in *. rewrite E.
    destruct (is_char "." c); [by exists EmptyString, (x :: l)|].
    by exists (String c x), l.
Qed.

Lemma valid_domain_ends d :
  is_valid_domain d = true → d ≠ EmptyString ∧ ends_with_char "." d = false.
Proof.
  unfold is_valid_domain. case_match eqn:E; [done|]. apply orb_false_iff in E as [E _].
  apply bool_decide_eq_false in E. intros [Hf _]%andb_true_iff. split; [done|].
  destruct (ends_with_char "." d) eqn:He; [|done].
  apply split_last in He as (x & l & Es). rewrite Es in Hf. exfalso.
  cbn [forallb] in Hf. rewrite forallb_app, !andb_true_iff in Hf. by destruct Hf as (_ & _ & Hf).
Qed.

Lemma encode_valid_local l d s : encode l d = Ok s → is_valid_local s = true.
Proof.
  intros (Es & Hl & Hd & Hlen)%encode_inv.
  pose proof (is_valid_local_chars _ Hl) as Cl. pose proof (is_valid_domain_chars _ Hd) as Cd.
  pose proof (local_ascii _ Cl) as Al. pose proof (local_ascii _ Cd) as Ad.
  destruct (valid_domain_ends _ Hd) as [Nd Ed].
  set (a := to_ascii_lowercase l) in *. set (b := to_ascii_lowercase d) in *.
  assert (escape b ≠ EmptyString) as Nb.
  { by apply escape_nonempty. }
  assert (ends_with_char "." (escape a) = false ∧ a ≠ EmptyString) as [Ea Na].
  { rewrite escape_end by done. unfold is_valid_local in Hl.
    destruct (bool_decide_reflect (a = EmptyString)); [done|].
    destruct (ends_with_char "." a); [|done]. by rewrite !orb_true_r in Hl. }
  unfold is_valid_local. rewrite bool_decide_false.
  2:{ rewrite Es. by destruct (escape a). }
  destruct (Z.ltb_spec MAX_LOCALPART_LEN (str_len s)); [lia|]. rewrite Es.
  assert (starts_with_char "." (escape a +:+ String "." (escape b)) = false) as ->.
  { pose proof (escape_start a Al) as Hs. pose proof (escape_nonempty a Al Na).
    by destruct (escape a). }
  assert (contains_str ".." (String "." (escape b)) = false) as Hdots.
  { rewrite dots_cons, escape_start, escape_dots by done. done. }
  rewrite (ends_app (escape a)) by done.
  rewrite dots_app by (first [exact Hdots | by apply escape_dots | by rewrite Ea]).
  assert (ends_with_char "." (String "." (escape b)) = false) as ->.
  { rewrite <- (escape_end b Ad) in Ed. by destruct (escape b). }
  simpl. rewrite str_all_app. simpl. by rewrite !escape_local.
Qed.

(** ** Properties *)

(** Encoding is lossless: a successful encoding, in any mixture of cases a
    legacy server may have folded it to, decodes to exactly the lower-cased
    pair; two pairs with the same encoding are the same up to case; and the
    encoding is a legal dot-atom local-part of at most 64 octets. *)
Theorem forwarded_roundtrip l d s :
  encode l d = Ok s →
  (∀ t, to_ascii_lowercase t = to_ascii_lowercase s →
        decode t = Some (to_ascii_lowercase l, to_ascii_lowercase d)) ∧
  (∀ l' d', encode l' d' = Ok s →
     to_ascii_lowercase l' = to_ascii_lowercase l ∧ to_ascii_lowercase d' = to_ascii_lowercase d) ∧
  is_valid_local s = true.
Proof.
  intros He. split_and!.
  - intros t Ht. eapply decode_encoded; [done|]. rewrite Ht. by eapply encode_lower.
  - intros l' d' He'. pose proof (encode_lower _ _ _ He) as Hs.
    pose proof (decode_encoded _ _ _ _ He Hs) as D1.
    pose proof (decode_encoded _ _ _ _ He' Hs) as D2. rewrite D1 in D2. by injection D2.
  - by eapply encode_valid_local.
Qed.

(** Decoding accepts canonical spellings only: whatever decodes is, up to
    case, the encoding of the pair returned, which is valid and lower case. *)
Theorem decode_is_canonical s l d :
  decode s = Some (l, d) →
  encode l d = Ok (to_ascii_lowercase s) ∧ is_valid_local l = true ∧ is_valid_domain d = true.
Proof.
  unfold decode. destruct (scan_local _) as [[l0 rest]|]; [|done]. simpl.
  destruct (unescape_component rest) as [d0|]; [|done]. simpl.
  destruct (is_valid_local l0) eqn:Hl, (is_valid_domain d0) eqn:Hd; simpl; try done.
  destruct (encode l0 d0) as [c|] eqn:He; [|done]. case_bool_decide; [|done].
  intros [= <- <-]. subst. by split_and!.
Qed.
End ForwardedAddr.

(** ** Witnesses *)
Module ForwardedAddrWitness.
Import ForwardedAddr.
Lemma forwarded_roundtrip_witness :
  decode "IMRAN-.K.my--domain-.COM" = Some ("imran.k", "my-domain.com").
Proof.
  destruct (forwarded_roundtrip "Imran.K" "my-domain.com" "imran-.k.my--domain-.com") as [H _];
    [reflexivity|].
  rewrite (H "IMRAN-.K.my--domain-.COM"); reflexivity.
Defined.

Lemma decode_is_canonical_witness :
  encode "imran" "mydomain.com" = Ok "imran.mydomain-.com".
Proof. apply (decode_is_canonical "Imran.mydomain-.com" "imran" "mydomain.com"). reflexivity. Defined.
End ForwardedAddrWitness.
