(* ===== verification/Window.v ===== *)
(** * Sliding windows

    The rate limits of the gateway keep the times of recent events in a list and
    drop what is older than a window before they compare its length with a limit.
    This file has the operations they share and the invariant that ties such a
    list to the whole history. *)

From Stdlib Require Import ZArith Lia String.
From stdpp Require Import base decidable option list strings.
From S2P Require Import Prelude.
Local Open Scope Z_scope.

Module Window.
Definition U32_MAX : Z := 4294967295.
(** [hits.len() as u32]. *)
Definition len_u32 (l : list Z) : Z := Z.of_nat (length l) mod 4294967296.
(** [hits.retain(|&t| t >= start)]. *)
Definition retain_from (start : Z) (l : list Z) : list Z := filter (λ t, start ≤ t) l.

Definition sends_of (a : string) (log : list (string * Z)) : list Z :=
  (filter (λ e, e.1 = a) log).*2.
(** How many of the times lie in the closed interval [lo, hi]. *)
Definition count_in (lo hi : Z) (l : list Z) : Z :=
  Z.of_nat (length (filter (λ t, lo ≤ t ≤ hi) l)).

(** ** The invariant

    [log] are the times ever recorded, [hits] what is remembered of them:
    at time [T] the list has forgotten only times older than the window. *)
Record window_inv (limit w T : Z) (log hits : list Z) : Prop := {
  win_times : Forall (λ t, 0 ≤ t ≤ T) log;
  win_hits : ∃ c, c ≤ Z.max 0 (T - w) ∧ hits = retain_from c log;
  win_bound : ∀ lo, count_in lo (lo + w) log ≤ limit;
}.

Lemma retain_retain a b l : a ≤ b → retain_from b (retain_from a l) = retain_from b l.
Proof.
  intros Hab. unfold retain_from. rewrite list_filter_filter. apply list_filter_iff. lia.
Qed.

Lemma count_in_snoc lo hi l t :
  count_in lo hi (l ++ [t]) = count_in lo hi l + (if decide (lo ≤ t ≤ hi) then 1 else 0).
Proof.
  unfold count_in. rewrite filter_app, length_app, filter_cons, filter_nil.
  case_decide; simpl; lia.
Qed.

Lemma filter_length_mono {A} (P Q : A → Prop) `{∀ x, Decision (P x)} `{∀ x, Decision (Q x)} l :
  Forall (λ x, P x → Q x) l → (length (filter P l) ≤ length (filter Q l))%nat.
Proof.
  induction 1 as [|x l Hx Hl IH]; [done|]. rewrite !filter_cons.
  repeat case_decide; simpl; try lia. tauto.
Qed.

Lemma window_later limit w T T' log hits :
  T ≤ T' → window_inv limit w T log hits → window_inv limit w T' log hits.
Proof.
  intros HT [Ht (c & Hc & ->) Hb]. split; [|exists c; split; [lia|done]|done].
  eapply Forall_impl; [done|]. simpl. lia.
Qed.

(** After [retain] at [now] the list is exactly the window. *)
Lemma window_retain limit w T now log hits :
  0 ≤ w → T ≤ now → window_inv limit w T log hits →
  let kept := retain_from (U64.saturating_sub now w) hits in
  window_inv limit w now log kept ∧
  Z.of_nat (length kept) = count_in (now - w) (now - w + w) log ∧ Z.of_nat (length kept) ≤ limit.
Proof.
  intros Hw HT [Ht (c & Hc & ->) Hb]. simpl. unfold U64.saturating_sub.
  rewrite retain_retain by lia.
  assert (Forall (λ t, 0 ≤ t ≤ now) log) as Ht'.
  { eapply Forall_impl; [done|]. simpl. lia. }
  assert (Z.of_nat (length (retain_from (Z.max (now - w) 0) log))
          = count_in (now - w) (now - w + w) log) as E.
  { unfold count_in, retain_from. f_equal. f_equal.
    clear -Ht'. induction Ht' as [|t l Hx Hl IH]; [done|]. rewrite !filter_cons, IH.
    repeat case_decide; try done; lia. }
  split_and!; [|done|rewrite E; apply Hb].
  split; [done| |done]. exists (Z.max (now - w) 0). split; [lia|done].
Qed.

(** Recording one more event while the window has room. *)
Lemma window_push limit w now log kept :
  0 ≤ w → 0 ≤ now → window_inv limit w now log kept →
  Z.of_nat (length kept) = count_in (now - w) (now - w + w) log → Z.of_nat (length kept) < limit →
  window_inv limit w now (log ++ [now]) (kept ++ [now]).
Proof.
  intros Hw Hn [Ht (c & Hc & Hk) Hb] Hlen Hlt. split.
  - apply Forall_app. split; [done|]. by apply Forall_singleton.
  - exists c. split; [done|]. unfold retain_from in *. rewrite filter_app, <- Hk.
    by rewrite filter_cons_True by lia.
  - intros lo. rewrite count_in_snoc. case_decide as Hin; [|specialize (Hb lo); lia].
    assert (count_in lo (lo + w) log ≤ count_in (now - w) (now - w + w) log); [|lia].
    unfold count_in. apply inj_le, filter_length_mono.
    eapply Forall_impl; [done|]. simpl. lia.
Qed.

Lemma sends_of_snoc a b t log :
  sends_of a (log ++ [(b, t)]) = sends_of a log ++ (if decide (b = a) then [t] else []).
Proof.
  unfold sends_of. rewrite filter_app, fmap_app, filter_cons, filter_nil. simpl.
  by case_decide.
Qed.

Lemma len_u32_small (l : list Z) n : Z.of_nat (length l) ≤ n → n ≤ U32_MAX → len_u32 l = Z.of_nat (length l).
Proof. intros. unfold len_u32, U32_MAX in *. apply Z.mod_small. lia. Qed.


Lemma window_empty limit w T : 0 ≤ limit → 0 ≤ T → window_inv limit w T [] [].
Proof.
  intros. split; [constructor|exists 0; split; [lia|done]|intros; unfold count_in; simpl; lia].
Qed.
End Window.
