(* ===== verification/OutboundGuard.v ===== *)
(** * The outbound sender guard

    [crates/gateway/src/outbound_guard.rs]: authenticated senders only, a burst
    rate limit, a volume cap, and a reputation backoff.  The injected clock is
    the [now] argument of each operation. *)

From Stdlib Require Import ZArith Lia Ascii String.
From stdpp Require Import base decidable option list strings gmap.
From S2P Require Import Prelude RustStr Window.
Local Open Scope Z_scope.

Module OutboundGuard.
Import Window.
Inductive SenderVerdict :=
| Allow
| Throttle (retry_after_ms : Z) (reason : string)
| Refuse (reason : string).

Definition is_allow (v : SenderVerdict) : bool := match v with Allow => true | _ => false end.

Record SenderState := {
  rate_hits : list Z;
  volume_hits : list Z;
  strikes : Z;
  backoff_until : Z;
}.
Definition SenderState_default : SenderState :=
  {| rate_hits := []; volume_hits := []; strikes := 0; backoff_until := 0 |}.

Record OutboundSenderGuard := {
  rate_limit : Z;
  rate_window_ms : Z;
  volume_cap : Z;
  volume_window_ms : Z;
  backoff_base_ms : Z;
  backoff_max_shift : Z;
  registered : option (list string);
  state : gmap string SenderState;
}.

Definition with_clock : OutboundSenderGuard := {|
  rate_limit := 20; rate_window_ms := 60000; volume_cap := 500;
  volume_window_ms := 24 * 3600000; backoff_base_ms := 300000; backoff_max_shift := 3;
  registered := None; state := ∅ |}.
Definition with_rate_limit (max window : Z) (g : OutboundSenderGuard) : OutboundSenderGuard := {|
  rate_limit := max; rate_window_ms := window; volume_cap := volume_cap g;
  volume_window_ms := volume_window_ms g; backoff_base_ms := backoff_base_ms g;
  backoff_max_shift := backoff_max_shift g; registered := registered g; state := state g |}.
Definition with_volume_cap (max window : Z) (g : OutboundSenderGuard) : OutboundSenderGuard := {|
  rate_limit := rate_limit g; rate_window_ms := rate_window_ms g; volume_cap := max;
  volume_window_ms := window; backoff_base_ms := backoff_base_ms g;
  backoff_max_shift := backoff_max_shift g; registered := registered g; state := state g |}.
Definition with_backoff (base max_shift : Z) (g : OutboundSenderGuard) : OutboundSenderGuard := {|
  rate_limit := rate_limit g; rate_window_ms := rate_window_ms g; volume_cap := volume_cap g;
  volume_window_ms := volume_window_ms g; backoff_base_ms := base;
  backoff_max_shift := max_shift; registered := registered g; state := state g |}.
Definition require_registered (accounts : list string) (g : OutboundSenderGuard)
    : OutboundSenderGuard := {|
  rate_limit := rate_limit g; rate_window_ms := rate_window_ms g; volume_cap := volume_cap g;
  volume_window_ms := volume_window_ms g; backoff_base_ms := backoff_base_ms g;
  backoff_max_shift := backoff_max_shift g; registered := Some accounts; state := state g |}.

Definition is_authenticated (account : string) (g : OutboundSenderGuard) : bool :=
  if bool_decide (trim account = EmptyString) then false
  else match registered g with
       | Some set => existsb (λ a, bool_decide (a = account)) set
       | None => false
       end.

Definition sender (account : string) (g : OutboundSenderGuard) : SenderState :=
  default SenderState_default (state g !! account).
Definition set_sender (account : string) (st : SenderState) (g : OutboundSenderGuard)
    : OutboundSenderGuard := {|
  rate_limit := rate_limit g; rate_window_ms := rate_window_ms g; volume_cap := volume_cap g;
  volume_window_ms := volume_window_ms g; backoff_base_ms := backoff_base_ms g;
  backoff_max_shift := backoff_max_shift g; registered := registered g;
  state := <[account := st]> (state g) |}.

Definition authorize_send (account : string) (now : Z) (g : OutboundSenderGuard)
    : SenderVerdict * OutboundSenderGuard :=
  if negb (is_authenticated account g) then
    (Refuse "5.7.1 outbound relay denied: sender is not an authenticated account", g)
  else
    let st := sender account g in
    if now <? backoff_until st then
      (Throttle (backoff_until st - now)
         "4.7.1 sender in reputation backoff after prior delivery failures",
       set_sender account st g)
    else
      let vstart := U64.saturating_sub now (volume_window_ms g) in
      let vhits := retain_from vstart (volume_hits st) in
      let st := {| rate_hits := rate_hits st; volume_hits := vhits; strikes := strikes st;
                   backoff_until := backoff_until st |} in
      if volume_cap g <=? len_u32 vhits then
        (Refuse "5.7.1 outbound volume cap reached for this sender; relay refused",
         set_sender account st g)
      else
        let rstart := U64.saturating_sub now (rate_window_ms g) in
        let rhits := retain_from rstart (rate_hits st) in
        let st := {| rate_hits := rhits; volume_hits := vhits; strikes := strikes st;
                     backoff_until := backoff_until st |} in
        if rate_limit g <=? len_u32 rhits then
          let retry_after :=
            match rhits with
            | oldest :: _ => U64.saturating_sub (U64.wrap (oldest + rate_window_ms g)) now
            | [] => rate_window_ms g
            end in
          (Throttle (Z.max retry_after 1) "4.7.1 per-sender outbound rate limit exceeded; slow down",
           set_sender account st g)
        else
          (Allow,
           set_sender account
             {| rate_hits := rhits ++ [now]; volume_hits := vhits ++ [now]; strikes := strikes st;
                backoff_until := backoff_until st |} g).

(** [1u64.checked_shl(shift).unwrap_or(u64::MAX)]. *)
Definition backoff_factor (shift : Z) : Z := if shift <? 64 then 2 ^ shift else U64.MAX.

Definition report_outcome (account : string) (delivered : bool) (now : Z)
    (g : OutboundSenderGuard) : OutboundSenderGuard :=
  let st := sender account g in
  if delivered then
    set_sender account
      {| rate_hits := rate_hits st; volume_hits := volume_hits st;
         strikes := Z.max (strikes st - 1) 0; backoff_until := backoff_until st |} g
  else
    let s := Z.min (strikes st + 1) U32_MAX in
    let shift := Z.min (s - 1) (backoff_max_shift g) in
    let backoff := U64.saturating_mul (backoff_base_ms g) (backoff_factor shift) in
    set_sender account
      {| rate_hits := rate_hits st; volume_hits := volume_hits st;
         strikes := s; backoff_until := U64.saturating_add now backoff |} g.

Definition strikes_of (account : string) (g : OutboundSenderGuard) : Z :=
  match state g !! account with Some s => strikes s | None => 0 end.

(** ** Histories *)

Inductive GuardOp :=
| OpSend (account : string) (now : Z)
| OpReport (account : string) (delivered : bool) (now : Z).
Definition op_time (o : GuardOp) : Z :=
  match o with OpSend _ t => t | OpReport _ _ t => t end.

(** A history, with the sends it allowed in order. *)
Fixpoint run (ops : list GuardOp) (g : OutboundSenderGuard)
    : list (string * Z) * OutboundSenderGuard :=
  match ops with
  | [] => ([], g)
  | OpSend a t :: ops =>
      let '(v, g) := authorize_send a t g in
      let '(log, g) := run ops g in
      ((if is_allow v then [(a, t)] else []) ++ log, g)
  | OpReport a d t :: ops => run ops (report_outcome a d t g)
  end.

(** ** The guard's invariant *)

Record config_wf (g : OutboundSenderGuard) : Prop := {
  cfg_rate : 0 ≤ rate_limit g ≤ U32_MAX;
  cfg_rate_window : 0 ≤ rate_window_ms g;
  cfg_volume : 0 ≤ volume_cap g ≤ U32_MAX;
  cfg_volume_window : 0 ≤ volume_window_ms g;
}.

Definition guard_inv (g : OutboundSenderGuard) (T : Z) (log : list (string * Z)) : Prop :=
  ∀ a, window_inv (rate_limit g) (rate_window_ms g) T (sends_of a log) (rate_hits (sender a g)) ∧
       window_inv (volume_cap g) (volume_window_ms g) T (sends_of a log) (volume_hits (sender a g)).

Lemma sender_set a b st g :
  sender b (set_sender a st g) = if decide (a = b) then st else sender b g.
Proof. unfold sender. simpl. rewrite lookup_insert. by case_decide. Qed.

(** Replacing one sender's state by one whose windows are right. *)
Lemma guard_inv_set g T log a st :
  guard_inv g T log →
  window_inv (rate_limit g) (rate_window_ms g) T (sends_of a log) (rate_hits st) →
  window_inv (volume_cap g) (volume_window_ms g) T (sends_of a log) (volume_hits st) →
  guard_inv (set_sender a st g) T log.
Proof.
  intros Hg Hr Hv b. rewrite sender_set. simpl. case_decide; subst; [by split|apply Hg].
Qed.

Lemma guard_inv_later g T T' log : T ≤ T' → guard_inv g T log → guard_inv g T' log.
Proof. intros HT Hg a. destruct (Hg a). split; by eapply window_later. Qed.

Lemma authorize_inv g T log a now v g' :
  config_wf g → 0 ≤ now → T ≤ now → guard_inv g T log → authorize_send a now g = (v, g') →
  config_wf g' ∧ guard_inv g' now (log ++ (if is_allow v then [(a, now)] else [])).
Proof.
  intros Hc Hn HT Hg. apply (guard_inv_later g T now log HT) in Hg.
  assert (∀ st, config_wf (set_sender a st g)) as Hcs by (intros; destruct Hc; by split).
  destruct (Hg a) as [Hr Hv]. unfold authorize_send.
  destruct (window_retain _ _ _ now _ _ (cfg_volume_window g Hc) (Z.le_refl now) Hv) as (Wv & Lv & Bv).
  destruct (window_retain _ _ _ now _ _ (cfg_rate_window g Hc) (Z.le_refl now) Hr) as (Wr & Lr & Br).
  pose proof (cfg_rate g Hc). pose proof (cfg_volume g Hc).
  destruct (negb (is_authenticated a g)); [intros [= <- <-]; simpl; by rewrite app_nil_r|].
  case_match; [intros [= <- <-]; simpl; rewrite app_nil_r; split; [done|by apply guard_inv_set]|].
  rewrite (len_u32_small _ _ Bv) by lia.
  destruct (Z.leb_spec (volume_cap g) (Z.of_nat (length
    (retain_from (U64.saturating_sub now (volume_window_ms g)) (volume_hits (sender a g)))))) as [|Hvol].
  { intros [= <- <-]. simpl. rewrite app_nil_r. split; [done|]. by apply guard_inv_set. }
  cbn [rate_hits]. rewrite (len_u32_small _ _ Br) by lia.
  destruct (Z.leb_spec (rate_limit g) (Z.of_nat (length
    (retain_from (U64.saturating_sub now (rate_window_ms g)) (rate_hits (sender a g)))))) as [|Hrate].
  { intros [= <- <-]. simpl. rewrite app_nil_r. split; [done|]. by apply guard_inv_set. }
  intros [= <- <-]. split; [done|]. intros b. rewrite sender_set. simpl. rewrite sends_of_snoc.
  case_decide as Hb; [|rewrite app_nil_r; apply Hg]. subst b. simpl.
  destruct Hc. split; by apply window_push.
Qed.

Lemma report_inv g T log a d now :
  config_wf g → T ≤ now → guard_inv g T log →
  config_wf (report_outcome a d now g) ∧ guard_inv (report_outcome a d now g) now log.
Proof.
  intros Hc HT Hg. apply (guard_inv_later g T now log HT) in Hg. destruct (Hg a).
  unfold report_outcome. destruct d; (split; [destruct Hc; by split|by apply guard_inv_set]).
Qed.

(** The clock does not go back. *)
Fixpoint times_from (T : Z) (ops : list GuardOp) : Prop :=
  match ops with [] => True | o :: ops => T ≤ op_time o ∧ times_from (op_time o) ops end.

Lemma run_inv ops g T log0 :
  config_wf g → 0 ≤ T → times_from T ops → guard_inv g T log0 →
  ∃ T', guard_inv (run ops g).2 T' (log0 ++ (run ops g).1) ∧
        rate_limit (run ops g).2 = rate_limit g ∧ rate_window_ms (run ops g).2 = rate_window_ms g ∧
        volume_cap (run ops g).2 = volume_cap g ∧ volume_window_ms (run ops g).2 = volume_window_ms g.
Proof.
  revert g T log0. induction ops as [|o ops IH]; intros g T log0 Hc HT Ht Hg.
  { exists T. simpl. by rewrite app_nil_r. }
  destruct Ht as [Ht Hts]. destruct o as [a t|a d t]; simpl in *.
  - destruct (authorize_send a t g) as [v g1] eqn:E.
    destruct (authorize_inv _ _ _ _ _ _ _ Hc (Z.le_trans _ _ _ HT Ht) Ht Hg E) as [Hc1 Hg1].
    destruct (IH g1 t _ Hc1 ltac:(lia) Hts Hg1) as (T' & Hg' & Hcfg).
    destruct (run ops g1) as [log g2]. simpl in *. exists T'. rewrite app_assoc. split; [done|].
    assert (rate_limit g1 = rate_limit g ∧ rate_window_ms g1 = rate_window_ms g ∧
            volume_cap g1 = volume_cap g ∧ volume_window_ms g1 = volume_window_ms g)
      as (<- & <- & <- & <-); [|done].
    revert E. unfold authorize_send. repeat case_match; intros [= <- <-]; done.
  - destruct (report_inv g T log0 a d t Hc Ht Hg) as [Hc1 Hg1].
    destruct (IH _ t log0 Hc1 ltac:(lia) Hts Hg1) as (T' & Hg' & Hcfg).
    exists T'. split; [done|]. unfold report_outcome in *. by destruct d.
Qed.

(** ** Properties *)

(** C7: The caps hold over every interval: on any history of sends and delivery
    reports with a clock that does not go back, no account is allowed more
    than [rate_limit] sends in any interval of [rate_window_ms], nor more than
    [volume_cap] in any of [volume_window_ms]. *)
Theorem guard_enforces_windows ops g a lo :
  config_wf g → state g = ∅ → times_from 0 ops →
  count_in lo (lo + rate_window_ms g) (sends_of a (run ops g).1) ≤ rate_limit g ∧
  count_in lo (lo + volume_window_ms g) (sends_of a (run ops g).1) ≤ volume_cap g.
Proof.
  intros Hc Hs Ht. destruct (run_inv ops g 0 [] Hc ltac:(lia) Ht) as (T & Hg & E1 & E2 & E3 & E4).
  - intros b. unfold sender. rewrite Hs, lookup_empty. destruct Hc. simpl.
    split; apply window_empty; lia.
  - destruct (Hg a) as [Hr Hv]. rewrite E1, E2 in Hr. rewrite E3, E4 in Hv.
    split; [apply Hr|apply Hv].
Qed.

(** Fail closed: an account outside the allow-list (every account, when none
    was configured) is refused and leaves no trace; and after a failed delivery
    an authenticated sender is throttled, for exactly the time left, until the
    backoff of [base * 2^min(strikes - 1, max_shift)] milliseconds, saturating,
    has passed. *)
Theorem guard_refuses_and_backs_off g a now t :
  (is_authenticated a g = false → ∃ reason, authorize_send a now g = (Refuse reason, g)) ∧
  (let g' := report_outcome a false now g in
   let until := Z.min (now + Z.min (backoff_base_ms g *
     backoff_factor (Z.min (strikes_of a g') (backoff_max_shift g + 1) - 1)) U64.MAX) U64.MAX in
   is_authenticated a g = true → t < until →
   ∃ reason g'', authorize_send a t g' = (Throttle (until - t) reason, g'')).
Proof.
  split; [intros Ha; unfold authorize_send; rewrite Ha; simpl; eauto|].
  intros g' until Ha Ht. unfold authorize_send.
  assert (is_authenticated a g' = true) as -> by done. simpl.
  assert (backoff_until (sender a g') = until) as ->.
  { unfold until, g', report_outcome. rewrite sender_set, decide_True by done. simpl.
    unfold strikes_of. simpl. rewrite lookup_insert_eq. simpl.
    unfold U64.saturating_add, U64.saturating_mul.
    set (s := Z.min (strikes (sender a g) + 1) U32_MAX).
    by replace (Z.min s (backoff_max_shift g + 1) - 1) with (Z.min (s - 1) (backoff_max_shift g)) by lia. }
  destruct (Z.ltb_spec t until); [eauto|lia].
Qed.
End OutboundGuard.

(** ** Witnesses *)
Module OutboundGuardWitness.
Import Window OutboundGuard.
Definition g : OutboundSenderGuard :=
  with_rate_limit 2 1000 (require_registered ["alice"%string] with_clock).
Definition flood : list GuardOp :=
  [OpSend "alice" 0; OpSend "alice" 10; OpSend "alice" 20; OpSend "mallory" 20; OpSend "alice" 1500].

Lemma guard_enforces_windows_witness :
  (run flood g).1 = [("alice"%string, 0); ("alice"%string, 10); ("alice"%string, 1500)] ∧
  count_in 0 1000 (sends_of "alice" (run flood g).1) ≤ 2.
Proof.
  split; [reflexivity|].
  apply (guard_enforces_windows flood g "alice" 0); [|reflexivity|simpl; lia].
  split; simpl; unfold U32_MAX; lia.
Defined.

Lemma guard_backs_off_witness :
  ∃ reason g'', authorize_send "alice" 1000 (report_outcome "alice" false 0 g)
                = (Throttle 299000 reason, g'').
Proof.
  apply (guard_refuses_and_backs_off g "alice" 0 1000); reflexivity.
Defined.
End OutboundGuardWitness.
