(* ===== verification/ColdGate.v ===== *)
(** * The cold-sender gate

    [ColdSenderGate] of [crates/gateway/src/inbound.rs]: the anti-abuse gate an
    inbound mail transaction passes at [MAIL FROM].  A block list, a list of known
    contacts, a rate limit per peer address and a greylist for cold pairs of peer
    and sender.  The clock is an argument; the mutex makes each check atomic. *)

From Stdlib Require Import ZArith Lia Ascii String.
From stdpp Require Import base decidable option list strings gmap.
From S2P Require Import Prelude RustStr Window.
Local Open Scope Z_scope.

(** [trait AntiAbuse], with the state its implementations hide behind a lock. *)
Inductive AbuseDecision := Accept | Reject (code : Z) (reason : string).
Class AntiAbuse (G : Type) := {
  abuse_check : string → string → Z → G → AbuseDecision * G;
}.

Inductive AllowAllAbuse := allow_all_abuse.
#[export] Instance AllowAllAbuse_AntiAbuse : AntiAbuse AllowAllAbuse := {|
  abuse_check _ _ _ g := (Accept, g) |}.

Module ColdGate.
Import Window.

Record GateState := {
  greylist : gmap (string * string) Z;
  accepts : gmap string (list Z);
}.

Record ColdSenderGate := {
  known_ip_prefixes : list string;
  known_senders : list string;
  blocked_ip_prefixes : list string;
  blocked_senders : list string;
  greylist_min_retry_ms : Z;
  greylist_ttl_ms : Z;
  rate_limit : Z;
  rate_window_ms : Z;
  state : GateState;
}.

Definition with_clock : ColdSenderGate := {|
  known_ip_prefixes := []; known_senders := []; blocked_ip_prefixes := []; blocked_senders := [];
  greylist_min_retry_ms := 60000; greylist_ttl_ms := 12 * 3600000;
  rate_limit := 60; rate_window_ms := 60000;
  state := {| greylist := ∅; accepts := ∅ |} |}.

Definition allow_ip_prefix (prefix : string) (g : ColdSenderGate) : ColdSenderGate := {|
  known_ip_prefixes := known_ip_prefixes g ++ [prefix]; known_senders := known_senders g;
  blocked_ip_prefixes := blocked_ip_prefixes g; blocked_senders := blocked_senders g;
  greylist_min_retry_ms := greylist_min_retry_ms g; greylist_ttl_ms := greylist_ttl_ms g;
  rate_limit := rate_limit g; rate_window_ms := rate_window_ms g; state := state g |}.
Definition allow_sender (addr : string) (g : ColdSenderGate) : ColdSenderGate := {|
  known_ip_prefixes := known_ip_prefixes g;
  known_senders := known_senders g ++ [to_ascii_lowercase addr];
  blocked_ip_prefixes := blocked_ip_prefixes g; blocked_senders := blocked_senders g;
  greylist_min_retry_ms := greylist_min_retry_ms g; greylist_ttl_ms := greylist_ttl_ms g;
  rate_limit := rate_limit g; rate_window_ms := rate_window_ms g; state := state g |}.
Definition block_ip_prefix (prefix : string) (g : ColdSenderGate) : ColdSenderGate := {|
  known_ip_prefixes := known_ip_prefixes g; known_senders := known_senders g;
  blocked_ip_prefixes := blocked_ip_prefixes g ++ [prefix]; blocked_senders := blocked_senders g;
  greylist_min_retry_ms := greylist_min_retry_ms g; greylist_ttl_ms := greylist_ttl_ms g;
  rate_limit := rate_limit g; rate_window_ms := rate_window_ms g; state := state g |}.
Definition block_sender (addr : string) (g : ColdSenderGate) : ColdSenderGate := {|
  known_ip_prefixes := known_ip_prefixes g; known_senders := known_senders g;
  blocked_ip_prefixes := blocked_ip_prefixes g;
  blocked_senders := blocked_senders g ++ [to_ascii_lowercase addr];
  greylist_min_retry_ms := greylist_min_retry_ms g; greylist_ttl_ms := greylist_ttl_ms g;
  rate_limit := rate_limit g; rate_window_ms := rate_window_ms g; state := state g |}.
Definition with_greylist (min_retry ttl : Z) (g : ColdSenderGate) : ColdSenderGate := {|
  known_ip_prefixes := known_ip_prefixes g; known_senders := known_senders g;
  blocked_ip_prefixes := blocked_ip_prefixes g; blocked_senders := blocked_senders g;
  greylist_min_retry_ms := min_retry; greylist_ttl_ms := ttl;
  rate_limit := rate_limit g; rate_window_ms := rate_window_ms g; state := state g |}.
Definition with_rate_limit (max window : Z) (g : ColdSenderGate) : ColdSenderGate := {|
  known_ip_prefixes := known_ip_prefixes g; known_senders := known_senders g;
  blocked_ip_prefixes := blocked_ip_prefixes g; blocked_senders := blocked_senders g;
  greylist_min_retry_ms := greylist_min_retry_ms g; greylist_ttl_ms := greylist_ttl_ms g;
  rate_limit := max; rate_window_ms := window; state := state g |}.

Definition is_known (peer_ip from : string) (g : ColdSenderGate) : bool :=
  existsb (λ p, starts_with p peer_ip) (known_ip_prefixes g)
  || bool_decide (to_ascii_lowercase from ∈ known_senders g).
Definition is_blocked (peer_ip from : string) (g : ColdSenderGate) : bool :=
  existsb (λ p, starts_with p peer_ip) (blocked_ip_prefixes g)
  || bool_decide (to_ascii_lowercase from ∈ blocked_senders g).

Definition with_state (st : GateState) (g : ColdSenderGate) : ColdSenderGate := {|
  known_ip_prefixes := known_ip_prefixes g; known_senders := known_senders g;
  blocked_ip_prefixes := blocked_ip_prefixes g; blocked_senders := blocked_senders g;
  greylist_min_retry_ms := greylist_min_retry_ms g; greylist_ttl_ms := greylist_ttl_ms g;
  rate_limit := rate_limit g; rate_window_ms := rate_window_ms g; state := st |}.

Definition accepts_of (peer_ip : string) (g : ColdSenderGate) : list Z :=
  default [] (accepts (state g) !! peer_ip).

(** [cold]: never seen, or seen longer ago than the greylist remembers. *)
Definition is_cold (now ttl : Z) (first_seen : option Z) : bool :=
  match first_seen with
  | Some ts => ttl <? U64.saturating_sub now ts
  | None => true
  end.

Definition check (peer_ip mail_from : string) (now : Z) (g : ColdSenderGate)
    : AbuseDecision * ColdSenderGate :=
  if is_blocked peer_ip mail_from g then (Reject 554 "5.7.1 sender blocked by policy", g)
  else if is_known peer_ip mail_from g then (Accept, g)
  else
    let window_start := U64.saturating_sub now (rate_window_ms g) in
    let hits := retain_from window_start (accepts_of peer_ip g) in
    let st := {| greylist := greylist (state g); accepts := <[peer_ip := hits]> (accepts (state g)) |} in
    if rate_limit g <=? len_u32 hits then
      (Reject 451 "4.7.1 rate limit exceeded, slow down and retry later", with_state st g)
    else
      let key := (peer_ip, mail_from) in
      let first_seen := greylist st !! key in
      if is_cold now (greylist_ttl_ms g) first_seen then
        (Reject 451 "4.7.1 greylisted — please retry shortly (cost for cold contact, §9)",
         with_state {| greylist := <[key := now]> (greylist st); accepts := accepts st |} g)
      else
        let ts := default 0 first_seen in
        if U64.saturating_sub now ts <? greylist_min_retry_ms g then
          (Reject 451 "4.7.1 greylisted — retry interval not yet elapsed", with_state st g)
        else
          (Accept, with_state {| greylist := greylist st;
                                 accepts := <[peer_ip := hits ++ [now]]> (accepts st) |} g).

#[export] Instance ColdSenderGate_AntiAbuse : AntiAbuse ColdSenderGate := {|
  abuse_check := check |}.

(** ** Histories *)

Record Event := { ev_ip : string; ev_from : string; ev_time : Z; ev_decision : AbuseDecision }.
Definition is_accept (d : AbuseDecision) : bool := match d with Accept => true | Reject _ _ => false end.

Fixpoint run (ops : list (string * string * Z)) (g : ColdSenderGate) : list Event * ColdSenderGate :=
  match ops with
  | [] => ([], g)
  | (ip, from, t) :: ops =>
      let '(d, g) := check ip from t g in
      let '(evs, g) := run ops g in
      ({| ev_ip := ip; ev_from := from; ev_time := t; ev_decision := d |} :: evs, g)
  end.

Fixpoint times_from (T : Z) (ops : list (string * string * Z)) : Prop :=
  match ops with [] => True | (_, _, t) :: ops => T ≤ t ∧ times_from t ops end.

(** The accepts that cost: those of senders that are not known contacts. *)
Definition cold_accept (g : ColdSenderGate) (e : Event) : bool :=
  is_accept (ev_decision e) && negb (is_known (ev_ip e) (ev_from e) g).
Definition cold_log (g : ColdSenderGate) (evs : list Event) : list (string * Z) :=
  (λ e, (ev_ip e, ev_time e)) <$> filter (λ e, cold_accept g e = true) evs.

(** A deferral of the same pair, early enough and recent enough. *)
Definition deferred_before (g : ColdSenderGate) (pre : list Event) (ip from : string) (t : Z) : Prop :=
  ∃ s r, {| ev_ip := ip; ev_from := from; ev_time := s; ev_decision := Reject 451 r |} ∈ pre ∧
         greylist_min_retry_ms g ≤ t - s ≤ greylist_ttl_ms g.

(** ** The invariant *)

Record gate_wf (g : ColdSenderGate) : Prop := {
  wf_rate : 0 ≤ rate_limit g ≤ U32_MAX;
  wf_window : 0 ≤ rate_window_ms g;
}.

(** The two gates have the same configuration. *)
Definition same_config (g h : ColdSenderGate) : Prop := g = with_state (state g) h.

Record gate_inv (g : ColdSenderGate) (T : Z) (evs : list Event) : Prop := {
  inv_window : ∀ ip, window_inv (rate_limit g) (rate_window_ms g) T (sends_of ip (cold_log g evs)) (accepts_of ip g);
  inv_grey : ∀ ip from s, greylist (state g) !! (ip, from) = Some s →
    s ≤ T ∧ ∃ r, {| ev_ip := ip; ev_from := from; ev_time := s; ev_decision := Reject 451 r |} ∈ evs;
  inv_paid : ∀ pre e post, evs = pre ++ e :: post → cold_accept g e = true →
    deferred_before g pre (ev_ip e) (ev_from e) (ev_time e);
}.

Lemma check_config ip from t g d g' : check ip from t g = (d, g') → same_config g' g.
Proof.
  unfold check, same_config. destruct g. repeat case_match; intros [= <- <-]; done.
Qed.

Lemma cold_log_snoc g evs e :
  cold_log g (evs ++ [e]) = cold_log g evs ++ (if cold_accept g e then [(ev_ip e, ev_time e)] else []).
Proof.
  unfold cold_log. rewrite filter_app, fmap_app, filter_cons, filter_nil.
  by destruct (cold_accept g e); simpl.
Qed.

Lemma accepts_of_insert ip ip' hits gr g :
  accepts_of ip' (with_state {| greylist := gr; accepts := <[ip := hits]> (accepts (state g)) |} g)
  = if decide (ip = ip') then hits else accepts_of ip' g.
Proof. unfold accepts_of. simpl. rewrite lookup_insert. by case_decide. Qed.

(** A new event keeps what is known about the earlier ones. *)
Lemma paid_snoc g evs e :
  (∀ pre e' post, evs = pre ++ e' :: post → cold_accept g e' = true →
     deferred_before g pre (ev_ip e') (ev_from e') (ev_time e')) →
  (cold_accept g e = true → deferred_before g evs (ev_ip e) (ev_from e) (ev_time e)) →
  ∀ pre e' post, evs ++ [e] = pre ++ e' :: post → cold_accept g e' = true →
    deferred_before g pre (ev_ip e') (ev_from e') (ev_time e').
Proof.
  intros Hold Hnew pre e' post E He'. destruct post as [|x post _] using rev_ind.
  - apply app_inj_2 in E as [-> [= ->]]; [|done]. by apply Hnew.
  - rewrite app_comm_cons, app_assoc in E. apply app_inj_2 in E as [-> _]; [|done].
    by eapply Hold.
Qed.

Lemma grey_snoc (gr : gmap (string * string) Z) T t evs e :
  T ≤ t →
  (∀ ip from s, gr !! (ip, from) = Some s → s ≤ T ∧
     ∃ r, {| ev_ip := ip; ev_from := from; ev_time := s; ev_decision := Reject 451 r |} ∈ evs) →
  ∀ ip from s, gr !! (ip, from) = Some s → s ≤ t ∧
     ∃ r, {| ev_ip := ip; ev_from := from; ev_time := s; ev_decision := Reject 451 r |} ∈ evs ++ [e].
Proof.
  intros HT H ip from s Hs. destruct (H ip from s Hs) as [Hle [r Hr]]. split; [lia|].
  exists r. apply elem_of_app. by left.
Qed.

(** A check that only forgets old accepts, and does not grant. *)
Lemma gate_inv_forget g T t evs e hits gr :
  gate_inv g T evs → T ≤ t → cold_accept g e = false →
  window_inv (rate_limit g) (rate_window_ms g) t (sends_of (ev_ip e) (cold_log g evs)) hits →
  (∀ ip from s, gr !! (ip, from) = Some s → s ≤ t ∧
     ∃ r, {| ev_ip := ip; ev_from := from; ev_time := s; ev_decision := Reject 451 r |} ∈ evs ++ [e]) →
  gate_inv (with_state {| greylist := gr; accepts := <[ev_ip e := hits]> (accepts (state g)) |} g)
    t (evs ++ [e]).
Proof.
  intros [Hw Hg Hp] HT He Hhits Hgr. split.
  - intros ip. rewrite accepts_of_insert. change (cold_log _ (evs ++ [e])) with (cold_log g (evs ++ [e])).
    rewrite cold_log_snoc, He, app_nil_r. simpl. case_decide; [by subst|].
    eapply window_later; [exact HT|apply Hw].
  - done.
  - apply paid_snoc; [exact Hp|]. intros Hc. change (cold_accept g e = true) in Hc. congruence.
Qed.

Lemma check_inv g T evs ip from t d g' :
  gate_wf g → 0 ≤ t → T ≤ t → gate_inv g T evs → check ip from t g = (d, g') →
  gate_inv g' t (evs ++ [{| ev_ip := ip; ev_from := from; ev_time := t; ev_decision := d |}]).
Proof.
  intros [Hlim Hwin] H0 HT Hinv. pose proof Hinv as [Hw Hg Hp].
  destruct (window_retain _ _ _ t _ _ Hwin HT (Hw ip)) as (Wr & Lr & Br).
  set (ev d := {| ev_ip := ip; ev_from := from; ev_time := t; ev_decision := d |}).
  assert (∀ d, cold_accept g (ev d) = false → gate_inv g t (evs ++ [ev d])) as Hsame.
  { intros d0 Hd0. split.
    - intros ip'. rewrite cold_log_snoc, Hd0, app_nil_r. eapply window_later; [exact HT|apply Hw].
    - by eapply grey_snoc.
    - apply paid_snoc; [done|]. by rewrite Hd0. }
  unfold check. destruct (is_blocked ip from g) eqn:Hb; [intros [= <- <-]; by apply Hsame|].
  destruct (is_known ip from g) eqn:Hk.
  { intros [= <- <-]. apply Hsame. unfold cold_accept, ev. simpl. by rewrite Hk. }
  rewrite (len_u32_small _ _ Br) by lia.
  destruct (Z.leb_spec (rate_limit g) (Z.of_nat (length
    (retain_from (U64.saturating_sub t (rate_window_ms g)) (accepts_of ip g))))) as [|Hroom].
  { intros [= <- <-]. apply (gate_inv_forget g T t evs (ev _)); try done. by eapply grey_snoc. }
  cbn [greylist accepts].
  destruct (is_cold t (greylist_ttl_ms g) (greylist (state g) !! (ip, from))) eqn:Hcold.
  { intros [= <- <-]. apply (gate_inv_forget g T t evs (ev _)); try done.
    intros ip' from' s [[[= -> ->] ->]|[_ Hs]]%lookup_insert_Some.
    - split; [lia|]. eexists. apply elem_of_app. right. by apply list_elem_of_singleton.
    - by eapply grey_snoc. }
  destruct (greylist (state g) !! (ip, from)) as [ts|] eqn:Hts; [simpl in *|done].
  destruct (Hg _ _ _ Hts) as [HtsT [r Hr]].
  destruct (Z.ltb_spec (U64.saturating_sub t ts) (greylist_min_retry_ms g)) as [|Hretry].
  { intros [= <- <-]. apply (gate_inv_forget g T t evs (ev _)); try done. by eapply grey_snoc. }
  intros [= <- <-]. apply Z.ltb_ge in Hcold. unfold U64.saturating_sub in Hcold, Hretry.
  assert (cold_accept g (ev Accept) = true) as Hca by (unfold cold_accept, ev; simpl; by rewrite Hk).
  split.
  - intros ip'. rewrite insert_insert_eq, accepts_of_insert.
    change (cold_log _ (evs ++ _)) with (cold_log g (evs ++ [ev Accept])).
    rewrite cold_log_snoc, Hca, sends_of_snoc. simpl. case_decide as Hip; simpl.
    + subst. by apply window_push.
    + rewrite app_nil_r. eapply window_later; [exact HT|apply Hw].
  - simpl. by eapply grey_snoc.
  - apply paid_snoc; [exact Hp|]. intros _. exists ts, r. split; [done|]. simpl. lia.
Qed.

Lemma gate_run_inv ops g T evs0 :
  gate_wf g → 0 ≤ T → times_from T ops → gate_inv g T evs0 →
  same_config (run ops g).2 g ∧ ∃ T', gate_inv (run ops g).2 T' (evs0 ++ (run ops g).1).
Proof.
  revert g T evs0. induction ops as [|[[ip from] t] ops IH]; intros g T evs0 Hwf HT Ht Hinv.
  { split; [by destruct g|]. exists T. simpl. by rewrite app_nil_r. }
  destruct Ht as [Ht Hts]. simpl. destruct (check ip from t g) as [d g1] eqn:E.
  pose proof (check_config _ _ _ _ _ _ E) as Hc.
  assert (gate_wf g1) as Hwf1 by (rewrite Hc; destruct Hwf; by split).
  assert (0 ≤ t) as H0 by lia.
  pose proof (check_inv _ _ _ _ _ _ _ _ Hwf H0 Ht Hinv E) as Hinv1.
  destruct (IH g1 t _ Hwf1 H0 Hts Hinv1) as (Hc2 & T' & Hinv').
  destruct (run ops g1) as [evs g2]. simpl in *. split.
  - unfold same_config in *. rewrite Hc2, Hc. done.
  - exists T'. by rewrite <- app_assoc in Hinv'.
Qed.

(** ** Properties *)

(** C12: The cost of cold contact is really charged: on any history of checks with a
    clock that does not go back, a sender that is no known contact is accepted
    only after the same peer and sender were deferred at least the retry delay
    and at most the greylist's memory earlier; and no peer has more than
    [rate_limit] such accepts in any interval of [rate_window_ms]. *)
Theorem cold_sender_pays ops g :
  gate_wf g → state g = {| greylist := ∅; accepts := ∅ |} → times_from 0 ops →
  (∀ ip lo, count_in lo (lo + rate_window_ms g) (sends_of ip (cold_log g (run ops g).1)) ≤ rate_limit g) ∧
  (∀ pre ip from t post,
     (run ops g).1 = pre ++ {| ev_ip := ip; ev_from := from; ev_time := t; ev_decision := Accept |} :: post →
     is_known ip from g = false → deferred_before g pre ip from t).
Proof.
  intros Hwf Hs Ht. destruct (gate_run_inv ops g 0 [] Hwf ltac:(lia) Ht) as (Hc & T & Hinv).
  { split.
    - intros ip. unfold accepts_of. rewrite Hs. destruct Hwf. by apply window_empty; lia.
    - intros ip from s. rewrite Hs. simpl. by rewrite lookup_empty.
    - intros [|x pre] y post E; discriminate E. }
  rewrite Hc in Hinv. destruct Hinv as [Hw _ Hp]. simpl in *. split.
  - intros ip lo. apply (win_bound _ _ _ _ _ (Hw ip)).
  - intros pre ip from t post E Hk. apply (Hp pre _ post E). unfold cold_accept. simpl.
    change (is_known ip from _) with (is_known ip from g). by rewrite Hk.
Qed.

(** What the gate decides, branch by branch: a blocked pair is refused for good,
    a known contact is accepted, and both leave the state alone; any other pair
    is accepted exactly when the peer has room in its window and the pair was
    first seen no less than the retry delay and no more than the memory ago, and
    is deferred otherwise. *)
Theorem gate_decides ip from now g :
  0 ≤ rate_limit g ≤ U32_MAX → Z.of_nat (length (accepts_of ip g)) ≤ U32_MAX →
  let room := Z.of_nat (length (retain_from (U64.saturating_sub now (rate_window_ms g)) (accepts_of ip g)))
              <? rate_limit g in
  let aged := match greylist (state g) !! (ip, from) with
              | Some ts => (greylist_min_retry_ms g <=? U64.saturating_sub now ts)
                           && (U64.saturating_sub now ts <=? greylist_ttl_ms g)
              | None => false
              end in
  if is_blocked ip from g then ∃ r, check ip from now g = (Reject 554 r, g)
  else if is_known ip from g then check ip from now g = (Accept, g)
  else if room && aged then (check ip from now g).1 = Accept
  else ∃ r, (check ip from now g).1 = Reject 451 r.
Proof.
  intros Hlim Hlen. cbv zeta. unfold check.
  destruct (is_blocked ip from g); [by eexists|]. destruct (is_known ip from g); [done|].
  set (hits := retain_from _ _).
  assert (Z.of_nat (length hits) ≤ U32_MAX) as Hh.
  { etransitivity; [|exact Hlen]. apply inj_le, length_filter. }
  rewrite (len_u32_small _ _ Hh) by lia. rewrite Z.leb_antisym.
  destruct (Z.of_nat (length hits) <? rate_limit g); simpl; [|by eexists].
  destruct (greylist (state g) !! (ip, from)) as [ts|]; simpl; [|by eexists].
  rewrite (Z.leb_antisym (greylist_ttl_ms g)).
  destruct (greylist_ttl_ms g <? _); simpl; [rewrite andb_false_r; by eexists|].
  rewrite Z.leb_antisym, andb_true_r. destruct (_ <? greylist_min_retry_ms g); simpl; [by eexists|done].
Qed.
End ColdGate.

(** ** Witnesses *)
Module ColdGateWitness.
Import Window ColdGate.
Definition g : ColdSenderGate :=
  with_rate_limit 1 1000 (with_greylist 100 5000 (allow_sender "Friend@x.org" with_clock)).
Definition mail : list (string * string * Z) :=
  [("10.0.0.1", "a@b", 0); ("10.0.0.1", "a@b", 50); ("10.0.0.1", "a@b", 200);
   ("10.0.0.1", "a@b", 300); ("10.0.0.2", "friend@X.org", 400)]%string.

Lemma g_wf : gate_wf g.
Proof. split; simpl; unfold U32_MAX; lia. Qed.

Lemma cold_sender_pays_witness :
  (is_accept ∘ ev_decision) <$> (run mail g).1 = [false; false; true; false; true] ∧
  count_in 0 1000 (sends_of "10.0.0.1" (cold_log g (run mail g).1)) ≤ 1.
Proof.
  split; [vm_compute; reflexivity|].
  apply (cold_sender_pays mail g); [apply g_wf|reflexivity|simpl; lia].
Defined.

Lemma gate_decides_witness : (check "10.0.0.1" "a@b" 200 (run (take 2 mail) g).2).1 = Accept.
Proof.
  refine (gate_decides "10.0.0.1" "a@b" 200 (run (take 2 mail) g).2 _ _);
    vm_compute; first [split; discriminate|discriminate].
Defined.
End ColdGateWitness.
