(* ===== verification/AliasMap.v ===== *)
(** * The random alias store

    [crates/gateway/src/alias_map.rs]: opaque tokens mapped to native addresses,
    with expiry, explicit burning and one-time use.  The bytes the OS generator
    draws are an argument: the list of draws the minting loop may go through,
    until one gives an unused token. *)

From Stdlib Require Import ZArith Lia Ascii String.
From stdpp Require Import base decidable option list strings gmap.
From S2P Require Import Prelude RustStr Base32.
Local Open Scope Z_scope.

Module AliasMap.
Definition TOKEN_ENTROPY_BYTES : nat := 16.

Inductive AliasTarget :=
| Native (local domain : string)
| Identity (key : bytes).

Inductive GatewayAliasError := Unmapped.
Definition error_code (e : GatewayAliasError) : Z := match e with Unmapped => 1541 end.

Record AliasRow := {
  target : AliasTarget;
  correspondent : option string;
  expires_at_ms : option Z;
  one_time : bool;
  burned : bool;
}.

Definition is_expired (row : AliasRow) (now : Z) : bool :=
  match expires_at_ms row with Some exp => exp <=? now | None => false end.

(** [GatewayAliasMap] is its [rows]. *)
Abbreviation GatewayAliasMap := (gmap string AliasRow).

(** [random_alias_token], of the bytes drawn. *)
Definition alias_token (raw : bytes) : string := Base32.base32_lower raw.

Fixpoint mint_loop (draws : list bytes) (row : AliasRow) (rows : GatewayAliasMap)
    : option (string * GatewayAliasMap) :=
  match draws with
  | [] => None
  | raw :: draws =>
      let token := alias_token raw in
      match rows !! token with
      | None => Some (token, <[token := row]> rows)
      | Some _ => mint_loop draws row rows
      end
  end.

Definition mint_row (draws : list bytes) (tgt : AliasTarget) (corr : option string)
    (ttl : option Z) (once : bool) (now : Z) (rows : GatewayAliasMap)
    : option (string * GatewayAliasMap) :=
  let expires := U64.saturating_add now <$> ttl in
  mint_loop draws {| target := tgt; correspondent := corr; expires_at_ms := expires;
                     one_time := once; burned := false |} rows.

Definition mint (draws : list bytes) (tgt : AliasTarget) (rows : GatewayAliasMap) :=
  mint_row draws tgt None None false 0 rows.
Definition mint_with (draws : list bytes) (tgt : AliasTarget) (corr : option string)
    (ttl : option Z) (once : bool) (now : Z) (rows : GatewayAliasMap) :=
  mint_row draws tgt corr ttl once now rows.

Definition set_burned (row : AliasRow) : AliasRow :=
  {| target := target row; correspondent := correspondent row;
     expires_at_ms := expires_at_ms row; one_time := one_time row; burned := true |}.

Definition resolve (alias : string) (now : Z) (rows : GatewayAliasMap)
    : result GatewayAliasError AliasTarget * GatewayAliasMap :=
  match rows !! alias with
  | None => (Err Unmapped, rows)
  | Some row =>
      if burned row || is_expired row now then (Err Unmapped, rows)
      else (Ok (target row),
            if one_time row then <[alias := set_burned row]> rows else rows)
  end.

Definition correspondent_of (alias : string) (now : Z) (rows : GatewayAliasMap) : option string :=
  row ← rows !! alias;
  if burned row || is_expired row now then None else correspondent row.

Definition burn (alias : string) (rows : GatewayAliasMap) : bool * GatewayAliasMap :=
  match rows !! alias with
  | Some row => (true, <[alias := set_burned row]> rows)
  | None => (false, rows)
  end.

(** ** Histories *)

Inductive AliasOp :=
| OpMint (draws : list bytes) (tgt : AliasTarget) (corr : option string) (ttl : option Z)
    (once : bool) (now : Z)
| OpResolve (alias : string) (now : Z)
| OpBurn (alias : string).

Definition run_op (rows : GatewayAliasMap) (o : AliasOp) : GatewayAliasMap :=
  match o with
  | OpMint draws tgt corr ttl once now =>
      match mint_with draws tgt corr ttl once now rows with Some (_, rows) => rows | None => rows end
  | OpResolve alias now => (resolve alias now rows).2
  | OpBurn alias => (burn alias rows).2
  end.

(** The specification of one row's life: an operation kills the alias when it
    burns it, or resolves it before its expiry while it is one-time. *)
Definition kills (alias : string) (row : AliasRow) (o : AliasOp) : bool :=
  match o with
  | OpBurn a => bool_decide (a = alias)
  | OpResolve a now => bool_decide (a = alias) && one_time row && negb (is_expired row now)
  | OpMint _ _ _ _ _ _ => false
  end.

Lemma mint_loop_spec draws row rows token rows' :
  mint_loop draws row rows = Some (token, rows') →
  rows !! token = None ∧ rows' = <[token := row]> rows ∧ ∃ raw, raw ∈ draws ∧ token = alias_token raw.
Proof.
  induction draws as [|raw draws IH]; simpl; [done|].
  destruct (rows !! alias_token raw) eqn:E.
  - intros (H1 & H2 & r & Hr & ->)%IH. split_and!; try done. exists r. set_solver.
  - intros [= <- <-]. split_and!; try done. exists raw. set_solver.
Qed.

(** One operation on a row that is present: it stays, with its burned flag. *)
Lemma run_op_row rows o alias row :
  rows !! alias = Some row →
  run_op rows o !! alias =
  Some (if negb (burned row) && kills alias row o || (match o with OpBurn a => bool_decide (a = alias) | _ => false end)
        then set_burned row else row).
Proof.
  intros Hr. destruct o as [draws tgt corr ttl once now|a now|a]; simpl.
  - rewrite andb_false_r. simpl. destruct (mint_with _ _ _ _ _ _ _) as [[tok rows']|] eqn:E; [|done].
    apply mint_loop_spec in E as (Hn & -> & _). rewrite lookup_insert_ne by congruence. done.
  - unfold resolve. rewrite orb_false_r. destruct (decide (a = alias)) as [->|Hne].
    + rewrite Hr, bool_decide_true by done. simpl.
      destruct (burned row), (is_expired row now), (one_time row); simpl; try done.
      by rewrite lookup_insert_eq.
    + rewrite bool_decide_false, andb_false_r by done. simpl.
      destruct (rows !! a); [|done]. repeat case_match; simpl; try done.
      by rewrite lookup_insert_ne.
  - unfold burn. destruct (decide (a = alias)) as [->|Hne].
    + rewrite Hr, bool_decide_true, orb_true_r by done. simpl. by rewrite lookup_insert_eq.
    + rewrite bool_decide_false, andb_false_r by done. simpl.
      destruct (rows !! a); simpl; [|done]. by rewrite lookup_insert_ne.
Qed.

Definition dead_row (alias : string) (row : AliasRow) (ops : list AliasOp) : AliasRow :=
  if existsb (kills alias row) ops then set_burned row else row.

Lemma set_burned_idem row : set_burned (set_burned row) = set_burned row.
Proof. done. Qed.

Lemma run_burned ops rows alias row :
  rows !! alias = Some row → burned row = true →
  foldl run_op rows ops !! alias = Some (set_burned row).
Proof.
  revert rows row. induction ops as [|o ops IH]; intros rows row Hr Hb; simpl.
  { rewrite Hr. destruct row; simpl in *. by subst. }
  apply run_op_row with (o := o) in Hr. rewrite Hb in Hr. simpl in Hr.
  destruct (match o with OpBurn a => bool_decide (a = alias) | _ => false end).
  - rewrite <- (set_burned_idem row). by apply IH.
  - by apply IH.
Qed.

Lemma run_row ops rows alias row :
  rows !! alias = Some row → burned row = false →
  foldl run_op rows ops !! alias = Some (dead_row alias row ops).
Proof.
  unfold dead_row. revert rows. induction ops as [|o ops IH]; intros rows Hr Hb; [done|]. simpl.
  apply run_op_row with (o := o) in Hr. rewrite Hb in Hr. simpl in Hr.
  assert (kills alias row o || (match o with OpBurn a => bool_decide (a = alias) | _ => false end)
          = kills alias row o) as Ek by (destruct o; simpl; by rewrite ?orb_diag, ?orb_false_r).
  rewrite Ek in Hr. destruct (kills alias row o); simpl.
  - rewrite <- (set_burned_idem row). by apply run_burned.
  - by apply IH.
Qed.

(** ** Properties *)

(** The life of a minted alias.  Minting takes an unused token, one of the
    drawn ones, and touches no other row.  From then on, whatever is minted,
    resolved or burned, in whatever order, resolving the token at [now] gives
    its target exactly as long as it was never burned, has not expired, and, if
    it is one-time, was not resolved before; otherwise it is unmapped. *)
Theorem alias_lifecycle draws tgt corr ttl once t0 rows token rows' ops now :
  mint_with draws tgt corr ttl once t0 rows = Some (token, rows') →
  let row := {| target := tgt; correspondent := corr;
                expires_at_ms := U64.saturating_add t0 <$> ttl; one_time := once; burned := false |} in
  rows !! token = None ∧
  (∀ a, a ≠ token → rows' !! a = rows !! a) ∧
  (resolve token now (foldl run_op rows' ops)).1 =
  if existsb (kills token row) ops || is_expired row now then Err Unmapped else Ok tgt.
Proof.
  intros (Hn & -> & _)%mint_loop_spec row. split; [done|]. split.
  { intros a Ha. by rewrite lookup_insert_ne. }
  unfold resolve. rewrite (run_row ops _ token row) by (done || apply lookup_insert_eq).
  unfold dead_row. destruct (existsb (kills token row) ops); simpl; [done|].
  by case_match.
Qed.

(** Minting terminates as soon as a draw gives an unused token, and a token is
    26 characters of [a-z2-7]: it has no dot, so it is never a forwarded
    address, and distinct draws give distinct tokens. *)
Theorem minted_token_shape draws tgt corr ttl once t0 rows :
  Forall (λ raw, length raw = TOKEN_ENTROPY_BYTES) draws →
  (∃ raw, raw ∈ draws ∧ rows !! alias_token raw = None) →
  ∃ token rows', mint_with draws tgt corr ttl once t0 rows = Some (token, rows') ∧
    str_len token = 26 ∧ str_all Base32.is_base32_char token = true ∧
    contains_char "." token = false ∧
    (∀ raw raw', raw ∈ draws → raw' ∈ draws → alias_token raw = alias_token raw' → raw = raw').
Proof.
  intros Hl (raw & Hin & Hfree).
  assert (∃ token rows', mint_with draws tgt corr ttl once t0 rows = Some (token, rows')) as (token & rows' & E).
  { unfold mint_with, mint_row. generalize (U64.saturating_add t0 <$> ttl). intros exp. clear Hl.
    induction draws as [|r draws IH]; [by apply elem_of_nil in Hin|]. simpl.
    destruct (rows !! alias_token r) eqn:Er; [|by eauto].
    apply IH. apply elem_of_cons in Hin as [->|]; [congruence|done]. }
  exists token, rows'. apply mint_loop_spec in E as Hs. destruct Hs as (_ & _ & r & Hr & ->).
  rewrite Forall_forall in Hl. pose proof (Base32.base32_lower_chars r) as Hc.
  split_and!; try done.
  - unfold alias_token. rewrite Base32.base32_lower_len, (Hl r Hr). done.
  - apply str_any_all. eapply str_all_impl; [|exact Hc]. intros c.
    destruct c as [[] [] [] [] [] [] [] []]; first [discriminate | reflexivity].
  - intros x y Hx Hy. apply Base32.base32_lower_inj. rewrite (Hl x Hx), (Hl y Hy). done.
Qed.
End AliasMap.

(** ** Witnesses *)
Module AliasMapWitness.
Import AliasMap.
Definition raw : bytes := replicate 16 Byte.xa5.
Definition tgt : AliasTarget := Native "imran" "mydomain.com".
Definition token : string := alias_token raw.

Lemma alias_lifecycle_witness :
  (resolve token 50 (foldl run_op (default ∅ (snd <$> mint_with [raw] tgt None (Some 100) true 0 ∅))
     [OpResolve "other" 10; OpResolve token 20])).1 = Err Unmapped.
Proof.
  destruct (alias_lifecycle [raw] tgt None (Some 100) true 0 ∅ token
    (default ∅ (snd <$> mint_with [raw] tgt None (Some 100) true 0 ∅))
    [OpResolve "other" 10; OpResolve token 20] 50) as (_ & _ & H); [vm_compute; reflexivity|].
  rewrite H. vm_compute. reflexivity.
Defined.

Lemma minted_token_shape_witness :
  ∃ t rows', mint_with [raw] tgt None None false 0 ∅ = Some (t, rows') ∧ str_len t = 26.
Proof.
  destruct (minted_token_shape [raw] tgt None None false 0 ∅) as (t & rows' & E & Hl & _).
  - apply Forall_singleton. reflexivity.
  - exists raw. split; [apply list_elem_of_singleton; reflexivity|reflexivity].
  - exists t, rows'. split; [exact E|exact Hl].
Defined.
End AliasMapWitness.
