(* ===== verification/Provenance.v ===== *)
(** * Gateway provenance and the bridge

    [crates/gateway/src/provenance.rs] (with [AttestationKey] of
    [attestation.rs]): the signed gateway attestation, the provenance record
    derived from a verified chain, the authorization and metering seams, and the
    bridge that ties them.  [BLAKE3] content addresses and CBOR arrays are
    kotva-core's: two more classes extend its interface. *)

From Stdlib Require Import ZArith Lia Ascii String.
From stdpp Require Import base decidable option list strings gmap.
From S2P Require Import Prelude RustStr Kotva Descriptor.
Local Open Scope Z_scope.

(** [ContentId::of(..).as_bytes()] and [.digest()]. *)
Class KotvaContentId := {
  content_id : bytes → bytes;
  content_digest : bytes → bytes;
}.
(** A content address determines its content (collision resistance, read
    symbolically). *)
Class KotvaContentIdLaws `{KotvaContentId} := {
  content_id_inj a b : content_id a = content_id b → a = b;
}.

(** [Cv::Array], [as_array] and the decoder's unknown-discriminant error. *)
Class KotvaCborArray `{KotvaCbor} := {
  cv_array : list Cv → Cv;
  as_array : Cv → result CborError (list Cv);
  unknown_discriminant : Z → CborError;
}.
Class KotvaCborArrayLaws `{KotvaCborLaws} `{!KotvaCborArray} := {
  cv_ok_array l : Forall cv_ok l → cv_ok (cv_array l);
  as_array_array l : as_array (cv_array l) = Ok l;
}.

Module Provenance.
Definition GATEWAY_ATTEST_DS : bytes := as_bytes "DMTAP-v0/gateway-attest" ++ [Byte.x00].
Definition DISC_LEGACY_BRIDGE : Z := 1.

Inductive ProvenanceError := Invalid | KeyUntrusted.
Definition ProvenanceError_code (e : ProvenanceError) : Z :=
  match e with Invalid => 1537 | KeyUntrusted => 1538 end.

Inductive Tier := Private | Fast.
Definition Tier_as_u8 (t : Tier) : Z := match t with Private => 1 | Fast => 2 end.
Inductive Profile := NotApplicable | Standard | HighSecurity.
Definition Profile_as_u8 (p : Profile) : Z :=
  match p with NotApplicable => 0 | Standard => 1 | HighSecurity => 2 end.
Inductive Origin := PureMesh | GatewayTouched.
Definition Origin_as_u8 (o : Origin) : Z := match o with PureMesh => 0 | GatewayTouched => 1 end.

Inductive BridgeDirection := Inbound | Outbound.
Inductive AuthzDecision := Allowed (account : string) | Denied (reason : string).
Inductive BridgeError := NotAuthorized (reason : string).

Record MeterEvent := {
  me_direction : BridgeDirection;
  me_account : string;
  me_domain : string;
  me_msg_digest : bytes;
  me_at : Z;
}.

(** The two seams an operator plugs in. *)
Class GatewayAuthz (A : Type) := {
  authorize : A → BridgeDirection → string → AuthzDecision }.
Class GatewayMeter (M : Type) := { record : MeterEvent → M → M }.

Record StaticGatewayAuthz := { entries : list (string * string) }.
Definition allow (domain account : string) (a : StaticGatewayAuthz) : StaticGatewayAuthz :=
  {| entries := entries a ++ [(domain, account)] |}.
#[global] Instance StaticGatewayAuthz_authz : GatewayAuthz StaticGatewayAuthz := {|
  authorize a _ domain :=
    match find_first (λ e, eq_ignore_ascii_case e.1 domain) (entries a) with
    | Some (_, account) => Allowed account
    | None => Denied (String.append "domain "
                (String.append domain " not authorized to relay through this gateway"))
    end |}.

Inductive NullMeter := mkNullMeter.
#[global] Instance NullMeter_meter : GatewayMeter NullMeter := {| record _ m := m |}.
Record CountingMeter := { events : list MeterEvent }.
#[global] Instance CountingMeter_meter : GatewayMeter CountingMeter := {|
  record e m := {| events := events m ++ [e] |} |}.

Section provenance.
Context `{KC : KotvaCbor} `{KI : KotvaIdentity} `{KD : KotvaContentId}.

Definition msg_digest (rfc5322 : bytes) : bytes := content_id rfc5322.

Record AttestationKey := { ak_domain : string; ak_selector : string; ak_key : IdentityKey }.
Definition sign_ds (k : AttestationKey) (ds preimage : bytes) : bytes :=
  sign_domain (ak_key k) ds preimage.

Record GatewayAttestation := {
  disc : Z;
  domain : string;
  selector : string;
  recv_at : Z;
  ga_msg_digest : bytes;
  legacy_from : option string;
  seq : option Z;
  sig : bytes;
}.

(** The pairs up to key 6; [to_cv] adds the signature on request. *)
Definition unsigned_pairs (a : GatewayAttestation) : list (Z * Cv) :=
  [(0, cv_u64 (disc a)); (1, cv_text (domain a)); (2, cv_text (selector a));
   (3, cv_u64 (recv_at a)); (4, cv_bytes (ga_msg_digest a))]
  ++ match legacy_from a with Some lf => [(5, cv_text lf)] | None => [] end
  ++ match seq a with Some s => [(6, cv_u64 s)] | None => [] end.
Definition to_cv (include_sig : bool) (a : GatewayAttestation) : Cv :=
  cv_map (unsigned_pairs a ++ if include_sig then [(7, cv_bytes (sig a))] else []).
Definition det_cbor (a : GatewayAttestation) : bytes := cbor_encode (to_cv true a).
Definition signing_body (a : GatewayAttestation) : bytes := cbor_encode (to_cv false a).

Definition from_cv (cv : Cv) : result CborError GatewayAttestation :=
  f ← fields_from_cv cv;
  '(v, f) ← fields_req 0 f; d ← as_u8 v;
  '(v, f) ← fields_req 1 f; dom ← as_text v;
  '(v, f) ← fields_req 2 f; sel ← as_text v;
  '(v, f) ← fields_req 3 f; at_ ← as_u64 v;
  '(v, f) ← fields_req 4 f; dig ← as_bytes_cv v;
  let '(o, f) := fields_take 5 f in
  lf ← transpose (as_text <$> o);
  let '(o, f) := fields_take 6 f in
  sq ← transpose (as_u8 <$> o);
  '(v, f) ← fields_req 7 f; s ← as_bytes_cv v;
  _ ← fields_deny_unknown f;
  Ok {| disc := d; domain := dom; selector := sel; recv_at := at_; ga_msg_digest := dig;
        legacy_from := lf; seq := sq; sig := s |}.
Definition from_det_cbor (b : bytes) : result CborError GatewayAttestation :=
  cv ← cbor_decode b; from_cv cv.

Definition sign (k : AttestationKey) (rfc5322 : bytes) (lf : option string) (at_ sq : Z)
    : GatewayAttestation :=
  let att := {| disc := DISC_LEGACY_BRIDGE; domain := ak_domain k; selector := ak_selector k;
                recv_at := at_; ga_msg_digest := msg_digest rfc5322; legacy_from := lf;
                seq := if sq =? 0 then None else Some sq; sig := [] |} in
  {| disc := disc att; domain := domain att; selector := selector att; recv_at := recv_at att;
     ga_msg_digest := ga_msg_digest att; legacy_from := legacy_from att; seq := seq att;
     sig := sign_ds k GATEWAY_ATTEST_DS (signing_body att) |}.

Definition verify (expected_domain : string) (published_key : option bytes) (rfc5322 : bytes)
    (a : GatewayAttestation) : result ProvenanceError unit :=
  if negb (disc a =? DISC_LEGACY_BRIDGE) then Err Invalid
  else if negb (eq_ignore_ascii_case (domain a) expected_domain) then Err KeyUntrusted
  else if bool_decide (ga_msg_digest a ≠ msg_digest rfc5322) then Err Invalid
  else
    key ← ok_or KeyUntrusted published_key;
    map_err (λ _, Invalid) (verify_domain key GATEWAY_ATTEST_DS (signing_body a) (sig a)).

(** *** The provenance record *)

Record ProvenanceRecord := {
  tier : Tier;
  profile : Profile;
  origin : Origin;
  gateways : list GatewayAttestation;
  min_hops : option Z;
  observed_at : option Z;
}.

Definition assemble (t : Tier) (p : Profile) (hops at_ : option Z)
    (verified : list GatewayAttestation) : ProvenanceRecord :=
  {| tier := t; profile := p;
     origin := match verified with [] => PureMesh | _ => GatewayTouched end;
     gateways := verified; min_hops := hops; observed_at := at_ |}.
Definition is_pure_mesh (r : ProvenanceRecord) : bool :=
  match origin r with PureMesh => true | GatewayTouched => false end.
Definition gateway_hops (r : ProvenanceRecord) : nat := length (gateways r).

Context `{KA : !KotvaCborArray}.

Definition Tier_from_u8 (b : Z) : result CborError Tier :=
  if b =? 1 then Ok Private else if b =? 2 then Ok Fast else Err (unknown_discriminant b).
Definition Profile_from_u8 (b : Z) : result CborError Profile :=
  if b =? 0 then Ok NotApplicable else if b =? 1 then Ok Standard
  else if b =? 2 then Ok HighSecurity else Err (unknown_discriminant b).

(** [.map(from_cv).collect::<Result<Vec<_>, _>>()]. *)
Fixpoint from_cvs (l : list Cv) : result CborError (list GatewayAttestation) :=
  match l with
  | [] => Ok []
  | cv :: l => a ← from_cv cv; r ← from_cvs l; Ok (a :: r)
  end.

Definition record_to_cv (r : ProvenanceRecord) : Cv :=
  cv_map ([(1, cv_u64 (Tier_as_u8 (tier r))); (2, cv_u64 (Profile_as_u8 (profile r)));
           (3, cv_u64 (Origin_as_u8 (origin r)));
           (4, cv_array (to_cv true <$> gateways r))]
          ++ match min_hops r with Some h => [(5, cv_u64 h)] | None => [] end
          ++ match observed_at r with Some t => [(6, cv_u64 t)] | None => [] end).
Definition record_det_cbor (r : ProvenanceRecord) : bytes := cbor_encode (record_to_cv r).

Definition record_from_det_cbor (b : bytes) : result CborError ProvenanceRecord :=
  cv ← cbor_decode b;
  f ← fields_from_cv cv;
  '(v, f) ← fields_req 1 f; t ← as_u8 v; t ← Tier_from_u8 t;
  '(v, f) ← fields_req 2 f; p ← as_u8 v; p ← Profile_from_u8 p;
  '(v, f) ← fields_req 3 f; origin_byte ← as_u8 v;
  '(v, f) ← fields_req 4 f; l ← as_array v; gs ← from_cvs l;
  let '(o, f) := fields_take 5 f in
  hops ← transpose (as_u8 <$> o);
  let '(o, f) := fields_take 6 f in
  at_ ← transpose (as_u64 <$> o);
  _ ← fields_deny_unknown f;
  match origin_byte, gs with
  | 0, [] => Ok {| tier := t; profile := p; origin := PureMesh; gateways := gs;
                   min_hops := hops; observed_at := at_ |}
  | 1, _ :: _ => Ok {| tier := t; profile := p; origin := GatewayTouched; gateways := gs;
                       min_hops := hops; observed_at := at_ |}
  | _, _ => Err (unknown_discriminant origin_byte)
  end.
End provenance.

(** *** The bridge *)

Section bridge.
Context `{KC : KotvaCbor} `{KI : KotvaIdentity} `{KD : KotvaContentId}.
Context {A M : Type} `{GA : GatewayAuthz A} `{GM : GatewayMeter M}.

Record Bridge := { att_key : AttestationKey; authz : A; meter : M }.

Definition bridge (dir : BridgeDirection) (self_host_domain : string) (rfc5322 : bytes)
    (lf : option string) (at_ : Z) (prior : list GatewayAttestation) (b : Bridge)
    : result BridgeError GatewayAttestation * Bridge :=
  match authorize (authz b) dir self_host_domain with
  | Denied reason => (Err (NotAuthorized reason), b)
  | Allowed account =>
      let sq := Z.of_nat (length prior) mod 256 in
      let att := sign (att_key b) rfc5322 lf at_ sq in
      (Ok att,
       {| att_key := att_key b; authz := authz b;
          meter := record {| me_direction := dir; me_account := account;
                             me_domain := self_host_domain;
                             me_msg_digest := ga_msg_digest att; me_at := at_ |} (meter b) |})
  end.
End bridge.
Arguments Bridge {KI} A M.

Definition chain_append (prior : list GatewayAttestation) (hop : GatewayAttestation) :=
  prior ++ [hop].

(** ** Codecs *)

Definition att_wf (a : GatewayAttestation) : Prop :=
  0 ≤ disc a < 256 ∧ U64.valid (recv_at a) ∧
  match seq a with Some s => 0 ≤ s < 256 | None => True end.
Definition record_wf (r : ProvenanceRecord) : Prop :=
  Forall att_wf (gateways r) ∧
  match min_hops r with Some h => 0 ≤ h < 256 | None => True end ∧
  match observed_at r with Some t => U64.valid t | None => True end.

Lemma u8_valid n : 0 ≤ n < 256 → U64.valid n.
Proof. unfold U64.valid, U64.MAX. lia. Qed.

Section codec_laws.
Context `{KC : KotvaCbor} `{KCL : !KotvaCborLaws} `{KI : KotvaIdentity} `{KD : KotvaContentId}.

Lemma from_to_cv a : att_wf a → from_cv (to_cv true a) = Ok a.
Proof using KCL.
  intros (Hd & Ht & Hs). unfold from_cv, to_cv, unsigned_pairs.
  destruct a as [d dom sel t dig [lf|] [sq|] sg]; simpl in *;
    repeat first
      [ fields_step
      | rewrite as_bytes_bytes; simpl
      | rewrite as_text_text; simpl
      | rewrite as_u8_u64 by done; simpl
      | rewrite as_u64_u64 by done; simpl ]; done.
Qed.

Lemma to_cv_ok b a : att_wf a → cv_ok (to_cv b a).
Proof using KCL.
  intros (Hd & Ht & Hs). apply u8_valid in Hd. unfold to_cv, unsigned_pairs.
  destruct a as [d dom sel t dig [lf|] [sq|] sg], b; simpl in *;
    try apply u8_valid in Hs; solve_cv_ok.
Qed.

(** The signing body determines every field but the signature. *)
Lemma signing_body_inj a b :
  att_wf a → att_wf b → signing_body a = signing_body b → sig a = sig b → a = b.
Proof using KCL.
  intros Ha Hb E Hsig. unfold signing_body in E.
  apply (f_equal cbor_decode) in E.
  rewrite !cbor_decode_encode in E by by apply to_cv_ok. injection E as E.
  assert (to_cv true a = to_cv true b) as E'.
  { apply (f_equal match_map) in E. unfold to_cv in *. rewrite !match_map_map in E.
    apply (inj Some) in E. rewrite !app_nil_r in E. by rewrite E, Hsig. }
  apply (f_equal from_cv) in E'. rewrite !from_to_cv in E' by done. by injection E'.
Qed.

Lemma sign_wf k m lf t s : U64.valid t → 0 ≤ s < 256 → att_wf (sign k m lf t s).
Proof using.
  intros Ht Hs. unfold att_wf, sign, DISC_LEGACY_BRIDGE. simpl.
  split; [lia|]. split; [done|]. by destruct (s =? 0).
Qed.

Lemma sign_verifies `{KIL : !KotvaIdentityLaws} k m lf t s :
  verify (ak_domain k) (Some (public (ak_key k))) m (sign k m lf t s) = Ok tt.
Proof using.
  unfold verify, sign. simpl. unfold eq_ignore_ascii_case.
  rewrite bool_decide_true by done. simpl. rewrite bool_decide_false by naive_solver. simpl.
  unfold sign_ds. (* the signing body leaves the signature out *)
  match goal with |- context [verify_domain _ _ ?b (sign_domain _ _ ?b')] => change b with b' end.
  by rewrite sign_verify.
Qed.

(** An attestation cannot be lifted: if one verifies for a body and a domain
    and carries a signature that some gateway key made over message [m], then
    it is that very attestation, the key is the one published, the body is
    [m], and the domain is the gateway's. *)
Theorem attestation_cannot_be_lifted `{KU : !KotvaUnforgeable} `{KDL : !KotvaContentIdLaws}
    a expected published body k m lf t s :
  att_wf a → U64.valid t → 0 ≤ s < 256 →
  verify expected published body a = Ok tt →
  sig a = sig (sign k m lf t s) →
  a = sign k m lf t s ∧ published = Some (public (ak_key k)) ∧ body = m ∧
  eq_ignore_ascii_case (ak_domain k) expected = true.
Proof using KCL.
  intros Ha Ht Hs Hv Hsig. unfold verify in Hv.
  destruct (disc a =? DISC_LEGACY_BRIDGE); [|done]. simpl in Hv.
  destruct (eq_ignore_ascii_case (domain a) expected) eqn:Hdom; [|done]. simpl in Hv.
  case_bool_decide as Hdig; [done|]. inv_ok. subst.
  rewrite Hsig in Hv. apply verify_binding in Hv as [-> Heq].
  apply app_inv_head in Heq.
  assert (a = sign k m lf t s) as ->.
  { apply signing_body_inj; [done|by apply sign_wf| |done]. by rewrite Heq. }
  split_and!; [done|done| |done].
  symmetry. by apply content_id_inj.
Qed.

Context `{KA : !KotvaCborArray} `{KAL : !KotvaCborArrayLaws}.

Lemma from_cvs_to_cv l : Forall att_wf l → from_cvs (to_cv true <$> l) = Ok l.
Proof using KCL.
  induction 1 as [|a l Ha Hl IH]; [done|]. rewrite fmap_cons. cbn [from_cvs].
  rewrite from_to_cv by done. cbn [mbind result_bind]. by rewrite IH.
Qed.

Lemma record_cv_ok r : record_wf r → cv_ok (record_to_cv r).
Proof using KAL.
  intros (Hg & Hh & Ht). unfold record_to_cv.
  assert (cv_ok (cv_array (to_cv true <$> gateways r))).
  { apply cv_ok_array, Forall_fmap. eapply Forall_impl; [done|]. intros. by apply to_cv_ok. }
  destruct r as [[] [] [] gs [h|] [o|]]; simpl in *; try apply u8_valid in Hh; solve_cv_ok.
Qed.

(** A client record round-trips, and whatever decodes tells the truth about
    its own chain: it says pure-mesh exactly when it carries no gateway hop. *)
Theorem provenance_record_consistent :
  (∀ t p hops at_ chain, record_wf (assemble t p hops at_ chain) →
     record_from_det_cbor (record_det_cbor (assemble t p hops at_ chain))
     = Ok (assemble t p hops at_ chain)) ∧
  (∀ b r, record_from_det_cbor b = Ok r →
     is_pure_mesh r = true ↔ gateway_hops r = 0%nat).
Proof using KAL.
  split.
  - intros t p hops at_ chain Hw. pose proof (record_cv_ok _ Hw) as Hok.
    unfold record_from_det_cbor, record_det_cbor. rewrite cbor_decode_encode by done. clear Hok.
    destruct Hw as (Hg & Hh & Ht). unfold record_to_cv. cbn [mbind result_bind].
    destruct t, p, hops as [h|], at_ as [o|]; simpl in *;
      repeat first
        [ fields_step
        | rewrite as_array_array; simpl
        | rewrite as_u8_u64 by (try case_match; simpl; lia); simpl
        | rewrite as_u64_u64 by done; simpl
        | rewrite from_cvs_to_cv by done; simpl ];
      by destruct chain.
  - intros b r H. unfold record_from_det_cbor in H. inv_ok.
    unfold is_pure_mesh, gateway_hops.
    repeat case_match; simplify_eq/=; naive_solver.
Qed.
End codec_laws.

(** ** The bridge *)

Section bridge_laws.
Context `{KC : KotvaCbor} `{KI : KotvaIdentity} `{KIL : !KotvaIdentityLaws} `{KD : KotvaContentId}.
Context {A : Type} `{GA : GatewayAuthz A}.

Definition is_allowed (d : AuthzDecision) : bool :=
  match d with Allowed _ => true | Denied _ => false end.

(** What the relay of one message is. *)
Record Relay := {
  r_dir : BridgeDirection; r_domain : string; r_body : bytes; r_from : option string; r_at : Z;
  r_prior : list GatewayAttestation }.
Definition relay (r : Relay) (b : Bridge A CountingMeter) :=
  bridge (r_dir r) (r_domain r) (r_body r) (r_from r) (r_at r) (r_prior r) b.

(** Relay a list of messages through one bridge, keeping what was attested. *)
Fixpoint relay_all (rs : list Relay) (b : Bridge A CountingMeter)
    : list (Relay * GatewayAttestation) * Bridge A CountingMeter :=
  match rs with
  | [] => ([], b)
  | r :: rs =>
      let '(res, b) := relay r b in
      let '(out, b) := relay_all rs b in
      (match res with Ok att => (r, att) :: out | Err _ => out end, b)
  end.

(** Attestation and bill agree: over any sequence of relays the meter grows
    by exactly one event per attested message, in order, carrying that
    message's digest, domain and time; every attestation verifies for its own
    message under the gateway's domain and key; and a relay the operator's
    policy denies is neither attested nor metered. *)
Theorem bridge_meters_what_it_attests rs (b : Bridge A CountingMeter) :
  let '(out, b') := relay_all rs b in
  (∃ evs, events (meter b') = events (meter b) ++ evs ∧
     Forall2 (λ e ra, me_msg_digest e = ga_msg_digest ra.2 ∧ me_domain e = r_domain ra.1 ∧
                      me_at e = r_at ra.1 ∧ me_direction e = r_dir ra.1 ∧
                      authorize (authz b) (r_dir ra.1) (r_domain ra.1) = Allowed (me_account e))
       evs out) ∧
  Forall (λ ra, verify (ak_domain (att_key b)) (Some (public (ak_key (att_key b))))
                  (r_body ra.1) ra.2 = Ok tt) out ∧
  out.*1 = filter (λ r, is_allowed (authorize (authz b) (r_dir r) (r_domain r)) = true) rs.
Proof using KIL.
  revert b. induction rs as [|r rs IH]; intros b; cbn [relay_all].
  { split; [exists []; by rewrite app_nil_r|]. done. }
  unfold relay, bridge. destruct (authorize (authz b) (r_dir r) (r_domain r)) as [acc|reason] eqn:Ea.
  - set (b1 := {| att_key := att_key b; authz := authz b; meter := _ |}).
    specialize (IH b1). destruct (relay_all rs b1) as [out b'].
    destruct IH as ((evs & He & H2) & Hv & Hf). simpl in *.
    split; [|split].
    + eexists. rewrite He, <- app_assoc. split; [done|]. simpl. constructor; [|done]. by simpl.
    + constructor; [|done]. simpl. apply sign_verifies.
    + rewrite filter_cons_True by (by rewrite Ea). cbn. by f_equal.
  - specialize (IH b). destruct (relay_all rs b) as [out b'].
    destruct IH as (He & Hv & Hf). split; [done|]. split; [done|].
    by rewrite filter_cons_False by (by rewrite Ea).
Qed.
End bridge_laws.
End Provenance.

(** ** Witnesses *)
Module ProvenanceWitness.
Import Provenance Reference.
#[export] Instance ids : KotvaContentId := {| content_id b := Byte.x1e :: b; content_digest b := b |}.
#[export] Instance ids_laws : KotvaContentIdLaws.
Proof. constructor. by intros a b [= ->]. Qed.

Definition k : AttestationKey :=
  {| ak_domain := "host.net"; ak_selector := "s1"; ak_key := ([Byte.x05] : IdentityKey) |}.
Definition body : bytes := as_bytes "Subject: hi".
Definition att : GatewayAttestation := sign k body (Some "a@b.c"%string) 1000 0.

Lemma attestation_cannot_be_lifted_witness :
  att = sign k body (Some "a@b.c"%string) 1000 0 ∧ Some (public (ak_key k)) = Some (public (ak_key k)) ∧
  body = body ∧ eq_ignore_ascii_case (ak_domain k) "HOST.net" = true.
Proof.
  apply (attestation_cannot_be_lifted att "HOST.net" (Some (public (ak_key k))) body k body
           (Some "a@b.c"%string) 1000 0).
  - apply sign_wf; [unfold U64.valid, U64.MAX|]; lia.
  - unfold U64.valid, U64.MAX. lia.
  - lia.
  - pose proof (sign_verifies k body (Some "a@b.c"%string) 1000 0) as H. exact H.
  - reflexivity.
Defined.

Definition gw : Bridge StaticGatewayAuthz CountingMeter :=
  {| att_key := k; authz := allow "host.net" "acct" {| entries := [] |}; meter := {| events := [] |} |}.
Definition to_host : Relay :=
  {| r_dir := Inbound; r_domain := "Host.Net"; r_body := body; r_from := None; r_at := 5; r_prior := [] |}.
Definition to_other : Relay :=
  {| r_dir := Inbound; r_domain := "other.net"; r_body := body; r_from := None; r_at := 6; r_prior := [] |}.

Lemma bridge_meters_witness : (relay_all [to_host; to_other] gw).1.*1 = [to_host].
Proof.
  pose proof (bridge_meters_what_it_attests [to_host; to_other] gw) as H.
  destruct (relay_all [to_host; to_other] gw) as [out b'] eqn:E.
  destruct H as (_ & _ & Hf). simpl. rewrite Hf.
  reflexivity.
Defined.

#[export] Instance arrays : KotvaCborArray := {|
  cv_array l := cv_map (imap (λ i x, (Z.of_nat i, x)) l);
  as_array c := match match_map c with Some m => Ok m.*2 | None => Err "type"%string end;
  unknown_discriminant _ := "discriminant"%string |}.
#[export] Instance arrays_laws : KotvaCborArrayLaws.
Proof.
  constructor; [done|]. intros l. simpl. f_equal.
  rewrite fmap_imap. simpl. rewrite <- (list_fmap_id l) at 2. apply imap_const.
Qed.

Lemma provenance_record_consistent_witness :
  record_from_det_cbor (record_det_cbor (assemble Fast NotApplicable None (Some 9) []))
  = Ok (assemble Fast NotApplicable None (Some 9) []).
Proof.
  destruct provenance_record_consistent as [H _]. apply H.
  split; [apply Forall_nil_2|]. split; [exact I|]. simpl. unfold U64.valid, U64.MAX. lia.
Defined.
End ProvenanceWitness.
