(* ===== verification/Attestation.v ===== *)
(** * Gateway attestations

    [crates/gateway/src/attestation.rs]: the statement "received via this gateway
    from this SMTP envelope" that travels with a wrapped message (a MOTE), signed
    by the key published for the recipient's domain. *)

From Stdlib Require Import ZArith Lia Ascii String.
From stdpp Require Import base decidable option list strings.
From S2P Require Import Prelude RustStr Kotva Provenance.
Local Open Scope Z_scope.

Module Attestation.
Import Provenance.

Definition ATTESTATION_DS : bytes := as_bytes "DMTAP-v0/gateway-attestation" ++ [Byte.x00].

Section attestation.
Context `{KI : KotvaIdentity}.

(** [AttestationKey] and [sign_ds] are in [Provenance]; these are its other
    constructor and its accessor. *)
Definition AttestationKey_sharing (domain selector : string) (key : IdentityKey) : AttestationKey :=
  {| ak_domain := domain; ak_selector := selector; ak_key := key |}.
Definition AttestationKey_public (k : AttestationKey) : bytes := public (ak_key k).

Inductive AttestationError :=
| WrongDomain | NoPublishedKey | KeyMismatch | MoteMismatch | BadSignature (e : IdentityError).

Record Attestation := {
  at_domain : string;
  at_selector : string;
  gateway_key : bytes;
  received_at : Z;
  smtp_mail_from : string;
  smtp_rcpt_to : string;
  mote_id : bytes;
  at_sig : bytes;
}.

(** [b.len() as u64] in eight bytes, then [b]. *)
Definition push (b : bytes) : bytes := be_bytes 8 (Z.of_nat (length b)) ++ b.

Definition at_signing_body (a : Attestation) : bytes :=
  push (as_bytes (at_domain a)) ++ push (as_bytes (at_selector a)) ++ push (gateway_key a) ++
  be_bytes 8 (received_at a) ++
  push (as_bytes (smtp_mail_from a)) ++ push (as_bytes (smtp_rcpt_to a)) ++ push (mote_id a).

Definition attest (k : AttestationKey) (mote : bytes) (mail_from rcpt_to : string) (at_ : Z)
    : Attestation :=
  let att := {| at_domain := ak_domain k; at_selector := ak_selector k;
                gateway_key := public (ak_key k); received_at := at_;
                smtp_mail_from := mail_from; smtp_rcpt_to := rcpt_to; mote_id := mote;
                at_sig := [] |} in
  {| at_domain := at_domain att; at_selector := at_selector att; gateway_key := gateway_key att;
     received_at := received_at att; smtp_mail_from := smtp_mail_from att;
     smtp_rcpt_to := smtp_rcpt_to att; mote_id := mote_id att;
     at_sig := sign_domain (ak_key k) ATTESTATION_DS (at_signing_body att) |}.

Definition at_verify (expected_domain : string) (published_key : option bytes) (wrapped : bytes)
    (a : Attestation) : result AttestationError unit :=
  if bool_decide (at_domain a ≠ expected_domain) then Err WrongDomain
  else if bool_decide (mote_id a ≠ wrapped) then Err MoteMismatch
  else
    published ← ok_or NoPublishedKey published_key;
    if bool_decide (published ≠ gateway_key a) then Err KeyMismatch
    else map_err BadSignature (verify_domain published ATTESTATION_DS (at_signing_body a) (at_sig a)).

(** [trait GwKeyResolver] and its in-memory implementation. *)
Record StaticGwKeys := { gw_entries : list (string * string * bytes) }.
Definition publish (domain selector : string) (key : bytes) (k : StaticGwKeys) : StaticGwKeys :=
  {| gw_entries := gw_entries k ++ [(domain, selector, key)] |}.
Definition resolve_gw_key (domain selector : string) (k : StaticGwKeys) : option bytes :=
  snd <$> find_first (λ e, bool_decide (e.1 = (domain, selector))) (gw_entries k).

(** ** The preimage determines the attestation *)

(** Lengths and times that fit their machine words. *)
Definition fits (b : bytes) : Prop := Z.of_nat (length b) ≤ U64.MAX.
Record attestation_ok (a : Attestation) : Prop := {
  ok_domain : fits (as_bytes (at_domain a));
  ok_selector : fits (as_bytes (at_selector a));
  ok_key : fits (gateway_key a);
  ok_time : U64.valid (received_at a);
  ok_from : fits (as_bytes (smtp_mail_from a));
  ok_rcpt : fits (as_bytes (smtp_rcpt_to a));
  ok_mote : fits (mote_id a);
}.

Lemma be_bytes_8_app z z' (x y : bytes) :
  U64.valid z → U64.valid z' → be_bytes 8 z ++ x = be_bytes 8 z' ++ y → z = z' ∧ x = y.
Proof.
  intros Hz Hz' E. apply app_inj_1 in E as [E ->]; [|by rewrite !be_bytes_length].
  apply be_bytes_inj in E; [done|unfold U64.valid, U64.MAX in *; simpl; lia..].
Qed.

Lemma push_app a b (x y : bytes) : fits a → fits b → push a ++ x = push b ++ y → a = b ∧ x = y.
Proof.
  unfold push, fits. intros Ha Hb E. rewrite <- !app_assoc in E.
  apply be_bytes_8_app in E as [Hlen E]; [|unfold U64.valid; lia..].
  apply app_inj_1 in E; [done|lia].
Qed.

Lemma as_bytes_inj s s' : as_bytes s = as_bytes s' → s = s'.
Proof.
  intros E. rewrite <- (String.string_of_list_byte_of_string s), E.
  apply String.string_of_list_byte_of_string.
Qed.

Lemma at_signing_body_inj a b :
  attestation_ok a → attestation_ok b → at_signing_body a = at_signing_body b → at_sig a = at_sig b →
  a = b.
Proof.
  intros [] [] E Hs. unfold at_signing_body in E.
  apply push_app in E as [E1 E]; [|done..]. apply push_app in E as [E2 E]; [|done..].
  apply push_app in E as [E3 E]; [|done..]. apply be_bytes_8_app in E as [E4 E]; [|done..].
  apply push_app in E as [E5 E]; [|done..]. apply push_app in E as [E6 E]; [|done..].
  rewrite <- (app_nil_r (push (mote_id a))), <- (app_nil_r (push (mote_id b))) in E.
  apply push_app in E as [E7 _]; [|done..].
  apply as_bytes_inj in E1, E2, E5, E6. destruct a, b. simpl in *. congruence.
Qed.

(** The attestation is accepted by a recipient that looks up the right key. *)
Lemma attest_verifies `{KIL : !KotvaIdentityLaws} k mote from to at_ :
  at_verify (ak_domain k) (Some (AttestationKey_public k)) mote (attest k mote from to at_) = Ok tt.
Proof.
  unfold at_verify, attest, AttestationKey_public. simpl.
  rewrite !bool_decide_false by naive_solver. simpl.
  match goal with |- context [verify_domain _ _ ?b (sign_domain _ _ ?b')] => change b with b' end.
  by rewrite sign_verify.
Qed.

(** ** Properties *)

(** An attestation vouches for one message only: one that verifies for a
    recipient's domain and a delivered message, and carries a signature some
    gateway key made when attesting, is that very attestation, of that message,
    envelope and time, for that domain, and the published key is the gateway's. *)
Theorem attestation_binds_envelope `{KU : !KotvaUnforgeable}
    a expected published wrapped k mote from to at_ :
  attestation_ok a → attestation_ok (attest k mote from to at_) →
  at_verify expected published wrapped a = Ok tt →
  at_sig a = at_sig (attest k mote from to at_) →
  a = attest k mote from to at_ ∧ wrapped = mote ∧ expected = ak_domain k ∧
  published = Some (AttestationKey_public k).
Proof.
  intros Ha Hb Hv Hs. unfold at_verify in Hv.
  case_bool_decide as Hd; [done|]. case_bool_decide as Hm; [done|].
  destruct published as [pk|]; [simpl in Hv|done]. case_bool_decide as Hk; [done|].
  destruct (verify_domain _ _ _ _) as [[]|] eqn:Hver; [|done]. rewrite Hs in Hver.
  apply verify_binding in Hver as [Hpk E]. apply app_inv_head in E.
  assert (a = attest k mote from to at_) as ->; [by apply at_signing_body_inj|].
  simpl in *. unfold AttestationKey_public. split_and!; congruence.
Qed.
End attestation.
End Attestation.

(** ** Witnesses *)
Module AttestationWitness.
Import Provenance Attestation Reference.
Definition k : AttestationKey := AttestationKey_sharing "host.net" "s1" ([Byte.x05] : IdentityKey).
Definition mote : bytes := [Byte.x1e; Byte.x01].

Lemma att_ok : attestation_ok (attest k mote "a@b.c" "u@host.net" 1000).
Proof. split; vm_compute; first [discriminate | split; discriminate]. Qed.

Lemma attestation_binds_envelope_witness :
  mote = mote ∧ "host.net"%string = ak_domain k ∧ Some (AttestationKey_public k) = Some [Byte.x05].
Proof.
  destruct (attestation_binds_envelope (attest k mote "a@b.c" "u@host.net" 1000) "host.net"
    (Some (AttestationKey_public k)) mote k mote "a@b.c" "u@host.net" 1000) as (_ & H1 & H2 & H3).
  - apply att_ok.
  - apply att_ok.
  - vm_compute. reflexivity.
  - reflexivity.
  - exact (conj H1 (conj H2 H3)).
Defined.
End AttestationWitness.
