(* ===== verification/KotvaMail.v ===== *)
(** * The interface of the external mail crates

    [kotva_mail::mime], [kotva_mail::smtp] and [kotva_core::mote] parse mail and
    seal messages; [psl] holds the public suffix list.  They are not part of the
    repository: what the gateway calls of them is stated here as classes, with the
    laws its code relies on. *)

From Stdlib Require Import ZArith Lia Ascii String.
From stdpp Require Import base decidable option list strings.
From S2P Require Import Prelude RustStr RustText Kotva.
Local Open Scope Z_scope.

(** [mime::headers_only], [mime::parse_address_list] (the host of each address),
    [mime::header_and_body], [mime::strip_trust_boundary_headers]. *)
Class KotvaMime := {
  headers_only : bytes → list (string * string);
  parse_address_list : string → list (option string);
  header_and_body : bytes → bytes * bytes;
  mime_strip_headers : bytes → bytes;
}.

(** Splitting a message loses nothing. *)
Class KotvaMimeLaws `{KotvaMime} := {
  header_and_body_app m : (header_and_body m).1 ++ (header_and_body m).2 = m;
}.

(** [smtp::build_mote_draft], [mote::build_mote] and the content address of an
    envelope. *)
Class KotvaMote `{KotvaIdentity} := {
  Envelope : Type;
  Draft : Type;
  MoteError : Type;
  env_id : Envelope → bytes;
  build_mote_draft : bytes → Z → Draft;
  build_mote : IdentityKey → IdentityKey → bytes → bytes → Draft → result MoteError Envelope;
}.

(** [psl::domain_str]: the registrable domain of a name, if it has one. *)
Class PublicSuffixList := {
  domain_str : string → option string;
}.
