(* ===== verification/Spf.v ===== *)
(** * SPF

    [crates/gateway/src/spf.rs]: the record parser, the evaluator with its two
    lookup budgets and its depth guard, and the choice of the identity to check
    (RFC 7208).  The resolver is a parameter; [trace] records the queries made. *)

From Stdlib Require Import ZArith Lia Ascii String.
From stdpp Require Import base decidable option list strings gmap.
From S2P Require Import Prelude RustStr RustText.
Local Open Scope Z_scope.

Module Spf.

Inductive SpfResult := Pass | Fail | SoftFail | Neutral | SpfNone | TempError | PermError.
#[global] Instance SpfResult_eq_dec : EqDecision SpfResult.
Proof. solve_decision. Defined.

Record SpfOutcome := { result : SpfResult; outcome_domain : string }.
Definition unevaluated : SpfOutcome := {| result := SpfNone; outcome_domain := EmptyString |}.

(** [trait SpfResolver]; [None] is a failed lookup, [Some []] an empty answer. *)
Class SpfResolver (R : Type) := {
  lookup_txt : R → string → option (list string);
  lookup_a : R → string → option (list Z);
  lookup_aaaa : R → string → option (list Z);
  lookup_mx : R → string → option (list string);
}.

Record InMemorySpfResolver := {
  txt : gmap string (list string);
  a : gmap string (list Z);
  aaaa : gmap string (list Z);
  mx : gmap string (list string);
  failing : gset string;
}.
Definition in_memory {A} (table : gmap string (list A)) (bad : gset string) (name : string)
    : option (list A) :=
  let key := to_ascii_lowercase name in
  if bool_decide (key ∈ bad) then None else Some (default [] (table !! key)).
#[export] Instance InMemorySpfResolver_SpfResolver : SpfResolver InMemorySpfResolver := {|
  lookup_txt r := in_memory (txt r) (failing r);
  lookup_a r := in_memory (a r) (failing r);
  lookup_aaaa r := in_memory (aaaa r) (failing r);
  lookup_mx r := in_memory (mx r) (failing r) |}.

Definition DEFAULT_MAX_LOOKUPS : Z := 10.
Definition DEFAULT_MAX_VOID_LOOKUPS : Z := 2.
Definition MAX_CHAIN_DEPTH : nat := 10.

Inductive Qualifier := QPass | QFail | QSoftFail | QNeutral.
Definition qualifier_to_result (q : Qualifier) : SpfResult :=
  match q with QPass => Pass | QFail => Fail | QSoftFail => SoftFail | QNeutral => Neutral end.

Inductive Mechanism :=
| All
| Include (target : string)
| A (domain : option string) (cidr4 cidr6 : Z)
| Mx (domain : option string) (cidr4 cidr6 : Z)
| Ip4 (net cidr : Z)
| Ip6 (net cidr : Z)
| Ptr
| Exists (target : string).

Record ParsedRecord := { mechanisms : list (Qualifier * Mechanism); redirect : option string }.

(** ** The parser *)

Definition parse_ip4_cidr (v : string) : option (Z * Z) :=
  '(addr, cidr) ← match split_once "/" v with
                  | Some (x, c) => n ← parse_u8 c; Some (x, n)
                  | None => Some (v, 32)
                  end;
  if 32 <? cidr then None else ip ← parse_ipv4 addr; Some (ip, cidr).
Definition parse_ip6_cidr (v : string) : option (Z * Z) :=
  '(addr, cidr) ← match split_once "/" v with
                  | Some (x, c) => n ← parse_u8 c; Some (x, n)
                  | None => Some (v, 128)
                  end;
  if 128 <? cidr then None else ip ← parse_ipv6 addr; Some (ip, cidr).

Definition parse_dual_cidr (cidr_part : string) : option (Z * Z) :=
  if bool_decide (cidr_part = EmptyString) then Some (32, 128)
  else match strip_prefix "//" cidr_part with
  | Some v6only => v ← parse_u8 v6only; if 128 <? v then None else Some (32, v)
  | None =>
      rest ← strip_prefix "/" cidr_part;
      match split_char "/" rest with
      | [p] => c4 ← parse_u8 p; if 32 <? c4 then None else Some (c4, 128)
      | [p; p'] =>
          c4 ← parse_u8 p; c6 ← parse_u8 p';
          if (32 <? c4) || (128 <? c6) then None else Some (c4, c6)
      | _ => None
      end
  end.

Definition parse_domain_spec (rest : string) : option (option string * Z * Z) :=
  let '(domain_part, cidr_part) := break_at (is_char "/") rest in
  domain ← match strip_prefix ":" domain_part with
           | Some d => if bool_decide (d = EmptyString) then None else Some (Some d)
           | None => if bool_decide (domain_part = EmptyString) then Some None else None
           end;
  '(c4, c6) ← parse_dual_cidr cidr_part;
  Some (domain, c4, c6).

(** What follows the colon, not empty. *)
Definition required_target (rest : string) : option string :=
  v ← strip_prefix ":" rest; if bool_decide (v = EmptyString) then None else Some v.

Definition parse_mechanism (s : string) : option Mechanism :=
  if bool_decide (s = EmptyString) then None
  else
    let '(keyword, rest) := break_at (λ c, is_char ":" c || is_char "/" c) s in
    let keyword := to_ascii_lowercase keyword in
    if bool_decide (keyword = "all"%string) then
      if bool_decide (rest = EmptyString) then Some All else None
    else if bool_decide (keyword = "include"%string) then Include <$> required_target rest
    else if bool_decide (keyword = "exists"%string) then Exists <$> required_target rest
    else if bool_decide (keyword = "a"%string) then
      '(d, c4, c6) ← parse_domain_spec rest; Some (A d c4 c6)
    else if bool_decide (keyword = "mx"%string) then
      '(d, c4, c6) ← parse_domain_spec rest; Some (Mx d c4 c6)
    else if bool_decide (keyword = "ptr"%string) then
      if negb (bool_decide (rest = EmptyString))
         && match strip_prefix ":" rest with Some d => bool_decide (d = EmptyString) | None => true end
      then None else Some Ptr
    else if bool_decide (keyword = "ip4"%string) then
      v ← strip_prefix ":" rest; '(net, cidr) ← parse_ip4_cidr v; Some (Ip4 net cidr)
    else if bool_decide (keyword = "ip6"%string) then
      v ← strip_prefix ":" rest; '(net, cidr) ← parse_ip6_cidr v; Some (Ip6 net cidr)
    else None.

Definition split_qualifier (term : string) : Qualifier * string :=
  match term with
  | String c r =>
      if is_char "+" c then (QPass, r) else if is_char "-" c then (QFail, r)
      else if is_char "~" c then (QSoftFail, r) else if is_char "?" c then (QNeutral, r)
      else (QPass, term)
  | EmptyString => (QPass, term)
  end.

Fixpoint parse_terms (terms : list string) (p : ParsedRecord) : option ParsedRecord :=
  match terms with
  | [] => Some p
  | term :: terms =>
      if bool_decide (term = EmptyString) then parse_terms terms p
      else match split_once "=" term with
      | Some (name, value) =>
          if eq_ignore_ascii_case name "redirect" then
            if bool_decide (is_Some (redirect p)) || bool_decide (value = EmptyString) then None
            else parse_terms terms {| mechanisms := mechanisms p; redirect := Some value |}
          else parse_terms terms p
      | None =>
          let '(q, rest) := split_qualifier term in
          m ← parse_mechanism rest;
          parse_terms terms {| mechanisms := mechanisms p ++ [(q, m)]; redirect := redirect p |}
      end
  end.
Definition parse_record (record : string) : option ParsedRecord :=
  match split_whitespace record with
  | version :: terms =>
      if bool_decide (version = "v=spf1"%string)
      then parse_terms terms {| mechanisms := []; redirect := None |} else None
  | [] => None
  end.

(** ** The evaluator *)

Definition U32_MAX : Z := 4294967295.
Definition U128_MAX : Z := 2 ^ 128 - 1.
Definition ipv4_in_cidr (ip net cidr : Z) : bool :=
  if cidr =? 0 then true
  else
    let cidr := Z.min cidr 32 in
    let mask := if cidr =? 32 then U32_MAX else Z.lxor U32_MAX (Z.shiftr U32_MAX cidr) in
    Z.land ip mask =? Z.land net mask.
Definition ipv6_in_cidr (ip net cidr : Z) : bool :=
  if cidr =? 0 then true
  else
    let cidr := Z.min cidr 128 in
    let mask := if cidr =? 128 then U128_MAX else Z.lxor U128_MAX (Z.shiftr U128_MAX cidr) in
    Z.land ip mask =? Z.land net mask.

Definition normalize (d : string) : string := to_ascii_lowercase (trim_end_matches "." (trim d)).
Definition is_spf1_record (t : string) : bool :=
  let t := trim t in bool_decide (t = "v=spf1"%string) || starts_with "v=spf1 " t.
Definition mechanism_has_macro (m : Mechanism) : bool :=
  match m with
  | Include d | Exists d | A (Some d) _ _ | Mx (Some d) _ _ => contains_char "%" d
  | _ => false
  end.

Inductive MechOutcome := Match | NoMatch | Abort (r : SpfResult).

Inductive Query := QTxt (name : string) | QA (name : string) | QAaaa (name : string) | QMx (name : string).
Record Evaluator := { lookups : Z; void_lookups : Z; trace : list Query }.
Definition Evaluator_new : Evaluator := {| lookups := 0; void_lookups := 0; trace := [] |}.

(** [Some r] is the error a budget that is used up returns. *)
Definition charge_lookup (ev : Evaluator) : option SpfResult * Evaluator :=
  let n := lookups ev + 1 in
  (if DEFAULT_MAX_LOOKUPS <? n then Some PermError else None,
   {| lookups := n; void_lookups := void_lookups ev; trace := trace ev |}).
Definition charge_void (ev : Evaluator) : option SpfResult * Evaluator :=
  let n := void_lookups ev + 1 in
  (if DEFAULT_MAX_VOID_LOOKUPS <? n then Some PermError else None,
   {| lookups := lookups ev; void_lookups := n; trace := trace ev |}).
Definition query (q : Query) (ev : Evaluator) : Evaluator :=
  {| lookups := lookups ev; void_lookups := void_lookups ev; trace := trace ev ++ [q] |}.

(** The answer was empty: no match, or the end of the budget. *)
Definition void_answer (ev : Evaluator) : MechOutcome * Evaluator :=
  match charge_void ev with
  | (None, ev) => (NoMatch, ev)
  | (Some e, ev) => (Abort e, ev)
  end.

Section evaluator.
(** The sender is passed along in the source and read nowhere. *)
Context {R : Type} `{SR : SpfResolver R} (resolver : R) (ip : IpAddr).

Definition match_address_lookup (target : string) (cidr4 cidr6 : Z) (ev : Evaluator)
    : MechOutcome * Evaluator :=
  match ip with
  | V4 v4 =>
      let ev := query (QA target) ev in
      match lookup_a resolver target with
      | None => (Abort TempError, ev)
      | Some [] => void_answer ev
      | Some ips => (if existsb (λ x, ipv4_in_cidr v4 x cidr4) ips then Match else NoMatch, ev)
      end
  | V6 v6 =>
      let ev := query (QAaaa target) ev in
      match lookup_aaaa resolver target with
      | None => (Abort TempError, ev)
      | Some [] => void_answer ev
      | Some ips => (if existsb (λ x, ipv6_in_cidr v6 x cidr6) ips then Match else NoMatch, ev)
      end
  end.

Fixpoint mx_hosts (hosts : list string) (cidr4 cidr6 : Z) (ev : Evaluator) : MechOutcome * Evaluator :=
  match hosts with
  | [] => (NoMatch, ev)
  | host :: hosts =>
      match charge_lookup ev with
      | (Some e, ev) => (Abort e, ev)
      | (None, ev) =>
          match match_address_lookup (normalize host) cidr4 cidr6 ev with
          | (NoMatch, ev) => mx_hosts hosts cidr4 cidr6 ev
          | done => done
          end
      end
  end.

Section mechanism.
(** [check_host] one level deeper. *)
Variable check_included : string → Evaluator → SpfResult * Evaluator.

Definition eval_mechanism (m : Mechanism) (current_domain : string) (ev : Evaluator)
    : MechOutcome * Evaluator :=
  match m with
  | All => (Match, ev)
  | Include target =>
      match charge_lookup ev with
      | (Some e, ev) => (Abort e, ev)
      | (None, ev) =>
          let '(r, ev) := check_included target ev in
          (match r with
           | Pass => Match
           | Fail | SoftFail | Neutral => NoMatch
           | TempError => Abort TempError
           | SpfNone | PermError => Abort PermError
           end, ev)
      end
  | Ip4 net cidr =>
      (match ip with V4 v4 => if ipv4_in_cidr v4 net cidr then Match else NoMatch | V6 _ => NoMatch end, ev)
  | Ip6 net cidr =>
      (match ip with V6 v6 => if ipv6_in_cidr v6 net cidr then Match else NoMatch | V4 _ => NoMatch end, ev)
  | A domain cidr4 cidr6 =>
      let target := default current_domain domain in
      match charge_lookup ev with
      | (Some e, ev) => (Abort e, ev)
      | (None, ev) => match_address_lookup (normalize target) cidr4 cidr6 ev
      end
  | Mx domain cidr4 cidr6 =>
      let target := default current_domain domain in
      match charge_lookup ev with
      | (Some e, ev) => (Abort e, ev)
      | (None, ev) =>
          let ev := query (QMx (normalize target)) ev in
          match lookup_mx resolver (normalize target) with
          | None => (Abort TempError, ev)
          | Some [] => void_answer ev
          | Some hosts => mx_hosts hosts cidr4 cidr6 ev
          end
      end
  | Ptr =>
      match charge_lookup ev with
      | (Some e, ev) => (Abort e, ev)
      | (None, ev) => (NoMatch, ev)
      end
  | Exists target =>
      match charge_lookup ev with
      | (Some e, ev) => (Abort e, ev)
      | (None, ev) =>
          let ev := query (QA (normalize target)) ev in
          match lookup_a resolver (normalize target) with
          | None => (Abort TempError, ev)
          | Some [] => void_answer ev
          | Some _ => (Match, ev)
          end
      end
  end.

(** The [for] over the mechanisms: the result it returns with, if it does. *)
Fixpoint eval_mechanisms (ms : list (Qualifier * Mechanism)) (current_domain : string) (ev : Evaluator)
    : option SpfResult * Evaluator :=
  match ms with
  | [] => (None, ev)
  | (q, m) :: ms =>
      if mechanism_has_macro m then (Some PermError, ev)
      else match eval_mechanism m current_domain ev with
      | (Match, ev) => (Some (qualifier_to_result q), ev)
      | (NoMatch, ev) => eval_mechanisms ms current_domain ev
      | (Abort r, ev) => (Some r, ev)
      end
  end.

Definition check_host_body (domain : string) (ev : Evaluator) : SpfResult * Evaluator :=
  let domain_n := normalize domain in
  if bool_decide (domain_n = EmptyString) then (SpfNone, ev)
  else
    let ev := query (QTxt domain_n) ev in
    match lookup_txt resolver domain_n with
    | None => (TempError, ev)
    | Some txts =>
        match List.filter is_spf1_record txts with
        | [] => (SpfNone, ev)
        | [record] =>
            match parse_record record with
            | None => (PermError, ev)
            | Some parsed =>
                match eval_mechanisms (mechanisms parsed) domain_n ev with
                | (Some r, ev) => (r, ev)
                | (None, ev) =>
                    match redirect parsed with
                    | None => (Neutral, ev)
                    | Some target =>
                        if contains_char "%" target then (PermError, ev)
                        else match charge_lookup ev with
                        | (Some e, ev) => (e, ev)
                        | (None, ev) => check_included target ev
                        end
                    end
                end
            end
        | _ => (PermError, ev)
        end
    end.
End mechanism.

(** [levels] is [MAX_CHAIN_DEPTH + 1 - depth], so that its end is the depth guard. *)
Fixpoint check_host_at (levels : nat) (domain : string) (ev : Evaluator) : SpfResult * Evaluator :=
  match levels with
  | O => (PermError, ev)
  | S levels => check_host_body (check_host_at levels) domain ev
  end.

Definition run_check_host (domain : string) : SpfResult * Evaluator :=
  check_host_at (S MAX_CHAIN_DEPTH) domain Evaluator_new.
End evaluator.

Definition check_host {R} `{SpfResolver R} (resolver : R) (ip : IpAddr) (domain sender : string)
    : SpfResult := (run_check_host resolver ip domain).1.

Definition domain_of (addr : string) : option string :=
  let x := trim_end_matches ">" (trim_start_matches "<" (trim addr)) in
  '(_, d) ← rsplit_once "@" x;
  if bool_decide (d = EmptyString) then None else Some d.

Definition evaluate {R} `{SpfResolver R} (resolver : R) (ip : IpAddr) (mail_from : string)
    (helo_domain : option string) : SpfOutcome :=
  let trimmed := trim mail_from in
  let is_null := bool_decide (trimmed = EmptyString) || bool_decide (trimmed = "<>"%string) in
  let helo := default EmptyString helo_domain in
  let from_helo := (String.append "postmaster@" helo, helo) in
  let '(sender, domain) :=
    if is_null then from_helo
    else match domain_of trimmed with Some d => (trimmed, d) | None => from_helo end in
  if bool_decide (domain = EmptyString) then {| result := SpfNone; outcome_domain := domain |}
  else {| result := check_host resolver ip domain sender; outcome_domain := domain |}.

(** ** The budgets *)


Definition live (ev : Evaluator) : Prop := lookups ev ≤ DEFAULT_MAX_LOOKUPS ∧ void_lookups ev ≤ DEFAULT_MAX_VOID_LOOKUPS.
(** The lookups that were allowed. *)
Definition spent (ev : Evaluator) : Z := Z.min (lookups ev) DEFAULT_MAX_LOOKUPS.

(** From [ev] to [ev'] every query but [n] was paid for, and a budget is overrun
    only by the step that then ends with an error. *)
Record budget (n : Z) (dead : Prop) (ev ev' : Evaluator) : Prop := {
  bud_mono : lookups ev ≤ lookups ev';
  bud_paid : Z.of_nat (length (trace ev')) + spent ev ≤ Z.of_nat (length (trace ev)) + spent ev' + n;
  bud_live : live ev' ∨ (lookups ev' ≤ DEFAULT_MAX_LOOKUPS + 1 ∧
                         void_lookups ev' ≤ DEFAULT_MAX_VOID_LOOKUPS + 1 ∧ dead);
}.

Ltac budget_lia :=
  unfold live, spent, DEFAULT_MAX_LOOKUPS, DEFAULT_MAX_VOID_LOOKUPS in *; simpl in *;
  rewrite ?length_app in *; simpl in *; lia.

Lemma charge_lookup_cases ev :
  match charge_lookup ev with
  | (None, ev') => lookups ev' = lookups ev + 1 ∧ lookups ev + 1 ≤ DEFAULT_MAX_LOOKUPS ∧
                   void_lookups ev' = void_lookups ev ∧ trace ev' = trace ev
  | (Some e, ev') => e = PermError ∧ lookups ev' = lookups ev + 1 ∧ DEFAULT_MAX_LOOKUPS < lookups ev + 1 ∧
                     void_lookups ev' = void_lookups ev ∧ trace ev' = trace ev
  end.
Proof. unfold charge_lookup. destruct (Z.ltb_spec DEFAULT_MAX_LOOKUPS (lookups ev + 1)); split_and!; done || lia. Qed.

Lemma void_answer_cases ev :
  match void_answer ev with
  | (o, ev') => lookups ev' = lookups ev ∧ trace ev' = trace ev ∧ void_lookups ev' = void_lookups ev + 1 ∧
      (o = NoMatch ∧ void_lookups ev' ≤ DEFAULT_MAX_VOID_LOOKUPS ∨ o = Abort PermError)
  end.
Proof.
  unfold void_answer, charge_void.
  destruct (Z.ltb_spec DEFAULT_MAX_VOID_LOOKUPS (void_lookups ev + 1)); simpl; split_and!; auto.
Qed.

(** One query of a mechanism that has been charged: its outcome and its cost. *)
Definition one_query (ev : Evaluator) (res : MechOutcome * Evaluator) : Prop :=
  lookups res.2 = lookups ev ∧ length (trace res.2) = S (length (trace ev)) ∧
  (void_lookups res.2 = void_lookups ev ∨
   void_lookups res.2 = void_lookups ev + 1 ∧
   (void_lookups res.2 ≤ DEFAULT_MAX_VOID_LOOKUPS ∨ res.1 = Abort PermError)).

Lemma one_query_void q ev : one_query ev (void_answer (query q ev)).
Proof.
  pose proof (void_answer_cases (query q ev)) as H. destruct (void_answer _) as [o ev'].
  destruct H as (Hl & Ht & Hv & Ho). unfold one_query. simpl in *. rewrite Ht, length_app. simpl.
  split; [done|]. split; [lia|]. right. split; [done|]. destruct Ho as [[Ho ?]|Ho]; auto.
Qed.
Lemma one_query_plain q o ev : one_query ev (o, query q ev).
Proof. unfold one_query. simpl. rewrite length_app. simpl. split; [done|]. split; [lia|]. by left. Qed.

Section budget_laws.
Context {R : Type} `{SR : SpfResolver R} (resolver : R) (ip : IpAddr).

Lemma match_address_query target c4 c6 ev :
  one_query ev (match_address_lookup resolver ip target c4 c6 ev).
Proof using.
  unfold match_address_lookup. destruct ip as [v|v].
  - destruct (lookup_a resolver target) as [[|x l]|]; auto using one_query_plain, one_query_void.
  - destruct (lookup_aaaa resolver target) as [[|x l]|]; auto using one_query_plain, one_query_void.
Qed.

(** A charged mechanism with one query. *)
Lemma charged_query_budget ev ev1 res :
  live ev → lookups ev1 = lookups ev + 1 → lookups ev + 1 ≤ DEFAULT_MAX_LOOKUPS →
  void_lookups ev1 = void_lookups ev → trace ev1 = trace ev → one_query ev1 res →
  budget 0 (res.1 = Abort PermError) ev res.2.
Proof using.
  intros Hl E1 E2 E3 E4 (Q1 & Q2 & Q3). destruct res as [o ev']. simpl in *. rewrite E4 in Q2.
  split; simpl; [budget_lia..|].
  destruct Q3 as [Q3|[Q3 [Q4|Q4]]]; [left; budget_lia|left; budget_lia|right].
  split_and!; [budget_lia|budget_lia|done].
Qed.

Lemma budget_refl dead ev : live ev → budget 0 dead ev ev.
Proof using. intros. split; [lia|budget_lia|by left]. Qed.

Lemma budget_trans n m d d' ev ev1 ev2 :
  budget n d ev ev1 → live ev1 → budget m d' ev1 ev2 → budget (n + m) d' ev ev2.
Proof using. intros [] Hl []. split; [lia..|done]. Qed.

Lemma budget_weaken n d d' ev ev' : budget n d ev ev' → (d → d') → budget n d' ev ev'.
Proof using. intros [] Hd. split; [done..|]. naive_solver. Qed.

Lemma charge_error_budget ev ev1 o :
  live ev → lookups ev1 = lookups ev + 1 → DEFAULT_MAX_LOOKUPS < lookups ev + 1 →
  void_lookups ev1 = void_lookups ev → trace ev1 = trace ev → o = Abort PermError →
  budget 0 (o = Abort PermError) ev ev1.
Proof using.
  intros Hl E1 E2 E3 E4 ->. split; [lia|rewrite E4; budget_lia|right]. split_and!; [budget_lia..|done].
Qed.

Lemma mx_hosts_budget hosts c4 c6 ev :
  live ev → let res := mx_hosts resolver ip hosts c4 c6 ev in budget 0 (res.1 = Abort PermError) ev res.2.
Proof using.
  revert ev. induction hosts as [|h hosts IH]; intros ev Hl; cbv zeta; cbn [mx_hosts];
    [by apply budget_refl|].
  pose proof (charge_lookup_cases ev) as Hc. destruct (charge_lookup ev) as [[e|] ev1].
  { destruct Hc as (-> & ? & ? & ? & ?). by apply (charge_error_budget ev ev1). }
  destruct Hc as (H1 & H2 & H3 & H4).
  pose proof (match_address_query (normalize h) c4 c6 ev1) as Hq.
  pose proof (charged_query_budget _ _ _ Hl H1 H2 H3 H4 Hq) as Hb.
  destruct (match_address_lookup resolver ip (normalize h) c4 c6 ev1) as [[| |r] ev2]; simpl in *; try done.
  assert (live ev2) as Hl2 by (destruct Hb as [_ _ [?|(? & ? & ?)]]; done).
  apply (budget_trans 0 0 _ _ _ _ _ Hb Hl2 (IH ev2 Hl2)).
Qed.

Definition included_ok (check : string → Evaluator → SpfResult * Evaluator) : Prop :=
  ∀ t ev, live ev → budget 1 ((check t ev).1 = PermError) ev (check t ev).2.

(** A charged recursion pays for its first query. *)
Lemma charged_check_budget check t ev ev1 :
  included_ok check → live ev → lookups ev1 = lookups ev + 1 → lookups ev + 1 ≤ DEFAULT_MAX_LOOKUPS →
  void_lookups ev1 = void_lookups ev → trace ev1 = trace ev →
  budget 0 ((check t ev1).1 = PermError) ev (check t ev1).2.
Proof using.
  intros Hc Hl E1 E2 E3 E4. destruct (Hc t ev1) as [B1 B2 B3]; [budget_lia|].
  rewrite E4 in B2. split; [lia|budget_lia|done].
Qed.

Lemma eval_mechanism_budget check m cur ev :
  included_ok check → live ev →
  let res := eval_mechanism resolver ip check m cur ev in budget 0 (res.1 = Abort PermError) ev res.2.
Proof using.
  intros Hck Hl. pose proof (charge_lookup_cases ev) as Hc.
  cbv zeta. destruct m as [|t|d c4 c6|d c4 c6|n c|n c| |t]; cbn [eval_mechanism];
    try (by apply budget_refl);
    destruct (charge_lookup ev) as [[e|] ev1];
    try (destruct Hc as (-> & ? & ? & ? & ?); by apply (charge_error_budget ev ev1));
    destruct Hc as (H1 & H2 & H3 & H4).
  - pose proof (charged_check_budget check t ev ev1 Hck Hl H1 H2 H3 H4) as Hb.
    destruct (check t ev1) as [r ev2]. simpl in *. eapply budget_weaken; [done|]. by intros ->.
  - apply (charged_query_budget ev ev1); try done. apply match_address_query.
  - destruct (lookup_mx resolver (normalize (default cur d))) as [[|h hosts]|].
    + apply (charged_query_budget ev ev1); auto using one_query_void.
    + set (q := QMx _).
      pose proof (charged_query_budget ev ev1 (NoMatch, query q ev1) Hl H1 H2 H3 H4 (one_query_plain _ _ _)) as Hb.
      assert (live (query q ev1)) as Hl1 by budget_lia.
      apply (budget_trans 0 0 _ _ _ _ _ Hb Hl1), mx_hosts_budget, Hl1.
    + apply (charged_query_budget ev ev1 (Abort TempError, query _ ev1)); auto using one_query_plain.
  - split; simpl; [lia|rewrite H4; budget_lia|left; budget_lia].
  - destruct (lookup_a resolver (normalize t)) as [[|x l]|].
    + apply (charged_query_budget ev ev1); auto using one_query_void.
    + apply (charged_query_budget ev ev1 (Match, query _ ev1)); auto using one_query_plain.
    + apply (charged_query_budget ev ev1 (Abort TempError, query _ ev1)); auto using one_query_plain.
Qed.

Lemma eval_mechanisms_budget check ms cur ev :
  included_ok check → live ev →
  let res := eval_mechanisms resolver ip check ms cur ev in budget 0 (res.1 = Some PermError) ev res.2.
Proof using.
  intros Hck. revert ev. induction ms as [|[q m] ms IH]; intros ev Hl; cbv zeta; cbn [eval_mechanisms];
    [by apply budget_refl|].
  destruct (mechanism_has_macro m); [by apply budget_refl|].
  pose proof (eval_mechanism_budget check m cur ev Hck Hl) as Hb.
  destruct (eval_mechanism resolver ip check m cur ev) as [[| |r] ev1]; simpl in *.
  - by eapply budget_weaken.
  - assert (live ev1) as Hl1 by (destruct Hb as [_ _ [?|(? & ? & ?)]]; done).
    apply (budget_trans 0 0 _ _ _ _ _ Hb Hl1 (IH ev1 Hl1)).
  - eapply budget_weaken; [done|]. by intros [= ->].
Qed.

Lemma check_host_body_budget check : included_ok check → included_ok (check_host_body resolver ip check).
Proof using.
  intros Hck t ev Hl. unfold check_host_body.
  case_bool_decide; [simpl; destruct (budget_refl (SpfNone = PermError) ev Hl); split; try done; lia|].
  set (ev1 := query _ ev).
  assert (∀ dead, budget 1 dead ev ev1) as B1 by (intros; split; [done|budget_lia|by left]).
  assert (live ev1) as Hl1 by done.
  destruct (lookup_txt resolver (normalize t)) as [txts|]; [|by apply B1].
  destruct (List.filter is_spf1_record txts) as [|rec [|rec' l]]; [by apply B1| |by apply B1].
  destruct (parse_record rec) as [p|]; [|by apply B1].
  pose proof (eval_mechanisms_budget check (mechanisms p) (normalize t) ev1 Hck Hl1) as B2.
  destruct (eval_mechanisms resolver ip check (mechanisms p) (normalize t) ev1) as [[r|] ev2]; cbn [fst snd] in *.
  { eapply budget_weaken; [apply (budget_trans 1 0 _ _ _ _ _ (B1 True) Hl1 B2)|]. by intros [= ->]. }
  assert (live ev2) as Hl2 by (destruct B2 as [_ _ [?|(? & ? & ?)]]; done).
  pose proof (budget_trans 1 0 _ _ _ _ _ (B1 True) Hl1 B2) as B3.
  assert (∀ dead, budget 1 dead ev ev2) as B4 by (intros; destruct B3; split; [done..|by left]).
  destruct (redirect p) as [target|]; [|by apply B4].
  destruct (contains_char "%" target); [by apply B4|].
  pose proof (charge_lookup_cases ev2) as Hc. destruct (charge_lookup ev2) as [[e|] ev3].
  - destruct Hc as (-> & ? & ? & ? & ?). cbn [fst snd].
    apply (budget_trans 1 0 True _ ev ev2 ev3); [by apply B4|done|].
    eapply budget_weaken; [by apply (charge_error_budget ev2 ev3 (Abort PermError))|done].
  - destruct Hc as (H1 & H2 & H3 & H4). eapply (budget_trans 1 0); [by apply (B4 True)|done|].
    by apply charged_check_budget.
Qed.

Lemma check_host_at_budget levels : included_ok (check_host_at resolver ip levels).
Proof using.
  induction levels as [|levels IH]; [|by apply check_host_body_budget].
  intros t ev Hl. simpl. split; [done|budget_lia|by left].
Qed.
End budget_laws.

(** ** Networks *)

(** The leading [c] bits of two [w]-bit words agree. *)
Definition agree (w c x y : Z) : Prop := ∀ i, w - c ≤ i < w → Z.testbit x i = Z.testbit y i.

Lemma ones_high w i : 0 ≤ w → 0 ≤ i → Z.testbit (Z.ones w) i = (i <? w).
Proof.
  intros. destruct (Z.ltb_spec i w); [apply Z.ones_spec_low; lia|apply Z.ones_spec_high; lia].
Qed.

Lemma mask_agree w c x y mask :
  0 ≤ c ≤ w → (∀ i, 0 ≤ i → Z.testbit mask i = (w - c <=? i) && (i <? w)) →
  (Z.land x mask =? Z.land y mask) = true ↔ agree w c x y.
Proof.
  intros Hc Hm. rewrite Z.eqb_eq. split.
  - intros E i Hi. apply (f_equal (λ z, Z.testbit z i)) in E.
    rewrite !Z.land_spec, Hm in E by lia.
    destruct (Z.leb_spec (w - c) i), (Z.ltb_spec i w); try lia. by rewrite !andb_true_r in E.
  - intros Ha. apply Z.bits_inj'. intros i Hi. rewrite !Z.land_spec, Hm by done.
    destruct (Z.leb_spec (w - c) i), (Z.ltb_spec i w); simpl; rewrite ?andb_false_r; try done.
    rewrite !andb_true_r. apply Ha. lia.
Qed.

Lemma prefix_mask_bits w c i :
  0 < c ≤ w → 0 ≤ i →
  Z.testbit (if c =? w then Z.ones w else Z.lxor (Z.ones w) (Z.shiftr (Z.ones w) c)) i
  = (w - c <=? i) && (i <? w).
Proof.
  intros Hc Hi. destruct (Z.eqb_spec c w) as [->|Hne].
  - rewrite ones_high by lia. destruct (Z.leb_spec (w - w) i); [done|lia].
  - rewrite Z.lxor_spec, Z.shiftr_spec, !ones_high by lia.
    destruct (Z.ltb_spec i w), (Z.ltb_spec (i + c) w), (Z.leb_spec (w - c) i); simpl; done || lia.
Qed.

Lemma in_cidr_agree w c x y :
  0 ≤ c ≤ w →
  (if c =? 0 then true
   else let mask := if Z.min c w =? w then Z.ones w
                    else Z.lxor (Z.ones w) (Z.shiftr (Z.ones w) (Z.min c w)) in
        Z.land x mask =? Z.land y mask) = true ↔ agree w c x y.
Proof.
  intros Hc. destruct (Z.eqb_spec c 0) as [->|Hne].
  - split; [|done]. intros _ i Hi. lia.
  - rewrite Z.min_l by lia. cbv zeta. apply mask_agree; [lia|]. intros i Hi. apply prefix_mask_bits; lia.
Qed.

Lemma ipv4_in_cidr_agree ip net c : 0 ≤ c ≤ 32 → ipv4_in_cidr ip net c = true ↔ agree 32 c ip net.
Proof. apply (in_cidr_agree 32 c). Qed.
Lemma ipv6_in_cidr_agree ip net c : 0 ≤ c ≤ 128 → ipv6_in_cidr ip net c = true ↔ agree 128 c ip net.
Proof. apply (in_cidr_agree 128 c). Qed.

(** The parser only lets prefix lengths through that fit. *)
Definition mech_ok (m : Mechanism) : Prop :=
  match m with
  | A _ c4 c6 | Mx _ c4 c6 => 0 ≤ c4 ≤ 32 ∧ 0 ≤ c6 ≤ 128
  | Ip4 _ c => 0 ≤ c ≤ 32
  | Ip6 _ c => 0 ≤ c ≤ 128
  | _ => True
  end.

Lemma parse_u8_nonneg s n : parse_u8 s = Some n → 0 ≤ n.
Proof.
  assert (∀ s acc m, 0 ≤ acc → read_digits acc s = Some m → 0 ≤ m) as H.
  { clear. induction s as [|c s IH]; intros acc m Ha; simpl; [by intros [= <-]|].
    unfold digit_value. destruct (is_ascii_digit c) eqn:Hd; [simpl|done].
    apply IH. unfold is_ascii_digit, char_in in Hd. lia. }
  unfold parse_u8. set (digits := match s with String _ _ => _ | _ => _ end).
  destruct digits as [|c r]; [done|]. intros (m & Hm & E)%bind_Some.
  destruct (m <=? 255); [injection E as <-|done]. by eapply (H _ 0).
Qed.

(** Closes the goals of a parser lemma from the guards the parser checked. *)
Ltac parser_bounds :=
  repeat match goal with
  | H : Some _ = Some _ |- _ => injection H as H; subst
  | H : (_, _) = (_, _) |- _ => injection H as H; subst
  | H : mbind _ _ = Some _ |- _ => apply bind_Some in H as (? & ? & H)
  | H : (if ?b then _ else _) = Some _ |- _ => destruct b eqn:?
  | H : match ?x with _ => _ end = Some _ |- _ => destruct x eqn:?
  | H : None = Some _ |- _ => discriminate H
  | H : parse_u8 _ = Some _ |- _ => apply parse_u8_nonneg in H
  | H : _ || _ = false |- _ => apply orb_false_iff in H as [? ?]
  | H : (_ <? _) = false |- _ => apply Z.ltb_ge in H
  end; simpl; try lia.

Lemma parse_dual_cidr_ok s c4 c6 : parse_dual_cidr s = Some (c4, c6) → 0 ≤ c4 ≤ 32 ∧ 0 ≤ c6 ≤ 128.
Proof. unfold parse_dual_cidr. intros H. parser_bounds. Qed.

Lemma parse_mechanism_ok s m : parse_mechanism s = Some m → mech_ok m.
Proof.
  unfold parse_mechanism, parse_domain_spec, parse_ip4_cidr, parse_ip6_cidr. intros H. parser_bounds;
    try (apply fmap_Some in H as (? & _ & ->); done); try done;
    by eapply parse_dual_cidr_ok.
Qed.

Lemma parse_record_ok record p : parse_record record = Some p → Forall (λ qm, mech_ok qm.2) (mechanisms p).
Proof.
  assert (∀ terms p p', Forall (λ qm, mech_ok qm.2) (mechanisms p) → parse_terms terms p = Some p' →
    Forall (λ qm, mech_ok qm.2) (mechanisms p')) as H.
  { clear. induction terms as [|t terms IH]; intros p p' Hp; cbn [parse_terms]; [by intros [= <-]|].
    repeat case_match; try done; try (by apply IH).
    intros (m & Hm & E)%bind_Some. apply IH in E; [done|]. simpl. apply Forall_app. split; [done|].
    apply Forall_singleton. by eapply parse_mechanism_ok. }
  unfold parse_record. repeat case_match; try done. apply H. constructor.
Qed.

(** ** What the record says

    The meaning of a published policy (RFC 7208, sections 4 and 5), as rules: no
    budgets, no order of evaluation beyond the order of the mechanisms. *)

Section semantics.
Context {R : Type} `{SR : SpfResolver R} (resolver : R) (ip : IpAddr).

Definition published (d : string) (p : ParsedRecord) : Prop :=
  normalize d ≠ EmptyString ∧
  ∃ txts record, lookup_txt resolver (normalize d) = Some txts ∧
    List.filter is_spf1_record txts = [record] ∧ parse_record record = Some p.

(** The addresses of [target] in the family of the connecting address. *)
Definition answers (target : string) (ips : list Z) : Prop :=
  match ip with
  | V4 _ => lookup_a resolver target = Some ips
  | V6 _ => lookup_aaaa resolver target = Some ips
  end.
Definition in_net (c4 c6 x : Z) : Prop :=
  match ip with V4 v => agree 32 c4 v x | V6 v => agree 128 c6 v x end.
Definition host_misses (c4 c6 : Z) (h : string) : Prop :=
  ∃ ips, answers (normalize h) ips ∧ Forall (λ x, ¬ in_net c4 c6 x) ips.
Definition host_matches (c4 c6 : Z) (h : string) : Prop :=
  ∃ ips x, answers (normalize h) ips ∧ x ∈ ips ∧ in_net c4 c6 x.

Inductive host_result : string → SpfResult → Prop :=
| host_no_name d : normalize d = EmptyString → host_result d SpfNone
| host_no_record d txts :
    normalize d ≠ EmptyString → lookup_txt resolver (normalize d) = Some txts →
    List.filter is_spf1_record txts = [] → host_result d SpfNone
| host_match d p pre q m post :
    published d p → mechanisms p = pre ++ (q, m) :: post → all_miss (normalize d) pre →
    mech_match (normalize d) m → mechanism_has_macro m = false →
    host_result d (qualifier_to_result q)
| host_redirect d p t r :
    published d p → all_miss (normalize d) (mechanisms p) → redirect p = Some t →
    contains_char "%" t = false → host_result t r → host_result d r
| host_default d p :
    published d p → all_miss (normalize d) (mechanisms p) → redirect p = None → host_result d Neutral
with mech_match : string → Mechanism → Prop :=
| match_all cur : mech_match cur All
| match_include cur t : host_result t Pass → mech_match cur (Include t)
| match_ip4 cur v net c : ip = V4 v → agree 32 c v net → mech_match cur (Ip4 net c)
| match_ip6 cur v net c : ip = V6 v → agree 128 c v net → mech_match cur (Ip6 net c)
| match_a cur d c4 c6 : host_matches c4 c6 (default cur d) → mech_match cur (A d c4 c6)
| match_mx cur d c4 c6 pre h post :
    lookup_mx resolver (normalize (default cur d)) = Some (pre ++ h :: post) →
    Forall (host_misses c4 c6) pre → host_matches c4 c6 h → mech_match cur (Mx d c4 c6)
| match_exists cur t x ips :
    lookup_a resolver (normalize t) = Some (x :: ips) → mech_match cur (Exists t)
with mech_miss : string → Mechanism → Prop :=
| miss_include cur t r :
    host_result t r → r ∈ [Fail; SoftFail; Neutral] → mech_miss cur (Include t)
| miss_ip4 cur net c : (∀ v, ip = V4 v → ¬ agree 32 c v net) → mech_miss cur (Ip4 net c)
| miss_ip6 cur net c : (∀ v, ip = V6 v → ¬ agree 128 c v net) → mech_miss cur (Ip6 net c)
| miss_a cur d c4 c6 : host_misses c4 c6 (default cur d) → mech_miss cur (A d c4 c6)
| miss_mx cur d c4 c6 hosts :
    lookup_mx resolver (normalize (default cur d)) = Some hosts →
    Forall (host_misses c4 c6) hosts → mech_miss cur (Mx d c4 c6)
| miss_ptr cur : mech_miss cur Ptr
| miss_exists cur t : lookup_a resolver (normalize t) = Some [] → mech_miss cur (Exists t)
with all_miss : string → list (Qualifier * Mechanism) → Prop :=
| all_miss_nil cur : all_miss cur []
| all_miss_cons cur q m ms :
    mech_miss cur m → mechanism_has_macro m = false → all_miss cur ms → all_miss cur ((q, m) :: ms).

(** A result that is an answer, not an error. *)
Definition definite (r : SpfResult) : Prop := r ≠ TempError ∧ r ≠ PermError.

(** ** The evaluator follows the rules *)

Lemma existsb_in_net (p : Z → bool) (P : Z → Prop) ips :
  (∀ x, p x = true ↔ P x) →
  if existsb p ips then ∃ x, x ∈ ips ∧ P x else Forall (λ x, ¬ P x) ips.
Proof using.
  intros Hp. destruct (existsb p ips) eqn:E.
  - apply existsb_exists in E as (x & Hin & Hx). exists x. split; [by apply list_elem_of_In|by apply Hp].
  - apply Forall_forall. intros x Hin Hx. apply Hp in Hx.
    assert (existsb p ips = true); [|congruence].
    apply existsb_exists. exists x. split; [by apply list_elem_of_In|done].
Qed.

Lemma void_answer_outcome ev : (void_answer ev).1 = NoMatch ∨ (void_answer ev).1 = Abort PermError.
Proof using. pose proof (void_answer_cases ev). destruct (void_answer ev). naive_solver. Qed.

(** The address lookup decides its rule, or ends with an error. *)
Lemma match_address_sound h c4 c6 ev :
  0 ≤ c4 ≤ 32 → 0 ≤ c6 ≤ 128 →
  match (match_address_lookup resolver ip (normalize h) c4 c6 ev).1 with
  | Match => host_matches c4 c6 h
  | NoMatch => host_misses c4 c6 h
  | Abort r => ¬ definite r
  end.
Proof using.
  intros H4 H6. unfold match_address_lookup, host_matches, host_misses, answers, in_net.
  assert (∀ ips : list Z, ips = [] → ∀ q, (∃ ips, Some (@nil Z) = Some ips ∧ Forall (λ x : Z, ¬ q x) ips))
    as Hnil by (intros; exists []; split; [done|constructor]).
  destruct ip as [v|v].
  - destruct (lookup_a resolver (normalize h)) as [[|x l]|]; [| |by intros []].
    + destruct (void_answer_outcome (query (QA (normalize h)) ev)) as [-> | ->];
        [by apply (Hnil [])|by intros []].
    + pose proof (existsb_in_net (λ y, ipv4_in_cidr v y c4) (agree 32 c4 v) (x :: l)
        (λ y, ipv4_in_cidr_agree v y c4 H4)) as E.
      set (l0 := x :: l) in *. cbn [fst]. destruct (existsb _ l0); [|by exists l0].
      destruct E as (y & Hy & Hin). by exists l0, y.
  - destruct (lookup_aaaa resolver (normalize h)) as [[|x l]|]; [| |by intros []].
    + destruct (void_answer_outcome (query (QAaaa (normalize h)) ev)) as [-> | ->];
        [by apply (Hnil [])|by intros []].
    + pose proof (existsb_in_net (λ y, ipv6_in_cidr v y c6) (agree 128 c6 v) (x :: l)
        (λ y, ipv6_in_cidr_agree v y c6 H6)) as E.
      set (l0 := x :: l) in *. cbn [fst]. destruct (existsb _ l0); [|by exists l0].
      destruct E as (y & Hy & Hin). by exists l0, y.
Qed.

Lemma mx_hosts_sound hosts c4 c6 ev :
  0 ≤ c4 ≤ 32 → 0 ≤ c6 ≤ 128 →
  match (mx_hosts resolver ip hosts c4 c6 ev).1 with
  | Match => ∃ pre h post, hosts = pre ++ h :: post ∧ Forall (host_misses c4 c6) pre ∧ host_matches c4 c6 h
  | NoMatch => Forall (host_misses c4 c6) hosts
  | Abort r => ¬ definite r
  end.
Proof using.
  intros H4 H6. revert ev. induction hosts as [|h hosts IH]; intros ev; cbn [mx_hosts]; [constructor|].
  pose proof (charge_lookup_cases ev) as Hc. destruct (charge_lookup ev) as [[e|] ev1].
  { destruct Hc as (-> & _). by intros []. }
  pose proof (match_address_sound h c4 c6 ev1 H4 H6) as Ha.
  destruct (match_address_lookup resolver ip (normalize h) c4 c6 ev1) as [[| |r] ev2]; cbn [fst] in *.
  - exists [], h, hosts. split_and!; [done|constructor|done].
  - specialize (IH ev2). destruct (mx_hosts resolver ip hosts c4 c6 ev2) as [[| |r] ev3]; cbn [fst] in *.
    + destruct IH as (pre & h' & post & -> & Hpre & Hh). exists (h :: pre), h', post.
      split_and!; [done|by constructor|done].
    + by constructor.
    + done.
  - done.
Qed.

Definition check_sound (check : string → Evaluator → SpfResult * Evaluator) : Prop :=
  ∀ t ev, definite (check t ev).1 → host_result t (check t ev).1.

Lemma eval_mechanism_sound check m cur ev :
  check_sound check → mech_ok m →
  match (eval_mechanism resolver ip check m cur ev).1 with
  | Match => mech_match cur m
  | NoMatch => mech_miss cur m
  | Abort r => ¬ definite r
  end.
Proof using.
  intros Hck Hm. pose proof (charge_lookup_cases ev) as Hc.
  destruct m as [|t|d c4 c6|d c4 c6|net c|net c| |t]; cbn [eval_mechanism mech_ok] in *;
    try (destruct (charge_lookup ev) as [[e|] ev1]; [destruct Hc as (-> & _); by intros []|]).
  - constructor.
  - pose proof (Hck t ev1) as Hr. destruct (check t ev1) as [r ev2]. cbn [fst] in *.
    destruct r; try (by intros []); econstructor; try (apply Hr; done); set_solver.
  - destruct Hm as [H4 H6]. pose proof (match_address_sound (default cur d) c4 c6 ev1 H4 H6) as Ha.
    destruct (match_address_lookup _ _ _ _ _ _) as [[| |r] ev2]; cbn [fst] in *; by try constructor.
  - destruct Hm as [H4 H6].
    destruct (lookup_mx resolver (normalize (default cur d))) as [[|h hosts]|] eqn:Hmx; [| |by intros []].
    + destruct (void_answer_outcome (query (QMx (normalize (default cur d))) ev1)) as [-> | ->]; [|by intros []].
      econstructor; [done|constructor].
    + pose proof (mx_hosts_sound (h :: hosts) c4 c6 (query (QMx (normalize (default cur d))) ev1) H4 H6) as Hh.
      destruct (mx_hosts _ _ _ _ _ _) as [[| |r] ev2]; cbn [fst] in *.
      * destruct Hh as (pre & h' & post & E & Hpre & Hh). rewrite E in Hmx. by econstructor.
      * by econstructor.
      * done.
  - pose proof (λ v, ipv4_in_cidr_agree v net c Hm) as Hag. destruct ip as [v|v] eqn:Hip; cbn [fst].
    + destruct (ipv4_in_cidr v net c) eqn:E; [econstructor; [done|by apply Hag]|].
      constructor. intros v' Hv' Ha. rewrite Hip in Hv'. injection Hv' as <-. apply Hag in Ha. congruence.
    + constructor. intros v' Hv'. congruence.
  - pose proof (λ v, ipv6_in_cidr_agree v net c Hm) as Hag. destruct ip as [v|v] eqn:Hip; cbn [fst].
    + constructor. intros v' Hv'. congruence.
    + destruct (ipv6_in_cidr v net c) eqn:E; [econstructor; [done|by apply Hag]|].
      constructor. intros v' Hv' Ha. rewrite Hip in Hv'. injection Hv' as <-. apply Hag in Ha. congruence.
  - constructor.
  - destruct (lookup_a resolver (normalize t)) as [[|x l]|] eqn:Hl; [| |by intros []].
    + destruct (void_answer_outcome (query (QA (normalize t)) ev1)) as [-> | ->]; [by constructor|by intros []].
    + by econstructor.
Qed.

Lemma eval_mechanisms_sound check ms cur ev :
  check_sound check → Forall (λ qm, mech_ok qm.2) ms →
  match (eval_mechanisms resolver ip check ms cur ev).1 with
  | Some r => definite r → ∃ pre q m post, ms = pre ++ (q, m) :: post ∧ all_miss cur pre ∧
      mech_match cur m ∧ mechanism_has_macro m = false ∧ r = qualifier_to_result q
  | None => all_miss cur ms
  end.
Proof using.
  intros Hck Hms. revert ev. induction Hms as [|[q m] ms Hm Hms IH]; intros ev; cbn [eval_mechanisms];
    [constructor|].
  destruct (mechanism_has_macro m) eqn:Hmac; [by intros []|].
  pose proof (eval_mechanism_sound check m cur ev Hck Hm) as Ho.
  destruct (eval_mechanism resolver ip check m cur ev) as [[| |r] ev1]; cbn [fst] in *.
  - intros _. exists [], q, m, ms. split_and!; [done|constructor|done..].
  - specialize (IH ev1). destruct (eval_mechanisms resolver ip check ms cur ev1) as [[r|] ev2]; cbn [fst] in *.
    + intros Hr. destruct (IH Hr) as (pre & q' & m' & post & -> & Hpre & Hrest).
      exists ((q, m) :: pre), q', m', post. split_and!; [done|by constructor|apply Hrest..].
    + by constructor.
  - done.
Qed.

Lemma check_host_at_sound levels : check_sound (check_host_at resolver ip levels).
Proof using.
  induction levels as [|levels IH]; intros t ev; cbn [check_host_at]; [by intros []|].
  unfold check_host_body. case_bool_decide as Hn; [by constructor|].
  destruct (lookup_txt resolver (normalize t)) as [txts|] eqn:Ht; [|by intros []].
  destruct (List.filter is_spf1_record txts) as [|rec [|rec' l]] eqn:Hf; [by econstructor| |by intros []].
  destruct (parse_record rec) as [p|] eqn:Hp; [|by intros []].
  assert (published t p) as Hpub by (split; [done|by exists txts, rec]).
  pose proof (eval_mechanisms_sound _ (mechanisms p) (normalize t) (query (QTxt (normalize t)) ev)
    IH (parse_record_ok _ _ Hp)) as Hm.
  destruct (eval_mechanisms _ _ _ _ _ _) as [[r|] ev2]; cbn [fst] in *.
  { intros Hr. destruct (Hm Hr) as (pre & q & m & post & E & Hpre & Hmt & Hmac & ->). by econstructor. }
  destruct (redirect p) as [target|] eqn:Hred; [|by econstructor].
  destruct (contains_char "%" target) eqn:Hmac; [by intros []|].
  pose proof (charge_lookup_cases ev2) as Hc. destruct (charge_lookup ev2) as [[e|] ev3]; cbn [fst].
  - destruct Hc as (-> & _). by intros [].
  - intros Hr. econstructor; try done. by apply IH.
Qed.

(** ** The evaluator finds every answer the budgets allow *)

Scheme host_result_rules := Minimality for host_result Sort Prop
  with mech_match_rules := Minimality for mech_match Sort Prop
  with mech_miss_rules := Minimality for mech_miss Sort Prop
  with all_miss_rules := Minimality for all_miss Sort Prop.
Combined Scheme semantics_rules from host_result_rules, mech_match_rules, mech_miss_rules, all_miss_rules.

(** The levels of recursion left suffice for the lookups left. *)
Definition deep_enough (levels : nat) (ev : Evaluator) : Prop :=
  DEFAULT_MAX_LOOKUPS - lookups ev < Z.of_nat levels.

(** The outcome is [o], or a budget is used up. *)
Definition reaches {X} (o : X) (res : X * Evaluator) : Prop := res.1 = o ∨ ¬ live res.2.

Lemma match_address_complete_hit h c4 c6 ev :
  0 ≤ c4 ≤ 32 → 0 ≤ c6 ≤ 128 → host_matches c4 c6 h →
  (match_address_lookup resolver ip (normalize h) c4 c6 ev).1 = Match.
Proof using.
  intros H4 H6 (ips & x & Ha & Hx & Hn). unfold match_address_lookup, answers, in_net in *.
  destruct ip as [v|v]; rewrite Ha; (destruct ips as [|y l]; [by apply elem_of_nil in Hx|]);
    set (l0 := y :: l) in *; cbn [fst].
  - pose proof (existsb_in_net _ _ l0 (λ y, ipv4_in_cidr_agree v y c4 H4)) as E.
    destruct (existsb _ l0); [done|]. rewrite Forall_forall in E. by destruct (E x Hx).
  - pose proof (existsb_in_net _ _ l0 (λ y, ipv6_in_cidr_agree v y c6 H6)) as E.
    destruct (existsb _ l0); [done|]. rewrite Forall_forall in E. by destruct (E x Hx).
Qed.

Lemma void_answer_reaches ev : live ev → reaches NoMatch (void_answer ev).
Proof using.
  intros Hl. unfold reaches, void_answer, charge_void. simpl.
  destruct (Z.ltb_spec DEFAULT_MAX_VOID_LOOKUPS (void_lookups ev + 1)); simpl; [right; budget_lia|by left].
Qed.

Lemma match_address_complete_miss h c4 c6 ev :
  live ev → 0 ≤ c4 ≤ 32 → 0 ≤ c6 ≤ 128 → host_misses c4 c6 h →
  reaches NoMatch (match_address_lookup resolver ip (normalize h) c4 c6 ev).
Proof using.
  intros Hl H4 H6 (ips & Ha & Hn). unfold match_address_lookup, answers, in_net in *.
  destruct ip as [v|v]; rewrite Ha; (destruct ips as [|y l]; [by apply void_answer_reaches|]);
    set (l0 := y :: l) in *; left; cbn [fst].
  - pose proof (existsb_in_net _ _ l0 (λ y, ipv4_in_cidr_agree v y c4 H4)) as E.
    destruct (existsb _ l0); [|done]. destruct E as (x & Hx & Hin). rewrite Forall_forall in Hn.
    by destruct (Hn x Hx).
  - pose proof (existsb_in_net _ _ l0 (λ y, ipv6_in_cidr_agree v y c6 H6)) as E.
    destruct (existsb _ l0); [|done]. destruct E as (x & Hx & Hin). rewrite Forall_forall in Hn.
    by destruct (Hn x Hx).
Qed.

(** The hosts before the deciding one are passed by. *)
Lemma mx_hosts_skip c4 c6 pre rest ev :
  live ev → 0 ≤ c4 ≤ 32 → 0 ≤ c6 ≤ 128 → Forall (host_misses c4 c6) pre →
  ¬ live (mx_hosts resolver ip (pre ++ rest) c4 c6 ev).2 ∨
  ∃ ev', live ev' ∧ mx_hosts resolver ip (pre ++ rest) c4 c6 ev = mx_hosts resolver ip rest c4 c6 ev'.
Proof using.
  intros Hl H4 H6 Hpre. revert ev Hl. induction Hpre as [|h pre Hh Hpre IH]; intros ev Hl; [by right; exists ev|].
  cbn [mx_hosts app]. pose proof (charge_lookup_cases ev) as Hc.
  destruct (charge_lookup ev) as [[e|] ev1].
  { left. destruct Hc as (_ & ? & ? & ? & ?). budget_lia. }
  destruct Hc as (H1 & H2 & H3 & H5).
  assert (live ev1) as Hl1 by budget_lia.
  pose proof (match_address_complete_miss h c4 c6 ev1 Hl1 H4 H6 Hh) as Hr.
  pose proof (match_address_query resolver ip (normalize h) c4 c6 ev1) as (Q1 & Q2 & Q3).
  destruct (match_address_lookup resolver ip (normalize h) c4 c6 ev1) as [o ev2]; cbn [fst snd] in *.
  destruct Hr as [Hr|Hr]; cbn [fst snd] in Hr.
  - subst o. apply IH. destruct Q3 as [Q3|[Q3 [Q4|Q4]]]; [budget_lia..|done].
  - left. destruct Q3 as [Q3|[Q3 [Q4|Q4]]]; [exfalso; budget_lia..|]. by subst o.
Qed.

Lemma mx_hosts_complete_hit c4 c6 pre h post ev :
  live ev → 0 ≤ c4 ≤ 32 → 0 ≤ c6 ≤ 128 → Forall (host_misses c4 c6) pre → host_matches c4 c6 h →
  reaches Match (mx_hosts resolver ip (pre ++ h :: post) c4 c6 ev).
Proof using.
  intros Hl H4 H6 Hpre Hh. destruct (mx_hosts_skip c4 c6 pre (h :: post) ev Hl H4 H6 Hpre) as [H|(ev' & Hl' & ->)];
    [by right|].
  cbn [mx_hosts]. pose proof (charge_lookup_cases ev') as Hc.
  destruct (charge_lookup ev') as [[e|] ev1]; [right; destruct Hc as (_ & ? & ? & ? & ?); budget_lia|].
  pose proof (match_address_complete_hit h c4 c6 ev1 H4 H6 Hh) as Hm. left.
  destruct (match_address_lookup resolver ip (normalize h) c4 c6 ev1) as [o ev2]. cbn [fst] in Hm. by subst o.
Qed.

Lemma mx_hosts_complete_miss c4 c6 hosts ev :
  live ev → 0 ≤ c4 ≤ 32 → 0 ≤ c6 ≤ 128 → Forall (host_misses c4 c6) hosts →
  reaches NoMatch (mx_hosts resolver ip hosts c4 c6 ev).
Proof using.
  intros Hl H4 H6 Hh. destruct (mx_hosts_skip c4 c6 hosts [] ev Hl H4 H6 Hh) as [H|(ev' & Hl' & E)];
    rewrite app_nil_r in *; [by right|]. rewrite E. by left.
Qed.

Definition host_complete (d : string) (r : SpfResult) : Prop :=
  ∀ levels ev, live ev → deep_enough levels ev → reaches r (check_host_at resolver ip levels d ev).
Definition mech_complete (o : MechOutcome) (cur : string) (m : Mechanism) : Prop :=
  ∀ levels ev, live ev → mech_ok m → deep_enough (S levels) ev →
    reaches o (eval_mechanism resolver ip (check_host_at resolver ip levels) m cur ev).
Definition miss_complete (cur : string) (ms : list (Qualifier * Mechanism)) : Prop :=
  ∀ levels ev rest, live ev → Forall (λ qm, mech_ok qm.2) ms → deep_enough (S levels) ev →
    let eval l := eval_mechanisms resolver ip (check_host_at resolver ip levels) l cur in
    ¬ live (eval (ms ++ rest) ev).2 ∨
    ∃ ev', live ev' ∧ lookups ev ≤ lookups ev' ∧ eval (ms ++ rest) ev = eval rest ev'.

(** An included domain is checked with one lookup and one level less. *)
Lemma include_complete t r o cur :
  host_complete t r → (∀ levels ev ev', check_host_at resolver ip levels t ev = (r, ev') →
    (match r with
     | Pass => Match
     | Fail | SoftFail | Neutral => NoMatch
     | TempError => Abort TempError
     | SpfNone | PermError => Abort PermError
     end) = o) → mech_complete o cur (Include t).
Proof using.
  intros Ht Ho levels ev Hl _ Hd. cbn [eval_mechanism].
  pose proof (charge_lookup_cases ev) as Hc. destruct (charge_lookup ev) as [[e|] ev1].
  { right. destruct Hc as (_ & ? & ? & ? & ?). budget_lia. }
  destruct Hc as (H1 & H2 & H3 & H4).
  destruct (Ht levels ev1) as [Hr|Hr]; [budget_lia|unfold deep_enough in *; lia| |].
  - left. pose proof (Ho levels ev1). destruct (check_host_at resolver ip levels t ev1) as [r' ev2].
    cbn [fst] in *. subst r'. eauto.
  - right. destruct (check_host_at resolver ip levels t ev1) as [r' ev2]. exact Hr.
Qed.

(** A mechanism that charges and then runs [k]. *)
Lemma charged_complete (o : MechOutcome) ev (k : Evaluator → MechOutcome * Evaluator) :
  live ev → (∀ ev1, live ev1 → reaches o (k ev1)) →
  reaches o (match charge_lookup ev with (Some e, ev) => (Abort e, ev) | (None, ev) => k ev end).
Proof using.
  intros Hl Hk. pose proof (charge_lookup_cases ev) as Hc. destruct (charge_lookup ev) as [[e|] ev1].
  - right. destruct Hc as (_ & ? & ? & ? & ?). budget_lia.
  - apply Hk. destruct Hc as (? & ? & ? & ?). budget_lia.
Qed.

Lemma match_mx_complete cur d c4 c6 pre h post :
  lookup_mx resolver (normalize (default cur d)) = Some (pre ++ h :: post) →
  Forall (host_misses c4 c6) pre → host_matches c4 c6 h → mech_complete Match cur (Mx d c4 c6).
Proof using.
  intros E Hpre Hh levels ev Hl [H4 H6] _. cbn [eval_mechanism]. apply charged_complete; [done|].
  intros ev1 Hl1. rewrite E. destruct (pre ++ h :: post) as [|x l] eqn:El; [by destruct pre|].
  rewrite <- El. by apply mx_hosts_complete_hit.
Qed.

Lemma miss_mx_complete cur d c4 c6 hosts :
  lookup_mx resolver (normalize (default cur d)) = Some hosts →
  Forall (host_misses c4 c6) hosts → mech_complete NoMatch cur (Mx d c4 c6).
Proof using.
  intros E Hh levels ev Hl [H4 H6] _. cbn [eval_mechanism]. apply charged_complete; [done|].
  intros ev1 Hl1. rewrite E. destruct hosts as [|x l]; [by apply void_answer_reaches|].
  by apply mx_hosts_complete_miss.
Qed.

Lemma all_miss_cons_complete cur q m ms :
  mech_complete NoMatch cur m → mechanism_has_macro m = false → miss_complete cur ms →
  miss_complete cur ((q, m) :: ms).
Proof using.
  intros Hm Hmac Hms levels ev rest Hl [Hok Hoks]%Forall_cons Hd eval. subst eval. cbv beta.
  cbn [app eval_mechanisms]. rewrite Hmac.
  pose proof (eval_mechanism_budget resolver ip (check_host_at resolver ip levels) m cur ev
    (check_host_at_budget resolver ip levels) Hl) as Hb. cbv zeta in Hb.
  specialize (Hm levels ev Hl Hok Hd). unfold reaches in Hm.
  destruct (eval_mechanism resolver ip (check_host_at resolver ip levels) m cur ev) as [o ev1].
  cbn [fst snd] in *. destruct Hb as [Hb1 _ Hb2].
  destruct Hb2 as [Hl1|(_ & _ & ->)].
  - destruct Hm as [->|Hm]; [|done].
    destruct (Hms levels ev1 rest Hl1 Hoks) as [H|(ev' & Hl' & Hle & E)];
      [unfold deep_enough in *; lia|by left|right].
    exists ev'. split_and!; [done|lia|done].
  - left. by destruct Hm.
Qed.

(** The body of the check on a domain with a record: the mechanisms from the
    first, then the redirection. *)
Lemma host_body_published levels d p ev :
  published d p →
  check_host_at resolver ip (S levels) d ev =
  match eval_mechanisms resolver ip (check_host_at resolver ip levels) (mechanisms p) (normalize d)
          (query (QTxt (normalize d)) ev) with
  | (Some r, ev) => (r, ev)
  | (None, ev) =>
      match redirect p with
      | None => (Neutral, ev)
      | Some target =>
          if contains_char "%" target then (PermError, ev)
          else match charge_lookup ev with
          | (Some e, ev) => (e, ev)
          | (None, ev) => check_host_at resolver ip levels target ev
          end
      end
  end.
Proof using.
  intros (Hn & txts & record & Ht & Hf & Hp). cbn [check_host_at]. unfold check_host_body.
  by rewrite bool_decide_false, Ht, Hf, Hp.
Qed.

Lemma published_ok d p : published d p → Forall (λ qm, mech_ok qm.2) (mechanisms p).
Proof using. intros (_ & txts & record & _ & _ & Hp). by eapply parse_record_ok. Qed.

(** A budget that ends among the mechanisms ends the check. *)
Lemma eval_mechanisms_dead levels ms cur ev :
  live ev →
  let res := eval_mechanisms resolver ip (check_host_at resolver ip levels) ms cur ev in
  ¬ live res.2 → res.1 = Some PermError.
Proof using.
  intros Hl res Hd.
  destruct (eval_mechanisms_budget resolver ip _ ms cur ev (check_host_at_budget resolver ip levels) Hl)
    as [_ _ [?|(_ & _ & E)]]; done.
Qed.

(** What the evaluation of a published record comes to, once the mechanisms
    before [rest] are known to miss. *)
Lemma host_published_complete d p pre rest r :
  published d p → mechanisms p = pre ++ rest → miss_complete (normalize d) pre →
  (∀ levels ev, live ev → deep_enough (S levels) ev →
     reaches r (match eval_mechanisms resolver ip (check_host_at resolver ip levels) rest (normalize d) ev with
       | (Some r, ev) => (r, ev)
       | (None, ev) =>
           match redirect p with
           | None => (Neutral, ev)
           | Some target =>
               if contains_char "%" target then (PermError, ev)
               else match charge_lookup ev with
               | (Some e, ev) => (e, ev)
               | (None, ev) => check_host_at resolver ip levels target ev
               end
           end
       end)) →
  host_complete d r.
Proof using.
  intros Hp E Hpre Hrest [|levels] ev Hl Hd; [exfalso; unfold deep_enough in Hd; budget_lia|].
  pose proof (published_ok d p Hp) as Hok. rewrite E in Hok. apply Forall_app in Hok as [Hok _].
  rewrite (host_body_published _ _ _ _ Hp), E. set (ev0 := query _ ev).
  destruct (Hpre levels ev0 rest Hl Hok Hd) as [H|(ev' & Hl' & Hle & ->)].
  - pose proof (eval_mechanisms_dead levels (pre ++ rest) (normalize d) ev0 Hl H) as Hr.
    right. destruct (eval_mechanisms _ _ _ (pre ++ rest) _ ev0) as [o ev1]. cbn [fst snd] in *. by subst o.
  - apply Hrest; [done|]. unfold deep_enough in *. change (lookups ev0) with (lookups ev) in Hle. lia.
Qed.

Lemma host_match_complete d p pre q m post :
  published d p → mechanisms p = pre ++ (q, m) :: post → miss_complete (normalize d) pre →
  mech_complete Match (normalize d) m → mechanism_has_macro m = false →
  host_complete d (qualifier_to_result q).
Proof using.
  intros Hp E Hpre Hm Hmac. apply (host_published_complete d p pre ((q, m) :: post)); [done..|].
  intros levels ev Hl Hd. pose proof (published_ok d p Hp) as Hok. rewrite E in Hok.
  apply Forall_app in Hok as [_ [Hok _]%Forall_cons]. cbn [eval_mechanisms]. rewrite Hmac.
  specialize (Hm levels ev Hl Hok Hd). unfold reaches in Hm.
  pose proof (eval_mechanism_budget resolver ip (check_host_at resolver ip levels) m (normalize d) ev
    (check_host_at_budget resolver ip levels) Hl) as [_ _ Hb].
  destruct (eval_mechanism _ _ _ m (normalize d) ev) as [o ev1]. cbn [fst snd] in *.
  destruct Hb as [Hl1|(_ & _ & ->)]; [destruct Hm as [->|Hm]; [by left|done]|].
  destruct Hm as [Hm|Hm]; [done|by right].
Qed.

Lemma host_redirect_complete d p t r :
  published d p → miss_complete (normalize d) (mechanisms p) → redirect p = Some t →
  contains_char "%" t = false → host_complete t r → host_complete d r.
Proof using.
  intros Hp Hms Hr Hmac Ht.
  apply (host_published_complete d p (mechanisms p) []); [done|by rewrite app_nil_r|done|].
  intros levels ev Hl Hd. cbn [eval_mechanisms]. rewrite Hr, Hmac.
  pose proof (charge_lookup_cases ev) as Hc. destruct (charge_lookup ev) as [[e|] ev1].
  - right. destruct Hc as (_ & ? & ? & ? & ?). budget_lia.
  - destruct Hc as (? & ? & ? & ?). apply Ht; [budget_lia|]. unfold deep_enough in *. lia.
Qed.

(** Every rule is followed by the evaluator, as far as the budgets go.  The depth
    guard is never reached: a level costs a lookup, and there are as many levels. *)
Lemma semantics_complete :
  (∀ d r, host_result d r → host_complete d r) ∧
  (∀ cur m, mech_match cur m → mech_complete Match cur m) ∧
  (∀ cur m, mech_miss cur m → mech_complete NoMatch cur m) ∧
  (∀ cur ms, all_miss cur ms → miss_complete cur ms).
Proof using.
  apply semantics_rules.
  - intros d Hn [|levels] ev Hl Hd; [exfalso; unfold deep_enough in Hd; budget_lia|].
    cbn [check_host_at]. unfold check_host_body. rewrite bool_decide_true by done. by left.
  - intros d txts Hn Ht Hf [|levels] ev Hl Hd; [exfalso; unfold deep_enough in Hd; budget_lia|].
    cbn [check_host_at]. unfold check_host_body. rewrite bool_decide_false, Ht, Hf by done. by left.
  - intros d p pre q m post Hp E _ Hpre _ Hm Hmac. by eapply host_match_complete.
  - intros d p t r Hp _ Hms Hr Hmac _ Ht. by eapply host_redirect_complete.
  - intros d p Hp _ Hms Hr.
    apply (host_published_complete d p (mechanisms p) []); [done|by rewrite app_nil_r|done|].
    intros levels ev Hl Hd. cbn [eval_mechanisms]. rewrite Hr. by left.
  - intros cur levels ev Hl _ _. by left.
  - intros cur t _ Ht. by eapply include_complete.
  - intros cur v net c Hip Ha levels ev Hl Hok _. left. cbn [eval_mechanism fst]. rewrite Hip.
    by rewrite (proj2 (ipv4_in_cidr_agree v net c Hok) Ha).
  - intros cur v net c Hip Ha levels ev Hl Hok _. left. cbn [eval_mechanism fst]. rewrite Hip.
    by rewrite (proj2 (ipv6_in_cidr_agree v net c Hok) Ha).
  - intros cur d c4 c6 Hh levels ev Hl [H4 H6] _. cbn [eval_mechanism]. apply charged_complete; [done|].
    intros ev1 Hl1. left. by apply match_address_complete_hit.
  - intros cur d c4 c6 pre h post E Hpre Hh. by eapply match_mx_complete.
  - intros cur t x ips E levels ev Hl _ _. cbn [eval_mechanism]. apply charged_complete; [done|].
    intros ev1 Hl1. rewrite E. by left.
  - intros cur t r _ Ht Hr. eapply include_complete; [done|]. intros _ _ _ _.
    rewrite !elem_of_cons in Hr. destruct Hr as [->|[->|[->|Hr%elem_of_nil]]]; done.
  - intros cur net c Hno levels ev Hl Hok _. left. cbn [eval_mechanism fst].
    destruct ip as [v|v] eqn:Hip; [|done]. destruct (ipv4_in_cidr v net c) eqn:E; [|done].
    apply ipv4_in_cidr_agree in E; [|done]. by destruct (Hno v eq_refl).
  - intros cur net c Hno levels ev Hl Hok _. left. cbn [eval_mechanism fst].
    destruct ip as [v|v] eqn:Hip; [done|]. destruct (ipv6_in_cidr v net c) eqn:E; [|done].
    apply ipv6_in_cidr_agree in E; [|done]. by destruct (Hno v eq_refl).
  - intros cur d c4 c6 Hh levels ev Hl [H4 H6] _. cbn [eval_mechanism]. apply charged_complete; [done|].
    intros ev1 Hl1. by apply match_address_complete_miss.
  - intros cur d c4 c6 hosts E Hh. by eapply miss_mx_complete.
  - intros cur levels ev Hl _ _. cbn [eval_mechanism]. apply charged_complete; [done|]. by left.
  - intros cur t E levels ev Hl _ _. cbn [eval_mechanism]. apply charged_complete; [done|].
    intros ev1 Hl1. rewrite E. by apply void_answer_reaches.
  - intros cur levels ev rest Hl _ _ eval. right. exists ev. split_and!; done || lia.
  - intros cur q m ms _ Hm Hmac _ Hms. by apply all_miss_cons_complete.
Qed.

(** ** Properties *)

(** C37: Whatever the resolver answers, and however the records include and redirect
    to each other, one evaluation makes no more than eleven DNS queries: the
    first record and the ten of the budget. *)
Theorem spf_bounded_queries d : (length (trace (run_check_host resolver ip d).2) ≤ 11)%nat.
Proof using.
  destruct (check_host_at_budget resolver ip (S MAX_CHAIN_DEPTH) d Evaluator_new) as [_ H _];
    [unfold live; simpl; unfold DEFAULT_MAX_LOOKUPS, DEFAULT_MAX_VOID_LOOKUPS; lia|].
  unfold run_check_host. change (length (trace Evaluator_new)) with 0%nat in H.
  change (spent Evaluator_new) with 0 in H. unfold spent, DEFAULT_MAX_LOOKUPS in H. lia.
Qed.

(** C11: The evaluator implements the meaning of the records: an answer it gives is
    one the rules derive, and an answer the rules derive is the one it gives,
    unless a lookup budget ran out, which it reports as a permanent error.  The
    depth guard adds no further failure. *)
Theorem spf_decides d r :
  definite r →
  let res := run_check_host resolver ip d in
  (res.1 = r → host_result d r) ∧
  (host_result d r → res.1 = r ∨ (res.1 = PermError ∧ ¬ live res.2)).
Proof using.
  intros Hr res. subst res. unfold run_check_host.
  assert (live Evaluator_new) as Hl
    by (unfold live; simpl; unfold DEFAULT_MAX_LOOKUPS, DEFAULT_MAX_VOID_LOOKUPS; lia).
  split.
  - intros <-. by apply check_host_at_sound.
  - intros H. apply semantics_complete in H.
    destruct (H (S MAX_CHAIN_DEPTH) Evaluator_new Hl) as [E|E]; [done|by left|right].
    destruct (check_host_at_budget resolver ip (S MAX_CHAIN_DEPTH) d Evaluator_new Hl) as [_ _ Hb].
    destruct Hb as [?|(_ & _ & ?)]; done.
Qed.
End semantics.
End Spf.

(** ** Witnesses *)
Module SpfWitness.
Import Spf.
Definition zone : InMemorySpfResolver := {|
  txt := {["example.org"%string := ["v=spf1 include:_spf.host.net ip4:10.1.0.0/16 ~all"%string];
           "_spf.host.net"%string := ["unrelated"; "v=spf1 mx -all"]%string]};
  a := {["mail.host.net"%string := [167772161]]};
  aaaa := ∅;
  mx := {["_spf.host.net"%string := ["Mail.Host.Net."%string]]};
  failing := ∅ |}.

Lemma spf_decides_witness :
  (run_check_host zone (V4 167772161) "Example.org.").1 = Pass ∧
  host_result zone (V4 167772161) "Example.org." Pass ∧
  (run_check_host zone (V4 167838209) "Example.org.").1 = Pass ∧
  (run_check_host zone (V4 1) "Example.org.").1 = SoftFail.
Proof.
  assert ((run_check_host zone (V4 167772161) "Example.org.").1 = Pass) as E by (vm_compute; reflexivity).
  split; [exact E|]. split; [|split; vm_compute; reflexivity].
  apply (spf_decides zone (V4 167772161) "Example.org." Pass); [split; discriminate|exact E].
Defined.
End SpfWitness.
