(* ===== verification/Dmarc.v ===== *)
(** * DMARC

    [crates/gateway/src/dmarc.rs]: the policy record, its two-level discovery, the
    alignment of authenticated domains with the [From] domain, and the verdict (RFC
    7489).  The public suffix list and the address parser are external. *)

From Stdlib Require Import ZArith Lia Ascii String.
From stdpp Require Import base decidable option list strings gmap.
From S2P Require Import Prelude RustStr RustText KotvaMail Dkim Spf.
Local Open Scope Z_scope.

Module Dmarc.

Inductive DmarcPolicy := PNone | PQuarantine | PReject.
Inductive DmarcDisposition := DNone | DQuarantine | DReject.
#[global] Instance DmarcPolicy_eq_dec : EqDecision DmarcPolicy.
Proof. solve_decision. Defined.
#[global] Instance DmarcDisposition_eq_dec : EqDecision DmarcDisposition.
Proof. solve_decision. Defined.
Definition to_disposition (p : DmarcPolicy) : DmarcDisposition :=
  match p with PNone => DNone | PQuarantine => DQuarantine | PReject => DReject end.

Record DmarcRecord := {
  policy : DmarcPolicy;
  subdomain_policy : option DmarcPolicy;
  dkim_strict : bool;
  spf_strict : bool;
  pct : Z;
}.

Inductive DmarcVerdict := Pass | Fail (disposition : DmarcDisposition) | NoPolicy | PermError.

(** [trait DmarcTxtResolver] and its in-memory implementation. *)
Class DmarcTxtResolver (R : Type) := {
  dmarc_lookup_txt : R → string → list string;
}.
Record InMemoryDmarcResolver := { dmarc_records : gmap string (list string) }.
Definition with_txt (name : string) (values : list string) (r : InMemoryDmarcResolver) : InMemoryDmarcResolver :=
  {| dmarc_records := <[to_ascii_lowercase name := values]> (dmarc_records r) |}.
#[export] Instance InMemoryDmarcResolver_DmarcTxtResolver : DmarcTxtResolver InMemoryDmarcResolver := {|
  dmarc_lookup_txt r name := default [] (dmarc_records r !! to_ascii_lowercase name) |}.

Definition normalize (domain : string) : string := to_ascii_lowercase (trim_end_matches "." (trim domain)).

Section alignment.
Context `{PSL : PublicSuffixList}.

Definition organizational_domain (domain : string) : string :=
  let d := normalize domain in
  match domain_str d with Some registrable => registrable | None => d end.

Definition domains_aligned (auth_domain header_domain : string) (strict : bool) : bool :=
  if strict then eq_ignore_ascii_case auth_domain header_domain
  else match domain_str (normalize auth_domain), domain_str (normalize header_domain) with
       | Some org_auth, Some org_header => eq_ignore_ascii_case org_auth org_header
       | _, _ => eq_ignore_ascii_case auth_domain header_domain
       end.
End alignment.

(** ** The policy record *)

Definition is_dmarc1_record (t : string) : bool :=
  let t := trim t in
  bool_decide (t = "v=DMARC1"%string) || starts_with "v=DMARC1;" t || starts_with "v=DMARC1 " t.

Definition parse_policy_value (v : string) : option DmarcPolicy :=
  if bool_decide (v = "none"%string) then Some PNone
  else if bool_decide (v = "quarantine"%string) then Some PQuarantine
  else if bool_decide (v = "reject"%string) then Some PReject
  else None.

Definition parse_alignment (v : string) : option bool :=
  if bool_decide (v = "s"%string) then Some true else if bool_decide (v = "r"%string) then Some false else None.

(** The variables of the loop. *)
Record Tags := {
  t_policy : option DmarcPolicy;
  t_sp : option DmarcPolicy;
  t_adkim : bool;
  t_aspf : bool;
  t_pct : Z;
  saw_version : bool;
}.
Definition no_tags : Tags := {|
  t_policy := None; t_sp := None; t_adkim := false; t_aspf := false; t_pct := 100; saw_version := false |}.

(** [Err(())] is [None]. *)
Definition read_tag (k v : string) (t : Tags) : option Tags :=
  if bool_decide (k = "v"%string) then
    if bool_decide (v ≠ "DMARC1"%string) then None
    else Some {| t_policy := t_policy t; t_sp := t_sp t; t_adkim := t_adkim t; t_aspf := t_aspf t;
                 t_pct := t_pct t; saw_version := true |}
  else if bool_decide (k = "p"%string) then
    p ← parse_policy_value v;
    Some {| t_policy := Some p; t_sp := t_sp t; t_adkim := t_adkim t; t_aspf := t_aspf t;
            t_pct := t_pct t; saw_version := saw_version t |}
  else if bool_decide (k = "sp"%string) then
    p ← parse_policy_value v;
    Some {| t_policy := t_policy t; t_sp := Some p; t_adkim := t_adkim t; t_aspf := t_aspf t;
            t_pct := t_pct t; saw_version := saw_version t |}
  else if bool_decide (k = "adkim"%string) then
    b ← parse_alignment v;
    Some {| t_policy := t_policy t; t_sp := t_sp t; t_adkim := b; t_aspf := t_aspf t;
            t_pct := t_pct t; saw_version := saw_version t |}
  else if bool_decide (k = "aspf"%string) then
    b ← parse_alignment v;
    Some {| t_policy := t_policy t; t_sp := t_sp t; t_adkim := t_adkim t; t_aspf := b;
            t_pct := t_pct t; saw_version := saw_version t |}
  else if bool_decide (k = "pct"%string) then
    n ← parse_u8 v;
    if 100 <? n then None
    else Some {| t_policy := t_policy t; t_sp := t_sp t; t_adkim := t_adkim t; t_aspf := t_aspf t;
                 t_pct := n; saw_version := saw_version t |}
  else Some t.

Fixpoint parse_loop (tags : list string) (t : Tags) : option Tags :=
  match tags with
  | [] => Some t
  | tag :: tags =>
      let tag := trim tag in
      if bool_decide (tag = EmptyString) then parse_loop tags t
      else '(k, v) ← split_once "=" tag; t ← read_tag (trim k) (trim v) t; parse_loop tags t
  end.
Definition parse_record (txt : string) : option DmarcRecord :=
  t ← parse_loop (split_char ";" txt) no_tags;
  if negb (saw_version t) then None
  else
    p ← t_policy t;
    Some {| policy := p; subdomain_policy := t_sp t; dkim_strict := t_adkim t; spf_strict := t_aspf t;
            pct := t_pct t |}.

(** ** Discovery and evaluation *)

Inductive LookupAt := LFound (r : DmarcRecord) | LNotFound | LPermError.
Inductive Discovery := Found (record : DmarcRecord) (is_subdomain : bool) | DiscoveryNone | DiscoveryPermError.

Section evaluation.
Context `{PSL : PublicSuffixList} `{DR : DmarcTxtResolver R}.

Definition lookup_at (resolver : R) (domain : string) : LookupAt :=
  let name := "_dmarc." +:+ to_ascii_lowercase (trim_end_matches "." (trim domain)) in
  let txts := dmarc_lookup_txt resolver name in
  match filter (λ t, is_dmarc1_record t = true) txts with
  | [] => LNotFound
  | [t] => match parse_record t with Some r => LFound r | None => LPermError end
  | _ => LPermError
  end.

Definition discover (resolver : R) (header_domain : string) : Discovery :=
  match lookup_at resolver header_domain with
  | LFound record => Found record false
  | LPermError => DiscoveryPermError
  | LNotFound =>
      let org := organizational_domain header_domain in
      if negb (eq_ignore_ascii_case header_domain org) then
        match lookup_at resolver org with
        | LFound record => Found record true
        | LPermError => DiscoveryPermError
        | LNotFound => DiscoveryNone
        end
      else DiscoveryNone
  end.

Definition spf_aligned (r : DmarcRecord) (header_from_domain envelope_domain : string)
    (spf_result : option Spf.SpfResult) : bool :=
  bool_decide (spf_result = Some Spf.Pass) && negb (bool_decide (envelope_domain = EmptyString))
  && domains_aligned envelope_domain header_from_domain (spf_strict r).
Definition dkim_aligned (r : DmarcRecord) (header_from_domain : string) (dkim_verdict : Dkim.DkimVerdict) : bool :=
  match dkim_verdict with
  | Dkim.VPass domain _ => domains_aligned domain header_from_domain (dkim_strict r)
  | _ => false
  end.

Definition evaluate (resolver : R) (header_from_domain envelope_domain : string)
    (spf_result : option Spf.SpfResult) (dkim_verdict : Dkim.DkimVerdict) : DmarcVerdict :=
  match discover resolver header_from_domain with
  | DiscoveryNone => NoPolicy
  | DiscoveryPermError => PermError
  | Found record is_subdomain =>
      if spf_aligned record header_from_domain envelope_domain spf_result
         || dkim_aligned record header_from_domain dkim_verdict
      then Pass
      else
        let effective_policy :=
          if (is_subdomain : bool) then default (policy record) (subdomain_policy record) else policy record in
        Fail (to_disposition effective_policy)
  end.
End evaluation.

(** ** The [From] domain *)

Inductive HeaderFrom := Single (domain : string) | Unusable | Ambiguous.

Section header_from.
Context `{KM : KotvaMime}.

Definition header_from (data : bytes) : HeaderFrom :=
  match filter (λ h, eq_ignore_ascii_case (trim h.1) "from" = true) (headers_only data) with
  | [] => Unusable
  | [(_, value)] =>
      match parse_address_list value with
      | [] => Unusable
      | [host] =>
          match host with
          | Some h => if bool_decide (h = EmptyString) then Unusable else Single h
          | None => Unusable
          end
      | _ => Ambiguous
      end
  | _ => Ambiguous
  end.
Definition header_from_domain (data : bytes) : option string :=
  match header_from data with Single d => Some d | Unusable | Ambiguous => None end.
End header_from.

(** ** Records and their text *)

Definition policy_text (p : DmarcPolicy) : string :=
  match p with PNone => "none" | PQuarantine => "quarantine" | PReject => "reject" end.
Definition alignment_text (strict : bool) : string := if strict then "s" else "r".
Definition record_tags (r : DmarcRecord) : list (string * string) :=
  [("v", "DMARC1"); ("p", policy_text (policy r))]%string ++
  match subdomain_policy r with Some p => [("sp", policy_text p)%string] | None => [] end ++
  [("adkim", alignment_text (dkim_strict r)); ("aspf", alignment_text (spf_strict r));
   ("pct", u64_to_string (pct r))]%string.
(** A tag of another name, such as a reporting address. *)
Definition other_tag (tag : string * string) : Prop :=
  Dkim.tag_ok tag ∧ tag.1 ∉ ["v"; "p"; "sp"; "adkim"; "aspf"; "pct"]%string.

Lemma parse_loop_render tags t :
  tags ≠ [] → Forall Dkim.tag_ok tags →
  parse_loop (split_char ";" (Dkim.render_tags tags)) t = foldl (λ t tag, t ← t; read_tag tag.1 tag.2 t) (Some t) tags.
Proof.
  intros Hne HF. rewrite Dkim.split_render_tags by done. clear Hne. revert t.
  induction HF as [|[k v] tags Hok HF IH]; intros t; [done|]. rewrite fmap_cons. cbn [parse_loop foldl fst snd mbind option_bind].
  rewrite Dkim.trim_tag_text by done. destruct Hok as (Hk & Heq & Hv). cbn [fst snd] in *.
  rewrite bool_decide_false by (by destruct k). rewrite split_once_app by done. cbn [mbind option_bind].
  rewrite !trim_printable by (by apply Dkim.token_printable).
  destruct (read_tag k v t) as [t'|]; cbn [mbind option_bind]; [done|].
  clear. induction tags as [|tag tags IH]; [done|exact IH].
Qed.

Lemma read_other_tag tag t : other_tag tag → read_tag tag.1 tag.2 t = Some t.
Proof.
  destruct tag as [k v]. intros [_ Hk]. cbn [fst snd] in *. unfold read_tag.
  rewrite !bool_decide_false; [done|intros ->; apply Hk, (bool_decide_unpack _); vm_compute; exact I..].
Qed.

Lemma parse_u8_decimal n : 0 ≤ n ≤ 100 → parse_u8 (u64_to_string n) = Some n.
Proof.
  intros Hn. assert (∃ i : nat, n = Z.of_nat i ∧ (i < 101)%nat) as (i & -> & Hi) by (exists (Z.to_nat n); lia). clear Hn.
  do 101 (destruct i as [|i]; [reflexivity|]). lia.
Qed.

(** A policy record is read as it was published, whatever reporting tags follow. *)
Theorem dmarc_record_roundtrip r extra :
  0 ≤ pct r ≤ 100 → Forall other_tag extra →
  parse_record (Dkim.render_tags (record_tags r ++ extra)) = Some r.
Proof.
  intros Hp Hextra. unfold parse_record. rewrite parse_loop_render; [|done|].
  - rewrite foldl_app.
    assert (∀ t, foldl (λ t tag, t ← t; read_tag tag.1 tag.2 t) (Some t) extra = Some t) as Hx.
    { intros t. induction Hextra as [|tag extra Htag _ IH]; [done|]. simpl. by rewrite read_other_tag. }
    destruct r as [p sp a s n]. cbn [pct] in Hp. pose proof (parse_u8_decimal n Hp) as Hn.
    unfold record_tags. cbn [policy subdomain_policy dkim_strict spf_strict pct].
    assert (100 <? n = false) as Hle by (apply Z.ltb_ge; lia).
    destruct p, sp as [[]|], a, s; cbn [app foldl fst snd mbind option_bind];
      cbv -[parse_u8 u64_to_string Z.ltb foldl]; rewrite Hn; cbv -[Z.ltb foldl]; rewrite Hle, Hx; reflexivity.
  - apply Forall_app. split; [|eapply Forall_impl; [exact Hextra|by intros ? []]].
    destruct r as [p sp a s n]. unfold record_tags. cbn [policy subdomain_policy dkim_strict spf_strict pct].
    pose proof (Dkim.u64_to_string_token n).
    destruct p, sp as [[]|], a, s; repeat constructor; done.
Qed.

(** ** What the verdict means *)

Section verdict.
Context `{PSL : PublicSuffixList} `{DR : DmarcTxtResolver R}.
Implicit Types (resolver : R) (d h : string) (r : DmarcRecord).

(** The policy records published at a name. *)
Definition records_at resolver d : list string :=
  filter (λ t, is_dmarc1_record t = true)
    (dmarc_lookup_txt resolver ("_dmarc." +:+ to_ascii_lowercase (trim_end_matches "." (trim d)))).

(** The record that governs mail from [h]: its own, or else that of its
    organisational domain, as a subdomain. *)
Inductive governs resolver h : DmarcRecord → bool → Prop :=
| governs_exact t r :
    records_at resolver h = [t] → parse_record t = Some r → governs resolver h r false
| governs_organizational t r :
    records_at resolver h = [] → eq_ignore_ascii_case h (organizational_domain h) = false →
    records_at resolver (organizational_domain h) = [t] → parse_record t = Some r →
    governs resolver h r true.

(** Two names of one registrant: the same name, or the same registrable domain. *)
Definition same_owner d h : Prop :=
  eq_ignore_ascii_case d h = true ∨
  ∃ o o', domain_str (normalize d) = Some o ∧ domain_str (normalize h) = Some o' ∧ eq_ignore_ascii_case o o' = true.
(** The names the message was authenticated for. *)
Definition authenticated (envelope_domain : string) (spf : option Spf.SpfResult) (dkim : Dkim.DkimVerdict) d : Prop :=
  (spf = Some Spf.Pass ∧ d = envelope_domain ∧ d ≠ EmptyString) ∨ ∃ s, dkim = Dkim.VPass d s.
Definition effective r (sub : bool) : DmarcPolicy :=
  if sub then default (policy r) (subdomain_policy r) else policy r.

Lemma lookup_at_spec resolver d :
  lookup_at resolver d =
    match records_at resolver d with
    | [] => LNotFound
    | [t] => match parse_record t with Some r => LFound r | None => LPermError end
    | _ => LPermError
    end.
Proof. reflexivity. Qed.

Lemma discover_governs resolver h r sub : discover resolver h = Found r sub ↔ governs resolver h r sub.
Proof.
  unfold discover. rewrite !lookup_at_spec. split.
  - intros H. repeat case_match; simplify_eq; eauto using governs.
    eapply governs_organizational; eauto. by apply negb_true_iff.
  - intros [t r' E P|t r' E Ho E' P].
    + by rewrite E, P.
    + by rewrite E, Ho, E', P.
Qed.

Lemma aligned_same_owner d h strict : domains_aligned d h strict = true → same_owner d h.
Proof.
  unfold domains_aligned, same_owner. destruct strict; [by left|].
  destruct (domain_str (normalize d)) eqn:E1, (domain_str (normalize h)) eqn:E2; eauto 6.
Qed.
Lemma normalize_caseless d h : eq_ignore_ascii_case d h = true → normalize d = normalize h.
Proof.
  intros E%bool_decide_eq_true. unfold normalize.
  by rewrite <- !trim_end_dots_lower, <- !trim_lower, E.
Qed.
Lemma same_name_aligned d h strict : eq_ignore_ascii_case d h = true → domains_aligned d h strict = true.
Proof.
  intros E. unfold domains_aligned. destruct strict; [done|]. rewrite (normalize_caseless d h E).
  destruct (domain_str (normalize h)); [by apply bool_decide_true|done].
Qed.
Lemma same_owner_aligned d h : same_owner d h → domains_aligned d h false = true.
Proof.
  intros [E|(o & o' & E1 & E2 & E)]; [by apply same_name_aligned|]. unfold domains_aligned. by rewrite E1, E2.
Qed.

(** What aligns is authenticated, in the mode of its mechanism. *)
Lemma aligned_authenticated r h env spf dkim :
  spf_aligned r h env spf || dkim_aligned r h dkim = true →
  ∃ d, authenticated env spf dkim d ∧ same_owner d h.
Proof.
  rewrite orb_true_iff. unfold spf_aligned, dkim_aligned. rewrite !andb_true_iff, negb_true_iff, !bool_decide_eq_true, bool_decide_eq_false.
  intros [[[Hs He] Ha]|H].
  - exists env. split; [left; done|by eapply aligned_same_owner].
  - destruct dkim as [d s| | |]; [|done..]. exists d. split; [right; eauto|by eapply aligned_same_owner].
Qed.
Lemma unaligned_authenticated r h env spf dkim d :
  spf_aligned r h env spf || dkim_aligned r h dkim = false → authenticated env spf dkim d →
  eq_ignore_ascii_case d h = false ∧ (dkim_strict r = false → spf_strict r = false → ¬ same_owner d h).
Proof.
  rewrite orb_false_iff. intros [Hs Hk] Hd.
  assert (∃ strict, domains_aligned d h strict = false ∧ (strict = spf_strict r ∨ strict = dkim_strict r)) as (strict & Hal & Hmode).
  { destruct Hd as [(-> & -> & Hne)|[s ->]]; [exists (spf_strict r)|exists (dkim_strict r)]; [|eauto].
    unfold spf_aligned in Hs. rewrite bool_decide_true, bool_decide_false in Hs by done. eauto. }
  split.
  - apply not_true_iff_false. intros E. by rewrite same_name_aligned in Hal.
  - intros Hd' Hs' Ho%same_owner_aligned. destruct Hmode as [->| ->]; congruence.
Qed.

(** The verdict is what the published policy asks for.  A pass names a domain the
    message was authenticated for and that has the same registrant as the [From]
    domain; a failure carries the effective policy of the governing record, and no
    authenticated name is the [From] domain, nor, when alignment is relaxed, one of
    its registrant; no verdict is only given when no record governs, and an error
    when the records are malformed or several. *)
Theorem dmarc_decides resolver h env spf dkim :
  match evaluate resolver h env spf dkim with
  | Pass => ∃ r sub d, governs resolver h r sub ∧ authenticated env spf dkim d ∧ same_owner d h
  | Fail disposition => ∃ r sub, governs resolver h r sub ∧ disposition = to_disposition (effective r sub) ∧
      ∀ d, authenticated env spf dkim d → eq_ignore_ascii_case d h = false ∧
        (dkim_strict r = false → spf_strict r = false → ¬ same_owner d h)
  | NoPolicy => records_at resolver h = [] ∧ ∀ r sub, ¬ governs resolver h r sub
  | PermError => (∀ r sub, ¬ governs resolver h r sub) ∧
      ∃ d t ts, d ∈ [h; organizational_domain h] ∧ records_at resolver d = t :: ts ∧ (ts = [] → parse_record t = None)
  end.
Proof.
  unfold evaluate. destruct (discover resolver h) as [r sub| |] eqn:E.
  - apply discover_governs in E. destruct (_ || _) eqn:A.
    + apply aligned_authenticated in A as (d & Ha & Ho). eauto 6.
    + exists r, sub. repeat split; [done|..]; by eapply unaligned_authenticated.
  - split; [|intros r sub H%discover_governs; congruence].
    unfold discover in E. rewrite !lookup_at_spec in E. repeat case_match; naive_solver.
  - split; [intros r sub H%discover_governs; congruence|].
    unfold discover in E. rewrite !lookup_at_spec in E.
    destruct (records_at resolver h) as [|t ts] eqn:Eh.
    + destruct (negb _); [|done]. destruct (records_at resolver (organizational_domain h)) as [|t ts] eqn:Eo; [done|].
      exists (organizational_domain h), t, ts. split; [right; left|]. split; [done|]. intros ->. by destruct (parse_record t).
    + exists h, t, ts. split; [left|]. split; [done|]. intros ->. by destruct (parse_record t).
Qed.
End verdict.
End Dmarc.

(** ** Witnesses *)

Module DmarcWitness.
Import Dmarc.
Definition record : DmarcRecord :=
  {| policy := PReject; subdomain_policy := Some PQuarantine; dkim_strict := true; spf_strict := false; pct := 50 |}.
Lemma dmarc_record_roundtrip_witness :
  parse_record (Dkim.render_tags (record_tags record ++ [("rua", "mailto:x@y.example")]%string)) = Some record.
Proof.
  apply (dmarc_record_roundtrip record [("rua", "mailto:x@y.example")]%string).
  - simpl. lia.
  - apply Forall_singleton. split; [repeat split; reflexivity|]. apply (bool_decide_unpack _). vm_compute. exact I.
Defined.

(** The verdicts on a domain with a policy of rejection. *)
#[local] Instance toy_psl : PublicSuffixList := {|
  domain_str d := if bool_decide (d ∈ ["bank.example"; "mail.bank.example"]%string) then Some "bank.example"%string else None |}.
Definition dns : InMemoryDmarcResolver :=
  with_txt "_dmarc.bank.example" ["v=DMARC1; p=reject"]%string {| dmarc_records := ∅ |}.
Example dmarc_samples :
  evaluate dns "bank.example" "evil.example" (Some Spf.Pass) Dkim.VNoSignature = Fail DReject ∧
  evaluate dns "bank.example" "mail.bank.example" (Some Spf.Pass) Dkim.VNoSignature = Pass ∧
  evaluate dns "mail.bank.example" "evil.example" None (Dkim.VPass "bank.example" "s1") = Pass ∧
  evaluate dns "other.example" "evil.example" (Some Spf.Pass) Dkim.VNoSignature = NoPolicy.
Proof. vm_compute. done. Qed.
End DmarcWitness.
