(* ===== verification/Inbound.v ===== *)
(** * The inbound gateway and its mail sessions

    [InboundGateway] and [MxSession] of [crates/gateway/src/inbound.rs]: the gates
    a message passes (DKIM, DMARC, recipient, attestation key), its wrapping,
    attestation and delivery, and the line-fed SMTP session around them.  The
    gateway's collaborators are type classes; those with a lock inside, the
    anti-abuse gate and the mesh, carry a state that the operations return. *)

From Stdlib Require Import ZArith Lia Ascii String.
From stdpp Require Import base decidable option list strings gmap.
From S2P Require Import Prelude RustStr RustText Kotva KotvaMail Directory Provenance Attestation ColdGate Dkim Spf Dmarc.
Local Open Scope Z_scope.

Inductive DeliveryOutcome := Acked | NoAck.
#[global] Instance DeliveryOutcome_eq_dec : EqDecision DeliveryOutcome.
Proof. solve_decision. Defined.

(** [trait MeshDelivery], and the mesh that is not configured. *)
Class MeshDelivery `{KI : KotvaIdentity} `{KM : !KotvaMote} (M : Type) := {
  deliver : Envelope → Attestation.Attestation → M → DeliveryOutcome * M;
}.
Inductive NullMesh := null_mesh.
#[export] Instance NullMesh_MeshDelivery `{KI : KotvaIdentity} `{KM : !KotvaMote} : MeshDelivery NullMesh := {|
  deliver _ _ m := (NoAck, m) |}.

Module Inbound.

Record SmtpReply := { reply_code : Z; reply_text : string }.
Definition SmtpReply_new (code : Z) (text : string) : SmtpReply := {| reply_code := code; reply_text := text |}.
Definition reply_is_ok (r : SmtpReply) : bool := (200 <=? reply_code r) && (reply_code r <? 300).

Inductive DkimPolicy := DkimAnnotate | DkimEnforce.
Inductive SpfPolicy := SpfAnnotate | SpfEnforce.
Inductive DmarcHandling := DmarcAnnotate | DmarcEnforce.
#[global] Instance DkimPolicy_eq_dec : EqDecision DkimPolicy.
Proof. solve_decision. Defined.
#[global] Instance SpfPolicy_eq_dec : EqDecision SpfPolicy.
Proof. solve_decision. Defined.
#[global] Instance DmarcHandling_eq_dec : EqDecision DmarcHandling.
Proof. solve_decision. Defined.

Definition DEFAULT_MAX_MESSAGE_BYTES : Z := 25 * 1024 * 1024.

Inductive InboundError :=
| NoRecipient (rcpt : string) | NoAttestationKey (domain : string) | BadAddress (rcpt : string) | SealFailed.

Definition domain_of (addr : string) : option string :=
  let a := trim_end_matches ">" (trim_start_matches "<" (trim addr)) in
  '(_, d) ← rsplit_once "@" a;
  if bool_decide (d = EmptyString) then None else Some d.

Section inbound.
Context `{KC : KotvaCbor} `{KI : KotvaIdentity} `{KD : KotvaContentId} `{KM : !KotvaMote} `{MM : KotvaMime}
  `{PSL : PublicSuffixList} `{DC : DkimCrypto}.
Context `{HD : KeyDirectory D} `{HM : !MeshDelivery M} `{HG : AntiAbuse G}
  `{HK : Dkim.DkimKeyResolver KR} `{HS : Spf.SpfResolver SR} `{HR : Dmarc.DmarcTxtResolver DR}.

Record InboundGateway := {
  gw_ik : IdentityKey;
  attest_keys : list Provenance.AttestationKey;
  directory : D;
  delivery : M;
  abuse : G;
  dkim_resolver : option KR;
  dkim_policy : DkimPolicy;
  spf_resolver : option SR;
  spf_policy : SpfPolicy;
  dmarc_resolver : option DR;
  dmarc_policy : DmarcHandling;
  max_message_bytes : Z;
}.

Definition InboundGateway_new (ik : IdentityKey) (keys : list Provenance.AttestationKey) (d : D) (m : M) (g : G)
    : InboundGateway := {|
  gw_ik := ik; attest_keys := keys; directory := d; delivery := m; abuse := g;
  dkim_resolver := None; dkim_policy := DkimAnnotate; spf_resolver := None; spf_policy := SpfAnnotate;
  dmarc_resolver := None; dmarc_policy := DmarcAnnotate; max_message_bytes := DEFAULT_MAX_MESSAGE_BYTES |}.
Definition for_own_domains (ik : IdentityKey) (domains : list (string * string)) (d : D) (m : M) (g : G) : InboundGateway :=
  InboundGateway_new ik ((λ '(domain, selector), Attestation.AttestationKey_sharing domain selector ik) <$> domains) d m g.

Definition with_max_message_bytes (n : Z) (gw : InboundGateway) : InboundGateway := {|
  gw_ik := gw_ik gw; attest_keys := attest_keys gw; directory := directory gw; delivery := delivery gw; abuse := abuse gw;
  dkim_resolver := dkim_resolver gw; dkim_policy := dkim_policy gw; spf_resolver := spf_resolver gw;
  spf_policy := spf_policy gw; dmarc_resolver := dmarc_resolver gw; dmarc_policy := dmarc_policy gw;
  max_message_bytes := n |}.
Definition with_dkim (r : KR) (p : DkimPolicy) (gw : InboundGateway) : InboundGateway := {|
  gw_ik := gw_ik gw; attest_keys := attest_keys gw; directory := directory gw; delivery := delivery gw; abuse := abuse gw;
  dkim_resolver := Some r; dkim_policy := p; spf_resolver := spf_resolver gw;
  spf_policy := spf_policy gw; dmarc_resolver := dmarc_resolver gw; dmarc_policy := dmarc_policy gw;
  max_message_bytes := max_message_bytes gw |}.
Definition with_spf (r : SR) (p : SpfPolicy) (gw : InboundGateway) : InboundGateway := {|
  gw_ik := gw_ik gw; attest_keys := attest_keys gw; directory := directory gw; delivery := delivery gw; abuse := abuse gw;
  dkim_resolver := dkim_resolver gw; dkim_policy := dkim_policy gw; spf_resolver := Some r;
  spf_policy := p; dmarc_resolver := dmarc_resolver gw; dmarc_policy := dmarc_policy gw;
  max_message_bytes := max_message_bytes gw |}.
Definition with_dmarc (r : DR) (p : DmarcHandling) (gw : InboundGateway) : InboundGateway := {|
  gw_ik := gw_ik gw; attest_keys := attest_keys gw; directory := directory gw; delivery := delivery gw; abuse := abuse gw;
  dkim_resolver := dkim_resolver gw; dkim_policy := dkim_policy gw; spf_resolver := spf_resolver gw;
  spf_policy := spf_policy gw; dmarc_resolver := Some r; dmarc_policy := p;
  max_message_bytes := max_message_bytes gw |}.
(** The states behind the locks of the collaborators. *)
Definition with_delivery (m : M) (gw : InboundGateway) : InboundGateway := {|
  gw_ik := gw_ik gw; attest_keys := attest_keys gw; directory := directory gw; delivery := m; abuse := abuse gw;
  dkim_resolver := dkim_resolver gw; dkim_policy := dkim_policy gw; spf_resolver := spf_resolver gw;
  spf_policy := spf_policy gw; dmarc_resolver := dmarc_resolver gw; dmarc_policy := dmarc_policy gw;
  max_message_bytes := max_message_bytes gw |}.
Definition with_abuse (g : G) (gw : InboundGateway) : InboundGateway := {|
  gw_ik := gw_ik gw; attest_keys := attest_keys gw; directory := directory gw; delivery := delivery gw; abuse := g;
  dkim_resolver := dkim_resolver gw; dkim_policy := dkim_policy gw; spf_resolver := spf_resolver gw;
  spf_policy := spf_policy gw; dmarc_resolver := dmarc_resolver gw; dmarc_policy := dmarc_policy gw;
  max_message_bytes := max_message_bytes gw |}.

Definition attest_key_for (gw : InboundGateway) (domain : string) : option Provenance.AttestationKey :=
  find_first (λ k, eq_ignore_ascii_case (Provenance.ak_domain k) domain) (attest_keys gw).

(** ** The gates *)

Definition verify_inbound_dkim (gw : InboundGateway) (message : bytes) : Dkim.DkimVerdict :=
  match dkim_resolver gw with
  | Some resolver => Dkim.verify_with_resolver message resolver
  | None => Dkim.VNoSignature
  end.
Definition dkim_gate (gw : InboundGateway) (verdict : Dkim.DkimVerdict) : result SmtpReply unit :=
  if bool_decide (dkim_policy gw ≠ DkimEnforce) then Ok tt
  else match verdict with
       | Dkim.VFail _ => Err (SmtpReply_new 550 "5.7.20 DKIM signature present but does not verify")
       | _ => Ok tt
       end.

Definition evaluate_spf (gw : InboundGateway) (peer_ip mail_from : string) (helo : option string) : Spf.SpfOutcome :=
  match spf_resolver gw with
  | None => Spf.unevaluated
  | Some resolver =>
      match parse_ip (trim peer_ip) with
      | None => Spf.unevaluated
      | Some ip => Spf.evaluate resolver ip mail_from helo
      end
  end.
Definition spf_gate (gw : InboundGateway) (outcome : Spf.SpfOutcome) : result SmtpReply unit :=
  if bool_decide (spf_policy gw ≠ SpfEnforce) then Ok tt
  else match Spf.result outcome with
       | Spf.Fail => Err (SmtpReply_new 550 "5.7.23 SPF hard fail (RFC 7208): sender IP not authorized for this domain")
       | Spf.TempError => Err (SmtpReply_new 451 "4.4.3 SPF temporary DNS error evaluating sender policy, please retry")
       | _ => Ok tt
       end.

Definition dmarc_verdict_with_dkim (gw : InboundGateway) (data : bytes) (spf : option Spf.SpfOutcome)
    (dkim_verdict : Dkim.DkimVerdict) (mail_from : string) : Dmarc.DmarcVerdict :=
  match dmarc_resolver gw with
  | None => Dmarc.NoPolicy
  | Some resolver =>
      match Dmarc.header_from data with
      | Dmarc.Unusable => Dmarc.PermError
      | Dmarc.Ambiguous => Dmarc.Fail Dmarc.DReject
      | Dmarc.Single header_domain =>
          let envelope_domain := default EmptyString (domain_of mail_from) in
          Dmarc.evaluate resolver header_domain envelope_domain (Spf.result <$> spf) dkim_verdict
      end
  end.
Definition evaluate_dmarc (gw : InboundGateway) (data : bytes) (spf : option Spf.SpfOutcome) (mail_from : string)
    : Dmarc.DmarcVerdict :=
  dmarc_verdict_with_dkim gw data spf (verify_inbound_dkim gw data) mail_from.
Definition dmarc_gate (gw : InboundGateway) (data : bytes) (spf : option Spf.SpfOutcome)
    (dkim_verdict : Dkim.DkimVerdict) (mail_from : string) : result SmtpReply unit :=
  if bool_decide (dmarc_policy gw ≠ DmarcEnforce) then Ok tt
  else match dmarc_verdict_with_dkim gw data spf dkim_verdict mail_from with
       | Dmarc.Fail Dmarc.DReject =>
           Err (SmtpReply_new 550 "5.7.1 message failed DMARC (RFC 7489): policy=reject and SPF/DKIM not aligned")
       | _ => Ok tt
       end.

(** ** Wrapping and delivering *)

Definition strip_trust_boundary_headers (rfc5322 : bytes) : bytes :=
  let '(head, body) := header_and_body rfc5322 in mime_strip_headers head ++ body.

(** [ephemeral] is the key [IdentityKey::generate] draws. *)
Definition wrap_and_attest (gw : InboundGateway) (mail_from rcpt_to : string) (data : bytes) (now : Z)
    (ephemeral : IdentityKey) : result InboundError (Envelope * Attestation.Attestation) :=
  domain ← ok_or (BadAddress rcpt_to) (domain_of rcpt_to);
  recip ← ok_or (NoRecipient rcpt_to) (dir_resolve (directory gw) rcpt_to);
  att_key ← ok_or (NoAttestationKey domain) (attest_key_for gw domain);
  let hygienic := strip_trust_boundary_headers data in
  let draft := build_mote_draft hygienic now in
  env ← map_err (λ _, SealFailed) (build_mote (gw_ik gw) ephemeral (rk_ik recip) (rk_seal_pub recip) draft);
  let attestation := Attestation.attest att_key (env_id env) mail_from rcpt_to now in
  Ok (env, attestation).

Record InboundBridged := {
  br_env : Envelope;
  br_attestation : Attestation.Attestation;
  gateway_attestation : Provenance.GatewayAttestation;
  provenance : Provenance.ProvenanceRecord;
}.
Definition wrap_attest_and_stamp (gw : InboundGateway) (mail_from rcpt_to : string) (data : bytes) (now : Z)
    (ephemeral : IdentityKey) : result InboundError InboundBridged :=
  domain ← ok_or (BadAddress rcpt_to) (domain_of rcpt_to);
  att_key ← ok_or (NoAttestationKey domain) (attest_key_for gw domain);
  '(env, attestation) ← wrap_and_attest gw mail_from rcpt_to data now ephemeral;
  let hygienic := strip_trust_boundary_headers data in
  let ga := Provenance.sign att_key hygienic (Some mail_from) now 0 in
  let record := Provenance.assemble Provenance.Fast Provenance.NotApplicable None None [ga] in
  Ok {| br_env := env; br_attestation := attestation; gateway_attestation := ga; provenance := record |}.

Definition accept_message_with_spf (gw : InboundGateway) (mail_from rcpt_to : string) (data : bytes) (now : Z)
    (spf : option Spf.SpfOutcome) (ephemeral : IdentityKey) : SmtpReply * InboundGateway :=
  let dkim_verdict := verify_inbound_dkim gw data in
  match dkim_gate gw dkim_verdict with
  | Err reply => (reply, gw)
  | Ok _ =>
      match dmarc_gate gw data spf dkim_verdict mail_from with
      | Err reply => (reply, gw)
      | Ok _ =>
          match wrap_and_attest gw mail_from rcpt_to data now ephemeral with
          | Err (NoRecipient _) | Err (BadAddress _) => (SmtpReply_new 550 "5.1.1 no such user here", gw)
          | Err (NoAttestationKey _) => (SmtpReply_new 451 "4.3.5 gateway not configured for this domain", gw)
          | Err SealFailed => (SmtpReply_new 451 "4.3.0 temporary failure wrapping message", gw)
          | Ok (env, attestation) =>
              let '(outcome, m) := deliver env attestation (delivery gw) in
              (match outcome with
               | Acked => SmtpReply_new 250 "2.6.0 message durably accepted"
               | NoAck => SmtpReply_new 451 "4.4.1 recipient has not durably accepted yet, try again later"
               end, with_delivery m gw)
          end
      end
  end.
Definition accept_message (gw : InboundGateway) (mail_from rcpt_to : string) (data : bytes) (now : Z)
    (ephemeral : IdentityKey) : SmtpReply * InboundGateway :=
  accept_message_with_spf gw mail_from rcpt_to data now None ephemeral.

Definition rcpt_acceptable (gw : InboundGateway) (rcpt : string) : result SmtpReply unit :=
  domain ← ok_or (SmtpReply_new 501 "5.1.3 bad recipient address") (domain_of rcpt);
  match dir_resolve (directory gw) rcpt with
  | None => Err (SmtpReply_new 550 "5.1.1 no such user here")
  | Some _ =>
      match attest_key_for gw domain with
      | None => Err (SmtpReply_new 451 "4.3.5 gateway not configured for this domain")
      | Some _ => Ok tt
      end
  end.

(** ** The session *)

Inductive Phase := Command | Data.

Record MxSession := {
  peer_ip : string;
  mx_now : Z;
  phase : Phase;
  helo : option string;
  mail_from : option string;
  rcpt_to : option string;
  data : bytes;
  size_exceeded : bool;
  spf_outcome : option Spf.SpfOutcome;
}.
Definition MxSession_new (ip : string) (now : Z) : MxSession := {|
  peer_ip := ip; mx_now := now; phase := Command; helo := None; mail_from := None; rcpt_to := None;
  data := []; size_exceeded := false; spf_outcome := None |}.
Definition greeting : SmtpReply := SmtpReply_new 220 "envoir-gateway DMTAP MX ready".

Definition with_phase (p : Phase) (s : MxSession) : MxSession := {|
  peer_ip := peer_ip s; mx_now := mx_now s; phase := p; helo := helo s; mail_from := mail_from s;
  rcpt_to := rcpt_to s; data := data s; size_exceeded := size_exceeded s; spf_outcome := spf_outcome s |}.
Definition with_data (d : bytes) (exceeded : bool) (s : MxSession) : MxSession := {|
  peer_ip := peer_ip s; mx_now := mx_now s; phase := phase s; helo := helo s; mail_from := mail_from s;
  rcpt_to := rcpt_to s; data := d; size_exceeded := exceeded; spf_outcome := spf_outcome s |}.
Definition with_helo (h : option string) (s : MxSession) : MxSession := {|
  peer_ip := peer_ip s; mx_now := mx_now s; phase := phase s; helo := h; mail_from := mail_from s;
  rcpt_to := rcpt_to s; data := data s; size_exceeded := size_exceeded s; spf_outcome := spf_outcome s |}.
Definition with_sender (addr : string) (outcome : Spf.SpfOutcome) (s : MxSession) : MxSession := {|
  peer_ip := peer_ip s; mx_now := mx_now s; phase := phase s; helo := helo s; mail_from := Some addr;
  rcpt_to := rcpt_to s; data := data s; size_exceeded := size_exceeded s; spf_outcome := Some outcome |}.
Definition with_rcpt (addr : string) (s : MxSession) : MxSession := {|
  peer_ip := peer_ip s; mx_now := mx_now s; phase := phase s; helo := helo s; mail_from := mail_from s;
  rcpt_to := Some addr; data := data s; size_exceeded := size_exceeded s; spf_outcome := spf_outcome s |}.
Definition reset_transaction (s : MxSession) : MxSession := {|
  peer_ip := peer_ip s; mx_now := mx_now s; phase := phase s; helo := helo s; mail_from := None;
  rcpt_to := None; data := []; size_exceeded := false; spf_outcome := None |}.

(** What a line brings with it: the clock of the anti-abuse gate, and the
    ephemeral key drawn if a message is wrapped. *)
Record Ambient := { clock_ms : Z; ephemeral_key : IdentityKey }.

(** A result of a step: the reply, the session and the gateway after it. *)
Definition Step : Type := SmtpReply * MxSession * InboundGateway.

Definition strip_either (p q : string) (rest : string) : option string :=
  match strip_prefix p rest with Some a => Some a | None => strip_prefix q rest end.

Definition cmd_mail (amb : Ambient) (rest : string) (s : MxSession) (gw : InboundGateway) : Step :=
  match strip_either "FROM:" "from:" rest with
  | None => (SmtpReply_new 501 "5.5.4 syntax: MAIL FROM:<address>", s, gw)
  | Some a =>
      let addr := trim a in
      let '(decision, g) := abuse_check (peer_ip s) addr (clock_ms amb) (abuse gw) in
      let gw := with_abuse g gw in
      match decision with
      | Reject code reason => (SmtpReply_new code reason, s, gw)
      | Accept =>
          let outcome := evaluate_spf gw (peer_ip s) addr (helo s) in
          match spf_gate gw outcome with
          | Err reply => (reply, s, gw)
          | Ok _ =>
              (SmtpReply_new 250 "2.1.0 sender ok", with_sender addr outcome s, gw)
          end
      end
  end.

Definition cmd_rcpt (rest : string) (s : MxSession) (gw : InboundGateway) : Step :=
  match mail_from s with
  | None => (SmtpReply_new 503 "5.5.1 need MAIL before RCPT", s, gw)
  | Some _ =>
      match strip_either "TO:" "to:" rest with
      | None => (SmtpReply_new 501 "5.5.4 syntax: RCPT TO:<address>", s, gw)
      | Some a =>
          let addr := trim_end_matches ">" (trim_start_matches "<" (trim a)) in
          match rcpt_acceptable gw addr with
          | Err reply => (reply, s, gw)
          | Ok _ =>
              (SmtpReply_new 250 "2.1.5 recipient ok", with_rcpt addr s, gw)
          end
      end
  end.

Definition cmd_data (s : MxSession) (gw : InboundGateway) : Step :=
  match mail_from s, rcpt_to s with
  | Some _, Some _ => (SmtpReply_new 354 "start mail input; end with <CRLF>.<CRLF>", with_phase Data s, gw)
  | _, _ => (SmtpReply_new 503 "5.5.1 need MAIL and RCPT before DATA", s, gw)
  end.

Definition feed_data (amb : Ambient) (line : bytes) (s : MxSession) (gw : InboundGateway) : Step :=
  if bool_decide (line = [Byte.x2e]) then
    let s := with_phase Command s in
    if size_exceeded s then
      (SmtpReply_new 552 "5.3.4 message size exceeds fixed maximum message size", reset_transaction s, gw)
    else
      let from := default EmptyString (mail_from s) in
      let rcpt := default EmptyString (rcpt_to s) in
      let '(reply, gw) :=
        accept_message_with_spf gw from rcpt (data s) (mx_now s) (spf_outcome s) (ephemeral_key amb) in
      (reply, reset_transaction s, gw)
  else
    let unstuffed := default line (strip_bytes [Byte.x2e] line) in
    let no_reply := SmtpReply_new 0 EmptyString in
    if size_exceeded s then (no_reply, s, gw)
    else if max_message_bytes gw <? Z.of_nat (length (data s)) + Z.of_nat (length unstuffed) + 2 then
      (no_reply, with_data [] true s, gw)
    else (no_reply, with_data (data s ++ unstuffed ++ Dkim.CRLF) false s, gw).

Definition feed_line_bytes (amb : Ambient) (line : bytes) (s : MxSession) (gw : InboundGateway) : Step :=
  match phase s with
  | Data => feed_data amb line s gw
  | Command =>
      let line := from_utf8_lossy line in
      let '(verb, rest) :=
        match split_once " " line with
        | Some (v, r) => (to_ascii_uppercase v, trim r)
        | None => (to_ascii_uppercase (trim line), EmptyString)
        end in
      if bool_decide (verb = "HELO"%string) || bool_decide (verb = "EHLO"%string) then
        let arg := trim rest in
        (SmtpReply_new 250 "envoir-gateway at your service",
         with_helo (if bool_decide (arg = EmptyString) then None else Some arg) s, gw)
      else if bool_decide (verb = "MAIL"%string) then cmd_mail amb rest s gw
      else if bool_decide (verb = "RCPT"%string) then cmd_rcpt rest s gw
      else if bool_decide (verb = "DATA"%string) then cmd_data s gw
      else if bool_decide (verb = "RSET"%string) then (SmtpReply_new 250 "2.0.0 flushed", reset_transaction s, gw)
      else if bool_decide (verb = "NOOP"%string) then (SmtpReply_new 250 "2.0.0 ok", s, gw)
      else if bool_decide (verb = "QUIT"%string) then (SmtpReply_new 221 "2.0.0 bye", s, gw)
      else (SmtpReply_new 502 "5.5.1 command not implemented", s, gw)
  end.
Definition feed_line (amb : Ambient) (line : string) (s : MxSession) (gw : InboundGateway) : Step :=
  feed_line_bytes amb (as_bytes line) s gw.

(** A session over its lines: the replies, and where it ends. *)
Fixpoint run (lines : list (Ambient * bytes)) (s : MxSession) (gw : InboundGateway)
    : list SmtpReply * MxSession * InboundGateway :=
  match lines with
  | [] => ([], s, gw)
  | (amb, line) :: lines =>
      let '(reply, s, gw) := feed_line_bytes amb line s gw in
      let '(replies, s, gw) := run lines s gw in
      (reply :: replies, s, gw)
  end.

(** ** What does not change *)

(** Two gateways with the same configuration. *)
Definition same_config (g h : InboundGateway) : Prop :=
  g = with_delivery (delivery g) (with_abuse (abuse g) h).
#[local] Instance same_config_refl : Reflexive same_config.
Proof. by intros []. Qed.
#[local] Instance same_config_trans : Transitive same_config.
Proof. intros [] [] []. unfold same_config, with_delivery, with_abuse. simpl. intros [=] [=]. by subst. Qed.

Lemma accept_config gw from to d now spf eph r gw' :
  accept_message_with_spf gw from to d now spf eph = (r, gw') → same_config gw' gw.
Proof.
  unfold accept_message_with_spf. destruct gw. intros H. repeat case_match; simplify_eq; done.
Qed.

(** The effects a command can have. *)
Inductive command_step (amb : Ambient) (s : MxSession) (gw : InboundGateway) : Step → Prop :=
| step_nothing r : command_step amb s gw (r, s, gw)
| step_helo r h : command_step amb s gw (r, with_helo h s, gw)
| step_reset r : command_step amb s gw (r, reset_transaction s, gw)
| step_mail_refused r a g :
    abuse_check (peer_ip s) a (clock_ms amb) (abuse gw) = g → reply_code r ≠ 250 ∨ g.1 ≠ Accept →
    command_step amb s gw (r, s, with_abuse g.2 gw)
| step_mail r a g outcome :
    abuse_check (peer_ip s) a (clock_ms amb) (abuse gw) = (Accept, g) →
    outcome = evaluate_spf gw (peer_ip s) a (helo s) → spf_gate gw outcome = Ok tt →
    command_step amb s gw (r, with_sender a outcome s, with_abuse g gw)
| step_rcpt r a :
    mail_from s ≠ None → rcpt_acceptable gw a = Ok tt → command_step amb s gw (r, with_rcpt a s, gw)
| step_data r :
    mail_from s ≠ None → rcpt_to s ≠ None → command_step amb s gw (r, with_phase Data s, gw).

Lemma spf_with_abuse g gw ip a h : evaluate_spf (with_abuse g gw) ip a h = evaluate_spf gw ip a h.
Proof. done. Qed.

Lemma cmd_mail_step amb rest s gw : command_step amb s gw (cmd_mail amb rest s gw).
Proof.
  unfold cmd_mail. destruct (strip_either _ _ _) as [a|]; [|constructor].
  destruct (abuse_check _ _ _ _) as [[|code reason] g] eqn:E.
  - destruct (spf_gate _ _) as [[]|reply] eqn:Es; [by econstructor|].
    eapply (step_mail_refused amb s gw reply _ (Accept, g)); [exact E|]. left.
    unfold spf_gate in Es. repeat case_match; simplify_eq; done.
  - eapply (step_mail_refused amb s gw (SmtpReply_new code reason) _ (Reject code reason, g)); [exact E|]. by right.
Qed.
Lemma cmd_rcpt_step amb rest s gw : command_step amb s gw (cmd_rcpt rest s gw).
Proof.
  unfold cmd_rcpt. destruct (mail_from s) eqn:E; [|constructor]. destruct (strip_either _ _ _) as [a|]; [|constructor].
  destruct (rcpt_acceptable _ _) as [[]|] eqn:Er; constructor; [by rewrite E|done].
Qed.
Lemma cmd_data_step amb s gw : command_step amb s gw (cmd_data s gw).
Proof.
  unfold cmd_data. destruct (mail_from s) eqn:E, (rcpt_to s) eqn:E'; constructor; by rewrite ?E, ?E'.
Qed.
Lemma command_steps amb line s gw :
  phase s = Command → command_step amb s gw (feed_line_bytes amb line s gw).
Proof.
  intros Hp. unfold feed_line_bytes. rewrite Hp.
  destruct (match split_once _ _ with Some _ => _ | None => _ end) as [verb rest].
  destruct (_ || _); [constructor|].
  destruct (bool_decide _); [apply cmd_mail_step|]. destruct (bool_decide _); [apply cmd_rcpt_step|].
  destruct (bool_decide _); [apply cmd_data_step|]. repeat (destruct (bool_decide _); [constructor|]). constructor.
Qed.

Lemma step_config amb line s gw r s' gw' :
  feed_line_bytes amb line s gw = (r, s', gw') → same_config gw' gw.
Proof.
  intros H. destruct (phase s) eqn:Hp.
  - pose proof (command_steps amb line s gw Hp) as Hs. rewrite H in Hs. inversion Hs; subst; try done; by destruct gw.
  - unfold feed_line_bytes in H. rewrite Hp in H. unfold feed_data in H.
    destruct (bool_decide _).
    + destruct (size_exceeded _); [by simplify_eq|].
      destruct (accept_message_with_spf _ _ _ _ _ _ _) as [r1 gw1] eqn:E. simplify_eq. by eapply accept_config.
    + repeat case_match; by simplify_eq.
Qed.

(** ** Reachable sessions

    [past] lists the gateway at each line fed so far.  Between two lines other
    sessions may use the gateway: they change the states behind its locks. *)
Inductive reachable (ip : string) (now : Z) (gw0 : InboundGateway)
    : list (Ambient * InboundGateway) → MxSession → InboundGateway → Prop :=
| reach_start : reachable ip now gw0 [] (MxSession_new ip now) gw0
| reach_line past s gw amb line r s' gw' :
    reachable ip now gw0 past s gw → feed_line_bytes amb line s gw = (r, s', gw') →
    reachable ip now gw0 (past ++ [(amb, gw)]) s' gw'
| reach_others past s gw gw' :
    reachable ip now gw0 past s gw → same_config gw' gw → reachable ip now gw0 past s gw'.

(** The sender passed the anti-abuse gate at an earlier line, and its SPF outcome,
    for the name the session had given by then, passes the SPF gate. *)
Definition vetted (past : list (Ambient * InboundGateway)) (s : MxSession) (gw : InboundGateway) (from : string) : Prop :=
  (∃ amb gwb, (amb, gwb) ∈ past ∧ (abuse_check (peer_ip s) from (clock_ms amb) (abuse gwb)).1 = Accept) ∧
  ∃ h, spf_outcome s = Some (evaluate_spf gw (peer_ip s) from h) ∧ spf_gate gw (evaluate_spf gw (peer_ip s) from h) = Ok tt.

Record session_inv (past : list (Ambient * InboundGateway)) (s : MxSession) (gw : InboundGateway) : Prop := {
  inv_data : phase s = Data → mail_from s ≠ None ∧ rcpt_to s ≠ None;
  inv_idle : phase s = Command → data s = [] ∧ size_exceeded s = false;
  inv_size : Z.of_nat (length (data s)) ≤ max_message_bytes gw;
  inv_exceeded : size_exceeded s = true → data s = [];
  inv_sender : ∀ a, mail_from s = Some a → vetted past s gw a;
  inv_rcpt : ∀ a, rcpt_to s = Some a → rcpt_acceptable gw a = Ok tt;
}.

Lemma config_facts gw gw' :
  same_config gw' gw →
  max_message_bytes gw' = max_message_bytes gw ∧ (∀ a, rcpt_acceptable gw' a = rcpt_acceptable gw a) ∧
  (∀ ip a h, evaluate_spf gw' ip a h = evaluate_spf gw ip a h) ∧ (∀ o, spf_gate gw' o = spf_gate gw o).
Proof. intros ->. done. Qed.

Lemma inv_config past past' s gw gw' :
  same_config gw' gw → past ⊆ past' → session_inv past s gw → session_inv past' s gw'.
Proof.
  intros (Hm & Hr & Hs & Hg)%config_facts Hp []. constructor; try done.
  - by rewrite Hm.
  - intros a Ha. destruct (inv_sender0 a Ha) as [(amb & gwb & Hin & Hac) (h & Ho & Hok)]. split.
    + exists amb, gwb. split; [by apply Hp|done].
    + exists h. by rewrite Hg, Hs.
  - intros a Ha. rewrite Hr. by apply inv_rcpt0.
Qed.

Lemma inv_reset past s gw :
  phase s = Command → 0 ≤ max_message_bytes gw → session_inv past (reset_transaction s) gw.
Proof. intros Hp H. constructor; cbn; try done. by rewrite Hp. Qed.

Lemma inv_command past amb s gw st :
  session_inv past s gw → phase s = Command → command_step amb s gw st → session_inv (past ++ [(amb, gw)]) st.1.2 st.2.
Proof.
  intros Hinv Hp Hst.
  assert (past ⊆ past ++ [(amb, gw)]) as Hsub by set_solver.
  destruct Hst as [r|r h|r|r a g Hg Hr|r a g o Hg Ho Hok|r a Hm Hr|r Hm Hr]; cbn [fst snd].
  - by eapply (inv_config past).
  - eapply (inv_config past); [done|done|]. by destruct Hinv; constructor.
  - apply inv_reset; [done|]. destruct Hinv. lia.
  - eapply (inv_config past _ _ gw); [by destruct gw|done|done].
  - eapply (inv_config (past ++ [(amb, gw)]) _ _ gw); [by destruct gw|done|].
    apply (inv_config past (past ++ [(amb, gw)]) s gw gw) in Hinv; [|done|done].
    destruct Hinv. constructor; try done.
    + intros E. cbn in E. congruence.
    + intros a' [= <-]. split.
      * exists amb, gw. split; [set_solver|]. by apply (f_equal fst) in Hg.
      * exists (helo s). rewrite Ho in Hok. by rewrite Ho.
  - apply (inv_config past (past ++ [(amb, gw)]) s gw gw) in Hinv; [|done|done].
    destruct Hinv. constructor; try done.
    by intros a' [= <-].
  - apply (inv_config past (past ++ [(amb, gw)]) s gw gw) in Hinv; [|done|done].
    by destruct Hinv; constructor.
Qed.

Lemma feed_data_line amb line s gw :
  line ≠ [Byte.x2e] → size_exceeded s = false →
  let unstuffed := default line (strip_bytes [Byte.x2e] line) in
  feed_data amb line s gw =
    (SmtpReply_new 0 EmptyString,
     if max_message_bytes gw <? Z.of_nat (length (data s)) + Z.of_nat (length unstuffed) + 2
     then with_data [] true s else with_data (data s ++ unstuffed ++ Dkim.CRLF) false s, gw).
Proof. intros Hl Hs. unfold feed_data. rewrite bool_decide_false, Hs by done. by case_match. Qed.

Lemma inv_feed_data past amb line s gw :
  session_inv past s gw → phase s = Data →
  session_inv past (feed_data amb line s gw).1.2 (feed_data amb line s gw).2.
Proof.
  intros Hinv Hp. unfold feed_data. case_bool_decide as Hdot.
  - assert (0 ≤ max_message_bytes gw) by (destruct Hinv; lia).
    destruct (size_exceeded (with_phase Command s)); [by apply inv_reset|].
    destruct (accept_message_with_spf _ _ _ _ _ _ _) as [r gw'] eqn:E. apply accept_config in E.
    apply inv_reset; [done|]. cbn [snd]. by rewrite (proj1 (config_facts _ _ E)).
  - destruct (size_exceeded s) eqn:Hs; [done|].
    destruct (Z.ltb_spec (max_message_bytes gw) (Z.of_nat (length (data s)) + Z.of_nat (length (default line (strip_bytes [Byte.x2e] line))) + 2)).
    + destruct Hinv. constructor; try done; [cbn; congruence|cbn; lia].
    + destruct Hinv. constructor; try done; [cbn; congruence|]. cbn [data with_data fst snd]. rewrite !length_app. cbn [length Dkim.CRLF]. lia.
Qed.

Lemma session_reachable_inv ip now gw0 past s gw :
  0 ≤ max_message_bytes gw0 → reachable ip now gw0 past s gw → session_inv past s gw ∧ peer_ip s = ip.
Proof.
  intros H0. induction 1 as [|past s gw amb line r s' gw' H IH E|past s gw gw' H IH Hc].
  - split; [|done]. constructor; try done.
  - destruct IH as [Hinv Hip]. destruct (phase s) eqn:Hp.
    + pose proof (command_steps amb line s gw Hp) as Hst. split.
      * pose proof (inv_command past amb s gw _ Hinv Hp Hst) as Hi. by rewrite E in Hi.
      * rewrite <- Hip. rewrite E in Hst. clear -Hst. by inversion Hst.
    + assert (feed_data amb line s gw = (r, s', gw')) as E' by (by unfold feed_line_bytes in E; rewrite Hp in E).
      pose proof (inv_feed_data past amb line s gw Hinv Hp) as Hi. rewrite E' in Hi. split.
      * eapply inv_config; [done| |exact Hi]. set_solver.
      * rewrite <- Hip. unfold feed_data in E'. repeat case_match; by simplify_eq.
  - destruct IH as [Hinv Hip]. split; [|done]. by eapply inv_config.
Qed.

(** ** Properties *)

Lemma run_reachable ip now gw0 lines past s gw rs s' gw' :
  reachable ip now gw0 past s gw → run lines s gw = (rs, s', gw') → ∃ past', reachable ip now gw0 past' s' gw'.
Proof.
  revert past s gw rs. induction lines as [|[amb line] lines IH]; intros past s gw rs H E; cbn [run] in E.
  - simplify_eq. eauto.
  - destruct (feed_line_bytes amb line s gw) as [[r s1] gw1] eqn:E1. destruct (run lines s1 gw1) as [[rs1 s2] gw2] eqn:E2.
    simplify_eq. eapply IH; [|exact E2]. by eapply reach_line.
Qed.

(** What a positive answer to a message means. *)
Lemma accept_250 gw from to d now spf eph r gw' :
  accept_message_with_spf gw from to d now spf eph = (r, gw') → reply_code r = 250 →
  dkim_gate gw (verify_inbound_dkim gw d) = Ok tt ∧
  dmarc_gate gw d spf (verify_inbound_dkim gw d) from = Ok tt ∧
  ∃ env att, wrap_and_attest gw from to d now eph = Ok (env, att) ∧
    deliver env att (delivery gw) = (Acked, delivery gw').
Proof.
  unfold accept_message_with_spf. intros H Hr.
  destruct (dkim_gate _ _) as [[]|] eqn:E1.
  2: { unfold dkim_gate in E1. repeat case_match; simplify_eq; done. }
  destruct (dmarc_gate _ _ _ _ _) as [[]|] eqn:E2.
  2: { unfold dmarc_gate in E2. repeat case_match; simplify_eq; done. }
  destruct (wrap_and_attest _ _ _ _ _ _) as [[env att]|[]] eqn:E3; simplify_eq; try done.
  destruct (deliver env att (delivery gw)) as [o m] eqn:E4. simplify_eq. destruct o; [|done]. eauto 10.
Qed.
Lemma wrap_Ok gw from to d now eph env att :
  wrap_and_attest gw from to d now eph = Ok (env, att) →
  ∃ domain rk k, domain_of to = Some domain ∧ dir_resolve (directory gw) to = Some rk ∧
    attest_key_for gw domain = Some k ∧
    build_mote (gw_ik gw) eph (rk_ik rk) (rk_seal_pub rk)
      (build_mote_draft (strip_trust_boundary_headers d) now) = Ok env ∧
    att = Attestation.attest k (env_id env) from to now.
Proof.
  unfold wrap_and_attest. destruct (domain_of to) as [domain|]; [|done]. simpl_res.
  destruct (dir_resolve _ _) as [rk|]; [|done]. simpl_res.
  destruct (attest_key_for _ _) as [k|] eqn:Ek; [|done]. simpl_res.
  destruct (build_mote _ _ _ _ _) as [e|] eqn:Eb; [|done]. simpl_res. intros [= <- <-]. eauto 10.
Qed.

(** C2: The gateway never answers 250 for a message it has not handed over durably: a
    250 while mail data is read comes at the terminating dot only, after the mesh
    acknowledged exactly one envelope, which seals the data received without its
    trust-boundary headers to the recipient's keys and is attested for the envelope
    of this session; the sender had passed the anti-abuse gate and the SPF gate, and
    the message the DKIM and DMARC gates.  This holds at every point of every
    session, whatever other sessions do. *)
Theorem mx_accepts_only_durable ip now gw0 past s gw amb line r s' gw' :
  0 ≤ max_message_bytes gw0 → reachable ip now gw0 past s gw →
  feed_line_bytes amb line s gw = (r, s', gw') → phase s = Data → reply_code r = 250 →
  line = [Byte.x2e] ∧
  ∃ from to rk k env, mail_from s = Some from ∧ rcpt_to s = Some to ∧ vetted past s gw from ∧
    dkim_gate gw (verify_inbound_dkim gw (data s)) = Ok tt ∧
    dmarc_gate gw (data s) (spf_outcome s) (verify_inbound_dkim gw (data s)) from = Ok tt ∧
    dir_resolve (directory gw) to = Some rk ∧ k ∈ attest_keys gw ∧
    build_mote (gw_ik gw) (ephemeral_key amb) (rk_ik rk) (rk_seal_pub rk)
      (build_mote_draft (strip_trust_boundary_headers (data s)) (mx_now s)) = Ok env ∧
    deliver env (Attestation.attest k (env_id env) from to (mx_now s)) (delivery gw) = (Acked, delivery gw').
Proof.
  intros H0 Hreach E Hp Hr. destruct (session_reachable_inv _ _ _ _ _ _ H0 Hreach) as [Hinv _].
  unfold feed_line_bytes in E. rewrite Hp in E. unfold feed_data in E. case_bool_decide as Hdot.
  2: { repeat case_match; by simplify_eq. }
  split; [done|]. destruct (size_exceeded _); [by simplify_eq|].
  destruct (inv_data _ _ _ Hinv Hp) as [Hf Ht].
  cbn [mail_from rcpt_to with_phase] in E.
  destruct (mail_from s) as [from|] eqn:Ef; [|done]. destruct (rcpt_to s) as [to|] eqn:Et; [|done].
  destruct (accept_message_with_spf _ _ _ _ _ _ _) as [r1 gw1] eqn:Ea. simplify_eq.
  apply accept_250 in Ea as (Hd & Hm & env & att & Hw & Hdel); [|done].
  apply wrap_Ok in Hw as (domain & rk & k & Hdom & Hrk & Hk & Hb & ->).
  exists from, to, rk, k, env. repeat split; try done.
  - by apply (inv_sender _ _ _ Hinv).
  - by apply (inv_sender _ _ _ Hinv).
  - by apply find_first_Some in Hk as [? _].
Qed.

(** Nothing else delivers: the mesh is used at the dot that ends mail data of a
    message within the size limit, and the session is then ready for the next
    transaction, with nothing of this one left. *)
Theorem mx_delivers_only_at_dot amb line s gw r s' gw' :
  feed_line_bytes amb line s gw = (r, s', gw') →
  delivery gw' = delivery gw ∨
  (phase s = Data ∧ line = [Byte.x2e] ∧ size_exceeded s = false ∧
   s' = with_helo (helo s) (MxSession_new (peer_ip s) (mx_now s))).
Proof.
  intros E. destruct (phase s) eqn:Hp.
  - left. pose proof (command_steps amb line s gw Hp) as Hst. rewrite E in Hst. by inversion Hst.
  - unfold feed_line_bytes in E. rewrite Hp in E. unfold feed_data in E. case_bool_decide as Hdot.
    + destruct (size_exceeded _) eqn:Hs; [left; by simplify_eq|]. right.
      destruct (accept_message_with_spf _ _ _ _ _ _ _). by simplify_eq.
    + left. repeat case_match; by simplify_eq.
Qed.

(** The memory a session holds for a message is bounded by the configured limit at
    every point, and outside mail data it holds none. *)
Theorem mx_data_bounded ip now gw0 past s gw :
  0 ≤ max_message_bytes gw0 → reachable ip now gw0 past s gw →
  Z.of_nat (length (data s)) ≤ max_message_bytes gw ∧
  (phase s = Command → data s = [] ∧ size_exceeded s = false) ∧
  (phase s = Data → ∃ from to, mail_from s = Some from ∧ rcpt_to s = Some to ∧ rcpt_acceptable gw to = Ok tt).
Proof.
  intros H0 [[Hd Hi Hs He Hf Hr] _]%session_reachable_inv; [|done]. repeat split; try done; try by apply Hi.
  intros [H1 H2]%Hd. destruct (mail_from s) as [from|], (rcpt_to s) as [to|]; [|done..].
  exists from, to. split_and!; [done..|by apply Hr].
Qed.

(** ** Transferring a message *)

(** What a client sends for a line of its message (RFC 5321, transparency). *)
Definition stuff (l : bytes) : bytes :=
  match l with b :: _ => if bool_decide (b = Byte.x2e) then Byte.x2e :: l else l | [] => l end.
Definition message_text (ls : list bytes) : bytes := concat ((λ l, l ++ Dkim.CRLF) <$> ls).

Lemma message_text_cons l ls : message_text (l :: ls) = (l ++ Dkim.CRLF) ++ message_text ls.
Proof. reflexivity. Qed.
Lemma stuff_not_dot l : stuff l ≠ [Byte.x2e].
Proof. destruct l as [|b l]; [done|]. simpl. case_bool_decide; congruence. Qed.
Lemma unstuff l : default (stuff l) (strip_bytes [Byte.x2e] (stuff l)) = l.
Proof.
  destruct l as [|b l]; [done|]. unfold stuff. case_bool_decide as E; [done|]. cbn [strip_bytes].
  by rewrite bool_decide_false.
Qed.

Lemma feed_exceeded amb line s gw :
  line ≠ [Byte.x2e] → phase s = Data → size_exceeded s = true →
  feed_line_bytes amb line s gw = (SmtpReply_new 0 EmptyString, s, gw).
Proof. intros Hl Hp Hs. unfold feed_line_bytes. rewrite Hp. unfold feed_data. by rewrite bool_decide_false, Hs. Qed.
Lemma run_exceeded ls s gw :
  phase s = Data → size_exceeded s = true → Forall (λ al, al.2 ≠ [Byte.x2e]) ls →
  run ls s gw = (replicate (length ls) (SmtpReply_new 0 EmptyString), s, gw).
Proof.
  intros Hp Hs HF. induction HF as [|[amb l] ls Hl HF IH]; [done|]. cbn [run].
  rewrite feed_exceeded by done. by rewrite IH.
Qed.

Lemma with_data_same s : size_exceeded s = false → with_data (data s) false s = s.
Proof. destruct s. simpl. by intros ->. Qed.
(** The lines of a message, fed one after the other. *)
Lemma run_lines ls s gw :
  phase s = Data → size_exceeded s = false → Z.of_nat (length (data s)) ≤ max_message_bytes gw →
  let sent := message_text (snd <$> ls) in
  run ((λ al, (al.1, stuff al.2)) <$> ls) s gw =
    (replicate (length ls) (SmtpReply_new 0 EmptyString),
     if max_message_bytes gw <? Z.of_nat (length (data s ++ sent)) then with_data [] true s
     else with_data (data s ++ sent) false s, gw).
Proof.
  revert s. induction ls as [|[amb l] ls IH]; intros s Hp Hs Hsize sent; unfold sent; clear sent.
  - rewrite !fmap_nil. cbn [run length replicate]. change (message_text []) with (@nil byte). rewrite app_nil_r.
    rewrite (proj2 (Z.ltb_ge _ _)) by lia. by rewrite with_data_same.
  - rewrite !fmap_cons, message_text_cons. set (rest := message_text (snd <$> ls)) in *. cbn [run fst snd length replicate].
    unfold feed_line_bytes. rewrite Hp. rewrite feed_data_line by (done || apply stuff_not_dot). rewrite unstuff.
    assert (length (data s ++ (l ++ Dkim.CRLF) ++ rest) = length (data s) + length l + 2 + length rest)%nat as Hlen.
    { rewrite !length_app. simpl. lia. }
    destruct (Z.ltb_spec (max_message_bytes gw) (Z.of_nat (length (data s)) + Z.of_nat (length l) + 2)).
    + rewrite run_exceeded; [|done|done|].
      * rewrite length_fmap. rewrite (proj2 (Z.ltb_lt _ _)) by (rewrite Hlen; lia). done.
      * apply Forall_fmap, Forall_true. intros [? ?]. apply stuff_not_dot.
    + rewrite IH; cbn [data with_data phase size_exceeded]; [|done|done|].
      * by rewrite <- !app_assoc.
      * rewrite !length_app. simpl. lia.
Qed.

(** A message arrives byte for byte: a client that doubles leading dots and ends
    with a dot gets no reply to the lines of its message, and then the answer to
    exactly the text it sent, if that is within the size limit, and a refusal
    without any delivery if it is not. *)
Theorem mx_transfers_message ls amb s gw :
  phase s = Data → data s = [] → size_exceeded s = false → 0 ≤ max_message_bytes gw →
  let sent := message_text (snd <$> ls) in
  run (((λ al, (al.1, stuff al.2)) <$> ls) ++ [(amb, [Byte.x2e])]) s gw =
    let '(reply, gw') :=
      if max_message_bytes gw <? Z.of_nat (length sent)
      then (SmtpReply_new 552 "5.3.4 message size exceeds fixed maximum message size", gw)
      else accept_message_with_spf gw (default EmptyString (mail_from s)) (default EmptyString (rcpt_to s)) sent
             (mx_now s) (spf_outcome s) (ephemeral_key amb) in
    (replicate (length ls) (SmtpReply_new 0 EmptyString) ++ [reply],
     with_helo (helo s) (MxSession_new (peer_ip s) (mx_now s)), gw').
Proof.
  intros Hp Hd Hs Hm sent.
  assert (∀ a b s gw, run (a ++ b) s gw =
    let '(ra, s, gw) := run a s gw in let '(rb, s, gw) := run b s gw in (ra ++ rb, s, gw)) as Happ.
  { clear. induction a as [|[amb l] a IH]; intros b s gw; cbn [app run]; [by destruct (run b s gw) as [[]]|].
    destruct (feed_line_bytes _ _ _ _) as [[r s1] gw1]. rewrite IH.
    destruct (run a s1 gw1) as [[ra s2] gw2]. by destruct (run b s2 gw2) as [[]]. }
  rewrite Happ, run_lines by (done || by rewrite Hd). rewrite Hd, app_nil_l. fold sent.
  destruct (max_message_bytes gw <? _); cbn [run]; unfold feed_line_bytes; cbn [phase with_data]; rewrite Hp;
    unfold feed_data; rewrite bool_decide_true by done; cbn [size_exceeded with_phase with_data data mail_from rcpt_to mx_now spf_outcome].
  - done.
  - by destruct (accept_message_with_spf _ _ _ _ _ _ _).
Qed.

(** C36: Under enforcement the gateway accepts no message that a policy of rejection
    forbids: if it answers 250, the message has no ambiguous [From]; and if a record
    with the effective policy "reject" governs the [From] domain, the message was
    authenticated, by SPF or DKIM, for a name of the same registrant. *)
Theorem dmarc_enforced gw resolver from to d now spf eph r gw' :
  dmarc_policy gw = DmarcEnforce → dmarc_resolver gw = Some resolver →
  accept_message_with_spf gw from to d now spf eph = (r, gw') → reply_code r = 250 →
  Dmarc.header_from d ≠ Dmarc.Ambiguous ∧
  ∀ h record sub, Dmarc.header_from d = Dmarc.Single h → Dmarc.governs resolver h record sub →
    Dmarc.effective record sub = Dmarc.PReject →
    ∃ a, Dmarc.authenticated (default EmptyString (domain_of from)) (Spf.result <$> spf) (verify_inbound_dkim gw d) a ∧
         Dmarc.same_owner a h.
Proof.
  intros He Hres Ha Hr. apply accept_250 in Ha as (_ & Hg & _); [|done].
  unfold dmarc_gate, dmarc_verdict_with_dkim in Hg. rewrite He, Hres in Hg. split.
  - intros E. by rewrite E in Hg.
  - intros h record sub E Hgov Heff. rewrite E in Hg. apply Dmarc.discover_governs in Hgov.
    unfold Dmarc.evaluate in Hg. rewrite Hgov in Hg. destruct (_ || _) eqn:Hal.
    + by apply Dmarc.aligned_authenticated in Hal.
    + unfold Dmarc.effective in Heff. by rewrite Heff in Hg.
Qed.

(** ** Recipients *)

Definition mailbox_ok (a : string) : Prop :=
  str_all printable a = true ∧ contains_char "<" a = false ∧ contains_char ">" a = false ∧ a ≠ EmptyString.
Definition rcpt_line (a : string) : bytes := as_bytes ("RCPT TO:<" +:+ a +:+ ">").

Lemma trim_brackets a :
  mailbox_ok a → trim_end_matches ">" (trim_start_matches "<" (String "<" (a +:+ ">"))) = a.
Proof.
  intros (_ & Hl & Hr & Hne). cbn [trim_start_matches]. rewrite is_char_refl.
  assert (trim_start_matches "<" (a +:+ ">") = (a +:+ ">")) as ->.
  { destruct a as [|c a]; [done|]. rewrite str_app_cons. unfold contains_char in Hl. cbn [str_any] in Hl.
    apply orb_false_iff in Hl as [Hc _]. cbn [trim_start_matches]. by rewrite Hc. }
  clear Hl Hne. unfold contains_char in Hr. induction a as [|c a IH]; [done|]. cbn [str_any] in Hr.
  apply orb_false_iff in Hr as [Hc Hr]. rewrite str_app_cons. cbn [trim_end_matches]. rewrite IH by done.
  destruct a; [by rewrite Hc|done].
Qed.

Lemma feed_rcpt amb a s gw :
  mailbox_ok a → phase s = Command → mail_from s ≠ None → rcpt_acceptable gw a = Ok tt →
  feed_line_bytes amb (rcpt_line a) s gw = (SmtpReply_new 250 "2.1.5 recipient ok", with_rcpt a s, gw).
Proof.
  intros Ha Hp Hm Hr. pose proof Ha as (Hpr & _). unfold feed_line_bytes, rcpt_line. rewrite Hp.
  assert (str_all is_ascii a = true) as Hascii.
  { revert Hpr. apply str_all_impl. intros c. unfold printable, char_in, is_ascii. rewrite andb_true_iff, !Z.leb_le, Z.ltb_lt. lia. }
  rewrite from_utf8_lossy_ascii by (rewrite !str_all_app, Hascii; done).
  change ("RCPT TO:<" +:+ a +:+ ">") with ("RCPT" +:+ String " " ("TO:<" +:+ a +:+ ">")).
  rewrite split_once_app by done.
  assert (str_all printable (a +:+ ">") = true) as Hpr' by (by rewrite str_all_app, Hpr).
  rewrite (trim_printable ("TO:<" +:+ a +:+ ">")) by (rewrite str_all_app, Hpr'; done).
  cbv beta iota. change (to_ascii_uppercase "RCPT") with "RCPT"%string.
  rewrite (bool_decide_false ("RCPT"%string = "HELO"%string)), (bool_decide_false ("RCPT"%string = "EHLO"%string)),
    (bool_decide_false ("RCPT"%string = "MAIL"%string)) by done.
  cbn [orb]. rewrite (bool_decide_true ("RCPT"%string = "RCPT"%string)) by done. unfold cmd_rcpt. destruct (mail_from s); [|done].
  change (strip_either "TO:" "to:" ("TO:<" +:+ a +:+ ">")) with (Some (String "<" (a +:+ ">"))).
  cbv iota beta. rewrite (trim_printable (String "<" (a +:+ ">"))) by (cbn [str_all]; by rewrite Hpr').
  rewrite trim_brackets by done. by rewrite Hr.
Qed.

(** A second recipient replaces the first.  Both are answered with "recipient ok",
    and the session is then the one that only ever heard of the second: the message
    that follows is wrapped for the last recipient alone, and a 250 for it leaves
    the others without their copy. *)
Theorem second_recipient_replaces_first amb1 amb2 a b s gw :
  mailbox_ok a → mailbox_ok b → phase s = Command → mail_from s ≠ None →
  rcpt_acceptable gw a = Ok tt → rcpt_acceptable gw b = Ok tt →
  run [(amb1, rcpt_line a); (amb2, rcpt_line b)] s gw =
    ([SmtpReply_new 250 "2.1.5 recipient ok"; SmtpReply_new 250 "2.1.5 recipient ok"], with_rcpt b s, gw) ∧
  run [(amb2, rcpt_line b)] s gw = ([SmtpReply_new 250 "2.1.5 recipient ok"], with_rcpt b s, gw).
Proof.
  intros Ha Hb Hp Hm Hra Hrb. cbn [run]. by rewrite !feed_rcpt by done.
Qed.
End inbound.
End Inbound.

(** ** Witnesses *)

Module InboundWitness.
Import Inbound.
#[local] Existing Instance Reference.ref_identity.
#[local] Existing Instance DkimWitness.toy_crypto.
#[local] Existing Instance DmarcWitness.toy_psl.
#[local] Existing Instance Directory.InMemoryDirectory_KeyDirectory.
#[local] Existing Instance Dkim.StaticDkimKeys_DkimKeyResolver.
#[local] Existing Instance Spf.InMemorySpfResolver_SpfResolver.
#[local] Existing Instance Dmarc.InMemoryDmarcResolver_DmarcTxtResolver.
(** An envelope that is the sealed text itself, and a parser that knows one
    header. *)
#[local] Instance toy_mote : KotvaMote := {|
  Envelope := bytes * bytes; Draft := bytes; MoteError := unit;
  env_id := snd; build_mote_draft d _ := d; build_mote _ _ _ seal_pub d := Ok (seal_pub, d) |}.
#[local] Instance toy_mime : KotvaMime := {|
  headers_only _ := [("From", "mallory@bank.example")%string];
  parse_address_list _ := [Some "bank.example"%string];
  header_and_body m := ([], m); mime_strip_headers h := h |}.
(** A mesh that records what it took over. *)
#[local] Instance log_mesh : MeshDelivery (list bytes) := {| deliver env _ m := (Acked, m ++ [env_id env]) |}.

Definition alice : RecipientKey := {| rk_ik := [Byte.x01]; rk_seal_pub := [Byte.x02] |}.
Definition users : Directory.InMemoryDirectory :=
  Directory.insert "bob@example.org" alice (Directory.insert "alice@example.org" alice Directory.InMemoryDirectory_new).
Definition gw : InboundGateway (D := Directory.InMemoryDirectory) (M := list bytes) (G := AllowAllAbuse)
    (KR := Dkim.StaticDkimKeys) (SR := Spf.InMemorySpfResolver) (DR := Dmarc.InMemoryDmarcResolver) :=
  with_max_message_bytes 20 (for_own_domains [Byte.x07] [("example.org", "gw1")]%string users [] allow_all_abuse).
Definition amb : Ambient := {| clock_ms := 0; ephemeral_key := [Byte.x09] |}.
Definition script : list (Ambient * bytes) :=
  (λ l, (amb, as_bytes l)) <$> ["EHLO mx.example"; "MAIL FROM:<x@sender.example>"; "RCPT TO:<alice@example.org>"; "DATA"]%string.
Definition start : MxSession := MxSession_new "192.0.2.1" 1000.
Definition in_data : MxSession := (run script start gw).1.2.
Definition with_text : MxSession := (run (script ++ [(amb, as_bytes "..hi")]) start gw).1.2.

Lemma mx_accepts_only_durable_witness :
  ∃ past r, reachable "192.0.2.1" 1000 gw past with_text gw ∧
    feed_line_bytes amb [Byte.x2e] with_text gw =
      (r, with_helo (Some "mx.example"%string) start, with_delivery [as_bytes ".hi" ++ Dkim.CRLF] gw) ∧
    vetted past with_text gw "<x@sender.example>".
Proof.
  destruct (run_reachable "192.0.2.1" 1000 gw (script ++ [(amb, as_bytes "..hi")]) [] start gw
    (run (script ++ [(amb, as_bytes "..hi")]) start gw).1.1 with_text gw (reach_start _ _ _)) as [past Hr].
  { vm_compute. reflexivity. }
  exists past, (SmtpReply_new 250 "2.6.0 message durably accepted").
  assert (feed_line_bytes amb [Byte.x2e] with_text gw =
    (SmtpReply_new 250 "2.6.0 message durably accepted", with_helo (Some "mx.example"%string) start,
     with_delivery [as_bytes ".hi" ++ Dkim.CRLF] gw)) as E by (vm_compute; reflexivity).
  split; [exact Hr|]. split; [exact E|].
  destruct (mx_accepts_only_durable "192.0.2.1" 1000 gw past with_text gw amb _ _ _ _
    ltac:(vm_compute; discriminate) Hr E ltac:(vm_compute; reflexivity) eq_refl)
    as (_ & from & to & rk & k & env & Hf & _ & Hv & _).
  assert (mail_from with_text = Some "<x@sender.example>"%string) as Hm by (vm_compute; reflexivity).
  rewrite Hm in Hf. injection Hf as <-. exact Hv.
Defined.

Lemma mx_data_bounded_witness :
  Z.of_nat (length (data with_text)) ≤ max_message_bytes gw.
Proof.
  destruct (run_reachable "192.0.2.1" 1000 gw (script ++ [(amb, as_bytes "..hi")]) [] start gw
    (run (script ++ [(amb, as_bytes "..hi")]) start gw).1.1 with_text gw (reach_start _ _ _)) as [past Hr].
  { vm_compute. reflexivity. }
  exact (proj1 (mx_data_bounded "192.0.2.1" 1000 gw past with_text gw ltac:(vm_compute; discriminate) Hr)).
Defined.

Lemma mx_delivers_only_at_dot_witness :
  delivery (feed_line_bytes amb (as_bytes "DATA") start gw).2 = [] ∧
  phase with_text = Data.
Proof.
  split; [|vm_compute; reflexivity].
  destruct (mx_delivers_only_at_dot amb (as_bytes "DATA") start gw _ _ _ eq_refl) as [H|(H & _)]; [exact H|discriminate H].
Defined.

Lemma mx_transfers_message_witness :
  (run [(amb, as_bytes "..hi"); (amb, as_bytes "there"); (amb, [Byte.x2e])] in_data gw).2
  = with_delivery [as_bytes ".hi" ++ Dkim.CRLF ++ as_bytes "there" ++ Dkim.CRLF] gw.
Proof.
  pose proof (mx_transfers_message [(amb, as_bytes ".hi"); (amb, as_bytes "there")] amb in_data gw
    ltac:(vm_compute; reflexivity) ltac:(vm_compute; reflexivity) ltac:(vm_compute; reflexivity)
    ltac:(vm_compute; discriminate)) as H.
  apply (f_equal snd) in H. etransitivity; [exact H|]. vm_compute. reflexivity.
Defined.

Definition strict_gw := with_dmarc DmarcWitness.dns DmarcEnforce gw.
Definition spf_pass : Spf.SpfOutcome := {| Spf.result := Spf.Pass; Spf.outcome_domain := "mail.bank.example" |}.
Lemma dmarc_enforced_witness :
  reply_code (accept_message_with_spf strict_gw "x@mail.bank.example" "alice@example.org" [] 0 (Some spf_pass) [Byte.x09]).1 = 250 ∧
  ∃ a, Dmarc.authenticated "mail.bank.example" (Some Spf.Pass) Dkim.VNoSignature a ∧ Dmarc.same_owner a "bank.example".
Proof.
  split; [vm_compute; reflexivity|].
  refine (proj2 (dmarc_enforced strict_gw DmarcWitness.dns "x@mail.bank.example" "alice@example.org" [] 0 (Some spf_pass) [Byte.x09]
    _ _ eq_refl eq_refl (surjective_pairing _) _) "bank.example"%string
    {| Dmarc.policy := Dmarc.PReject; Dmarc.subdomain_policy := None; Dmarc.dkim_strict := false;
       Dmarc.spf_strict := false; Dmarc.pct := 100 |} false eq_refl _ eq_refl).
  - vm_compute. reflexivity.
  - apply (Dmarc.governs_exact _ _ "v=DMARC1; p=reject"%string); vm_compute; reflexivity.
Defined.

Lemma second_recipient_witness :
  (run (((λ l, (amb, l)) <$> [rcpt_line "alice@example.org"; rcpt_line "bob@example.org"])) (with_sender "<x@sender.example>" spf_pass start) gw).1.1 =
    [SmtpReply_new 250 "2.1.5 recipient ok"; SmtpReply_new 250 "2.1.5 recipient ok"].
Proof.
  pose proof (proj1 (second_recipient_replaces_first amb amb "alice@example.org" "bob@example.org"
    (with_sender "<x@sender.example>" spf_pass start) gw ltac:(repeat split; done) ltac:(repeat split; done)
    eq_refl ltac:(done) eq_refl eq_refl)) as H.
  by apply (f_equal (fst ∘ fst)) in H.
Defined.
End InboundWitness.
