(* ===== verification/Admission.v ===== *)
(** * Gateway admission

    [crates/gateway/src/authz.rs], first part: the operator's modes, the
    challenge-response admission of a sender and the per-domain policy gate.  The
    clock and the nonce are parameters of the source too; [issued_nonces] is the
    shared ledger behind its lock. *)

From Stdlib Require Import ZArith Lia Ascii String.
From stdpp Require Import base decidable option list strings gmap.
From S2P Require Import Prelude RustStr Kotva Descriptor Base32 Provenance.
Local Open Scope Z_scope.

Module Admission.
Inductive AuthzMode := OpenPublic | KeyRegistered.

Inductive GatewayMode := Private | RegisteredClientsOnly | Public.
Definition GatewayMode_parse (v : string) : option GatewayMode :=
  let v := replace_char "_" "-" (to_ascii_lowercase (trim v)) in
  if decide (v ∈ ["private"; "single"; "operator"]%string) then Some Private
  else if decide (v ∈ ["registered-clients-only"; "registered-clients"; "registered"; "clients"]%string)
  then Some RegisteredClientsOnly
  else if decide (v ∈ ["public"; "open"; "open-registration"]%string) then Some Public
  else None.
Definition GatewayMode_label (m : GatewayMode) : string :=
  match m with
  | Private => "private"
  | RegisteredClientsOnly => "registered-clients-only"
  | Public => "public"
  end.
Definition is_zero_third_party (m : GatewayMode) : bool :=
  match m with Private => true | _ => false end.

Definition ADMISSION_DS : bytes := as_bytes "DMTAP-v0/gateway-admission" ++ [Byte.x00].

Record Challenge := { nonce : bytes; issued_at : Z }.
Definition signing_body (c : Challenge) : bytes := nonce c ++ be_bytes 8 (issued_at c).

Record Quota := {
  free_messages : Z; hard_cap_messages : Z; free_bytes : Z; hard_cap_bytes : Z }.

Record RegisteredIdentity := {
  ri_public_key : bytes; ri_account : string; ri_domain : string; ri_quota : Quota }.
Record AdmissionGrant := { ad_account : string; ad_domain : string; ad_public_key : bytes }.

Inductive AdmissionError :=
| ChallengeExpired | BadSignature | UnknownKey | UnknownOrConsumedChallenge.

Record IdentityRegistry := {
  mode : AuthzMode;
  challenge_ttl_ms : Z;
  entries : list RegisteredIdentity;
  issued_nonces : gmap bytes Z;
}.
Definition key_registered : IdentityRegistry :=
  {| mode := KeyRegistered; challenge_ttl_ms := 300000; entries := []; issued_nonces := ∅ |}.
Definition open_public : IdentityRegistry :=
  {| mode := OpenPublic; challenge_ttl_ms := 300000; entries := []; issued_nonces := ∅ |}.
Definition with_challenge_ttl (ttl : Z) (r : IdentityRegistry) : IdentityRegistry :=
  {| mode := mode r; challenge_ttl_ms := ttl; entries := entries r; issued_nonces := issued_nonces r |}.
Definition register (id : RegisteredIdentity) (r : IdentityRegistry) : IdentityRegistry :=
  {| mode := mode r; challenge_ttl_ms := challenge_ttl_ms r;
     entries := filter (λ e, ri_public_key e ≠ ri_public_key id) (entries r) ++ [id];
     issued_nonces := issued_nonces r |}.

Definition identity_for_key (key : bytes) (r : IdentityRegistry) : option RegisteredIdentity :=
  find_first (λ e, bool_decide (ri_public_key e = key)) (entries r).
Definition identity_for_domain (domain : string) (r : IdentityRegistry) : option RegisteredIdentity :=
  find_first (λ e, eq_ignore_ascii_case (ri_domain e) domain) (entries r).

Definition with_nonces (m : gmap bytes Z) (r : IdentityRegistry) : IdentityRegistry :=
  {| mode := mode r; challenge_ttl_ms := challenge_ttl_ms r; entries := entries r;
     issued_nonces := m |}.

Definition issue_challenge (n : bytes) (t : Z) (r : IdentityRegistry) : Challenge * IdentityRegistry :=
  let cutoff := U64.saturating_sub t (challenge_ttl_ms r) in
  ({| nonce := n; issued_at := t |},
   with_nonces (<[n := t]> (filter (λ kv, cutoff ≤ kv.2) (issued_nonces r))) r).

Definition peek_issued_at (n : bytes) (r : IdentityRegistry) : option Z := issued_nonces r !! n.

Definition consume_nonce (n : bytes) (presented : Z) (r : IdentityRegistry)
    : result AdmissionError Z * IdentityRegistry :=
  match issued_nonces r !! n with
  | Some stored =>
      if stored =? presented then (Ok stored, with_nonces (delete n (issued_nonces r)) r)
      else (Err UnknownOrConsumedChallenge, r)
  | None => (Err UnknownOrConsumedChallenge, r)
  end.

Section admission.
Context `{KI : KotvaIdentity} `{KD : KotvaContentId}.

Definition key_fingerprint (key : bytes) : string :=
  Base32.base32_lower (take 10 (content_digest key)).

Definition IdentityRegistry_admit (c : Challenge) (presented_key sig : bytes) (now : Z) (r : IdentityRegistry)
    : result AdmissionError AdmissionGrant * IdentityRegistry :=
  let effective_issued_at := default (issued_at c) (peek_issued_at (nonce c) r) in
  if (now <? effective_issued_at)
     || (challenge_ttl_ms r <? U64.saturating_sub now effective_issued_at)
  then (Err ChallengeExpired, r)
  else
    match verify_domain presented_key ADMISSION_DS (signing_body c) sig with
    | Err _ => (Err BadSignature, r)
    | Ok _ =>
        let admission :=
          match identity_for_key presented_key r with
          | Some id => Ok {| ad_account := ri_account id; ad_domain := ri_domain id;
                             ad_public_key := presented_key |}
          | None =>
              match mode r with
              | KeyRegistered => Err UnknownKey
              | OpenPublic =>
                  Ok {| ad_account := String.append "anon:" (key_fingerprint presented_key);
                        ad_domain := EmptyString; ad_public_key := presented_key |}
              end
          end in
        match admission with
        | Err e => (Err e, r)
        | Ok adm =>
            match consume_nonce (nonce c) (issued_at c) r with
            | (Ok _, r) => (Ok adm, r)
            | (Err e, r) => (Err e, r)
            end
        end
    end.
End admission.

#[global] Instance IdentityRegistry_authz : Provenance.GatewayAuthz IdentityRegistry := {|
  Provenance.authorize r _ domain :=
    match mode r with
    | OpenPublic => Provenance.Allowed (String.append "public:" domain)
    | KeyRegistered =>
        match identity_for_domain domain r with
        | Some id => Provenance.Allowed (ri_account id)
        | None => Provenance.Denied (String.append "domain "
                    (String.append domain " is not registered with this gateway"))
        end
    end |}.

(** ** The preimage determines the challenge *)

Definition challenge_ok (c : Challenge) : Prop := length (nonce c) = 32%nat ∧ U64.valid (issued_at c).

Lemma challenge_body_inj c c' :
  challenge_ok c → challenge_ok c' → signing_body c = signing_body c' → c = c'.
Proof.
  intros [Hn Ht] [Hn' Ht'] E. unfold signing_body in E.
  apply app_inj_1 in E as [En Et]; [|congruence].
  apply be_bytes_inj in Et; [|unfold U64.valid, U64.MAX in *; simpl; lia..].
  destruct c, c'. simpl in *. congruence.
Qed.

(** ** Histories *)

Section admission_laws.
Context `{KI : KotvaIdentity} `{KD : KotvaContentId}.

Lemma admit_inv c key sig now r adm r' :
  IdentityRegistry_admit c key sig now r = (Ok adm, r') →
  issued_nonces r !! nonce c = Some (issued_at c) ∧
  issued_at c ≤ now ≤ issued_at c + challenge_ttl_ms r ∧
  verify_domain key ADMISSION_DS (signing_body c) sig = Ok tt ∧
  r' = with_nonces (delete (nonce c) (issued_nonces r)) r ∧
  ad_public_key adm = key ∧
  match identity_for_key key r with
  | Some id => ad_account adm = ri_account id ∧ ad_domain adm = ri_domain id
  | None => mode r = OpenPublic
  end.
Proof using.
  unfold IdentityRegistry_admit, peek_issued_at, consume_nonce.
  destruct (issued_nonces r !! nonce c) as [t|] eqn:Hn; simpl.
  2:{ repeat case_match; by intros [=]. }
  destruct (Z.ltb_spec now t) as [|Hlo]; simpl; [done|].
  destruct (Z.ltb_spec (challenge_ttl_ms r) (U64.saturating_sub now t)) as [|Hhi]; [done|].
  unfold U64.saturating_sub in Hhi.
  destruct (verify_domain key ADMISSION_DS (signing_body c) sig) as [[]|]; [|done].
  destruct (Z.eqb_spec t (issued_at c)) as [->|]; [|repeat case_match; by intros [=]].
  destruct (identity_for_key key r) eqn:Hid; [|destruct (mode r) eqn:Hm];
    intros [= <- <-]; simpl; split_and!; try done; lia.
Qed.

Lemma admit_err c key sig now r e r' : IdentityRegistry_admit c key sig now r = (Err e, r') → r' = r.
Proof using. unfold IdentityRegistry_admit, consume_nonce. intros. by repeat case_match; simplify_eq. Qed.

Inductive RegistryOp :=
| OpIssue (n : bytes) (t : Z)
| OpAdmit (c : Challenge) (key sig : bytes) (now : Z).
Definition run_registry_op (r : IdentityRegistry) (o : RegistryOp) : IdentityRegistry :=
  match o with
  | OpIssue n t => (issue_challenge n t r).2
  | OpAdmit c key sig now => (IdentityRegistry_admit c key sig now r).2
  end.
Definition issues (n : bytes) (_ : IdentityRegistry) (o : RegistryOp) : bool :=
  match o with OpIssue m _ => bool_decide (m = n) | OpAdmit _ _ _ _ => false end.
Definition admits (n : bytes) (r : IdentityRegistry) (o : RegistryOp) : bool :=
  match o with
  | OpAdmit c key sig now => bool_decide (nonce c = n) && is_ok (IdentityRegistry_admit c key sig now r).1
  | OpIssue _ _ => false
  end.

(** ** Properties *)

(** C40: An admission is granted only for a challenge this gateway issued, at
    exactly the presented time, no more than the validity window ago, with a
    signature by the presented key; in key-registered mode that key is on the
    registry and the grant names its account and domain.  A signature made by
    some key over any challenge is good for that key and that challenge only.
    The nonce is spent by a grant and untouched by a refusal. *)
Theorem admission_sound `{!KotvaUnforgeable} c key sig now r :
  challenge_ok c →
  match IdentityRegistry_admit c key sig now r with
  | (Ok adm, r') =>
      issued_nonces r !! nonce c = Some (issued_at c) ∧
      issued_nonces r' !! nonce c = None ∧
      issued_at c ≤ now ≤ issued_at c + challenge_ttl_ms r ∧
      (mode r = KeyRegistered → ∃ id, id ∈ entries r ∧ ri_public_key id = key ∧
         ad_account adm = ri_account id ∧ ad_domain adm = ri_domain id) ∧
      (∀ ik c', challenge_ok c' → sig = sign_domain ik ADMISSION_DS (signing_body c') →
         key = public ik ∧ c' = c)
  | (Err _, r') => r' = r
  end.
Proof using.
  intros Hc. destruct (IdentityRegistry_admit c key sig now r) as [[adm|e] r'] eqn:E; [|by eapply admit_err].
  apply admit_inv in E as (Hn & Ht & Hv & -> & Hk & Hid). simpl.
  split; [done|]. split; [apply lookup_delete_eq|]. split; [done|]. split.
  - intros Hm. destruct (identity_for_key key r) as [id|] eqn:Hf; [|congruence].
    apply find_first_Some in Hf as [Hin Hp%bool_decide_eq_true]. destruct Hid. exists id. by split_and!.
  - intros ik c' Hc' ->. apply verify_binding in Hv as [-> Heq].
    apply app_inv_head in Heq. apply challenge_body_inj in Heq; by subst.
Qed.

(** Challenges are single-use: over any history of issues and admission
    attempts, a nonce admits no more often than it was issued. *)
Theorem admission_single_use n ops r :
  issued_nonces r !! n = None →
  (count_run run_registry_op (admits n) ops r ≤ count_run run_registry_op (issues n) ops r)%nat.
Proof using.
  intros Hn.
  pose proof (single_use run_registry_op (λ r, bool_decide (is_Some (issued_nonces r !! n)))
                (issues n) (admits n) ops r) as H.
  cbv beta in H. rewrite bool_decide_false in H by (rewrite Hn; by intros []). apply H; clear.
  - intros r [m t|c key sig now]; simpl; [done|].
    intros [<-%bool_decide_eq_true Hok]%andb_true_iff.
    destruct (IdentityRegistry_admit c key sig now r) as [[adm|e] r'] eqn:E; [|done].
    apply admit_inv in E as (Hn & _).
    split; [|done]. apply bool_decide_eq_true. rewrite Hn. eauto.
  - intros r [m t|c key sig now] Hl%bool_decide_eq_true; simpl in *.
    + destruct (decide (m = n)) as [->|Hne]; [right; by apply bool_decide_eq_true|left].
      split; [|done]. apply bool_decide_eq_true. rewrite lookup_insert_ne in Hl by done.
      destruct Hl as [t' Hl%map_lookup_filter_Some]. destruct Hl as [Hl _]. rewrite Hl. eauto.
    + left. destruct (IdentityRegistry_admit c key sig now r) as [[adm|e] r'] eqn:E; simpl in *.
      * apply admit_inv in E as (Hn & _ & _ & -> & _). simpl in Hl.
        destruct (decide (nonce c = n)) as [<-|Hne].
        { rewrite lookup_delete_eq in Hl. by destruct Hl. }
        rewrite lookup_delete_ne in Hl by done. rewrite bool_decide_true by done.
        by rewrite bool_decide_false.
      * apply admit_err in E as ->. rewrite bool_decide_true by done. by rewrite andb_false_r.
Qed.
End admission_laws.
End Admission.

(** ** Witnesses *)
Module AdmissionWitness.
Import Admission Reference ProvenanceWitness.
Definition key : IdentityKey := [Byte.x07].
Definition c : Challenge := {| nonce := replicate 32 Byte.x2a; issued_at := 1000 |}.
Definition alice : RegisteredIdentity :=
  {| ri_public_key := public key; ri_account := "acct"; ri_domain := "alice.net";
     ri_quota := {| free_messages := 0; hard_cap_messages := 0; free_bytes := 0; hard_cap_bytes := 0 |} |}.
Definition reg : IdentityRegistry := (issue_challenge (nonce c) 1000 (register alice key_registered)).2.
Definition sig : bytes := sign_domain key ADMISSION_DS (signing_body c).

Lemma admission_sound_witness :
  ∃ adm r', IdentityRegistry_admit c (public key) sig 1500 reg = (Ok adm, r') ∧ issued_nonces r' !! nonce c = None.
Proof.
  pose proof (admission_sound c (public key) sig 1500 reg) as H.
  destruct (IdentityRegistry_admit c (public key) sig 1500 reg) as [[adm|e] r'] eqn:E.
  - exists adm, r'. split; [reflexivity|].
    apply H. split; [reflexivity|]. vm_compute. split; intros Hc; discriminate Hc.
  - exfalso. vm_compute in E. discriminate E.
Defined.

Lemma admission_single_use_witness :
  (count_run run_registry_op (admits (nonce c))
     [OpIssue (nonce c) 1000; OpAdmit c (public key) sig 1500; OpAdmit c (public key) sig 1600]
     (register alice key_registered) ≤ 1)%nat.
Proof.
  apply (admission_single_use (nonce c)
    [OpIssue (nonce c) 1000; OpAdmit c (public key) sig 1500; OpAdmit c (public key) sig 1600]
    (register alice key_registered)).
  reflexivity.
Defined.
End AdmissionWitness.
