(* ===== verification/Quota.v ===== *)
(** * Quotas

    [crates/gateway/src/authz.rs], second part: the per-account hard caps on
    messages and bytes, and the charge that meters what it admits. *)

From Stdlib Require Import ZArith Lia Ascii String.
From stdpp Require Import base decidable option list strings gmap.
From S2P Require Import Prelude RustStr Kotva Provenance Admission.
Local Open Scope Z_scope.

Module Quota.
Import Admission.

Definition Quota_messages (free cap : Z) : Quota :=
  {| free_messages := free; hard_cap_messages := cap; free_bytes := 0; hard_cap_bytes := 0 |}.

Record Usage := { messages : Z; u_bytes : Z }.
Definition Usage_default : Usage := {| messages := 0; u_bytes := 0 |}.
Definition over_free_allowance (q : Quota) (u : Usage) : bool :=
  (free_messages q <? messages u)
  || (negb (free_bytes q =? 0) && (free_bytes q <? u_bytes u)).

Inductive QuotaError :=
| Unregistered (account : string)
| MessageCapExceeded (account : string) (cap : Z)
| VolumeCapExceeded (account : string) (cap : Z).

Record QuotaLedger := { limits : gmap string Quota; usages : gmap string Usage }.
Definition QuotaLedger_new : QuotaLedger := {| limits := ∅; usages := ∅ |}.
Definition set_quota (account : string) (q : Quota) (l : QuotaLedger) : QuotaLedger :=
  {| limits := <[account := q]> (limits l); usages := usages l |}.
Definition usage (account : string) (l : QuotaLedger) : Usage :=
  default Usage_default (usages l !! account).

Definition with_usage (account : string) (u : Usage) (l : QuotaLedger) : QuotaLedger :=
  {| limits := limits l; usages := <[account := u]> (usages l) |}.

(** The entry is created ([or_default]) before the caps are checked. *)
Definition try_charge (account : string) (msg_bytes : Z) (l : QuotaLedger)
    : result QuotaError Usage * QuotaLedger :=
  match limits l !! account with
  | None => (Err (Unregistered account), l)
  | Some q =>
      let cur := usage account l in
      let next_messages := U64.saturating_add (messages cur) 1 in
      if negb (hard_cap_messages q =? 0) && (hard_cap_messages q <? next_messages) then
        (Err (MessageCapExceeded account (hard_cap_messages q)), with_usage account cur l)
      else
        let next_bytes := U64.saturating_add (u_bytes cur) msg_bytes in
        if negb (hard_cap_bytes q =? 0) && (hard_cap_bytes q <? next_bytes) then
          (Err (VolumeCapExceeded account (hard_cap_bytes q)), with_usage account cur l)
        else
          let u := {| messages := next_messages; u_bytes := next_bytes |} in
          (Ok u, with_usage account u l)
  end.

Section charge.
Context `{KD : KotvaContentId}.

Definition charge_and_meter {M} `{Provenance.GatewayMeter M} (account domain : string)
    (dir : Provenance.BridgeDirection) (rfc5322 : bytes) (at_ : Z) (l : QuotaLedger) (m : M)
    : result QuotaError Usage * QuotaLedger * M :=
  match try_charge account (Z.of_nat (length rfc5322)) l with
  | (Err e, l) => (Err e, l, m)
  | (Ok u, l) =>
      (Ok u, l,
       Provenance.record {| Provenance.me_direction := dir; Provenance.me_account := account;
                            Provenance.me_domain := domain;
                            Provenance.me_msg_digest := Provenance.msg_digest rfc5322;
                            Provenance.me_at := at_ |} m)
  end.

(** ** Histories *)

Record Charge := { ch_account : string; ch_domain : string;
                   ch_dir : Provenance.BridgeDirection; ch_body : bytes; ch_at : Z }.
Definition body_len (c : Charge) : Z := Z.of_nat (length (ch_body c)).

(** Charge a list of relays in turn; the ones admitted, the ledger, the meter. *)
Fixpoint charge_all (cs : list Charge) (l : QuotaLedger) (m : Provenance.CountingMeter)
    : list Charge * QuotaLedger * Provenance.CountingMeter :=
  match cs with
  | [] => ([], l, m)
  | c :: cs =>
      let '(res, l, m) := charge_and_meter (ch_account c) (ch_domain c) (ch_dir c) (ch_body c)
                            (ch_at c) l m in
      let '(ok, l, m) := charge_all cs l m in
      ((if is_ok res then [c] else []) ++ ok, l, m)
  end.

Definition of_account (a : string) (cs : list Charge) : list Charge :=
  filter (λ c, ch_account c = a) cs.
Definition n_messages (a : string) (cs : list Charge) : Z := Z.of_nat (length (of_account a cs)).
Definition n_bytes (a : string) (cs : list Charge) : Z := sum_Z (body_len <$> of_account a cs).

(** The ledger has counted exactly the admitted charges [done], saturating,
    and none of them crossed a cap. *)
Record accounted (l : QuotaLedger) (done : list Charge) (a : string) : Prop := {
  acc_messages : messages (usage a l) = Z.min (n_messages a done) U64.MAX;
  acc_bytes : u_bytes (usage a l) = Z.min (n_bytes a done) U64.MAX;
  acc_cap q : limits l !! a = Some q →
    (0 < hard_cap_messages q < U64.MAX → n_messages a done ≤ hard_cap_messages q) ∧
    (0 < hard_cap_bytes q < U64.MAX → n_bytes a done ≤ hard_cap_bytes q);
  acc_registered : limits l !! a = None → of_account a done = [];
}.

Lemma usage_with a b u l : usage b (with_usage a u l) = if decide (a = b) then u else usage b l.
Proof using. unfold usage. simpl. rewrite lookup_insert. by case_decide. Qed.

Lemma of_account_snoc a done c :
  of_account a (done ++ [c]) = of_account a done ++ (if decide (ch_account c = a) then [c] else []).
Proof using. unfold of_account. rewrite filter_app, filter_cons, filter_nil. by case_decide. Qed.

Lemma n_snoc a done c :
  n_messages a (done ++ [c]) = n_messages a done + (if decide (ch_account c = a) then 1 else 0) ∧
  n_bytes a (done ++ [c]) = n_bytes a done + (if decide (ch_account c = a) then body_len c else 0).
Proof using.
  unfold n_messages, n_bytes. rewrite of_account_snoc, length_app, fmap_app, sum_Z_app.
  case_decide; simpl; unfold sum_Z; simpl; lia.
Qed.

Lemma n_nonneg a done : 0 ≤ n_messages a done ∧ 0 ≤ n_bytes a done.
Proof using.
  split; [unfold n_messages; lia|]. apply sum_Z_nonneg, Forall_fmap, Forall_forall.
  intros c _. unfold body_len. simpl. lia.
Qed.

Lemma try_charge_accounted l done c a res l' :
  try_charge (ch_account c) (body_len c) l = (res, l') → (∀ a, accounted l done a) →
  limits l' = limits l ∧ accounted l' (done ++ if is_ok res then [c] else []) a.
Proof using.
  intros Ht Hacc. unfold try_charge in Ht.
  destruct (limits l !! ch_account c) as [q|] eqn:Hq.
  2:{ simplify_eq. simpl. rewrite app_nil_r. by split. }
  assert (∀ a, accounted (with_usage (ch_account c) (usage (ch_account c) l) l) done a) as Hsame.
  { intros b. destruct (Hacc b). split; try done; rewrite usage_with; by case_decide; subst. }
  set (cur := usage (ch_account c) l) in *.
  destruct (Hacc (ch_account c)) as [Hm Hb Hcap _]. fold cur in Hm, Hb.
  destruct (Hcap q Hq) as [Cm Cb].
  destruct (n_nonneg (ch_account c) done) as [Pm Pb].
  destruct (negb (hard_cap_messages q =? 0) && _) eqn:E1.
  { simplify_eq. simpl. rewrite app_nil_r. split; [done|apply Hsame]. }
  destruct (negb (hard_cap_bytes q =? 0) && _) eqn:E2.
  { simplify_eq. simpl. rewrite app_nil_r. split; [done|apply Hsame]. }
  simplify_eq. split; [done|]. cbn [is_ok].
  unfold U64.saturating_add in *. assert (0 ≤ body_len c) by (unfold body_len; lia).
  destruct (n_snoc a done c) as [Em Eb].
  destruct (decide (ch_account c = a)) as [<-|Hne].
  - split; rewrite ?usage_with, ?Em, ?Eb, ?decide_True by done; simpl.
    + lia.
    + lia.
    + intros q' Hq'. rewrite Hq in Hq'. simplify_eq.
      apply andb_false_iff in E1, E2. rewrite negb_false_iff, Z.eqb_eq, Z.ltb_ge in E1, E2.
      split; intros; lia.
    + rewrite Hq. done.
  - destruct (Hacc a) as [Hm' Hb' Hcap' Hreg'].
    split; rewrite ?usage_with, ?Em, ?Eb, ?(decide_False (P := ch_account c = a)) by done;
      rewrite ?Z.add_0_r; try done.
    intros Hn. rewrite of_account_snoc, decide_False, app_nil_r by done. by apply Hreg'.
Qed.

Lemma charge_all_accounted cs l m done :
  (∀ a, accounted l done a) →
  let '(ok, l', m') := charge_all cs l m in
  limits l' = limits l ∧ (∀ a, accounted l' (done ++ ok) a) ∧
  ∃ evs, Provenance.events m' = Provenance.events m ++ evs ∧
    Forall2 (λ e c, Provenance.me_account e = ch_account c ∧
                    Provenance.me_msg_digest e = Provenance.msg_digest (ch_body c)) evs ok.
Proof using.
  revert l m done. induction cs as [|c cs IH]; intros l m done Hacc; cbn [charge_all].
  { split; [done|]. split; [by rewrite app_nil_r|]. exists []. by rewrite app_nil_r. }
  unfold charge_and_meter.
  destruct (try_charge (ch_account c) (Z.of_nat (length (ch_body c))) l) as [res l1] eqn:Ht.
  assert (limits l1 = limits l ∧ ∀ a, accounted l1 (done ++ if is_ok res then [c] else []) a) as [Hlim H1].
  { split; [|intros a]; eapply (try_charge_accounted l done c (ch_account c) res l1 Ht Hacc) ||
      eapply (try_charge_accounted l done c a res l1 Ht Hacc). }
  destruct res as [u|e]; simpl in H1.
  - match goal with |- context [charge_all cs l1 ?m1] => specialize (IH l1 m1 _ H1) end.
    destruct (charge_all cs l1 _) as [[ok l'] m']. destruct IH as (Hl & Ha & evs & He & H2).
    simpl in He. rewrite <- app_assoc in He. split; [congruence|].
    split; [by rewrite app_assoc|]. eexists. split; [exact He|]. constructor; [done|done].
  - rewrite app_nil_r in H1. specialize (IH l1 m _ H1).
    destruct (charge_all cs l1 m) as [[ok l'] m']. destruct IH as (Hl & Ha & Hev).
    split; [congruence|]. done.
Qed.

(** ** Properties *)

(** The hard caps hold over every history: from an unused ledger, whatever is
    charged in whatever order, no account is ever admitted more messages or
    more bytes than its caps, an account without a quota is admitted nothing,
    the usage reported is exactly what was admitted (saturating), and the meter
    received exactly one event per admitted message, with its account and
    digest, in order. *)
Theorem quota_caps_hold cs l m :
  usages l = ∅ →
  let '(ok, l', m') := charge_all cs l m in
  (∀ a, match limits l !! a with
        | Some q =>
            (0 < hard_cap_messages q < U64.MAX → n_messages a ok ≤ hard_cap_messages q) ∧
            (0 < hard_cap_bytes q < U64.MAX → n_bytes a ok ≤ hard_cap_bytes q)
        | None => of_account a ok = []
        end ∧
        usage a l' = {| messages := Z.min (n_messages a ok) U64.MAX;
                        u_bytes := Z.min (n_bytes a ok) U64.MAX |}) ∧
  ∃ evs, Provenance.events m' = Provenance.events m ++ evs ∧
    Forall2 (λ e c, Provenance.me_account e = ch_account c ∧
                    Provenance.me_msg_digest e = Provenance.msg_digest (ch_body c)) evs ok.
Proof using.
  intros Hu. pose proof (charge_all_accounted cs l m []) as H.
  destruct (charge_all cs l m) as [[ok l'] m'].
  destruct H as (Hl & Ha & Hev).
  { intros a. split; unfold usage, n_messages, n_bytes; rewrite ?Hu, ?lookup_empty; simpl;
      unfold sum_Z; simpl; try done. intros q _. lia. }
  split; [|done]. intros a. destruct (Ha a) as [Hm Hb Hcap Hreg]. simpl in *.
  rewrite Hl in *. split.
  - destruct (limits l !! a) as [q|]; [by apply Hcap|by apply Hreg].
  - destruct (usage a l'). simpl in *. congruence.
Qed.
End charge.
End Quota.

(** ** Witnesses *)
Module QuotaWitness.
Import Quota Admission ProvenanceWitness.
Definition c (body : bytes) : Charge :=
  {| ch_account := "acct"; ch_domain := "host.net"; ch_dir := Provenance.Outbound;
     ch_body := body; ch_at := 0 |}.
Definition l : QuotaLedger := set_quota "acct" (Quota_messages 1 2) QuotaLedger_new.
Definition cs : list Charge := [c [Byte.x01]; c [Byte.x02]; c [Byte.x03]].

Lemma quota_caps_hold_witness :
  n_messages "acct" (charge_all cs l {| Provenance.events := [] |}).1.1 ≤ 2.
Proof.
  pose proof (quota_caps_hold cs l {| Provenance.events := [] |}) as H.
  destruct (charge_all cs l {| Provenance.events := [] |}) as [[ok l'] m'] eqn:E.
  destruct H as [Ha _]; [reflexivity|]. destruct (Ha "acct"%string) as [Hcap _].
  assert (limits l !! "acct"%string = Some (Quota_messages 1 2)) as Hq by reflexivity.
  rewrite Hq in Hcap. apply Hcap. cbn [hard_cap_messages Quota_messages]. unfold U64.MAX. lia.
Defined.
End QuotaWitness.
