(* ===== verification/AliasAllocator.v ===== *)
(** * Vanity and key-derived aliases

    [crates/gateway/src/authz.rs], last part: [AliasAllocator] hands out
    [vanity@domain] names on the gateway's own domain beside the key-derived
    default.  [vanity] is the allocation table, [reverse] its index by key, and
    [reserved] the operator's own directory names. *)

From Stdlib Require Import ZArith Lia Ascii String.
From stdpp Require Import base decidable option list strings gmap.
From S2P Require Import Prelude RustStr Kotva Base32 ForwardedAddr Provenance.
Local Open Scope Z_scope.

(** A content digest has 32 bytes. *)
Class KotvaDigestLength `{KotvaContentId} :=
  digest_length b : length (content_digest b) = 32%nat.

Module AliasAllocator.
Section key_derived.
Context `{KD : KotvaContentId}.
Definition key_derived_localpart (public_key : bytes) : string :=
  String "k" (Base32.base32_lower (take 10 (content_digest public_key))).
End key_derived.

Definition RESERVED_ALIAS_PREFIX : string := "dmtap1-".
Definition MAX_VANITY_LEN : Z := 64.

Inductive AliasError :=
| InvalidLocalPart (s : string)
| ContainsDot (s : string)
| Taken (s : string)
| ReservedCollision (s : string)
| ShadowsDirectoryIdentity (s : string)
| InvalidGatewayDomain (s : string).

Record AliasAllocator := {
  domain : string;
  vanity : gmap string bytes;
  reverse : list (bytes * string);
  reserved : gset string;
}.

(** The same checks as [forwarded_addr.rs]'s domain syntax, label by label. *)
Definition dns_label_char (c : ascii) : bool := is_ascii_alphanumeric c || is_char "-" c.
Definition is_valid_dns_label (label : string) : bool :=
  if bool_decide (label = EmptyString) || (63 <? str_len label) then false
  else if starts_with_char "-" label || ends_with_char "-" label then false
  else str_all dns_label_char label.
Definition is_valid_dns_domain (d : string) : bool :=
  if bool_decide (d = EmptyString) || (253 <? str_len d) then false
  else forallb is_valid_dns_label (split_char "." d) && (1 <=? length (split_char "." d))%nat.

Definition vanity_char (c : ascii) : bool :=
  is_ascii_alphanumeric c || is_char "-" c || is_char "_" c || is_char "+" c.
Definition is_valid_vanity_charset (lp : string) : bool :=
  if bool_decide (lp = EmptyString) || (MAX_VANITY_LEN <? str_len lp) then false
  else str_all vanity_char lp.

Definition is_key_derived_form (lp : string) : bool :=
  match strip_prefix "k" lp with
  | None => false
  | Some rest => (str_len rest =? 16) && str_all Base32.is_base32_char rest
  end.

Definition for_domain (raw : string) : result AliasError AliasAllocator :=
  let d := to_ascii_lowercase (trim raw) in
  if negb (is_valid_dns_domain d) then Err (InvalidGatewayDomain raw)
  else Ok {| domain := d; vanity := ∅; reverse := []; reserved := ∅ |}.

Definition reserve_localpart (local_part : string) (a : AliasAllocator) : AliasAllocator :=
  let lp := to_ascii_lowercase (trim local_part) in
  {| domain := domain a;
     vanity := delete lp (vanity a);
     reverse := filter (λ kv, kv.2 ≠ lp) (reverse a);
     reserved := {[lp]} ∪ reserved a |}.

Definition reserve_directory_address (email : string) (a : AliasAllocator) : bool * AliasAllocator :=
  match rsplit_once "@" email with
  | Some (lp, dom) =>
      if eq_ignore_ascii_case (trim dom) (domain a) then (true, reserve_localpart lp a) else (false, a)
  | None => (false, a)
  end.

Definition qualify (local_part : string) (a : AliasAllocator) : string :=
  local_part +:+ String "@" (domain a).

Definition check_vanity (local_part : string) (a : AliasAllocator) : result AliasError string :=
  if contains_char "." local_part then Err (ContainsDot local_part)
  else
    let lp := to_ascii_lowercase local_part in
    if negb (is_valid_vanity_charset lp) then Err (InvalidLocalPart local_part)
    else if starts_with RESERVED_ALIAS_PREFIX lp || is_key_derived_form lp
    then Err (ReservedCollision local_part)
    else if bool_decide (lp ∈ reserved a) then Err (ShadowsDirectoryIdentity local_part)
    else Ok lp.

(** [iter().position(|(k, _)| k == key)] then [remove(pos)]: the first entry of
    the key and the list without it. *)
Fixpoint remove_first (key : bytes) (l : list (bytes * string)) : option (string * list (bytes * string)) :=
  match l with
  | [] => None
  | (k, lp) :: r =>
      if bool_decide (k = key) then Some (lp, r)
      else '(old, r') ← remove_first key r; Some (old, (k, lp) :: r')
  end.

(** Dropping the name a key holds, from both indexes. *)
Definition drop_name (key : bytes) (a : AliasAllocator) : option string * AliasAllocator :=
  match remove_first key (reverse a) with
  | None => (None, a)
  | Some (old, r) =>
      (Some old, {| domain := domain a; vanity := delete old (vanity a);
                    reverse := r; reserved := reserved a |})
  end.

Definition allocate_vanity (public_key : bytes) (local_part : string) (a : AliasAllocator)
    : result AliasError string * AliasAllocator :=
  match check_vanity local_part a with
  | Err e => (Err e, a)
  | Ok lp =>
      match vanity a !! lp with
      | Some existing =>
          if bool_decide (existing = public_key) then (Ok (qualify lp a), a)
          else (Err (Taken local_part), a)
      | None =>
          let a := (drop_name public_key a).2 in
          let a := {| domain := domain a; vanity := <[lp := public_key]> (vanity a);
                      reverse := reverse a ++ [(public_key, lp)]; reserved := reserved a |} in
          (Ok (qualify lp a), a)
      end
  end.

Definition release_vanity (public_key : bytes) (a : AliasAllocator) : option string * AliasAllocator :=
  match drop_name public_key a with
  | (None, a) => (None, a)
  | (Some lp, a) => (Some (qualify lp a), a)
  end.

Definition vanity_of (public_key : bytes) (a : AliasAllocator) : option string :=
  snd <$> find_first (λ kv, bool_decide (kv.1 = public_key)) (reverse a).

Section resolve.
Context `{KD : KotvaContentId}.

Definition alias_for (public_key : bytes) (a : AliasAllocator) : string :=
  qualify (default (key_derived_localpart public_key) (vanity_of public_key a)) a.

Definition resolve (address : string) (registered_keys : list bytes) (a : AliasAllocator)
    : option bytes :=
  let addr := to_ascii_lowercase (trim address) in
  '(lp, dom) ← rsplit_once "@" addr;
  if bool_decide (dom ≠ domain a) then None
  else
    match vanity a !! lp with
    | Some k => Some k
    | None => find_first (λ k, bool_decide (key_derived_localpart k = lp)) registered_keys
    end.
End resolve.

(** ** Histories *)

Inductive AllocOp :=
| OpReserve (lp : string)
| OpReserveAddress (email : string)
| OpAllocate (key : bytes) (lp : string)
| OpRelease (key : bytes).
Definition run_op (a : AliasAllocator) (o : AllocOp) : AliasAllocator :=
  match o with
  | OpReserve lp => reserve_localpart lp a
  | OpReserveAddress email => (reserve_directory_address email a).2
  | OpAllocate key lp => (allocate_vanity key lp a).2
  | OpRelease key => (release_vanity key a).2
  end.

Inductive reachable : AliasAllocator → Prop :=
| reach_new raw a : for_domain raw = Ok a → reachable a
| reach_step a o : reachable a → reachable (run_op a o).

(** ** The invariant *)

Definition name_ok (lp : string) : Prop :=
  is_valid_vanity_charset lp = true ∧ to_ascii_lowercase lp = lp ∧
  starts_with RESERVED_ALIAS_PREFIX lp = false ∧ is_key_derived_form lp = false.

Definition alloc_ok (a : AliasAllocator) : Prop :=
  is_valid_dns_domain (domain a) = true ∧ to_ascii_lowercase (domain a) = domain a ∧
  (∀ lp k, vanity a !! lp = Some k ↔ (k, lp) ∈ reverse a) ∧
  NoDup (reverse a).*1 ∧
  (∀ lp k, vanity a !! lp = Some k → name_ok lp ∧ lp ∉ reserved a).

Lemma check_vanity_ok local_part a lp :
  check_vanity local_part a = Ok lp →
  lp = to_ascii_lowercase local_part ∧ name_ok lp ∧ lp ∉ reserved a.
Proof.
  unfold check_vanity, name_ok. destruct (contains_char _ _); [done|].
  destruct (is_valid_vanity_charset _) eqn:Hc; simpl; [|done].
  destruct (_ || _) eqn:Hp; [done|]. apply orb_false_iff in Hp as [Hp Hk].
  case_bool_decide; [done|]. intros [= <-]. by rewrite to_ascii_lowercase_idem.
Qed.

Lemma remove_first_spec key l :
  match remove_first key l with
  | None => key ∉ l.*1
  | Some (old, r) => ∃ l1 l2, l = l1 ++ (key, old) :: l2 ∧ r = l1 ++ l2 ∧ key ∉ l1.*1
  end.
Proof.
  induction l as [|[k lp] l IH]; simpl; [apply not_elem_of_nil|].
  case_bool_decide as Hk; [subst; exists [], l; split_and!; [done..|apply not_elem_of_nil]|].
  destruct (remove_first key l) as [[old r]|]; simpl.
  - destruct IH as (l1 & l2 & -> & -> & Hn). exists ((k, lp) :: l1), l2.
    split_and!; [done..|]. simpl. apply not_elem_of_cons. split; [congruence|done].
  - apply not_elem_of_cons. split; [congruence|done].
Qed.

(** A name points to one key: the table is a map. *)
Lemma alloc_ok_name_inj a k k' lp :
  alloc_ok a → (k, lp) ∈ reverse a → (k', lp) ∈ reverse a → k = k'.
Proof. intros (_ & _ & Hb & _) H H'. apply Hb in H, H'. congruence. Qed.

Lemma drop_name_ok key a :
  alloc_ok a →
  alloc_ok (drop_name key a).2 ∧ key ∉ (reverse (drop_name key a).2).*1 ∧
  domain (drop_name key a).2 = domain a ∧ reserved (drop_name key a).2 = reserved a ∧
  (∀ lp k, vanity (drop_name key a).2 !! lp = Some k ↔ vanity a !! lp = Some k ∧ k ≠ key).
Proof.
  intros Ha. pose proof Ha as (Hd & Hl & Hb & Hn & Hok). unfold drop_name.
  pose proof (remove_first_spec key (reverse a)) as Hr.
  destruct (remove_first key (reverse a)) as [[old r]|]; simpl.
  2:{ split_and!; try done. intros lp k. split; [|naive_solver]. intros H. split; [done|].
      intros ->. apply Hb in H. apply Hr. by apply (list_elem_of_fmap_2 fst) in H. }
  destruct Hr as (l1 & l2 & E & -> & Hk1).
  assert (key ∉ (l1 ++ l2).*1) as Hk.
  { rewrite E, fmap_app in Hn. rewrite fmap_app. apply NoDup_app in Hn as (_ & _ & Hn).
    apply NoDup_cons in Hn as [Hn _]. set_solver. }
  assert (∀ lp k, delete old (vanity a) !! lp = Some k ↔ vanity a !! lp = Some k ∧ k ≠ key) as Hv.
  { intros lp k. rewrite lookup_delete_Some. split.
    - intros [Hne H]. split; [done|]. intros ->. apply Hne.
      assert ((key, lp) ∈ reverse a) as Hin by by apply Hb.
      rewrite E in Hin. rewrite fmap_app in Hk.
      apply elem_of_app in Hin as [Hin|[?|Hin]%elem_of_cons]; [|congruence|];
        apply (list_elem_of_fmap_2 fst) in Hin; set_solver.
    - intros [H Hne]. split; [|done]. intros ->. apply Hne. symmetry.
      apply (alloc_ok_name_inj a _ _ lp); [done| |by apply Hb].
      rewrite E. set_solver. }
  split_and!; try done.
  unfold alloc_ok; simpl; split_and!; try done.
  - intros lp k. rewrite Hv, Hb, E. rewrite !elem_of_app, elem_of_cons. split.
    + naive_solver.
    + intros H. split; [naive_solver|]. intros ->. apply Hk. rewrite fmap_app, elem_of_app.
      destruct H as [H|H]; apply (list_elem_of_fmap_2 fst) in H; auto.
  - rewrite E in Hn. rewrite fmap_app in *. apply NoDup_app in Hn as (H1 & H2 & H3).
    apply NoDup_cons in H3 as [_ H3]. apply NoDup_app. split_and!; [done| |done]. set_solver.
  - intros lp k [H _]%Hv. by eapply Hok.
Qed.

Lemma reserve_localpart_ok lp a : alloc_ok a → alloc_ok (reserve_localpart lp a).
Proof.
  intros (Hd & Hl & Hb & Hn & Hok). unfold reserve_localpart, alloc_ok; simpl.
  set (n := to_ascii_lowercase (trim lp)). split_and!; try done.
  - intros l k. rewrite lookup_delete_Some, list_elem_of_filter, Hb. simpl. naive_solver.
  - eapply sublist_NoDup; [exact Hn|]. apply fmap_sublist, sublist_filter.
  - intros l k [Hne H]%lookup_delete_Some. destruct (Hok l k H). split; [done|]. set_solver.
Qed.

Lemma allocate_fresh_ok key lp a :
  alloc_ok a → name_ok lp → lp ∉ reserved a → vanity a !! lp = None → key ∉ (reverse a).*1 →
  alloc_ok {| domain := domain a; vanity := <[lp := key]> (vanity a);
              reverse := reverse a ++ [(key, lp)]; reserved := reserved a |}.
Proof.
  intros (Hd & Hl & Hb & Hn & Hok) Hname Hres Hfree Hkey.
  unfold alloc_ok; simpl; split_and!; try done.
  - intros l k. rewrite lookup_insert_Some, elem_of_app, list_elem_of_singleton, Hb.
    split; [naive_solver|]. intros [H|[= -> ->]]; [right|by left]. split; [|done].
    intros <-. apply Hb in H. congruence.
  - rewrite fmap_app. apply NoDup_app. split_and!; [done| |apply NoDup_singleton]. set_solver.
  - intros l k [[<- <-]|[_ H]]%lookup_insert_Some; [done|by eapply Hok].
Qed.

Lemma allocate_vanity_ok key lp a : alloc_ok a → alloc_ok (allocate_vanity key lp a).2.
Proof.
  intros Ha. unfold allocate_vanity. destruct (check_vanity lp a) as [n|] eqn:Hc; [|done].
  apply check_vanity_ok in Hc as (_ & Hname & Hres).
  destruct (vanity a !! n) as [k|] eqn:Hv; [by case_bool_decide|]. simpl.
  destruct (drop_name_ok key a Ha) as (Hok & Hk & _ & Hr & Hvan).
  apply allocate_fresh_ok; try done; [by rewrite Hr|].
  destruct (vanity (drop_name key a).2 !! n) eqn:E; [|done]. apply Hvan in E. naive_solver congruence.
Qed.

Lemma run_op_ok a o : alloc_ok a → alloc_ok (run_op a o).
Proof.
  intros Ha. destruct o as [lp|email|key lp|key]; simpl.
  - by apply reserve_localpart_ok.
  - unfold reserve_directory_address. repeat case_match; simpl; try done. by apply reserve_localpart_ok.
  - by apply allocate_vanity_ok.
  - unfold release_vanity. pose proof (drop_name_ok key a Ha) as (H & _).
    destruct (drop_name key a) as [[lp|] a'] eqn:E; exact H.
Qed.

Lemma reachable_ok a : reachable a → alloc_ok a.
Proof.
  induction 1 as [raw a H|a o _ IH]; [|by apply run_op_ok].
  unfold for_domain in H. destruct (is_valid_dns_domain _) eqn:Hd; [|done].
  injection H as <-. unfold alloc_ok; simpl. rewrite to_ascii_lowercase_idem.
  split_and!; try done; [|by apply NoDup_nil_2].
  intros lp k. rewrite lookup_empty. split; [done|by intros ?%elem_of_nil].
Qed.

(** ** Resolving a qualified name *)

Definition addr_char (c : ascii) : bool := vanity_char c || is_char "." c.

Lemma addr_char_printable c : addr_char c = true → printable c && negb (is_char "@" c) = true.
Proof. destruct c as [[] [] [] [] [] [] [] []]; vm_compute; done. Qed.

Lemma dns_is_valid_domain d : is_valid_dns_domain d = ForwardedAddr.is_valid_domain d.
Proof.
  unfold is_valid_dns_domain, ForwardedAddr.is_valid_domain. case_match; [done|]. f_equal.
  induction (split_char "." d) as [|x l IH]; [done|]. simpl. rewrite IH. f_equal.
  unfold is_valid_dns_label, ForwardedAddr.is_valid_label. by repeat case_match.
Qed.

Lemma domain_addr_chars d : is_valid_dns_domain d = true → str_all addr_char d = true.
Proof.
  rewrite dns_is_valid_domain. intros H%ForwardedAddr.is_valid_domain_chars.
  eapply str_all_impl; [|exact H]. intros c.
  destruct c as [[] [] [] [] [] [] [] []]; vm_compute; done.
Qed.

Lemma addr_chars_no_at s : str_all addr_char s = true → contains_char "@" s = false.
Proof.
  intros H. unfold contains_char. apply str_any_all. eapply str_all_impl; [|exact H].
  intros c Hc%addr_char_printable. by apply andb_true_iff in Hc as [_ Hc].
Qed.

Lemma name_addr_chars lp : is_valid_vanity_charset lp = true → str_all addr_char lp = true.
Proof.
  unfold is_valid_vanity_charset. case_match; [done|]. apply str_all_impl.
  intros c Hc. unfold addr_char. by rewrite Hc.
Qed.

Lemma base32_char_addr c :
  Base32.is_base32_char c = true → addr_char c && bool_decide (ascii_lower c = c) = true.
Proof. destruct c as [[] [] [] [] [] [] [] []]; vm_compute; done. Qed.

Lemma lower_of_chars s :
  str_all (λ c, bool_decide (ascii_lower c = c)) s = true → to_ascii_lowercase s = s.
Proof.
  induction s as [|c s IH]; simpl; [done|]. intros [Hc%bool_decide_eq_true Hs]%andb_true_iff.
  by rewrite Hc, IH.
Qed.

Section laws.
Context `{KD : KotvaContentId} `{HL : !KotvaDigestLength}.

Lemma key_derived_shape k : is_key_derived_form (key_derived_localpart k) = true.
Proof using HL.
  unfold is_key_derived_form, key_derived_localpart. simpl.
  rewrite Base32.base32_lower_len, Base32.base32_lower_chars, length_take, digest_length. done.
Qed.

Lemma key_derived_chars k :
  str_all addr_char (key_derived_localpart k) = true ∧
  to_ascii_lowercase (key_derived_localpart k) = key_derived_localpart k.
Proof using.
  unfold key_derived_localpart.
  pose proof (Base32.base32_lower_chars (take 10 (content_digest k))) as H. split.
  - simpl. eapply str_all_impl; [|exact H]. intros c Hc%base32_char_addr.
    by apply andb_true_iff in Hc as [Hc _].
  - simpl. f_equal. apply lower_of_chars. eapply str_all_impl; [|exact H].
    intros c Hc%base32_char_addr. by apply andb_true_iff in Hc as [_ Hc].
Qed.

Lemma key_derived_inj k k' :
  key_derived_localpart k = key_derived_localpart k' →
  take 10 (content_digest k) = take 10 (content_digest k').
Proof using HL.
  unfold key_derived_localpart. intros [= E]. apply Base32.base32_lower_inj; [|done].
  by rewrite !length_take, !digest_length.
Qed.

(** A qualified name, in any case and with any white space the trimming
    removes, reaches the table under its local-part. *)
Lemma resolve_qualify lp keys a :
  alloc_ok a → str_all addr_char lp = true → to_ascii_lowercase lp = lp →
  resolve (qualify lp a) keys a =
  match vanity a !! lp with
  | Some k => Some k
  | None => find_first (λ k, bool_decide (key_derived_localpart k = lp)) keys
  end.
Proof using.
  intros (Hd & Hl & _) Hlp Hlow. apply domain_addr_chars in Hd. unfold resolve, qualify.
  rewrite trim_printable.
  - rewrite to_ascii_lowercase_app, Hlow. cbn [to_ascii_lowercase]. rewrite Hl.
    change (ascii_lower "@"%char) with "@"%char.
    rewrite rsplit_once_app by by apply addr_chars_no_at. simpl.
    rewrite bool_decide_false by (by intros []). done.
  - rewrite str_all_app. cbn [str_all].
    assert (∀ s, str_all addr_char s = true → str_all printable s = true) as Hp.
    { intros s. apply str_all_impl. intros c Hc%addr_char_printable.
      by apply andb_true_iff in Hc as [Hc _]. }
    by rewrite !Hp.
Qed.

Lemma vanity_of_Some key a lp :
  alloc_ok a → vanity_of key a = Some lp ↔ vanity a !! lp = Some key.
Proof using.
  intros (_ & _ & Hb & Hn & _). unfold vanity_of. rewrite Hb. split.
  - intros ([k l] & Hf & ->)%fmap_Some. apply find_first_Some in Hf as [Hin Hk%bool_decide_eq_true].
    simpl in *. by subst.
  - intros Hin. destruct (find_first _ (reverse a)) as [[k l]|] eqn:Hf.
    2:{ by apply (find_first_None _ _ _ Hf), bool_decide_eq_false in Hin. }
    simpl. apply find_first_Some in Hf as [Hin' Hk%bool_decide_eq_true].
    simpl in Hk. subst k. f_equal.
    apply list_elem_of_lookup in Hin as [i Hi], Hin' as [j Hj].
    assert (i = j) as <-; [|congruence].
    eapply (NoDup_lookup _ _ _ key); [exact Hn|..]; rewrite list_lookup_fmap.
    + by rewrite Hi.
    + by rewrite Hj.
Qed.

(** ** Properties *)

(** C38: Whatever was reserved, allocated and released: an allocated name is a valid one in lower
    case, belongs to one key, and is outside the name spaces that are not for allocation:
    it neither begins with the reserved prefix nor has the form of a key-derived name, and
    it is not among the names reserved for the directory.  Hence the address presented for
    a registered key leads back to that key: its vanity name through the table, the
    key-derived default by the search over the registered keys, provided no two registered
    keys share the digest bytes (ten of them) that a key-derived name shows. *)
Theorem alias_round_trip a keys pk :
  reachable a → pk ∈ keys →
  (∀ k k', k ∈ keys → k' ∈ keys →
     take 10 (content_digest k) = take 10 (content_digest k') → k = k') →
  (∀ lp k, vanity a !! lp = Some k →
     is_valid_vanity_charset lp = true ∧ to_ascii_lowercase lp = lp ∧
     starts_with RESERVED_ALIAS_PREFIX lp = false ∧ is_key_derived_form lp = false ∧
     (∀ k', key_derived_localpart k' ≠ lp) ∧ lp ∉ reserved a ∧ vanity_of k a = Some lp) ∧
  resolve (alias_for pk a) keys a = Some pk ∧
  resolve (qualify (key_derived_localpart pk) a) keys a = Some pk.
Proof using HL.
  intros Ha%reachable_ok Hpk Hinj. split.
  { intros lp k Hv. pose proof Hv as [(H1 & H2 & H3 & H4) H5]%Ha. split_and!; try done; [|by apply vanity_of_Some].
    intros k' <-. by rewrite key_derived_shape in H4. }
  assert (resolve (qualify (key_derived_localpart pk) a) keys a = Some pk) as Hd.
  { rewrite resolve_qualify by (done || apply key_derived_chars).
    destruct (vanity a !! key_derived_localpart pk) as [k|] eqn:Hv.
    { apply Ha in Hv as [(_ & _ & _ & Hf) _]. by rewrite key_derived_shape in Hf. }
    destruct (find_first _ keys) as [k|] eqn:Hf.
    - apply find_first_Some in Hf as [Hin Hk%bool_decide_eq_true].
      f_equal. apply Hinj; [done..|]. by apply key_derived_inj.
    - by apply (find_first_None _ _ _ Hf), bool_decide_eq_false in Hpk. }
  split; [|done]. unfold alias_for.
  destruct (vanity_of pk a) as [lp|] eqn:Hv; [simpl|done].
  apply vanity_of_Some in Hv; [|done]. pose proof Hv as Hname. apply Ha in Hname as [(Hc & Hl & _) _].
  rewrite resolve_qualify; [by rewrite Hv|done|by apply name_addr_chars|done].
Qed.

(** An allocation grants a name exactly when the naming rules accept it and
    no other key holds it.  A grant returns the lower-cased name on the
    gateway's domain; from then on it resolves to the key and is the key's
    alias, the key holds no other name, and nobody else's name changes.  A
    refusal changes nothing. *)
Theorem allocate_vanity_grants a pk lp :
  reachable a →
  match allocate_vanity pk lp a with
  | (Ok addr, a') =>
      let n := to_ascii_lowercase lp in
      addr = qualify n a ∧ name_ok n ∧ contains_char "." lp = false ∧ n ∉ reserved a ∧
      (∀ keys, resolve addr keys a' = Some pk) ∧ alias_for pk a' = addr ∧
      (∀ n', vanity a' !! n' = Some pk → n' = n) ∧
      (∀ n' k, k ≠ pk → vanity a' !! n' = Some k ↔ vanity a !! n' = Some k)
  | (Err e, a') =>
      a' = a ∧ (check_vanity lp a = Err e ∨
                e = Taken lp ∧ ∃ k, k ≠ pk ∧ vanity a !! to_ascii_lowercase lp = Some k)
  end.
Proof using.
  intros Ha%reachable_ok. pose proof (allocate_vanity_ok pk lp a Ha) as Ha'.
  pose proof (drop_name_ok pk a Ha) as (_ & _ & Hdom & Hres & Hdrop).
  unfold allocate_vanity in *. destruct (check_vanity lp a) as [n|e] eqn:Hc; [|by auto].
  assert (contains_char "." lp = false) as Hdot.
  { unfold check_vanity in Hc. by destruct (contains_char "." lp). }
  apply check_vanity_ok in Hc as (-> & Hname & Hnr).
  set (n := to_ascii_lowercase lp) in *.
  assert (∀ a', alloc_ok a' → domain a' = domain a → vanity a' !! n = Some pk →
    (∀ keys, resolve (qualify n a) keys a' = Some pk) ∧ alias_for pk a' = qualify n a ∧
    (∀ n', vanity a' !! n' = Some pk → n' = n)) as Hheld.
  { intros a' Hok Hd Hv. replace (qualify n a) with (qualify n a') by (unfold qualify; by rewrite Hd).
    apply vanity_of_Some in Hv as Ho; [|done]. destruct Hname as (Hcs & Hl & _). split_and!.
    - intros keys. rewrite resolve_qualify; [by rewrite Hv|done|by apply name_addr_chars|done].
    - unfold alias_for. by rewrite Ho.
    - intros n' Hn'. apply vanity_of_Some in Hn'; [|done]. congruence. }
  destruct (vanity a !! n) as [k|] eqn:Hv.
  - case_bool_decide as Hk; [|naive_solver]. subst k.
    destruct (Hheld a) as (? & ? & ?); [done..|]. by split_and!.
  - simpl in *. destruct (Hheld _ Ha') as (? & ? & ?); [done|apply lookup_insert_eq|].
    set (a' := Build_AliasAllocator _ _ _ _) in *.
    assert (qualify n a' = qualify n a) as -> by (unfold qualify; simpl; by rewrite Hdom).
    split_and!; try done. simpl.
    intros n' k Hk. rewrite lookup_insert_Some, Hdrop. split; [naive_solver|].
    intros H'. right. split; [congruence|done].
Qed.
End laws.
End AliasAllocator.

(** ** Witnesses *)
Module AliasAllocatorWitness.
Import AliasAllocator.
#[local] Instance ids : KotvaContentId :=
  {| content_id b := Byte.x1e :: b; content_digest b := take 32 (b ++ replicate 32 Byte.x00) |}.
#[local] Instance ids_len : KotvaDigestLength.
Proof. intros b. unfold content_digest, ids. rewrite length_take, length_app, length_replicate. lia. Qed.

Definition k1 : bytes := [Byte.x01; Byte.x02].
Definition k2 : bytes := [Byte.x03].
Definition fresh : AliasAllocator :=
  {| domain := "gw.example"; vanity := ∅; reverse := []; reserved := ∅ |}.
Definition served : AliasAllocator :=
  run_op (run_op fresh (OpReserve "Postmaster")) (OpAllocate k1 "Alice").
Lemma served_reachable : reachable served.
Proof. do 2 apply reach_step. apply (reach_new " GW.example "). vm_compute. reflexivity. Qed.

Lemma alias_round_trip_witness :
  alias_for k1 served = "alice@gw.example"%string ∧
  resolve "alice@gw.example" [k1; k2] served = Some k1 ∧
  resolve (alias_for k2 served) [k1; k2] served = Some k2 ∧
  is_key_derived_form "alice" = false ∧ "alice"%string ∉ reserved served.
Proof.
  assert (∀ k k', k ∈ [k1; k2] → k' ∈ [k1; k2] →
    take 10 (content_digest k) = take 10 (content_digest k') → k = k') as Hinj.
  { intros k k' Hk Hk'.
    apply elem_of_cons in Hk as [->|Hk%list_elem_of_singleton]; [|subst];
    apply elem_of_cons in Hk' as [->|Hk'%list_elem_of_singleton]; try subst;
    vm_compute; congruence. }
  assert (alias_for k1 served = "alice@gw.example"%string) as E by (vm_compute; reflexivity).
  assert (k1 ∈ [k1; k2]) as H1 by (apply elem_of_cons; by left).
  assert (k2 ∈ [k1; k2]) as H2 by (apply elem_of_cons; right; by apply list_elem_of_singleton).
  destruct (alias_round_trip served [k1; k2] k1 served_reachable H1 Hinj) as (R0 & R1 & _).
  destruct (alias_round_trip served [k1; k2] k2 served_reachable H2 Hinj) as (_ & R2 & _).
  assert (vanity served !! "alice"%string = Some k1) as Hv by (vm_compute; reflexivity).
  destruct (R0 "alice"%string k1 Hv) as (_ & _ & _ & Hk & _ & Hr & _).
  rewrite E in R1. exact (conj E (conj R1 (conj R2 (conj Hk Hr)))).
Defined.

Lemma allocate_vanity_grants_witness :
  (allocate_vanity k2 "Bob_1" served).1 = Ok "bob_1@gw.example"%string ∧
  (allocate_vanity k2 "ALICE" served).1 = Err (Taken "ALICE") ∧
  (allocate_vanity k2 "postmaster" served).1 = Err (ShadowsDirectoryIdentity "postmaster") ∧
  (∀ keys, resolve "bob_1@gw.example" keys (allocate_vanity k2 "Bob_1" served).2 = Some k2).
Proof.
  do 3 (split; [vm_compute; reflexivity|]).
  pose proof (allocate_vanity_grants served k2 "Bob_1" served_reachable) as H.
  destruct (allocate_vanity k2 "Bob_1" served) as [[addr|e] a'] eqn:E.
  - destruct H as (Ha & _ & _ & _ & Hr & _).
    assert (addr = "bob_1@gw.example"%string) as Ea by (rewrite Ha; vm_compute; reflexivity).
    rewrite Ea in Hr. exact Hr.
  - exfalso. vm_compute in E. discriminate E.
Defined.
End AliasAllocatorWitness.
