(* ===== verification/MultiDomain.v ===== *)
(** * The multi-domain gateway

    [crates/gateway/src/multidomain.rs]: one gateway that serves many domains,
    each with its own DKIM key, directory, aliases, blocklist, suspended users
    and quota.  It composes the directory, the alias map, the alias allocator,
    the quota ledger and the DKIM signer.  The mutexes are left out: an operation
    is atomic. *)

From Stdlib Require Import ZArith Lia Ascii String.
From stdpp Require Import base decidable option list sorting strings gmap.
From S2P Require Import Prelude RustStr RustText Kotva B64 Dkim Directory AliasMap Provenance Admission Quota AliasAllocator.
Local Open Scope Z_scope.

(** [ed25519_dalek::SigningKey::from_bytes]. *)
Class DkimSeed `{DkimCrypto} := { ed_from_seed : bytes → SigningKey }.

(** The order in which [HashMap::iter] visits the entries is not specified: it is
    some listing of the map. *)
Class HashMapIter := {
  hm_iter {V} : gmap string V → list (string * V);
  hm_iter_perm {V} (m : gmap string V) : hm_iter m ≡ₚ map_to_list m;
}.

Module MultiDomain.

(** ** Addresses *)

Definition normal (s : string) : string := to_ascii_lowercase (trim s).
Definition split_address (addr : string) : option (string * string) :=
  let a := trim (trim_end_matches ">" (trim_start_matches "<" (trim addr))) in
  '(local, domain) ← rsplit_once "@" a;
  if bool_decide (local = EmptyString) || bool_decide (domain = EmptyString) then None
  else Some (to_ascii_lowercase local, to_ascii_lowercase domain).
Definition local_part_of (user : string) : string :=
  let u := trim user in
  match rsplit_once "@" u with Some (l, _) => l | None => u end.

(** An address part that survives trimming and splitting. *)
Definition addr_text (s : string) : Prop := str_all AliasAllocator.addr_char s = true ∧ s ≠ EmptyString.
Definition clean_address (local d : string) : string := local +:+ String "@" d.

Lemma addr_text_printable s : addr_text s → str_all printable s = true.
Proof.
  intros [H _]. eapply str_all_impl; [|exact H]. intros c Hc%AliasAllocator.addr_char_printable. by apply andb_true_iff in Hc as [Hc _].
Qed.
Lemma clean_printable l d : addr_text l → addr_text d → str_all printable (clean_address l d) = true.
Proof.
  intros Hl Hd. unfold clean_address. rewrite str_all_app. cbn [str_all].
  by rewrite addr_text_printable, addr_text_printable.
Qed.
Lemma lower_nonempty s : s ≠ EmptyString → to_ascii_lowercase s ≠ EmptyString.
Proof. by destruct s. Qed.
Lemma normal_clean l d :
  addr_text l → addr_text d → normal (clean_address l d) = clean_address (to_ascii_lowercase l) (to_ascii_lowercase d).
Proof.
  intros Hl Hd. unfold normal. rewrite trim_printable by by apply clean_printable.
  unfold clean_address. by rewrite to_ascii_lowercase_app.
Qed.
Lemma addr_text_no c s : addr_text s → AliasAllocator.addr_char c = false → contains_char c s = false.
Proof.
  intros [H _] Hc. apply str_any_all. eapply str_all_impl; [|exact H]. intros x Hx.
  apply negb_true_iff, is_char_false. by intros <-; rewrite Hx in Hc.
Qed.
Lemma clean_no c l d : addr_text l → addr_text d → AliasAllocator.addr_char c = false → c ≠ "@"%char →
  contains_char c (clean_address l d) = false.
Proof.
  intros Hl Hd Hc Hat. unfold clean_address, contains_char. rewrite Dkim.str_any_app. cbn [str_any].
  pose proof (addr_text_no c l Hl Hc) as H1. pose proof (addr_text_no c d Hd Hc) as H2. unfold contains_char in *.
  rewrite H1, H2. by apply is_char_false in Hat as ->.
Qed.
Lemma split_clean l d :
  addr_text l → addr_text d → split_address (clean_address l d) = Some (to_ascii_lowercase l, to_ascii_lowercase d).
Proof.
  intros Hl Hd. unfold split_address.
  rewrite (trim_printable (clean_address l d)) by by apply clean_printable.
  rewrite trim_start_none by by apply clean_no. rewrite trim_end_none by by apply clean_no.
  rewrite (trim_printable (clean_address l d)) by by apply clean_printable.
  unfold clean_address. rewrite rsplit_once_app by by apply addr_text_no. cbn.
  rewrite !bool_decide_false by (apply Hl || apply Hd). done.
Qed.
Definition bracketed (a : string) : string := String "<" (a +:+ ">").
Lemma bracketed_printable a : str_all printable a = true → str_all printable (bracketed a) = true.
Proof. intros H. unfold bracketed. cbn [str_all]. rewrite str_all_app, H. done. Qed.
Lemma split_bracketed l d :
  addr_text l → addr_text d → split_address (bracketed (clean_address l d)) = Some (to_ascii_lowercase l, to_ascii_lowercase d).
Proof.
  intros Hl Hd. rewrite <- split_clean by done. unfold split_address.
  rewrite (trim_printable (bracketed _)) by by apply bracketed_printable, clean_printable.
  rewrite (trim_printable (clean_address l d)) by by apply clean_printable.
  unfold bracketed. cbn [trim_start_matches]. rewrite is_char_refl.
  assert (trim_start_matches "<" (clean_address l d +:+ ">") = (clean_address l d +:+ ">")) as ->.
  { pose proof (clean_no "<" l d Hl Hd eq_refl) as H. unfold contains_char in H. destruct (clean_address l d) as [|x r]; [done|].
    rewrite str_app_cons. cbn [trim_start_matches]. by specialize (H ltac:(done)) as [-> _]%orb_false_iff. }
  rewrite trim_end_app. by rewrite (trim_start_none "<" (clean_address l d)) by by apply clean_no.
Qed.

(** ** Data *)

Inductive MultiDomainError :=
| InvalidDomain (d : string)
| DomainExists (d : string)
| NoSuchDomain (d : string)
| Alias (e : AliasAllocator.AliasError)
| BadKey (reason : string).

Inductive Recipient :=
| ToDirectory (key : RecipientKey)
| ToAlias (target : AliasMap.AliasTarget).

Inductive RouteError := UnservedDomain | SenderBlocked | UserSuspended | Unmapped.
Definition smtp_code (e : RouteError) : Z :=
  match e with UnservedDomain => 550 | SenderBlocked => 554 | UserSuspended => 550 | Unmapped => 550 end.

Inductive ChargeError := ChargeNoSuchDomain (d : string) | ChargeQuota (e : Quota.QuotaError).

(** ** The usage meter *)

Record DomainUsage := { inbound : Z; outbound : Z; du_messages : Z }.
Definition DomainUsage_default : DomainUsage := {| inbound := 0; outbound := 0; du_messages := 0 |}.
Record UsageMeter := { inner : gmap string DomainUsage }.
Definition UsageMeter_new : UsageMeter := {| inner := ∅ |}.
Definition meter_usage (domain : string) (m : UsageMeter) : DomainUsage :=
  default DomainUsage_default (inner m !! normal domain).
(** The counters wrap, as release builds do. *)
Definition count (dir : Provenance.BridgeDirection) (u : DomainUsage) : DomainUsage :=
  let u := match dir with
           | Provenance.Inbound => {| inbound := U64.wrap (inbound u + 1); outbound := outbound u; du_messages := du_messages u |}
           | Provenance.Outbound => {| inbound := inbound u; outbound := U64.wrap (outbound u + 1); du_messages := du_messages u |}
           end in
  {| inbound := inbound u; outbound := outbound u; du_messages := U64.wrap (du_messages u + 1) |}.
Definition meter_record (e : Provenance.MeterEvent) (m : UsageMeter) : UsageMeter :=
  let d := to_ascii_lowercase (Provenance.me_domain e) in
  {| inner := <[d := count (Provenance.me_direction e) (default DomainUsage_default (inner m !! d))]> (inner m) |}.
#[export] Instance UsageMeter_meter : Provenance.GatewayMeter UsageMeter := {| Provenance.record := meter_record |}.

(** [v.sort_by(|a, b| a.0.cmp(&b.0))]: byte order of the names. *)
Definition by_domain {V} (a b : string * V) : Prop := String.le a.1 b.1.
#[export] Instance by_domain_dec {V} (a b : string * V) : Decision (by_domain a b).
Proof. unfold by_domain, String.le. apply _. Defined.
Definition snapshot `{HashMapIter} (m : UsageMeter) : list (string * DomainUsage) := merge_sort by_domain (hm_iter (inner m)).

Section gateway.
Context `{DC : DkimCrypto, DS : !DkimSeed, KD : KotvaContentId, HI : HashMapIter}.

Record DomainTenant := {
  domain : string;
  dkim : Dkim.DkimKey;
  directory : Directory.InMemoryDirectory;
  aliases : AliasAllocator.AliasAllocator;
  random : AliasMap.GatewayAliasMap;
  blocked_senders : gset string;
  suspended_users : gset string;
  quota : Admission.Quota;
  ledger : Quota.QuotaLedger;
}.
Record MultiDomainGateway := {
  tenants : gmap string DomainTenant;
  global_blocked : gset string;
  default_quota : Admission.Quota;
}.

Definition from_seed (d selector : string) (seed : bytes) : Dkim.DkimKey :=
  {| Dkim.dk_domain := d; Dkim.dk_selector := selector; Dkim.dk_signing := ed_from_seed seed |}.
Definition tenant_usage (t : DomainTenant) : Quota.Usage := Quota.usage (domain t) (ledger t).
Definition recipient_count (t : DomainTenant) : nat := size (Directory.entries (directory t)).

(** Field updates. *)
Definition set_directory (x : Directory.InMemoryDirectory) (t : DomainTenant) : DomainTenant :=
  {| domain := domain t; dkim := dkim t; directory := x; aliases := aliases t; random := random t;
     blocked_senders := blocked_senders t; suspended_users := suspended_users t; quota := quota t; ledger := ledger t |}.
Definition set_aliases (x : AliasAllocator.AliasAllocator) (t : DomainTenant) : DomainTenant :=
  {| domain := domain t; dkim := dkim t; directory := directory t; aliases := x; random := random t;
     blocked_senders := blocked_senders t; suspended_users := suspended_users t; quota := quota t; ledger := ledger t |}.
Definition set_random (x : AliasMap.GatewayAliasMap) (t : DomainTenant) : DomainTenant :=
  {| domain := domain t; dkim := dkim t; directory := directory t; aliases := aliases t; random := x;
     blocked_senders := blocked_senders t; suspended_users := suspended_users t; quota := quota t; ledger := ledger t |}.
Definition set_blocked (x : gset string) (t : DomainTenant) : DomainTenant :=
  {| domain := domain t; dkim := dkim t; directory := directory t; aliases := aliases t; random := random t;
     blocked_senders := x; suspended_users := suspended_users t; quota := quota t; ledger := ledger t |}.
Definition set_suspended (x : gset string) (t : DomainTenant) : DomainTenant :=
  {| domain := domain t; dkim := dkim t; directory := directory t; aliases := aliases t; random := random t;
     blocked_senders := blocked_senders t; suspended_users := x; quota := quota t; ledger := ledger t |}.
Definition set_ledger (q : Admission.Quota) (x : Quota.QuotaLedger) (t : DomainTenant) : DomainTenant :=
  {| domain := domain t; dkim := dkim t; directory := directory t; aliases := aliases t; random := random t;
     blocked_senders := blocked_senders t; suspended_users := suspended_users t; quota := q; ledger := x |}.
Definition set_tenants (x : gmap string DomainTenant) (g : MultiDomainGateway) : MultiDomainGateway :=
  {| tenants := x; global_blocked := global_blocked g; default_quota := default_quota g |}.
Definition set_global (x : gset string) (g : MultiDomainGateway) : MultiDomainGateway :=
  {| tenants := tenants g; global_blocked := x; default_quota := default_quota g |}.

Definition MultiDomainGateway_new : MultiDomainGateway :=
  {| tenants := ∅; global_blocked := ∅; default_quota := Quota.Quota_messages 0 0 |}.
Definition with_default_quota (q : Admission.Quota) (g : MultiDomainGateway) : MultiDomainGateway :=
  {| tenants := tenants g; global_blocked := global_blocked g; default_quota := q |}.

(** ** Domains *)

Definition selector_or_default (selector : string) : string :=
  let s := trim selector in if bool_decide (s = EmptyString) then "gw1"%string else s.

Definition new_tenant (d selector : string) (seed : bytes) (q : Admission.Quota) (a : AliasAllocator.AliasAllocator) : DomainTenant :=
  {| domain := d; dkim := from_seed d (selector_or_default selector) seed; directory := Directory.InMemoryDirectory_new;
     aliases := a; random := ∅; blocked_senders := ∅; suspended_users := ∅; quota := q;
     ledger := Quota.set_quota d q Quota.QuotaLedger_new |}.
(** [fresh] is the seed the OS generator draws when none is given. *)
Definition add_domain (raw : string) (dkim_seed : option bytes) (fresh : bytes) (selector : string) (g : MultiDomainGateway)
    : result MultiDomainError bytes * MultiDomainGateway :=
  let d := normal raw in
  match AliasAllocator.for_domain d with
  | Err _ => (Err (InvalidDomain raw), g)
  | Ok a =>
      if bool_decide (is_Some (tenants g !! d)) then (Err (DomainExists d), g)
      else
        let seed := default fresh dkim_seed in
        (Ok seed, set_tenants (<[d := new_tenant d selector seed (default_quota g) a]> (tenants g)) g)
  end.
Definition remove_domain (raw : string) (g : MultiDomainGateway) : bool * MultiDomainGateway :=
  (bool_decide (is_Some (tenants g !! normal raw)), set_tenants (delete (normal raw) (tenants g)) g).
Definition serves (raw : string) (g : MultiDomainGateway) : bool := bool_decide (is_Some (tenants g !! normal raw)).
Definition domains (g : MultiDomainGateway) : list string := merge_sort String.le (hm_iter (tenants g)).*1.
Definition tenant (raw : string) (g : MultiDomainGateway) : option DomainTenant := tenants g !! normal raw.

(** [tenant_mut] and what is done with the reference. *)
Definition tenant_mut {A} (raw : string) (f : DomainTenant → A * DomainTenant) (g : MultiDomainGateway)
    : result MultiDomainError A * MultiDomainGateway :=
  let d := normal raw in
  match tenants g !! d with
  | None => (Err (NoSuchDomain d), g)
  | Some t => let '(a, t) := f t in (Ok a, set_tenants (<[d := t]> (tenants g)) g)
  end.

(** ** Recipients *)

Definition add_recipient (email : string) (key : RecipientKey) (g : MultiDomainGateway)
    : result MultiDomainError unit * MultiDomainGateway :=
  match split_address email with
  | None => (Err (InvalidDomain email), g)
  | Some (_, d) =>
      tenant_mut d (λ t, (tt, set_aliases (AliasAllocator.reserve_directory_address email (aliases t)).2
                                (set_directory (Directory.insert email key (directory t)) t))) g
  end.
Definition remove_recipient (email : string) (g : MultiDomainGateway) : result MultiDomainError bool * MultiDomainGateway :=
  match split_address email with
  | None => (Err (InvalidDomain email), g)
  | Some (_, d) =>
      tenant_mut d (λ t, let '(was, dir) := Directory.remove email (directory t) in (was, set_directory dir t)) g
  end.

(** ** Aliases *)

Definition allocate_vanity (raw : string) (public_key : bytes) (local_part : string) (g : MultiDomainGateway)
    : result MultiDomainError string * MultiDomainGateway :=
  match tenant_mut raw (λ t, let '(r, a) := AliasAllocator.allocate_vanity public_key local_part (aliases t) in
                             (r, set_aliases a t)) g with
  | (Ok r, g) => (map_err Alias r, g)
  | (Err e, g) => (Err e, g)
  end.
Definition revoke_vanity (raw : string) (public_key : bytes) (g : MultiDomainGateway)
    : result MultiDomainError (option string) * MultiDomainGateway :=
  tenant_mut raw (λ t, let '(r, a) := AliasAllocator.release_vanity public_key (aliases t) in (r, set_aliases a t)) g.
(** [None]: the listed draws all gave tokens in use. *)
Definition mint_random_alias (raw : string) (draws : list bytes) (target : AliasMap.AliasTarget) (corr : option string)
    (ttl : option Z) (once : bool) (now : Z) (g : MultiDomainGateway)
    : result MultiDomainError (option string) * MultiDomainGateway :=
  tenant_mut raw (λ t,
    match AliasMap.mint_with draws target corr ttl once now (random t) with
    | Some (token, rows) => (Some (token +:+ String "@" (domain t)), set_random rows t)
    | None => (None, t)
    end) g.
Definition burn_random_alias (raw token : string) (g : MultiDomainGateway) : result MultiDomainError bool * MultiDomainGateway :=
  tenant_mut raw (λ t,
    let local := match rsplit_once "@" token with Some (l, _) => l | None => token end in
    let '(was, rows) := AliasMap.burn local (random t) in (was, set_random rows t)) g.

(** ** Blocklists and suspension *)

Definition block_sender (raw sender : string) (g : MultiDomainGateway) : result MultiDomainError unit * MultiDomainGateway :=
  tenant_mut raw (λ t, (tt, set_blocked ({[normal sender]} ∪ blocked_senders t) t)) g.
Definition unblock_sender (raw sender : string) (g : MultiDomainGateway) : result MultiDomainError bool * MultiDomainGateway :=
  tenant_mut raw (λ t, (bool_decide (normal sender ∈ blocked_senders t),
                        set_blocked (blocked_senders t ∖ {[normal sender]}) t)) g.
Definition block_sender_global (sender : string) (g : MultiDomainGateway) : MultiDomainGateway :=
  set_global ({[normal sender]} ∪ global_blocked g) g.
Definition unblock_sender_global (sender : string) (g : MultiDomainGateway) : bool * MultiDomainGateway :=
  (bool_decide (normal sender ∈ global_blocked g), set_global (global_blocked g ∖ {[normal sender]}) g).
Definition suspend_user (raw user : string) (g : MultiDomainGateway) : result MultiDomainError unit * MultiDomainGateway :=
  let local := to_ascii_lowercase (local_part_of user) in
  tenant_mut raw (λ t, (tt, set_suspended ({[local]} ∪ suspended_users t) t)) g.
Definition unsuspend_user (raw user : string) (g : MultiDomainGateway) : result MultiDomainError bool * MultiDomainGateway :=
  let local := to_ascii_lowercase (local_part_of user) in
  tenant_mut raw (λ t, (bool_decide (local ∈ suspended_users t), set_suspended (suspended_users t ∖ {[local]}) t)) g.

Definition set_domain_quota (raw : string) (q : Admission.Quota) (g : MultiDomainGateway)
    : result MultiDomainError unit * MultiDomainGateway :=
  tenant_mut raw (λ t, (tt, set_ledger q (Quota.set_quota (domain t) q (ledger t)) t)) g.

(** ** Routing, signing, charging *)

Definition registered (t : DomainTenant) : list bytes := (rk_ik ∘ snd) <$> hm_iter (Directory.entries (directory t)).

(** The part of [route] behind the blocklists. *)
Definition route_local (local d : string) (now : Z) (t : DomainTenant) : result RouteError Recipient * DomainTenant :=
  let clean := clean_address local d in
  match Directory.resolve (directory t) clean with
  | Some key => (Ok (ToDirectory key), t)
  | None =>
      match AliasMap.resolve local now (random t) with
      | (Ok target, rows) => (Ok (ToAlias target), set_random rows t)
      | (Err AliasMap.Unmapped, rows) =>
          let t := set_random rows t in
          match AliasAllocator.resolve clean (registered t) (aliases t) with
          | Some pk => (Ok (ToAlias (AliasMap.Identity pk)), t)
          | None => (Err Unmapped, t)
          end
      end
  end.
Definition route (sender rcpt : string) (now : Z) (g : MultiDomainGateway) : result RouteError Recipient * MultiDomainGateway :=
  match split_address rcpt with
  | None => (Err UnservedDomain, g)
  | Some (local, d) =>
      if bool_decide (normal sender ∈ global_blocked g) then (Err SenderBlocked, g)
      else
        match tenants g !! d with
        | None => (Err UnservedDomain, g)
        | Some t =>
            if bool_decide (normal sender ∈ blocked_senders t) then (Err SenderBlocked, g)
            else if bool_decide (local ∈ suspended_users t) then (Err UserSuspended, g)
            else let '(r, t) := route_local local d now t in (r, set_tenants (<[d := t]> (tenants g)) g)
        end
  end.

Definition dkim_sign (raw : string) (message : bytes) (t : Z) (g : MultiDomainGateway) : option string :=
  tn ← tenant raw g; Some (Dkim.sign (dkim tn) message t).

(** The ledger is behind a mutex, so [charge_relay] takes the gateway by shared
    reference and still advances it. *)
Definition charge_relay {M} `{Provenance.GatewayMeter M} (raw : string) (dir : Provenance.BridgeDirection)
    (rfc5322 : bytes) (at_ : Z) (g : MultiDomainGateway) (m : M)
    : result ChargeError Quota.Usage * MultiDomainGateway * M :=
  match tenant raw g with
  | None => (Err (ChargeNoSuchDomain raw), g, m)
  | Some t =>
      let '(r, l, m) := Quota.charge_and_meter (domain t) (domain t) dir rfc5322 at_ (ledger t) m in
      (map_err ChargeQuota r, set_tenants (<[normal raw := set_ledger (quota t) l t]> (tenants g)) g, m)
  end.

(** ** Histories *)

Inductive Op :=
| AddDomain (raw : string) (seed : option bytes) (fresh : bytes) (selector : string)
| RemoveDomain (raw : string)
| AddRecipient (email : string) (key : RecipientKey)
| RemoveRecipient (email : string)
| AllocateVanity (raw : string) (key : bytes) (local : string)
| RevokeVanity (raw : string) (key : bytes)
| MintAlias (raw : string) (draws : list bytes) (target : AliasMap.AliasTarget) (corr : option string) (ttl : option Z)
    (once : bool) (now : Z)
| BurnAlias (raw token : string)
| BlockSender (raw sender : string)
| UnblockSender (raw sender : string)
| BlockGlobal (sender : string)
| UnblockGlobal (sender : string)
| SuspendUser (raw user : string)
| UnsuspendUser (raw user : string)
| SetQuota (raw : string) (q : Admission.Quota)
| Route (sender rcpt : string) (now : Z)
| ChargeRelay (raw : string) (dir : Provenance.BridgeDirection) (body : bytes) (at_ : Z).

Definition run_op (g : MultiDomainGateway) (o : Op) : MultiDomainGateway :=
  match o with
  | AddDomain raw seed fresh selector => (add_domain raw seed fresh selector g).2
  | RemoveDomain raw => (remove_domain raw g).2
  | AddRecipient email key => (add_recipient email key g).2
  | RemoveRecipient email => (remove_recipient email g).2
  | AllocateVanity raw key local => (allocate_vanity raw key local g).2
  | RevokeVanity raw key => (revoke_vanity raw key g).2
  | MintAlias raw draws target corr ttl once now => (mint_random_alias raw draws target corr ttl once now g).2
  | BurnAlias raw token => (burn_random_alias raw token g).2
  | BlockSender raw sender => (block_sender raw sender g).2
  | UnblockSender raw sender => (unblock_sender raw sender g).2
  | BlockGlobal sender => block_sender_global sender g
  | UnblockGlobal sender => (unblock_sender_global sender g).2
  | SuspendUser raw user => (suspend_user raw user g).2
  | UnsuspendUser raw user => (unsuspend_user raw user g).2
  | SetQuota raw q => (set_domain_quota raw q g).2
  | Route sender rcpt now => (route sender rcpt now g).2
  | ChargeRelay raw dir body at_ => (charge_relay raw dir body at_ g Provenance.mkNullMeter).1.2
  end.
Definition run_ops (g : MultiDomainGateway) (ops : list Op) : MultiDomainGateway := foldl run_op g ops.

(** The domain an operation names; [None] for the operations on no domain. *)
Definition op_domain (o : Op) : option string :=
  match o with
  | AddDomain raw _ _ _ | RemoveDomain raw | AllocateVanity raw _ _ | RevokeVanity raw _
  | MintAlias raw _ _ _ _ _ _ | BurnAlias raw _ | BlockSender raw _ | UnblockSender raw _
  | SuspendUser raw _ | UnsuspendUser raw _ | SetQuota raw _ | ChargeRelay raw _ _ _ => Some (normal raw)
  | AddRecipient email _ | RemoveRecipient email => '(_, d) ← split_address email; Some (normal d)
  | Route _ rcpt _ => snd <$> split_address rcpt
  | BlockGlobal _ | UnblockGlobal _ => None
  end.
Definition is_global (o : Op) : bool := match o with BlockGlobal _ | UnblockGlobal _ => true | _ => false end.

(** ** One domain at a time *)

Lemma tenant_mut_lookup {A} raw (f : DomainTenant → A * DomainTenant) g d :
  tenants (tenant_mut raw f g).2 !! d =
    (if decide (normal raw = d) then snd ∘ f <$> tenants g !! d else tenants g !! d) ∧
  global_blocked (tenant_mut raw f g).2 = global_blocked g ∧ default_quota (tenant_mut raw f g).2 = default_quota g.
Proof using.
  unfold tenant_mut. destruct (tenants g !! normal raw) as [t|] eqn:E.
  - destruct (f t) as [a t'] eqn:Ef. cbn [snd set_tenants tenants global_blocked default_quota]. rewrite lookup_insert.
    split; [|done]. case_decide as H; [|done]. rewrite <- H, E. cbn. by rewrite Ef.
  - cbn [snd]. split; [|done]. case_decide as H; [|done]. by rewrite <- H, E.
Qed.

(** What an operation does: it changes the tenant of the domain it names, in a way
    that depends on that tenant, the global blocklist and the default quota, and
    no other; only the two global operations touch the global blocklist. *)
Definition effect_of (o : Op) (F : gset string → Admission.Quota → option DomainTenant → option DomainTenant)
    (G : gset string → gset string) : Prop :=
  ∀ g, (∀ d, tenants (run_op g o) !! d =
             if decide (op_domain o = Some d) then F (global_blocked g) (default_quota g) (tenants g !! d) else tenants g !! d) ∧
       global_blocked (run_op g o) = G (global_blocked g) ∧ default_quota (run_op g o) = default_quota g ∧
       (is_global o = false → G (global_blocked g) = global_blocked g).

Lemma tenant_mut_effect {A} o raw (f : DomainTenant → A * DomainTenant) :
  op_domain o = Some (normal raw) → is_global o = false → (∀ g, run_op g o = (tenant_mut raw f g).2) →
  effect_of o (λ _ _ ot, snd ∘ f <$> ot) id.
Proof using.
  intros Hd Hg Hrun g. rewrite Hrun. split; [|split_and!; try done; apply (tenant_mut_lookup raw f g)].
  { intros d. destruct (tenant_mut_lookup raw f g d) as [-> _]. rewrite Hd.
    destruct (decide (normal raw = d)) as [->|]; [by rewrite decide_True|rewrite decide_False by congruence; done]. }
  all: exact EmptyString.
Qed.
Lemma nop_effect o : op_domain o = None → (∀ g, run_op g o = g) → effect_of o (λ _ _ ot, ot) id.
Proof using. intros Hd Hrun g. rewrite Hrun, Hd. split_and!; done. Qed.

Lemma add_effect raw seed fresh selector : effect_of (AddDomain raw seed fresh selector)
  (λ _ dq ot, match AliasAllocator.for_domain (normal raw) with
              | Ok a => match ot with Some t => Some t | None => Some (new_tenant (normal raw) selector (default fresh seed) dq a) end
              | Err _ => ot end) id.
Proof using.
  intros g. cbn [run_op op_domain]. unfold add_domain.
  destruct (AliasAllocator.for_domain (normal raw)) as [a|]; [|split_and!; try done; intros d; by case_decide].
  case_bool_decide as Hs; cbn [snd set_tenants tenants global_blocked default_quota]; split_and!; try done; intros d; case_decide as E; try done.
  - simplify_eq. by destruct Hs as [t ->].
  - simplify_eq. rewrite lookup_insert_eq. destruct (tenants g !! normal raw); [|done]. destruct Hs. by eexists.
  - rewrite lookup_insert_ne by congruence. done.
Qed.
Lemma remove_effect raw : effect_of (RemoveDomain raw) (λ _ _ _, None) id.
Proof using.
  intros g. cbn. split_and!; try done. intros d. rewrite lookup_delete.
  case_decide as E; [rewrite decide_True by congruence|rewrite decide_False by congruence]; done.
Qed.
Lemma route_effect sender rcpt now local d :
  split_address rcpt = Some (local, d) →
  effect_of (Route sender rcpt now)
    (λ glob _ ot, t ← ot;
       if bool_decide (normal sender ∈ glob) || bool_decide (normal sender ∈ blocked_senders t) || bool_decide (local ∈ suspended_users t)
       then Some t else Some (route_local local d now t).2) id.
Proof using.
  intros Hs g. cbn [run_op op_domain]. unfold route. rewrite Hs. cbn [fmap option_fmap option_map snd].
  destruct (bool_decide (normal sender ∈ global_blocked g)).
  { split_and!; try done. intros d'. case_decide; [|done]. cbn. by destruct (tenants g !! d'). }
  destruct (tenants g !! d) as [t|] eqn:E.
  2:{ split_and!; try done. intros d'. destruct (decide (Some d = Some d')) as [[= <-]|]; [|done]. by rewrite E. }
  destruct (bool_decide (normal sender ∈ blocked_senders t)) eqn:B1.
  { split_and!; try done. intros d'. destruct (decide (Some d = Some d')) as [[= <-]|]; [|done]. rewrite E. cbn. by rewrite B1. }
  destruct (bool_decide (local ∈ suspended_users t)) eqn:B2.
  { split_and!; try done. intros d'. destruct (decide (Some d = Some d')) as [[= <-]|]; [|done]. rewrite E. cbn. by rewrite B1, B2. }
  destruct (route_local local d now t) as [r t'] eqn:Er. cbn [snd set_tenants tenants global_blocked default_quota].
  split_and!; try done. intros d'. destruct (decide (Some d = Some d')) as [[= <-]|].
  - rewrite lookup_insert_eq, E. cbn. by rewrite B1, B2, Er.
  - rewrite lookup_insert_ne by congruence. done.
Qed.
Lemma charge_effect raw dir body at_ : effect_of (ChargeRelay raw dir body at_)
  (λ _ _ ot, t ← ot; Some (set_ledger (quota t)
     (Quota.charge_and_meter (domain t) (domain t) dir body at_ (ledger t) Provenance.mkNullMeter).1.2 t)) id.
Proof using.
  intros g. cbn [run_op op_domain]. unfold charge_relay, tenant.
  destruct (tenants g !! normal raw) as [t|] eqn:E.
  - destruct (Quota.charge_and_meter _ _ _ _ _ _ _) as [[r l] m] eqn:Ec. cbn [fst snd set_tenants tenants global_blocked default_quota].
    split_and!; try done. intros d. rewrite lookup_insert. case_decide as Ed.
    + subst. rewrite decide_True by done. rewrite E. cbn. by rewrite Ec.
    + rewrite decide_False by congruence. done.
  - split_and!; try done. intros d. case_decide as Ed; [|done]. simplify_eq. by rewrite E.
Qed.

(** The change to the tenant, operation by operation. *)
Definition tenant_step (glob : gset string) (o : Op) (t : DomainTenant) : DomainTenant :=
  match o with
  | AddDomain _ _ _ _ | RemoveDomain _ | BlockGlobal _ | UnblockGlobal _ => t
  | AddRecipient email key =>
      set_aliases (AliasAllocator.reserve_directory_address email (aliases t)).2
        (set_directory (Directory.insert email key (directory t)) t)
  | RemoveRecipient email => set_directory (Directory.remove email (directory t)).2 t
  | AllocateVanity _ key local => set_aliases (AliasAllocator.allocate_vanity key local (aliases t)).2 t
  | RevokeVanity _ key => set_aliases (AliasAllocator.release_vanity key (aliases t)).2 t
  | MintAlias _ draws target corr ttl once now =>
      match AliasMap.mint_with draws target corr ttl once now (random t) with Some (_, rows) => set_random rows t | None => t end
  | BurnAlias _ token =>
      set_random (AliasMap.burn (match rsplit_once "@" token with Some (l, _) => l | None => token end) (random t)).2 t
  | BlockSender _ sender => set_blocked ({[normal sender]} ∪ blocked_senders t) t
  | UnblockSender _ sender => set_blocked (blocked_senders t ∖ {[normal sender]}) t
  | SuspendUser _ user => set_suspended ({[to_ascii_lowercase (local_part_of user)]} ∪ suspended_users t) t
  | UnsuspendUser _ user => set_suspended (suspended_users t ∖ {[to_ascii_lowercase (local_part_of user)]}) t
  | SetQuota _ q => set_ledger q (Quota.set_quota (domain t) q (ledger t)) t
  | Route sender rcpt now =>
      match split_address rcpt with
      | None => t
      | Some (local, d) =>
          if bool_decide (normal sender ∈ glob) || bool_decide (normal sender ∈ blocked_senders t) || bool_decide (local ∈ suspended_users t)
          then t else (route_local local d now t).2
      end
  | ChargeRelay _ dir body at_ =>
      set_ledger (quota t) (Quota.charge_and_meter (domain t) (domain t) dir body at_ (ledger t) Provenance.mkNullMeter).1.2 t
  end.
Definition step_of (o : Op) (glob : gset string) (dq : Admission.Quota) (ot : option DomainTenant) : option DomainTenant :=
  match o, ot with
  | RemoveDomain _, _ => None
  | AddDomain raw seed fresh selector, None =>
      match AliasAllocator.for_domain (normal raw) with
      | Ok a => Some (new_tenant (normal raw) selector (default fresh seed) dq a)
      | Err _ => None
      end
  | _, _ => tenant_step glob o <$> ot
  end.
Definition global_of (o : Op) (b : gset string) : gset string :=
  match o with
  | BlockGlobal sender => {[normal sender]} ∪ b
  | UnblockGlobal sender => b ∖ {[normal sender]}
  | _ => b
  end.

Lemma effect_ext o F F' G G' :
  effect_of o F G → (∀ glob dq ot, F glob dq ot = F' glob dq ot) → (∀ b, G b = G' b) → effect_of o F' G'.
Proof using. intros H HF HG g. destruct (H g) as (H1 & H2). rewrite <- !HG. split; [intros d; rewrite <- HF; apply H1|done]. Qed.

Ltac mut_effect := eapply effect_ext; [eapply tenant_mut_effect; [reflexivity|done|intros ?; reflexivity]| |by intros].

Lemma run_op_effect o : effect_of o (step_of o) (global_of o).
Proof using.
  destruct o as [raw seed fresh sel|raw|email key|email|raw key local|raw key|raw draws tgt corr ttl once now|raw token
                |raw sender|raw sender|sender|sender|raw user|raw user|raw q|sender rcpt now|raw dir body at_].
  3,4: destruct (split_address email) as [[l d]|] eqn:E;
    [|intros g; cbn [run_op op_domain]; unfold add_recipient, remove_recipient; rewrite E; split_and!; done].
  16: destruct (split_address rcpt) as [[l d]|] eqn:E;
    [|intros g; cbn [run_op op_domain]; unfold route; rewrite E; split_and!; done].
  11,12: intros g; cbn; split_and!; done.
  - eapply effect_ext; [apply add_effect| |by intros]. intros glob dq [t|]; cbn [step_of]; [by case_match|done].
  - eapply effect_ext; [apply remove_effect| |by intros]. by intros glob dq [].
  - eapply effect_ext; [eapply (tenant_mut_effect _ d); [cbn; by rewrite E|done|intros g; cbn; unfold add_recipient; by rewrite E]| |by intros].
    by intros glob dq [].
  - eapply effect_ext; [eapply (tenant_mut_effect _ d); [cbn; by rewrite E|done|intros g; cbn; unfold remove_recipient; by rewrite E]| |by intros].
    intros glob dq [t|]; [|done]. reflexivity.
  - eapply effect_ext.
    + apply (tenant_mut_effect _ raw (λ t, let '(r, a) := AliasAllocator.allocate_vanity key local (aliases t) in (r, set_aliases a t)));
        [done|done|]. intros g. cbn [run_op]. unfold allocate_vanity. by destruct (tenant_mut raw _ g) as [[]].
    + intros glob dq [t|]; [|done]. cbn. by destruct (AliasAllocator.allocate_vanity _ _ _).
    + by intros.
  - mut_effect.
    intros glob dq [t|]; [|done]. cbn. by destruct (AliasAllocator.release_vanity _ _).
  - mut_effect.
    intros glob dq [t|]; [|done]. cbn. by destruct (AliasMap.mint_with _ _ _ _ _ _ _) as [[]|].
  - mut_effect.
    intros glob dq [t|]; [|done]. cbn. by destruct (AliasMap.burn _ _).
  - mut_effect. by intros glob dq [].
  - mut_effect. by intros glob dq [].
  - mut_effect. by intros glob dq [].
  - mut_effect. by intros glob dq [].
  - mut_effect. by intros glob dq [].
  - eapply effect_ext; [by apply route_effect| |by intros]. intros glob dq [t|]; [|done]. cbn. rewrite E. by case_match.
  - eapply effect_ext; [apply charge_effect| |by intros]. by intros glob dq [].
Qed.

(** ** Isolation *)

Definition concerns (d : string) (o : Op) : bool := bool_decide (op_domain o = Some d) || is_global o.

(** Two gateways that agree on one domain. *)
Record agree (d : string) (g g' : MultiDomainGateway) : Prop := {
  ag_tenant : tenants g !! d = tenants g' !! d;
  ag_global : global_blocked g = global_blocked g';
  ag_quota : default_quota g = default_quota g';
}.

Lemma run_op_agree d o g g' : agree d g g' → agree d (run_op g o) (run_op g' o).
Proof using.
  intros [Ht Hg Hq]. pose proof (run_op_effect o) as HF.
  destruct (HF g) as (H1 & H2 & H3 & _), (HF g') as (H1' & H2' & H3' & _).
  split; [rewrite H1, H1', Ht, Hg, Hq; by case_decide|congruence..].
Qed.
Lemma run_op_skip d o g g' : concerns d o = false → agree d g g' → agree d (run_op g o) g'.
Proof using.
  intros [Hd%bool_decide_eq_false Hglob]%orb_false_iff [Ht Hg Hq]. pose proof (run_op_effect o) as HF.
  destruct (HF g) as (H1 & H2 & H3 & H4). split; [by rewrite H1, decide_False|rewrite H2, H4; done|congruence].
Qed.
Lemma run_ops_agree d ops g g' : agree d g g' → agree d (run_ops g ops) (run_ops g' (List.filter (concerns d) ops)).
Proof using.
  revert g g'. induction ops as [|o ops IH]; intros g g' Hag; [done|]. cbn [List.filter run_ops foldl].
  destruct (concerns d o) eqn:E; [apply IH, run_op_agree, Hag|by apply IH, run_op_skip].
Qed.
Lemma route_agree sender rcpt now local d g g' :
  split_address rcpt = Some (local, d) → agree d g g' → (route sender rcpt now g).1 = (route sender rcpt now g').1.
Proof using.
  intros Hs [Ht Hg Hq]. unfold route. rewrite Hs, Hg, Ht. case_match; [done|]. destruct (tenants g' !! d); [|done].
  repeat case_match; done.
Qed.

(** ** Well-formed tenants *)

Record tenant_ok (d : string) (t : DomainTenant) : Prop := {
  to_normal : normal d = d;
  to_domain : domain t = d;
  to_dkim : Dkim.dk_domain (dkim t) = d;
  to_alias_domain : AliasAllocator.domain (aliases t) = d;
  to_aliases : AliasAllocator.alloc_ok (aliases t);
  to_limits : Quota.limits (ledger t) = {[d := quota t]};
}.
Definition gateway_ok (g : MultiDomainGateway) : Prop := ∀ d t, tenants g !! d = Some t → tenant_ok d t.

Lemma normal_idem s : normal (normal s) = normal s.
Proof using. unfold normal. by rewrite trim_lower, to_ascii_lowercase_idem, trim_idem. Qed.

Lemma reserve_keeps email a :
  AliasAllocator.domain (AliasAllocator.reserve_directory_address email a).2 = AliasAllocator.domain a ∧
  AliasAllocator.reserved a ⊆ AliasAllocator.reserved (AliasAllocator.reserve_directory_address email a).2.
Proof using.
  unfold AliasAllocator.reserve_directory_address. destruct (rsplit_once _ _) as [[]|]; [|done]. case_match; cbn; [|done]. set_solver.
Qed.
Lemma drop_name_keeps key a :
  AliasAllocator.domain (AliasAllocator.drop_name key a).2 = AliasAllocator.domain a ∧
  AliasAllocator.reserved (AliasAllocator.drop_name key a).2 = AliasAllocator.reserved a.
Proof using. unfold AliasAllocator.drop_name. by destruct (AliasAllocator.remove_first _ _) as [[]|]. Qed.
Lemma allocate_keeps key lp a :
  AliasAllocator.domain (AliasAllocator.allocate_vanity key lp a).2 = AliasAllocator.domain a ∧
  AliasAllocator.reserved (AliasAllocator.allocate_vanity key lp a).2 = AliasAllocator.reserved a.
Proof using.
  unfold AliasAllocator.allocate_vanity. destruct (AliasAllocator.check_vanity _ _); [|done]. case_match; [by case_match|].
  cbn [snd AliasAllocator.domain AliasAllocator.reserved]. apply drop_name_keeps.
Qed.
Lemma allocate_reserved key lp a :
  to_ascii_lowercase lp ∈ AliasAllocator.reserved a → ∃ e, AliasAllocator.allocate_vanity key lp a = (Err e, a).
Proof using.
  intros Hr. unfold AliasAllocator.allocate_vanity, AliasAllocator.check_vanity.
  rewrite (bool_decide_true (_ ∈ AliasAllocator.reserved a)) by done.
  destruct (contains_char _ _); [by eexists|]. destruct (negb _); [by eexists|]. destruct (_ || _); by eexists.
Qed.
Lemma release_keeps key a :
  AliasAllocator.domain (AliasAllocator.release_vanity key a).2 = AliasAllocator.domain a ∧
  AliasAllocator.reserved (AliasAllocator.release_vanity key a).2 = AliasAllocator.reserved a.
Proof using.
  unfold AliasAllocator.release_vanity. pose proof (drop_name_keeps key a). by destruct (AliasAllocator.drop_name _ _) as [[]].
Qed.
Lemma charge_limits {M} `{Provenance.GatewayMeter M} account d dir body at_ l (m : M) :
  Quota.limits (Quota.charge_and_meter account d dir body at_ l m).1.2 = Quota.limits l.
Proof using.
  unfold Quota.charge_and_meter, Quota.try_charge. destruct (Quota.limits l !! account); [|done]. by repeat case_match; simplify_eq.
Qed.

(** What a step leaves alone. *)
Lemma route_local_keeps local d now t : ∃ rows, (route_local local d now t).2 = set_random rows t.
Proof using.
  assert (t = set_random (random t) t) as Ht by by destruct t.
  unfold route_local. destruct (Directory.resolve _ _); [by exists (random t)|].
  destruct (AliasMap.resolve _ _ _) as [[|[]] rows]; [by eexists|]. case_match; by eexists.
Qed.
Lemma tenant_step_keeps glob o t :
  domain (tenant_step glob o t) = domain t ∧ dkim (tenant_step glob o t) = dkim t ∧
  AliasAllocator.domain (aliases (tenant_step glob o t)) = AliasAllocator.domain (aliases t) ∧
  AliasAllocator.reserved (aliases t) ⊆ AliasAllocator.reserved (aliases (tenant_step glob o t)) ∧
  (AliasAllocator.alloc_ok (aliases t) → AliasAllocator.alloc_ok (aliases (tenant_step glob o t))).
Proof using.
  destruct o; cbn [tenant_step]; try done.
  - destruct (reserve_keeps email (aliases t)). split_and!; try done.
    apply (AliasAllocator.run_op_ok (aliases t) (AliasAllocator.OpReserveAddress email)).
  - destruct (allocate_keeps key local (aliases t)) as [H1 H2]. split_and!; try done; cbn; [by rewrite H2|].
    apply AliasAllocator.allocate_vanity_ok.
  - destruct (release_keeps key (aliases t)) as [H1 H2]. split_and!; try done; cbn; [by rewrite H2|].
    apply (AliasAllocator.run_op_ok (aliases t) (AliasAllocator.OpRelease key)).
  - by destruct (AliasMap.mint_with _ _ _ _ _ _ _) as [[]|].
  - destruct (split_address rcpt) as [[l d]|]; [|done]. case_match; [done|].
    by destruct (route_local_keeps l d now t) as [rows ->].
Qed.
Lemma tenant_step_limits glob o t :
  Quota.limits (ledger t) = {[domain t := quota t]} →
  Quota.limits (ledger (tenant_step glob o t)) = {[domain t := quota (tenant_step glob o t)]}.
Proof using.
  intros Hl. destruct o; cbn [tenant_step]; try done.
  - by destruct (AliasMap.mint_with _ _ _ _ _ _ _) as [[]|].
  - cbn. rewrite Hl. apply insert_singleton_eq.
  - destruct (split_address rcpt) as [[l d]|]; [|done]. case_match; [done|].
    by destruct (route_local_keeps l d now t) as [rows ->].
  - cbn [set_ledger ledger quota]. by rewrite charge_limits.
Qed.
Lemma tenant_step_ok glob o d t : tenant_ok d t → tenant_ok d (tenant_step glob o t).
Proof using.
  intros []. destruct (tenant_step_keeps glob o t) as (H1 & H2 & H3 & _ & H4). split; try congruence; [by apply H4|].
  rewrite <- to_domain0. apply tenant_step_limits. by rewrite to_domain0.
Qed.
Lemma new_tenant_ok raw selector seed q a :
  AliasAllocator.for_domain (normal raw) = Ok a → tenant_ok (normal raw) (new_tenant (normal raw) selector seed q a).
Proof using.
  intros Ha. assert (AliasAllocator.domain a = normal raw) as Hd.
  { revert Ha. unfold AliasAllocator.for_domain. fold (normal (normal raw)). case_match; [done|]. intros [= <-]. apply normal_idem. }
  split; try done; [apply normal_idem|].
  apply AliasAllocator.reachable_ok. by econstructor.
Qed.

Lemma gateway_op_ok g o : gateway_ok g → gateway_ok (run_op g o).
Proof using.
  intros Hok d t. destruct (run_op_effect o g) as [-> _]. case_decide as Hd; [|apply Hok].
  destruct (tenants g !! d) as [t0|] eqn:E.
  - intros H. assert (t = tenant_step (global_blocked g) o t0 ∨ t = t0) as [->| ->]
      by (destruct o; cbn in H; simplify_eq; auto); [apply tenant_step_ok|]; by apply Hok.
  - destruct o; try done. cbn in Hd |- *. simplify_eq. destruct (AliasAllocator.for_domain _) eqn:Ha; [|done].
    intros [= <-]. by apply new_tenant_ok.
Qed.
Lemma run_ops_ok g ops : gateway_ok g → gateway_ok (run_ops g ops).
Proof using. revert g. induction ops as [|o ops IH]; intros g Hg; [done|]. by apply IH, gateway_op_ok. Qed.

(** ** A recipient's name *)

Definition removes (d : string) (o : Op) : Prop := match o with RemoveDomain raw => normal raw = d | _ => False end.
Definition touches (d email : string) (o : Op) : Prop :=
  match o with AddRecipient e _ | RemoveRecipient e => normal e = email | _ => removes d o end.

Lemma removes_touches d email o : removes d o → touches d email o.
Proof using. by destruct o. Qed.
Lemma run_op_keeps d o g t :
  tenants g !! d = Some t → ¬ removes d o →
  tenants (run_op g o) !! d = Some (if decide (op_domain o = Some d) then tenant_step (global_blocked g) o t else t).
Proof using.
  intros Ht Hr. destruct (run_op_effect o g) as [-> _]. rewrite Ht. case_decide as Hd; [|done].
  destruct o; try done. cbn in Hd, Hr. by simplify_eq.
Qed.
Lemma run_ops_invariant (P : DomainTenant → Prop) (Q : Op → Prop) d g ops t :
  (∀ glob o t, Q o → P t → P (tenant_step glob o t)) → (∀ o, Q o → ¬ removes d o) →
  Forall Q ops → tenants g !! d = Some t → P t → ∃ t', tenants (run_ops g ops) !! d = Some t' ∧ P t'.
Proof using.
  intros HP HQ HF. revert g t. induction HF as [|o ops Ho HF IH]; intros g t Ht Hp; [by exists t|].
  eapply IH; [apply run_op_keeps; [done|by apply HQ]|]. case_decide; [by apply HP|done].
Qed.
Lemma step_directory d email glob o t :
  ¬ touches d email o → Directory.entries (directory (tenant_step glob o t)) !! email = Directory.entries (directory t) !! email.
Proof using.
  intros Ht. destruct o; cbn [tenant_step]; try done.
  - cbn. by rewrite lookup_insert_ne.
  - cbn. by rewrite lookup_delete_ne.
  - by destruct (AliasMap.mint_with _ _ _ _ _ _ _) as [[]|].
  - destruct (split_address rcpt) as [[l d']|]; [|done]. case_match; [done|].
    by destruct (route_local_keeps l d' now t) as [rows ->].
Qed.

Lemma route_directory L D sender rcpt now g t key :
  split_address rcpt = Some (L, D) → tenants g !! D = Some t →
  Directory.entries (directory t) !! clean_address L D = Some key → normal (clean_address L D) = clean_address L D →
  (route sender rcpt now g).1 =
    if bool_decide (normal sender ∈ global_blocked g ∪ blocked_senders t) then Err SenderBlocked
    else if bool_decide (L ∈ suspended_users t) then Err UserSuspended else Ok (ToDirectory key).
Proof using.
  intros Hs Ht Hk Hn. unfold route. rewrite Hs, Ht.
  destruct (decide (normal sender ∈ global_blocked g)).
  { rewrite bool_decide_true by done. rewrite bool_decide_true by set_solver. done. }
  rewrite (bool_decide_false (normal sender ∈ global_blocked g)) by done.
  destruct (decide (normal sender ∈ blocked_senders t)).
  { rewrite bool_decide_true by done. rewrite bool_decide_true by set_solver. done. }
  rewrite (bool_decide_false (normal sender ∈ blocked_senders t)) by done.
  rewrite (bool_decide_false (normal sender ∈ _ ∪ _)) by set_solver.
  case_match; [done|]. unfold route_local, Directory.resolve, Directory.key_of. fold (normal (clean_address L D)).
  by rewrite Hn, Hk.
Qed.

Section recipient.
Context (l d : string) (Hl : addr_text l) (Hd : addr_text d).
Local Notation L := (to_ascii_lowercase l).
Local Notation D := (to_ascii_lowercase d).

Lemma normal_domain : normal D = D.
Proof using Hd. unfold normal. rewrite trim_lower, to_ascii_lowercase_idem, trim_printable; [done|by apply addr_text_printable]. Qed.

(** The state right after a recipient is added. *)
Lemma add_recipient_tenant g key g1 :
  gateway_ok g → add_recipient (clean_address l d) key g = (Ok tt, g1) →
  ∃ t, tenants g1 !! D = Some t ∧ Directory.entries (directory t) !! clean_address L D = Some key ∧ L ∈ AliasAllocator.reserved (aliases t).
Proof using Hl Hd.
  intros Hg. unfold add_recipient. rewrite split_clean by done. unfold tenant_mut. rewrite normal_domain.
  destruct (tenants g !! D) as [t|] eqn:E; [|done]. intros [= <-]. cbn [set_tenants tenants]. eexists. rewrite lookup_insert_eq.
  split; [done|]. cbn [set_aliases set_directory directory aliases Directory.insert Directory.entries]. split.
  - unfold Directory.key_of. fold (normal (clean_address l d)). by rewrite normal_clean, lookup_insert_eq.
  - unfold AliasAllocator.reserve_directory_address, clean_address. rewrite rsplit_once_app by by apply addr_text_no.
    destruct (Hg _ _ E). rewrite to_alias_domain0. rewrite trim_printable by by apply addr_text_printable.
    unfold eq_ignore_ascii_case. rewrite to_ascii_lowercase_idem, bool_decide_true by done. cbn.
    rewrite trim_printable by by apply addr_text_printable. set_solver.
Qed.
End recipient.

(** A gateway some history of operations leads to. *)
Definition history (q : Admission.Quota) (ops : list Op) : MultiDomainGateway := run_ops (with_default_quota q MultiDomainGateway_new) ops.
Lemma history_ok q ops : gateway_ok (history q ops).
Proof using. apply run_ops_ok. intros d t. cbn. by rewrite lookup_empty. Qed.

(** ** Charging and metering *)

Record Relay := { r_domain : string; r_dir : Provenance.BridgeDirection; r_body : bytes; r_at : Z }.
Definition charge_of (r : Relay) : Quota.Charge :=
  {| Quota.ch_account := normal (r_domain r); Quota.ch_domain := normal (r_domain r); Quota.ch_dir := r_dir r;
     Quota.ch_body := r_body r; Quota.ch_at := r_at r |}.

(** Charge relays in turn: those admitted, the gateway and the meter. *)
Fixpoint charge_relays (rs : list Relay) (g : MultiDomainGateway) (m : UsageMeter)
    : list Quota.Charge * MultiDomainGateway * UsageMeter :=
  match rs with
  | [] => ([], g, m)
  | r :: rs =>
      let '(res, g, m) := charge_relay (r_domain r) (r_dir r) (r_body r) (r_at r) g m in
      let '(ok, g, m) := charge_relays rs g m in
      ((if is_ok res then [charge_of r] else []) ++ ok, g, m)
  end.

Definition is_inbound (dir : Provenance.BridgeDirection) : bool := match dir with Provenance.Inbound => true | Provenance.Outbound => false end.
Definition n_dir (b : bool) (d : string) (cs : list Quota.Charge) : Z :=
  Z.of_nat (length (filter (λ c, is_inbound (Quota.ch_dir c) = b) (Quota.of_account d cs))).
Definition counted (d : string) (cs : list Quota.Charge) : DomainUsage :=
  {| inbound := U64.wrap (n_dir true d cs); outbound := U64.wrap (n_dir false d cs); du_messages := U64.wrap (Quota.n_messages d cs) |}.

Record books (g : MultiDomainGateway) (m : UsageMeter) (done : list Quota.Charge) : Prop := {
  bk_ok : gateway_ok g;
  bk_ledger d t : tenants g !! d = Some t → ∀ a, Quota.accounted (ledger t) (Quota.of_account d done) a;
  bk_meter d : default DomainUsage_default (inner m !! d) = counted d done;
  bk_unserved d : tenants g !! d = None → Quota.of_account d done = [];
}.

Lemma ok_lower d t : tenant_ok d t → to_ascii_lowercase d = d.
Proof using. intros [H]. rewrite <- H at 2. rewrite <- H at 1. unfold normal. by rewrite to_ascii_lowercase_idem. Qed.

Lemma counted_snoc d done c :
  counted d (done ++ [c]) = if decide (Quota.ch_account c = d) then count (Quota.ch_dir c) (counted d done) else counted d done.
Proof using.
  unfold counted, n_dir, Quota.n_messages. rewrite Quota.of_account_snoc. case_decide; [|by rewrite app_nil_r].
  rewrite filter_app, !length_app, filter_app, length_app. unfold count.
  destruct (Quota.ch_dir c) eqn:E; rewrite !filter_cons, !filter_nil, E; cbn [is_inbound decide length];
    rewrite ?decide_True, ?decide_False by done; cbn [length inbound outbound du_messages]; f_equal; try (f_equal; lia);
    rewrite Nat2Z.inj_add; unfold U64.wrap; by rewrite Zplus_mod_idemp_l.
Qed.

Lemma of_account_step d done r (b : bool) :
  Quota.of_account d (done ++ if b then [charge_of r] else []) =
  Quota.of_account d done ++ if decide (normal (r_domain r) = d) then (if b then [charge_of r] else []) else [].
Proof using.
  destruct b; [by rewrite Quota.of_account_snoc|]. by destruct (decide _); rewrite !app_nil_r.
Qed.
Lemma charge_meter d t r (m : UsageMeter) done (res : result Quota.QuotaError Quota.Usage) :
  tenant_ok d t → normal (r_domain r) = d → (∀ e, default DomainUsage_default (inner m !! e) = counted e done) →
  ∀ e, default DomainUsage_default (inner (if is_ok res then
         meter_record {| Provenance.me_direction := r_dir r; Provenance.me_account := d; Provenance.me_domain := d;
                         Provenance.me_msg_digest := Provenance.msg_digest (r_body r); Provenance.me_at := r_at r |} m else m) !! e)
       = counted e (done ++ if is_ok res then [charge_of r] else []).
Proof using.
  intros Hok Hr Hm e. destruct res; cbn [is_ok]; [|by rewrite app_nil_r]. rewrite counted_snoc. cbn. rewrite Hr, (ok_lower d t) by done.
  rewrite lookup_insert. case_decide as He; [|apply Hm]. subst e. cbn. by rewrite Hm.
Qed.

Lemma charge_relay_books r g m done :
  books g m done →
  let '(res, g', m') := charge_relay (r_domain r) (r_dir r) (r_body r) (r_at r) g m in
  books g' m' (done ++ if is_ok res then [charge_of r] else []) ∧
  ∀ d, quota <$> tenants g' !! d = quota <$> tenants g !! d.
Proof using.
  intros [Hok Hled Hmet Hun]. unfold charge_relay, tenant. set (d := normal (r_domain r)).
  destruct (tenants g !! d) as [t|] eqn:Ht; [|split; [by rewrite app_nil_r|done]].
  pose proof (Hok _ _ Ht) as Htok. pose proof (to_domain _ _ Htok) as Hdom. rewrite Hdom.
  unfold Quota.charge_and_meter.
  destruct (Quota.try_charge d _ (ledger t)) as [res l'] eqn:Hc.
  pose proof (λ a, Quota.try_charge_accounted (ledger t) _ (charge_of r) a res l' Hc (Hled _ _ Ht)) as Hacc.
  assert (books (set_tenants (<[d := set_ledger (quota t) l' t]> (tenants g)) g)
    (if is_ok res then meter_record {| Provenance.me_direction := r_dir r; Provenance.me_account := d; Provenance.me_domain := d;
       Provenance.me_msg_digest := Provenance.msg_digest (r_body r); Provenance.me_at := r_at r |} m else m)
    (done ++ if is_ok res then [charge_of r] else [])) as Hb.
  { split.
    - intros d' t'. cbn. intros [[<- <-]|[_ H']]%lookup_insert_Some; [|by apply Hok]. destruct Htok. split; try done. cbn.
      by rewrite (proj1 (Hacc d)).
    - intros d' t'. cbn. intros [[<- <-]|[Hne H']]%lookup_insert_Some a; rewrite of_account_step.
      + rewrite decide_True by done. apply Hacc.
      + rewrite decide_False, app_nil_r by done. by eapply Hled.
    - by eapply charge_meter.
    - intros d'. cbn. intros [H' Hne]%lookup_insert_None. rewrite of_account_step, decide_False, app_nil_r by done. by apply Hun. }
  assert (∀ d', quota <$> <[d := set_ledger (quota t) l' t]> (tenants g) !! d' = quota <$> tenants g !! d') as Hq.
  { intros d'. rewrite lookup_insert. case_decide as E; [|done]. subst d'. by rewrite Ht. }
  destruct res; split; try exact Hb; exact Hq.
Qed.

Lemma charge_relays_books rs g m done :
  books g m done →
  let '(ok, g', m') := charge_relays rs g m in
  books g' m' (done ++ ok) ∧ ∀ d, quota <$> tenants g' !! d = quota <$> tenants g !! d.
Proof using.
  revert g m done. induction rs as [|r rs IH]; intros g m done Hb; cbn [charge_relays]; [by rewrite app_nil_r|].
  pose proof (charge_relay_books r g m done Hb) as H1. destruct (charge_relay _ _ _ _ g m) as [[res g1] m1]. destruct H1 as [H1 Hq1].
  specialize (IH g1 m1 _ H1). destruct (charge_relays rs g1 m1) as [[ok g2] m2]. destruct IH as [H2 Hq2].
  rewrite app_assoc. split; [done|]. intros d. by rewrite Hq2.
Qed.

(** ** Properties *)

(** C33: Tenants are isolated.  Whatever is done to the gateway, the state of a domain,
    the routing of every recipient of the domain and the signatures made for it
    are what they would be if only the operations that name the domain, and the
    global blocklist, had been run. *)
Theorem domain_isolation d ops g :
  let g1 := run_ops g ops in
  let g2 := run_ops g (List.filter (concerns d) ops) in
  tenants g1 !! d = tenants g2 !! d ∧
  (∀ sender rcpt now local, split_address rcpt = Some (local, d) → (route sender rcpt now g1).1 = (route sender rcpt now g2).1) ∧
  (∀ raw message t, normal raw = d → dkim_sign raw message t g1 = dkim_sign raw message t g2).
Proof using.
  assert (agree d (run_ops g ops) (run_ops g (List.filter (concerns d) ops))) as Hag by by apply run_ops_agree.
  split_and!.
  - apply Hag.
  - intros sender rcpt now local Hs. by eapply route_agree.
  - intros raw message t Hr. unfold dkim_sign, tenant. rewrite Hr. by rewrite (ag_tenant _ _ _ Hag).
Qed.

(** A recipient keeps its address.  Once [l@d] is in the directory, and whatever
    follows short of replacing or removing that very address or its domain (other
    recipients, vanity and random aliases, suspensions, other domains), mail to
    it, in any case and in angle brackets or not, reaches its key: refused only
    when the sender is blocked or the user suspended, and never diverted to an
    alias. *)
Theorem recipient_routed q ops0 l d key g1 ops sender rcpt now :
  addr_text l → addr_text d →
  add_recipient (clean_address l d) key (history q ops0) = (Ok tt, g1) →
  Forall (λ o, ¬ touches (to_ascii_lowercase d) (clean_address (to_ascii_lowercase l) (to_ascii_lowercase d)) o) ops →
  split_address rcpt = Some (to_ascii_lowercase l, to_ascii_lowercase d) →
  ∃ t, tenants (run_ops g1 ops) !! to_ascii_lowercase d = Some t ∧
    (route sender rcpt now (run_ops g1 ops)).1 =
      if bool_decide (normal sender ∈ global_blocked (run_ops g1 ops) ∪ blocked_senders t) then Err SenderBlocked
      else if bool_decide (to_ascii_lowercase l ∈ suspended_users t) then Err UserSuspended
      else Ok (ToDirectory key).
Proof using.
  intros Hl Hd Hadd Hops Hs. destruct (add_recipient_tenant l d Hl Hd _ _ _ (history_ok q ops0) Hadd) as (t & Ht & Hk & _).
  destruct (run_ops_invariant (λ t, Directory.entries (directory t) !! clean_address (to_ascii_lowercase l) (to_ascii_lowercase d) = Some key)
    _ _ g1 ops t (λ glob o t Ho Ht, eq_trans (step_directory _ _ glob o t Ho) Ht)
    (λ o Ho Hr, Ho (removes_touches _ _ o Hr)) Hops Ht Hk) as (t' & Ht' & Hk').
  exists t'. split; [done|]. apply (route_directory _ (to_ascii_lowercase d)); try done.
  rewrite <- normal_clean by done. by rewrite normal_idem.
Qed.

(** The local-part of a recipient is never handed out as a vanity name, also not
    after the recipient is removed, as long as the domain is served: asking for
    it, in any case, is an error and the alias table does not hold it. *)
Theorem recipient_name_reserved q ops0 l d key g1 ops pk lp :
  addr_text l → addr_text d →
  add_recipient (clean_address l d) key (history q ops0) = (Ok tt, g1) →
  Forall (λ o, ¬ removes (to_ascii_lowercase d) o) ops →
  to_ascii_lowercase lp = to_ascii_lowercase l →
  (∃ e, (allocate_vanity d pk lp (run_ops g1 ops)).1 = Err (Alias e)) ∧
  ∃ t, tenants (run_ops g1 ops) !! to_ascii_lowercase d = Some t ∧ AliasAllocator.vanity (aliases t) !! to_ascii_lowercase l = None.
Proof using.
  intros Hl Hd Hadd Hops Hlp. destruct (add_recipient_tenant l d Hl Hd _ _ _ (history_ok q ops0) Hadd) as (t & Ht & _ & Hr).
  destruct (run_ops_invariant (λ t, to_ascii_lowercase l ∈ AliasAllocator.reserved (aliases t)) _ _ g1 ops t
    (λ glob o t _ H, proj1 (proj2 (proj2 (proj2 (tenant_step_keeps glob o t)))) _ H)
    (λ o H, H) Hops Ht Hr) as (t' & Ht' & Hr').
  assert (gateway_ok (run_ops g1 ops)) as Hok.
  { apply run_ops_ok. replace g1 with (run_op (history q ops0) (AddRecipient (clean_address l d) key)) by (cbn; by rewrite Hadd).
    apply gateway_op_ok, history_ok. }
  split.
  - unfold allocate_vanity, tenant_mut. unfold normal. rewrite trim_printable by by apply addr_text_printable. rewrite Ht'.
    rewrite <- Hlp in Hr'. destruct (allocate_reserved pk lp _ Hr') as [e ->]. by exists e.
  - exists t'. split; [done|]. destruct (Hok _ _ Ht') as [_ _ _ _ (_ & _ & _ & _ & Hv) _].
    destruct (AliasAllocator.vanity (aliases t') !! _) eqn:E; [|done]. by destruct (Hv _ _ E).
Qed.

(** [add_recipient] accepts an address in angle brackets, and mail to it is not
    delivered: the directory is keyed by the bracketed text, while routing looks up
    the bare address. *)
Theorem bracketed_recipient_unreachable l d key g t :
  addr_text l → addr_text d → tenants g !! to_ascii_lowercase d = Some t →
  Directory.resolve (directory t) (clean_address l d) = None →
  ∃ g1, add_recipient (bracketed (clean_address l d)) key g = (Ok tt, g1) ∧
    ∀ sender rcpt now k, split_address rcpt = Some (to_ascii_lowercase l, to_ascii_lowercase d) →
      (route sender rcpt now g1).1 ≠ Ok (ToDirectory k).
Proof using.
  intros Hl Hd Ht Hk. unfold add_recipient. rewrite split_bracketed by done. unfold tenant_mut. rewrite normal_domain, Ht by done.
  eexists. split; [done|]. intros sender rcpt now k Hs. unfold route. rewrite Hs. cbn [set_tenants tenants]. rewrite lookup_insert_eq.
  case_match; [done|]. case_match; [done|]. case_match; [done|]. unfold route_local. unfold Directory.resolve at 1, Directory.key_of.
  cbn [set_aliases set_directory directory Directory.insert Directory.entries]. unfold Directory.key_of.
  rewrite lookup_insert_ne.
  - unfold Directory.resolve, Directory.key_of in Hk. fold (normal (clean_address l d)) in Hk. rewrite normal_clean in Hk by done.
    fold (normal (clean_address (to_ascii_lowercase l) (to_ascii_lowercase d))). rewrite <- normal_clean by done. rewrite normal_idem, normal_clean, Hk by done.
    destruct (AliasMap.resolve _ _ _) as [[|[]]]; [done|]. by destruct (AliasAllocator.resolve _ _ _).
  - rewrite trim_printable by by apply bracketed_printable, clean_printable.
    fold (normal (clean_address (to_ascii_lowercase l) (to_ascii_lowercase d))). rewrite <- normal_clean by done. rewrite normal_idem, normal_clean by done.
    unfold bracketed. cbn [to_ascii_lowercase]. intros E. revert E. unfold clean_address. destruct l as [|x r]; [by destruct Hl|]. cbn [to_ascii_lowercase]. rewrite str_app_cons. intros [= E _].
    revert E. destruct Hl as [Hl _]. cbn in Hl. apply andb_true_iff in Hl as [Hx _]. clear -Hx.
    destruct x as [[] [] [] [] [] [] [] []]; vm_compute in Hx |- *; done.
Qed.

(** The books agree.  From a gateway that has relayed nothing and an empty meter,
    whatever is charged to whatever domain: a domain that is not served is
    admitted nothing; a served one never exceeds the caps of its quota; its ledger
    shows exactly what was admitted; and the meter the operator bills from counts
    exactly the same relays, by direction and in total, for that domain and for no
    other. *)
Theorem relay_books_agree rs q ops raw :
  let g := history q ops in
  (∀ d t, tenants g !! d = Some t → Quota.usages (ledger t) = ∅) →
  let '(ok, g', m') := charge_relays rs g UsageMeter_new in
  let d := normal raw in
  meter_usage raw m' = counted d ok ∧
  match tenants g !! d with
  | None => Quota.of_account d ok = []
  | Some t =>
      (0 < Admission.hard_cap_messages (quota t) < U64.MAX → Quota.n_messages d ok ≤ Admission.hard_cap_messages (quota t)) ∧
      (0 < Admission.hard_cap_bytes (quota t) < U64.MAX → Quota.n_bytes d ok ≤ Admission.hard_cap_bytes (quota t)) ∧
      (tenant_usage <$> tenants g' !! d) = Some {| Quota.messages := Z.min (Quota.n_messages d ok) U64.MAX;
                                                   Quota.u_bytes := Z.min (Quota.n_bytes d ok) U64.MAX |}
  end.
Proof using.
  intros g Hfresh. pose proof (charge_relays_books rs g UsageMeter_new []) as H.
  destruct (charge_relays rs g UsageMeter_new) as [[ok g'] m']. destruct H as [[Hok Hled Hmet Hun] Hq].
  { split; [apply history_ok| |done|done]. intros d t Ht a. pose proof (Hfresh _ _ Ht) as Hu.
    split; unfold Quota.usage, Quota.n_messages, Quota.n_bytes; rewrite ?Hu, ?lookup_empty; cbn; unfold sum_Z; cbn; try done. intros. lia. }
  cbn [app] in *. split; [apply Hmet|]. set (d := normal raw). specialize (Hq d).
  destruct (tenants g !! d) as [t|] eqn:Ht, (tenants g' !! d) as [t'|] eqn:Ht'; try done; [|by apply Hun].
  destruct (Hok _ _ Ht') as [_ Hdom _ _ _ Hlim]. destruct (Hled _ _ Ht' d) as [Hm Hb Hcap _].
  assert (∀ cs, Quota.of_account d (Quota.of_account d cs) = Quota.of_account d cs) as Hidem
    by (intros; unfold Quota.of_account; rewrite list_filter_filter; apply list_filter_iff; naive_solver).
  unfold Quota.n_messages, Quota.n_bytes in *. rewrite !Hidem in *. cbn in Hq. injection Hq as Hq. rewrite <- Hq.
  destruct (Hcap (quota t')) as [C1 C2]; [rewrite Hlim; apply lookup_singleton_eq|].
  split_and!; try done. cbn. unfold tenant_usage. rewrite Hdom. destruct (Quota.usage d (ledger t')). cbn in *. by subst.
Qed.
End gateway.
End MultiDomain.

(** ** Witnesses *)

Module MultiDomainWitness.
Import MultiDomain DkimWitness ProvenanceWitness.

#[local] Existing Instance toy_crypto.
#[export] Instance seed : DkimSeed := {| ed_from_seed _ := tt |}.
#[export] Instance iter : HashMapIter := {| hm_iter := λ V m, map_to_list m; hm_iter_perm := λ V m, reflexivity _ |}.

Definition q : Admission.Quota := Quota.Quota_messages 0 2.
Definition ops : list Op := [AddDomain "Host.net" None [] ""; AddDomain "other.org" None [] "s1"; BlockSender "other.org" "spam@x.y"].
Definition g : MultiDomainGateway := history q ops.
Definition alice : RecipientKey := {| rk_ik := [Byte.x01]; rk_seal_pub := [Byte.x02] |}.
Definition later : list Op := [SuspendUser "other.org" "alice"; AllocateVanity "host.net" [Byte.x07] "bob"; RemoveDomain "other.org"].

Lemma recipient_routed_witness :
  (route "someone@x.y" "<ALICE@host.net>" 0 (run_ops (add_recipient "Alice@Host.net" alice g).2 later)).1 = Ok (ToDirectory alice).
Proof.
  destruct (recipient_routed q ops "Alice" "Host.net" alice (add_recipient "Alice@Host.net" alice g).2 later
    "someone@x.y" "<ALICE@host.net>" 0) as (t & Ht & ->).
  - by split.
  - by split.
  - rewrite (surjective_pairing (add_recipient _ _ _)) at 1. f_equal.
  - repeat constructor; intros H; vm_compute in H; (contradiction || discriminate).
  - vm_compute. reflexivity.
  - apply (f_equal (fmap (λ t, (blocked_senders t, suspended_users t)))) in Ht. vm_compute in Ht.
    destruct t. simplify_eq. vm_compute. reflexivity.
Defined.

Lemma recipient_name_reserved_witness :
  ∃ e, (allocate_vanity "Host.net" [Byte.x07] "ALICE"
          (run_ops (add_recipient "Alice@Host.net" alice g).2 [RemoveRecipient "alice@host.net"])).1 = Err (Alias e).
Proof.
  destruct (recipient_name_reserved q ops "Alice" "Host.net" alice (add_recipient "Alice@Host.net" alice g).2
    [RemoveRecipient "alice@host.net"] [Byte.x07] "ALICE") as [H _].
  - by split.
  - by split.
  - rewrite (surjective_pairing (add_recipient _ _ _)) at 1. f_equal.
  - repeat constructor; intros H; vm_compute in H; (contradiction || discriminate).
  - reflexivity.
  - exact H.
Defined.

Lemma bracketed_recipient_unreachable_witness :
  (add_recipient "<alice@host.net>" alice g).1 = Ok tt ∧
  ∀ k, (route "someone@x.y" "<alice@host.net>" 0 (add_recipient "<alice@host.net>" alice g).2).1 ≠ Ok (ToDirectory k).
Proof.
  assert (is_Some (tenants g !! "host.net"%string)) as [t Ht] by (apply (bool_decide_unpack _); vm_compute; exact I).
  destruct (bracketed_recipient_unreachable "alice" "host.net" alice g t) as (g1 & Hadd & H).
  - by split.
  - by split.
  - exact Ht.
  - apply (f_equal (fmap directory)) in Ht. vm_compute in Ht. destruct t. simplify_eq. reflexivity.
  - change (bracketed (clean_address "alice" "host.net")) with "<alice@host.net>"%string in Hadd. rewrite Hadd.
    split; [reflexivity|]. intros k. apply H. vm_compute. reflexivity.
Defined.

Definition relay (d : string) : Relay := {| r_domain := d; r_dir := Provenance.Inbound; r_body := [Byte.x01]; r_at := 0 |}.
Definition relays : list Relay := [relay "host.net"; relay "nobody.org"; relay "HOST.net"; relay "host.net"].
Lemma relay_books_agree_witness :
  meter_usage "host.net" (charge_relays relays g UsageMeter_new).2 = {| inbound := 2; outbound := 0; du_messages := 2 |} ∧
  Quota.n_messages "host.net" (charge_relays relays g UsageMeter_new).1.1 ≤ 2.
Proof.
  pose proof (relay_books_agree relays q ops "host.net") as H. fold g in H. cbv zeta in H.
  destruct (charge_relays relays g UsageMeter_new) as [[ok g'] m'] eqn:E. destruct H as [Hm Ht].
  - assert (map_Forall (λ _ t, size (Quota.usages (ledger t)) = 0%nat) (tenants g)) as Hs
      by (apply (bool_decide_unpack _); vm_compute; exact I).
    intros d t Ht. by apply map_size_empty_iff, (Hs d t).
  - split; [change m' with ((ok, g', m').2); rewrite <- E; vm_compute; reflexivity|].
    change (normal "host.net") with "host.net"%string in Ht.
    assert (is_Some (tenants g !! "host.net"%string)) as [t Et] by (apply (bool_decide_unpack _); vm_compute; exact I).
    rewrite Et in Ht.
    assert (Some (quota t) = Some q) as Hq%(inj Some)
      by (change (Some (quota t)) with (quota <$> Some t); rewrite <- Et; vm_compute; reflexivity).
    destruct Ht as [Ht _]. rewrite Hq in Ht.
    apply Ht. vm_compute. split; reflexivity.
Defined.
End MultiDomainWitness.
