(* ===== verification/Dns.v ===== *)
(** * DNS messages

    [crates/gateway/src/dns.rs] and [idn.rs]: the query encoder, the response
    parser with its name compression, the record decoders, and one exchange of the
    UDP client.  [idna], the UTS-46 processor, is an external crate; the datagram
    that comes back and the random query id are inputs.  A packet has at most 4096
    bytes, so the [usize] sums of the parser do not overflow: positions are [nat]. *)

From Stdlib Require Import ZArith Lia Ascii String.
From stdpp Require Import base decidable option sets list strings gmap.
From S2P Require Import Prelude RustStr RustText.
Local Open Scope Z_scope.

(** [idna::domain_to_ascii_cow(.., AsciiDenyList::URL)], the error as its text. *)
Class Idna := { idna_to_ascii : string → result string string }.

Module Idn.
Inductive IdnError :=
| NotConvertible (domain reason : string)
| LabelTooLong (domain label : string)
| NameTooLong (domain : string).

Definition strip_dot (s : string) : string := without_suffix "." s.
Fixpoint check_labels (domain : string) (labels : list string) : result IdnError unit :=
  match labels with
  | [] => Ok tt
  | label :: labels => if 63 <? str_len label then Err (LabelTooLong domain label) else check_labels domain labels
  end.
Definition domain_to_ascii `{Idna} (domain : string) : result IdnError string :=
  ascii ← map_err (NotConvertible domain) (idna_to_ascii domain);
  let bare := strip_dot ascii in
  if 253 <? str_len bare then Err (NameTooLong domain)
  else _ ← check_labels domain (split_char "." bare); Ok ascii.
End Idn.

Module Dns.
Definition CLASS_IN : Z := 1.
Definition TYPE_A : Z := 1.
Definition TYPE_MX : Z := 15.
Definition TYPE_TXT : Z := 16.
Definition TYPE_AAAA : Z := 28.

Inductive DnsError := Truncated | BadPointer | Rcode (code : Z).

Record ResourceRecord := { name : string; rtype : Z; rdata : bytes; rdata_offset : nat }.
Record DnsMessage := { id : Z; rcode : Z; answers : list ResourceRecord }.

(** ** Encoding *)

Definition encode_label (label : string) : bytes :=
  if bool_decide (label = EmptyString) then []
  else
    let len := Nat.min (length (as_bytes label)) 63 in
    z2b (Z.of_nat len) :: take len (as_bytes label).
Definition encode_labels (labels : list string) : bytes := concat (encode_label <$> labels) ++ [Byte.x00].
Definition encode_name (name : string) : bytes := encode_labels (split_char "." (trim_end_matches "." name)).
Definition encode_query (id : Z) (qname : string) (qtype : Z) : bytes :=
  u16_to_be_bytes id ++ u16_to_be_bytes 256 ++ u16_to_be_bytes 1 ++ u16_to_be_bytes 0 ++ u16_to_be_bytes 0 ++ u16_to_be_bytes 0
  ++ encode_name qname ++ u16_to_be_bytes qtype ++ u16_to_be_bytes CLASS_IN.

(** ** Decoding *)

(** [packet.get(a..b)], with [a <= b]. *)
Definition get_range (packet : bytes) (a b : nat) : option bytes :=
  if decide (b ≤ length packet)%nat then Some (take (b - a) (drop a packet)) else None.

(** The loop of [read_name]; its variables, and one round. *)
Record NameState := { labels : list string; pos : nat; resume_at : option nat; jumps : nat }.
Inductive Round := Again (s : NameState) | Stop (r : result DnsError (string * nat)).

Definition name_round (packet : bytes) (s : NameState) : Round :=
  if (32 <? jumps s)%nat then Stop (Err BadPointer)
  else
    match packet !! pos s with
    | None => Stop (Err Truncated)
    | Some b =>
        let len := b2z b in
        if len =? 0 then Stop (Ok (join "." (labels s), default (pos s + 1)%nat (resume_at s)))
        else if Z.land len 192 =? 192 then
          match packet !! (pos s + 1)%nat with
          | None => Stop (Err Truncated)
          | Some b2 =>
              let resume := default (pos s + 2)%nat (resume_at s) in
              let ptr := Z.to_nat (Z.lor (Z.shiftl (Z.land len 63) 8) (b2z b2)) in
              if (length packet <=? ptr)%nat || (pos s <=? ptr)%nat then Stop (Err BadPointer)
              else Again {| labels := labels s; pos := ptr; resume_at := Some resume; jumps := S (jumps s) |}
          end
        else if negb (Z.land len 192 =? 0) then Stop (Err BadPointer)
        else
          let lstart := (pos s + 1)%nat in
          let lend := (lstart + Z.to_nat len)%nat in
          match get_range packet lstart lend with
          | None => Stop (Err Truncated)
          | Some bs => Again {| labels := labels s ++ [from_utf8_lossy bs]; pos := lend; resume_at := resume_at s; jumps := jumps s |}
          end
    end.
(** [None]: more rounds than [fuel]. *)
Fixpoint name_loop (fuel : nat) (packet : bytes) (s : NameState) : option (result DnsError (string * nat)) :=
  match fuel with
  | O => None
  | S fuel => match name_round packet s with Stop r => Some r | Again s => name_loop fuel packet s end
  end.
(** Every jump restarts a walk of at most the packet; there are at most 33. *)
Definition name_fuel (packet : bytes) : nat := (34 * (length packet + 1))%nat.
Definition start_name (start : nat) : NameState := {| labels := []; pos := start; resume_at := None; jumps := 0 |}.
Definition read_name (packet : bytes) (start : nat) : result DnsError (string * nat) :=
  default (Err BadPointer) (name_loop (name_fuel packet) packet (start_name start)).

Definition read_u16 (packet : bytes) (pos : nat) : result DnsError Z :=
  match get_range packet pos (pos + 2) with
  | Some [a; b] => Ok (u16_from_be_bytes a b)
  | _ => Err Truncated
  end.

Fixpoint skip_questions (n : nat) (packet : bytes) (pos : nat) : result DnsError nat :=
  match n with
  | O => Ok pos
  | S n =>
      '(_, next) ← read_name packet pos;
      let pos := (next + 4)%nat in
      if (length packet <? pos)%nat then Err Truncated else skip_questions n packet pos
  end.
Definition read_record (packet : bytes) (pos : nat) : result DnsError (ResourceRecord * nat) :=
  '(name, pos) ← read_name packet pos;
  rtype ← read_u16 packet pos;
  let pos := (pos + 2)%nat in
  _ ← read_u16 packet pos;
  let pos := (pos + 2)%nat in
  _ ← ok_or Truncated (get_range packet pos (pos + 4));
  let pos := (pos + 4)%nat in
  rdlength ← read_u16 packet pos;
  let pos := (pos + 2)%nat in
  let len := Z.to_nat rdlength in
  rdata ← ok_or Truncated (get_range packet pos (pos + len));
  Ok ({| name := name; rtype := rtype; rdata := rdata; rdata_offset := pos |}, (pos + len)%nat).
Fixpoint read_answers (n : nat) (packet : bytes) (pos : nat) : result DnsError (list ResourceRecord) :=
  match n with
  | O => Ok []
  | S n =>
      '(rr, pos) ← read_record packet pos;
      rest ← read_answers n packet pos;
      Ok (rr :: rest)
  end.
Definition parse_response (packet : bytes) : result DnsError DnsMessage :=
  if (length packet <? 12)%nat then Err Truncated
  else
    id ← read_u16 packet 0;
    flags ← read_u16 packet 2;
    let rcode := Z.land flags 15 in
    qdcount ← read_u16 packet 4;
    ancount ← read_u16 packet 6;
    pos ← skip_questions (Z.to_nat qdcount) packet 12;
    if negb (rcode =? 0) then Ok {| id := id; rcode := rcode; answers := [] |}
    else
      answers ← read_answers (Z.to_nat ancount) packet pos;
      Ok {| id := id; rcode := rcode; answers := answers |}.

(** ** Records *)

Definition parse_mx_rdata (packet : bytes) (rr : ResourceRecord) : result DnsError (Z * string) :=
  match rdata rr with
  | a :: b :: _ :: _ =>
      '(exchange, _) ← read_name packet (rdata_offset rr + 2);
      Ok (u16_from_be_bytes a b, exchange)
  | _ => Err Truncated
  end.
(** An address is its big-endian number. *)
Definition be_value (bs : bytes) : Z := foldl (λ acc b, acc * 256 + b2z b) 0 bs.
Definition parse_a_rdata (rr : ResourceRecord) : option Z :=
  if (length (rdata rr) =? 4)%nat then Some (be_value (rdata rr)) else None.
Definition parse_aaaa_rdata (rr : ResourceRecord) : option Z :=
  if (length (rdata rr) =? 16)%nat then Some (be_value (rdata rr)) else None.
(** [fuel]: every round consumes a length byte. *)
Fixpoint txt_loop (fuel : nat) (rest : bytes) : string :=
  match fuel, rest with
  | S fuel, len :: rest =>
      let len := Z.to_nat (b2z len) in
      if (length rest <? len)%nat then EmptyString
      else from_utf8_lossy (take len rest) +:+ txt_loop fuel (drop len rest)
  | _, _ => EmptyString
  end.
Definition parse_txt_rdata (rr : ResourceRecord) : string := txt_loop (length (rdata rr)) (rdata rr).

(** ** One exchange *)

Inductive QueryError := InvalidInput (e : Idn.IdnError) | Io | InvalidData (e : DnsError).
(** What the environment of a query provides: the id the generator draws, and the
    datagram [recv] returns, [None] for an I/O error. *)
Record UdpDnsClient := { txn_id : string → Z → Z; datagram : bytes → option bytes }.

(** [[0u8; 4096]]: a longer datagram is cut. *)
Definition recv_buffer : nat := Z.to_nat 4096.

Definition query_raw `{Idna} (c : UdpDnsClient) (qname : string) (qtype : Z) : result QueryError (bytes * DnsMessage) :=
  qname ← map_err InvalidInput (Idn.domain_to_ascii qname);
  let query := encode_query (txn_id c qname qtype) qname qtype in
  packet ← ok_or Io (datagram c query);
  let packet := take recv_buffer packet in
  msg ← map_err InvalidData (parse_response packet);
  Ok (packet, msg).
Definition query `{Idna} (c : UdpDnsClient) (qname : string) (qtype : Z) : result QueryError DnsMessage :=
  '(_, msg) ← query_raw c qname qtype; Ok msg.

(** The answers of one type: [answers.iter().filter(|rr| rr.rtype == t)]. *)
Definition of_type (t : Z) (msg : DnsMessage) : list ResourceRecord := List.filter (λ rr, rtype rr =? t) (answers msg).

(** ** Termination *)

Definition name_measure (packet : bytes) (s : NameState) : nat :=
  ((33 - jumps s) * (length packet + 1) + (length packet - pos s))%nat.

Lemma get_range_Some packet a b bs :
  (a ≤ b)%nat → get_range packet a b = Some bs ↔ (b ≤ length packet)%nat ∧ bs = take (b - a) (drop a packet).
Proof. intros Hab. unfold get_range. case_decide; naive_solver. Qed.

(** Every round that goes on makes the measure smaller. *)
Lemma name_round_decreases packet s s' :
  name_round packet s = Again s' → (name_measure packet s' < name_measure packet s)%nat.
Proof.
  unfold name_round, name_measure. destruct (32 <? jumps s)%nat eqn:Hj; [done|]. apply Nat.ltb_ge in Hj.
  destruct (packet !! pos s) as [b|] eqn:Hb; [|done]. apply lookup_lt_Some in Hb.
  destruct (b2z b =? 0) eqn:H0; [done|]. destruct (Z.land (b2z b) 192 =? 192).
  - destruct (packet !! (pos s + 1)%nat); [|done]. destruct (_ || _) eqn:Hp; [done|]. apply orb_false_iff in Hp as [_ Hp].
    apply Nat.leb_gt in Hp. intros [= <-]. cbn [jumps pos]. revert Hp. generalize (Z.to_nat (Z.lor (Z.shiftl (Z.land (b2z b) 63) 8) (b2z b0))). intros ptr Hp.
    replace (33 - jumps s)%nat with (S (33 - S (jumps s)))%nat by lia. rewrite Nat.mul_succ_l. lia.
  - destruct (negb _); [done|]. destruct (get_range _ _ _) eqn:Hr; [|done]. apply get_range_Some in Hr as [Hr _]; [|lia].
    intros [= <-]. cbn [jumps pos]. lia.
Qed.
Lemma name_loop_total packet fuel s :
  (name_measure packet s < fuel)%nat → is_Some (name_loop fuel packet s).
Proof.
  revert s. induction fuel as [|fuel IH]; intros s Hm; [lia|]. cbn [name_loop].
  destruct (name_round packet s) as [s'|] eqn:E; [|by eexists]. apply IH. apply name_round_decreases in E. lia.
Qed.
Lemma name_loop_mono packet fuel fuel' s r :
  name_loop fuel packet s = Some r → (fuel ≤ fuel')%nat → name_loop fuel' packet s = Some r.
Proof.
  revert fuel' s. induction fuel as [|fuel IH]; intros [|fuel'] s H Hle; [done|done|lia|]. cbn [name_loop] in *.
  destruct (name_round packet s); [apply IH; [done|lia]|done].
Qed.
Lemma name_loop_start packet start : name_loop (name_fuel packet) packet (start_name start) = Some (read_name packet start).
Proof.
  unfold read_name. destruct (name_loop_total packet (name_fuel packet) (start_name start)) as [r ->]; [|done].
  unfold name_measure, name_fuel, start_name. cbn [jumps pos]. lia.
Qed.
Lemma name_loop_read packet start fuel r : name_loop fuel packet (start_name start) = Some r → read_name packet start = r.
Proof.
  intros H. pose proof (name_loop_start packet start) as H'.
  apply (name_loop_mono _ _ (fuel + name_fuel packet)) in H; [|lia].
  apply (name_loop_mono _ _ (fuel + name_fuel packet)) in H'; [|lia]. congruence.
Qed.

(** ** What a name is *)

(** The name at a position of a packet: its labels, where the linear stream goes
    on, and how many pointers were followed. *)
Inductive name_at (packet : bytes) : nat → list string → nat → nat → Prop :=
| na_end p b : packet !! p = Some b → b2z b = 0 → name_at packet p [] (p + 1) 0
| na_label p b bs ls r j :
    packet !! p = Some b → 0 < b2z b < 64 → get_range packet (p + 1) (p + 1 + Z.to_nat (b2z b)) = Some bs →
    name_at packet (p + 1 + Z.to_nat (b2z b)) ls r j → name_at packet p (from_utf8_lossy bs :: ls) r j
| na_pointer p b b2 ls r j :
    packet !! p = Some b → 192 ≤ b2z b → packet !! (p + 1)%nat = Some b2 →
    (Z.to_nat ((b2z b - 192) * 256 + b2z b2) < p)%nat →
    name_at packet (Z.to_nat ((b2z b - 192) * 256 + b2z b2)) ls r j → name_at packet p ls (p + 2) (S j).

Lemma byte_bits b :
  (Z.land (b2z b) 192 =? 192) = (192 <=? b2z b) ∧ (Z.land (b2z b) 192 =? 0) = (b2z b <? 64) ∧
  (192 ≤ b2z b → Z.land (b2z b) 63 = b2z b - 192).
Proof. destruct b; vm_compute; repeat split; try done; intros H; by destruct H. Qed.
Lemma lor_shift x y : 0 ≤ y < 256 → Z.lor (Z.shiftl x 8) y = x * 256 + y.
Proof.
  intros Hy. assert (Z.land (Z.shiftl x 8) y = 0) as Hl.
  { apply Z.bits_inj'. intros n Hn. rewrite Z.land_spec, Z.bits_0. destruct (decide (n < 8)).
    - by rewrite Z.shiftl_spec_low.
    - rewrite (Z.bits_above_log2 y n); [apply andb_false_r|lia|].
      destruct (decide (y = 0)) as [->|]; [simpl; lia|]. assert (Z.log2 y < 8); [|lia]. apply Z.log2_lt_pow2; lia. }
  pose proof (Z.add_lor_land (Z.shiftl x 8) y) as H. rewrite Hl in H.
  assert (Z.shiftl x 8 = x * 256) as E by (rewrite Z.shiftl_mul_pow2; lia). lia.
Qed.

Lemma name_round_spec packet s :
  name_round packet s =
    if (32 <? jumps s)%nat then Stop (Err BadPointer) else
    match packet !! pos s with
    | None => Stop (Err Truncated)
    | Some b =>
        if b2z b =? 0 then Stop (Ok (join "." (labels s), default (pos s + 1)%nat (resume_at s)))
        else if 192 <=? b2z b then
          match packet !! (pos s + 1)%nat with
          | None => Stop (Err Truncated)
          | Some b2 =>
              let ptr := Z.to_nat ((b2z b - 192) * 256 + b2z b2) in
              if (pos s <=? ptr)%nat then Stop (Err BadPointer)
              else Again {| labels := labels s; pos := ptr; resume_at := Some (default (pos s + 2)%nat (resume_at s)); jumps := S (jumps s) |}
          end
        else if 64 <=? b2z b then Stop (Err BadPointer)
        else
          match get_range packet (pos s + 1) (pos s + 1 + Z.to_nat (b2z b)) with
          | None => Stop (Err Truncated)
          | Some bs => Again {| labels := labels s ++ [from_utf8_lossy bs]; pos := (pos s + 1 + Z.to_nat (b2z b))%nat;
                                resume_at := resume_at s; jumps := jumps s |}
          end
    end.
Proof.
  unfold name_round. destruct (32 <? jumps s)%nat; [done|]. destruct (packet !! pos s) as [b|] eqn:Hb; [|done].
  destruct (byte_bits b) as (-> & -> & Hlow). destruct (b2z b =? 0); [done|].
  destruct (192 <=? b2z b) eqn:Hp.
  - destruct (packet !! (pos s + 1)%nat) as [b2|]; [|done]. rewrite Hlow by (by apply Z.leb_le).
    rewrite lor_shift by apply b2z_range. cbv zeta. destruct (pos s <=? _)%nat eqn:Hptr; [by rewrite orb_true_r|].
    apply Nat.leb_gt in Hptr. apply lookup_lt_Some in Hb. rewrite (proj2 (Nat.leb_gt _ _)) by lia. done.
  - rewrite Z.ltb_antisym, negb_involutive. by destruct (64 <=? b2z b).
Qed.

Lemma name_loop_sound packet fuel s n r :
  name_loop fuel packet s = Some (Ok (n, r)) →
  ∃ ls r0 j, name_at packet (pos s) ls r0 j ∧ (jumps s + j ≤ 32)%nat ∧ n = join "." (labels s ++ ls) ∧ r = default r0 (resume_at s).
Proof.
  revert s. induction fuel as [|fuel IH]; intros s; [done|]. cbn [name_loop]. rewrite name_round_spec.
  destruct (32 <? jumps s)%nat eqn:Hj; [done|]. apply Nat.ltb_ge in Hj.
  destruct (packet !! pos s) as [b|] eqn:Hb; [|done]. destruct (b2z b =? 0) eqn:H0.
  { intros [= <- <-]. exists [], (pos s + 1)%nat, 0%nat. apply Z.eqb_eq in H0. rewrite app_nil_r. split_and!; [by econstructor|lia|done|done]. }
  apply Z.eqb_neq in H0. pose proof (b2z_range b). destruct (192 <=? b2z b) eqn:H1.
  - apply Z.leb_le in H1. destruct (packet !! (pos s + 1)%nat) as [b2|] eqn:Hb2; [|done]. cbv zeta.
    destruct (pos s <=? _)%nat eqn:Hp; [done|]. apply Nat.leb_gt in Hp.
    intros (ls & r0 & j & Hn & Hlt & -> & ->)%IH. cbn [pos jumps labels resume_at default] in *.
    exists ls, (pos s + 2)%nat, (S j). split_and!; [by econstructor|lia|done|done].
  - destruct (64 <=? b2z b) eqn:H2; [done|]. apply Z.leb_gt in H1, H2.
    destruct (get_range _ _ _) as [bs|] eqn:Hr; [|done].
    intros (ls & r0 & j & Hn & Hlt & -> & ->)%IH. cbn [pos jumps labels resume_at] in *.
    exists (from_utf8_lossy bs :: ls), r0, j. rewrite <- app_assoc. split_and!; [econstructor; (done || lia)|lia|done|done].
Qed.
Lemma name_loop_complete packet p ls r0 j s :
  name_at packet p ls r0 j → pos s = p → (jumps s + j ≤ 32)%nat →
  ∃ fuel, name_loop fuel packet s = Some (Ok (join "." (labels s ++ ls), default r0 (resume_at s))).
Proof.
  intros Hn. revert s. induction Hn as [p b Hb H0|p b bs ls r j Hb Hlen Hr Hn IH|p b b2 ls r j Hb Hlen Hb2 Hptr Hn IH]; intros s Hs Hj.
  - exists 1%nat. cbn [name_loop]. rewrite name_round_spec, Hs, Hb, H0. rewrite (proj2 (Nat.ltb_ge _ _)) by lia.
    rewrite app_nil_r. done.
  - destruct (IH {| labels := labels s ++ [from_utf8_lossy bs]; pos := (p + 1 + Z.to_nat (b2z b))%nat;
                    resume_at := resume_at s; jumps := jumps s |}) as [fuel Hf]; [done|done|].
    exists (S fuel). cbn [name_loop]. rewrite name_round_spec, Hs, Hb. rewrite (proj2 (Nat.ltb_ge _ _)) by lia.
    rewrite (proj2 (Z.eqb_neq _ _)), (proj2 (Z.leb_gt 192 _)), (proj2 (Z.leb_gt 64 _)) by lia.
    rewrite Hr, Hf. cbn [labels resume_at]. by rewrite <- app_assoc.
  - destruct (IH {| labels := labels s; pos := Z.to_nat ((b2z b - 192) * 256 + b2z b2);
                    resume_at := Some (default (p + 2)%nat (resume_at s)); jumps := S (jumps s) |}) as [fuel Hf]; [done|cbn; lia|].
    exists (S fuel). cbn [name_loop]. rewrite name_round_spec, Hs, Hb. rewrite (proj2 (Nat.ltb_ge _ _)) by lia.
    rewrite (proj2 (Z.eqb_neq _ _)), (proj2 (Z.leb_le 192 _)) by lia. rewrite Hb2. cbv zeta.
    rewrite (proj2 (Nat.leb_gt _ _)) by done. by rewrite Hf.
Qed.

(** ** Names as they are written *)

Definition label_ok (l : string) : Prop :=
  l ≠ EmptyString ∧ (length (as_bytes l) ≤ 63)%nat ∧ str_all is_ascii l = true ∧ contains_char "." l = false.

Ltac app_eq := repeat (rewrite <- app_assoc; cbn [app]); reflexivity.
Lemma get_range_app (packet pre x post : bytes) a b :
  packet = pre ++ x ++ post → a = length pre → b = (length pre + length x)%nat → get_range packet a b = Some x.
Proof.
  intros -> -> ->. apply get_range_Some; [lia|]. rewrite !length_app. split; [lia|].
  rewrite drop_app_length. replace (_ + _ - _)%nat with (length x) by lia. by rewrite take_app_length.
Qed.
Lemma encode_label_ok l : label_ok l → encode_label l = z2b (Z.of_nat (length (as_bytes l))) :: as_bytes l.
Proof.
  intros (Hne & Hlen & _). unfold encode_label. rewrite bool_decide_false by done. rewrite Nat.min_l by done. by rewrite take_ge.
Qed.
Lemma name_at_encoded packet pre ls post :
  Forall label_ok ls → packet = pre ++ encode_labels ls ++ post →
  name_at packet (length pre) ls (length pre + length (encode_labels ls)) 0.
Proof.
  intros HF. revert pre. induction HF as [|l ls Hl HF IH]; intros pre Hp.
  - apply na_end with (b := Byte.x00); [|done]. by rewrite Hp, lookup_app_r, Nat.sub_diag by lia.
  - unfold encode_labels in *. rewrite fmap_cons in *. cbn [concat] in *. rewrite encode_label_ok in * by done.
    destruct Hl as (Hne & Hlen & Hasc & _).
    assert (0 < length (as_bytes l))%nat as Hpos by (destruct l; [done|cbn; lia]).
    assert (b2z (z2b (Z.of_nat (length (as_bytes l)))) = Z.of_nat (length (as_bytes l))) as Hb by (apply b2z_z2b; lia).
    set (b := z2b (Z.of_nat (length (as_bytes l)))) in *.
    assert (packet = (pre ++ b :: as_bytes l) ++ (concat (encode_label <$> ls) ++ [Byte.x00]) ++ post) as Hp'.
    { rewrite Hp. app_eq. }
    match goal with |- name_at _ _ _ ?r _ => pose proof (na_label packet (length pre) b (as_bytes l) ls r 0) as Hna end.
    rewrite from_utf8_lossy_ascii in Hna by done. apply Hna; clear Hna.
    + rewrite Hp, lookup_app_r, Nat.sub_diag by lia. done.
    + rewrite Hb. lia.
    + rewrite Hb, Nat2Z.id. eapply (get_range_app _ (pre ++ [b]) (as_bytes l)); [|rewrite length_app; cbn; lia..].
      rewrite Hp. app_eq.
    + specialize (IH _ Hp'). rewrite Hb, Nat2Z.id.
      replace (length pre + 1 + length (as_bytes l))%nat with (length (pre ++ b :: as_bytes l)) by (rewrite length_app; cbn; lia).
      match goal with |- name_at _ _ _ ?r _ =>
        replace r with (length (pre ++ b :: as_bytes l) + length (concat (encode_label <$> ls) ++ [Byte.x00]))%nat end; [done|].
      rewrite !length_app. cbn [length]. rewrite ?length_app. cbn [length]. lia.
Qed.

Lemma trim_end_app_ne c a b : trim_end_matches c b ≠ EmptyString → trim_end_matches c (a +:+ b) = a +:+ trim_end_matches c b.
Proof.
  intros Hb. induction a as [|x a IH]; [done|]. rewrite !str_app_cons. cbn [trim_end_matches]. rewrite IH.
  destruct (a +:+ trim_end_matches c b) eqn:E; [|done]. destruct a; [by destruct Hb|by rewrite str_app_cons in E].
Qed.
Lemma trim_end_keep c s : s ≠ EmptyString → contains_char c s = false → trim_end_matches c s = s.
Proof.
  unfold contains_char. induction s as [|x s IH]; [done|]. intros _. cbn [str_any trim_end_matches]. intros [Hx Hs]%orb_false_iff.
  destruct s as [|y s]; [cbn [trim_end_matches]; by rewrite Hx|]. by rewrite IH.
Qed.
Lemma trim_join ls :
  Forall (λ l, l ≠ EmptyString ∧ contains_char "." l = false) ls → ls ≠ [] → trim_end_matches "." (join "." ls) = join "." ls ∧ join "." ls ≠ EmptyString.
Proof.
  induction 1 as [|l ls Hl HF IH]; [done|]. intros _. destruct Hl as [Hne Hdot]. destruct ls as [|l' ls].
  - cbn [join]. split; [by apply trim_end_keep|done].
  - destruct IH as [IH1 IH2]; [done|]. change (join "." (l :: l' :: ls)) with (l +:+ "." +:+ join "." (l' :: ls)).
    set (t := join "." (l' :: ls)) in *. split; [|by destruct l].
    assert (trim_end_matches "." ("." +:+ t) = ("." +:+ t)) as E by (rewrite trim_end_app_ne by (by rewrite IH1); by rewrite IH1).
    rewrite trim_end_app_ne; [by rewrite E|by rewrite E].
Qed.
Lemma encode_join ls : Forall label_ok ls → ls ≠ [] → encode_name (join "." ls) = encode_labels ls.
Proof.
  intros HF Hne. unfold encode_name. destruct (trim_join ls) as [-> _]; [|done|].
  - eapply Forall_impl; [exact HF|]. by intros l (? & _ & _ & ?).
  - rewrite split_join; [done|done|]. eapply Forall_impl; [exact HF|]. by intros l (_ & _ & _ & ?).
Qed.
Lemma read_name_at packet p ls r j :
  name_at packet p ls r j → (j ≤ 32)%nat → read_name packet p = Ok (join "." ls, r).
Proof.
  intros Hn Hj. destruct (name_loop_complete packet p ls r j (start_name p) Hn) as [fuel Hf]; [done|done|].
  by apply name_loop_read in Hf.
Qed.

(** ** Responses as a server writes them *)

Record Answer := { an_type : Z; an_class : Z; an_ttl : bytes; an_rdata : bytes }.
Definition answer_ok (a : Answer) : Prop :=
  0 ≤ an_type a < 65536 ∧ length (an_ttl a) = 4%nat ∧ Z.of_nat (length (an_rdata a)) < 65536.
(** The owner is a pointer to the question name, at offset 12. *)
Definition answer_bytes (a : Answer) : bytes :=
  [Byte.xc0; Byte.x0c] ++ u16_to_be_bytes (an_type a) ++ u16_to_be_bytes (an_class a) ++ an_ttl a
  ++ u16_to_be_bytes (Z.of_nat (length (an_rdata a))) ++ an_rdata a.
Definition response (id flags : Z) (qname : list string) (qtype : Z) (ans : list Answer) (rest : bytes) : bytes :=
  (u16_to_be_bytes id ++ u16_to_be_bytes flags ++ u16_to_be_bytes 1 ++ u16_to_be_bytes (Z.of_nat (length ans)) ++ replicate 4 Byte.x00)
  ++ encode_name (join "." qname) ++ (u16_to_be_bytes qtype ++ u16_to_be_bytes CLASS_IN)
  ++ concat (answer_bytes <$> ans) ++ rest.

(** A record with its place in the packet. *)
Definition decoded (packet : bytes) (qname : list string) (rr : ResourceRecord) (a : Answer) : Prop :=
  name rr = join "." qname ∧ rtype rr = an_type a ∧ rdata rr = an_rdata a ∧
  ∃ pre post, packet = pre ++ an_rdata a ++ post ∧ rdata_offset rr = length pre.

Lemma read_u16_app packet pre z post p :
  0 ≤ z < 65536 → packet = pre ++ u16_to_be_bytes z ++ post → p = length pre → read_u16 packet p = Ok z.
Proof.
  intros Hz Hp ->. destruct (u16_be_roundtrip z Hz) as (a & b & E & Hab). unfold read_u16.
  rewrite (get_range_app packet pre (u16_to_be_bytes z) post); [|done..]. rewrite E. by rewrite Hab.
Qed.
(** For a field that is skipped. *)
Lemma read_u16_any packet pre z post p : packet = pre ++ u16_to_be_bytes z ++ post → p = length pre → ∃ v, read_u16 packet p = Ok v.
Proof.
  intros Hp ->. unfold read_u16. rewrite (get_range_app packet pre (u16_to_be_bytes z) post); [|done..]. by eexists.
Qed.

Lemma read_answer packet pre qname a post r :
  name_at packet 12 qname r 0 → (12 < length pre)%nat → answer_ok a → packet = pre ++ answer_bytes a ++ post →
  ∃ rr, read_record packet (length pre) = Ok (rr, (length pre + length (answer_bytes a))%nat) ∧ decoded packet qname rr a.
Proof.
  intros Hq Hlt (Hty & Httl & Hlen) Hp. unfold answer_bytes in *. set (n := Z.of_nat (length (an_rdata a))) in *.
  set (ty := u16_to_be_bytes (an_type a)) in *. set (cl := u16_to_be_bytes (an_class a)) in *. set (ln := u16_to_be_bytes n) in *.
  assert (length ty = 2%nat ∧ length cl = 2%nat ∧ length ln = 2%nat) as (L1 & L2 & L3) by done.
  assert (name_at packet (length pre) qname (length pre + 2) 1) as Hn.
  { apply (na_pointer packet (length pre) Byte.xc0 Byte.x0c qname r 0); try done.
    - by rewrite Hp, lookup_app_r, Nat.sub_diag by lia.
    - rewrite Hp, lookup_app_r by lia. by replace (length pre + 1 - length pre)%nat with 1%nat by lia. }
  unfold read_record. rewrite (read_name_at _ _ _ _ _ Hn) by lia. simpl_res.
  rewrite (read_u16_app packet (pre ++ [Byte.xc0; Byte.x0c]) (an_type a) (cl ++ an_ttl a ++ ln ++ an_rdata a ++ post) (length pre + 2)); [|done| |rewrite length_app; cbn; lia].
  2:{ rewrite Hp. app_eq. }
  simpl_res. edestruct (read_u16_any packet (pre ++ [Byte.xc0; Byte.x0c] ++ ty) (an_class a) (an_ttl a ++ ln ++ an_rdata a ++ post) (length pre + 2 + 2)) as [v ->].
  { rewrite Hp. app_eq. } { rewrite !length_app, L1. cbn. lia. }
  simpl_res. rewrite (get_range_app packet (pre ++ [Byte.xc0; Byte.x0c] ++ ty ++ cl) (an_ttl a) (ln ++ an_rdata a ++ post) (length pre + 2 + 2 + 2) (length pre + 2 + 2 + 2 + 4)).
  2:{ rewrite Hp. app_eq. } 2,3: rewrite !length_app, L1, L2; cbn; lia.
  simpl_res. rewrite (read_u16_app packet (pre ++ [Byte.xc0; Byte.x0c] ++ ty ++ cl ++ an_ttl a) n (an_rdata a ++ post) (length pre + 2 + 2 + 2 + 4)).
  2: lia. 2:{ rewrite Hp. app_eq. } 2: rewrite !length_app, L1, L2, Httl; cbn; lia.
  simpl_res. assert (packet = (pre ++ [Byte.xc0; Byte.x0c] ++ ty ++ cl ++ an_ttl a ++ ln) ++ an_rdata a ++ post) as Hpre.
  { rewrite Hp. app_eq. }
  assert (length (pre ++ [Byte.xc0; Byte.x0c] ++ ty ++ cl ++ an_ttl a ++ ln) = (length pre + 12)%nat) as Lpre.
  { rewrite !length_app, L1, L2, L3, Httl. cbn. lia. }
  rewrite (get_range_app packet _ (an_rdata a) post _ _ Hpre); [|rewrite Lpre; lia|rewrite Lpre; unfold n; rewrite Nat2Z.id; lia].
  simpl_res. eexists. split.
  - match goal with |- Ok (_, ?a) = Ok (_, ?b) => replace a with b; [reflexivity|] end. unfold n. rewrite Nat2Z.id, !length_app, L1, L2, L3, Httl. cbn. lia.
  - split_and!; try done. do 2 eexists. split; [exact Hpre|]. cbn [rdata_offset]. rewrite Lpre. lia.
Qed.
Lemma read_answers_all packet pre qname ans rest r :
  name_at packet 12 qname r 0 → (12 < length pre)%nat → Forall answer_ok ans → packet = pre ++ concat (answer_bytes <$> ans) ++ rest →
  ∃ rrs, read_answers (length ans) packet (length pre) = Ok rrs ∧ Forall2 (decoded packet qname) rrs ans.
Proof.
  intros Hq Hlt HF. revert pre Hlt. induction HF as [|a ans Ha HF IH]; intros pre Hlt Hp; [by exists []|].
  rewrite fmap_cons in Hp. cbn [concat] in Hp. rewrite <- app_assoc in Hp.
  destruct (read_answer packet pre qname a _ r Hq Hlt Ha Hp) as (rr & Hrr & Hdec).
  destruct (IH (pre ++ answer_bytes a)) as (rrs & Hrrs & H2); [rewrite length_app; lia|by rewrite Hp, <- app_assoc|].
  exists (rr :: rrs). cbn [length read_answers]. rewrite Hrr. simpl_res. rewrite <- length_app, Hrrs. simpl_res. split; [done|by constructor].
Qed.

(** ** Record data *)

Definition mx_rdata (preference : Z) (exchange : list string) : bytes := u16_to_be_bytes preference ++ encode_labels exchange.
Definition txt_rdata (strings : list string) : bytes := concat ((λ t, z2b (str_len t) :: as_bytes t) <$> strings).
Definition txt_ok (t : string) : Prop := str_len t < 256 ∧ str_all is_ascii t = true.

Lemma parse_mx_decoded packet qname rr a preference exchange :
  decoded packet qname rr a → an_rdata a = mx_rdata preference exchange → 0 ≤ preference < 65536 → Forall label_ok exchange →
  parse_mx_rdata packet rr = Ok (preference, join "." exchange).
Proof.
  intros (_ & _ & Hd & pre & post & Hp & Ho) Ha Hpref HF. unfold parse_mx_rdata. rewrite Hd, Ha, Ho. unfold mx_rdata in *.
  destruct (u16_be_roundtrip preference Hpref) as (x & y & E & Hxy). rewrite E in *. cbn [app].
  assert (∃ z w, encode_labels exchange = z :: w) as (z & w & Ez).
  { unfold encode_labels. destruct (concat _ ++ [Byte.x00]) eqn:E'; [by destruct (concat _)|by do 2 eexists]. }
  rewrite Ez, Hxy. assert (packet = (pre ++ [x; y]) ++ encode_labels exchange ++ post) as Hp'.
  { rewrite Hp, Ha, <- !app_assoc. done. }
  apply name_at_encoded in Hp'; [|done]. rewrite length_app in Hp'. apply read_name_at in Hp'; [|lia]. cbn [length] in Hp'.
  rewrite Hp'. by simpl_res.
Qed.
Lemma txt_loop_strings strings fuel :
  Forall txt_ok strings → (length (txt_rdata strings) ≤ fuel)%nat → txt_loop fuel (txt_rdata strings) = foldr String.append EmptyString strings.
Proof.
  intros HF. revert fuel. induction HF as [|t strings [Hlen Hasc] HF IH]; intros fuel; [by destruct fuel|].
  unfold txt_rdata. rewrite fmap_cons. cbn [concat app length]. fold (txt_rdata strings). intros Hfuel. destruct fuel as [|fuel]; [lia|].
  pose proof (str_len_nonneg t). cbn [txt_loop foldr]. rewrite b2z_z2b by lia. unfold str_len. rewrite Nat2Z.id. rewrite length_app in *.
  rewrite (proj2 (Nat.ltb_ge _ _)) by lia. rewrite take_app_length, drop_app_length, from_utf8_lossy_ascii by done. rewrite IH by lia. done.
Qed.

(** ** Bounds *)

Definition in_packet (packet : bytes) (rr : ResourceRecord) : Prop :=
  (rdata_offset rr + length (rdata rr) ≤ length packet)%nat ∧ rdata rr = take (length (rdata rr)) (drop (rdata_offset rr) packet).

Lemma read_record_in_packet packet p rr p' : read_record packet p = Ok (rr, p') → in_packet packet rr ∧ (p' ≤ length packet)%nat.
Proof.
  unfold read_record. destruct (read_name packet p) as [[nm q]|]; [|done]. simpl_res.
  destruct (read_u16 packet q); [|done]. simpl_res. destruct (read_u16 packet (q + 2)); [|done]. simpl_res.
  destruct (get_range packet (q + 2 + 2) _); [|done]. simpl_res. destruct (read_u16 packet (q + 2 + 2 + 4)) as [n|]; [|done]. simpl_res.
  destruct (get_range packet (q + 2 + 2 + 4 + 2) _) as [bs|] eqn:E; [|done]. simpl_res. intros [= <- <-].
  apply get_range_Some in E as [Hle ->]; [|lia]. unfold in_packet. cbn [rdata rdata_offset].
  match goal with |- context [take ?k _] => set (m := k) in * end. rewrite length_take, length_drop. split; [|lia]. split; [lia|].
  by rewrite Nat.min_l by lia.
Qed.
Lemma read_answers_in_packet n packet p rrs : read_answers n packet p = Ok rrs → Forall (in_packet packet) rrs ∧ length rrs = n.
Proof.
  revert p rrs. induction n as [|n IH]; intros p rrs; cbn [read_answers]; [by intros [= <-]|].
  destruct (read_record packet p) as [[rr q]|] eqn:E; [|done]. simpl_res. destruct (read_answers n packet q) as [rest|] eqn:Er; [|done].
  simpl_res. intros [= <-]. apply read_record_in_packet in E as [E _]. destruct (IH _ _ Er). split; [by constructor|cbn; lia].
Qed.

Lemma response_parses id flags qname qtype ans rest :
  0 ≤ id < 65536 → 0 ≤ flags < 65536 → Z.land flags 15 = 0 → Forall label_ok qname → qname ≠ [] →
  Forall answer_ok ans → Z.of_nat (length ans) < 65536 →
  let packet := response id flags qname qtype ans rest in
  ∃ rrs, parse_response packet = Ok {| id := id; rcode := 0; answers := rrs |} ∧ Forall2 (decoded packet qname) rrs ans.
Proof.
  intros Hid Hfl Hrc Hq Hne Hans Hcnt packet. pose proof (encode_join qname Hq Hne) as Henc.
  set (n := Z.of_nat (length ans)) in *. set (hdr := u16_to_be_bytes id ++ u16_to_be_bytes flags ++ u16_to_be_bytes 1 ++ u16_to_be_bytes n ++ replicate 4 Byte.x00).
  set (tl := (u16_to_be_bytes qtype ++ u16_to_be_bytes CLASS_IN) ++ concat (answer_bytes <$> ans) ++ rest).
  assert (packet = hdr ++ encode_labels qname ++ tl) as Hp by (unfold packet, response; by rewrite Henc).
  assert (length hdr = 12%nat) as Lh by done.
  pose proof (name_at_encoded packet hdr qname tl Hq Hp) as Hn. rewrite Lh in Hn.
  set (pre := hdr ++ encode_labels qname ++ u16_to_be_bytes qtype ++ u16_to_be_bytes CLASS_IN).
  assert (packet = pre ++ concat (answer_bytes <$> ans) ++ rest) as Hp2 by (rewrite Hp; unfold pre, tl; app_eq).
  assert (length pre = (12 + length (encode_labels qname) + 4)%nat) as Lp by (unfold pre; rewrite !length_app, Lh; cbn [length u16_to_be_bytes]; lia).
  destruct (read_answers_all packet pre qname ans rest _ Hn ltac:(lia) Hans Hp2) as (rrs & Hrr & H2).
  exists rrs. split; [|exact H2].
  unfold parse_response. assert (12 ≤ length packet)%nat by (rewrite Hp2, length_app; lia).
  rewrite (proj2 (Nat.ltb_ge _ _)) by lia.
  rewrite (read_u16_app packet [] id (drop 2 packet) 0 Hid); [|by rewrite Hp|done]. simpl_res.
  rewrite (read_u16_app packet (u16_to_be_bytes id) flags (drop 4 packet) 2 Hfl); [|by rewrite Hp|done]. simpl_res. rewrite Hrc.
  rewrite (read_u16_app packet (u16_to_be_bytes id ++ u16_to_be_bytes flags) 1 (drop 6 packet) 4 ltac:(lia)); [|by rewrite Hp|done]. simpl_res.
  rewrite (read_u16_app packet (u16_to_be_bytes id ++ u16_to_be_bytes flags ++ u16_to_be_bytes 1) n (drop 8 packet) 6 ltac:(lia)); [|by rewrite Hp|done]. simpl_res.
  change (Z.to_nat 1) with 1%nat. cbn [skip_questions]. rewrite (read_name_at _ _ _ _ _ Hn) by lia. simpl_res.
  rewrite (proj2 (Nat.ltb_ge _ _)) by (rewrite Hp2, length_app; lia). simpl_res. cbn [negb Z.eqb].
  rewrite <- Lp. unfold n. rewrite Nat2Z.id, Hrr. by simpl_res.
Qed.

Lemma query_raw_reply `{Idna} qname ascii qtype packet msg ids :
  Idn.domain_to_ascii qname = Ok ascii → Z.of_nat (length packet) ≤ 4096 → parse_response packet = Ok msg →
  query_raw {| txn_id := ids; datagram := λ _, Some packet |} qname qtype = Ok (packet, msg).
Proof.
  intros Hq Hlen Hp. assert (length packet ≤ recv_buffer)%nat as Hle by (unfold recv_buffer; lia).
  unfold query_raw. revert Hle. generalize recv_buffer. intros buf Hle. rewrite Hq. simpl_res. cbn [datagram]. simpl_res.
  rewrite take_ge by done. rewrite Hp. by simpl_res.
Qed.

Lemma failed_no_answers packet msg : parse_response packet = Ok msg → rcode msg ≠ 0 → answers msg = [].
Proof.
  unfold parse_response. destruct (_ <? 12)%nat; [done|]. destruct (read_u16 packet 0); [|done]. simpl_res.
  destruct (read_u16 packet 2) as [fl|]; [|done]. simpl_res. destruct (read_u16 packet 4); [|done]. simpl_res.
  destruct (read_u16 packet 6); [|done]. simpl_res. destruct (skip_questions _ _ _); [|done]. simpl_res.
  destruct (Z.land fl 15 =? 0) eqn:E; cbn [negb]; [|by intros [= <-]].
  apply Z.eqb_eq in E. destruct (read_answers _ _ _); [|done]. simpl_res. intros [= <-]. cbn. by rewrite E.
Qed.

(** ** Properties *)

(** C34: The name decoder always ends: compression pointers cannot make it loop.  On
    every packet and from every position, it gives its answer within 34 rounds per
    byte of the packet and 34 more, and further rounds do not change the answer. *)
Theorem read_name_terminates packet start fuel :
  (34 * (length packet + 1) ≤ fuel)%nat → name_loop fuel packet (start_name start) = Some (read_name packet start).
Proof. intros Hf. eapply name_loop_mono; [apply name_loop_start|done]. Qed.

(** What a name in a packet means.  The decoder succeeds exactly on the names of
    RFC 1035: labels of 1 to 63 bytes ended by a zero byte, or by a pointer that
    goes strictly backwards to such a name, with at most 32 pointers; the result is
    the labels joined by dots, and the position after the name or after its first
    pointer. *)
Theorem read_name_spec packet start n r :
  read_name packet start = Ok (n, r) ↔ ∃ ls j, name_at packet start ls r j ∧ (j ≤ 32)%nat ∧ n = join "." ls.
Proof.
  split.
  - intros H. pose proof (name_loop_start packet start) as Hl. rewrite H in Hl.
    apply name_loop_sound in Hl as (ls & r0 & j & Hn & Hj & -> & ->). by exists ls, j.
  - intros (ls & j & Hn & Hj & ->). by apply read_name_at with (j := j).
Qed.

(** What a server answers is what the resolvers see: a response to a question, with
    its answers owned by a pointer to the question name and any further sections
    behind them, decodes to its id and to exactly its answers, in order, with their
    owner, type and data; and MX, TXT and address data decode to the preference and
    exchange, the text and the address that were written. *)
Theorem dns_response_roundtrip id flags qname qtype ans rest :
  0 ≤ id < 65536 → 0 ≤ flags < 65536 → Z.land flags 15 = 0 → Forall label_ok qname → qname ≠ [] →
  Forall answer_ok ans → Z.of_nat (length ans) < 65536 →
  let packet := response id flags qname qtype ans rest in
  ∃ rrs, parse_response packet = Ok {| id := id; rcode := 0; answers := rrs |} ∧
    Forall2 (λ rr a, name rr = join "." qname ∧ rtype rr = an_type a ∧ rdata rr = an_rdata a ∧
      (∀ preference exchange, an_rdata a = mx_rdata preference exchange → 0 ≤ preference < 65536 → Forall label_ok exchange →
         parse_mx_rdata packet rr = Ok (preference, join "." exchange)) ∧
      (∀ strings, an_rdata a = txt_rdata strings → Forall txt_ok strings → parse_txt_rdata rr = foldr String.append EmptyString strings) ∧
      (length (an_rdata a) = 4%nat → parse_a_rdata rr = Some (be_value (an_rdata a)))) rrs ans.
Proof.
  intros Hid Hfl Hrc Hq Hne Hans Hcnt packet.
  destruct (response_parses id flags qname qtype ans rest) as (rrs & Hp & H2); try done. exists rrs. split; [exact Hp|].
  eapply Forall2_impl; [exact H2|]. intros rr a Hd. pose proof Hd as (H1 & H3 & H4 & _). split_and!; try done.
  - intros preference exchange Ha Hpref HF. by eapply parse_mx_decoded.
  - intros strings Ha HF. unfold parse_txt_rdata. rewrite H4, Ha. by apply txt_loop_strings.
  - intros Hl. unfold parse_a_rdata. by rewrite H4, Hl.
Qed.

(** No record reaches outside the packet: the data of every parsed answer is the
    slice of the packet at the offset recorded with it, and there are exactly as
    many answers as the header announces. *)
Theorem records_in_packet packet msg :
  parse_response packet = Ok msg →
  Forall (in_packet packet) (answers msg) ∧
  (rcode msg = 0 → read_u16 packet 6 = Ok (Z.of_nat (length (answers msg)))) ∧ (rcode msg ≠ 0 → answers msg = []).
Proof.
  unfold parse_response. destruct (_ <? 12)%nat; [done|]. destruct (read_u16 packet 0); [|done]. simpl_res.
  destruct (read_u16 packet 2) as [fl|]; [|done]. simpl_res. destruct (read_u16 packet 4); [|done]. simpl_res.
  destruct (read_u16 packet 6) as [an|] eqn:Han; [|done]. simpl_res. destruct (skip_questions _ _ _); [|done]. simpl_res.
  destruct (Z.land fl 15 =? 0) eqn:Hrc; cbn [negb].
  - destruct (read_answers _ _ _) as [rrs|] eqn:E; [|done]. simpl_res. intros [= <-]. cbn. apply read_answers_in_packet in E as [HF Hl].
    apply Z.eqb_eq in Hrc. split_and!; [done| |by rewrite Hrc]. intros _. rewrite Hl. unfold read_u16 in Han.
    destruct (get_range packet 6 _) as [[|x [|y [|]]]|]; simplify_eq. pose proof (u16_from_be_range x y). f_equal. lia.
  - intros [= <-]. cbn. apply Z.eqb_neq in Hrc. done.
Qed.

(** The client accepts any well-formed datagram as the answer to its query, also one
    whose id is not the id it sent. *)
Theorem reply_id_unchecked `{Idna} qname ascii qtype packet msg ids :
  Idn.domain_to_ascii qname = Ok ascii → Z.of_nat (length packet) ≤ 4096 → parse_response packet = Ok msg →
  id msg ≠ ids ascii qtype →
  query_raw {| txn_id := ids; datagram := λ _, Some packet |} qname qtype = Ok (packet, msg).
Proof. intros Hq Hlen Hp _. by eapply query_raw_reply. Qed.
End Dns.

(** ** Witnesses *)

Module DnsWitness.
Import Dns.
#[export] Instance ascii_only : Idna := {| idna_to_ascii s := if str_all is_ascii s then Ok (to_ascii_lowercase s) else Err "not ASCII"%string |}.

Definition example : list string := ["example"; "org"]%string.
Definition mx1 : Answer :=
  {| an_type := TYPE_MX; an_class := CLASS_IN; an_ttl := [Byte.x00; Byte.x00; Byte.x01; Byte.x2c];
     an_rdata := mx_rdata 10 ["mail"; "example"; "org"]%string |}.
Definition reply : bytes := response 4660 33152 example TYPE_MX [mx1] [].

Lemma example_ok : Forall label_ok example ∧ Forall label_ok ["mail"; "example"; "org"]%string.
Proof. split; repeat constructor; try done; by apply (bool_decide_unpack _). Qed.

Lemma dns_response_roundtrip_witness :
  ∃ rr, parse_response reply = Ok {| id := 4660; rcode := 0; answers := [rr] |} ∧ parse_mx_rdata reply rr = Ok (10, "mail.example.org"%string).
Proof.
  destruct example_ok as [H1 H2].
  destruct (dns_response_roundtrip 4660 33152 example TYPE_MX [mx1] []) as (rrs & Hp & HF);
    [lia|lia|reflexivity|exact H1|discriminate| |vm_compute; reflexivity|].
  - apply Forall_singleton. split_and!; vm_compute; (reflexivity || discriminate).
  - apply Forall2_cons_inv_r in HF as (rr & rest & Hrr & HF & ->). apply Forall2_nil_inv_r in HF as ->.
    exists rr. split; [exact Hp|]. destruct Hrr as (_ & _ & _ & Hmx & _). apply (Hmx 10 ["mail"; "example"; "org"]%string); [reflexivity|lia|exact H2].
Defined.

(** A packet whose name is a pointer to itself. *)
Definition self_pointer : bytes := replicate 12 Byte.x00 ++ [Byte.xc0; Byte.x0c].
Lemma read_name_terminates_witness :
  name_loop 1000 self_pointer (start_name 12) = Some (Err BadPointer).
Proof.
  rewrite (read_name_terminates self_pointer 12 1000); [vm_compute; reflexivity|]. apply (bool_decide_unpack _). vm_compute. exact I.
Defined.

Lemma records_in_packet_witness : ∃ msg, parse_response reply = Ok msg ∧ Forall (in_packet reply) (answers msg).
Proof.
  assert (∃ msg, parse_response reply = Ok msg) as [msg Hm] by (eexists; vm_compute; reflexivity).
  exists msg. split; [exact Hm|]. apply (records_in_packet reply msg Hm).
Defined.

Lemma reply_id_unchecked_witness :
  ∃ msg, query_raw {| txn_id := λ _ _, 7; datagram := λ _, Some reply |} "Example.org" TYPE_MX = Ok (reply, msg) ∧ id msg = 4660.
Proof.
  assert (∃ msg, parse_response reply = Ok msg ∧ id msg = 4660) as (msg & Hm & Hid) by (eexists; split; vm_compute; reflexivity).
  exists msg. split; [|exact Hid]. apply (reply_id_unchecked "Example.org" "example.org" TYPE_MX reply msg (λ _ _, 7)).
  - reflexivity.
  - vm_compute. discriminate.
  - exact Hm.
  - rewrite Hid. discriminate.
Defined.
End DnsWitness.
