(* ===== verification/Mx.v ===== *)
(** * Mail exchangers

    [crates/gateway/src/mx.rs]: the candidates for a destination domain, from a
    table or from DNS, in order of preference, with the domain itself as the
    fallback. *)

From Stdlib Require Import ZArith Lia Ascii String Sorted.
From stdpp Require Import base decidable option sets list strings gmap.
From S2P Require Import Prelude RustStr RustText Dns.
Local Open Scope Z_scope.

Record MxHost := { host : string; preference : Z }.
#[global] Instance MxHost_eq_dec : EqDecision MxHost.
Proof. solve_decision. Defined.

(** [trait MxResolver]. *)
Class MxResolver (R : Type) := { resolve_mx : R → string → list MxHost }.

Module Mx.

(** [sort_by_key]: a stable sort. *)
Fixpoint insert_by (x : MxHost) (l : list MxHost) : list MxHost :=
  match l with
  | [] => [x]
  | y :: l' => if preference x <=? preference y then x :: l else y :: insert_by x l'
  end.
Definition sort_by_preference (l : list MxHost) : list MxHost := foldr insert_by [] l.

Definition fallback (domain : string) : list MxHost := [{| host := domain; preference := 0 |}].

Record InMemoryMxResolver := { records : gmap string (list MxHost) }.
Definition InMemoryMxResolver_new : InMemoryMxResolver := {| records := ∅ |}.
Definition with_mx (domain : string) (hosts : list (string * Z)) (r : InMemoryMxResolver) : InMemoryMxResolver :=
  {| records := <[to_ascii_lowercase domain := (λ hp, {| host := hp.1; preference := hp.2 |}) <$> hosts]> (records r) |}.
Definition table_resolve_mx (r : InMemoryMxResolver) (domain : string) : list MxHost :=
  match records r !! to_ascii_lowercase domain with
  | Some (h :: hs) => sort_by_preference (h :: hs)
  | _ => fallback domain
  end.
#[export] Instance InMemoryMxResolver_MxResolver : MxResolver InMemoryMxResolver := {| resolve_mx := table_resolve_mx |}.

Section dns.
Context `{ID : Idna}.
Record DnsMxResolver := { client : Dns.UdpDnsClient }.
Definition mx_record (packet : bytes) (rr : Dns.ResourceRecord) : option MxHost :=
  match Dns.parse_mx_rdata packet rr with
  | Ok (pref, h) => Some {| host := h; preference := pref |}
  | Err _ => None
  end.
Definition dns_resolve_mx (r : DnsMxResolver) (domain : string) : list MxHost :=
  let domain := match Idn.domain_to_ascii domain with Ok d => d | Err _ => domain end in
  match Dns.query_raw (client r) domain Dns.TYPE_MX with
  | Err _ => fallback domain
  | Ok (packet, msg) =>
      let hosts := omap (mx_record packet) (Dns.of_type Dns.TYPE_MX msg) in
      let hosts := match hosts with [] => fallback domain | _ => hosts end in
      sort_by_preference hosts
  end.
#[export] Instance DnsMxResolver_MxResolver : MxResolver DnsMxResolver := {| resolve_mx := dns_resolve_mx |}.
End dns.

(** ** The sort *)

Definition by_preference (a b : MxHost) : Prop := preference a ≤ preference b.
Definition with_preference (p : Z) (l : list MxHost) : list MxHost := List.filter (λ h, preference h =? p) l.

Lemma insert_by_perm x l : insert_by x l ≡ₚ x :: l.
Proof.
  induction l as [|y l IH]; [done|]. cbn. case_match; [done|]. rewrite IH. apply Permutation_swap.
Qed.
Lemma insert_by_sorted x l : Sorted by_preference l → Sorted by_preference (insert_by x l).
Proof.
  induction l as [|y l IH]; intros Hs; [by repeat constructor|]. cbn. destruct (preference x <=? preference y) eqn:E.
  - apply Z.leb_le in E. constructor; [done|]. by constructor.
  - apply Z.leb_gt in E. apply Sorted_inv in Hs as [Hs Hh]. constructor; [by apply IH|].
    destruct l as [|z l]; cbn; [constructor; unfold by_preference; lia|].
    apply HdRel_inv in Hh. destruct (preference x <=? preference z); constructor; unfold by_preference in *; lia.
Qed.
Lemma insert_by_stable x p l : Sorted by_preference l → with_preference p (insert_by x l) = with_preference p (x :: l).
Proof.
  intros Hs. induction l as [|y l IH]; [done|]. cbn [insert_by]. destruct (preference x <=? preference y) eqn:E; [done|].
  apply Z.leb_gt in E. apply Sorted_inv in Hs as [Hs _]. cbn [with_preference List.filter] in *. unfold with_preference in *. cbn [List.filter] in *.
  rewrite IH by done. destruct (preference y =? p) eqn:Ey, (preference x =? p) eqn:Ex; try done. lia.
Qed.
Lemma sort_spec l :
  sort_by_preference l ≡ₚ l ∧ Sorted by_preference (sort_by_preference l) ∧
  ∀ p, with_preference p (sort_by_preference l) = with_preference p l.
Proof.
  induction l as [|x l (IH1 & IH2 & IH3)]; [done|]. cbn [sort_by_preference foldr]. fold (sort_by_preference l).
  split_and!; [by rewrite insert_by_perm, IH1|by apply insert_by_sorted|].
  intros p. rewrite insert_by_stable by done. unfold with_preference in *. cbn [List.filter]. by rewrite IH3.
Qed.

(** ** Properties *)

(** The candidates for delivery.  A domain with published exchangers gets exactly
    these, lowest preference number first, equal ones in the published order; a
    domain without any gets itself.  There is always at least one candidate. *)
Theorem mx_candidates r domain :
  let out := resolve_mx r domain in
  match records r !! to_ascii_lowercase domain with
  | Some ((_ :: _) as hosts) =>
      out ≡ₚ hosts ∧ Sorted by_preference out ∧ ∀ p, with_preference p out = with_preference p hosts
  | _ => out = [{| host := domain; preference := 0 |}]
  end ∧ out ≠ [].
Proof.
  cbn [resolve_mx InMemoryMxResolver_MxResolver]. unfold table_resolve_mx.
  destruct (records r !! to_ascii_lowercase domain) as [[|h hs]|]; [done| |done].
  pose proof (sort_spec (h :: hs)) as Hs. split; [exact Hs|]. intros E. destruct Hs as (Hp & _).
  rewrite E in Hp. by apply Permutation_nil_cons in Hp.
Qed.

(** ** Over DNS *)

(** An MX answer as the server means it. *)
Definition mx_answer (a : Dns.Answer) (h : MxHost) : Prop :=
  Dns.answer_ok a ∧ Dns.an_type a = Dns.TYPE_MX ∧
  ∃ exchange, Dns.an_rdata a = Dns.mx_rdata (preference h) exchange ∧ 0 ≤ preference h < 65536 ∧
              Forall Dns.label_ok exchange ∧ host h = join "." exchange.

Lemma mx_records_decoded packet qname rrs ans hosts :
  Forall2 (Dns.decoded packet qname) rrs ans → Forall2 mx_answer ans hosts →
  omap (mx_record packet) (List.filter (λ rr, Dns.rtype rr =? Dns.TYPE_MX) rrs) = hosts.
Proof.
  intros H1. revert hosts. induction H1 as [|rr a rrs ans Hd H1 IH]; intros hosts H2; inversion H2 as [|? h ? hs Ha H2']; subst; [done|].
  destruct Ha as (Hok & Hty & exchange & Hrd & Hpref & HF & Hh). cbn [List.filter].
  pose proof Hd as (_ & Ht & _). rewrite Ht, Hty. cbn [Z.eqb]. rewrite Z.eqb_refl. cbn [omap list_omap].
  unfold mx_record at 1. rewrite (Dns.parse_mx_decoded _ _ _ _ _ _ Hd Hrd Hpref HF). rewrite (IH hs H2').
  rewrite <- Hh. by destruct h.
Qed.

(** A DNS server that answers the question of a domain with MX records decides the
    candidates: exactly its exchangers, in order of preference, whatever the names,
    the id of the query and the sections behind the answers. *)
Theorem dns_mx_candidates `{Idna} domain labels ids id flags ans hosts rest :
  Idn.domain_to_ascii domain = Ok (join "." labels) → Idn.domain_to_ascii (join "." labels) = Ok (join "." labels) →
  Forall Dns.label_ok labels → labels ≠ [] →
  0 ≤ id < 65536 → 0 ≤ flags < 65536 → Z.land flags 15 = 0 →
  Forall2 mx_answer ans hosts → hosts ≠ [] → Z.of_nat (length ans) < 65536 →
  let packet := Dns.response id flags labels Dns.TYPE_MX ans rest in
  Z.of_nat (length packet) ≤ 4096 →
  resolve_mx {| client := {| Dns.txn_id := ids; Dns.datagram := λ _, Some packet |} |} domain = sort_by_preference hosts.
Proof.
  intros Hd1 Hd2 HF Hne Hid Hfl Hrc H2 Hnh Hlen packet Hpk.
  assert (Forall Dns.answer_ok ans) as Hans.
  { apply Forall_forall. intros a [i Hi]%list_elem_of_lookup. destruct (Forall2_lookup_l _ _ _ _ _ H2 Hi) as (h & _ & Ha & _). done. }
  destruct (Dns.response_parses id flags labels Dns.TYPE_MX ans rest) as (rrs & Hp & Hdec); try done. fold packet in Hp, Hdec.
  cbn [resolve_mx DnsMxResolver_MxResolver]. unfold dns_resolve_mx. rewrite Hd1. cbn [client].
  rewrite (Dns.query_raw_reply (join "." labels) (join "." labels) Dns.TYPE_MX packet _ ids Hd2 Hpk Hp).
  unfold Dns.of_type. cbn [Dns.answers]. rewrite (mx_records_decoded _ _ _ _ _ Hdec H2). by destruct hosts.
Qed.
End Mx.
