(* ===== verification/MtaSts.v ===== *)
(** * MTA-STS

    [crates/gateway/src/mta_sts.rs], with the [TlsPolicy] trait of [outbound.rs]:
    the policy document, the matching of exchanger names, the discovery of a
    domain's policy, and the requirement it puts on delivery.  The HTTPS
    client that fetches a policy is in [Outbound.v]; what it makes of the response is
    here. *)

From Stdlib Require Import ZArith Lia Ascii String.
From stdpp Require Import base decidable option sets list strings gmap.
From S2P Require Import Prelude RustStr RustText Dkim Dns.
Local Open Scope Z_scope.

Inductive TlsRequirement := Required | Opportunistic.
#[global] Instance TlsRequirement_eq_dec : EqDecision TlsRequirement.
Proof. solve_decision. Defined.

(** [trait TlsPolicy], [trait TxtResolver], [trait PolicyFetcher]. *)
Class TlsPolicy (P : Type) := {
  requirement_for : P → string → TlsRequirement;
  allowed_mx_patterns : P → string → list string;
}.
Class TxtResolver (R : Type) := { txt_lookup : R → string → list string }.
Class PolicyFetcher (F : Type) := { fetch_policy : F → string → option string }.

(** The default of [allowed_mx_patterns] is the empty list. *)
Inductive AlwaysRequireTls := mkAlwaysRequireTls.
#[global] Instance AlwaysRequireTls_TlsPolicy : TlsPolicy AlwaysRequireTls := {|
  requirement_for _ _ := Required;
  allowed_mx_patterns _ _ := [] |}.

Module MtaSts.

Inductive PolicyMode := Enforce | Testing | NoneMode.
#[export] Instance PolicyMode_eq_dec : EqDecision PolicyMode.
Proof. solve_decision. Defined.
Record StsPolicy := { mode : PolicyMode; mx_patterns : list string; max_age : Z }.
Inductive StsParseError :=
| MalformedLine
| MissingVersion
| UnsupportedVersion (v : string)
| MissingMode
| UnknownMode (m : string)
| NoMxPatterns.

(** [value.parse::<u64>().ok()]. *)
Definition parse_u64 (s : string) : option Z :=
  let digits := match s with String c r => if is_char "+" c then r else s | EmptyString => s end in
  match digits with
  | EmptyString => None
  | _ => n ← read_digits 0 digits; if n <=? U64.MAX then Some n else None
  end.

Definition mode_of (value : string) : result StsParseError PolicyMode :=
  if bool_decide (value = "enforce"%string) then Ok Enforce
  else if bool_decide (value = "testing"%string) then Ok Testing
  else if bool_decide (value = "none"%string) then Ok NoneMode
  else Err (UnknownMode value).

(** The variables of the loop of [parse_policy]. *)
Record Fields := { f_version : option string; f_mode : option PolicyMode; f_mx : list string; f_max_age : option Z }.
Definition no_fields : Fields := {| f_version := None; f_mode := None; f_mx := []; f_max_age := None |}.

Definition parse_field (key value : string) (f : Fields) : result StsParseError Fields :=
  if bool_decide (key = "version"%string) then
    Ok {| f_version := Some value; f_mode := f_mode f; f_mx := f_mx f; f_max_age := f_max_age f |}
  else if bool_decide (key = "mode"%string) then
    m ← mode_of value;
    Ok {| f_version := f_version f; f_mode := Some m; f_mx := f_mx f; f_max_age := f_max_age f |}
  else if bool_decide (key = "mx"%string) then
    Ok {| f_version := f_version f; f_mode := f_mode f; f_mx := f_mx f ++ [value]; f_max_age := f_max_age f |}
  else if bool_decide (key = "max_age"%string) then
    Ok {| f_version := f_version f; f_mode := f_mode f; f_mx := f_mx f; f_max_age := parse_u64 value |}
  else Ok f.
Definition parse_line (raw : string) (f : Fields) : result StsParseError Fields :=
  let line := trim raw in
  if bool_decide (line = EmptyString) then Ok f
  else
    '(key, value) ← ok_or MalformedLine (split_once ":" line);
    parse_field (trim key) (trim value) f.
Fixpoint parse_lines (lines : list string) (f : Fields) : result StsParseError Fields :=
  match lines with
  | [] => Ok f
  | line :: lines => f ← parse_line line f; parse_lines lines f
  end.
Definition finish (f : Fields) : result StsParseError StsPolicy :=
  version ← ok_or MissingVersion (f_version f);
  if bool_decide (version ≠ "STSv1"%string) then Err (UnsupportedVersion version)
  else
    mode ← ok_or MissingMode (f_mode f);
    if bool_decide (mode ≠ NoneMode) && bool_decide (f_mx f = []) then Err NoMxPatterns
    else Ok {| mode := mode; mx_patterns := f_mx f; max_age := default 86400 (f_max_age f) |}.
Definition parse_policy (text : string) : result StsParseError StsPolicy :=
  f ← parse_lines (str_lines text) no_fields; finish f.

(** ** Exchanger names *)

(** [host.strip_suffix(suffix)]. *)
Fixpoint strip_suffix (suffix s : string) : option string :=
  if bool_decide (s = suffix) then Some EmptyString
  else match s with EmptyString => None | String c r => String c <$> strip_suffix suffix r end.

Definition mx_pattern_matches (pattern host : string) : bool :=
  let pattern := trim_end_matches "." (trim pattern) in
  let host := trim_end_matches "." (trim host) in
  match strip_prefix "*." pattern with
  | Some suffix =>
      match strip_suffix (String "." (to_ascii_lowercase suffix)) (to_ascii_lowercase host) with
      | Some prefix => negb (bool_decide (prefix = EmptyString)) && negb (contains_char "." prefix)
      | None => false
      end
  | None => eq_ignore_ascii_case pattern host
  end.
Definition any_pattern_matches (patterns : list string) (host : string) : bool :=
  existsb (λ p, mx_pattern_matches p host) patterns.

(** ** Resolvers *)

Record InMemoryTxtResolver := { txt_records : gmap string (list string) }.
Definition with_txt (name : string) (values : list string) (r : InMemoryTxtResolver) : InMemoryTxtResolver :=
  {| txt_records := <[to_ascii_lowercase name := values]> (txt_records r) |}.
#[export] Instance InMemoryTxtResolver_TxtResolver : TxtResolver InMemoryTxtResolver := {|
  txt_lookup r name := default [] (txt_records r !! to_ascii_lowercase name) |}.
Record InMemoryPolicyFetcher := { bodies : gmap string string }.
Definition with_policy (domain body : string) (f : InMemoryPolicyFetcher) : InMemoryPolicyFetcher :=
  {| bodies := <[to_ascii_lowercase domain := body]> (bodies f) |}.
#[export] Instance InMemoryPolicyFetcher_PolicyFetcher : PolicyFetcher InMemoryPolicyFetcher := {|
  fetch_policy f domain := bodies f !! to_ascii_lowercase domain |}.

(** The TXT records of a name over DNS; a failed query is an empty answer. *)
Definition dns_txt `{Idna} (c : Dns.UdpDnsClient) (name : string) : list string :=
  match Dns.query c name Dns.TYPE_TXT with
  | Ok msg => Dns.parse_txt_rdata <$> Dns.of_type Dns.TYPE_TXT msg
  | Err _ => []
  end.
Record DnsTxtResolver := { client : Dns.UdpDnsClient }.
#[export] Instance DnsTxtResolver_TxtResolver `{Idna} : TxtResolver DnsTxtResolver := {| txt_lookup r := dns_txt (client r) |}.

(** [fetch] from the response text on: the status line, and the body behind the
    blank line. *)
Fixpoint split_blank (text : string) : option (string * string) :=
  match strip_prefix (String "013" (String "010" (String "013" (String "010" EmptyString)))) text with
  | Some body => Some (EmptyString, body)
  | None => match text with
            | EmptyString => None
            | String c r => '(h, b) ← split_blank r; Some (String c h, b)
            end
  end.
Definition read_http_response (response : bytes) : option string :=
  '(head, body) ← split_blank (from_utf8_lossy response);
  let status_line := List.hd EmptyString (str_lines head) in
  code ← split_whitespace status_line !! 1%nat;
  if starts_with "2" code then Some body else None.

(** ** The policy of a domain *)

(** [v.trim_start()]. *)
Definition trim_start (s : string) : string :=
  String.string_of_list_byte (strip_while (length (as_bytes s)) white_space (as_bytes s)).

Section policy.
Context {T F : Type} `{TR : TxtResolver T} `{PF : PolicyFetcher F}.

Record MtaStsTlsPolicy := { txt : T; fetcher : F }.
Definition resolve (p : MtaStsTlsPolicy) (domain : string) : option StsPolicy :=
  let signaled := existsb (λ v, starts_with "v=STSv1" (trim_start v)) (txt_lookup (txt p) ("_mta-sts." +:+ domain)) in
  if negb signaled then None
  else
    body ← fetch_policy (fetcher p) domain;
    match parse_policy body with Ok policy => Some policy | Err _ => None end.
Definition sts_requirement_for (p : MtaStsTlsPolicy) (dest_domain : string) : TlsRequirement :=
  match resolve p dest_domain with
  | Some policy => if bool_decide (mode policy = Enforce) then Required else Opportunistic
  | None => Opportunistic
  end.
Definition sts_allowed_mx_patterns (p : MtaStsTlsPolicy) (dest_domain : string) : list string :=
  match resolve p dest_domain with
  | Some policy => if bool_decide (mode policy = Enforce) then mx_patterns policy else []
  | None => []
  end.
#[export] Instance MtaStsTlsPolicy_TlsPolicy : TlsPolicy MtaStsTlsPolicy := {|
  requirement_for := sts_requirement_for;
  allowed_mx_patterns := sts_allowed_mx_patterns |}.
End policy.

(** ** Patterns, label by label *)

Definition label_text (l : string) : Prop := l ≠ EmptyString ∧ contains_char "." l = false ∧ str_all printable l = true.

(** What a pattern covers: a first label [*], before others, stands for any one
    label; otherwise the names are compared, without case. *)
Definition covers (ps hs : list string) : bool :=
  match ps, hs with
  | p :: ((_ :: _) as ps'), h :: hs' =>
      if bool_decide (p = "*"%string) then bool_decide (to_ascii_lowercase <$> ps' = to_ascii_lowercase <$> hs')
      else bool_decide (to_ascii_lowercase <$> ps = to_ascii_lowercase <$> hs)
  | _, _ => bool_decide (to_ascii_lowercase <$> ps = to_ascii_lowercase <$> hs)
  end.

Lemma strip_suffix_Some suf s p : strip_suffix suf s = Some p ↔ s = p +:+ suf.
Proof.
  revert p. induction s as [|c s IH]; intros p; cbn [strip_suffix].
  - case_bool_decide as E; [subst; split; [intros [= <-]; done|]|split; [done|]].
    + by destruct p; intros.
    + intros H. destruct p; [by destruct E|by rewrite str_app_cons in H].
  - case_bool_decide as E.
    + subst suf. split; [intros [= <-]; done|]. intros H. destruct p as [|d p]; [done|]. rewrite str_app_cons in H.
      apply (f_equal str_len) in H. rewrite <- str_app_cons, str_len_app in H. cbn [str_len] in H.
      assert (0 < str_len (String d p)) by (unfold str_len; cbn; lia). lia.
    + split.
      * intros (q & Hq & ->)%fmap_Some. apply IH in Hq. by rewrite str_app_cons, Hq.
      * intros H. destruct p as [|d p]; [by destruct E|]. rewrite str_app_cons in H. injection H as -> Hs.
        apply IH in Hs. by rewrite Hs.
Qed.
Lemma strip_prefix_Some p s r : strip_prefix p s = Some r ↔ s = p +:+ r.
Proof.
  revert s. induction p as [|c p IH]; intros [|d s]; cbn [strip_prefix]; rewrite ?str_app_nil_l, ?str_app_cons; try naive_solver.
  destruct (is_char c d) eqn:E.
  - apply is_char_true in E as ->. rewrite IH. naive_solver.
  - apply is_char_false in E. naive_solver.
Qed.
Lemma join_cons2 x y (l : list string) : join "." (x :: y :: l) = x +:+ String "." (join "." (y :: l)).
Proof. done. Qed.
Lemma lower_join ls : to_ascii_lowercase (join "." ls) = join "." (to_ascii_lowercase <$> ls).
Proof.
  induction ls as [|x [|y ls] IH]; [done|done|]. rewrite !fmap_cons, !join_cons2, to_ascii_lowercase_app. cbn [to_ascii_lowercase].
  rewrite IH. done.
Qed.
Lemma join_printable ls : Forall label_text ls → str_all printable (join "." ls) = true.
Proof.
  induction 1 as [|x ls (_ & _ & Hx) HF IH]; [done|]. destruct ls as [|y ls]; [done|].
  rewrite join_cons2, str_all_app, Hx. cbn [str_all andb]. by rewrite IH.
Qed.
Lemma contains_lower c s : ascii_lower c = c → is_ascii_alphabetic c = false →
  contains_char c (to_ascii_lowercase s) = contains_char c s.
Proof.
  intros Hc Ha. unfold contains_char. induction s as [|d s IH]; [done|]. cbn [to_ascii_lowercase str_any]. rewrite IH. f_equal.
  destruct (is_char c d) eqn:E.
  - apply is_char_true in E as <-. rewrite Hc. apply is_char_refl.
  - apply is_char_false. apply is_char_false in E. intros ->. revert Ha E. clear. destruct d as [[] [] [] [] [] [] [] []]; vm_compute; done.
Qed.
Lemma label_text_lower ls : Forall label_text ls → Forall (λ s, contains_char "." s = false) (to_ascii_lowercase <$> ls).
Proof.
  intros HF. apply Forall_fmap. eapply Forall_impl; [exact HF|]. intros l (_ & Hd & _). cbn. by rewrite contains_lower.
Qed.
Lemma split_lower ls : Forall label_text ls → ls ≠ [] → split_char "." (join "." (to_ascii_lowercase <$> ls)) = to_ascii_lowercase <$> ls.
Proof. intros HF Hne. apply (split_join "."%char); [by destruct ls|by apply label_text_lower]. Qed.
Lemma join_lower_inj ls ls' :
  Forall label_text ls → Forall label_text ls' → ls ≠ [] → ls' ≠ [] →
  join "." (to_ascii_lowercase <$> ls) = join "." (to_ascii_lowercase <$> ls') ↔ to_ascii_lowercase <$> ls = to_ascii_lowercase <$> ls'.
Proof.
  intros H1 H2 N1 N2. split; [|by intros ->]. intros E. apply (f_equal (split_char ".")) in E. by rewrite !split_lower in E.
Qed.

(** The text of a name is its labels. *)
Lemma trimmed_join ls : Forall label_text ls → ls ≠ [] → trim_end_matches "." (trim (join "." ls)) = join "." ls.
Proof.
  intros HF Hne. rewrite trim_printable by by apply join_printable.
  apply Dns.trim_join; [|done]. eapply Forall_impl; [exact HF|]. by intros l (? & ? & _).
Qed.
Lemma wildcard_prefix ps :
  Forall label_text ps → ps ≠ [] →
  strip_prefix "*." (join "." ps) = match ps with p :: ((_ :: _) as ps') => if bool_decide (p = "*"%string) then Some (join "." ps') else None | _ => None end.
Proof.
  intros HF Hne. assert (split_char "." (join "." ps) = ps) as Hs.
  { apply (split_join "."%char); [done|]. eapply Forall_impl; [exact HF|]. by intros l (_ & ? & _). }
  destruct (strip_prefix "*." (join "." ps)) as [r|] eqn:E.
  - apply strip_prefix_Some in E. rewrite E in Hs. change ("*." +:+ r) with ("*" +:+ String "." r) in Hs.
    rewrite split_char_app in Hs by done. destruct ps as [|p ps]; [done|]. injection Hs as <- Hs.
    destruct ps as [|q ps]; [by destruct r; [|destruct (split_char "." (String a r)); discriminate Hs || done]|].
    rewrite join_cons2 in E. rewrite bool_decide_true by done. f_equal.
    change ("*." +:+ r) with ("*" +:+ String "." r) in E. injection E as E. done.
  - destruct ps as [|p [|q ps]]; [done..|]. case_bool_decide as Hp; [|done]. subst p.
    assert (strip_prefix "*." (join "." ("*"%string :: q :: ps)) = Some (join "." (q :: ps))) as H by (by apply strip_prefix_Some).
    by rewrite H in E.
Qed.

(** ** The policy text *)

Definition mode_text (m : PolicyMode) : string :=
  match m with Enforce => "enforce" | Testing => "testing" | NoneMode => "none" end.
Definition field_text (key value : string) : string := key +:+ String ":" (String " " value).
Definition policy_lines (p : StsPolicy) : list string :=
  [field_text "version" "STSv1"; field_text "mode" (mode_text (mode p))] ++ (field_text "mx" <$> mx_patterns p)
  ++ [field_text "max_age" (u64_to_string (max_age p))].
Definition policy_text (p : StsPolicy) : string := foldr (λ l r, l +:+ String "010" r) EmptyString (policy_lines p).
Definition policy_ok (p : StsPolicy) : Prop :=
  Forall word_ok (mx_patterns p) ∧ 0 ≤ max_age p ≤ U64.MAX ∧ (mode p ≠ NoneMode → mx_patterns p ≠ []).

Lemma read_decimal fuel n acc : 0 ≤ n < 10 ^ (Z.of_nat fuel + 1) → read_digits 0 (decimal_loop fuel n acc) = read_digits n acc.
Proof.
  assert (∀ d, 0 ≤ d < 10 → digit_value (Ascii.ascii_of_N (Z.to_N (48 + d))) = Some d) as Hd.
  { intros d Hd. assert (d = 0 ∨ d = 1 ∨ d = 2 ∨ d = 3 ∨ d = 4 ∨ d = 5 ∨ d = 6 ∨ d = 7 ∨ d = 8 ∨ d = 9) as H by lia.
    repeat destruct H as [->|H]; try done. by subst. }
  revert n acc. induction fuel as [|fuel IH]; intros n acc Hn; cbn [decimal_loop].
  - change (10 ^ (Z.of_nat 0 + 1)) with 10 in Hn. rewrite Z.mod_small by done. cbn [read_digits]. by rewrite Hd.
  - destruct (n <? 10) eqn:E.
    + apply Z.ltb_lt in E. rewrite Z.mod_small by lia. cbn [read_digits]. rewrite Hd by lia. done.
    + rewrite IH.
      * cbn [read_digits]. rewrite Hd by (apply Z.mod_pos_bound; lia). cbn [mbind option_bind]. f_equal. pose proof (Z.div_mod n 10). lia.
      * rewrite Nat2Z.inj_succ in Hn. replace (Z.succ (Z.of_nat fuel) + 1) with (Z.succ (Z.of_nat fuel + 1)) in Hn by lia.
        rewrite Z.pow_succ_r in Hn by lia. split; [apply Z.div_pos; lia|]. apply Z.div_lt_upper_bound; lia.
Qed.
Lemma decimal_digits fuel n acc : str_all is_ascii_digit acc = true → 0 ≤ n → str_all is_ascii_digit (decimal_loop fuel n acc) = true ∧ decimal_loop fuel n acc ≠ EmptyString.
Proof.
  assert (∀ d, 0 ≤ d < 10 → is_ascii_digit (Ascii.ascii_of_N (Z.to_N (48 + d))) = true) as Hd.
  { intros d Hd. assert (d = 0 ∨ d = 1 ∨ d = 2 ∨ d = 3 ∨ d = 4 ∨ d = 5 ∨ d = 6 ∨ d = 7 ∨ d = 8 ∨ d = 9) as H by lia.
    repeat destruct H as [->|H]; try done. by subst. }
  revert n acc. induction fuel as [|fuel IH]; intros n acc Ha Hn; cbn [decimal_loop].
  2: case_match; [|apply IH; [|apply Z.div_pos; lia]].
  all: cbn [str_all]; rewrite ?Hd by (apply Z.mod_pos_bound; lia); done.
Qed.
Lemma parse_printed n : 0 ≤ n ≤ U64.MAX → parse_u64 (u64_to_string n) = Some n ∧ word_ok (u64_to_string n).
Proof.
  intros Hn. unfold parse_u64, u64_to_string.
  destruct (decimal_digits 19 n EmptyString) as [Hdig Hne]; [done|lia|].
  assert (read_digits 0 (decimal_loop 19 n EmptyString) = Some n) as Hr by (rewrite read_decimal; [done|unfold U64.MAX in *; lia]).
  split.
  - destruct (decimal_loop 19 n EmptyString) as [|c r]; [done|].
    assert (is_char "+" c = false) as ->. { cbn in Hdig. apply andb_true_iff in Hdig as [Hc _]. apply is_char_false. by intros <-. }
    rewrite Hr. cbn [mbind option_bind]. rewrite (proj2 (Z.leb_le _ _)) by lia. done.
  - split; [|done]. eapply str_all_impl; [|exact Hdig]. intros c. clear. destruct c as [[] [] [] [] [] [] [] []]; vm_compute; done.
Qed.

Lemma field_line key value f :
  word_ok key → contains_char ":" key = false → word_ok value → parse_line (field_text key value) f = parse_field key value f.
Proof.
  intros Hk Hc Hv. unfold parse_line, field_text.
  assert (trim (key +:+ String ":" (String " " value)) = key +:+ String ":" (String " " value)) as ->.
  { change (String ":" (String " " value)) with (": " +:+ value). by apply trim_ends. }
  rewrite bool_decide_false by (destruct key; [by destruct Hk|done]). rewrite split_once_app by done. simpl_res.
  rewrite trim_printable by apply Hk. rewrite trim_space by apply Hv. done.
Qed.
Lemma field_text_one_line key value c :
  contains_char c key = false → str_all printable value = true → printable c = false → c ≠ ":"%char → c ≠ " "%char →
  contains_char c (field_text key value) = false.
Proof.
  intros Hk Hv Hc H1 H2. unfold field_text, contains_char in *. rewrite Dkim.str_any_app. cbn [str_any].
  apply is_char_false in H1, H2. rewrite Hk, H1, H2. cbn [orb]. apply str_any_all. eapply str_all_impl; [|exact Hv].
  intros d Hd. apply negb_true_iff, is_char_false. intros <-. congruence.
Qed.
Lemma parse_mx_lines ps f rest :
  Forall word_ok ps →
  parse_lines ((field_text "mx" <$> ps) ++ rest) f =
  parse_lines rest {| f_version := f_version f; f_mode := f_mode f; f_mx := f_mx f ++ ps; f_max_age := f_max_age f |}.
Proof.
  intros HF. revert f. induction HF as [|p ps Hp HF IH]; intros f; [rewrite app_nil_r; by destruct f|].
  rewrite fmap_cons. cbn [app parse_lines]. rewrite field_line by done. cbn [parse_field]. unfold parse_field.
  rewrite bool_decide_false, bool_decide_false, bool_decide_true by done. simpl_res. rewrite IH. cbn. by rewrite <- app_assoc.
Qed.

(** ** Properties *)

(** Which exchangers a pattern of a policy admits: exactly the names the label
    reading admits.  A wildcard stands for one label, so [*.example.com] admits
    [mail.example.com] and neither [example.com] nor [a.mail.example.com]; case,
    surrounding space and a final dot do not matter. *)
Theorem mx_pattern_decides ps hs :
  Forall label_text ps → Forall label_text hs → ps ≠ [] → hs ≠ [] →
  mx_pattern_matches (join "." ps) (join "." hs) = covers ps hs.
Proof.
  intros Hp Hh Np Nh. unfold mx_pattern_matches. rewrite !trimmed_join by done. rewrite wildcard_prefix by done.
  assert (∀ ps, Forall label_text ps → ps ≠ [] →
    eq_ignore_ascii_case (join "." ps) (join "." hs) = bool_decide (to_ascii_lowercase <$> ps = to_ascii_lowercase <$> hs)) as Heq.
  { intros qs Hq Nq. unfold eq_ignore_ascii_case. rewrite !lower_join. apply bool_decide_ext. by apply join_lower_inj. }
  destruct ps as [|p [|q ps]]; [done|destruct hs; [done|by rewrite Heq]|]. destruct hs as [|h hs]; [done|]. cbn [covers].
  case_bool_decide as Hstar; [|by rewrite Heq]. subst p. apply Forall_cons in Hp as [_ Hp].
  rewrite !lower_join.
  assert (to_ascii_lowercase <$> q :: ps = to_ascii_lowercase <$> hs →
    strip_suffix (String "." (join "." (to_ascii_lowercase <$> q :: ps))) (join "." (to_ascii_lowercase <$> h :: hs))
    = Some (to_ascii_lowercase h)) as Hfit.
  { intros E. apply strip_suffix_Some. rewrite E. destruct hs as [|h' hs]; [done|]. by rewrite !fmap_cons, join_cons2. }
  pose proof Hh as Hh'. apply Forall_cons in Hh' as [(Hne & Hd & _) _].
  destruct (strip_suffix _ _) as [pre|] eqn:E.
  2:{ symmetry. apply bool_decide_eq_false. intros El. by specialize (Hfit El). }
  destruct (contains_char "." pre) eqn:Hdot; cbn [negb]; rewrite ?andb_false_r, ?andb_true_r.
  - symmetry. apply bool_decide_eq_false. intros El. specialize (Hfit El). injection Hfit as ->. by rewrite contains_lower, Hd in Hdot.
  - apply strip_suffix_Some, (f_equal (split_char ".")) in E. rewrite split_lower, split_char_app, split_lower in E by done.
    rewrite fmap_cons in E. injection E as <- E. rewrite bool_decide_false by (by destruct h). by rewrite bool_decide_true.
Qed.

(** A policy document is read back as it was written: its mode, its patterns in
    order, its lifetime. *)
Theorem sts_policy_roundtrip p : policy_ok p → parse_policy (policy_text p) = Ok p.
Proof.
  intros (Hmx & Hage & Hne). destruct (parse_printed (max_age p) Hage) as [Hp Hw]. unfold parse_policy, policy_text.
  assert (word_ok (mode_text (mode p))) as Hm by (by destruct (mode p)).
  rewrite str_lines_concat.
  - unfold policy_lines. cbn [app parse_lines]. rewrite field_line by done.
    change (parse_field "version" "STSv1" no_fields)
      with (Ok (E := StsParseError) {| f_version := Some "STSv1"%string; f_mode := None; f_mx := []; f_max_age := None |}). simpl_res.
    cbn [parse_lines]. rewrite field_line by done. unfold parse_field at 1. rewrite bool_decide_false, bool_decide_true by done.
    assert (mode_of (mode_text (mode p)) = Ok (mode p)) as -> by (by destruct (mode p)). simpl_res.
    rewrite parse_mx_lines by done. cbn [parse_lines f_version f_mode f_mx f_max_age app]. rewrite field_line by done.
    unfold parse_field. rewrite (bool_decide_false ("max_age"%string = "version"%string)), (bool_decide_false ("max_age"%string = "mode"%string)),
      (bool_decide_false ("max_age"%string = "mx"%string)), bool_decide_true by done. simpl_res. rewrite Hp.
    unfold finish. cbn [f_version f_mode f_mx f_max_age]. simpl_res. rewrite bool_decide_false by (by intros []). simpl_res.
    assert (bool_decide (mode p ≠ NoneMode) && bool_decide (mx_patterns p = []) = false) as ->.
    { apply andb_false_iff. destruct (decide (mode p = NoneMode)) as [E|E]; [left; by apply bool_decide_eq_false; intros []|].
      right. apply bool_decide_eq_false. by apply Hne. }
    by destruct p.
  - unfold policy_lines. rewrite !Forall_app. split_and!.
    + repeat apply Forall_cons_2; try apply Forall_nil_2; split; apply field_text_one_line; try done; apply Hm.
    + apply Forall_fmap. eapply Forall_impl; [exact Hmx|]. intros x [Hx _]. split; by apply field_text_one_line.
    + apply Forall_singleton. split; apply field_text_one_line; try done; apply Hw.
Qed.
End MtaSts.

(** ** Witnesses *)

Module MtaStsWitness.
Import MtaSts.
Lemma labels_ok : Forall label_text ["*"; "example"; "com"]%string ∧ Forall label_text ["Mail"; "example"; "COM"]%string.
Proof. split; repeat constructor; done. Qed.
Lemma mx_pattern_decides_witness :
  mx_pattern_matches "*.example.com" "Mail.example.COM" = true ∧ mx_pattern_matches "*.example.com" "example.com" = false.
Proof.
  destruct labels_ok as [H1 H2]. split.
  - change (mx_pattern_matches (join "." ["*"; "example"; "com"]%string) (join "." ["Mail"; "example"; "COM"]%string) = true).
    rewrite mx_pattern_decides; [reflexivity|exact H1|exact H2|discriminate..].
  - change (mx_pattern_matches (join "." ["*"; "example"; "com"]%string) (join "." ["example"; "com"]%string) = false).
    rewrite mx_pattern_decides; [reflexivity|exact H1|apply Forall_cons in H1 as [_ H1]; exact H1|discriminate..].
Defined.

Definition policy : StsPolicy := {| mode := Enforce; mx_patterns := ["mail.example.com"; "*.backup.example.com"]%string; max_age := 604800 |}.
Lemma sts_policy_roundtrip_witness : parse_policy (policy_text policy) = Ok policy.
Proof.
  apply sts_policy_roundtrip. split; [|split].
  - repeat constructor; done.
  - vm_compute. split; discriminate.
  - intros _. discriminate.
Defined.
End MtaStsWitness.
