(* ===== verification/DnsResolvers.v ===== *)
(** * Sender authentication over DNS

    The DNS-backed resolvers of [spf.rs], [dkim.rs] and [dmarc.rs]: the instances
    of the resolver classes over the client of [Dns.v]. *)

From Stdlib Require Import ZArith Lia Ascii String.
From stdpp Require Import base decidable option sets list strings gmap.
From S2P Require Import Prelude RustStr RustText B64 Dkim Directory KotvaMail Spf Dmarc Dns MtaSts.
Local Open Scope Z_scope.

Module DnsResolvers.
Section resolvers.
Context `{ID : Idna}.

Definition answers_of (c : Dns.UdpDnsClient) (name : string) (t : Z) : option (list Dns.ResourceRecord) :=
  match Dns.query c name t with Ok msg => Some (Dns.of_type t msg) | Err _ => None end.

Record DnsSpfResolver := { spf_client : Dns.UdpDnsClient }.
Definition spf_lookup_txt (r : DnsSpfResolver) (name : string) : option (list string) :=
  rrs ← answers_of (spf_client r) name Dns.TYPE_TXT; Some (Dns.parse_txt_rdata <$> rrs : list string).
Definition spf_lookup_a (r : DnsSpfResolver) (name : string) : option (list Z) :=
  rrs ← answers_of (spf_client r) name Dns.TYPE_A; Some (omap Dns.parse_a_rdata rrs : list Z).
Definition spf_lookup_aaaa (r : DnsSpfResolver) (name : string) : option (list Z) :=
  rrs ← answers_of (spf_client r) name Dns.TYPE_AAAA; Some (omap Dns.parse_aaaa_rdata rrs : list Z).
Definition mx_name (packet : bytes) (rr : Dns.ResourceRecord) : option string :=
  match Dns.parse_mx_rdata packet rr with Ok (_, h) => Some h | Err _ => None end.
Definition spf_lookup_mx (r : DnsSpfResolver) (name : string) : option (list string) :=
  match Dns.query_raw (spf_client r) name Dns.TYPE_MX with
  | Ok (packet, msg) => Some (omap (mx_name packet) (Dns.of_type Dns.TYPE_MX msg))
  | Err _ => None
  end.
#[export] Instance DnsSpfResolver_SpfResolver : Spf.SpfResolver DnsSpfResolver := {|
  Spf.lookup_txt := spf_lookup_txt;
  Spf.lookup_a := spf_lookup_a;
  Spf.lookup_aaaa := spf_lookup_aaaa;
  Spf.lookup_mx := spf_lookup_mx |}.

(** [find_map]. *)
Fixpoint find_map {A B} (f : A → option B) (l : list A) : option B :=
  match l with [] => None | x :: l => match f x with Some y => Some y | None => find_map f l end end.

Record DnsDkimKeyResolver := { dkim_client : Dns.UdpDnsClient }.
Definition dkim_key_name (domain selector : string) : string := selector +:+ "._domainkey." +:+ domain.
Definition dns_dkim_key (r : DnsDkimKeyResolver) (domain selector : string) : option bytes :=
  rrs ← answers_of (dkim_client r) (dkim_key_name domain selector) Dns.TYPE_TXT;
  find_map Dkim.parse_public_key_txt (Dns.parse_txt_rdata <$> rrs : list string).
#[export] Instance DnsDkimKeyResolver_DkimKeyResolver : Dkim.DkimKeyResolver DnsDkimKeyResolver := {|
  Dkim.resolve_dkim_key := dns_dkim_key |}.

Record DnsDmarcResolver := { dmarc_client : Dns.UdpDnsClient }.
#[export] Instance DnsDmarcResolver_DmarcTxtResolver : Dmarc.DmarcTxtResolver DnsDmarcResolver := {|
  Dmarc.dmarc_lookup_txt r := MtaSts.dns_txt (dmarc_client r) |}.

(** ** A server and what it answers *)

(** A client whose queries are all answered by one datagram. *)
Definition answering (packet : bytes) : Dns.UdpDnsClient := {| Dns.txn_id := λ _ _, 0; Dns.datagram := λ _, Some packet |}.

Lemma answers_of_reply name ascii packet msg t :
  Idn.domain_to_ascii name = Ok ascii → Z.of_nat (length packet) ≤ 4096 → Dns.parse_response packet = Ok msg →
  answers_of (answering packet) name t = Some (Dns.of_type t msg).
Proof using.
  intros Hn Hlen Hp. unfold answers_of, Dns.query, answering. by rewrite (Dns.query_raw_reply _ _ _ _ _ _ Hn Hlen Hp).
Qed.

(** A key record as RFC 6376 has it. *)
Definition key_record (pk : bytes) : string := "v=DKIM1; k=ed25519; p=" +:+ B64.encode pk.
Lemma parse_key_record pk : pk ≠ [] → Dkim.parse_public_key_txt (key_record pk) = Some pk.
Proof using.
  intros Hne. destruct (Directory.encode_word pk Hne) as [Hp Hn].
  assert (contains_char ";" (B64.encode pk) = false) as Hs by by apply Directory.base64_char.
  unfold Dkim.parse_public_key_txt, key_record.
  change ("v=DKIM1; k=ed25519; p=" +:+ B64.encode pk) with ("v=DKIM1" +:+ String ";" (" k=ed25519" +:+ String ";" (String " " ("p=" +:+ B64.encode pk)))).
  rewrite !split_char_app by done. rewrite split_char_none.
  2:{ unfold contains_char in *. cbn [str_any]. rewrite Dkim.str_any_app. cbn [str_any]. by rewrite Hs. }
  cbn [Dkim.first_p_tag]. change (strip_prefix "p=" (trim "v=DKIM1")) with (@None string).
  change (strip_prefix "p=" (trim " k=ed25519")) with (@None string). cbn match.
  rewrite trim_space by (rewrite str_all_app; by rewrite Hp).
  assert (strip_prefix "p=" ("p=" +:+ B64.encode pk) = Some (B64.encode pk)) as -> by (by apply MtaSts.strip_prefix_Some).
  rewrite remove_whitespace_printable by done. rewrite bool_decide_false by done. by rewrite B64.base64_roundtrip.
Qed.

(** ** Properties *)

(** A published DKIM key is found: when the DNS server answers the query for
    [selector._domainkey.domain] with the key record, in any number of character
    strings, the resolver returns exactly the key. *)
Theorem dns_key_found domain selector labels ascii id flags a strings pk rest :
  Idn.domain_to_ascii (dkim_key_name domain selector) = Ok ascii →
  0 ≤ id < 65536 → 0 ≤ flags < 65536 → Z.land flags 15 = 0 → Forall Dns.label_ok labels → labels ≠ [] →
  Dns.answer_ok a → Dns.an_type a = Dns.TYPE_TXT → Dns.an_rdata a = Dns.txt_rdata strings → Forall Dns.txt_ok strings →
  foldr String.append EmptyString strings = key_record pk → pk ≠ [] →
  let packet := Dns.response id flags labels Dns.TYPE_TXT [a] rest in
  Z.of_nat (length packet) ≤ 4096 →
  Dkim.resolve_dkim_key {| dkim_client := answering packet |} domain selector = Some pk.
Proof using.
  intros Hn Hid Hfl Hrc HF Hne Ha Hty Hrd Hstr Htxt Hpk packet Hlen.
  destruct (Dns.response_parses id flags labels Dns.TYPE_TXT [a] rest) as (rrs & Hp & H2); try done; [by apply Forall_singleton|].
  fold packet in Hp, H2. apply Forall2_cons_inv_r in H2 as (rr & r & Hd & H2 & ->). apply Forall2_nil_inv_r in H2 as ->.
  cbn [Dkim.resolve_dkim_key DnsDkimKeyResolver_DkimKeyResolver]. unfold dns_dkim_key. cbn [dkim_client].
  rewrite (answers_of_reply _ _ _ _ _ Hn Hlen Hp). unfold Dns.of_type. cbn [Dns.answers List.filter].
  destruct Hd as (_ & Ht & Hdat & _). rewrite Ht, Hty, Z.eqb_refl. cbn [mbind option_bind fmap list_fmap find_map].
  unfold Dns.parse_txt_rdata. rewrite Hdat, Hrd, Dns.txt_loop_strings by done. by rewrite Htxt, parse_key_record.
Qed.

(** A server failure reads as an absent record: when the DNS server answers with an
    error code, SPF finds no policy instead of a temporary error, so the message is
    not deferred. *)
Theorem servfail_is_no_record ip domain sender ascii packet msg :
  Idn.domain_to_ascii (Spf.normalize domain) = Ok ascii → Z.of_nat (length packet) ≤ 4096 →
  Dns.parse_response packet = Ok msg → Dns.rcode msg ≠ 0 →
  Spf.check_host {| spf_client := answering packet |} ip domain sender = Spf.SpfNone.
Proof using.
  intros Hn Hlen Hp Hrc. unfold Spf.check_host, Spf.run_check_host. cbn [Spf.check_host_at Spf.MAX_CHAIN_DEPTH]. unfold Spf.check_host_body.
  case_bool_decide; [done|]. cbn [Spf.lookup_txt DnsSpfResolver_SpfResolver]. unfold spf_lookup_txt. cbn [spf_client].
  rewrite (answers_of_reply _ _ _ _ _ Hn Hlen Hp). unfold Dns.of_type. by rewrite (Dns.failed_no_answers _ _ Hp Hrc).
Qed.
End resolvers.
End DnsResolvers.

(** ** Witnesses *)

Module DnsResolversWitness.
Import DnsResolvers DnsWitness.
Definition pk : bytes := replicate 32 Byte.x07.
Definition txt_answer : Dns.Answer :=
  {| Dns.an_type := Dns.TYPE_TXT; Dns.an_class := Dns.CLASS_IN; Dns.an_ttl := replicate 4 Byte.x00;
     Dns.an_rdata := Dns.txt_rdata [key_record pk] |}.
Definition labels : list string := ["s1"; "_domainkey"; "example"; "org"]%string.
Definition key_packet : bytes := Dns.response 1 33152 labels Dns.TYPE_TXT [txt_answer] [].

Lemma dns_key_found_witness : Dkim.resolve_dkim_key {| dkim_client := answering key_packet |} "example.org" "s1" = Some pk.
Proof.
  apply (dns_key_found "example.org" "s1" labels "s1._domainkey.example.org" 1 33152 txt_answer [key_record pk] pk []).
  - reflexivity.
  - lia.
  - lia.
  - reflexivity.
  - repeat constructor; try done; by apply (bool_decide_unpack _).
  - discriminate.
  - split_and!; vm_compute; (reflexivity || discriminate).
  - reflexivity.
  - reflexivity.
  - apply Forall_singleton. split; vm_compute; reflexivity.
  - vm_compute. reflexivity.
  - discriminate.
  - vm_compute. discriminate.
Defined.

(** SERVFAIL. *)
Definition servfail : bytes := Dns.response 1 33154 labels Dns.TYPE_TXT [] [].
Lemma servfail_is_no_record_witness :
  Spf.check_host {| spf_client := answering servfail |} (V4 16909060) "example.org" "a@example.org" = Spf.SpfNone.
Proof.
  assert (∃ msg, Dns.parse_response servfail = Ok msg ∧ Dns.rcode msg = 2) as (msg & Hm & Hr) by (eexists; split; vm_compute; reflexivity).
  apply (servfail_is_no_record _ _ _ "example.org" servfail msg).
  - reflexivity.
  - vm_compute. discriminate.
  - exact Hm.
  - rewrite Hr. discriminate.
Defined.
End DnsResolversWitness.
