(* ===== verification/Net.v ===== *)
(** * Line framing, replies, connection slots

    [crates/gateway/src/net.rs].  A stream is the bytes its peer sends before it
    closes; an interrupted read is retried and does not show.  [ConnLimiter] is
    modelled with its threads: the load and the compare-exchange of [try_acquire]
    are separate steps that interleave. *)

From Stdlib Require Import ZArith Lia Ascii String.
From stdpp Require Import base decidable option sets list strings gmap.
From S2P Require Import Prelude RustStr RustText.
Local Open Scope Z_scope.

Module Net.

Inductive IoError := UnexpectedEof | LineTooLong | NoReply | ShortReply | BadCode.
Definition io_text (e : IoError) : string :=
  match e with
  | UnexpectedEof => "peer closed mid-line"
  | LineTooLong => "SMTP line too long"
  | NoReply => "no SMTP reply"
  | ShortReply => "short SMTP reply line"
  | BadCode => "non-numeric SMTP code"
  end.
(** What ends a call early: an error, or a panic of the thread. *)
Inductive Fault := Io (e : IoError) | Panicked.

(** ** Lines *)

Definition max_line : Z := 64 * 1024.
Definition pop_cr (buf : bytes) : bytes :=
  match last buf with
  | Some b => if bool_decide (b = Byte.x0d) then take (length buf - 1) buf else buf
  | None => buf
  end.
Fixpoint read_line_loop (input buf : bytes) : result IoError (option bytes) * bytes :=
  match input with
  | [] => (if bool_decide (buf = []) then Ok None else Err UnexpectedEof, [])
  | b :: input =>
      if bool_decide (b = Byte.x0a) then (Ok (Some (pop_cr buf)), input)
      else
        let buf := buf ++ [b] in
        if max_line <? Z.of_nat (length buf) then (Err LineTooLong, input) else read_line_loop input buf
  end.
Definition read_line (input : bytes) : result IoError (option bytes) * bytes := read_line_loop input [].
Definition read_line_str (input : bytes) : result IoError (option string) * bytes :=
  match read_line input with
  | (Ok o, input) => (Ok (from_utf8_lossy <$> o), input)
  | (Err e, input) => (Err e, input)
  end.

(** ** Replies *)

(** [s.is_char_boundary(i)] for a string of valid UTF-8. *)
Definition is_char_boundary (i : nat) (s : string) : bool :=
  match as_bytes s !! i with
  | Some b => negb ((128 <=? b2z b) && (b2z b <=? 191))
  | None => (i =? length (as_bytes s))%nat
  end.
(** [&s[..i]], which panics off a boundary, and [s.get(i..)]. *)
Definition slice_to (i : nat) (s : string) : option string :=
  if is_char_boundary i s then Some (String.string_of_list_byte (take i (as_bytes s))) else None.
Definition get_from (i : nat) (s : string) : option string :=
  if is_char_boundary i s then Some (String.string_of_list_byte (drop i (as_bytes s))) else None.
Definition parse_u16 (s : string) : option Z :=
  let digits := match s with String c r => if is_char "+" c then r else s | EmptyString => s end in
  match digits with
  | EmptyString => None
  | _ => n ← read_digits 0 digits; if n <=? 65535 then Some n else None
  end.

(** The code of a reply line and whether it is continued. *)
Definition reply_code (line : string) : result Fault (Z * bool) :=
  if (length (as_bytes line) <? 3)%nat then Err (Io ShortReply)
  else
    match slice_to 3 line with
    | None => Err Panicked
    | Some digits =>
        code ← ok_or (Io BadCode) (parse_u16 digits);
        Ok (code, bool_decide (as_bytes line !! 3%nat = Some Byte.x2d))
    end.
Fixpoint reply_loop (fuel : nat) (text : string) (input : bytes) : result Fault (Z * string) * bytes :=
  match fuel with
  | O => (Err (Io NoReply), input)
  | S fuel =>
      match read_line_str input with
      | (Err e, input) => (Err (Io e), input)
      | (Ok None, input) => (Err (Io NoReply), input)
      | (Ok (Some line), input) =>
          match reply_code line with
          | Err f => (Err f, input)
          | Ok (code, more) =>
              let text := if bool_decide (text = EmptyString) then text else text +:+ " " in
              let text := text +:+ trim (default EmptyString (get_from 4 line)) in
              if more then reply_loop fuel text input else (Ok (code, text), input)
          end
      end
  end.
(** Every line takes a byte of the input. *)
Definition read_reply (input : bytes) : result Fault (Z * string) * bytes := reply_loop (S (length input)) EmptyString input.

(** ** Connection slots *)

(** Where a thread is: about to load the counter, holding a loaded value, refused,
    or holding a slot. *)
Inductive Thread := Trying | Loaded (cur : Z) | Refused | Holding.
Record Limiter := { active : Z; limit : Z; threads : list Thread }.
Definition with_thread (i : nat) (t : Thread) (a : Z) (l : Limiter) : Limiter :=
  {| active := a; limit := limit l; threads := <[i := t]> (threads l) |}.

Inductive limiter_step : Limiter → Limiter → Prop :=
| ls_connect l : limiter_step l {| active := active l; limit := limit l; threads := threads l ++ [Trying] |}
| ls_load l i : threads l !! i = Some Trying → limiter_step l (with_thread i (Loaded (active l)) (active l) l)
| ls_refuse l i cur : threads l !! i = Some (Loaded cur) → limit l ≤ cur → limiter_step l (with_thread i Refused (active l) l)
| ls_exchange l i cur :
    threads l !! i = Some (Loaded cur) → cur < limit l → active l = cur →
    limiter_step l (with_thread i Holding (cur + 1) l)
| ls_lost_race l i cur :
    threads l !! i = Some (Loaded cur) → cur < limit l → active l ≠ cur →
    limiter_step l (with_thread i Trying (active l) l)
| ls_drop l i : threads l !! i = Some Holding → limiter_step l (with_thread i Refused (active l - 1) l).

Inductive limiter_reachable (max : Z) : Limiter → Prop :=
| lr_new : limiter_reachable max {| active := 0; limit := max; threads := [] |}
| lr_step l l' : limiter_reachable max l → limiter_step l l' → limiter_reachable max l'.

Definition is_holding (t : Thread) : bool := match t with Holding => true | _ => false end.
Definition holders (l : Limiter) : Z := Z.of_nat (length (List.filter is_holding (threads l))).

Lemma filter_update i t t' ts :
  ts !! i = Some t →
  Z.of_nat (length (List.filter is_holding (<[i := t']> ts))) =
  Z.of_nat (length (List.filter is_holding ts)) - (if is_holding t then 1 else 0) + (if is_holding t' then 1 else 0).
Proof.
  revert i. induction ts as [|x ts IH]; intros [|i] H; try done.
  - injection H as ->. cbn [insert list_insert List.filter]. destruct (is_holding t), (is_holding t'); cbn [length]; lia.
  - specialize (IH i H). change (<[S i := t']> (x :: ts)) with (x :: <[i := t']> ts). cbn [List.filter].
    destruct (is_holding x); cbn [length]; lia.
Qed.

(** ** Framing *)

Definition no_lf (l : bytes) : Prop := Forall (λ b, b ≠ Byte.x0a) l.

Lemma read_line_loop_app l rest buf :
  no_lf l → Z.of_nat (length buf + length l) ≤ max_line → read_line_loop (l ++ rest) buf = read_line_loop rest (buf ++ l).
Proof.
  intros Hl. revert buf. induction Hl as [|b l Hb Hl IH]; intros buf Hlen; [by rewrite app_nil_r|].
  cbn [app read_line_loop length] in *. rewrite bool_decide_false by done.
  rewrite (proj2 (Z.ltb_ge _ _)) by (rewrite length_app; cbn; lia).
  rewrite IH by (rewrite length_app; cbn; lia). by rewrite <- app_assoc.
Qed.
Lemma pop_cr_app l : pop_cr (l ++ [Byte.x0d]) = l.
Proof.
  unfold pop_cr. rewrite last_snoc, bool_decide_true by done. rewrite length_app. cbn [length].
  replace (length l + 1 - 1)%nat with (length l) by lia. apply take_app_length.
Qed.
Lemma read_line_crlf l rest :
  no_lf l → Z.of_nat (length l) < max_line → read_line (l ++ [Byte.x0d; Byte.x0a] ++ rest) = (Ok (Some l), rest).
Proof.
  intros Hl Hlen. unfold read_line. rewrite read_line_loop_app by (done || (cbn; lia)). cbn [app read_line_loop].
  rewrite bool_decide_false by done. rewrite (proj2 (Z.ltb_ge _ _)) by (rewrite length_app; cbn; lia).
  rewrite bool_decide_true by done. by rewrite pop_cr_app.
Qed.
Lemma read_line_rest input : (length (read_line input).2 ≤ length input)%nat ∧
  (∀ l, (read_line input).1 = Ok (Some l) → (length (read_line input).2 < length input)%nat).
Proof.
  unfold read_line. assert (∀ buf, (length (read_line_loop input buf).2 ≤ length input)%nat ∧
    (∀ l, (read_line_loop input buf).1 = Ok (Some l) → (length (read_line_loop input buf).2 < length input)%nat)) as H; [|apply H].
  induction input as [|b input IH]; intros buf; cbn [read_line_loop].
  - split; [done|]. intros l. by case_bool_decide.
  - case_bool_decide; [cbn; split; [lia|intros; lia]|]. case_match; [cbn; split; [lia|done]|].
    destruct (IH (buf ++ [b])) as [H1 H2]. cbn [length]. split; [lia|]. intros l Hl. specialize (H2 l Hl). lia.
Qed.

(** The text of a reply as a server writes it. *)
Definition reply_line (code : string) (sep : byte) (text : string) : bytes := as_bytes code ++ [sep] ++ as_bytes text ++ [Byte.x0d; Byte.x0a].
Fixpoint reply_lines (code : string) (texts : list string) : bytes :=
  match texts with
  | [] => []
  | [t] => reply_line code Byte.x20 t
  | t :: texts => reply_line code Byte.x2d t ++ reply_lines code texts
  end.
Definition code_ok (code : string) (n : Z) : Prop :=
  length (as_bytes code) = 3%nat ∧ str_all is_ascii_digit code = true ∧ read_digits 0 code = Some n.
Definition text_ok (t : string) : Prop :=
  t ≠ EmptyString ∧ trim t = t ∧ str_all is_ascii t = true ∧ contains_char "010" t = false ∧ str_len t < 60000.

Lemma no_lf_str s : contains_char "010" s = false → no_lf (as_bytes s).
Proof.
  intros H%str_any_all. assert (Forall (λ b, b2z b ≠ 10) (as_bytes s)) as HF.
  { apply (str_all_bytes (λ z, z ≠ 10) (λ c, negb (is_char "010" c))); [|done]. intros c Hc%negb_true_iff%is_char_false E.
    apply Hc. revert E. clear. destruct c as [[] [] [] [] [] [] [] []]; vm_compute; done. }
  eapply Forall_impl; [exact HF|]. intros b Hb ->. by apply Hb.
Qed.
Lemma digits_no_lf s : str_all is_ascii_digit s = true → contains_char "010" s = false ∧ str_all is_ascii s = true.
Proof.
  intros H. split; [apply str_any_all|]; (eapply str_all_impl; [|exact H]); intros c; clear; destruct c as [[] [] [] [] [] [] [] []]; vm_compute; done.
Qed.
Lemma ascii_bytes s : str_all is_ascii s = true → Forall (λ b, b2z b < 128) (as_bytes s).
Proof. intros H. apply (str_all_bytes (λ z, z < 128) is_ascii); [|done]. intros c. apply Z.ltb_lt. Qed.

Section reply.
Context (code : string) (n : Z) (Hcode : code_ok code n) (t : string) (Ht : text_ok t) (c : ascii) (Hc : c = " "%char ∨ c = "-"%char).
Local Notation line := (code +:+ String c t).

Lemma line_bytes : as_bytes line = as_bytes code ++ byte_of_ascii c :: as_bytes t.
Proof using. rewrite as_bytes_app. done. Qed.
Lemma line_ascii : str_all is_ascii line = true ∧ contains_char "010" line = false ∧ Z.of_nat (length (as_bytes line)) < max_line.
Proof using Hcode Ht Hc.
  destruct Hcode as (Hl & Hd & _), Ht as (_ & _ & Ha & Hlf & Hlen). destruct (digits_no_lf code Hd) as [H1 H2]. split_and!.
  - rewrite str_all_app, H2. cbn [str_all]. rewrite Ha. destruct Hc as [->| ->]; done.
  - unfold contains_char in *. apply str_any_all in H1, Hlf. apply str_any_all. rewrite str_all_app, H1. cbn [str_all]. rewrite Hlf.
    destruct Hc as [->| ->]; done.
  - rewrite line_bytes, length_app, Hl. unfold str_len, max_line in *. cbn [length]. lia.
Qed.
Lemma line_boundary i : is_char_boundary i line = (i <=? length (as_bytes line))%nat.
Proof using Hcode Ht Hc.
  destruct line_ascii as (Ha & _ & _). apply ascii_bytes in Ha. unfold is_char_boundary.
  destruct (as_bytes line !! i) as [b|] eqn:E.
  - pose proof (lookup_lt_Some _ _ _ E). apply (Forall_lookup_1 _ _ _ _ Ha) in E. rewrite (proj2 (Z.leb_gt 128 _)) by done.
    symmetry. apply Nat.leb_le. lia.
  - apply lookup_ge_None in E. destruct (i =? _)%nat eqn:E1; symmetry; [apply Nat.eqb_eq in E1; apply Nat.leb_le; lia|].
    apply Nat.eqb_neq in E1. apply Nat.leb_gt. lia.
Qed.
Lemma line_code : reply_code line = Ok (n, is_char "-" c) ∧ get_from 4 line = Some t.
Proof using Hcode Ht Hc.
  pose proof Hcode as (Hl & Hd & Hr). pose proof line_bytes as Hb.
  assert (length (as_bytes line) = (4 + length (as_bytes t))%nat) as Hlen by (rewrite Hb, length_app, Hl; cbn; lia).
  unfold reply_code, slice_to, get_from. rewrite !line_boundary, Hlen.
  rewrite (proj2 (Nat.ltb_ge _ _)), !(proj2 (Nat.leb_le _ _)) by lia. rewrite Hb. split.
  - rewrite <- Hl at 1. rewrite take_app_length, String.string_of_list_byte_of_string.
    assert (parse_u16 code = Some n) as ->.
    { unfold parse_u16. destruct code as [|x r]; [done|]. cbn [str_all] in Hd. apply andb_true_iff in Hd as [Hx Hrd].
      assert (is_char "+" x = false) as -> by (apply is_char_false; by intros <-). rewrite Hr. cbn [mbind option_bind].
      assert (n <= 65535); [|by rewrite (proj2 (Z.leb_le _ _))].
      destruct r as [|y [|z [|]]]; cbn in Hl; try lia. cbn [str_all] in Hrd. apply andb_true_iff in Hrd as [Hy Hz].
      apply andb_true_iff in Hz as [Hz _]. cbn [read_digits] in Hr. unfold digit_value in Hr. rewrite Hx, Hy, Hz in Hr.
      cbn [mbind option_bind] in Hr. injection Hr as <-. unfold is_ascii_digit, char_in in *. apply andb_true_iff in Hx, Hy, Hz. lia. }
    simpl_res. f_equal. f_equal. rewrite lookup_app_r, Hl by lia. cbn. destruct Hc as [->| ->]; done.
  - rewrite drop_app, Hl. rewrite drop_ge by lia. change (4 - 3)%nat with 1%nat. cbn [app drop]. rewrite drop_0. by rewrite String.string_of_list_byte_of_string.
Qed.
Lemma line_read rest : read_line_str (as_bytes line ++ [Byte.x0d; Byte.x0a] ++ rest) = (Ok (Some line), rest).
Proof using Hcode Ht Hc.
  destruct line_ascii as (Ha & Hlf & Hlen). unfold read_line_str. rewrite read_line_crlf by (done || by apply no_lf_str).
  cbn [fmap option_fmap option_map]. by rewrite from_utf8_lossy_ascii.
Qed.
End reply.

Definition before (acc : string) : string := if bool_decide (acc = EmptyString) then EmptyString else acc +:+ " ".
Lemma reply_loop_lines code n texts fuel acc rest :
  code_ok code n → Forall text_ok texts → texts ≠ [] → (length texts ≤ fuel)%nat →
  reply_loop fuel acc (reply_lines code texts ++ rest) = (Ok (n, before acc +:+ join " " texts), rest).
Proof.
  intros Hc HF Hne. revert fuel acc. induction HF as [|t texts Ht HF IH]; [done|]. intros fuel acc Hf. destruct fuel as [|fuel]; [cbn in Hf; lia|].
  cbn [reply_loop]. set (sep := match texts with [] => " "%char | _ => "-"%char end).
  assert (sep = " "%char ∨ sep = "-"%char) as Hsep by (destruct texts; auto).
  assert (∃ tl, reply_lines code (t :: texts) ++ rest = as_bytes (code +:+ String sep t) ++ [Byte.x0d; Byte.x0a] ++ tl ∧
          tl = match texts with [] => rest | _ => reply_lines code texts ++ rest end) as (tl & -> & Htl).
  { eexists. split; [|done]. rewrite line_bytes. destruct texts; cbn [reply_lines]; unfold reply_line, sep; rewrite <- !app_assoc; reflexivity. }
  rewrite (line_read _ _ Hc _ Ht _ Hsep). destruct (line_code _ _ Hc _ Ht _ Hsep) as [-> ->]. change (default EmptyString (Some t)) with t.
  replace (trim t) with t by (symmetry; apply Ht).
  assert ((if bool_decide (acc = EmptyString) then acc else acc +:+ " ") = before acc) as -> by (unfold before; by case_bool_decide).
  destruct texts as [|t' texts].
  - unfold sep. cbn [is_char]. rewrite (proj2 (is_char_false "-" " ")) by done. by rewrite Htl.
  - unfold sep. rewrite is_char_refl, Htl. rewrite IH; [|done|cbn in *; lia]. do 3 f_equal.
    unfold before at 1. rewrite bool_decide_false.
    + change (join " " (t :: t' :: texts)) with (t +:+ " " +:+ join " " (t' :: texts)). by rewrite <- !str_app_assoc.
    + intros E. apply (f_equal str_len) in E. rewrite str_len_app in E. destruct Ht as (Ht & _). destruct t; [done|].
      pose proof (str_len_nonneg (before acc)). unfold str_len in *. cbn in E. lia.
Qed.
Lemma reply_lines_length code texts : (length texts ≤ length (reply_lines code texts))%nat.
Proof.
  induction texts as [|t [|t' texts] IH]; [done| |].
  - cbn [reply_lines length]. unfold reply_line. rewrite !length_app. cbn. lia.
  - change (reply_lines code (t :: t' :: texts)) with (reply_line code Byte.x2d t ++ reply_lines code (t' :: texts)).
    rewrite length_app. unfold reply_line. rewrite !length_app. cbn [length] in *. lia.
Qed.
(** ** Properties *)

(** The connection limit holds under every interleaving: whatever the threads do and
    in whatever order their loads, exchanges and drops happen, the counter is exactly
    the number of connections that hold a slot, and that never exceeds the limit. *)
Theorem limiter_never_exceeded max l :
  0 ≤ max → limiter_reachable max l → active l = holders l ∧ holders l ≤ max ∧ limit l = max.
Proof.
  intros Hmax. induction 1 as [|l l' _ (IH1 & IH2 & IH3) Hs]; [done|]. unfold holders in *.
  inversion Hs as [m|m i Ht|m i cur Ht Hc|m i cur Ht Hc Ha|m i cur Ht Hc Ha|m i Ht]; subst; cbn [with_thread threads active limit] in *.
  { rewrite List.filter_app. cbn. rewrite length_app. cbn. lia. }
  all: rewrite (filter_update _ _ _ _ Ht); cbn [is_holding]; lia.
Qed.

(** An SMTP reply, on one line or several, is read as its code and its texts, and
    nothing behind it is consumed. *)
Theorem reply_roundtrip code n texts rest :
  code_ok code n → Forall text_ok texts → texts ≠ [] → read_reply (reply_lines code texts ++ rest) = (Ok (n, join " " texts), rest).
Proof.
  intros Hc HF Hne. unfold read_reply. rewrite (reply_loop_lines code n); [done|done|done|done|].
  rewrite length_app. pose proof (reply_lines_length code texts). lia.
Qed.

(** A peer can end the thread that reads its reply: a reply line whose third byte is
    not ASCII makes the reader panic, because the code is cut out of the decoded text
    at byte 3. *)
Theorem reply_panics a b tail rest :
  b2z a < 128 → b2z b < 128 → a ≠ Byte.x0a → b ≠ Byte.x0a → no_lf tail → Z.of_nat (length tail) < 60000 →
  (read_reply ([a; b; Byte.xff] ++ tail ++ [Byte.x0d; Byte.x0a] ++ rest)).1 = Err Panicked.
Proof.
  intros Ha Hb Na Nb Ht Hlen. unfold read_reply. cbn [reply_loop]. unfold read_line_str.
  rewrite app_assoc, read_line_crlf.
  - cbn [fmap option_fmap option_map]. unfold from_utf8_lossy.
    assert (∃ out, lossy_loop (length ([a; b; Byte.xff] ++ tail)) ([a; b; Byte.xff] ++ tail) = [a; b; Byte.xef; Byte.xbf] ++ out) as [out ->].
    { assert (∀ x, b2z x < 128 → in_range 0 127 x = true) as Hr.
      { intros x Hx. unfold in_range. pose proof (b2z_range x). rewrite !(proj2 (Z.leb_le _ _)) by lia. done. }
      cbn [app length lossy_loop]. rewrite !Hr by done. by eexists. }
    unfold reply_code, slice_to, is_char_boundary. rewrite String.list_byte_of_string_of_list_byte. cbn [app length lookup list_lookup].
    done.
  - repeat (apply Forall_cons_2; [done|]). done.
  - cbn [length app]. unfold max_line. lia.
Qed.
End Net.

(** ** Witnesses *)

Module NetWitness.
Import Net.
Lemma limiter_never_exceeded_witness :
  holders {| active := 1; limit := 1; threads := [Holding; Loaded 0] |} ≤ 1.
Proof.
  eapply (limiter_never_exceeded 1 {| active := 1; limit := 1; threads := [Holding; Loaded 0] |}); [lia|].
  eapply (lr_step 1 {| active := 0; limit := 1; threads := [Loaded 0; Loaded 0] |});
    [|apply (ls_exchange {| active := 0; limit := 1; threads := [Loaded 0; Loaded 0] |} 0 0); done].
  eapply (lr_step 1 {| active := 0; limit := 1; threads := [Loaded 0; Trying] |});
    [|apply (ls_load {| active := 0; limit := 1; threads := [Loaded 0; Trying] |} 1); done].
  eapply (lr_step 1 {| active := 0; limit := 1; threads := [Trying; Trying] |});
    [|apply (ls_load {| active := 0; limit := 1; threads := [Trying; Trying] |} 0); done].
  eapply (lr_step 1 {| active := 0; limit := 1; threads := [Trying] |}); [|apply (ls_connect {| active := 0; limit := 1; threads := [Trying] |})].
  eapply (lr_step 1 {| active := 0; limit := 1; threads := [] |}); [|apply (ls_connect {| active := 0; limit := 1; threads := [] |})].
  constructor.
Defined.

Lemma reply_roundtrip_witness :
  read_reply (reply_lines "250" ["mx.example.org at your service"; "STARTTLS"]%string ++ [Byte.x32])
  = (Ok (250, "mx.example.org at your service STARTTLS"%string), [Byte.x32]).
Proof.
  apply (reply_roundtrip "250" 250 ["mx.example.org at your service"; "STARTTLS"]%string [Byte.x32]).
  - split_and!; vm_compute; reflexivity.
  - repeat constructor; vm_compute; (reflexivity || discriminate).
  - discriminate.
Defined.

Lemma reply_panics_witness : (read_reply (as_bytes "25" ++ [Byte.xff; Byte.x0d; Byte.x0a])).1 = Err Panicked.
Proof.
  apply (reply_panics Byte.x32 Byte.x35 [] []); [vm_compute; reflexivity|vm_compute; reflexivity|discriminate|discriminate|constructor|vm_compute; reflexivity].
Defined.
End NetWitness.
