(* ===== verification/OutboundTcp.v ===== *)
(** * The SMTP client

    [crates/gateway/src/outbound_tcp.rs], with the transport trait of
    [outbound.rs]: the choice of the address to dial, the dialogue with the
    destination, and the wire form of a message.  What the peer does is an input:
    the addresses its name resolves to, whether it accepts the connection, the bytes
    it sends in clear, and the bytes it sends behind a TLS handshake that succeeds.
    Writes do not fail in the model (a failing write ends the call like a failing
    read). *)

From Stdlib Require Import ZArith Lia Ascii String.
From stdpp Require Import base decidable option sets list strings gmap.
From S2P Require Import Prelude RustStr RustText Dkim Dns Net.
Local Open Scope Z_scope.

Inductive TransportResult :=
| Delivered (code : Z)
| Transient (code : Z) (text : string)
| Permanent (code : Z) (text : string)
| TlsUnavailable.

Module OutboundTcp.

(** ** Where to connect *)

Definition octet (i : Z) (a : Z) : Z := Z.land (Z.shiftr a (24 - 8 * i)) 255.
Definition is_forbidden_v4 (a : Z) : bool :=
  (octet 0 a =? 127)
  || ((octet 0 a =? 10) || ((octet 0 a =? 172) && (16 <=? octet 1 a) && (octet 1 a <=? 31)) || ((octet 0 a =? 192) && (octet 1 a =? 168)))
  || ((octet 0 a =? 169) && (octet 1 a =? 254))
  || (a =? 0)
  || (a =? 4294967295)
  || (octet 0 a =? 0).
Definition segment0 (a : Z) : Z := Z.land (Z.shiftr a 112) 65535.
Definition is_forbidden_v6 (a : Z) : bool :=
  (a =? 1) || (a =? 0) || (Z.land (segment0 a) 65472 =? 65152) || (Z.land (segment0 a) 65024 =? 64512).
(** [Ipv6Addr::to_ipv4_mapped]. *)
Definition to_ipv4_mapped (a : Z) : option Z :=
  if Z.shiftr a 32 =? 65535 then Some (Z.land a 4294967295) else None.
Definition is_forbidden_dest_ip (ip : IpAddr) : bool :=
  match ip with
  | V4 a => is_forbidden_v4 a
  | V6 a => match to_ipv4_mapped a with Some m => is_forbidden_v4 m | None => is_forbidden_v6 a end
  end.

Definition SocketAddr : Type := IpAddr * Z.
Inductive DialError := ResolveFailed (text : string) | PermissionDenied | NotFound.
Definition dial_text (dest : string) (e : DialError) : string :=
  match e with
  | ResolveFailed text => text
  | PermissionDenied => "refusing to dial " +:+ dest +:+ ": it resolves only to disallowed " +:+
      "(loopback/private/link-local/unique-local/unspecified/broadcast) addresses"
  | NotFound => "no address for destination"
  end.

(** The loop over the resolved addresses. *)
Fixpoint first_allowed (addrs : list SocketAddr) : option SocketAddr :=
  match addrs with
  | [] => None
  | a :: addrs => if negb (is_forbidden_dest_ip a.1) then Some a else first_allowed addrs
  end.
Definition dial_addr (fixed : option SocketAddr) (resolved : result string (list SocketAddr)) : result DialError SocketAddr :=
  match fixed with
  | Some a => Ok a
  | None =>
      match resolved with
      | Err e => Err (ResolveFailed e)
      | Ok addrs =>
          match first_allowed addrs with
          | Some a => Ok a
          | None => if bool_decide (addrs = []) then Err NotFound else Err PermissionDenied
          end
      end
  end.

(** ** Codes and headers *)

Definition is_2xx (code : Z) : bool := (200 <=? code) && (code <? 300).
Definition classify (code : Z) (text : string) : TransportResult :=
  if (200 <=? code) && (code <=? 299) then Delivered code
  else if (400 <=? code) && (code <=? 499) then Transient code text
  else Permanent code text.

Inductive TransportAbort := AbortIo (text : string) | AbortTls | AbortPermanent (code : Z) (text : string) | AbortPanic.

Definition expect_2xx (reply : Z * string) : result TransportAbort unit :=
  let '(code, text) := reply in
  if is_2xx code then Ok tt
  else if (400 <=? code) && (code <? 500) then Err (AbortIo (u64_to_string code +:+ " " +:+ text))
  else Err (AbortPermanent code text).

(** [v[l + 1..r]] between the first [<] and the last [>], when [l < r]: the last
    [>] of the text behind the first [<]. *)
Definition between_angles (v : string) : option string :=
  '(_, after) ← split_once "<" v;
  '(inner, _) ← rsplit_once ">" after;
  Some inner.
Definition angle (c : ascii) : bool := is_char "<" c || is_char ">" c.
Fixpoint drop_angles (s : string) : string :=
  match s with String c r => if angle c then drop_angles r else s | EmptyString => s end.
Fixpoint drop_angles_end (s : string) : string :=
  match s with
  | EmptyString => EmptyString
  | String c r => match drop_angles_end r with
                  | EmptyString => if angle c then EmptyString else String c EmptyString
                  | r' => String c r'
                  end
  end.
Definition trim_angles (s : string) : string := drop_angles_end (drop_angles s).
Definition line_addr (name line : string) : option string :=
  '(h, v) ← split_once ":" line;
  if negb (eq_ignore_ascii_case (trim h) name) then None
  else
    let v := trim v in
    match between_angles v with
    | Some inner => Some (trim inner)
    | None => trim_angles <$> find_first (contains_char "@") (split_whitespace v)
    end.
Fixpoint first_addr (name : string) (lines : list string) : option string :=
  match lines with
  | [] => None
  | line :: lines => match line_addr name line with Some a => Some a | None => first_addr name lines end
  end.
Definition header_addr (message : bytes) (name : string) : option string :=
  let head := from_utf8_lossy (Dkim.message_head message) in
  first_addr name (String.string_of_list_byte <$> Dkim.split_crlf (as_bytes head)).

(** ** The message on the wire *)

Fixpoint dot_stuff (at_line_start : bool) (message : bytes) : bytes :=
  match message with
  | [] => []
  | b :: rest =>
      (if at_line_start && bool_decide (b = Byte.x2e) then [Byte.x2e] else [])
      ++ b :: dot_stuff (bool_decide (b = Byte.x0a)) rest
  end.
Definition ends_with_crlf (message : bytes) : bool :=
  match reverse message with b :: a :: _ => bool_decide (b = Byte.x0a) && bool_decide (a = Byte.x0d) | _ => false end.
Definition data_wire (message : bytes) : bytes :=
  dot_stuff true message ++ (if ends_with_crlf message then [] else Dkim.CRLF) ++ [Byte.x2e] ++ Dkim.CRLF.

(** ** The dialogue *)

(** The connection: what is still to be read, and what was written in clear and
    under TLS. *)
Record Conn := { input : bytes; plain_out : bytes; tls_out : bytes; on_tls : bool }.
Definition M (A : Type) : Type := Conn → result TransportAbort A * Conn.
#[export] Instance M_ret : MRet M := λ A a c, (Ok a, c).
#[export] Instance M_bind : MBind M := λ A B f m c, match m c with (Ok a, c) => f a c | (Err e, c) => (Err e, c) end.
Definition lift {A} (r : result TransportAbort A) : M A := λ c, (r, c).
Definition abort {A} (e : TransportAbort) : M A := λ c, (Err e, c).

Definition append (bs : bytes) (c : Conn) : Conn :=
  if on_tls c then {| input := input c; plain_out := plain_out c; tls_out := tls_out c ++ bs; on_tls := true |}
  else {| input := input c; plain_out := plain_out c ++ bs; tls_out := tls_out c; on_tls := false |}.
Definition write_bytes (bs : bytes) : M unit := λ c, (Ok tt, append bs c).
Definition write_str (s : string) : M unit := write_bytes (as_bytes s).
Definition set_input (i : bytes) (c : Conn) : Conn := {| input := i; plain_out := plain_out c; tls_out := tls_out c; on_tls := on_tls c |}.

Definition of_fault (f : Net.Fault) : TransportAbort := match f with Net.Io e => AbortIo (Net.io_text e) | Net.Panicked => AbortPanic end.
Definition read_reply : M (Z * string) := λ c,
  match Net.read_reply (input c) with
  | (Ok r, i) => (Ok r, set_input i c)
  | (Err f, i) => (Err (of_fault f), set_input i c)
  end.

Definition ehlo_fault (f : Net.Fault) : TransportAbort :=
  match f with
  | Net.Io Net.ShortReply => AbortIo "short EHLO reply"
  | Net.Io Net.BadCode => AbortIo "bad EHLO code"
  | _ => of_fault f
  end.
(** The reply to [EHLO]: the first word behind the code of every line. *)
Fixpoint ehlo_loop (fuel : nat) (caps : list string) (i : bytes) : result TransportAbort (list string) * bytes :=
  match fuel with
  | O => (Err (AbortIo "no EHLO reply"), i)
  | S fuel =>
      match Net.read_line_str i with
      | (Err e, i) => (Err (AbortIo (Net.io_text e)), i)
      | (Ok None, i) => (Err (AbortIo "no EHLO reply"), i)
      | (Ok (Some line), i) =>
          match Net.reply_code line with
          | Err f => (Err (ehlo_fault f), i)
          | Ok (code, more) =>
              if negb (is_2xx code) then (Err (AbortPermanent code line), i)
              else
                let caps := caps ++ match Net.get_from 4 line with
                                    | Some rest => take 1 (split_whitespace rest)
                                    | None => []
                                    end in
                if more then ehlo_loop fuel caps i else (Ok caps, i)
          end
      end
  end.
Definition crlf : string := String "013" (String "010" EmptyString).
Definition ehlo_line (name : string) : string := "EHLO " +:+ name +:+ crlf.
Definition read_caps : M (list string) := λ c,
  match ehlo_loop (S (length (input c))) [] (input c) with (r, i) => (r, set_input i c) end.
Definition ehlo (name : string) : M (list string) := _ ← write_str (ehlo_line name); read_caps.

(** [upgrade]: [None] when the handshake or the certificate fails. *)
Definition upgrade (behind_tls : option bytes) : M unit := λ c,
  match behind_tls with
  | Some i => (Ok tt, {| input := i; plain_out := plain_out c; tls_out := tls_out c; on_tls := true |})
  | None => (Err AbortTls, c)
  end.

Definition has_cap (cap : string) (caps : list string) : bool := existsb (λ c, eq_ignore_ascii_case c cap) caps.
Definition is_ascii_str (s : string) : bool := str_all is_ascii s.
Definition needs_8bit (message : bytes) : bool := existsb (λ b, 128 <=? b2z b) message.

(** The greeting and the first [EHLO]. *)
Definition plain_caps (name : string) : M (list string) :=
  greeting ← read_reply;
  _ ← lift (expect_2xx greeting);
  ehlo name.
(** Everything up to the envelope.  The capabilities in force. *)
Definition handshake (name : string) (require_tls : bool) (behind_tls : option bytes) : M (list string) :=
  caps ← plain_caps name;
  let starttls_offered := has_cap "STARTTLS" caps in
  if require_tls && negb starttls_offered then abort AbortTls
  else if starttls_offered then
    _ ← write_str ("STARTTLS" +:+ crlf);
    '(code, _) ← read_reply;
    if negb (is_2xx code) then abort AbortTls
    else
      _ ← upgrade behind_tls;
      ehlo name
  else mret caps.

Definition envelope (message : bytes) (caps : list string) (dest : string) : result TransportAbort (string * string * string) :=
  let mail_from := default "<>"%string (header_addr message "from") in
  rcpt_to ← ok_or (AbortIo "no To: header") (header_addr message "to");
  let needs_smtputf8 := negb (is_ascii_str mail_from) || negb (is_ascii_str rcpt_to) in
  let needs_8bitmime := needs_8bit message in
  if needs_smtputf8 && negb (has_cap "SMTPUTF8" caps) then
    Err (AbortPermanent 553 ("5.6.7 envelope address requires SMTPUTF8 (RFC 6531) but " +:+ dest +:+
      " does not advertise it; cannot deliver without corrupting the address"))
  else if needs_8bitmime && negb (has_cap "8BITMIME" caps) then
    Err (AbortPermanent 554 ("5.6.3 message body is 8-bit but " +:+ dest +:+
      " does not advertise 8BITMIME (RFC 6152); refusing to send bytes the peer has not agreed to carry"))
  else
    Ok (mail_from, rcpt_to, (if needs_8bitmime then " BODY=8BITMIME"%string else EmptyString)
                            +:+ (if needs_smtputf8 then " SMTPUTF8"%string else EmptyString)).

Definition transfer (message : bytes) (mail_from rcpt_to mail_params : string) : M TransportResult :=
  _ ← write_str ("MAIL FROM:<" +:+ mail_from +:+ ">" +:+ mail_params +:+ crlf);
  r ← read_reply;
  _ ← lift (expect_2xx r);
  _ ← write_str ("RCPT TO:<" +:+ rcpt_to +:+ ">" +:+ crlf);
  r ← read_reply;
  _ ← lift (expect_2xx r);
  _ ← write_str ("DATA" +:+ crlf);
  '(code, text) ← read_reply;
  if negb (code =? 354) then mret (classify code text)
  else
    _ ← write_bytes (data_wire message);
    '(final_code, final_text) ← read_reply;
    _ ← write_str ("QUIT" +:+ crlf);
    mret (classify final_code final_text).

Definition dialogue (name dest : string) (message : bytes) (require_tls : bool) (behind_tls : option bytes) : M TransportResult :=
  caps ← handshake name require_tls behind_tls;
  '(mail_from, rcpt_to, mail_params) ← lift (envelope message caps dest);
  transfer message mail_from rcpt_to mail_params.

(** ** The transport *)

Record SmtpTcpTransport := { ehlo_name : string; port : Z; fixed_addr : option SocketAddr }.
(** The world behind the socket, with the texts of the system's errors: what a name
    resolves to, and, for an address, the bytes the peer sends in clear and behind a
    TLS handshake. *)
Record World := {
  resolve_name : string → Z → result string (list SocketAddr);
  serve : SocketAddr → result string (bytes * option bytes);
}.

Section transport.
(** [idn_display] is the text of a conversion error, which quotes its arguments with
    [{:?}]. *)
Context `{ID : Idna} (idn_display : Idn.IdnError → string).

(** The result, and the address dialled with the connection at the end. *)
Definition try_run (t : SmtpTcpTransport) (w : World) (dest_domain : string) (message : bytes) (require_tls : bool)
    : result TransportAbort TransportResult * option (SocketAddr * Conn) :=
  match Idn.domain_to_ascii dest_domain with
  | Err e => (Err (AbortPermanent 553 ("5.1.2 " +:+ idn_display e)), None)
  | Ok dest =>
      match dial_addr (fixed_addr t) (resolve_name w dest (port t)) with
      | Err e => (Err (AbortIo (dial_text dest e)), None)
      | Ok addr =>
          match serve w addr with
          | Err e => (Err (AbortIo e), None)
          | Ok (plain, behind_tls) =>
              let '(r, c) := dialogue (ehlo_name t) dest message require_tls behind_tls
                               {| input := plain; plain_out := []; tls_out := []; on_tls := false |} in
              (r, Some (addr, c))
          end
      end
  end.
Definition of_abort (r : result TransportAbort TransportResult) : option TransportResult :=
  match r with
  | Ok res => Some res
  | Err AbortTls => Some TlsUnavailable
  | Err (AbortPermanent code text) => Some (Permanent code text)
  | Err (AbortIo e) => Some (Transient 421 ("4.4.0 " +:+ e))
  | Err AbortPanic => None
  end.
(** [None]: the thread panicked. *)
Definition run (t : SmtpTcpTransport) (w : World) (dest_domain : string) (message : bytes) (require_tls : bool) : option TransportResult :=
  of_abort (try_run t w dest_domain message require_tls).1.
End transport.

(** ** Addresses as ranges *)

(** The networks that are refused: base address and prefix length. *)
Definition refused_v4 : list (Z * Z) :=
  [(0, 8); (167772160, 8); (2130706432, 8); (2851995648, 16); (2886729728, 12); (3232235520, 16); (4294967295, 32)].
Definition refused_v6 : list (Z * Z) :=
  [(0, 128); (1, 128); (65152 * 2 ^ 112, 10); (64512 * 2 ^ 112, 7)].
Definition within (width : Z) (a : Z) (net : Z * Z) : bool := (net.1 <=? a) && (a <? net.1 + 2 ^ (width - net.2)).
(** ::ffff:0:0/96 holds the IPv4 addresses. *)
Definition internal (ip : IpAddr) : bool :=
  match ip with
  | V4 a => existsb (within 32 a) refused_v4
  | V6 a => if within 128 a (65535 * 2 ^ 32, 96) then existsb (within 32 (a - 65535 * 2 ^ 32)) refused_v4
            else existsb (within 128 a) refused_v6
  end.
Definition valid_ip (ip : IpAddr) : Prop := match ip with V4 a => 0 ≤ a < 2 ^ 32 | V6 a => 0 ≤ a < 2 ^ 128 end.

Lemma octet_div i a : 0 ≤ a < 2 ^ 32 → 0 ≤ i ≤ 3 → octet i a = a / 2 ^ (24 - 8 * i) mod 256.
Proof.
  intros Ha Hi. unfold octet. rewrite Z.shiftr_div_pow2 by lia. by rewrite (Z.land_ones _ 8) by lia.
Qed.
Lemma bool_iff (a b : bool) : (a = true ↔ b = true) → a = b.
Proof. destruct a, b; naive_solver. Qed.

Lemma forbidden_v4_ranges a : 0 ≤ a < 2 ^ 32 → is_forbidden_v4 a = existsb (within 32 a) refused_v4.
Proof.
  intros Ha. apply bool_iff. unfold is_forbidden_v4. rewrite !octet_div by lia.
  change (2 ^ (24 - 8 * 0)) with 16777216. change (2 ^ (24 - 8 * 1)) with 65536. unfold refused_v4, within. cbn [existsb fst snd].
  change (2 ^ (32 - 8)) with 16777216. change (2 ^ (32 - 16)) with 65536. change (2 ^ (32 - 12)) with 1048576. change (2 ^ (32 - 32)) with 1.
  change (2 ^ 32) with 4294967296 in Ha.
  rewrite !orb_true_iff, !andb_true_iff, !Z.eqb_eq, !Z.leb_le, !Z.ltb_lt.
  rewrite (Z.mod_small (a / 16777216)) by (split; [apply Z.div_pos; lia|apply Z.div_lt_upper_bound; lia]).
  assert (a / 65536 mod 256 = a / 65536 - 256 * (a / 16777216)) as ->.
  { rewrite Z.mod_eq by lia. rewrite Z.div_div by lia. reflexivity. }
  pose proof (Z.div_mod a 16777216). pose proof (Z.mod_pos_bound a 16777216). pose proof (Z.div_mod a 65536). pose proof (Z.mod_pos_bound a 65536).
  lia.
Qed.
Lemma mask_low n s : 0 ≤ n → 0 ≤ s < 65536 → Z.land s (Z.ldiff 65535 (Z.ones n)) = s / 2 ^ n * 2 ^ n.
Proof.
  intros Hn Hs. rewrite <- Z.shiftr_div_pow2, <- Z.shiftl_mul_pow2, <- Z.ldiff_ones_r by lia.
  rewrite <- (Z.mod_small s (2 ^ 16)) at 2 by lia. rewrite <- (Z.land_ones s 16) by lia.
  apply Z.bits_inj'. intros i Hi. rewrite !Z.ldiff_spec, !Z.land_spec, !Z.ldiff_spec. change (Z.ones 16) with 65535. by rewrite andb_assoc.
Qed.
Lemma segment_masks s : 0 ≤ s < 65536 → Z.land s 65472 = s / 64 * 64 ∧ Z.land s 65024 = s / 512 * 512.
Proof. intros Hs. split; [apply (mask_low 6)|apply (mask_low 9)]; lia. Qed.
Lemma forbidden_v6_ranges a : 0 ≤ a < 2 ^ 128 → is_forbidden_v6 a = existsb (within 128 a) refused_v6.
Proof.
  intros Ha. apply bool_iff. unfold is_forbidden_v6. set (s := segment0 a).
  assert (s = a / 2 ^ 112) as Hs.
  { unfold s, segment0. rewrite Z.shiftr_div_pow2 by lia. rewrite (Z.land_ones _ 16) by lia. apply Z.mod_small.
    split; [apply Z.div_pos; lia|]. apply Z.div_lt_upper_bound; lia. }
  assert (0 ≤ s < 65536) as Hr by (rewrite Hs; split; [apply Z.div_pos; lia|apply Z.div_lt_upper_bound; lia]).
  destruct (segment_masks s Hr) as [-> ->]. unfold refused_v6, within. cbn [existsb fst snd].
  rewrite !orb_true_iff, !andb_true_iff, !Z.eqb_eq, !Z.leb_le, !Z.ltb_lt.
  change (128 - 128) with 0. change (128 - 10) with 118. change (128 - 7) with 121.
  pose proof (Z.div_mod a (2 ^ 112)). pose proof (Z.mod_pos_bound a (2 ^ 112)). rewrite <- Hs in *.
  pose proof (Z.div_mod s 64). pose proof (Z.mod_pos_bound s 64). pose proof (Z.div_mod s 512). pose proof (Z.mod_pos_bound s 512).
  change (2 ^ 0) with 1. change (2 ^ 118) with (64 * 2 ^ 112). change (2 ^ 121) with (512 * 2 ^ 112).
  assert (0 < 2 ^ 112) by lia. set (u := 2 ^ 112) in *. clearbody u. clear Hs. split.
  - intros [[[->| ->]|E]|E]; [right; left; lia|left; lia|right; right; left|right; right; right; left].
    + assert (65152 ≤ s < 65216) by lia. split; nia.
    + assert (64512 ≤ s < 65024) by lia. split; nia.
  - intros [E|[E|[E|[E|E]]]]; [left; left; right; lia|left; left; left; lia|left; right|right|done].
    + assert (65152 ≤ s < 65216) by nia. lia.
    + assert (64512 ≤ s < 65024) by nia. lia.
Qed.
Lemma forbidden_is_internal ip : valid_ip ip → is_forbidden_dest_ip ip = internal ip.
Proof.
  destruct ip as [a|a]; intros Ha; cbn [is_forbidden_dest_ip internal valid_ip] in *; [by apply forbidden_v4_ranges|].
  unfold to_ipv4_mapped. rewrite Z.shiftr_div_pow2 by lia.
  destruct (a / 2 ^ 32 =? 65535) eqn:E.
  - apply Z.eqb_eq in E. pose proof (Z.div_mod a (2 ^ 32)). pose proof (Z.mod_pos_bound a (2 ^ 32)).
    assert (within 128 a (65535 * 2 ^ 32, 96) = true) as ->.
    { unfold within. cbn [fst snd]. change (128 - 96) with 32. apply andb_true_iff. rewrite Z.leb_le, Z.ltb_lt. lia. }
    rewrite (Z.land_ones _ 32) by lia. replace (a - 65535 * 2 ^ 32) with (a mod 2 ^ 32) by lia. apply forbidden_v4_ranges. lia.
  - apply Z.eqb_neq in E. assert (within 128 a (65535 * 2 ^ 32, 96) = false) as ->; [|by apply forbidden_v6_ranges].
    unfold within. cbn [fst snd]. change (128 - 96) with 32. apply not_true_iff_false. rewrite andb_true_iff, Z.leb_le, Z.ltb_lt.
    intros [H1 H2]. apply E. symmetry. apply Z.div_unique with (a - 65535 * 2 ^ 32); lia.
Qed.
Lemma first_allowed_Some addrs a : first_allowed addrs = Some a → a ∈ addrs ∧ is_forbidden_dest_ip a.1 = false.
Proof.
  induction addrs as [|b addrs IH]; [done|]. cbn [first_allowed]. destruct (is_forbidden_dest_ip b.1) eqn:E; cbn [negb].
  - intros [? ?]%IH. split; [set_solver|done].
  - intros [= <-]. split; [set_solver|done].
Qed.

(** ** What is written, and where *)

Definition written (c : Conn) : bytes := if on_tls c then tls_out c else plain_out c.
(** A step that stays on the channel it started on. *)
Definition keeps_channel {A} (m : M A) : Prop :=
  ∀ c, on_tls (m c).2 = on_tls c ∧ (on_tls c = true → plain_out (m c).2 = plain_out c).

Lemma bind_ok {A B} (m : M A) (f : A → M B) c a c' : m c = (Ok a, c') → (m ≫= f) c = f a c'.
Proof. intros H. unfold mbind, M_bind. by rewrite H. Qed.
Lemma bind_inv {A B} (m : M A) (f : A → M B) c r c' :
  (m ≫= f) c = (r, c') → (∃ a c1, m c = (Ok a, c1) ∧ f a c1 = (r, c')) ∨ (∃ e, m c = (Err e, c') ∧ r = Err e).
Proof. unfold mbind, M_bind. destruct (m c) as [[a|e] c1]; intros E; [left|right].
  - by exists a, c1.
  - injection E as <- <-. by exists e.
Qed.

Lemma bind_write {B} bs (f : unit → M B) c : (write_bytes bs ≫= f) c = f tt (append bs c).
Proof. done. Qed.

Lemma keeps_ret {A} (a : A) : keeps_channel (mret a).
Proof. done. Qed.
Lemma keeps_lift {A} (r : result TransportAbort A) : keeps_channel (lift r).
Proof. done. Qed.
Lemma keeps_bind {A B} (m : M A) (f : A → M B) : keeps_channel m → (∀ a, keeps_channel (f a)) → keeps_channel (m ≫= f).
Proof.
  intros Hm Hf c. destruct (Hm c) as [H1 H2]. unfold mbind, M_bind. destruct (m c) as [[a|e] c1] eqn:E; cbn [snd] in *; [|done].
  destruct (Hf a c1) as [H3 H4]. split; [congruence|]. intros Ht. rewrite H4, H2 by congruence. done.
Qed.
Lemma keeps_write bs : keeps_channel (write_bytes bs).
Proof. intros c. unfold write_bytes, append. by destruct (on_tls c) eqn:E. Qed.
Lemma keeps_read : keeps_channel read_reply.
Proof. intros c. unfold read_reply. by destruct (Net.read_reply (input c)) as [[] ?]. Qed.
Lemma keeps_caps : keeps_channel read_caps.
Proof. intros c. unfold read_caps. by destruct (ehlo_loop _ _ _). Qed.
End OutboundTcp.

Create HintDb channel.
#[export] Hint Resolve OutboundTcp.keeps_ret OutboundTcp.keeps_lift OutboundTcp.keeps_write OutboundTcp.keeps_read OutboundTcp.keeps_caps : channel.
(** A do-block keeps its channel when its steps do. *)
Ltac keeps := repeat first [solve [eauto with channel] | apply OutboundTcp.keeps_bind; [|intros ?] | case_match].

Module OutboundSafety.
Import OutboundTcp.

Lemma keeps_ehlo name : keeps_channel (ehlo name).
Proof. unfold ehlo, write_str. keeps. Qed.
Lemma keeps_plain_caps name : keeps_channel (plain_caps name).
Proof. unfold plain_caps. keeps. Qed.
Lemma keeps_transfer message f r p : keeps_channel (transfer message f r p).
Proof. unfold transfer, write_str. keeps. Qed.

(** The commands that may go out in clear when TLS is required. *)
Definition preamble (name : string) : list bytes :=
  [[]; as_bytes (ehlo_line name); as_bytes (ehlo_line name) ++ as_bytes ("STARTTLS" +:+ crlf)].
Definition fresh (plain : bytes) : Conn := {| input := plain; plain_out := []; tls_out := []; on_tls := false |}.

Lemma plain_caps_out name plain r c : plain_caps name (fresh plain) = (r, c) →
  on_tls c = false ∧ (plain_out c = [] ∨ plain_out c = as_bytes (ehlo_line name)) ∧ (∀ a, r = Ok a → plain_out c = as_bytes (ehlo_line name)).
Proof.
  unfold plain_caps. intros [(g & c1 & H1 & H)|(e & H1 & ->)]%bind_inv.
  - unfold read_reply, fresh in H1. cbn [input] in H1. destruct (Net.read_reply plain) as [[g'|f] i]; [|done]. injection H1 as -> <-.
    apply bind_inv in H as [([] & c2 & H2 & H)|(e & H2 & ->)].
    + injection H2 as _ <-. unfold ehlo, write_str in H. rewrite bind_write in H.
      unfold read_caps in H. destruct (ehlo_loop _ _ _) as [r' i']. injection H as <- <-. split_and!; cbn; eauto; done.
    + injection H2 as _ <-. split_and!; cbn; eauto; done.
  - unfold read_reply, fresh in H1. cbn [input] in H1. destruct (Net.read_reply plain) as [[g'|f] i]; [done|]. injection H1 as _ <-. split_and!; cbn; eauto; done.
Qed.
Lemma handshake_out name require_tls behind_tls plain r c :
  handshake name require_tls behind_tls (fresh plain) = (r, c) →
  plain_out c ∈ preamble name ∧
  (∀ caps, r = Ok caps → on_tls c = true ∨ (require_tls = false ∧ on_tls c = false ∧ has_cap "STARTTLS" caps = false)).
Proof.
  unfold handshake. intros [(caps & c1 & H1 & H)|(e & H1 & ->)]%bind_inv; apply plain_caps_out in H1 as (Ht & Hp & Hok).
  - specialize (Hok _ eq_refl). destruct (require_tls && negb _) eqn:E1.
    { injection H as <- <-. split; [rewrite Hok; set_solver|done]. }
    destruct (has_cap "STARTTLS" caps) eqn:E2.
    + unfold write_str in H. rewrite bind_write in H.
      assert (plain_out (append (as_bytes ("STARTTLS" +:+ crlf)) c1) ∈ preamble name) as Hc2.
      { unfold append. rewrite Ht. cbn [plain_out]. rewrite Hok. set_solver. }
      set (c2 := append _ c1) in *. clearbody c2. apply bind_inv in H as [([code t] & c3 & H3 & H)|(e & H3 & ->)];
        unfold read_reply in H3; destruct (Net.read_reply _) as [[g|f] i]; try done.
      * injection H3 as -> <-. destruct (negb (is_2xx code)); [injection H as <- <-; done|].
        apply bind_inv in H as [([] & c4 & H4 & H)|(e & H4 & ->)]; unfold upgrade in H4; destruct behind_tls as [b|]; try done.
        -- injection H4 as <-. pose proof (keeps_ehlo name) as K.
           match type of H with ehlo _ ?c0 = _ => specialize (K c0) end. rewrite H in K. destruct K as [K1 K2]. cbn in K1, K2.
           rewrite K2 by done. split; [done|]. intros caps' _. by left.
        -- injection H4 as _ <-. split; [done|]. done.
      * injection H3 as _ <-. done.
    + injection H as <- <-. split; [rewrite Hok; set_solver|]. intros caps' [= <-]. right. split_and!; [by destruct require_tls|done|done].
  - split; [|done]. destruct Hp as [-> | ->]; set_solver.
Qed.

Lemma dialogue_out name dest message require_tls behind_tls plain r c :
  dialogue name dest message require_tls behind_tls (fresh plain) = (r, c) →
  (require_tls = true → plain_out c ∈ preamble name) ∧ (on_tls c = true → plain_out c ∈ preamble name) ∧
  (∀ res, r = Ok res → require_tls = true → on_tls c = true).
Proof.
  unfold dialogue. intros [(caps & c1 & H1 & H)|(e & H1 & ->)]%bind_inv; apply handshake_out in H1 as [Hp Hok]; [|done].
  specialize (Hok _ eq_refl). apply bind_inv in H as [([[f rc] ps] & c2 & H2 & H)|(e & H2 & ->)].
  - injection H2 as _ <-. destruct (keeps_transfer message f rc ps c1) as [K1 K2]. rewrite H in K1, K2. cbn [snd] in K1, K2. split_and!.
    + intros ->. destruct Hok as [Ht|[? _]]; [|done]. by rewrite K2.
    + intros Ht. rewrite K2 by congruence. done.
    + intros res _ ->. destruct Hok as [Ht|[? _]]; [|done]. congruence.
  - injection H2 as _ <-. split_and!; [done|done|done].
Qed.

Section send.
Context `{ID : Idna} (idn_display : Idn.IdnError → string).
Local Notation try_run := (try_run idn_display).

Lemma try_run_dialled t w d message require_tls r addr c :
  try_run t w d message require_tls = (r, Some (addr, c)) →
  ∃ dest plain behind, Idn.domain_to_ascii d = Ok dest ∧ dial_addr (fixed_addr t) (resolve_name w dest (port t)) = Ok addr ∧
    serve w addr = Ok (plain, behind) ∧ dialogue (ehlo_name t) dest message require_tls behind (fresh plain) = (r, c).
Proof using.
  unfold OutboundTcp.try_run. destruct (Idn.domain_to_ascii d) as [dest|]; [|done].
  destruct (dial_addr _ _) as [a|] eqn:E1; [|done]. destruct (serve w a) as [[plain behind]|] eqn:E2; [|done].
  fold (fresh plain). destruct (dialogue _ _ _ _ _ _) as [r' c'] eqn:E3. intros [= <- <- <-]. by exists dest, plain, behind.
Qed.

(** C15: A peer cannot talk the client out of TLS: when TLS is required, whatever the peer
    sends, nothing but the [EHLO] line and [STARTTLS] goes out in clear, and a
    result other than an abort comes from a connection that was upgraded.  When TLS
    is optional, a connection that was upgraded carries nothing else in clear
    either. *)
Theorem never_cleartext t w d message require_tls r addr c :
  try_run t w d message require_tls = (r, Some (addr, c)) →
  (require_tls = true ∨ on_tls c = true → plain_out c ∈ preamble (ehlo_name t)) ∧
  (require_tls = true → ∀ res, r = Ok res → on_tls c = true).
Proof using.
  intros (dest & plain & behind & _ & _ & _ & H)%try_run_dialled. apply dialogue_out in H as (H1 & H2 & H3).
  split; [intros [?|?]; eauto|]. intros ? res Hres. eauto.
Qed.

(** C16: The client never connects to an internal address a name resolves to: without a
    pinned address, it dials the first resolved address outside the refused
    networks, and nothing when there is none. *)
Theorem dial_never_internal t w d message require_tls r addr c :
  fixed_addr t = None → (∀ n p addrs, resolve_name w n p = Ok addrs → Forall (λ a, valid_ip a.1) addrs) →
  try_run t w d message require_tls = (r, Some (addr, c)) →
  internal addr.1 = false ∧
  ∃ dest before after, Idn.domain_to_ascii d = Ok dest ∧ resolve_name w dest (port t) = Ok (before ++ addr :: after) ∧
    Forall (λ a, internal a.1 = true) before.
Proof using.
  intros Hf Hv (dest & plain & behind & Hd & Ha & _ & _)%try_run_dialled. rewrite Hf in Ha. unfold dial_addr in Ha.
  destruct (resolve_name w dest (port t)) as [addrs|] eqn:E; [|done]. specialize (Hv _ _ _ E).
  destruct (first_allowed addrs) as [a|] eqn:E1; [|by case_bool_decide]. injection Ha as ->.
  assert (internal addr.1 = false ∧ ∃ before after, addrs = before ++ addr :: after ∧ Forall (λ a, internal a.1 = true) before)
    as (H1 & before & after & -> & H2); [|by eauto 10].
  clear E. induction Hv as [|x addrs Hx Hv IH]; [done|]. cbn [first_allowed] in E1. rewrite forbidden_is_internal in E1 by done.
  destruct (internal x.1) eqn:Ei; cbn [negb] in E1.
  - destruct (IH E1) as (H1 & before & after & -> & H2). split; [done|]. exists (x :: before), after. split; [done|]. by constructor.
  - injection E1 as ->. split; [done|]. by exists [], addrs.
Qed.
End send.

Definition envelope_lines (f r p : string) : bytes :=
  as_bytes ("MAIL FROM:<" +:+ f +:+ ">" +:+ p +:+ crlf) ++ as_bytes ("RCPT TO:<" +:+ r +:+ ">" +:+ crlf) ++ as_bytes ("DATA" +:+ crlf).
Lemma written_append bs c : written (append bs c) = written c ++ bs.
Proof. unfold append, written. by destruct (on_tls c) eqn:E; cbn. Qed.
Lemma read_reply_inv c rp c' : read_reply c = (Ok rp, c') → ∃ i, Net.read_reply (input c) = (Ok rp, i) ∧ c' = set_input i c.
Proof. unfold read_reply. destruct (Net.read_reply (input c)) as [[g|f] i]; [|done]. intros [= -> <-]. by exists i. Qed.
Lemma written_set_input i c : written (set_input i c) = written c.
Proof. done. Qed.
Lemma classify_delivered code text n : classify code text = Delivered n → n = code ∧ is_2xx code = true.
Proof.
  unfold classify, is_2xx. destruct (200 <=? code) eqn:E1; cbn [andb]; [|by case_match].
  destruct (code <=? 299) eqn:E2; [|by case_match]. intros [= ->]. apply Z.leb_le in E2. split; [done|]. apply Z.ltb_lt. lia.
Qed.

(** The replies to [MAIL], [RCPT] and [DATA], in the order they are read. *)
Definition control_replies (c : Conn) (a b d : Z * string) (i : bytes) : Prop :=
  ∃ i1 i2, Net.read_reply (input c) = (Ok a, i1) ∧ Net.read_reply i1 = (Ok b, i2) ∧ Net.read_reply i2 = (Ok d, i).
Lemma expect_2xx_ok a : expect_2xx a = Ok tt ↔ is_2xx a.1 = true.
Proof. unfold expect_2xx. destruct a as [code text]; cbn. destruct (is_2xx code); [done|]. split; [by case_match|done]. Qed.
Lemma input_append bs c : input (append bs c) = input c.
Proof. unfold append. by destruct (on_tls c). Qed.

Lemma bind_read {B} (f : Z * string → M B) c r i : Net.read_reply (input c) = (Ok r, i) → (read_reply ≫= f) c = f r (set_input i c).
Proof. intros H. apply bind_ok. unfold read_reply. by rewrite H. Qed.
Lemma bind_lift_ok {A B} (a : A) (f : A → M B) c : (lift (Ok a) ≫= f) c = f a c.
Proof. done. Qed.

Lemma transfer_controls message f r p c a b d i :
  control_replies c a b d i → is_2xx a.1 = true → is_2xx b.1 = true →
  ∃ c3, written c3 = written c ++ envelope_lines f r p ∧ input c3 = i ∧
  transfer message f r p c =
    if negb (d.1 =? 354) then (Ok (classify d.1 d.2), c3)
    else (_ ← write_bytes (data_wire message); '(final_code, final_text) ← read_reply;
          _ ← write_str ("QUIT" +:+ crlf); mret (classify final_code final_text)) c3.
Proof.
  intros (i1 & i2 & H1 & H2 & H3) Ha%expect_2xx_ok Hb%expect_2xx_ok. eexists (set_input i (append _ (set_input i2 (append _ (set_input i1 (append _ c)))))).
  split; [|split; [done|]]; last first.
  - unfold transfer, write_str. rewrite bind_write. rewrite (bind_read _ _ a i1) by (by rewrite input_append). rewrite Ha, bind_lift_ok.
    rewrite bind_write. rewrite (bind_read _ _ b i2) by (by rewrite input_append). rewrite Hb, bind_lift_ok.
    rewrite bind_write. rewrite (bind_read _ _ d i) by (by rewrite input_append). destruct d as [code text]. cbn [fst snd].
    by destruct (negb (code =? 354)).
  - unfold envelope_lines. rewrite !written_set_input, !written_append, !written_set_input, !written_append, !written_set_input, written_append. by rewrite <- !app_assoc.
Qed.
Lemma transfer_inv message f r p c code c' :
  transfer message f r p c = (Ok (Delivered code), c') →
  ∃ a b d i, control_replies c a b d i ∧ is_2xx a.1 = true ∧ is_2xx b.1 = true.
Proof.
  unfold transfer, write_str. rewrite bind_write. intros [(a & c1 & (i1 & H1 & ->)%read_reply_inv & H)|(e & _ & ?)]%bind_inv; [|done].
  apply bind_inv in H as [([] & c2 & Ha & H)|(e & _ & ?)]; [|done]. injection Ha as Ha%expect_2xx_ok <-. rewrite bind_write in H.
  apply bind_inv in H as [(b & c3 & (i2 & H2 & ->)%read_reply_inv & H)|(e & _ & ?)]; [|done].
  apply bind_inv in H as [([] & c4 & Hb & H)|(e & _ & ?)]; [|done]. injection Hb as Hb%expect_2xx_ok <-. rewrite bind_write in H.
  apply bind_inv in H as [(d & c5 & (i3 & H3 & ->)%read_reply_inv & H)|(e & _ & ?)]; [|done].
  rewrite input_append in H1, H2, H3. cbn [set_input input] in H2, H3. exists a, b, d, i3. split; [by exists i1, i2|done].
Qed.

(** What [Delivered] stands for: the peer accepted the sender, the recipient and the
    whole dot-stuffed message with a 2xx reply -- or it answered the [DATA] command
    itself with a 2xx code, and the message was never sent. *)
Theorem delivered_is_sent message f r p c code c' :
  transfer message f r p c = (Ok (Delivered code), c') →
  is_2xx code = true ∧
  ∃ a b d i, control_replies c a b d i ∧ is_2xx a.1 = true ∧ is_2xx b.1 = true ∧
    (d.1 = 354 ∧ written c' = written c ++ envelope_lines f r p ++ data_wire message ++ as_bytes ("QUIT" +:+ crlf) ∧
       (∃ text j, Net.read_reply i = (Ok (code, text), j))
     ∨ d.1 = code ∧ written c' = written c ++ envelope_lines f r p).
Proof.
  intros H. destruct (transfer_inv _ _ _ _ _ _ _ H) as (a & b & d & i & Hc & Ha & Hb).
  destruct (transfer_controls message f r p c a b d i Hc Ha Hb) as (c3 & Hw & Hi & E). rewrite E in H. clear E.
  destruct (d.1 =? 354) eqn:E354; cbn [negb] in H.
  - apply Z.eqb_eq in E354. rewrite bind_write in H.
    apply bind_inv in H as [([fc ft] & c4 & (j & H4 & ->)%read_reply_inv & H)|(e & _ & ?)]; [|done].
    unfold write_str in H. rewrite bind_write in H. injection H as H <-. apply classify_delivered in H as [-> H2].
    rewrite input_append, Hi in H4. split; [done|]. exists a, b, d, i. split_and!; try done. left. split_and!; [done| |by exists ft, j].
    rewrite written_append, written_set_input, written_append, Hw. by rewrite <- !app_assoc.
  - injection H as H <-. apply classify_delivered in H as [-> H2]. split; [done|]. exists a, b, d, i. split_and!; try done. by right.
Qed.

(** A 2xx reply to the [DATA] command is reported as a delivery although no byte of
    the message was sent. *)
Theorem unsent_is_delivered message f r p c a b d i :
  control_replies c a b d i → is_2xx a.1 = true → is_2xx b.1 = true → is_2xx d.1 = true →
  ∃ c', transfer message f r p c = (Ok (Delivered d.1), c') ∧ written c' = written c ++ envelope_lines f r p.
Proof.
  intros Hc Ha Hb Hd. destruct (transfer_controls message f r p c a b d i Hc Ha Hb) as (c3 & Hw & Hi & E). exists c3. split; [|done].
  rewrite E. unfold is_2xx in Hd. apply andb_true_iff in Hd as [Hd1%Z.leb_le Hd2%Z.ltb_lt]. rewrite (proj2 (Z.eqb_neq _ _)) by lia.
  cbn [negb]. unfold classify. rewrite !(proj2 (Z.leb_le _ _)) by lia. done.
Qed.
End OutboundSafety.

(** ** Witnesses *)

Module OutboundTcpWitness.
Import OutboundTcp OutboundSafety Dns.DnsWitness.
Definition said (ls : list string) : bytes := concat ((λ l, as_bytes (l +:+ crlf)) <$> ls).
Definition client : SmtpTcpTransport := {| ehlo_name := "gw.example.net"; port := 25; fixed_addr := None |}.
Definition loopback : SocketAddr := (V4 2130706433, 25).
Definition public : SocketAddr := (V4 3221226219, 25).
Definition world (tls : bool) : World := {|
  resolve_name _ _ := Ok [loopback; public];
  serve _ := Ok (said ["220 mx"; "250-mx"; if tls then "250 STARTTLS" else "250 8BITMIME"; "220 go"]%string,
                 Some (said ["250 mx"; "250 ok"; "250 ok"; "354 go"; "250 done"]%string)) |}.
Definition mail : bytes := said ["From: <a@gw.example.net>"; "To: Bob <b@example.org>"; ""; ".hi"]%string.
Definition quoted (e : Idn.IdnError) : string := "bad name".
Definition outcome (tls : bool) := try_run quoted client (world tls) "example.org" mail true.

Lemma never_cleartext_witness :
  (run quoted client (world true) "example.org" mail true = Some (Delivered 250) ∧
   ∃ c, (outcome true).2 = Some (public, c) ∧ plain_out c ∈ preamble "gw.example.net" ∧ on_tls c = true) ∧
  ∃ c, outcome false = (Err AbortTls, Some (public, c)) ∧ plain_out c ∈ preamble "gw.example.net".
Proof.
  split; [split; [vm_compute; reflexivity|]|].
  - destruct (outcome true) as [r [[addr c]|]] eqn:E; [|vm_compute in E; discriminate].
    destruct (never_cleartext quoted client (world true) "example.org" mail true r addr c E) as [H1 H2].
    assert (r = Ok (Delivered 250) ∧ addr = public) as [-> ->] by (vm_compute in E; injection E as <- <- _; split; reflexivity).
    exists c. split; [reflexivity|]. split; [apply H1; left; reflexivity|]. eapply H2; reflexivity.
  - destruct (outcome false) as [r [[addr c]|]] eqn:E; [|vm_compute in E; discriminate].
    destruct (never_cleartext quoted client (world false) "example.org" mail true r addr c E) as [H1 _].
    assert (r = Err AbortTls ∧ addr = public) as [-> ->] by (vm_compute in E; injection E as <- <- _; split; reflexivity).
    exists c. split; [reflexivity|]. apply H1. left. reflexivity.
Defined.

Lemma dial_never_internal_witness : ∃ c, (outcome true).2 = Some (public, c) ∧ internal public.1 = false.
Proof.
  destruct (outcome true) as [r [[addr c]|]] eqn:E; [|vm_compute in E; discriminate].
  assert (addr = public) as -> by (vm_compute in E; injection E as _ <- _; reflexivity).
  exists c. split; [reflexivity|].
  apply (dial_never_internal quoted client (world true) "example.org" mail true r public c eq_refl); [|exact E].
  intros n p addrs [= <-]. repeat constructor; cbn [valid_ip fst loopback public]; lia.
Defined.

Definition after_tls (data_reply : string) : Conn :=
  {| input := said ["250 ok"; "250 ok"; data_reply; "250 done"]%string; plain_out := []; tls_out := []; on_tls := true |}.
Definition sent (data_reply : string) := transfer mail "a@gw.example.net" "b@example.org" EmptyString (after_tls data_reply).
Lemma delivered_is_sent_witness : ∃ c', sent "354 go" = (Ok (Delivered 250), c') ∧ is_2xx 250 = true.
Proof.
  destruct (sent "354 go") as [r c'] eqn:E.
  assert (r = Ok (Delivered 250)) as -> by (vm_compute in E; injection E as <- _; reflexivity).
  exists c'. split; [reflexivity|]. apply (delivered_is_sent mail _ _ _ _ 250 c' E).
Defined.
Lemma unsent_is_delivered_witness :
  ∃ c', sent "250 ok" = (Ok (Delivered 250), c') ∧ written c' = envelope_lines "a@gw.example.net" "b@example.org" EmptyString.
Proof.
  apply (unsent_is_delivered mail "a@gw.example.net" "b@example.org" EmptyString (after_tls "250 ok")
    (250, "ok"%string) (250, "ok"%string) (250, "ok"%string) (said ["250 done"]%string)); try reflexivity.
  eexists _, _. split_and!; vm_compute; reflexivity.
Defined.
End OutboundTcpWitness.
