(* ===== verification/InboundTcp.v ===== *)
(** * The MX listener

    [handle_connection] of [crates/gateway/src/inbound_tcp.rs]: the lines of a
    connection, the commands answered at the socket, [STARTTLS], and the lines that
    are handed to the session of [Inbound].  A connection is given by the bytes the
    peer sends in clear, the bytes it sends behind a handshake that succeeds, and
    what the clock and the key generator yield at each line.  The input ends where
    the peer closes; writes do not fail.  The specification is [play]: the bytes of a
    channel taken apart at their line feeds ([lines_of]), and each line answered by the
    listener or fed to the session. *)

From Stdlib Require Import ZArith Lia Ascii String.
From stdpp Require Import base decidable option sets list strings gmap.
From S2P Require Import Prelude RustStr RustText Kotva KotvaMail Directory Provenance Attestation ColdGate Dkim Spf Dmarc Inbound.
From S2P Require Import Dns Net OutboundTcp.
Local Open Scope Z_scope.

Module InboundTcp.
Import Inbound.

Definition wire (r : SmtpReply) : string :=
  u64_to_string (reply_code r) +:+ " " +:+ reply_text r +:+ OutboundTcp.crlf.

Inductive Ended := Closed | TimedOut | ReadFailed (e : Net.IoError) | HandshakeFailed.

Section listener.
Context `{KC : KotvaCbor} `{KI : KotvaIdentity} `{KD : KotvaContentId} `{KM : !KotvaMote} `{MM : KotvaMime}
  `{PSL : PublicSuffixList} `{DC : DkimCrypto}.
Context `{HD : KeyDirectory D} `{HM : !MeshDelivery M} `{HG : AntiAbuse G}
  `{HK : Dkim.DkimKeyResolver KR} `{HS : Spf.SpfResolver SR} `{HR : Dmarc.DmarcTxtResolver DR}.
Local Notation InboundGateway := (InboundGateway (D := D) (M := M) (G := G) (KR := KR) (SR := SR) (DR := DR)).

(** The locals of the handler; [out] lists the writes, each with whether it went
    through TLS. *)
Record Server := {
  input : bytes;
  out : list (bool * string);
  in_data : bool;
  secured : bool;
  session : MxSession;
  gateway : InboundGateway;
}.
Definition say (s : string) (st : Server) : Server := {|
  input := input st; out := out st ++ [(secured st, s)]; in_data := in_data st; secured := secured st;
  session := session st; gateway := gateway st |}.
Definition with_input (i : bytes) (st : Server) : Server := {|
  input := i; out := out st; in_data := in_data st; secured := secured st; session := session st; gateway := gateway st |}.
Definition with_in_data (b : bool) (st : Server) : Server := {|
  input := input st; out := out st; in_data := b; secured := secured st; session := session st; gateway := gateway st |}.
Definition with_session (s : MxSession) (gw : InboundGateway) (st : Server) : Server := {|
  input := input st; out := out st; in_data := in_data st; secured := secured st; session := s; gateway := gw |}.

(** The connection as its peer and its server configuration determine it. *)
Record Connection := {
  tls : bool;
  behind_tls : option bytes;
  conn_ip : string;
  conn_now : Z;
}.
(** What holds when a line has been read. *)
Record Tick := { ambient : Ambient; late : bool }.

Definition verb_of (line : string) : string := to_ascii_uppercase (default EmptyString (head (split_char " " line))).

(** [session.feed_line(..)] and the reply it gives. *)
Definition feed (t : Tick) (line : string) (st : Server) : SmtpReply * Server :=
  let '(r, s, gw) := feed_line (ambient t) line (session st) (gateway st) in
  (r, say (wire r) (with_session s gw st)).

(** One iteration of the loop.  [Some] when the handler returns. *)
Definition handle_data (t : Tick) (line : bytes) (st : Server) : Server :=
  let '(r, s, gw) := feed_line_bytes (ambient t) line (session st) (gateway st) in
  let st := with_session s gw st in
  if negb (reply_code r =? 0) then with_in_data false (say (wire r) st) else st.
Definition handle_ehlo (c : Connection) (st : Server) : Server :=
  if tls c && negb (secured st) then
    say ("250 STARTTLS" +:+ OutboundTcp.crlf) (say ("250-envoir-gateway at your service" +:+ OutboundTcp.crlf) st)
  else say ("250 envoir-gateway at your service" +:+ OutboundTcp.crlf) st.
Definition handle_starttls (c : Connection) (st : Server) : Server * option Ended :=
  if tls c then
    if negb (secured st) then
      let st := say (wire (SmtpReply_new 220 "2.0.0 ready to start TLS")) st in
      match behind_tls c with
      | None => (st, Some HandshakeFailed)
      | Some i => ({| input := i; out := out st; in_data := in_data st; secured := true;
                      session := MxSession_new (conn_ip c) (conn_now c); gateway := gateway st |}, None)
      end
    else (say (wire (SmtpReply_new 503 "5.5.1 already secured")) st, None)
  else (say (wire (SmtpReply_new 502 "5.5.1 STARTTLS not available")) st, None).
Definition handle_command (c : Connection) (t : Tick) (line : string) (st : Server) : Server * option Ended :=
  let verb := verb_of line in
  if bool_decide (verb = "EHLO"%string) || bool_decide (verb = "HELO"%string) then (handle_ehlo c st, None)
  else if bool_decide (verb = "STARTTLS"%string) then handle_starttls c st
  else if bool_decide (verb = "QUIT"%string) then ((feed t "QUIT" st).2, Some Closed)
  else if bool_decide (verb = "DATA"%string) then
    let '(r, st) := feed t "DATA" st in
    (if reply_code r =? 354 then with_in_data true st else st, None)
  else ((feed t line st).2, None).
Definition handle_line (c : Connection) (t : Tick) (line : bytes) (st : Server) : Server * option Ended :=
  if late t then (say (wire (SmtpReply_new 421 "4.4.2 transaction timed out, closing connection")) st, Some TimedOut)
  else if in_data st then (handle_data t line st, None)
  else handle_command c t (from_utf8_lossy line) st.

(** The loop; [n] counts the lines.  [None] when the fuel runs out. *)
Fixpoint serve_loop (c : Connection) (ticks : nat → Tick) (fuel n : nat) (st : Server) : option (Ended * Server) :=
  match fuel with
  | O => None
  | S fuel =>
      match Net.read_line (input st) with
      | (Err e, i) => Some (ReadFailed e, with_input i st)
      | (Ok None, i) => Some (Closed, with_input i st)
      | (Ok (Some line), i) =>
          match handle_line c (ticks n) line (with_input i st) with
          | (st, Some e) => Some (e, st)
          | (st, None) => serve_loop c ticks fuel (S n) st
          end
      end
  end.
Definition accepted (c : Connection) (plain : bytes) (gw : InboundGateway) : Server := {|
  input := plain; out := [(false, wire greeting)]; in_data := false; secured := false;
  session := MxSession_new (conn_ip c) (conn_now c); gateway := gw |}.
(** A line takes at least one byte. *)
Definition handle_connection (c : Connection) (ticks : nat → Tick) (plain : bytes) (gw : InboundGateway) : option (Ended * Server) :=
  serve_loop c ticks (S (length plain + length (default [] (behind_tls c)))) 0 (accepted c plain gw).

(** ** Termination *)

Definition todo (c : Connection) (st : Server) : nat :=
  length (input st) + (if secured st then 0 else length (default [] (behind_tls c))).

Lemma feed_channel t line st : input (feed t line st).2 = input st ∧ secured (feed t line st).2 = secured st.
Proof. unfold feed. by destruct (feed_line _ _ _ _) as [[r s] gw]. Qed.
Lemma handle_line_todo c t line st : (todo c (handle_line c t line st).1 ≤ todo c st)%nat.
Proof.
  unfold handle_line. destruct (late t); [done|]. destruct (in_data st).
  { unfold handle_data. destruct (feed_line_bytes _ _ _ _) as [[r s] gw]. by case_match. }
  unfold handle_command. destruct (_ || _).
  { unfold handle_ehlo. by case_match. }
  destruct (bool_decide _).
  { unfold handle_starttls. destruct (tls c); [|done]. destruct (secured st) eqn:E; [done|].
    destruct (behind_tls c) as [i|] eqn:Eb; cbn [negb fst]; [|done]. unfold todo. cbn. rewrite E, Eb. cbn. lia. }
  destruct (bool_decide _); [|destruct (bool_decide _)].
  - destruct (feed_channel t "QUIT" st) as [H1 H2]. unfold todo. cbn [fst]. by rewrite H1, H2.
  - destruct (feed_channel t "DATA" st) as [H1 H2]. destruct (feed t "DATA" st) as [r st1]. cbn [snd] in H1, H2.
    unfold todo. by destruct (reply_code r =? 354); cbn; rewrite H1, H2.
  - destruct (feed_channel t (from_utf8_lossy line) st) as [H1 H2]. unfold todo. cbn [fst]. by rewrite H1, H2.
Qed.
Lemma serve_loop_ends c ticks fuel n st : (todo c st < fuel)%nat → is_Some (serve_loop c ticks fuel n st).
Proof.
  revert n st. induction fuel as [|fuel IH]; intros n st H; [lia|]. cbn [serve_loop].
  destruct (Net.read_line_rest (input st)) as [_ Hl]. destruct (Net.read_line (input st)) as [[[line|]|e] i]; [|by eauto..].
  specialize (Hl line eq_refl). cbn [snd] in Hl.
  pose proof (handle_line_todo c (ticks n) line (with_input i st)) as Ht.
  destruct (handle_line _ _ _ _) as [st1 [e|]]; [by eauto|]. apply IH. cbn [fst] in Ht. unfold todo in *. cbn in Ht. lia.
Qed.

(** ** The listener against the session

    What the listener leaves is a session in the sense of [Inbound]: one that lines
    were fed to, with the configuration of the gateway it started with, and whose
    client never gave a name. *)
Record listening (c : Connection) (gw0 : InboundGateway) (st : Server) : Prop := {
  is_session : ∃ gw1 past, same_config gw1 gw0 ∧ reachable (conn_ip c) (conn_now c) gw1 past (session st) (gateway st);
  in_sync : in_data st = true → phase (session st) = Data;
  nameless : helo (session st) = None;
  outcome_nameless : ∀ o, spf_outcome (session st) = Some o →
    ∃ from, mail_from (session st) = Some from ∧ o = evaluate_spf gw0 (conn_ip c) from None;
}.

Lemma head_split c s : head (split_char c s) = Some (match split_once c s with Some (a, _) => a | None => s end).
Proof.
  induction s as [|d s IH]; [done|]. cbn [split_char split_once]. destruct (is_char c d); [done|].
  destruct (split_char c s) as [|p ps]; [done|]. injection IH as ->. by destruct (split_once c s) as [[]|].
Qed.
(** A command the listener passes on does not give the session a name. *)
Lemma feed_no_name amb line s gw r s' gw' :
  feed_line_bytes amb line s gw = (r, s', gw') → helo s = None →
  phase s = Data ∨ (verb_of (from_utf8_lossy line) ≠ "EHLO" ∧ verb_of (from_utf8_lossy line) ≠ "HELO")%string → helo s' = None.
Proof.
  intros H Hs Hv. unfold feed_line_bytes in H. destruct (phase s) eqn:Hp.
  - destruct Hv as [?|[Hv1 Hv2]]; [done|]. unfold verb_of in Hv1, Hv2. rewrite head_split in Hv1, Hv2. cbn [default] in Hv1, Hv2.
    destruct (split_once " " (from_utf8_lossy line)) as [[v rest]|].
    + rewrite (bool_decide_false (to_ascii_uppercase v = "HELO"%string)), (bool_decide_false (to_ascii_uppercase v = "EHLO"%string)) in H by done.
      cbn [orb] in H. unfold cmd_mail, cmd_rcpt, cmd_data in H. repeat case_match; by simplify_eq.
    + destruct (_ || _); [by simplify_eq|]. unfold cmd_mail, cmd_rcpt, cmd_data in H. repeat case_match; by simplify_eq.
  - unfold feed_data in H. repeat case_match; by simplify_eq.
Qed.
Lemma feed_outcome gw0 amb line s gw r s' gw' :
  feed_line_bytes amb line s gw = (r, s', gw') → same_config gw gw0 → helo s = None →
  (∀ o, spf_outcome s = Some o → ∃ from, mail_from s = Some from ∧ o = evaluate_spf gw0 (peer_ip s) from None) →
  ∀ o, spf_outcome s' = Some o → ∃ from, mail_from s' = Some from ∧ o = evaluate_spf gw0 (peer_ip s) from None.
Proof.
  intros H Hc Hn Ho. destruct (phase s) eqn:Hp.
  - pose proof (command_steps amb line s gw Hp) as Hst. rewrite H in Hst. destruct (config_facts gw0 gw Hc) as (_ & _ & He & _).
    inversion Hst; subst; try done. intros o [= <-]. eexists. split; [done|]. by rewrite <- He, Hn.
  - unfold feed_line_bytes in H. rewrite Hp in H. unfold feed_data in H. repeat case_match; by simplify_eq.
Qed.

#[local] Existing Instance same_config_refl.
#[local] Existing Instance same_config_trans.
Lemma reachable_config ip now gw1 past s gw : reachable ip now gw1 past s gw → same_config gw gw1.
Proof.
  induction 1 as [|past s gw amb line r s' gw' _ IH H|past s gw gw' _ IH H]; [reflexivity|..].
  - etransitivity; [by eapply step_config|done].
  - by etransitivity.
Qed.

Section invariant.
Context (c : Connection) (gw0 : InboundGateway) (Hmax : 0 ≤ max_message_bytes gw0).

Lemma listening_ip st : listening c gw0 st → peer_ip (session st) = conn_ip c ∧ same_config (gateway st) gw0.
Proof using Hmax.
  intros [(gw1 & past & Hc & Hr) _ _ _]. split.
  - eapply session_reachable_inv; [|exact Hr]. by rewrite (proj1 (config_facts _ _ Hc)).
  - etransitivity; [by eapply reachable_config|done].
Qed.
(** A line fed to the session. *)
Lemma listening_feed st st' amb line r :
  listening c gw0 st → feed_line_bytes amb line (session st) (gateway st) = (r, session st', gateway st') →
  phase (session st) = Data ∨ (verb_of (from_utf8_lossy line) ≠ "EHLO" ∧ verb_of (from_utf8_lossy line) ≠ "HELO")%string →
  (in_data st' = true → phase (session st') = Data) → listening c gw0 st'.
Proof using Hmax.
  intros Hl H Hv Hd. destruct (listening_ip st Hl) as [Hip Hcfg]. destruct Hl as [(gw1 & past & Hc & Hr) _ Hn Ho]. constructor.
  - exists gw1, (past ++ [(amb, gateway st)]). split; [done|]. by eapply reach_line.
  - done.
  - by eapply feed_no_name.
  - rewrite <- Hip in Ho |- *. by eapply feed_outcome.
Qed.
Lemma listening_same st st' :
  session st' = session st → gateway st' = gateway st → in_data st' = in_data st → listening c gw0 st → listening c gw0 st'.
Proof using. intros E1 E2 E3 [H1 H2 H3 H4]. constructor; rewrite ?E1, ?E2, ?E3; done. Qed.

Lemma verb_text s : verb_of s = to_ascii_uppercase (match split_once " " s with Some (a, _) => a | None => s end).
Proof using. unfold verb_of. by rewrite head_split. Qed.

Lemma cmd_data_phase s (gw : InboundGateway) r s' gw' : cmd_data s gw = (r, s', gw') → reply_code r = 354 → phase s' = Data.
Proof using. unfold cmd_data. repeat case_match; intros; by simplify_eq. Qed.
Lemma data_354 amb s (gw : InboundGateway) r s' gw' :
  phase s = Command → feed_line_bytes amb (as_bytes "DATA") s gw = (r, s', gw') → reply_code r = 354 → phase s' = Data.
Proof using.
  intros Hp H. assert (feed_line_bytes amb (as_bytes "DATA") s gw = cmd_data s gw) as E by (unfold feed_line_bytes; by rewrite Hp).
  rewrite E in H. by eapply cmd_data_phase.
Qed.
Lemma accept_nonzero gw from to d now spf eph r (gw' : InboundGateway) :
  accept_message_with_spf gw from to d now spf eph = (r, gw') → reply_code r ≠ 0.
Proof using. unfold accept_message_with_spf, dkim_gate, dmarc_gate. intros H. repeat case_match; by simplify_eq. Qed.
(** No reply as long as the message goes on, one when it ends. *)
Lemma data_zero amb line s (gw : InboundGateway) r s' gw' :
  phase s = Data → feed_line_bytes amb line s gw = (r, s', gw') →
  (reply_code r = 0 ↔ line ≠ [Byte.x2e]) ∧ (line ≠ [Byte.x2e] → phase s' = Data).
Proof using.
  unfold feed_line_bytes, feed_data. intros Hp H. rewrite Hp in H. case_bool_decide as E.
  - split; [|done]. split; [|done]. intros Hr. exfalso. destruct (size_exceeded _); [by simplify_eq|].
    destruct (accept_message_with_spf _ _ _ _ _ _ _) as [r1 gw1] eqn:Ea. apply accept_nonzero in Ea. by simplify_eq.
  - repeat case_match; by simplify_eq.
Qed.

Lemma handle_line_listening t line st :
  listening c gw0 st → listening c gw0 (handle_line c t line st).1.
Proof using Hmax.
  intros Hl. pose proof (in_sync _ _ _ Hl) as Hs. unfold handle_line. destruct (late t); [by eapply (listening_same st)|]. destruct (in_data st) eqn:Ed.
  { specialize (Hs eq_refl). unfold handle_data. destruct (feed_line_bytes _ _ _ _) as [[r s] gw] eqn:E. destruct (data_zero _ _ _ _ _ _ _ Hs E) as [Hz Hd].
    eapply listening_feed; [exact Hl| |left; exact Hs|]; destruct (reply_code r =? 0) eqn:Ez; cbn; try done; try exact E.
    intros _. apply Hd, Hz. by apply Z.eqb_eq. }
  unfold handle_command. set (cmd := from_utf8_lossy line). destruct (_ || _) eqn:Ev.
  { unfold handle_ehlo. case_match; by eapply (listening_same st). }
  apply orb_false_iff in Ev as [Ev1%bool_decide_eq_false Ev2%bool_decide_eq_false]. case_bool_decide.
  { unfold handle_starttls. repeat case_match; try (by eapply (listening_same st)). constructor; cbn; [|by rewrite Ed|done|done].
    exists (gateway st), []. split; [by apply listening_ip|constructor]. }
  case_bool_decide; [|case_bool_decide].
  - unfold feed. destruct (feed_line _ _ _ _) as [[r s] gw] eqn:E. eapply listening_feed; [exact Hl|exact E|right; vm_compute; done|cbn; by rewrite Ed].
  - unfold feed. destruct (feed_line _ _ _ _) as [[r s] gw] eqn:E.
    destruct (reply_code r =? 354) eqn:Ez; (eapply listening_feed; [exact Hl|exact E|right; vm_compute; done|cbn]); [|by rewrite Ed].
    intros _. apply Z.eqb_eq in Ez. destruct (phase (session st)) eqn:Hp; [by eapply data_354|].
    destruct (data_zero _ _ _ _ _ _ _ Hp E) as [_ Hd]. apply Hd. vm_compute. done.
  - unfold feed. destruct (feed_line _ _ _ _) as [[r s] gw] eqn:E. eapply listening_feed; [exact Hl|exact E| |cbn; by rewrite Ed].
    right. unfold cmd. by rewrite from_utf8_lossy_idem.
Qed.
Lemma serve_loop_listening ticks fuel n st e st' :
  listening c gw0 st → serve_loop c ticks fuel n st = Some (e, st') → listening c gw0 st'.
Proof using Hmax.
  revert n st. induction fuel as [|fuel IH]; intros n st Hl H; [done|]. cbn [serve_loop] in H.
  destruct (Net.read_line (input st)) as [[[line|]|er] i]; try (injection H as <- <-; by eapply (listening_same st)).
  pose proof (handle_line_listening (ticks n) line (with_input i st)) as Hh.
  destruct (handle_line _ _ _ _) as [st1 [e1|]]; cbn [fst] in Hh.
  - injection H as <- <-. apply Hh. by eapply (listening_same st).
  - eapply IH; [|done]. apply Hh. by eapply (listening_same st).
Qed.
End invariant.

Lemma accepted_listening c plain gw : listening c gw (accepted c plain gw).
Proof. constructor; cbn; try done. exists gw, []. split; [reflexivity|constructor]. Qed.
Lemma connection_listening c ticks plain gw e st :
  0 ≤ max_message_bytes gw → handle_connection c ticks plain gw = Some (e, st) → listening c gw st.
Proof. intros H. unfold handle_connection. apply serve_loop_listening; [done|apply accepted_listening]. Qed.

(** C28: A connection is served to its end, whatever the peer sends. *)
Theorem connection_terminates c ticks plain (gw : InboundGateway) : is_Some (handle_connection c ticks plain gw).
Proof. apply serve_loop_ends. unfold todo. cbn. lia. Qed.

(** *** The lines of a stream

    What a stream of bytes says, without reading it: the pieces in front of its line
    feeds, each without a carriage return at its end, up to the first that is too
    long, and how it ends. *)
Fixpoint pieces (bs : bytes) : list bytes * bytes :=
  match bs with
  | [] => ([], [])
  | b :: bs =>
      let '(ps, r) := pieces bs in
      if bool_decide (b = Byte.x0a) then ([] :: ps, r)
      else match ps with p :: ps => ((b :: p) :: ps, r) | [] => ([], b :: r) end
  end.
Definition too_long (p : bytes) : bool := Net.max_line <? Z.of_nat (length p).
Fixpoint cut (ps : list bytes) (r : bytes) : list bytes * Ended :=
  match ps with
  | [] => ([], if too_long r then ReadFailed Net.LineTooLong else if bool_decide (r = []) then Closed else ReadFailed Net.UnexpectedEof)
  | p :: ps => if too_long p then ([], ReadFailed Net.LineTooLong) else let '(ls, e) := cut ps r in (Net.pop_cr p :: ls, e)
  end.
Definition lines_of (bs : bytes) : list bytes * Ended := let '(ps, r) := pieces bs in cut ps r.

Lemma read_line_pieces bs buf :
  too_long buf = false →
  match pieces bs with
  | (p :: ps, r) =>
      if too_long (buf ++ p) then (Net.read_line_loop bs buf).1 = Err Net.LineTooLong
      else ∃ i, Net.read_line_loop bs buf = (Ok (Some (Net.pop_cr (buf ++ p))), i) ∧ pieces i = (ps, r)
  | ([], r) =>
      (Net.read_line_loop bs buf).1 =
        if too_long (buf ++ r) then Err Net.LineTooLong else if bool_decide (buf ++ r = []) then Ok None else Err Net.UnexpectedEof
  end.
Proof.
  revert buf. induction bs as [|b bs IH]; intros buf Hb; cbn [pieces Net.read_line_loop].
  { by rewrite app_nil_r, Hb. }
  case_bool_decide as E.
  { destruct (pieces bs) as [ps r] eqn:Ep. rewrite app_nil_r, Hb. by exists bs. }
  assert (∀ p, too_long (buf ++ [b]) = true → too_long (buf ++ b :: p) = true) as Hlong.
  { unfold too_long. intros p. rewrite !Z.ltb_lt, !length_app. cbn. lia. }
  specialize (IH (buf ++ [b])). change (Net.max_line <? Z.of_nat (length (buf ++ [b]))) with (too_long (buf ++ [b])).
  destruct (pieces bs) as [[|p ps] r]; rewrite <- ?app_assoc in IH; cbn [app] in IH;
    (destruct (too_long (buf ++ [b])) eqn:El; [by rewrite Hlong|by apply IH]).
Qed.
(** The reader yields the next of these lines, and leaves the stream at the others. *)
Lemma read_line_lines_of bs :
  match lines_of bs with
  | ([], e) => ∃ i, Net.read_line bs = match e with ReadFailed er => (Err er, i) | _ => (Ok None, i) end ∧ (e = Closed ∨ ∃ er, e = ReadFailed er)
  | (l :: ls, e) => ∃ i, Net.read_line bs = (Ok (Some l), i) ∧ lines_of i = (ls, e)
  end.
Proof.
  pose proof (read_line_pieces bs [] eq_refl) as H. cbn [app] in H. unfold lines_of, Net.read_line.
  destruct (pieces bs) as [[|p ps] r]; cbn [cut].
  - destruct (Net.read_line_loop bs []) as [x i]. cbn [fst] in H. exists i. subst x. repeat case_match; naive_solver.
  - destruct (too_long p).
    + destruct (Net.read_line_loop bs []) as [x i]. cbn [fst] in H. exists i. subst x. naive_solver.
    + destruct H as (i & E & Ei). destruct (cut ps r) as [ls e] eqn:Ec. exists i. by rewrite E, Ei.
Qed.

(** *** The dialogue line by line

    The client's side of the state: whether a message is being read, the session and
    its gateway, the lines the session was fed and the answers given. *)
Record Played := {
  p_mode : bool;
  p_session : MxSession;
  p_gateway : InboundGateway;
  p_fed : list (Ambient * bytes);
  p_out : list string;
}.
Definition fresh (c : Connection) (gw : InboundGateway) : Played := {|
  p_mode := false; p_session := MxSession_new (conn_ip c) (conn_now c); p_gateway := gw; p_fed := []; p_out := [] |}.
(** What of a line goes to the session: in a message all of it as it is; of the commands
    none that are about the connection, [QUIT] and [DATA] without their arguments, and
    the text of every other. *)
Definition passes (mode : bool) (line : bytes) : option bytes :=
  if mode then Some line else
  let text := from_utf8_lossy line in
  let verb := verb_of text in
  if bool_decide (verb ∈ ["EHLO"; "HELO"; "STARTTLS"]%string) then None
  else if bool_decide (verb ∈ ["QUIT"; "DATA"]%string) then Some (as_bytes verb)
  else Some (as_bytes text).
(** The answer to a command about the connection. *)
Definition own_answer (c : Connection) (secured : bool) (line : bytes) : list string :=
  if bool_decide (verb_of (from_utf8_lossy line) = "STARTTLS"%string) then
    [wire (if tls c then if secured then SmtpReply_new 503 "5.5.1 already secured" else SmtpReply_new 220 "2.0.0 ready to start TLS"
           else SmtpReply_new 502 "5.5.1 STARTTLS not available")]
  else if tls c && negb secured then ["250-envoir-gateway at your service" +:+ OutboundTcp.crlf; "250 STARTTLS" +:+ OutboundTcp.crlf]
  else ["250 envoir-gateway at your service" +:+ OutboundTcp.crlf].
Definition answered (ss : list string) (p : Played) : Played := {|
  p_mode := p_mode p; p_session := p_session p; p_gateway := p_gateway p; p_fed := p_fed p; p_out := p_out p ++ ss |}.
Definition play_line (c : Connection) (secured : bool) (t : Tick) (line : bytes) (p : Played) : Played :=
  if late t then answered [wire (SmtpReply_new 421 "4.4.2 transaction timed out, closing connection")] p
  else match passes (p_mode p) line with
  | None => answered (own_answer c secured line) p
  | Some l =>
      let '(r, s, gw) := feed_line_bytes (ambient t) l (p_session p) (p_gateway p) in
      let silent := p_mode p && (reply_code r =? 0) in
      {| p_mode := if p_mode p then silent else bool_decide (l = as_bytes "DATA") && (reply_code r =? 354);
         p_session := s; p_gateway := gw; p_fed := p_fed p ++ [(ambient t, l)];
         p_out := p_out p ++ (if silent then [] else [wire r]) |}
  end.
(** What a line does to the connection. *)
Inductive Verdict := Leave (e : Ended) | Secure (i : bytes).
Definition verdict (c : Connection) (secured : bool) (t : Tick) (mode : bool) (line : bytes) : option Verdict :=
  if late t then Some (Leave TimedOut) else if mode then None else
  let verb := verb_of (from_utf8_lossy line) in
  if bool_decide (verb = "QUIT"%string) then Some (Leave Closed)
  else if bool_decide (verb = "STARTTLS"%string) && tls c && negb secured then
    Some (match behind_tls c with None => Leave HandshakeFailed | Some i => Secure i end)
  else None.
(** All lines of a channel in order, up to one that ends it. *)
Fixpoint converse (c : Connection) (secured : bool) (ticks : nat → Tick) (n : nat) (ls : list bytes) (last : Ended) (p : Played)
    : Verdict * Played * nat :=
  match ls with
  | [] => (Leave last, p, n)
  | l :: ls =>
      let p' := play_line c secured (ticks n) l p in
      match verdict c secured (ticks n) (p_mode p) l with
      | Some v => (v, p', S n)
      | None => converse c secured ticks (S n) ls last p'
      end
  end.
Definition play (c : Connection) (secured : bool) (ticks : nat → Tick) (n : nat) (bs : bytes) (p : Played) : Verdict * Played * nat :=
  let '(ls, last) := lines_of bs in converse c secured ticks n ls last p.

Lemma run_app l s (gw : InboundGateway) amb line :
  run (l ++ [(amb, line)]) s gw =
  let '(rs, s1, gw1) := run l s gw in let '(r, s2, gw2) := feed_line_bytes amb line s1 gw1 in (rs ++ [r], s2, gw2).
Proof using.
  revert s gw. induction l as [|[a x] l IH]; intros s gw; cbn [app run].
  - by destruct (feed_line_bytes _ _ _ _) as [[r s2] gw2].
  - destruct (feed_line_bytes a x s gw) as [[r s1] gw1]. rewrite IH. destruct (run l s1 gw1) as [[rs s2] gw2].
    by destruct (feed_line_bytes _ _ _ _) as [[r3 s3] gw3].
Qed.
(** The session is what the lines fed to it make of a fresh one. *)
Definition fed_from (s0 : MxSession) (gw0 : InboundGateway) (p : Played) : Prop :=
  ∃ rs, run (p_fed p) s0 gw0 = (rs, p_session p, p_gateway p).
Lemma play_line_fed c secured t line s0 gw0 p : fed_from s0 gw0 p → fed_from s0 gw0 (play_line c secured t line p).
Proof using.
  intros [rs H]. unfold play_line. destruct (late t); [by exists rs|]. destruct (passes _ _) as [l|]; [|by exists rs].
  destruct (feed_line_bytes _ _ _ _) as [[r s] gw] eqn:E. exists (rs ++ [r]). cbn [p_fed p_session p_gateway]. by rewrite run_app, H, E.
Qed.
Lemma play_fed c secured ticks n bs s0 gw0 p : fed_from s0 gw0 p → fed_from s0 gw0 (play c secured ticks n bs p).1.2.
Proof using.
  unfold play. destruct (lines_of bs) as [ls e]. revert n p. induction ls as [|l ls IH]; intros n p H; cbn [converse]; [done|].
  destruct (verdict _ _ _ _ _); [by apply play_line_fed|]. by apply IH, play_line_fed.
Qed.
(** A channel behind TLS is not secured again. *)
Lemma play_secured c ticks n bs p i : (play c true ticks n bs p).1.1 ≠ Secure i.
Proof using.
  unfold play. destruct (lines_of bs) as [ls e]. revert n p. induction ls as [|l ls IH]; intros n p; cbn [converse]; [done|].
  unfold verdict. rewrite andb_false_r. repeat case_match; simplify_eq; try done; apply IH.
Qed.

(** *** The listener plays the dialogue *)

Definition shows (said : list (bool * string)) (st : Server) (p : Played) : Prop :=
  in_data st = p_mode p ∧ session st = p_session p ∧ gateway st = p_gateway p ∧
  out st = said ++ ((secured st,.) <$> p_out p).
(** The server that begins to read behind TLS. *)
Definition behind (c : Connection) (i : bytes) (o : list (bool * string)) (gw : InboundGateway) : Server := {|
  input := i; out := o; in_data := false; secured := true; session := MxSession_new (conn_ip c) (conn_now c); gateway := gw |}.
Lemma handle_line_plays c t line st said p :
  shows said st p →
  let '(st', o) := handle_line c t line st in
  let p' := play_line c (secured st) t line p in
  match verdict c (secured st) t (p_mode p) line with
  | Some (Secure i) => o = None ∧ st' = behind c i (said ++ ((false,.) <$> p_out p')) (p_gateway p')
  | v => o = match v with Some (Leave e) => Some e | _ => None end ∧
      shows said st' p' ∧ input st' = input st ∧ secured st' = secured st
  end.
Proof using.
  intros (H1 & H2 & H3 & H4). unfold handle_line, play_line, verdict. rewrite <- H1.
  destruct (late t).
  { split_and!; try done. unfold shows. cbn. by rewrite H4, fmap_app, <- app_assoc. }
  destruct (in_data st) eqn:Ed; cbn [passes].
  { unfold handle_data. rewrite H2, H3. destruct (feed_line_bytes _ _ _ _) as [[r s] gw]. cbn [andb].
    destruct (reply_code r =? 0); cbn [negb]; (split_and!; try done); unfold shows; cbn; rewrite ?Ed, ?H4, ?fmap_app, ?app_nil_r, <- ?app_assoc; done. }
  unfold handle_command, passes, own_answer. set (text := from_utf8_lossy line). set (verb := verb_of text).
  destruct (bool_decide (verb = "EHLO")%string || bool_decide (verb = "HELO")%string) eqn:Ev.
  { assert (verb ∈ ["EHLO"; "HELO"; "STARTTLS"]%string ∧ verb ≠ "STARTTLS" ∧ verb ≠ "QUIT")%string as (Hin & Hs & Hq).
    { apply orb_true_iff in Ev. rewrite !bool_decide_eq_true in Ev. destruct Ev as [-> | ->]; (split_and!; [apply (bool_decide_unpack _); exact I|done..]). }
    rewrite (bool_decide_true _ Hin), (bool_decide_false _ Hs), (bool_decide_false _ Hq). cbn [andb]. unfold handle_ehlo.
    destruct (tls c && negb (secured st)); (split_and!; try done); unfold shows; cbn; rewrite ?Ed, ?H4, ?fmap_app, <- ?app_assoc; done. }
  apply orb_false_iff in Ev as [Ev1%bool_decide_eq_false Ev2%bool_decide_eq_false].
  destruct (decide (verb = "STARTTLS")%string) as [Hs|Hs].
  { rewrite Hs. rewrite !(bool_decide_true ("STARTTLS" = "STARTTLS")%string) by done.
    rewrite (bool_decide_true ("STARTTLS" ∈ ["EHLO"; "HELO"; "STARTTLS"])%string) by (apply (bool_decide_unpack _); exact I).
    rewrite (bool_decide_false ("STARTTLS" = "QUIT")%string) by done. cbn [andb]. unfold handle_starttls.
    destruct (tls c) eqn:Et; cbn [andb]; [destruct (secured st) eqn:Es; cbn [negb]; [|destruct (behind_tls c) as [i|]]|];
      try (split_and!; try done; unfold shows; cbn; rewrite ?Ed, ?Es, ?H4, ?fmap_app, <- ?app_assoc; done).
    split; [done|]. unfold behind. cbn. by rewrite Ed, H3, H4, fmap_app, <- app_assoc, ?Es. }
  rewrite (bool_decide_false (verb = "STARTTLS")%string) by done. rewrite (bool_decide_false (verb ∈ ["EHLO"; "HELO"; "STARTTLS"]%string))
    by (rewrite !elem_of_cons, elem_of_nil; naive_solver).
  cbn [andb]. assert (∀ l, feed_line_bytes (ambient t) (as_bytes l) (p_session p) (p_gateway p) = feed_line (ambient t) l (session st) (gateway st)) as Hf
    by (intros l; by rewrite H2, H3).
  destruct (decide (verb = "QUIT")%string) as [Hq|Hq]; [|destruct (decide (verb = "DATA")%string) as [Hd|Hd]].
  - rewrite Hq. rewrite !(bool_decide_true ("QUIT" = "QUIT")%string) by done.
    rewrite (bool_decide_true ("QUIT" ∈ ["QUIT"; "DATA"])%string) by (apply (bool_decide_unpack _); exact I). rewrite Hf. unfold feed.
    destruct (feed_line _ _ _ _) as [[r s] gw]. cbn [snd]. split_and!; try done. unfold shows. cbn. rewrite Ed, H4, fmap_app, <- app_assoc. done.
  - rewrite Hd. rewrite !(bool_decide_true ("DATA" = "DATA")%string) by done.
    rewrite (bool_decide_true ("DATA" ∈ ["QUIT"; "DATA"])%string) by (apply (bool_decide_unpack _); exact I). rewrite !(bool_decide_false ("DATA" = "QUIT")%string) by done.
    rewrite Hf. unfold feed. destruct (feed_line _ _ _ _) as [[r s] gw]. rewrite bool_decide_true by done. cbn [andb].
    destruct (reply_code r =? 354); (split_and!; try done); unfold shows; cbn; rewrite ?Ed, ?H4, ?fmap_app, <- ?app_assoc; done.
  - rewrite !(bool_decide_false (verb = _)) by done. rewrite (bool_decide_false (verb ∈ ["QUIT"; "DATA"]%string))
      by (rewrite !elem_of_cons, elem_of_nil; naive_solver). rewrite Hf. unfold feed.
    destruct (feed_line _ _ _ _) as [[r s] gw]. cbn [snd].
    assert (as_bytes text ≠ as_bytes "DATA") as Hne.
    { intros E%Attestation.as_bytes_inj. apply Hd. unfold verb. by rewrite E. }
    rewrite bool_decide_false by done. cbn [andb]. split_and!; try done. unfold shows. cbn. rewrite Ed, H4, fmap_app, <- app_assoc. done.
Qed.
Lemma serve_loop_plays c ticks fuel n st said p e st' :
  shows said st p → serve_loop c ticks fuel n st = Some (e, st') →
  let '(v, p', m) := play c (secured st) ticks n (input st) p in
  match v with
  | Leave e' => e = e' ∧ shows said st' p' ∧ secured st' = secured st
  | Secure i => ∃ fuel', serve_loop c ticks fuel' m (behind c i (said ++ ((false,.) <$> p_out p')) (p_gateway p')) = Some (e, st')
  end.
Proof using.
  revert n st p. induction fuel as [|fuel IH]; intros n st p Hs H; [done|]. cbn [serve_loop] in H. unfold play.
  pose proof (read_line_lines_of (input st)) as Hl. destruct (lines_of (input st)) as [[|l ls] e0]; cbn [converse].
  - destruct Hl as (i & E & [->|[er ->]]); rewrite E in H; injection H as <- <-; done.
  - destruct Hl as (i & E & Ei). rewrite E in H.
    pose proof (handle_line_plays c (ticks n) l (with_input i st) said p Hs) as Hp. cbn [secured with_input input] in Hp.
    destruct (handle_line c (ticks n) l (with_input i st)) as [st1 o]. destruct (verdict _ _ _ _ _) as [[e1|i1]|].
    + destruct Hp as (-> & Hs1 & _ & Hsec). by injection H as <- <-.
    + destruct Hp as (-> & ->). by exists fuel.
    + destruct Hp as (-> & Hs1 & Hi & Hsec). specialize (IH (S n) st1 _ Hs1 H). unfold play in IH. by rewrite Hi, Ei, Hsec in IH.
Qed.

(** C19: The listener adds framing and TLS and nothing else.  Take the peer's bytes apart at
    their line feeds.  The lines of the clear channel, in order and each once, up to one
    that ends the channel, are either answered by the listener, which leaves the session
    alone (EHLO, HELO, STARTTLS, and 421 when time is up), or fed to a fresh session: a
    line of a message as it is, QUIT and DATA without arguments, any other command as
    its text; each answer is written, in clear, but for the lines within a message that
    have none.  If no STARTTLS is followed by a handshake, what the connection leaves is
    that; if one is, the bytes behind it are played in the same way to another fresh
    session over the gateway the first left, all answers behind TLS, and nothing else of
    the first session remains.  While the listener reads a message, so does the session. *)
Theorem listener_refines_session c ticks plain (gw : InboundGateway) e st :
  0 ≤ max_message_bytes gw → handle_connection c ticks plain gw = Some (e, st) →
  let '(v, p, n) := play c false ticks 0 plain (fresh c gw) in
  fed_from (MxSession_new (conn_ip c) (conn_now c)) gw p ∧
  match v with
  | Leave e' => e = e' ∧ secured st = false ∧ shows [(false, wire greeting)] st p
  | Secure i =>
      let '(v', p', _) := play c true ticks n i (fresh c (p_gateway p)) in
      fed_from (MxSession_new (conn_ip c) (conn_now c)) (p_gateway p) p' ∧
      v' = Leave e ∧ secured st = true ∧ shows ((false, wire greeting) :: ((false,.) <$> p_out p)) st p'
  end ∧
  (in_data st = true → phase (session st) = Data).
Proof.
  intros Hm H. pose proof (in_sync _ _ _ (connection_listening _ _ _ _ _ _ Hm H)) as Hsync. unfold handle_connection in H.
  eapply (serve_loop_plays _ _ _ _ _ [(false, wire greeting)] (fresh c gw)) in H; [|by split_and!].
  cbn [accepted secured input] in H. pose proof (play_fed c false ticks 0 plain _ gw (fresh c gw) (ex_intro _ [] eq_refl)) as Hf.
  destruct (play c false ticks 0 plain (fresh c gw)) as [[v p] n]. cbn [fst snd] in Hf. split; [done|]. split; [|done].
  destruct v as [e'|i]; [naive_solver|]. destruct H as [fuel' H].
  eapply (serve_loop_plays _ _ _ _ _ ((false, wire greeting) :: ((false,.) <$> p_out p)) (fresh c (p_gateway p))) in H.
  2: { unfold shows. cbn. by rewrite app_nil_r. }
  cbn [behind secured input] in H. pose proof (play_fed c true ticks n i _ (p_gateway p) (fresh c (p_gateway p)) (ex_intro _ [] eq_refl)) as Hf'.
  pose proof (play_secured c ticks n i (fresh c (p_gateway p))) as Hv.
  destruct (play c true ticks n i _) as [[[e'|i'] p'] m]; cbn [fst snd] in Hf', Hv; [|by destruct (Hv i')].
  destruct H as (-> & H & Hsec). done.
Qed.

(** The name a client gives with [HELO] or [EHLO] never reaches the session, because
    the listener answers these commands itself: every SPF outcome is computed without
    it, and a message with the null sender, whose SPF identity is that name, gets the
    result [none] and passes the SPF gate. *)
Theorem helo_identity_lost c ticks plain (gw : InboundGateway) e st o :
  0 ≤ max_message_bytes gw → handle_connection c ticks plain gw = Some (e, st) → spf_outcome (session st) = Some o →
  helo (session st) = None ∧
  ∃ from, mail_from (session st) = Some from ∧ o = evaluate_spf gw (conn_ip c) from None ∧
    (trim from = EmptyString ∨ trim from = "<>"%string → Spf.result o = Spf.SpfNone ∧ spf_gate gw o = Ok tt).
Proof.
  intros Hm H Ho. apply connection_listening in H as [_ _ H3 H4]; [|done]. split; [done|]. destruct (H4 o Ho) as (from & Hf & ->).
  exists from. split_and!; [done|done|]. intros Hn.
  assert (Spf.result (evaluate_spf gw (conn_ip c) from None) = Spf.SpfNone) as Hr.
  { unfold evaluate_spf. destruct (spf_resolver gw); [|done]. destruct (parse_ip _); [|done]. unfold Spf.evaluate.
    rewrite (proj2 (orb_true_iff _ _)); [done|]. rewrite !bool_decide_eq_true. done. }
  split; [done|]. unfold spf_gate. rewrite Hr. by case_bool_decide.
Qed.

(** ** From the client to the session *)

Definition line_ok (l : bytes) : Prop := Net.no_lf l ∧ Z.of_nat (length l) < Net.max_line - 1.
Definition framed (ls : list bytes) : bytes := concat ((λ l, l ++ Dkim.CRLF) <$> ls).
Lemma framed_cons l ls : framed (l :: ls) = l ++ Dkim.CRLF ++ framed ls.
Proof using. unfold framed. rewrite fmap_cons. cbn [concat]. by rewrite <- app_assoc. Qed.

Lemma dot_stuff_inside l m :
  Net.no_lf l → OutboundTcp.dot_stuff false (l ++ Dkim.CRLF ++ m) = l ++ Dkim.CRLF ++ OutboundTcp.dot_stuff true m.
Proof using.
  induction 1 as [|b l Hb Hl IH]; [done|]. cbn [app OutboundTcp.dot_stuff andb]. rewrite (bool_decide_false (b = _)) by done. by rewrite IH.
Qed.
Lemma dot_stuff_line l m :
  Net.no_lf l → OutboundTcp.dot_stuff true (l ++ Dkim.CRLF ++ m) = stuff l ++ Dkim.CRLF ++ OutboundTcp.dot_stuff true m.
Proof using.
  intros [|b l' Hb Hl]; [done|]. cbn [app OutboundTcp.dot_stuff andb]. rewrite (bool_decide_false (b = Byte.x0a)) by done.
  rewrite dot_stuff_inside by done. unfold stuff. by case_bool_decide.
Qed.
Lemma dot_stuff_text ls : Forall line_ok ls → OutboundTcp.dot_stuff true (framed ls) = framed (stuff <$> ls).
Proof using.
  induction 1 as [|l ls [Hl _] HF IH]; [done|]. rewrite fmap_cons, !framed_cons, dot_stuff_line by done. by rewrite IH.
Qed.
Lemma framed_ends l ls : OutboundTcp.ends_with_crlf (framed (l :: ls)) = true.
Proof using.
  revert l. induction ls as [|l' ls IH]; intros l.
  - rewrite framed_cons, app_nil_r. unfold OutboundTcp.ends_with_crlf. rewrite reverse_app. done.
  - rewrite framed_cons. specialize (IH l'). unfold OutboundTcp.ends_with_crlf in *. rewrite !reverse_app, <- app_assoc.
    by destruct (reverse (framed (l' :: ls))) as [|? [|? ?]].
Qed.
(** What the client writes for a message is its lines, stuffed, and a dot. *)
Lemma data_wire_text ls :
  ls ≠ [] → Forall line_ok ls → OutboundTcp.data_wire (framed ls) = framed ((stuff <$> ls) ++ [[Byte.x2e]]).
Proof using.
  intros Hne HF. unfold OutboundTcp.data_wire. rewrite dot_stuff_text by done. destruct ls as [|l ls]; [done|]. rewrite framed_ends.
  unfold framed. rewrite fmap_app, concat_app. done.
Qed.
Lemma stuff_ok l : line_ok l → Net.no_lf (stuff l) ∧ Z.of_nat (length (stuff l)) < Net.max_line.
Proof using.
  intros [Hl Hlen]. destruct l as [|b l]; [split; [done|cbn; lia]|]. unfold stuff. case_bool_decide.
  - split; [by constructor|]. cbn [length] in *. lia.
  - split; [done|]. lia.
Qed.

Section arrival.
Context (c : Connection) (ticks : nat → Tick) (Hlate : ∀ n, late (ticks n) = false).

Lemma serve_data_line fuel n st l rest :
  in_data st = true → Net.no_lf l → Z.of_nat (length l) < Net.max_line → input st = l ++ Dkim.CRLF ++ rest →
  serve_loop c ticks (S fuel) n st = serve_loop c ticks fuel (S n) (handle_data (ticks n) l (with_input rest st)).
Proof using Hlate.
  intros Hd Hl Hlen Hi. cbn [serve_loop]. rewrite Hi. unfold Dkim.CRLF. rewrite Net.read_line_crlf by done.
  unfold handle_line. rewrite Hlate. cbn [with_input in_data]. by rewrite Hd.
Qed.
Definition timed (n : nat) (ls : list bytes) : list (Ambient * bytes) := imap (λ i l, (ambient (ticks (n + i)), l)) ls.
Lemma timed_cons n l ls : timed n (l :: ls) = (ambient (ticks n), l) :: timed (S n) ls.
Proof using.
  unfold timed. rewrite imap_cons, Nat.add_0_r. f_equal. apply imap_ext. intros i x _. cbn. do 3 f_equal. lia.
Qed.
Lemma serve_data_lines ls fuel n st rest :
  in_data st = true → phase (session st) = Data →
  Forall (λ l, Net.no_lf l ∧ Z.of_nat (length l) < Net.max_line ∧ l ≠ [Byte.x2e]) ls → input st = framed ls ++ rest →
  serve_loop c ticks (length ls + fuel) n st =
  let '(_, s, gw) := run (timed n ls) (session st) (gateway st) in
  serve_loop c ticks fuel (n + length ls) (with_input rest (with_session s gw st)).
Proof using Hlate.
  intros Hd Hp HF. revert n st Hd Hp. induction HF as [|l ls (Hl & Hlen & Hdot) HF IH]; intros n st Hd Hp Hi.
  - cbn. rewrite Nat.add_0_r. destruct st. cbn in *. by subst.
  - cbn [length]. change (S (length ls) + fuel)%nat with (S (length ls + fuel)). rewrite (serve_data_line (length ls + fuel) n st l (framed ls ++ rest)) by (try done; by rewrite Hi, framed_cons, <- !app_assoc).
    rewrite timed_cons. cbn [run]. unfold handle_data. cbn [session gateway with_input].
    destruct (feed_line_bytes _ l _ _) as [[r s] gw] eqn:E. destruct (data_zero _ _ _ _ _ _ _ Hp E) as [Hz Hph].
    rewrite (proj2 Hz), Z.eqb_refl by done. cbn [negb]. rewrite IH; [|done|by apply Hph|done].
    cbn [session gateway with_session with_input]. destruct (run _ s gw) as [[rs s1] gw1].
    rewrite Nat.add_succ_comm. done.
Qed.

(** C18: A message the gateway's own client sends reaches the session byte for byte: the
    client's wire form of a message of lines, read by the listener in a session that
    expects a message, is answered once, with the verdict on exactly that text, or
    with 552 when it is too long; and the listener is back to commands, with what
    follows the message still unread. *)
Theorem client_text_arrives ls fuel n st rest :
  ls ≠ [] → Forall line_ok ls → in_data st = true → phase (session st) = Data → data (session st) = [] →
  size_exceeded (session st) = false → 0 ≤ max_message_bytes (gateway st) →
  input st = OutboundTcp.data_wire (message_text ls) ++ rest →
  serve_loop c ticks (length ls + S fuel) n st =
  let '(r, gw) :=
    if max_message_bytes (gateway st) <? Z.of_nat (length (message_text ls))
    then (SmtpReply_new 552 "5.3.4 message size exceeds fixed maximum message size", gateway st)
    else accept_message_with_spf (gateway st) (default EmptyString (mail_from (session st))) (default EmptyString (rcpt_to (session st)))
           (message_text ls) (mx_now (session st)) (spf_outcome (session st)) (ephemeral_key (ambient (ticks (n + length ls)))) in
  serve_loop c ticks fuel (S (n + length ls))
    {| input := rest; out := out st ++ [(secured st, wire r)]; in_data := false; secured := secured st;
       session := reset_transaction (with_phase Command (session st)); gateway := gw |}.
Proof using Hlate.
  intros Hne HF Hd Hp H0 Hs Hm Hi. fold (framed ls) in *. change (message_text ls) with (framed ls) in *.
  rewrite data_wire_text in Hi by done. unfold framed in Hi. rewrite fmap_app, concat_app in Hi. fold (framed (stuff <$> ls)) in Hi.
  rewrite <- app_assoc in Hi. replace (length ls) with (length (stuff <$> ls)) at 1 by apply length_fmap.
  rewrite (serve_data_lines (stuff <$> ls) (S fuel) n st ([Byte.x2e] ++ Dkim.CRLF ++ rest)); [|done|done| |done].
  2: { apply Forall_fmap. eapply Forall_impl; [exact HF|]. intros l [H1 H2]%stuff_ok. split_and!; [done|done|apply stuff_not_dot]. }
  assert (timed n (stuff <$> ls) = (λ al, (al.1, stuff al.2)) <$> timed n ls) as ->.
  { unfold timed. rewrite imap_fmap, fmap_imap. done. }
  assert (snd <$> timed n ls = ls) as Hsnd.
  { unfold timed. rewrite fmap_imap. transitivity (imap (const id) ls); [done|]. rewrite imap_const. apply list_fmap_id. }
  rewrite run_lines by (done || by rewrite H0). rewrite Hsnd, H0, app_nil_l. change (message_text ls) with (framed ls). rewrite length_fmap.
  set (over := max_message_bytes (gateway st) <? Z.of_nat (length (framed ls))).
  rewrite (serve_data_line fuel _ _ [Byte.x2e] rest); [|done|by repeat constructor|done|done].
  unfold handle_data. cbn [session gateway with_session with_input]. unfold feed_line_bytes.
  destruct over; cbn [phase with_data]; rewrite Hp; unfold feed_data; rewrite bool_decide_true by done;
    cbn [size_exceeded with_phase with_data data mail_from rcpt_to mx_now spf_outcome]; [done|].
  destruct (accept_message_with_spf _ _ _ _ _ _ _) as [r gw] eqn:Ea. apply accept_nonzero in Ea. rewrite (proj2 (Z.eqb_neq _ _)) by done. done.
Qed.
End arrival.

(** The listener and the session disagree on what a [DATA] command is: with a tab
    behind it, the session starts to read a message and the listener does not.  The
    lines of the message then pass through the decoder, so that a byte that is not
    UTF-8 is replaced, and each is answered with a reply of code 0. *)
Theorem data_tab_desync c t1 t2 (st : Server) :
  late t1 = false → late t2 = false → in_data st = false → phase (session st) = Command →
  data (session st) = [] → size_exceeded (session st) = false → mail_from (session st) ≠ None → rcpt_to (session st) ≠ None →
  5 ≤ max_message_bytes (gateway st) →
  let st1 := (handle_line c t1 (as_bytes "DATA" ++ [Byte.x09]) st).1 in
  let st2 := (handle_line c t2 [Byte.xe9] st1).1 in
  phase (session st1) = Data ∧ in_data st1 = false ∧
  data (session st2) = replacement ++ Dkim.CRLF ∧ out st2 = out st1 ++ [(secured st, "0 " +:+ OutboundTcp.crlf)].
Proof.
  intros L1 L2 Hd Hp H0 Hs Hm Hr Hmax. unfold handle_line. rewrite L1, Hd. unfold handle_command.
  set (cmd := from_utf8_lossy (as_bytes "DATA" ++ [Byte.x09])).
  assert (verb_of cmd = cmd) as -> by (vm_compute; reflexivity).
  rewrite !(bool_decide_false (cmd = _)) by (vm_compute; congruence). cbn [orb fst]. unfold feed.
  assert (feed_line (ambient t1) cmd (session st) (gateway st) = cmd_data (session st) (gateway st)) as ->.
  { unfold feed_line, feed_line_bytes. rewrite Hp. vm_compute cmd. done. }
  unfold cmd_data. destruct (mail_from (session st)) eqn:E1, (rcpt_to (session st)) eqn:E2; try done.
  cbn [snd fst]. rewrite L2. cbn [in_data say with_session]. rewrite Hd.
  set (l := from_utf8_lossy [Byte.xe9]). assert (verb_of l = l) as -> by (vm_compute; reflexivity).
  rewrite !(bool_decide_false (l = _)) by (vm_compute; congruence). cbn [orb fst session gateway say with_session snd].
  unfold feed_line, feed_line_bytes. cbn [phase with_phase]. rewrite feed_data_line by (vm_compute; congruence || done).
  assert (as_bytes l = replacement) as -> by (vm_compute; reflexivity).
  change (default replacement (strip_bytes [Byte.x2e] replacement)) with replacement. cbn [data with_phase]. rewrite H0.
  change (Z.of_nat (length []) + Z.of_nat (length replacement) + 2) with 5. rewrite (proj2 (Z.ltb_ge _ _)) by done. done.
Qed.
End listener.
End InboundTcp.

(** ** Witnesses *)

Module InboundTcpWitness.
Import Inbound InboundTcp.
#[local] Existing Instance Reference.ref_identity.
#[local] Existing Instance DkimWitness.toy_crypto.
#[local] Existing Instance DmarcWitness.toy_psl.
#[local] Existing Instance Directory.InMemoryDirectory_KeyDirectory.
#[local] Existing Instance Dkim.StaticDkimKeys_DkimKeyResolver.
#[local] Existing Instance Spf.InMemorySpfResolver_SpfResolver.
#[local] Existing Instance Dmarc.InMemoryDmarcResolver_DmarcTxtResolver.
#[local] Existing Instance InboundWitness.toy_mote.
#[local] Existing Instance InboundWitness.toy_mime.
#[local] Existing Instance InboundWitness.log_mesh.
Definition gw := InboundWitness.gw.
Definition conn : Connection := {| tls := true; behind_tls := None; conn_ip := "192.0.2.1"; conn_now := 1000 |}.
Definition tick (n : nat) : Tick := {| ambient := InboundWitness.amb; late := false |}.
Definition typed (ls : list string) : bytes := framed (as_bytes <$> ls).
Definition bounce := typed ["EHLO mx.example"; "MAIL FROM:<>"; "RCPT TO:<alice@example.org>"]%string.
Definition ended : Ended * Server :=
  default (HandshakeFailed, accepted conn [] gw) (handle_connection conn tick bounce gw).
Lemma bounce_ends : handle_connection conn tick bounce gw = Some (Closed, ended.2).
Proof. vm_compute. reflexivity. Qed.

(** A client that says who it is for in clear, and again behind TLS. *)
Definition upgrading : Connection := {|
  tls := true; behind_tls := Some (typed ["EHLO mx"; "MAIL FROM:<>"; "RCPT TO:<alice@example.org>"; "DATA"; "."; "QUIT"]%string);
  conn_ip := "192.0.2.1"; conn_now := 1000 |}.
Definition upgrade := typed ["EHLO mx"; "MAIL FROM:<eve@example.net>"; "STARTTLS"; "MAIL FROM:<lost@example.net>"]%string.
Lemma listener_refines_session_witness :
  match handle_connection upgrading tick upgrade gw with
  | Some (e, st) =>
      let p := (play upgrading false tick 0 upgrade (fresh upgrading gw)).1.2 in
      snd <$> p_fed p = [as_bytes "MAIL FROM:<eve@example.net>"] ∧ length (p_out p) = 4%nat ∧
      let p' := (play upgrading true tick 3 (default [] (behind_tls upgrading)) (fresh upgrading (p_gateway p))).1.2 in
      e = Closed ∧ shows ((false, wire greeting) :: ((false,.) <$> p_out p)) st p' ∧
      snd <$> p_fed p' = as_bytes <$> ["MAIL FROM:<>"; "RCPT TO:<alice@example.org>"; "DATA"; "."; "QUIT"]%string
  | None => False
  end.
Proof.
  assert (is_Some (handle_connection upgrading tick upgrade gw)) as [[e st] H] by (vm_compute; eexists; reflexivity).
  pose proof (listener_refines_session upgrading tick upgrade gw e st ltac:(vm_compute; discriminate) H) as R. rewrite H.
  assert (((play upgrading false tick 0 upgrade (fresh upgrading gw)).1.1, (play upgrading false tick 0 upgrade (fresh upgrading gw)).2) =
    (Secure (default [] (behind_tls upgrading)), 3%nat)) as F1 by (vm_compute; reflexivity).
  assert (snd <$> p_fed (play upgrading false tick 0 upgrade (fresh upgrading gw)).1.2 = [as_bytes "MAIL FROM:<eve@example.net>"]) as F2 by (vm_compute; reflexivity).
  assert (length (p_out (play upgrading false tick 0 upgrade (fresh upgrading gw)).1.2) = 4%nat) as F3 by (vm_compute; reflexivity).
  assert (let p' := play upgrading true tick 3 (default [] (behind_tls upgrading)) (fresh upgrading (p_gateway (play upgrading false tick 0 upgrade (fresh upgrading gw)).1.2)) in
    (p'.1.1, snd <$> p_fed p'.1.2) = (Leave Closed, as_bytes <$> ["MAIL FROM:<>"; "RCPT TO:<alice@example.org>"; "DATA"; "."; "QUIT"]%string)) as F4 by (vm_compute; reflexivity).
  destruct (play upgrading false tick 0 upgrade (fresh upgrading gw)) as [[v p] n]. cbn [fst snd] in *. injection F1 as -> ->.
  destruct R as (_ & R & _). destruct (play upgrading true tick 3 _ _) as [[v' p'] m]. cbn [fst snd] in *. injection F4 as -> F4.
  destruct R as (_ & R1 & _ & R2). injection R1 as <-. exact (conj F2 (conj F3 (conj eq_refl (conj R2 F4)))).
Defined.

Lemma helo_identity_lost_witness :
  ∃ o, spf_outcome (session ended.2) = Some o ∧ helo (session ended.2) = None ∧ mail_from (session ended.2) = Some "<>"%string ∧
    Spf.result o = Spf.SpfNone.
Proof.
  assert (is_Some (spf_outcome (session ended.2))) as [o Ho] by (vm_compute; eexists; reflexivity).
  destruct (helo_identity_lost conn tick bounce gw Closed ended.2 o ltac:(vm_compute; discriminate) bounce_ends Ho)
    as (H1 & from & H2 & _ & H3).
  assert (from = "<>"%string) as -> by (vm_compute in H2; injection H2 as <-; reflexivity).
  exists o. split; [exact Ho|]. split; [exact H1|]. split; [exact H2|]. apply H3. right. vm_compute. reflexivity.
Defined.

Definition reading : Server :=
  let st := (default (HandshakeFailed, accepted conn [] gw)
               (handle_connection conn tick (bounce ++ typed ["DATA"]%string) gw)).2 in
  with_input (OutboundTcp.data_wire (message_text [as_bytes ".hi"; as_bytes "there"])) st.
Lemma client_text_arrives_witness :
  match serve_loop conn tick 4 0 reading with
  | Some (Closed, st) => delivery (gateway st) = [as_bytes ".hi" ++ Dkim.CRLF ++ as_bytes "there" ++ Dkim.CRLF] ∧ in_data st = false
  | _ => False
  end.
Proof.
  pose proof (client_text_arrives conn tick (λ _, eq_refl) [as_bytes ".hi"; as_bytes "there"] 1 0 reading []
    ltac:(discriminate) ltac:(repeat constructor; vm_compute; (discriminate || reflexivity)) ltac:(vm_compute; reflexivity)
    ltac:(vm_compute; reflexivity) ltac:(vm_compute; reflexivity) ltac:(vm_compute; reflexivity) ltac:(vm_compute; discriminate)
    ltac:(vm_compute; reflexivity)) as H.
  change (length [as_bytes ".hi"; as_bytes "there"] + 2)%nat with 4%nat in H. rewrite H. vm_compute. split; reflexivity.
Defined.

Lemma data_tab_desync_witness :
  ∃ st, mail_from (session st) = Some "<>"%string ∧
    data (session (handle_line conn (tick 1) [Byte.xe9] (handle_line conn (tick 0) (as_bytes "DATA" ++ [Byte.x09]) st).1).1)
    = replacement ++ Dkim.CRLF.
Proof.
  exists ended.2. split; [vm_compute; reflexivity|].
  apply (data_tab_desync conn (tick 0) (tick 1) ended.2); vm_compute; (reflexivity || discriminate).
Defined.
End InboundTcpWitness.
