(* ===== verification/Outbound.v ===== *)
(** * The outbound gateway

    [crates/gateway/src/outbound.rs]: rendering and signing a message, the choice of
    the exchanger under the domain's TLS policy, the delivery, and the governed
    entry point that mail from the mesh takes.  The transport and the sender guard
    keep state behind their references; the operations return it. *)

From Stdlib Require Import ZArith Lia Ascii String.
From stdpp Require Import base decidable option sets list strings gmap.
From S2P Require Import Prelude RustStr RustText B64 Provenance Directory OutboundGuard Dkim Dns Mx MtaSts Net OutboundTcp.
Local Open Scope Z_scope.

(** [kotva_mail::mime::encode_header_value], [encode_display_name] and
    [format_rfc5322_date]. *)
Class KotvaMimeEncode := {
  encode_header_value : string → string;
  encode_display_name : string → string;
  format_rfc5322_date : Z → string;
}.

(** A value as it stands in a header: its continuation lines start with white
    space. *)
Definition continues (l : bytes) : Prop := Dkim.no_cr l ∧ match l with b :: _ => Dkim.is_wsp b = true | [] => False end.
Definition unfold_lines (first : bytes) (conts : list bytes) : bytes := first ++ concat ((λ c, Dkim.CRLF ++ c) <$> conts).
Definition foldable (v : bytes) : Prop :=
  ∃ first conts, Dkim.no_cr first ∧ Forall continues conts ∧ v = unfold_lines first conts.
(** A CR, LF or NUL in a header field. *)
Definition injects (field : string) : bool :=
  str_any (λ c, is_char "013" c || is_char "010" c || is_char "000" c) field.
(** The encoders break a line only to continue it ("only folds with CRLF+SP"), and a
    name that UTS 46 accepts under the URL deny list has no control characters. *)
Class KotvaMimeEncodeLaws `{KotvaMimeEncode} := {
  encode_header_value_folds s : injects s = false → foldable (as_bytes (encode_header_value s));
  encode_display_name_folds s : injects s = false → foldable (as_bytes (encode_display_name s));
  format_rfc5322_date_line ts : Dkim.no_cr (as_bytes (format_rfc5322_date ts));
}.
Class IdnaLaws `{Idna} := { idna_no_control s a : idna_to_ascii s = Ok a → injects a = false }.

(** [trait AddressClaimAuthz] and [trait OutboundTransport]. *)
Class AddressClaimAuthz (A : Type) := { may_claim : A → bytes → string → bool }.
Class OutboundTransport (T : Type) := { tr_deliver : string → bytes → bool → T → TransportResult * T }.

Module Outbound.

(** What the gateway reads of [kotva_core::mote::Payload]. *)
Record Payload := { p_from : bytes; p_subject : option string; p_mime : option string; p_body : bytes }.

Record DirectoryClaimAuthz (D : Type) := { claims : D }.
Arguments claims {D} _.
#[export] Instance DirectoryClaimAuthz_AddressClaimAuthz `{KeyDirectory D} : AddressClaimAuthz (DirectoryClaimAuthz D) := {|
  may_claim a submitter_ik from_addr :=
    match dir_resolve (claims a) from_addr with
    | Some recipient => bool_decide (rk_ik recipient = submitter_ik)
    | None => false
    end |}.

Inductive OutboundError :=
| NotDelegated (domain : string)
| BadFromAddress (addr : string)
| BadDestAddress (addr : string)
| TlsEnforcementFailed (domain : string)
| NoMxMatchesPolicy (domain : string) (patterns hosts : list string)
| DestinationRejected (code : Z) (text : string)
| NoMxHost (domain : string)
| HeaderInjection (field : string)
| IdnNotConvertible (domain reason : string).
Inductive OutboundReport := Delivered | Deferred (code : Z) (text : string) | Failed (e : OutboundError).
Inductive GovernedSend := Sent (report : OutboundReport) | Blocked (verdict : OutboundGuard.SenderVerdict).

(** ** Addresses *)

Definition domain_of (addr : string) : option string :=
  let a := trim_end_matches ">" (trim_start_matches "<" (trim addr)) in
  '(_, d) ← rsplit_once "@" a;
  if bool_decide (d = EmptyString) then None else Some d.
Definition trim_quotes (s : string) : string := trim_end_matches "034" (trim_start_matches "034" s).
(** The text before the first [<], and the text up to the last [>] behind it. *)
Definition angles (raw : string) : option (string * string) :=
  '(before, after) ← split_once "<" raw;
  '(inner, _) ← rsplit_once ">" after;
  Some (before, inner).
Definition split_name (addr : string) : option string * string :=
  let raw := trim addr in
  match angles raw with
  | Some (before, inner) =>
      let name := trim (trim_quotes (trim before)) in
      (if bool_decide (name = EmptyString) then None else Some name, trim inner)
  | None => (None, raw)
  end.

Section render.
Context `{ID : Idna} (idn_display : Idn.IdnError → string) `{KE : KotvaMimeEncode} `{KD : KotvaContentId}.

Definition idn_ascii (domain : string) : result OutboundError string :=
  map_err (λ e, IdnNotConvertible domain (idn_display e)) (Idn.domain_to_ascii domain).
Definition wire_spec (spec : string) : result OutboundError string :=
  match rsplit_once "@" spec with
  | Some (local, domain) =>
      if negb (bool_decide (domain = EmptyString)) then
        ascii ← idn_ascii domain;
        Ok (local +:+ "@" +:+ ascii)
      else Ok spec
  | None => Ok spec
  end.
Definition wire_address (addr : string) : result OutboundError (option string * string) :=
  let '(name, spec) := split_name addr in
  spec ← wire_spec spec;
  Ok (name, spec).
Definition wire_address_field (addr : string) : result OutboundError string :=
  '(name, spec) ← wire_address addr;
  Ok (match name with
      | Some n => encode_display_name n +:+ " <" +:+ spec +:+ ">"
      | None => spec
      end).

Definition b64_id (body : bytes) : string :=
  replace_char "=" "0" (replace_char "/" "0" (replace_char "+" "0" (B64.encode (take 12 (content_digest body))))).

(** ** Rendering *)

Definition no_inject (field name : string) : result OutboundError unit :=
  if injects field then Err (HeaderInjection name) else Ok tt.
Definition crlf : string := OutboundTcp.crlf.
Definition field (name value : string) : string := name +:+ ": " +:+ value +:+ crlf.
Definition ends_with_lf (body : bytes) : bool := bool_decide (last body = Some Byte.x0a).

Definition render_rfc5322 (payload : Payload) (from_addr to_addr : string) (ts : Z) : result OutboundError bytes :=
  _ ← no_inject from_addr "From";
  _ ← no_inject to_addr "To";
  let subject := default EmptyString (p_subject payload) in
  _ ← no_inject subject "Subject";
  let mime := default "text/plain; charset=utf-8"%string (p_mime payload) in
  _ ← no_inject mime "Content-Type";
  from_field ← wire_address_field from_addr;
  to_field ← wire_address_field to_addr;
  let subject := encode_header_value subject in
  let date := format_rfc5322_date ts in
  '(_, from_spec) ← wire_address from_addr;
  let mid := "<" +:+ b64_id (p_body payload) +:+ "@" +:+ default "dmtap.local"%string (domain_of from_spec) +:+ ">" in
  let msg := field "From" from_field +:+ field "To" to_field +:+ field "Date" date +:+ field "Subject" subject +:+
    field "Message-ID" mid +:+ field "MIME-Version" "1.0" +:+ field "Content-Type" mime +:+
    field "Content-Transfer-Encoding" "8bit" +:+ crlf in
  Ok (as_bytes msg ++ p_body payload ++ (if ends_with_lf (p_body payload) then [] else Dkim.CRLF)).

(** ** Sending *)

Context `{DC : DkimCrypto} `{HT : OutboundTransport T} `{HP : TlsPolicy P} `{HM : MxResolver R} `{HA : AddressClaimAuthz A}.

Record OutboundGateway := {
  dkim_keys : list Dkim.DkimKey;
  tls_policy : P;
  transport : T;
  mx_resolver : R;
  sender_guard : option OutboundGuard.OutboundSenderGuard;
  address_authz : option A;
}.
Definition with_sender_guard (g : OutboundGuard.OutboundSenderGuard) (gw : OutboundGateway) : OutboundGateway := {|
  dkim_keys := dkim_keys gw; tls_policy := tls_policy gw; transport := transport gw; mx_resolver := mx_resolver gw;
  sender_guard := Some g; address_authz := address_authz gw |}.
Definition with_address_claim_authz (a : A) (gw : OutboundGateway) : OutboundGateway := {|
  dkim_keys := dkim_keys gw; tls_policy := tls_policy gw; transport := transport gw; mx_resolver := mx_resolver gw;
  sender_guard := sender_guard gw; address_authz := Some a |}.
Definition with_mx_resolver (r : R) (gw : OutboundGateway) : OutboundGateway := {|
  dkim_keys := dkim_keys gw; tls_policy := tls_policy gw; transport := transport gw; mx_resolver := r;
  sender_guard := sender_guard gw; address_authz := address_authz gw |}.
Definition with_transport (t : T) (gw : OutboundGateway) : OutboundGateway := {|
  dkim_keys := dkim_keys gw; tls_policy := tls_policy gw; transport := t; mx_resolver := mx_resolver gw;
  sender_guard := sender_guard gw; address_authz := address_authz gw |}.

Definition dkim_key_for (gw : OutboundGateway) (domain : string) : option Dkim.DkimKey :=
  find_first (λ k, eq_ignore_ascii_case (Dkim.dk_domain k) domain) (dkim_keys gw).

Definition translate_and_sign (gw : OutboundGateway) (payload : Payload) (from_addr to_addr : string) (now : Z)
    : result OutboundError bytes :=
  '(_, from_spec) ← wire_address from_addr;
  from_domain ← ok_or (BadFromAddress from_addr) (domain_of from_spec);
  key ← ok_or (NotDelegated from_domain) (dkim_key_for gw from_domain);
  message ← render_rfc5322 payload from_addr to_addr now;
  Ok (as_bytes (Dkim.sign key message (now / 1000)) ++ message).

(** The host to dial, and whether TLS is mandatory. *)
Definition choose_host (gw : OutboundGateway) (dest_domain : string) : result OutboundError string :=
  let allowed_patterns := allowed_mx_patterns (tls_policy gw) dest_domain in
  let candidates := resolve_mx (mx_resolver gw) dest_domain in
  let eligible :=
    if bool_decide (allowed_patterns = []) then candidates
    else List.filter (λ h, MtaSts.any_pattern_matches allowed_patterns (host h)) candidates in
  match eligible with
  | h :: _ => Ok (host h)
  | [] =>
      if negb (bool_decide (allowed_patterns = [])) then Err (NoMxMatchesPolicy dest_domain allowed_patterns (host <$> candidates))
      else Err (NoMxHost dest_domain)
  end.
Definition report_of (dest_domain : string) (r : TransportResult) : OutboundReport :=
  match r with
  | OutboundTcp.Delivered _ => Delivered
  | Transient code text => Deferred code text
  | Permanent code text => Failed (DestinationRejected code text)
  | TlsUnavailable => Failed (TlsEnforcementFailed dest_domain)
  end.
Definition prepare (gw : OutboundGateway) (payload : Payload) (from_addr to_addr : string) (now : Z)
    : result OutboundError (string * string * bytes) :=
  signed ← translate_and_sign gw payload from_addr to_addr now;
  dest ← ok_or (BadDestAddress to_addr) (domain_of to_addr);
  dest_domain ← idn_ascii dest;
  dial_host ← choose_host gw dest_domain;
  Ok (dest_domain, dial_host, signed).
Definition send (gw : OutboundGateway) (payload : Payload) (from_addr to_addr : string) (now : Z)
    : OutboundReport * OutboundGateway :=
  match prepare gw payload from_addr to_addr now with
  | Err e => (Failed e, gw)
  | Ok (dest_domain, dial_host, signed) =>
      let require_tls := bool_decide (requirement_for (tls_policy gw) dest_domain = Required) in
      let '(r, t) := tr_deliver dial_host signed require_tls (transport gw) in
      (report_of dest_domain r, with_transport t gw)
  end.

(** [t1] and [t2] are the guard's clock when it is asked and when it is told. *)
Definition refuse (reason : string) : GovernedSend := Blocked (OutboundGuard.Refuse reason).
Definition is_delivered (r : OutboundReport) : bool := match r with Delivered => true | _ => false end.
Definition is_failed (r : OutboundReport) : bool := match r with Failed _ => true | _ => false end.
Definition send_authenticated (gw : OutboundGateway) (payload : Payload) (from_addr to_addr account : string) (now t1 t2 : Z)
    : GovernedSend * OutboundGateway :=
  match sender_guard gw with
  | None => (refuse "5.7.1 outbound relay denied: no sender guard configured (fail-closed)", gw)
  | Some guard =>
      let '(verdict, guard) := OutboundGuard.authorize_send account t1 guard in
      let gw := with_sender_guard guard gw in
      match verdict with
      | OutboundGuard.Allow =>
          match address_authz gw with
          | Some authz =>
              if may_claim authz (p_from payload) from_addr then
                let '(report, gw) := send gw payload from_addr to_addr now in
                let guard := if is_failed report || is_delivered report
                             then OutboundGuard.report_outcome account (is_delivered report) t2 guard else guard in
                (Sent report, with_sender_guard guard gw)
              else (refuse ("5.7.1 outbound relay denied: sender is not authorized to claim the address " +:+ from_addr +:+
                            " (ERR_GATEWAY_SENDER_ADDRESS_UNAUTHORIZED, " +:+ String.string_of_list_byte [Byte.xc2; Byte.xa7] +:+ "7.11.2 step 2)"), gw)
          | None => (refuse ("5.7.1 outbound relay denied: no address-claim authorizer configured (fail-closed, " +:+
                             String.string_of_list_byte [Byte.xc2; Byte.xa7] +:+ "7.11.2 step 2)"), gw)
          end
      | blocked => (Blocked blocked, gw)
      end
  end.
End render.

Definition OutboundGateway_new {T P A} `{DkimCrypto} (keys : list Dkim.DkimKey) (policy : P) (t : T)
    : OutboundGateway (T := T) (P := P) (R := Mx.InMemoryMxResolver) (A := A) := {|
  dkim_keys := keys; tls_policy := policy; transport := t; mx_resolver := Mx.InMemoryMxResolver_new;
  sender_guard := None; address_authz := None |}.

(** ** Fetching a policy *)

(** What stands behind the HTTPS client: the addresses of a name and, for an address
    and the name the certificate is checked for, the response to the request. *)
Record HttpsPolicyFetcher := {
  https_resolve : string → Z → option (list OutboundTcp.SocketAddr);
  https_response : OutboundTcp.SocketAddr → string → option bytes;
}.
Definition resolve_addr (w : HttpsPolicyFetcher) (h : string) : option OutboundTcp.SocketAddr :=
  addrs ← https_resolve w h 443; OutboundTcp.first_allowed addrs.
Definition fetch (w : HttpsPolicyFetcher) (domain : string) : option string :=
  let h := "mta-sts." +:+ domain in
  addr ← resolve_addr w h;
  response ← https_response w addr h;
  MtaSts.read_http_response response.
#[export] Instance HttpsPolicyFetcher_PolicyFetcher : PolicyFetcher HttpsPolicyFetcher := {| fetch_policy := fetch |}.

(** ** Header blocks *)

Lemma no_cr_foldable v : Dkim.no_cr v → foldable v.
Proof. intros H. exists v, []. split_and!; [done|done|]. unfold unfold_lines. cbn. by rewrite app_nil_r. Qed.
Lemma foldable_prefix w v : Dkim.no_cr w → foldable v → foldable (w ++ v).
Proof.
  intros Hw (first & conts & Hf & Hc & ->). exists (w ++ first), conts. split_and!; [by apply Forall_app|done|].
  unfold unfold_lines. by rewrite <- app_assoc.
Qed.
Lemma foldable_suffix w v : Dkim.no_cr w → foldable v → foldable (v ++ w).
Proof.
  intros Hw (first & conts & Hf & Hc & ->). destruct conts as [|c conts _] using rev_ind.
  - exists (first ++ w), []. split_and!; [by apply Forall_app|done|]. unfold unfold_lines. cbn. by rewrite !app_nil_r.
  - apply Forall_app in Hc as [Hc [[Hl Hh] _]%Forall_cons]. exists first, (conts ++ [c ++ w]). split_and!; [done| |].
    + apply Forall_app. split; [done|]. constructor; [|done]. split; [by apply Forall_app|]. by destruct c.
    + unfold unfold_lines. rewrite !fmap_app, !concat_app. cbn. by rewrite !app_nil_r, <- !app_assoc.
Qed.

(** The lines of a header block, and what the parser makes of them. *)
Definition block (lines : list bytes) : bytes :=
  match lines with l :: ls => unfold_lines l ls | [] => [] end.
Definition header_line (l : bytes) : Prop := Dkim.no_cr l ∧ l ≠ [].
Lemma unfold_lines_cons l l' ls : unfold_lines l (l' :: ls) = l ++ Dkim.CRLF ++ unfold_lines l' ls.
Proof. unfold unfold_lines. rewrite fmap_cons. cbn [concat]. by rewrite <- !app_assoc. Qed.

Lemma block_split l ls : header_line l → Forall header_line ls → Dkim.split_crlf (unfold_lines l ls) = l :: ls.
Proof.
  intros Hl HF. revert l Hl. induction HF as [|l' ls Hl' HF IH]; intros l [Hl Hne].
  - unfold unfold_lines. cbn [fmap list_fmap concat]. rewrite app_nil_r. clear Hne. induction Hl as [|b l Hb Hl IH]; [done|].
    cbn [Dkim.split_crlf]. destruct l as [|c l]; [done|]. rewrite bool_decide_false by done. cbn [andb]. by rewrite IH.
  - rewrite unfold_lines_cons, Dkim.split_crlf_app by done. by rewrite IH.
Qed.
Lemma strip_crlf_line l r : header_line l → strip_bytes Dkim.CRLF (l ++ r) = None.
Proof. intros [Hl Hne]. destruct l as [|b l]; [done|]. apply Forall_cons in Hl as [Hb _]. cbn. by rewrite bool_decide_false by congruence. Qed.
Lemma block_blank l ls body :
  header_line l → Forall header_line ls →
  Dkim.find_blank_line (unfold_lines l ls ++ Dkim.CRLF ++ Dkim.CRLF ++ body) = Some (length (unfold_lines l ls)).
Proof.
  intros Hl HF. revert l Hl. induction HF as [|l' ls Hl' HF IH]; intros l [Hl Hne].
  - unfold unfold_lines. cbn [fmap list_fmap concat]. rewrite app_nil_r, Dkim.find_blank_line_app by done.
    change (Dkim.find_blank_line (Dkim.CRLF ++ Dkim.CRLF ++ body)) with (Some 0%nat). cbn. f_equal. lia.
  - rewrite unfold_lines_cons, <- !app_assoc, Dkim.find_blank_line_app by done. rewrite Dkim.find_blank_line_crlf.
    + rewrite IH by done. cbn [fmap option_fmap option_map]. f_equal. rewrite !length_app. cbn [length Dkim.CRLF]. lia.
    + destruct ls as [|l2 ls]; unfold unfold_lines; rewrite <- app_assoc; by apply strip_crlf_line.
Qed.
Lemma block_parse l ls body :
  header_line l → Forall header_line ls →
  Dkim.split_headers_body (unfold_lines l ls ++ Dkim.CRLF ++ Dkim.CRLF ++ body) = (foldl Dkim.parse_line [] (l :: ls), body) ∧
  Dkim.first_line (unfold_lines l ls ++ Dkim.CRLF ++ Dkim.CRLF ++ body) = l.
Proof.
  intros Hl HF. unfold Dkim.split_headers_body, Dkim.first_line, Dkim.message_head. rewrite block_blank by done.
  rewrite take_app_length. unfold Dkim.parse_headers. rewrite block_split by done. split; [|done]. f_equal.
  rewrite <- drop_drop, drop_app_length. done.
Qed.

Definition name_ok (n : string) : Prop :=
  str_all printable n = true ∧ n ≠ EmptyString ∧ Forall (λ b, b ≠ Byte.x3a) (as_bytes n).
#[local] Instance name_ok_dec n : Decision (name_ok n).
Proof. unfold name_ok. apply _. Defined.
Definition field_ok (f : string * string) : Prop := name_ok f.1 ∧ foldable (as_bytes f.2).
Definition parsed (f : string * string) : Dkim.Header := (f.1, Byte.x20 :: as_bytes f.2).

Lemma printable_line s : str_all printable s = true → Dkim.no_cr (as_bytes s) ∧ Forall (λ b, Dkim.is_wsp b = false) (as_bytes s).
Proof.
  intros H%printable_bytes. split; (eapply Forall_impl; [exact H|]); intros b Hb.
  - intros ->. cbn in Hb. lia.
  - unfold Dkim.is_wsp. rewrite !bool_decide_false; [done|..]; intros ->; cbn in Hb; lia.
Qed.
Lemma printable_ascii s : str_all printable s = true → str_all is_ascii s = true.
Proof. apply str_all_impl. intros c. clear. destruct c as [[] [] [] [] [] [] [] []]; vm_compute; done. Qed.
Lemma split_colon_name n v : Forall (λ b, b ≠ Byte.x3a) n → Dkim.split_colon (n ++ Byte.x3a :: v) = Some (n, v).
Proof. induction 1 as [|b n Hb Hn IH]; [done|]. cbn. rewrite bool_decide_false by done. cbn in IH. by rewrite IH. Qed.
Lemma parse_named out n v : name_ok n → Dkim.parse_line out (as_bytes n ++ Byte.x3a :: v) = out ++ [(n, v)].
Proof.
  intros (Hp & Hne & Hc). unfold Dkim.parse_line. destruct (printable_line n Hp) as [_ Hw].
  rewrite split_colon_name, from_utf8_lossy_ascii by (done || by apply printable_ascii).
  destruct (as_bytes n) as [|b r] eqn:E; [by destruct n|]. apply Forall_cons in Hw as [Hb _]. cbn [app]. by rewrite Hb.
Qed.
Lemma extend_last_snoc more out n v : Dkim.extend_last more (out ++ [(n, v)]) = out ++ [(n, v ++ more)].
Proof. induction out as [|x out IH]; [done|]. cbn. rewrite IH. by destruct x, out as [|[] []]. Qed.
Lemma parse_conts out n v conts :
  Forall continues conts → foldl Dkim.parse_line (out ++ [(n, v)]) conts = out ++ [(n, unfold_lines v conts)].
Proof.
  intros HF. revert v. induction HF as [|c conts [Hc Hw] HF IH]; intros v; [unfold unfold_lines; cbn; by rewrite app_nil_r|].
  cbn [foldl]. unfold Dkim.parse_line at 2. destruct c as [|b c]; [done|]. rewrite Hw, extend_last_snoc, IH.
  unfold unfold_lines. rewrite fmap_cons. cbn [concat]. by rewrite <- !app_assoc.
Qed.

Definition ended (l : bytes) : bytes := l ++ Dkim.CRLF.
Lemma concat_ended l ls : concat (ended <$> (l :: ls)) = unfold_lines l ls ++ Dkim.CRLF.
Proof.
  revert l. induction ls as [|l' ls IH]; intros l.
  - unfold ended, unfold_lines. cbn. by rewrite !app_nil_r.
  - rewrite fmap_cons. cbn [concat]. rewrite IH, unfold_lines_cons. unfold ended. by rewrite <- !app_assoc.
Qed.
Lemma field_lines n v : field_ok (n, v) → ∃ l conts, header_line l ∧ Forall header_line conts ∧ Dkim.parse_line [] l ≠ [] ∧
  as_bytes (field n v) = concat (ended <$> (l :: conts)) ∧ ∀ out, foldl Dkim.parse_line out (l :: conts) = out ++ [parsed (n, v)].
Proof.
  intros [Hn (first & conts & Hf & Hc & Hv)]. cbn [fst snd] in *. exists (as_bytes n ++ Byte.x3a :: Byte.x20 :: first), conts. split_and!.
  - split; [|by destruct (as_bytes n)]. apply Forall_app. split; [apply printable_line, Hn|]. by repeat constructor.
  - eapply Forall_impl; [exact Hc|]. intros c [H1 H2]. split; [done|]. by destruct c.
  - rewrite parse_named by done. done.
  - rewrite concat_ended. unfold field. rewrite !as_bytes_app, Hv. unfold unfold_lines. rewrite <- !app_assoc. cbn [app]. done.
  - intros out. cbn [foldl]. rewrite parse_named by done. rewrite parse_conts by done. unfold parsed. cbn [fst snd]. rewrite Hv. done.
Qed.
(** Fields that are written are the fields that are read. *)
Lemma fields_parse f fs body :
  field_ok f → Forall field_ok fs →
  let m := concat ((λ f, as_bytes (field f.1 f.2)) <$> (f :: fs)) ++ Dkim.CRLF ++ body in
  Dkim.split_headers_body m = (parsed <$> (f :: fs), body) ∧ Dkim.starts_with_field m.
Proof.
  intros Hf HF. assert (∃ l ls, header_line l ∧ Forall header_line ls ∧ Dkim.parse_line [] l ≠ [] ∧
    concat ((λ f, as_bytes (field f.1 f.2)) <$> (f :: fs)) = concat (ended <$> (l :: ls)) ∧
    ∀ out, foldl Dkim.parse_line out (l :: ls) = out ++ (parsed <$> (f :: fs))) as (l & ls & Hl & Hls & Hne & Hc & Hp).
  { revert f Hf. induction HF as [|g fs Hg HF IH]; intros [n v] Hf; destruct (field_lines n v Hf) as (l & conts & H1 & H2 & H3 & H4 & H5).
    - exists l, conts. split_and!; try done. rewrite fmap_cons. cbn [concat fmap list_fmap fst snd]. by rewrite app_nil_r, H4.
    - destruct (IH g Hg) as (l' & ls & I1 & I2 & _ & I4 & I5). exists l, (conts ++ l' :: ls). split_and!; try done.
      + apply Forall_app. split; [done|]. by constructor.
      + rewrite fmap_cons. cbn [concat fst snd]. rewrite I4, H4. rewrite app_comm_cons, fmap_app, concat_app. done.
      + intros out. rewrite app_comm_cons, foldl_app, H5, I5. rewrite fmap_cons. by rewrite <- app_assoc. }
  destruct (block_parse l ls body Hl Hls) as [H1 H2].
  assert (concat ((λ f, as_bytes (field f.1 f.2)) <$> (f :: fs)) ++ Dkim.CRLF ++ body = unfold_lines l ls ++ Dkim.CRLF ++ Dkim.CRLF ++ body) as ->.
  { rewrite Hc, concat_ended. by rewrite <- app_assoc. }
  split; [by rewrite H1, Hp|]. unfold Dkim.starts_with_field. by rewrite H2.
Qed.

(** ** Texts without line breaks *)

Section parts.
Context (P : byte → Prop).
Local Notation all s := (Forall P (as_bytes s)).
Lemma all_app a b : all (a +:+ b) ↔ all a ∧ all b.
Proof. rewrite as_bytes_app. apply Forall_app. Qed.
Lemma all_trim s : all s → all (trim s).
Proof.
  intros H. unfold trim. rewrite String.list_byte_of_string_of_list_byte. unfold trim_bytes. apply Forall_reverse.
  destruct (strip_while_suffix (length (as_bytes s)) white_space (as_bytes s)) as [p Hp]. set (front := strip_while _ _ _) in *. rewrite Hp in H.
  apply Forall_app in H as [_ H%Forall_reverse].
  destruct (strip_while_suffix (length front) (reverse <$> white_space) (reverse front)) as [q Hq]. rewrite Hq in H. by apply Forall_app in H as [_ H].
Qed.
Lemma all_start c s : all s → all (trim_start_matches c s).
Proof. induction s as [|d s IH]; [done|]. intros H. cbn [trim_start_matches]. case_match; [apply IH; by inversion H|done]. Qed.
Lemma all_end c s : all s → all (trim_end_matches c s).
Proof.
  induction s as [|d s IH]; [done|]. intros H. inversion_clear H as [|? ? Hd Hs]. specialize (IH Hs). cbn [trim_end_matches].
  destruct (trim_end_matches c s); [case_match; [done|by constructor]|by constructor].
Qed.
Lemma all_parts c s a b : (split_once c s = Some (a, b) ∨ rsplit_once c s = Some (a, b)) → all s → all a ∧ all b.
Proof. intros [->%split_once_eq| ->%rsplit_once_eq] [Ha Hb]%all_app; (split; [done|by inversion Hb]). Qed.
Lemma all_split_name addr name spec : split_name addr = (name, spec) → all addr → all spec ∧ ∀ n, name = Some n → all n.
Proof.
  unfold split_name, angles. intros H Ha%all_trim. destruct (split_once "<" (trim addr)) as [[before after]|] eqn:E1; cbn [mbind option_bind] in H.
  2: { simplify_eq. split; [done|]. done. }
  destruct (all_parts _ _ _ _ (or_introl E1) Ha) as [Hb Haf].
  destruct (rsplit_once ">" after) as [[inner x]|] eqn:E2; cbn [mbind option_bind] in H.
  2: { simplify_eq. split; [done|]. done. }
  destruct (all_parts _ _ _ _ (or_intror E2) Haf) as [Hi _]. pose proof (f_equal fst H) as Hn. pose proof (f_equal snd H) as Hs.
  cbn [fst snd] in Hn, Hs. subst name spec. clear H. split; [by apply all_trim|].
  intros n. case_bool_decide; [done|]. intros [= <-]. by apply all_trim, all_end, all_start, all_trim.
Qed.
End parts.

Definition safe (b : byte) : Prop := b ≠ Byte.x0d ∧ b ≠ Byte.x0a ∧ b ≠ Byte.x00.
Lemma injects_safe s : injects s = false ↔ Forall safe (as_bytes s).
Proof.
  unfold injects. induction s as [|c s IH]; [by split|]. cbn [str_any]. rewrite orb_false_iff, IH.
  change (as_bytes (String c s)) with (byte_of_ascii c :: as_bytes s). rewrite Forall_cons.
  assert (∀ a, is_char a c = false ↔ byte_of_ascii c ≠ byte_of_ascii a) as Hc.
  { intros a. rewrite is_char_false. split; intros H E; apply H; [|by rewrite E].
    by rewrite <- (ascii_of_byte_of_ascii a), <- (ascii_of_byte_of_ascii c), E. }
  rewrite !orb_false_iff, !Hc. unfold safe. tauto.
Qed.
Lemma safe_no_cr s : Forall safe (as_bytes s) → Dkim.no_cr (as_bytes s).
Proof. intros H. eapply Forall_impl; [exact H|]. by intros b []. Qed.

Section headers.
Context `{ID : Idna} (idn_display : Idn.IdnError → string) `{KE : KotvaMimeEncode} `{KD : KotvaContentId}
  `{IL : !IdnaLaws} `{EL : !KotvaMimeEncodeLaws}.

Lemma idn_ascii_safe d a : idn_ascii idn_display d = Ok a → Forall safe (as_bytes a).
Proof.
  unfold idn_ascii, Idn.domain_to_ascii. destruct (idna_to_ascii d) as [x|] eqn:E; [|done]. simpl_res.
  case_match; [done|]. destruct (Idn.check_labels _ _); [|done]. intros [= <-]. apply injects_safe. by eapply idna_no_control.
Qed.
Lemma wire_spec_safe spec w : wire_spec idn_display spec = Ok w → Forall safe (as_bytes spec) → Forall safe (as_bytes w).
Proof.
  unfold wire_spec. destruct (rsplit_once "@" spec) as [[local domain]|] eqn:E; [|by intros [= <-]].
  case_bool_decide; cbn [negb]; [by intros [= <-]|]. destruct (idn_ascii idn_display domain) as [a|] eqn:Ea; [|done]. intros [= <-] Hs.
  destruct (all_parts safe _ _ _ _ (or_intror E) Hs) as [Hl _]. apply all_app. split; [done|]. apply all_app. split; [by repeat constructor|].
  by eapply idn_ascii_safe.
Qed.
Lemma wire_address_safe addr name spec :
  wire_address idn_display addr = Ok (name, spec) → injects addr = false →
  Forall safe (as_bytes spec) ∧ ∀ n, name = Some n → injects n = false.
Proof.
  unfold wire_address. destruct (split_name addr) as [n0 s0] eqn:E. destruct (wire_spec idn_display s0) as [w|] eqn:Ew; [|done].
  intros [= -> ->] Ha%injects_safe. destruct (all_split_name safe _ _ _ E Ha) as [Hs Hn]. split; [by eapply wire_spec_safe|].
  intros n Hn0. by apply injects_safe, Hn.
Qed.
Lemma wire_field_folds addr f : wire_address_field idn_display addr = Ok f → injects addr = false → foldable (as_bytes f).
Proof.
  unfold wire_address_field. destruct (wire_address idn_display addr) as [[name spec]|] eqn:E; [|done]. intros H Ha.
  destruct (wire_address_safe _ _ _ E Ha) as [Hs Hn]. injection H as <-. destruct name as [n|]; [|by apply no_cr_foldable, safe_no_cr].
  rewrite as_bytes_app. apply foldable_suffix; [|by apply encode_display_name_folds, Hn].
  rewrite !as_bytes_app. apply Forall_app. split; [by repeat constructor|]. apply Forall_app. split; [by apply safe_no_cr|by repeat constructor].
Qed.

Lemma safe_replace c s : Forall safe (as_bytes s) → Forall safe (as_bytes (replace_char c "0" s)).
Proof.
  induction s as [|d s IH]; [done|]. intros H. inversion_clear H as [|? ? Hd Hs]. cbn [replace_char].
  change (Forall safe (byte_of_ascii (if is_char c d then "0"%char else d) :: as_bytes (replace_char c "0" s))).
  constructor; [by destruct (is_char c d)|by apply IH].
Qed.
Lemma token_safe s : Dkim.token s = true → Forall safe (as_bytes s).
Proof.
  intros H. apply injects_safe. unfold injects. apply str_any_all. eapply str_all_impl; [|exact H].
  intros c. clear. destruct c as [[] [] [] [] [] [] [] []]; vm_compute; done.
Qed.
Lemma b64_id_safe body : Forall safe (as_bytes (b64_id body)).
Proof. unfold b64_id. do 3 apply safe_replace. apply token_safe, Dkim.base64_token. Qed.
Lemma domain_of_safe a d : domain_of a = Some d → Forall safe (as_bytes a) → Forall safe (as_bytes d).
Proof.
  unfold domain_of. intros H Ha%all_trim. apply (all_start safe "<") in Ha. apply (all_end safe ">") in Ha.
  destruct (rsplit_once "@" _) as [[l x]|] eqn:E; [|done]. cbn [mbind option_bind] in H. case_bool_decide; [done|]. injection H as <-.
  by destruct (all_parts safe _ _ _ _ (or_intror E) Ha).
Qed.

Definition message_id (payload : Payload) (from_spec : string) : string :=
  "<" +:+ b64_id (p_body payload) +:+ "@" +:+ default "dmtap.local"%string (domain_of from_spec) +:+ ">".
Definition rendered (payload : Payload) (from_field to_field from_spec : string) (ts : Z) : list (string * string) :=
  [("From", from_field); ("To", to_field); ("Date", format_rfc5322_date ts);
   ("Subject", encode_header_value (default EmptyString (p_subject payload))); ("Message-ID", message_id payload from_spec);
   ("MIME-Version", "1.0"); ("Content-Type", default "text/plain; charset=utf-8" (p_mime payload));
   ("Content-Transfer-Encoding", "8bit")]%string.

Lemma ok_inj {E X} (a b : X) : @Ok E X a = Ok b → a = b.
Proof. congruence. Qed.
Lemma no_inject_inv f n : no_inject f n = Ok tt → injects f = false.
Proof. unfold no_inject. by destruct (injects f). Qed.
Lemma render_inv payload from_addr to_addr ts m :
  render_rfc5322 idn_display payload from_addr to_addr ts = Ok m →
  ∃ from_field to_field name from_spec,
    wire_address_field idn_display from_addr = Ok from_field ∧ wire_address_field idn_display to_addr = Ok to_field ∧
    wire_address idn_display from_addr = Ok (name, from_spec) ∧
    Forall (λ s, injects s = false) [from_addr; to_addr; default EmptyString (p_subject payload); default "text/plain; charset=utf-8" (p_mime payload)]%string ∧
    m = concat ((λ f, as_bytes (field f.1 f.2)) <$> rendered payload from_field to_field from_spec ts) ++ Dkim.CRLF ++
        p_body payload ++ (if ends_with_lf (p_body payload) then [] else Dkim.CRLF).
Proof.
  unfold render_rfc5322. intros H.
  destruct (no_inject from_addr "From") as [[]|] eqn:E1; [|done]. destruct (no_inject to_addr "To") as [[]|] eqn:E2; [|done].
  destruct (no_inject _ "Subject") as [[]|] eqn:E3; [|done]. destruct (no_inject _ "Content-Type") as [[]|] eqn:E4; [|done].
  destruct (wire_address_field idn_display from_addr) as [ff|] eqn:E5; [|done]. destruct (wire_address_field idn_display to_addr) as [tf|] eqn:E6; [|done].
  destruct (wire_address idn_display from_addr) as [[name spec]|] eqn:E7; [|done]. exists ff, tf, name, spec.
  split_and!; try done.
  - repeat (constructor; [by eapply no_inject_inv|]). constructor.
  - apply ok_inj in H. rewrite <- H. clear H. unfold rendered, crlf. rewrite !fmap_cons, fmap_nil. cbn [concat fst snd]. rewrite !as_bytes_app.
    rewrite <- !app_assoc. reflexivity.
Qed.
Lemma rendered_ok payload from_addr to_addr ff tf name spec ts :
  wire_address_field idn_display from_addr = Ok ff → wire_address_field idn_display to_addr = Ok tf →
  wire_address idn_display from_addr = Ok (name, spec) →
  Forall (λ s, injects s = false) [from_addr; to_addr; default EmptyString (p_subject payload); default "text/plain; charset=utf-8" (p_mime payload)]%string →
  Forall field_ok (rendered payload ff tf spec ts).
Proof.
  intros E1 E2 E3 [Hf [Ht [Hs [Hm _]%Forall_cons]%Forall_cons]%Forall_cons]%Forall_cons.
  assert (∀ n v, bool_decide (name_ok n) = true → foldable (as_bytes v) → field_ok (n, v)) as Hok
    by (intros n v Hn Hv; split; [by apply bool_decide_eq_true in Hn|done]).
  destruct (wire_address_safe _ _ _ E3 Hf) as [Hsp _].
  repeat (constructor; [apply Hok; [vm_compute; reflexivity|]|]); try constructor.
  - by eapply wire_field_folds.
  - by eapply wire_field_folds.
  - apply no_cr_foldable, format_rfc5322_date_line.
  - by apply encode_header_value_folds.
  - apply no_cr_foldable, safe_no_cr. unfold message_id. repeat (apply all_app; split); try (by repeat constructor).
    + apply b64_id_safe.
    + destruct (domain_of spec) as [d|] eqn:E; [by eapply domain_of_safe|]. by repeat constructor.
  - apply no_cr_foldable. by repeat constructor.
  - by apply no_cr_foldable, safe_no_cr, injects_safe.
  - apply no_cr_foldable. by repeat constructor.
Qed.

(** A rendered message has the eight header fields it is meant to have and no other,
    whatever the addresses, the subject and the content type are: reading it back
    gives these fields, with the sender and the recipient in their wire form, and the
    body that was given.  A line break in any of the four texts is refused. *)
Theorem rendered_message payload from_addr to_addr ts :
  match render_rfc5322 idn_display payload from_addr to_addr ts with
  | Ok m =>
      ∃ from_field to_field from_spec,
        wire_address_field idn_display from_addr = Ok from_field ∧ wire_address_field idn_display to_addr = Ok to_field ∧
        Dkim.message_headers m = parsed <$> rendered payload from_field to_field from_spec ts ∧
        Dkim.message_body m = p_body payload ++ (if ends_with_lf (p_body payload) then [] else Dkim.CRLF)
  | Err e =>
      (∃ name, e = HeaderInjection name) ∨ wire_address_field idn_display from_addr = Err e ∨ wire_address_field idn_display to_addr = Err e
  end ∧
  (injects from_addr || injects to_addr || injects (default EmptyString (p_subject payload))
     || injects (default "text/plain; charset=utf-8"%string (p_mime payload)) = true →
   ∃ name, render_rfc5322 idn_display payload from_addr to_addr ts = Err (HeaderInjection name)).
Proof.
  split.
  - destruct (render_rfc5322 idn_display payload from_addr to_addr ts) as [m|e] eqn:E.
    + destruct (render_inv _ _ _ _ _ E) as (ff & tf & name & spec & E1 & E2 & E3 & Hi & ->). exists ff, tf, spec. split_and!; [done|done|..].
      all: pose proof (rendered_ok payload _ _ _ _ _ _ ts E1 E2 E3 Hi) as Hok; unfold rendered in Hok |- *;
        apply Forall_cons in Hok as [Hf Hfs];
        destruct (fields_parse _ _ (p_body payload ++ (if ends_with_lf (p_body payload) then [] else Dkim.CRLF)) Hf Hfs) as [Hp _];
        unfold Dkim.message_headers, Dkim.message_body; by rewrite Hp.
    + unfold render_rfc5322, no_inject in E.
      destruct (injects from_addr); cbn [mbind result_bind] in E; [left; exists "From"%string; congruence|].
      destruct (injects to_addr); cbn [mbind result_bind] in E; [left; exists "To"%string; congruence|].
      destruct (injects (default EmptyString (p_subject payload))); cbn [mbind result_bind] in E; [left; exists "Subject"%string; congruence|].
      destruct (injects (default "text/plain; charset=utf-8"%string (p_mime payload))); cbn [mbind result_bind] in E; [left; exists "Content-Type"%string; congruence|]. right.
      destruct (wire_address_field idn_display from_addr) as [ff|e1] eqn:E5; cbn [mbind result_bind] in E; [right|left; congruence].
      destruct (wire_address_field idn_display to_addr) as [tf|e2] eqn:E6; cbn [mbind result_bind] in E; [|congruence].
      unfold wire_address_field in E5. destruct (wire_address idn_display from_addr) as [[? ?]|]; done.
  - unfold render_rfc5322, no_inject. destruct (injects from_addr); [by eexists|]. destruct (injects to_addr); [by eexists|].
    destruct (injects _); [by eexists|]. destruct (injects _); [by eexists|]. done.
Qed.

(** ** Sending *)

Section sending.
Context `{DC : DkimCrypto} `{DL : !DkimCryptoLaws} `{HT : OutboundTransport T} `{HP : TlsPolicy P} `{HM : MxResolver R} `{HA : AddressClaimAuthz A}.
Local Notation Gateway := (OutboundGateway (T := T) (P := P) (R := R) (A := A)).

Lemma no_foreign_signature fs : Forall (λ f, eq_ignore_ascii_case (trim f.1) "dkim-signature" = false) fs →
  Dkim.find_header (parsed <$> fs) "dkim-signature" = None.
Proof.
  intros HF. unfold Dkim.find_header. rewrite <- fmap_reverse. apply Forall_reverse in HF. induction HF as [|f l Hf HF IH]; [done|].
  rewrite fmap_cons. cbn [find_first]. unfold Dkim.named at 1, parsed at 1. cbn [fst]. by rewrite Hf.
Qed.

(** C29: What the gateway signs verifies: mail it accepts for translation is signed with a
    key delegated for the domain of the address that stands in [From:], and a
    verifier that finds this key published under its selector gets a pass for that
    domain. *)
Theorem sent_mail_verifies (gw : Gateway) payload from_addr to_addr now bs :
  translate_and_sign idn_display gw payload from_addr to_addr now = Ok bs →
  ∃ key name spec domain,
    key ∈ dkim_keys gw ∧ wire_address idn_display from_addr = Ok (name, spec) ∧ domain_of spec = Some domain ∧
    eq_ignore_ascii_case (Dkim.dk_domain key) domain = true ∧
    ∀ `{Dkim.DkimKeyResolver Q} (resolver : Q), Dkim.key_ok key →
      Dkim.resolve_dkim_key resolver (Dkim.dk_domain key) (Dkim.dk_selector key) = Some (Dkim.public_bytes key) →
      Dkim.verify_with_resolver bs resolver = Dkim.VPass (Dkim.dk_domain key) (Dkim.dk_selector key).
Proof.
  unfold translate_and_sign. destruct (wire_address idn_display from_addr) as [[name spec]|] eqn:E1; [|done]. cbn [mbind result_bind].
  destruct (domain_of spec) as [domain|] eqn:E2; [|done]. cbn [mbind result_bind ok_or].
  destruct (dkim_key_for gw domain) as [key|] eqn:E3; [|done]. cbn [mbind result_bind ok_or].
  destruct (render_rfc5322 idn_display payload from_addr to_addr now) as [m|] eqn:E4; [|done]. cbn [mbind result_bind]. intros [= <-].
  apply find_first_Some in E3 as [Hin Hd]. exists key, name, spec, domain. split_and!; try done. intros Q HQ resolver Hk Hr.
  destruct (render_inv _ _ _ _ _ E4) as (ff & tf & name' & spec' & F1 & F2 & F3 & Hi & ->).
  pose proof (rendered_ok payload _ _ _ _ _ _ now F1 F2 F3 Hi) as Hok. unfold rendered in Hok |- *. apply Forall_cons in Hok as [Hf Hfs].
  destruct (fields_parse _ _ (p_body payload ++ (if ends_with_lf (p_body payload) then [] else Dkim.CRLF)) Hf Hfs) as [Hp Hs].
  apply Dkim.sign_then_verify; [done|done| |done].
  unfold Dkim.message_headers. rewrite Hp. cbn [fst]. apply no_foreign_signature.
  repeat (constructor; [vm_compute; reflexivity|]). constructor.
Qed.

(** The exchanger that is dialled: the first candidate that the domain's policy
    allows. *)
Lemma choose_host_Ok (gw : Gateway) dest h :
  choose_host gw dest = Ok h →
  let patterns := allowed_mx_patterns (tls_policy gw) dest in
  ∃ before x after, resolve_mx (mx_resolver gw) dest = before ++ x :: after ∧ host x = h ∧
    (patterns = [] ∧ before = [] ∨
     MtaSts.any_pattern_matches patterns h = true ∧ Forall (λ y, MtaSts.any_pattern_matches patterns (host y) = false) before).
Proof.
  unfold choose_host. set (patterns := allowed_mx_patterns _ _). case_bool_decide as Hp; cbn [negb].
  - destruct (resolve_mx _ _) as [|x l] eqn:E; [done|]. intros [= <-]. exists [], x, l. auto.
  - destruct (List.filter _ _) as [|x l] eqn:E; [done|]. intros [= <-]. revert E. generalize (resolve_mx (mx_resolver gw) dest) as cs.
    induction cs as [|c cs IH]; [done|]. cbn [List.filter]. destruct (MtaSts.any_pattern_matches patterns (host c)) eqn:Ec.
    + intros [= -> _]. exists [], x, cs. split_and!; try done. right. by split.
    + intros (before & x' & after & -> & Hx & Hc)%IH. exists (c :: before), x', after. split_and!; try done. right.
      destruct Hc as [[Hpat _]|[Hm Hb]].
      * done.
      * split; [done|]. by constructor.
Qed.
Lemma prepare_Ok (gw : Gateway) payload from_addr to_addr now dest h bs :
  prepare idn_display gw payload from_addr to_addr now = Ok (dest, h, bs) →
  translate_and_sign idn_display gw payload from_addr to_addr now = Ok bs ∧
  (∃ d, domain_of to_addr = Some d ∧ idn_ascii idn_display d = Ok dest) ∧ choose_host gw dest = Ok h.
Proof.
  unfold prepare. destruct (translate_and_sign _ _ _ _ _ _) as [s|]; [|done]. cbn [mbind result_bind].
  destruct (domain_of to_addr) as [d|]; [|done]. cbn [mbind result_bind ok_or]. destruct (idn_ascii idn_display d) as [a|] eqn:Ea; [|done].
  cbn [mbind result_bind]. destruct (choose_host gw a) as [x|] eqn:Ex; [|done]. intros [= <- <- <-]. split_and!; [done| |done]. by exists d.
Qed.

(** The gateway dials at most one host per message: one of the exchangers of the
    recipient's domain, the first that its policy allows when the policy names
    hosts, with the requirement the policy states, and with the signed message.  In
    every other case the transport is not called. *)
Theorem send_dials_policy_host (gw : Gateway) payload from_addr to_addr now report gw' :
  send idn_display gw payload from_addr to_addr now = (report, gw') →
  ((∃ e, report = Failed e) ∧ gw' = gw) ∨
  ∃ dest d before x after bs res t,
    domain_of to_addr = Some d ∧ idn_ascii idn_display d = Ok dest ∧
    translate_and_sign idn_display gw payload from_addr to_addr now = Ok bs ∧
    resolve_mx (mx_resolver gw) dest = before ++ x :: after ∧
    (allowed_mx_patterns (tls_policy gw) dest = [] ∧ before = [] ∨
     MtaSts.any_pattern_matches (allowed_mx_patterns (tls_policy gw) dest) (host x) = true ∧
     Forall (λ y, MtaSts.any_pattern_matches (allowed_mx_patterns (tls_policy gw) dest) (host y) = false) before) ∧
    tr_deliver (host x) bs (bool_decide (requirement_for (tls_policy gw) dest = Required)) (transport gw) = (res, t) ∧
    report = report_of dest res ∧ gw' = with_transport t gw.
Proof.
  unfold send. destruct (prepare _ _ _ _ _ _) as [[[dest h] bs]|e] eqn:E.
  - apply prepare_Ok in E as (H1 & (d & H2 & H3) & (before & x & after & H4 & <- & H5)%choose_host_Ok).
    destruct (tr_deliver _ _ _ _) as [res t] eqn:Et. intros [= <- <-]. right.
    exists dest, d, before, x, after, bs, res, t. split_and!; done.
  - intros [= <- <-]. left. split; [by eexists|done].
Qed.

(** C14: No open relay: the governed entry point calls the transport only for an account
    the guard knows and allows at that moment, and only for a sender address that
    the identity the message is from may claim; without a guard or without an
    authoriser it refuses. *)
Theorem governed_send (gw : Gateway) payload from_addr to_addr account now t1 t2 r gw' :
  send_authenticated idn_display gw payload from_addr to_addr account now t1 t2 = (r, gw') →
  (∃ report guard authz, r = Sent report ∧
     sender_guard gw = Some guard ∧ OutboundGuard.is_authenticated account guard = true ∧
     (OutboundGuard.authorize_send account t1 guard).1 = OutboundGuard.Allow ∧
     address_authz gw = Some authz ∧ may_claim authz (p_from payload) from_addr = true) ∨
  (∃ v, r = Blocked v ∧ v ≠ OutboundGuard.Allow) ∧ transport gw' = transport gw.
Proof.
  unfold send_authenticated. destruct (sender_guard gw) as [guard|]; [|intros [= <- <-]; right; split; [by eexists|done]].
  destruct (OutboundGuard.authorize_send account t1 guard) as [verdict g'] eqn:Ev. destruct verdict; [|intros [= <- <-]; right; split; [by eexists|done]..].
  cbn [address_authz with_sender_guard]. destruct (address_authz gw) as [authz|]; [|intros [= <- <-]; right; split; [by eexists|done]].
  destruct (may_claim authz (p_from payload) from_addr) eqn:Em; [|intros [= <- <-]; right; split; [by eexists|done]].
  destruct (send _ _ _ _ _ _) as [report gw1]. intros [= <- <-]. left. exists report, guard, authz. split_and!; try done; [|by rewrite Ev].
  unfold OutboundGuard.authorize_send in Ev. by destruct (OutboundGuard.is_authenticated account guard).
Qed.
End sending.
End headers.
End Outbound.

(** ** Witnesses *)

Module OutboundWitness.
Import Outbound.
#[local] Existing Instance DkimWitness.toy_crypto.
#[local] Existing Instance DkimWitness.toy_laws.
#[local] Existing Instance Dkim.StaticDkimKeys_DkimKeyResolver.
#[local] Existing Instance Directory.InMemoryDirectory_KeyDirectory.
#[local] Existing Instance Mx.InMemoryMxResolver_MxResolver.
#[local] Instance printable_idna : Idna := {| idna_to_ascii s := if str_all printable s then Ok s else Err "not ASCII"%string |}.
#[local] Instance printable_idna_laws : IdnaLaws.
Proof.
  constructor. intros s a. cbn. destruct (str_all printable s) eqn:E; [|done]. intros [= <-]. unfold injects. apply str_any_all.
  eapply str_all_impl; [|exact E]. intros c. clear. destruct c as [[] [] [] [] [] [] [] []]; vm_compute; done.
Qed.
#[local] Instance verbatim : KotvaMimeEncode := {|
  encode_header_value s := s; encode_display_name s := s; format_rfc5322_date _ := "Thu, 1 Jan 1970 00:00:00 +0000"%string |}.
#[local] Instance verbatim_laws : KotvaMimeEncodeLaws.
Proof.
  split; [intros s H%injects_safe; by apply no_cr_foldable, safe_no_cr..|]. intros ts. cbn [format_rfc5322_date verbatim].
  apply (bool_decide_unpack _). vm_compute. exact I.
Qed.
#[local] Instance toy_ids : KotvaContentId := {| content_id b := b; content_digest _ := replicate 32 Byte.x00 |}.
(** A transport that records what it is handed. *)
#[local] Instance log_transport : OutboundTransport (list (string * bool)) := {|
  tr_deliver h _ tls t := (OutboundTcp.Delivered 250, t ++ [(h, tls)]) |}.
Inductive OneHost := one_host.
#[local] Instance OneHost_TlsPolicy : TlsPolicy OneHost := {|
  requirement_for _ _ := Required; allowed_mx_patterns _ _ := ["*.mx.example.org"%string] |}.

Definition shown (e : Idn.IdnError) : string := "bad name".
Definition key : Dkim.DkimKey := DkimWitness.key.
Definition payload : Payload := {| p_from := [Byte.x01]; p_subject := Some "hello"%string; p_mime := None; p_body := as_bytes "hi" |}.
Definition alice : RecipientKey := {| rk_ik := [Byte.x01]; rk_seal_pub := [Byte.x02] |}.
Definition users : Directory.InMemoryDirectory := Directory.insert "alice@sender.example" alice Directory.InMemoryDirectory_new.
Definition exchangers : Mx.InMemoryMxResolver :=
  Mx.with_mx "example.org" [("old.example.org", 5); ("a.mx.example.org", 10); ("b.mx.example.org", 20)]%string Mx.InMemoryMxResolver_new.
Definition gw : OutboundGateway (T := list (string * bool)) (P := OneHost) (R := Mx.InMemoryMxResolver)
    (A := DirectoryClaimAuthz Directory.InMemoryDirectory) := {|
  dkim_keys := [key]; tls_policy := one_host; transport := []; mx_resolver := exchangers;
  sender_guard := Some (OutboundGuard.require_registered ["alice"%string] OutboundGuard.with_clock);
  address_authz := Some {| claims := users |} |}.

Lemma rendered_message_witness :
  (∃ m, render_rfc5322 shown payload "Alice <alice@sender.example>" "bob@example.org" 0 = Ok m ∧
        Dkim.message_body m = as_bytes "hi" ++ Dkim.CRLF) ∧
  ∃ name, render_rfc5322 shown payload ("alice@sender.example" +:+ OutboundTcp.crlf +:+ "Bcc: x@y") "bob@example.org" 0 = Err (HeaderInjection name).
Proof.
  split.
  - pose proof (proj1 (rendered_message shown payload "Alice <alice@sender.example>" "bob@example.org" 0)) as H.
    destruct (render_rfc5322 shown payload "Alice <alice@sender.example>" "bob@example.org" 0) as [m|e] eqn:E; [|vm_compute in E; discriminate].
    exists m. split; [reflexivity|]. destruct H as (ff & tf & spec & _ & _ & _ & ->). vm_compute. reflexivity.
  - apply (proj2 (rendered_message shown payload _ "bob@example.org" 0)). vm_compute. reflexivity.
Defined.

Lemma sent_mail_verifies_witness :
  ∃ bs, translate_and_sign shown gw payload "Alice <alice@sender.example>" "bob@example.org" 1752600000000 = Ok bs ∧
    Dkim.verify_with_resolver bs DkimWitness.published = Dkim.VPass "sender.example" "s1".
Proof.
  destruct (translate_and_sign shown gw payload "Alice <alice@sender.example>" "bob@example.org" 1752600000000) as [bs|e] eqn:E;
    [|vm_compute in E; discriminate].
  exists bs. split; [reflexivity|].
  destruct (sent_mail_verifies shown gw payload "Alice <alice@sender.example>" "bob@example.org" 1752600000000 bs E)
    as (k & name & spec & domain & Hk & _ & _ & _ & Hv).
  assert (k = DkimWitness.key) as -> by (apply list_elem_of_singleton in Hk; exact Hk).
  apply (Hv _ _ DkimWitness.published).
  - split; reflexivity.
  - vm_compute. reflexivity.
Defined.

Definition sending := send shown gw payload "alice@sender.example" "bob@example.org" 0.
Lemma send_dials_policy_host_witness :
  transport sending.2 = [("a.mx.example.org"%string, true)] ∧
  MtaSts.any_pattern_matches ["*.mx.example.org"%string] "a.mx.example.org" = true.
Proof.
  split; [vm_compute; reflexivity|].
  destruct (send_dials_policy_host shown gw payload "alice@sender.example" "bob@example.org" 0 sending.1 sending.2 (surjective_pairing _))
    as [[[e H] _]|(dest & d & before & x & after & bs & res & t & _ & _ & _ & _ & Hc & Hd & _ & Hg)]; [vm_compute in H; discriminate|].
  destruct Hc as [[Hc _]|[Hc _]]; [discriminate Hc|].
  assert (host x = "a.mx.example.org"%string) as <-; [|exact Hc].
  apply (f_equal transport) in Hg. cbn in Hd. injection Hd as _ <-. vm_compute in Hg. injection Hg as Hg. symmetry. exact Hg.
Defined.

Definition governed (account from : string) := send_authenticated shown gw payload from "bob@example.org" account 0 0 0.
Lemma governed_send_witness :
  (governed "alice" "alice@sender.example").1 = Sent Delivered ∧
  transport (governed "alice" "ceo@sender.example").2 = [] ∧ transport (governed "mallory" "alice@sender.example").2 = [].
Proof.
  split; [vm_compute; reflexivity|]. split.
  - destruct (governed_send shown gw payload "ceo@sender.example" "bob@example.org" "alice" 0 0 0 _ _ (surjective_pairing _))
      as [(report & guard & authz & H & _)|[_ H]]; [vm_compute in H; discriminate|exact H].
  - destruct (governed_send shown gw payload "alice@sender.example" "bob@example.org" "mallory" 0 0 0 _ _ (surjective_pairing _))
      as [(report & guard & authz & H & _)|[_ H]]; [vm_compute in H; discriminate|exact H].
Defined.
End OutboundWitness.
