(* ===== verification/LegacyNet.v ===== *)
(** * The transport of the line-based mailbox servers

    [crates/gateway/src/legacy_net.rs].  A socket is the list of what its reads
    return; the handshake of an upgrade gives the reads behind TLS, or fails.  The
    reader keeps its own buffer, which an upgrade does not empty.  Writes go to the
    peer in order, each with whether it went through TLS; [write_fault] says which of
    them fails.  Socket time-outs show as reads and writes that fail. *)

From Stdlib Require Import ZArith Lia Ascii String.
From stdpp Require Import base decidable option sets list strings gmap.
From S2P Require Import Prelude RustStr RustText.
Local Open Scope Z_scope.

Module LegacyNet.

Definition MAX_LINE : Z := 64 * 1024 * 1024.

Inductive LegacyTls := StartTls | Implicit.
#[global] Instance legacy_tls_eq_dec : EqDecision LegacyTls.
Proof. solve_decision. Defined.
Definition parse (v : string) : option LegacyTls :=
  let w := to_ascii_lowercase (trim v) in
  if bool_decide (w ∈ ["starttls"; "start-tls"; "start_tls"]%string) then Some StartTls
  else if bool_decide (w ∈ ["implicit"; "implicit-tls"; "tls"; "993"; "995"; "465"]%string) then Some Implicit
  else None.
Definition is_implicit (m : LegacyTls) : bool := match m with Implicit => true | StartTls => false end.

Inductive IoError :=
| TimedOut
| Os (code : Z)
| ProtocolLineTooLong
| PipelinedData
| HandshakeFailed
| AlreadySecured
| InTransition
| UnexpectedEof.
(** A read gives at least one byte until the peer closes, which is the end of the
    list. *)
Inductive ReadResult := Got (b : byte) (rest : bytes) | Interrupted | Failed (e : IoError).

(** What the loop needs of a protocol. *)
Class LineProtocol (P : Type) := {
  greeting : P → string * P;
  feed_line_bytes : P → bytes → string * P;
  is_starttls : P → string → bool;
  accepts_upgrade : P → string → bool;
  is_quit : P → string → bool;
}.

(** [line.split_whitespace().next().unwrap_or("").to_ascii_uppercase()]. *)
Definition verb_of (line : string) : string :=
  to_ascii_uppercase (default EmptyString (head (split_whitespace line))).

(** ** The stream *)

Inductive UpgradableStream := Plain (rs : list ReadResult) | Tls (rs : list ReadResult) | Taken.
(** [behind]: what the reads give once the handshake is through. *)
Definition upgrade (behind : option (list ReadResult)) (s : UpgradableStream) : result IoError unit * UpgradableStream :=
  match s with
  | Plain _ =>
      match behind with
      | None => (Err HandshakeFailed, Taken)
      | Some rs => (Ok tt, Tls rs)
      end
  | other => (Err AlreadySecured, other)
  end.

(** ** Lines *)

(** The bytes up to and including the first line feed, and those behind it. *)
Fixpoint split_lf (bs : bytes) : option (bytes * bytes) :=
  match bs with
  | [] => None
  | b :: bs => if bool_decide (b = Byte.x0a) then Some ([b], bs) else '(l, r) ← split_lf bs; Some (b :: l, r)
  end.
(** The loop of [read_line_capped] once the buffer is empty; [out] is the line so
    far.  The result is the line, the buffer and the reads left. *)
Fixpoint read_more (max : Z) (out : bytes) (rs : list ReadResult) : result IoError bytes * bytes * list ReadResult :=
  match rs with
  | [] => (Ok out, [], [])
  | Interrupted :: rs => read_more max out rs
  | Failed e :: rs => (Err e, [], rs)
  | Got b available :: rs =>
      match split_lf (b :: available) with
      | Some (l, rest) => (Ok (out ++ l), rest, rs)
      | None =>
          let out := out ++ b :: available in
          if max <? Z.of_nat (length out) then (Err ProtocolLineTooLong, [], rs) else read_more max out rs
      end
  end.
Definition read_line_capped (max : Z) (buf : bytes) (s : UpgradableStream) : result IoError bytes * bytes * UpgradableStream :=
  match split_lf buf with
  | Some (l, rest) => (Ok l, rest, s)
  | None =>
      if max <? Z.of_nat (length buf) then (Err ProtocolLineTooLong, [], s)
      else
        match s with
        | Plain rs => let '(r, b, rs) := read_more max buf rs in (r, b, Plain rs)
        | Tls rs => let '(r, b, rs) := read_more max buf rs in (r, b, Tls rs)
        | Taken => (Err InTransition, [], Taken)
        end
  end.

Definition is_eol (b : byte) : bool := bool_decide (b = Byte.x0d) || bool_decide (b = Byte.x0a).
(** [while let Some((&last, rest)) = cmd.split_last()]. *)
Definition drop_while (p : byte → bool) := fix go (l : bytes) : bytes :=
  match l with [] => [] | b :: r => if p b then go r else l end.
Definition strip_eol (line : bytes) : bytes := rev (drop_while is_eol (rev line)).

(** ** The session *)

Section session.
Context {P : Type} `{LP : LineProtocol P}.
(** The server side of the connection: what the handshake gives and, for each write
    in turn, whether it fails. *)
Record Peer := { behind : option (list ReadResult); write_fault : nat → option IoError }.
Record Session := {
  proto : P;
  buffer : bytes;
  stream : UpgradableStream;
  secured : bool;
  out : list (bool * string);
}.
Definition on_tls (s : UpgradableStream) : bool := match s with Tls _ => true | _ => false end.
(** [writer.write_all(..)] and [flush]. *)
Definition write_all (peer : Peer) (text : string) (st : Session) : result IoError unit * Session :=
  match write_fault peer (length (out st)) with
  | Some e => (Err e, st)
  | None => (Ok tt, {| proto := proto st; buffer := buffer st; stream := stream st; secured := secured st;
                       out := out st ++ [(on_tls (stream st), text)] |})
  end.
Definition with_proto (p : P) (st : Session) : Session :=
  {| proto := p; buffer := buffer st; stream := stream st; secured := secured st; out := out st |}.
Definition with_input (b : bytes) (s : UpgradableStream) (st : Session) : Session :=
  {| proto := proto st; buffer := b; stream := s; secured := secured st; out := out st |}.
Definition with_secured (s : UpgradableStream) (b : bool) (st : Session) : Session :=
  {| proto := proto st; buffer := buffer st; stream := s; secured := b; out := out st |}.

(** The upgrade a command asked for and the reply granted. *)
Definition upgrade_session (peer : Peer) (st : Session) : result IoError unit * Session :=
  if bool_decide (buffer st = []) then
    match upgrade (behind peer) (stream st) with
    | (Err e, s) => (Err e, with_secured s (secured st) st)
    | (Ok _, s) => (Ok tt, with_secured s true st)
    end
  else (Err PipelinedData, st).
(** One line of the client.  [Some]: the handler returns. *)
Definition handle_line (peer : Peer) (cmd : bytes) (st : Session) : option (result IoError unit) * Session :=
  let cmd_text := from_utf8_lossy cmd in
  let wants_upgrade := negb (secured st) && is_starttls (proto st) cmd_text in
  let quit := is_quit (proto st) cmd_text in
  let '(reply, p) := feed_line_bytes (proto st) cmd in
  let st := with_proto p st in
  match (if bool_decide (reply = EmptyString) then (Ok tt, st) else write_all peer reply st) with
  | (Err e, st) => (Some (Err e), st)
  | (Ok _, st) =>
      match (if wants_upgrade && accepts_upgrade (proto st) reply then upgrade_session peer st else (Ok tt, st)) with
      | (Err e, st) => (Some (Err e), st)
      | (Ok _, st) => (if quit then Some (Ok tt) else None, st)
      end
  end.
Definition iterate (peer : Peer) (st : Session) : option (result IoError unit) * Session :=
  match read_line_capped MAX_LINE (buffer st) (stream st) with
  | (Err e, b, s) => (Some (Err e), with_input b s st)
  | (Ok [], b, s) => (Some (Ok tt), with_input b s st)
  | (Ok line, b, s) => handle_line peer (strip_eol line) (with_input b s st)
  end.
Fixpoint serve_loop (peer : Peer) (fuel : nat) (st : Session) : option (result IoError unit * Session) :=
  match fuel with
  | O => None
  | S fuel =>
      match iterate peer st with
      | (Some r, st) => Some (r, st)
      | (None, st) => serve_loop peer fuel st
      end
  end.

Fixpoint received (rs : list ReadResult) : bytes :=
  match rs with
  | [] => []
  | Got b bs :: rs => (b :: bs) ++ received rs
  | _ :: rs => received rs
  end.
(** The transport the handler starts with. *)
Definition start (mode : LegacyTls) (peer : Peer) (socket : list ReadResult) (p : P) : result IoError Session :=
  match mode with
  | Implicit =>
      match behind peer with
      | None => Err HandshakeFailed
      | Some rs => Ok {| proto := p; buffer := []; stream := Tls rs; secured := true; out := [] |}
      end
  | StartTls => Ok {| proto := p; buffer := []; stream := Plain socket; secured := false; out := [] |}
  end.
(** A line takes at least one byte of what the socket gives, before TLS or behind it. *)
Definition fuel_for (peer : Peer) (socket : list ReadResult) : nat :=
  S (length (received socket) + length (received (default [] (behind peer)))).
(** [None] when the fuel runs out. *)
Definition serve_line_session (peer : Peer) (socket : list ReadResult) (mode : LegacyTls) (p : P)
    : option (result IoError unit * option Session) :=
  match start mode peer socket p with
  | Err e => Some (Err e, None)
  | Ok st =>
      let '(g, p) := greeting (proto st) in
      match write_all peer g (with_proto p st) with
      | (Err e, st) => Some (Err e, Some st)
      | (Ok _, st) => '(r, st) ← serve_loop peer (fuel_for peer socket) st; Some (r, Some st)
      end
  end.

(** ** Lines of a byte sequence *)

(** The reference: the lines of the bytes, each with its line feed; what follows the
    last line feed is a line too. *)
Fixpoint lines (bs : bytes) : list bytes :=
  match bs with
  | [] => []
  | b :: bs =>
      if bool_decide (b = Byte.x0a) then [b] :: lines bs
      else match lines bs with [] => [[b]] | l :: ls => (b :: l) :: ls end
  end.
Definition pending (s : UpgradableStream) : list ReadResult := match s with Plain rs | Tls rs => rs | Taken => [] end.

Lemma split_lf_Some bs l rest r : split_lf bs = Some (l, rest) → lines (bs ++ r) = l :: lines (rest ++ r).
Proof.
  revert l. induction bs as [|b bs IH]; intros l H; [done|]. cbn [split_lf] in H. cbn [app lines]. case_bool_decide.
  - by injection H as <- <-.
  - destruct (split_lf bs) as [[l' r']|] eqn:E; [|done]. injection H as <- <-. by rewrite (IH l' eq_refl).
Qed.
Lemma split_lf_len bs l rest : split_lf bs = Some (l, rest) → (length bs = length l + length rest)%nat ∧ l ≠ [].
Proof.
  revert l. induction bs as [|b bs IH]; intros l H; [done|]. cbn [split_lf] in H. case_bool_decide.
  - injection H as <- <-. done.
  - destruct (split_lf bs) as [[l' r']|] eqn:E; [|done]. injection H as <- <-. destruct (IH l' eq_refl). cbn. split; [lia|done].
Qed.
Lemma split_lf_app o a :
  split_lf o = None → split_lf (o ++ a) = '(l, r) ← split_lf a; Some (o ++ l, r).
Proof.
  induction o as [|b o IH]; intros H; cbn [app split_lf] in *; [by destruct (split_lf a) as [[]|]|]. case_bool_decide; [done|].
  destruct (split_lf o) as [[]|]; [done|]. rewrite (IH eq_refl). by destruct (split_lf a) as [[]|].
Qed.
Lemma split_lf_None bs : split_lf bs = None → bs ≠ [] → lines bs = [bs].
Proof.
  induction bs as [|b bs IH]; intros H Hn; [done|]. cbn [split_lf lines] in *. case_bool_decide; [done|].
  destruct (split_lf bs) as [[]|]; [done|]. destruct bs as [|c bs]; [done|]. by rewrite IH.
Qed.
Lemma read_more_lines max o rs line b rs' :
  split_lf o = None → read_more max o rs = (Ok line, b, rs') → line ≠ [] →
  lines (o ++ received rs) = line :: lines (b ++ received rs').
Proof.
  revert o. induction rs as [|[c bs| |e] rs IH]; intros o Ho H Hl; cbn [read_more received] in *.
  - simplify_eq. rewrite app_nil_r. by rewrite split_lf_None.
  - pose proof (split_lf_app o (c :: bs) Ho) as E. rewrite (app_assoc o (c :: bs) (received rs)). destruct (split_lf (c :: bs)) as [[l rest]|].
    + cbn [mbind option_bind] in E. simplify_eq. by apply split_lf_Some.
    + case_match; [done|]. by apply IH.
  - by apply IH.
  - done.
Qed.
Lemma read_line_lines max buf s line b s' :
  read_line_capped max buf s = (Ok line, b, s') → line ≠ [] →
  lines (buf ++ received (pending s)) = line :: lines (b ++ received (pending s')) ∧ on_tls s' = on_tls s.
Proof.
  unfold read_line_capped. intros H Hl. destruct (split_lf buf) as [[l r]|] eqn:E.
  { injection H as <- <- <-. split; [by apply split_lf_Some|done]. }
  case_match; [done|]. destruct s as [rs|rs|]; [..|done]; cbn [pending].
  all: destruct (read_more max buf rs) as [[r0 b0] rs0] eqn:Er; injection H as -> <- <-; split; [by eapply read_more_lines|done].
Qed.

Lemma lines_concat bs : concat (lines bs) = bs.
Proof.
  induction bs as [|b bs IH]; [done|]. cbn [lines]. case_bool_decide; [cbn [concat app]; by rewrite IH|].
  destruct (lines bs) as [|l ls]; cbn [concat app] in *; by rewrite IH.
Qed.
Lemma lines_length bs l bs' : lines bs = l :: lines bs' → (length bs = length l + length bs')%nat.
Proof. intros H. rewrite <- (lines_concat bs), H. cbn [concat]. by rewrite lines_concat, length_app. Qed.

(** ** What a line does *)

Definition kept (st st' : Session) : Prop :=
  buffer st' = buffer st ∧ stream st' = stream st ∧ secured st' = secured st.
(** The upgrade: granted to a client that sent nothing behind the command. *)
Definition upgraded (peer : Peer) (cmd : bytes) (st st' : Session) : Prop :=
  secured st = false ∧ is_starttls (proto st) (from_utf8_lossy cmd) = true ∧
  buffer st = [] ∧ buffer st' = [] ∧ secured st' = true ∧
  ∃ rs0 rs, stream st = Plain rs0 ∧ behind peer = Some rs ∧ stream st' = Tls rs.
Definition said (st st' : Session) : Prop :=
  ∃ o, out st' = out st ++ (pair (on_tls (stream st)) <$> o).
Definition broken (o : option (result IoError unit)) (st st' : Session) : Prop :=
  o = Some (Err HandshakeFailed) ∧ stream st' = Taken ∧ secured st' = secured st ∧ secured st = false.

Lemma write_all_kept peer text st r st' :
  write_all peer text st = (r, st') → kept st st' ∧ proto st' = proto st ∧ said st st'.
Proof.
  unfold write_all, kept, said. destruct (write_fault _ _); intros [= <- <-].
  - split_and!; try done. exists []. by rewrite app_nil_r.
  - split_and!; try done. by exists [text].
Qed.
Lemma handle_line_effect peer cmd st o st' :
  handle_line peer cmd st = (o, st') → (secured st = false → ∃ rs, stream st = Plain rs) →
  proto st' = (feed_line_bytes (proto st) cmd).2 ∧ said st st' ∧ (kept st st' ∨ upgraded peer cmd st st' ∨ broken o st st').
Proof.
  unfold handle_line. intros H Hs. cbn beta zeta in H. destruct (feed_line_bytes (proto st) cmd) as [reply p] eqn:Ef.
  assert (∃ st1 r, (if bool_decide (reply = EmptyString) then (Ok tt, with_proto p st) else write_all peer reply (with_proto p st)) = (r, st1) ∧
            kept st st1 ∧ proto st1 = p ∧ said st st1) as (st1 & r & E & (K1 & K2 & K3) & Hp & [o1 Ho]).
  { case_bool_decide.
    - eexists _, _. split; [done|]. split_and!; try done. exists []. by rewrite app_nil_r.
    - destruct (write_all peer reply (with_proto p st)) as [r st1] eqn:E. exists st1, r. split; [done|].
      by destruct (write_all_kept _ _ _ _ _ E) as (K & Hp & Hs1). }
  rewrite E in H. clear E. cbn [snd]. destruct r as [[]|e]; [|apply pair_equal_spec in H as [<- <-]; split_and!; [done|by exists o1|by left]].
  destruct (negb (secured st) && is_starttls (proto st) (from_utf8_lossy cmd) && _) eqn:Ew;
    [|apply pair_equal_spec in H as [<- <-]; split_and!; [done|by exists o1|by left]].
  apply andb_true_iff in Ew as [[Hns%negb_true_iff Hst]%andb_true_iff _]. destruct (Hs Hns) as [rs0 Hrs].
  unfold upgrade_session in H. case_bool_decide as Hb; [|apply pair_equal_spec in H as [<- <-]; split_and!; [done|by exists o1|by left]].
  rewrite K2, Hrs in H. unfold upgrade in H. destruct (behind peer) as [rs|] eqn:Ebh.
  - assert (upgraded peer cmd st (with_secured (Tls rs) true st1)) by (red; cbn; split_and!; try done; [congruence|by exists rs0, rs]).
    apply pair_equal_spec in H as [<- <-]. split_and!; [done|by exists o1|by right; left].
  - apply pair_equal_spec in H as [<- <-]. split_and!; [done|by exists o1|right; right]. split_and!; done.
Qed.

(** ** Every session ends *)

Definition remaining (peer : Peer) (st : Session) : nat :=
  length (buffer st ++ received (pending (stream st))) +
  (match stream st with Plain _ => length (received (default [] (behind peer))) | _ => 0 end).
Definition coherent (st : Session) : Prop :=
  match stream st with Plain _ => secured st = false | Tls _ => secured st = true | Taken => False end.

Lemma coherent_plain st : coherent st → secured st = false → ∃ rs, stream st = Plain rs.
Proof. unfold coherent. destruct (stream st); [eauto|congruence|done]. Qed.
Lemma coherent_input b s st : on_tls s = on_tls (stream st) → s ≠ Taken → coherent st → coherent (with_input b s st).
Proof. unfold coherent. by destruct s, (stream st). Qed.
Lemma read_line_taken max buf s line b s' : read_line_capped max buf s = (Ok line, b, s') → s ≠ Taken → s' ≠ Taken.
Proof. unfold read_line_capped. intros H Hs. repeat case_match; simplify_eq; done. Qed.
Lemma iterate_step peer st o st' :
  iterate peer st = (o, st') → coherent st →
  (∃ line b s, line ≠ [] ∧ read_line_capped MAX_LINE (buffer st) (stream st) = (Ok line, b, s) ∧ coherent (with_input b s st) ∧
     handle_line peer (strip_eol line) (with_input b s st) = (o, st')) ∨
  (∃ r b s, o = Some r ∧ st' = with_input b s st ∧
     (r = Ok tt → read_line_capped MAX_LINE (buffer st) (stream st) = (Ok [], b, s))).
Proof.
  unfold iterate. intros H Hc. destruct (read_line_capped _ _) as [[[line|e] b] s] eqn:E.
  - destruct line as [|c line]; [right; injection H as <- <-; by eexists _, _, _|]. left. exists (c :: line), b, s.
    split_and!; try done. destruct (read_line_lines _ _ _ _ _ _ E) as [_ Ht]; [done|]. apply coherent_input; [done| |done].
    eapply read_line_taken; [done|]. intros Et. unfold coherent in Hc. by rewrite Et in Hc.
  - right. injection H as <- <-. by eexists _, _, _.
Qed.
Lemma iterate_continues peer st st' :
  iterate peer st = (None, st') → coherent st → coherent st' ∧ (remaining peer st' < remaining peer st)%nat.
Proof.
  intros H Hc. destruct (iterate_step _ _ _ _ H Hc) as [(line & b & s & Hl & E & Hi & Hh)|(r & b & s & ? & _)]; [|done].
  destruct (read_line_lines _ _ _ _ _ _ E Hl) as [Hlines Ht]. apply lines_length in Hlines.
  assert (0 < length line)%nat by (destruct line; [done|cbn; lia]).
  destruct (handle_line_effect _ _ _ _ _ Hh (coherent_plain _ Hi)) as (_ & _ & [(K1 & K2 & K3)|[U|(? & _)]]); [..|done].
  - unfold coherent, remaining in *. rewrite K1, K2, K3. cbn in *. split; [done|].
    destruct (stream st), s; cbn in *; try done; lia.
  - destruct U as (U1 & _ & U3 & U4 & U5 & rs0 & rs & U6 & U7 & U8). unfold coherent, remaining in *. rewrite U8, U4. cbn in *.
    split; [done|]. subst s b. destruct (stream st); [|done..]. cbn in *. rewrite U7. cbn. lia.
Qed.
Lemma line_loop_ends peer fuel st : coherent st → (remaining peer st < fuel)%nat → is_Some (serve_loop peer fuel st).
Proof.
  revert st. induction fuel as [|fuel IH]; intros st Hc Hf; [lia|]. cbn [serve_loop].
  destruct (iterate peer st) as [[r|] st'] eqn:E; [by eauto|]. destruct (iterate_continues _ _ _ E Hc). apply IH; [done|lia].
Qed.
Lemma start_coherent mode peer socket p st :
  start mode peer socket p = Ok st → coherent st ∧ proto st = p ∧ out st = [] ∧ (remaining peer st < fuel_for peer socket)%nat.
Proof.
  unfold start, fuel_for, remaining. destruct mode; [|destruct (behind peer) eqn:E]; intros H; simplify_eq; cbn; rewrite ?E; cbn; split_and!; try done; lia.
Qed.

(** However the peer splits what it sends into reads, stops, fails or starts TLS, the
    session ends. *)
Theorem session_terminates peer socket mode p : is_Some (serve_line_session peer socket mode p).
Proof.
  unfold serve_line_session. destruct (start mode peer socket p) as [st|e] eqn:E; [|by eauto].
  destruct (start_coherent _ _ _ _ _ E) as (Hc & _ & _ & Hf). destruct (greeting (proto st)) as [g p'].
  destruct (write_all peer g (with_proto p' st)) as [[[]|e] st1] eqn:Ew; [|by eauto].
  destruct (write_all_kept _ _ _ _ _ Ew) as [(K1 & K2 & K3) _]. cbn in K1, K2, K3.
  destruct (line_loop_ends peer (fuel_for peer socket) st1) as [[r st2] ->]; [..|cbn; by eauto].
  - unfold coherent in *. by rewrite K2, K3.
  - unfold remaining in *. by rewrite K1, K2.
Qed.

(** ** Which bytes reach the protocol *)

Definition feeds (p : P) (cmds : list bytes) : P := foldl (λ p c, (feed_line_bytes p c).2) p cmds.
Lemma feeds_snoc p ls l : feeds p (strip_eol <$> ls ++ [l]) = (feed_line_bytes (feeds p (strip_eol <$> ls)) (strip_eol l)).2.
Proof. unfold feeds. by rewrite fmap_app, foldl_app. Qed.

Section origin.
Context (peer : Peer) (socket : list ReadResult) (p0 : P).
Local Notation behind_reads := (default [] (behind peer)).

(** The lines fed so far: [l1] of what came in clear, [l2] of what came through TLS;
    and the same for what was written. *)
Definition fed (st : Session) (l1 l2 : list bytes) : Prop :=
  proto st = feeds p0 (strip_eol <$> l1 ++ l2) ∧
  l1 `prefix_of` lines (received socket) ∧ l2 `prefix_of` lines (received behind_reads) ∧
  (secured st = false → l2 = []) ∧
  ∃ o1 o2, out st = (pair false <$> o1) ++ (pair true <$> o2) ∧ (secured st = false → o2 = []).
(** While the session goes on, what is left is what follows those lines. *)
Definition ahead (st : Session) (l1 l2 : list bytes) : Prop :=
  match stream st with
  | Plain rs => lines (received socket) = l1 ++ lines (buffer st ++ received rs)
  | Tls rs => lines (received behind_reads) = l2 ++ lines (buffer st ++ received rs)
  | Taken => False
  end.

Definition only_tls (st st' : Session) : Prop := ∃ o, out st' = out st ++ (pair true <$> o).
Lemma said_fed st st' (o1 o2 : list string) :
  coherent st → said st st' → out st = (pair false <$> o1) ++ (pair true <$> o2) → (secured st = false → o2 = []) →
  ∃ o1 o2, out st' = (pair false <$> o1) ++ (pair true <$> o2) ∧ (secured st = false → o2 = []).
Proof using.
  intros Hc [o E] Ho Hs. rewrite Ho in E. unfold coherent in Hc. destruct (stream st) eqn:Es; [..|done]; cbn in E.
  - exists (o1 ++ o), []. rewrite Hs in E by done. rewrite E, fmap_app. cbn. by rewrite !app_nil_r.
  - exists o1, (o2 ++ o). rewrite E, fmap_app, <- app_assoc. split; [done|congruence].
Qed.
Lemma handle_line_fed line st o st' l1 l2 :
  coherent st → handle_line peer (strip_eol line) st = (o, st') → fed st l1 l2 →
  (match stream st with
   | Plain rs => lines (received socket) = l1 ++ line :: lines (buffer st ++ received rs)
   | Tls rs => lines (received behind_reads) = l2 ++ line :: lines (buffer st ++ received rs)
   | Taken => False
   end) →
  ∃ l1' l2', fed st' l1' l2' ∧ (secured st = true → l1' = l1 ∧ secured st' = true ∧ only_tls st st') ∧ (o = None → ahead st' l1' l2').
Proof using.
  intros Hc H (Hp & H1 & H2 & H3 & o1 & o2 & H4 & H5) Hline.
  destruct (handle_line_effect _ _ _ _ _ H (coherent_plain _ Hc)) as (Hp' & Hsaid & Hcase).
  destruct (said_fed _ _ _ _ Hc Hsaid H4 H5) as (o1' & o2' & Ho & Ho'). unfold coherent in Hc.
  destruct (stream st) as [rs|rs|] eqn:Es; [..|done].
  - rewrite (H3 Hc), app_nil_r in *. assert (proto st' = feeds p0 (strip_eol <$> l1 ++ [line])) as Hf by (rewrite feeds_snoc; congruence).
    assert (l1 ++ [line] `prefix_of` lines (received socket)) as Hpre by (rewrite Hline; exists (lines (buffer st ++ received rs)); by rewrite <- app_assoc).
    specialize (Ho' Hc). exists (l1 ++ [line]), []. split; [|split; [congruence|]].
    + split_and!; [by rewrite app_nil_r|done|apply prefix_nil|done|]. exists o1', o2'. split; [done|]. intros _. done.
    + intros Hn. unfold ahead. destruct Hcase as [(K1 & K2 & K3)|[U|(? & _)]]; [..|congruence].
      * rewrite K1, K2, Es, Hline. by rewrite <- app_assoc.
      * destruct U as (_ & _ & U3 & U4 & U5 & rs0 & rs1 & U6 & U7 & U8). rewrite U8, U7, U4. done.
  - destruct Hcase as [(K1 & K2 & K3)|[(U & _)|(_ & _ & _ & B)]]; [|congruence..].
    exists l1, (l2 ++ [line]). split; [|split; [intros _; split_and!; [done|congruence|]; destruct Hsaid as [o' Ho1]; exists o'; by rewrite Ho1, Es|]].
    + split_and!; [rewrite app_assoc, feeds_snoc; congruence|done| |congruence|].
      * rewrite Hline. exists (lines (buffer st ++ received rs)). by rewrite <- app_assoc.
      * exists o1', o2'. split; [done|congruence].
    + intros _. unfold ahead. rewrite K1, K2, Es, Hline. by rewrite <- app_assoc.
Qed.

Lemma iterate_fed st o st' l1 l2 :
  coherent st → iterate peer st = (o, st') → fed st l1 l2 → ahead st l1 l2 →
  ∃ l1' l2', fed st' l1' l2' ∧ (secured st = true → l1' = l1 ∧ secured st' = true ∧ only_tls st st') ∧ (o = None → ahead st' l1' l2').
Proof using.
  intros Hc H Hf Ha. destruct (iterate_step _ _ _ _ H Hc) as [(line & b & s & Hl & E & Hi & Hh)|(r & b & s & -> & -> & _)].
  - destruct (read_line_lines _ _ _ _ _ _ E Hl) as [Hlines Ht]. eapply (handle_line_fed line (with_input b s st)); [done..|].
    unfold ahead in Ha. cbn. destruct (stream st), s; try done; cbn [pending] in Hlines; by rewrite <- Hlines.
  - exists l1, l2. split_and!; [done| |done]. intros Hs. split_and!; [done..|]. exists []. by rewrite app_nil_r.
Qed.
Lemma serve_loop_fed fuel st r st' l1 l2 :
  coherent st → serve_loop peer fuel st = Some (r, st') → fed st l1 l2 → ahead st l1 l2 →
  ∃ l1' l2', fed st' l1' l2' ∧ (secured st = true → l1' = l1 ∧ secured st' = true ∧ only_tls st st').
Proof using.
  revert st l1 l2. induction fuel as [|fuel IH]; intros st l1 l2 Hc H Hf Ha; [done|]. cbn [serve_loop] in H.
  destruct (iterate peer st) as [o st1] eqn:E. destruct (iterate_fed _ _ _ _ _ Hc E Hf Ha) as (l1' & l2' & Hf' & H1 & Ha').
  destruct o as [r1|].
  { injection H as <- <-. exists l1', l2'. split; [done|]. done. }
  destruct (iterate_continues _ _ _ E Hc) as [Hc' _]. destruct (IH st1 l1' l2' Hc' H Hf' (Ha' eq_refl)) as (l1'' & l2'' & Hf'' & H2).
  exists l1'', l2''. split; [done|]. intros Hs. destruct (H1 Hs) as (<- & Hs1 & o1 & E1).
  destruct (H2 Hs1) as (-> & Hs2 & o2 & E2). split_and!; [done..|]. exists (o1 ++ o2). by rewrite E2, E1, fmap_app, app_assoc.
Qed.
End origin.

(** C17: What a session fed its protocol and wrote, whatever the peer does and however the
    socket splits it into reads: first whole lines the peer sent in clear, then whole
    lines it sent through TLS, each stripped of its line end, and no byte received in
    clear is ever part of a line that is fed behind TLS (the buffer of the reader
    outlives the upgrade, so this is what the check for pipelined data is for); the
    same order holds for what was written.  With implicit TLS nothing is read or
    written in clear. *)
Theorem upgrade_isolates_plaintext peer socket mode p r st :
  serve_line_session peer socket mode p = Some (r, Some st) →
  ∃ l1 l2 o1 o2,
    proto st = feeds (greeting p).2 (strip_eol <$> l1 ++ l2) ∧
    out st = (pair false <$> o1) ++ (pair true <$> o2) ∧
    l1 `prefix_of` lines (received socket) ∧ l2 `prefix_of` lines (received (default [] (behind peer))) ∧
    (secured st = false → l2 = [] ∧ o2 = []) ∧ (mode = Implicit → l1 = [] ∧ o1 = []).
Proof.
  unfold serve_line_session. intros H. destruct (start mode peer socket p) as [st0|e] eqn:E0; [|done].
  destruct (start_coherent _ _ _ _ _ E0) as (Hc & Hp & Ho & _). rewrite Hp in H. destruct (greeting p) as [g p'] eqn:Eg. cbn [snd].
  destruct (write_all peer g (with_proto p' st0)) as [r1 st1] eqn:Ew.
  destruct (write_all_kept _ _ _ _ _ Ew) as [(K1 & K2 & K3) [Hp1 Hs1]]. cbn in K1, K2, K3, Hp1.
  assert (coherent st1) as Hc1 by (unfold coherent in *; by rewrite K2, K3).
  assert (out st1 = [] ∨ out st1 = [(on_tls (stream st0), g)]) as Ho1.
  { unfold write_all in Ew. cbn in Ew. rewrite Ho in Ew. destruct (write_fault peer (length _)); injection Ew as _ <-; cbn; rewrite ?Ho; auto. }
  assert (fed peer socket p' st1 [] []) as Hf.
  { split_and!; [done|apply prefix_nil..|done|]. unfold coherent in Hc. destruct (stream st0) eqn:Es; [..|done].
    - exists (snd <$> out st1), []. by destruct Ho1 as [->| ->].
    - exists [], (snd <$> out st1). split; [by destruct Ho1 as [->| ->]|congruence]. }
  assert (ahead peer socket st1 [] []) as Ha.
  { unfold ahead. rewrite K1, K2. unfold start in E0. destruct mode; [|destruct (behind peer)]; [injection E0 as <-..|]; done. }
  assert (∃ l1 l2, fed peer socket p' st l1 l2 ∧ (secured st1 = true → l1 = [] ∧ secured st = true ∧ only_tls st1 st)) as (l1 & l2 & (F1 & F2 & F3 & F4 & o1 & o2 & F5 & F6) & Hi).
  { destruct r1 as [[]|e].
    - destruct (serve_loop peer (fuel_for peer socket) st1) as [[r2 st2]|] eqn:El; [|done]. injection H as <- <-.
      by eapply serve_loop_fed.
    - injection H as <- <-. exists [], []. split; [done|]. intros Hs. split_and!; [done..|]. exists []. by rewrite app_nil_r. }
  destruct mode.
  { exists l1, l2, o1, o2. split_and!; try done. intros Hs. split; auto. }
  assert (secured st0 = true ∧ on_tls (stream st0) = true) as [Hs0 Ht0] by (unfold start in E0; destruct (behind peer); [injection E0 as <-|]; done).
  rewrite K3 in Hi. destruct (Hi Hs0) as (-> & Hs & o & Eo). exists [], l2, [], ((snd <$> out st1) ++ o). split_and!; try done.
  - rewrite Eo, fmap_app. rewrite Ht0 in Ho1. by destruct Ho1 as [->| ->].
  - congruence.
Qed.

(** ** The reference: line by line *)

(** The replies and the protocol after the lines, up to the first one that quits. *)
Fixpoint run_lines (p : P) (ls : list bytes) : list string * P :=
  match ls with
  | [] => ([], p)
  | l :: ls =>
      let cmd := strip_eol l in
      let '(reply, p') := feed_line_bytes p cmd in
      let said := if bool_decide (reply = EmptyString) then [] else [reply] in
      if is_quit p (from_utf8_lossy cmd) then (said, p')
      else let '(replies, p'') := run_lines p' ls in (said ++ replies, p'')
  end.

Definition no_failure (rs : list ReadResult) : Prop := Forall (λ r, match r with Failed _ => False | _ => True end) rs.
Definition short (max : Z) (bs : bytes) : Prop := Forall (λ l, Z.of_nat (length l) ≤ max) (lines bs).

Definition short_first (max : Z) (bs : bytes) : Prop := match lines bs with l :: _ => Z.of_nat (length l) ≤ max | [] => True end.
Lemma short_head max bs : short max bs → short_first max bs.
Proof. unfold short, short_first. destruct (lines bs); [done|]. by intros [? _]%Forall_cons. Qed.

Lemma lines_first o r : split_lf o = None → o ≠ [] → ∃ l ls, lines (o ++ r) = (o ++ l) :: ls.
Proof.
  induction o as [|b o IH]; intros H Hn; [done|]. cbn [split_lf app lines] in *. case_bool_decide; [done|].
  destruct (split_lf o) as [[]|]; [done|]. destruct o as [|c o].
  - cbn [app]. destruct (lines r) as [|l ls]; [by exists [], []|by exists l, ls].
  - destruct (IH eq_refl) as (l & ls & ->); [done|]. by exists l, ls.
Qed.
Lemma read_more_ok max o rs :
  split_lf o = None → no_failure rs → short_first max (o ++ received rs) →
  ∃ line b rs', read_more max o rs = (Ok line, b, rs') ∧ no_failure rs' ∧ (line = [] → o ++ received rs = []).
Proof.
  revert o. induction rs as [|[c bs| |e] rs IH]; intros o Ho Hn Hs; cbn [read_more received] in *.
  - exists o, [], []. split_and!; [done..|]. intros ->. done.
  - apply Forall_cons in Hn as [_ Hn]. pose proof (split_lf_app o (c :: bs) Ho) as E. rewrite app_assoc in Hs.
    destruct (split_lf (c :: bs)) as [[l rest]|] eqn:El; cbn [mbind option_bind] in E.
    + exists (o ++ l), rest, rs. split_and!; [done..|]. intros [_ ->]%app_nil. by apply split_lf_len in El as [_ ?].
    + assert (o ++ c :: bs ≠ []) as Hne by (by intros [_ ?]%app_nil).
      destruct (lines_first (o ++ c :: bs) (received rs) E Hne) as (l & ls & Hl). pose proof Hs as Hlen. unfold short_first in Hlen.
      rewrite Hl, length_app in Hlen.
      rewrite (proj2 (Z.ltb_ge _ _)) by lia. destruct (IH (o ++ c :: bs) E Hn Hs) as (line & b & rs' & -> & Hn' & Hl').
      exists line, b, rs'. split_and!; [done..|]. intros ?%Hl'. rewrite app_assoc. done.
  - apply Forall_cons in Hn as [_ Hn]. by apply IH.
  - by apply Forall_cons in Hn as [? _].
Qed.
Lemma read_line_ok max buf rs :
  no_failure rs → short_first max (buf ++ received rs) → 0 ≤ max →
  ∃ line b rs', read_line_capped max buf (Tls rs) = (Ok line, b, Tls rs') ∧ no_failure rs' ∧ (line = [] → buf ++ received rs = []).
Proof.
  intros Hn Hs Hm. unfold read_line_capped. destruct (split_lf buf) as [[l rest]|] eqn:E.
  { exists l, rest, rs. split_and!; [done..|]. apply split_lf_len in E as [_ ?]. done. }
  rewrite (proj2 (Z.ltb_ge _ _)).
  - destruct (read_more_ok max buf rs E Hn Hs) as (line & b & rs' & -> & ? & ?). by eexists _, _, _.
  - destruct buf as [|c buf]; [cbn; lia|].
    destruct (lines_first (c :: buf) (received rs) E) as (l & ls & Hl); [done|]. unfold short_first in Hs. rewrite Hl, length_app in Hs. lia.
Qed.

Section reference.
Context (peer : Peer) (Hw : ∀ n, write_fault peer n = None).
Lemma handle_line_secured cmd st :
  secured st = true →
  handle_line peer cmd st =
    (if is_quit (proto st) (from_utf8_lossy cmd) then Some (Ok tt) else None,
     {| proto := (feed_line_bytes (proto st) cmd).2; buffer := buffer st; stream := stream st; secured := secured st;
        out := out st ++ (pair (on_tls (stream st)) <$>
          (if bool_decide ((feed_line_bytes (proto st) cmd).1 = EmptyString) then [] else [(feed_line_bytes (proto st) cmd).1])) |}).
Proof using Hw.
  intros Hs. unfold handle_line. destruct (feed_line_bytes (proto st) cmd) as [reply p]. cbn [fst snd].
  unfold write_all. rewrite Hw, Hs. case_bool_decide; cbn; [rewrite app_nil_r|]; by rewrite <- Hs.
Qed.
Lemma serve_loop_reference fuel st rs :
  stream st = Tls rs → secured st = true → no_failure rs → short MAX_LINE (buffer st ++ received rs) →
  (length (buffer st ++ received rs) < fuel)%nat →
  ∃ st', serve_loop peer fuel st = Some (Ok tt, st') ∧
    out st' = out st ++ (pair true <$> (run_lines (proto st) (lines (buffer st ++ received rs))).1) ∧
    proto st' = (run_lines (proto st) (lines (buffer st ++ received rs))).2.
Proof using Hw.
  revert st rs. induction fuel as [|fuel IH]; intros st rs Es Hsec Hn Hs Hf; [lia|]. cbn [serve_loop]. unfold iterate.
  rewrite Es. destruct (read_line_ok _ _ _ Hn (short_head _ _ Hs) ltac:(done)) as (line & b & rs' & E & Hn' & Hl). rewrite E. destruct line as [|c line].
  { rewrite (Hl eq_refl). cbn. eexists. split_and!; [done| |done]. by rewrite app_nil_r. }
  destruct (read_line_lines _ _ _ _ _ _ E) as [Hlines _]; [done|]. cbn [pending] in Hlines. rewrite Hlines.
  pose proof (lines_length _ _ _ Hlines) as Hlen. rewrite handle_line_secured by done. cbn [proto buffer stream secured out with_input on_tls].
  cbn [run_lines]. set (cmd := strip_eol (c :: line)). destruct (feed_line_bytes (proto st) cmd) as [reply p']. cbn [fst snd].
  destruct (is_quit (proto st) (from_utf8_lossy cmd)); [by eexists|].
  edestruct (IH {| proto := p'; buffer := b; stream := Tls rs'; secured := secured st;
    out := out st ++ (pair true <$> (if bool_decide (reply = EmptyString) then [] else [reply])) |} rs') as (st' & -> & E1 & E2);
    [done|done|done| |cbn in *; lia|].
  - unfold short in *. rewrite Hlines in Hs. by apply Forall_cons in Hs as [_ ?].
  - exists st'. split; [done|]. rewrite E1, E2. cbn [proto buffer out]. destruct (run_lines p' _) as [replies p'']. cbn [fst snd].
    split; [|done]. by rewrite fmap_app, app_assoc.
Qed.
End reference.

(** C31: With implicit TLS, a peer that behaves (its lines are at most [MAX_LINE] long and
    the socket does not fail) gets the greeting and then the reply of every line it
    sent, up to one that quits, whatever the boundaries of the reads are: what the
    session does depends on the bytes alone. *)
Theorem implicit_session_line_by_line peer socket rs p :
  behind peer = Some rs → no_failure rs → short MAX_LINE (received rs) → (∀ n, write_fault peer n = None) →
  ∃ st, serve_line_session peer socket Implicit p = Some (Ok tt, Some st) ∧
    out st = pair true <$> (greeting p).1 :: (run_lines (greeting p).2 (lines (received rs))).1 ∧
    proto st = (run_lines (greeting p).2 (lines (received rs))).2.
Proof.
  intros Hb Hn Hs Hw. unfold serve_line_session, start. rewrite Hb. cbn [proto]. destruct (greeting p) as [g p'].
  unfold write_all. rewrite Hw. cbn [out with_proto proto buffer stream secured on_tls length].
  edestruct (serve_loop_reference peer Hw (fuel_for peer socket)
    {| proto := p'; buffer := []; stream := Tls rs; secured := true; out := [] ++ [(true, g)] |} rs) as (st & E & E1 & E2); [done..| |].
  - unfold fuel_for. rewrite Hb. cbn. lia.
  - rewrite E. by exists st.
Qed.

(** A line that is read holds at most [max] bytes more than one read gives. *)
Theorem read_line_bounded max n buf s line b s' :
  0 ≤ max → read_line_capped max buf s = (Ok line, b, s') →
  (length buf ≤ n)%nat → Forall (λ r, match r with Got _ bs => (length bs < n)%nat | _ => True end) (pending s) →
  Z.of_nat (length line) ≤ max + Z.of_nat n ∧ (length b ≤ n)%nat.
Proof.
  assert (∀ rs o line b rs', read_more max o rs = (Ok line, b, rs') → Z.of_nat (length o) ≤ max →
    Forall (λ r, match r with Got _ bs => (length bs < n)%nat | _ => True end) rs →
    Z.of_nat (length line) ≤ max + Z.of_nat n ∧ (length b ≤ n)%nat) as Hm.
  { clear. intros rs. induction rs as [|[c bs| |e] rs IH]; intros o line b rs' H Ho Hf; cbn [read_more] in H;
      [| |apply Forall_cons in Hf as [_ Hf]; by eapply IH|done].
    - injection H as <- <- _. cbn. lia.
    - apply Forall_cons in Hf as [Hc Hf]. destruct (split_lf (c :: bs)) as [[l rest]|] eqn:E.
      + apply split_lf_len in E as [E _]. injection H as <- <- _. rewrite length_app. cbn in E. lia.
      + case_match eqn:Em; [done|]. apply Z.ltb_ge in Em. by eapply IH. }
  unfold read_line_capped. intros Hmax H Hb Hf. destruct (split_lf buf) as [[l rest]|] eqn:E.
  - apply split_lf_len in E as [E _]. injection H as <- <- _. lia.
  - destruct (max <? _) eqn:Em; [done|]. apply Z.ltb_ge in Em. destruct s as [rs|rs|]; [..|done].
    all: destruct (read_more max buf rs) as [[r0 b0] rs0] eqn:Er; injection H as -> <- _; by eapply Hm.
Qed.

End session.

(** ** Witnesses *)

Module Witness.
(** A protocol that keeps the lines it was fed and grants every upgrade. *)
#[export] Instance recorder : LineProtocol (list bytes) := {
  greeting p := ("220 hi"%string, p);
  feed_line_bytes p line := ("220 go"%string, p ++ [line]);
  is_starttls _ line := bool_decide (verb_of line = "STARTTLS"%string);
  accepts_upgrade _ reply := starts_with "220" reply;
  is_quit _ line := bool_decide (verb_of line = "QUIT"%string);
}.
Definition got (s : string) : ReadResult := match as_bytes s with b :: bs => Got b bs | [] => Interrupted end.
Definition lf (s : string) : string := s +:+ String "013" (String "010" EmptyString).
Definition peer : Peer := {| behind := Some [got "NO"; got (lf "OP"); Interrupted; got (lf "quit")]; write_fault := λ _, None |}.
End Witness.
Import Witness.

(** The upgrade, a refused one (bytes behind the command in the same read), and what
    is fed. *)
Example upgrade_samples :
  (∃ st, serve_line_session peer [got "START"; got (lf "TLS")] StartTls ([] : list bytes) = Some (Ok tt, Some st) ∧
     proto st = [as_bytes "STARTTLS"; as_bytes "NOOP"; as_bytes "quit"]) ∧
  (∃ st, serve_line_session peer [got (lf "STARTTLS" +:+ lf "MAIL")] StartTls ([] : list bytes) = Some (Err PipelinedData, Some st) ∧
     proto st = [as_bytes "STARTTLS"]).
Proof. vm_compute. split; eexists; split; reflexivity. Qed.
Lemma upgrade_isolates_plaintext_witness :
  ∃ l1 l2, [as_bytes "STARTTLS"; as_bytes "NOOP"; as_bytes "quit"] = feeds ([] : list bytes) (strip_eol <$> l1 ++ l2) ∧
    l1 `prefix_of` lines (as_bytes (lf "STARTTLS")) ∧ l2 `prefix_of` lines (as_bytes (lf "NOOP" +:+ lf "quit")).
Proof.
  assert (∃ st, serve_line_session peer [got "START"; got (lf "TLS")] StartTls ([] : list bytes) = Some (Ok tt, Some st) ∧
     proto st = [as_bytes "STARTTLS"; as_bytes "NOOP"; as_bytes "quit"]) as (st & E & Ep) by (vm_compute; eexists; split; reflexivity).
  destruct (upgrade_isolates_plaintext _ _ _ _ _ _ E) as (l1 & l2 & o1 & o2 & H1 & _ & H3 & H4 & _).
  exists l1, l2. split; [by rewrite <- Ep|]. split; assumption.
Defined.
Lemma implicit_session_line_by_line_witness :
  ∃ st, serve_line_session peer [] Implicit ([] : list bytes) = Some (Ok tt, Some st) ∧ proto st = [as_bytes "NOOP"; as_bytes "quit"].
Proof.
  destruct (implicit_session_line_by_line peer [] [got "NO"; got (lf "OP"); Interrupted; got (lf "quit")] ([] : list bytes)) as (st & E & _ & Ep).
  - reflexivity.
  - repeat constructor.
  - repeat constructor; vm_compute; discriminate.
  - reflexivity.
  - exists st. split; [exact E|]. rewrite Ep. vm_compute. reflexivity.
Defined.
Lemma read_line_bounded_witness : Z.of_nat (length (as_bytes (lf "OP"))) ≤ MAX_LINE + 4.
Proof.
  destruct (read_line_bounded MAX_LINE 4 [] (Plain [got (lf "OP")]) (as_bytes (lf "OP")) [] (Plain [])) as [H _].
  - vm_compute; discriminate.
  - vm_compute; reflexivity.
  - cbn; lia.
  - repeat constructor.
  - exact H.
Defined.
End LegacyNet.
