(* ===== verification/Submission.v ===== *)
(** * The POP3 and SMTP submission servers

    [crates/gateway/src/pop3_access.rs] and [crates/gateway/src/smtp_submission.rs].
    The protocol sessions of the mail library are parameters of the model
    ([Pop3Session], [SmtpSession]), as is its conversion of a message to a draft; the
    adapters, the routing of a submission to its recipients and the spool are
    translated.  The clock and the disk are functions of how often they were asked, and
    the deliveries of a sink happen one after another. *)

From Stdlib Require Import ZArith Lia Ascii String.
From stdpp Require Import base decidable option sets list strings gmap.
From S2P Require Import Prelude RustStr RustText MtaSts LegacyNet.
Local Open Scope Z_scope.

(** ** The accept loop *)

Module Listener.
(** What one round of the loop finds: whether the shutdown flag is set, how many
    sessions have ended since the last one, and what [accept] gives. *)
Inductive Accept := Conn (peer : string) (blocking : bool) | WouldBlock | AcceptError.
Record Round := { shutdown : bool; ended : Z; incoming : Accept }.
Record Server := { max : Z; active : Z; sessions : list string; refused : list string }.
Definition DEFAULT_MAX_CONNECTIONS : Z := 256.
Definition bind : Server := {| max := DEFAULT_MAX_CONNECTIONS; active := 0; sessions := []; refused := [] |}.
Definition with_max_connections (m : Z) (s : Server) : Server :=
  {| max := m; active := 0; sessions := sessions s; refused := refused s |}.
Definition release (n : Z) (s : Server) : Server :=
  {| max := max s; active := Z.max 0 (active s - n); sessions := sessions s; refused := refused s |}.
(** [self.limiter.try_acquire()]. *)
Definition try_acquire (s : Server) : option Server :=
  if active s <? max s then Some {| max := max s; active := active s + 1; sessions := sessions s; refused := refused s |} else None.
Definition accept (a : Accept) (s : Server) : Server :=
  match a with
  | Conn peer blocking =>
      match try_acquire s with
      | None => {| max := max s; active := active s; sessions := sessions s; refused := refused s ++ [peer] |}
      | Some s' =>
          if blocking then {| max := max s'; active := active s'; sessions := sessions s' ++ [peer]; refused := refused s' |}
          else s
      end
  | WouldBlock | AcceptError => s
  end.
(** The flag: whether the loop returned. *)
Fixpoint serve_until (rounds : list Round) (s : Server) : bool * Server :=
  match rounds with
  | [] => (false, s)
  | r :: rounds =>
      let s := release (ended r) s in
      if shutdown r then (true, s) else serve_until rounds (accept (incoming r) s)
  end.

Definition conn_peer (a : Accept) : list string := match a with Conn p true => [p] | _ => [] end.
Fixpoint offered (rounds : list Round) : list string :=
  match rounds with
  | [] => []
  | r :: rounds => if shutdown r then [] else conn_peer (incoming r) ++ offered rounds
  end.

Lemma accept_bounded a s : 0 ≤ active s ≤ max s → 0 ≤ active (accept a s) ≤ max (accept a s) ∧ max (accept a s) = max s.
Proof.
  unfold accept, try_acquire. destruct a as [p b| |]; [|done..]. destruct (active s <? max s) eqn:E; [|done].
  apply Z.ltb_lt in E. destruct b; cbn; lia.
Qed.
(** Never more sessions than the configured number at a time; the loop stops at the
    first round that finds the flag set, and what was offered before is either served
    or refused. *)
Theorem accept_loop_bounded rounds s :
  0 ≤ active s ≤ max s → Forall (λ r, 0 ≤ ended r) rounds →
  0 ≤ active (serve_until rounds s).2 ≤ max s ∧
  ((serve_until rounds s).1 = true ↔ Exists (λ r, shutdown r = true) rounds) ∧
  (∀ p, p ∈ sessions (serve_until rounds s).2 → p ∈ sessions s ∨ p ∈ offered rounds) ∧
  (∀ p, p ∈ offered rounds → p ∈ sessions (serve_until rounds s).2 ∨ p ∈ refused (serve_until rounds s).2).
Proof.
  intros Hs Hr. revert s Hs.
  assert (∀ rounds s p, (p ∈ sessions s → p ∈ sessions (serve_until rounds s).2) ∧ (p ∈ refused s → p ∈ refused (serve_until rounds s).2)) as Hmono.
  { clear. induction rounds as [|r rounds IH]; intros s p; [done|]. cbn [serve_until]. destruct (shutdown r); [done|].
    destruct (IH (accept (incoming r) (release (ended r) s)) p) as [I1 I2].
    split; intros Hp; [apply I1|apply I2]; unfold accept, try_acquire; repeat case_match; cbn; set_solver. }
  induction Hr as [|r rounds Hr _ IH]; intros s Hs.
  { cbn [serve_until offered fst snd]. split_and!; [lia..| |by left|].
    - by rewrite Exists_nil.
    - intros p Hp. by apply elem_of_nil in Hp. }
  cbn [serve_until offered]. rewrite Exists_cons. destruct (shutdown r) eqn:Esh.
  { cbn [fst snd]. split_and!; [cbn; lia..| |by left|].
    - split; [by left|done].
    - intros p Hp. by apply elem_of_nil in Hp. }
  assert (0 ≤ active (release (ended r) s) ≤ max s) as Hrel by (cbn; lia).
  destruct (accept_bounded (incoming r) (release (ended r) s) Hrel) as [Hb Hm]. cbn [max release] in Hm.
  destruct (IH _ Hb) as (I1 & I2 & I3 & I4). rewrite Hm in I1. split_and!; [lia..| | |].
  - rewrite I2. split; [by right|intros [?|?]; [congruence|done]].
  - intros p Hp. destruct (I3 p Hp) as [H|H]; [|by right; apply elem_of_app; right].
    unfold accept, try_acquire in H. repeat case_match; cbn in *; set_solver.
  - intros p [Hp|Hp]%elem_of_app; [|by apply I4]. destruct (incoming r) as [q [|]| |]; cbn [conn_peer] in Hp; try by apply elem_of_nil in Hp.
    apply list_elem_of_singleton in Hp as ->. set (s1 := release (ended r) s). destruct (active s1 <? max s1) eqn:Ea.
    + left. apply Hmono. cbn [accept]. unfold try_acquire. rewrite Ea. cbn. set_solver.
    + right. apply Hmono. cbn [accept]. unfold try_acquire. rewrite Ea. cbn. set_solver.
Qed.

(** The loop of the MX listener ([inbound_tcp.rs]) makes the connection blocking before
    it asks the limiter. *)
Definition mx_accept (a : Accept) (s : Server) : Server :=
  match a with
  | Conn peer blocking =>
      if blocking then
        match try_acquire s with
        | None => {| max := max s; active := active s; sessions := sessions s; refused := refused s ++ [peer] |}
        | Some s' => {| max := max s'; active := active s'; sessions := sessions s' ++ [peer]; refused := refused s' |}
        end
      else s
  | WouldBlock | AcceptError => s
  end.
Fixpoint mx_serve_until (rounds : list Round) (s : Server) : bool * Server :=
  match rounds with
  | [] => (false, s)
  | r :: rounds =>
      let s := release (ended r) s in
      if shutdown r then (true, s) else mx_serve_until rounds (mx_accept (incoming r) s)
  end.
(** Without a flag, on a blocking socket: an error of [accept] is passed over. *)
Fixpoint mx_serve_forever (rounds : list Round) (s : Server) : Server :=
  match rounds with
  | [] => s
  | r :: rounds =>
      let s := release (ended r) s in
      mx_serve_forever rounds (match incoming r with Conn peer _ => mx_accept (Conn peer true) s | WouldBlock | AcceptError => s end)
  end.
Definition same_service (s t : Server) : Prop := max s = max t ∧ active s = active t ∧ sessions s = sessions t.
(** The order does not matter for who is served. *)
Theorem mx_loop_same_sessions rounds s t :
  same_service s t →
  (mx_serve_until rounds s).1 = (serve_until rounds t).1 ∧ same_service (mx_serve_until rounds s).2 (serve_until rounds t).2.
Proof.
  revert s t. induction rounds as [|r rounds IH]; intros s t H; [done|]. cbn [mx_serve_until serve_until].
  destruct H as (H1 & H2 & H3).
  destruct (shutdown r); [by unfold same_service; cbn; rewrite H2|]. apply IH. unfold mx_accept, accept, try_acquire, release. cbn.
  rewrite H1, H2. destruct (incoming r) as [p [|]| |]; cbn; try (by rewrite ?H1, ?H2, ?H3);
    destruct (_ <? _); unfold same_service; cbn; by rewrite ?H1, ?H2, ?H3.
Qed.
End Listener.

(** ** POP3 *)

Module Pop3.
Import LegacyNet.
(** What the mail library's session offers the adapter. *)
Class Pop3Session (S : Type) := {
  p3_greeting : S → string * S;
  p3_feed_line : S → string → string * S;
}.
Section adapter.
Context {S : Type} `{PS : Pop3Session S}.
Record Pop3Line := { session : S }.
Definition pop3_feed_line_bytes (p : Pop3Line) (line : bytes) : string * Pop3Line :=
  let '(r, s) := p3_feed_line (session p) (from_utf8_lossy line) in (r, {| session := s |}).
#[export] Instance Pop3_LineProtocol : LineProtocol Pop3Line := {
  greeting p := let '(g, s) := p3_greeting (session p) in (g, {| session := s |});
  LegacyNet.feed_line_bytes := pop3_feed_line_bytes;
  is_starttls _ line := bool_decide (verb_of line = "STLS"%string);
  accepts_upgrade _ reply := starts_with "+OK" reply;
  is_quit _ line := bool_decide (verb_of line = "QUIT"%string);
}.
(** [new store auth tls]: the session for a channel that is confidential or not yet. *)
Definition pop3_handle_connection (new : bool → S) (peer : Peer) (socket : list ReadResult) (mode : LegacyTls) :=
  serve_line_session peer socket mode {| session := new (is_implicit mode) |}.
End adapter.
End Pop3.

(** ** Submission *)

Module Submission.
Import LegacyNet.

Inductive Destination := Native | Legacy.
#[global] Instance destination_eq_dec : EqDecision Destination.
Proof. solve_decision. Defined.

(** A submission as the mail library's session hands it over. *)
Record Submission := { mail_from : string; sub_rcpt_to : list string; data : bytes }.
Class SmtpSession (S : Type) := {
  ss_greeting : S → string * S;
  ss_feed_line_bytes : S → bytes → string * S;
  take_submissions : S → list Submission * S;
}.
Class MoteDrafts (MoteDraft : Type) := { build_mote_draft : bytes → Z → MoteDraft }.

Section routing.
Context {MoteDraft : Type} `{MD : MoteDrafts MoteDraft}.
Record RoutedSubmission := {
  from : string;
  rcpt_to : string;
  destination : Destination;
  rfc5322 : bytes;
  mote : MoteDraft;
}.
Class SubmissionSink (K : Type) := { deliver : K → RoutedSubmission → bool * K }.

(** [a.rsplit_once('@')], the part behind it if there is any, in lower case. *)
Definition domain_of (addr : string) : option string :=
  let a := trim_end_matches ">" (trim_start_matches "<" (trim addr)) in
  match rsplit_once "@" a with
  | Some (_, EmptyString) | None => None
  | Some (_, d) => Some (to_ascii_lowercase d)
  end.
(** The native domains as [SubmissionServer::bind] keeps them. *)
Definition bind_domains (ds : list string) : list string := (λ d, to_ascii_lowercase (trim d)) <$> ds.

Section line.
Context {S K : Type} `{SS : SmtpSession S} `{SK : SubmissionSink K}.
(** [clock] gives the time of the n-th line. *)
Record SmtpLine := {
  session : S;
  sink : K;
  native_domains : list string;
  clock : nat → Z;
  line_no : nat;
}.
Definition is_native (domains : list string) (rcpt : string) : bool :=
  match domain_of rcpt with
  | Some d => existsb (λ n, bool_decide (n = d)) domains
  | None => false
  end.
Definition route (domains : list string) (sub : Submission) (now : Z) (rcpt : string) : RoutedSubmission := {|
  from := mail_from sub; rcpt_to := rcpt; destination := if is_native domains rcpt then Native else Legacy;
  rfc5322 := data sub; mote := build_mote_draft (data sub) now |}.
(** The answers of the sink are only logged. *)
Definition route_one (domains : list string) (sub : Submission) (now : Z) (k : K) : K :=
  foldl (λ k rcpt, (deliver k (route domains sub now rcpt)).2) k (sub_rcpt_to sub).
Definition route_pending (p : SmtpLine) : SmtpLine :=
  let now := clock p (line_no p) in
  let '(subs, s) := take_submissions (session p) in
  {| session := s; sink := foldl (λ k sub, route_one (native_domains p) sub now k) (sink p) subs;
     native_domains := native_domains p; clock := clock p; line_no := Datatypes.S (line_no p) |}.
Definition with_session (s : S) (p : SmtpLine) : SmtpLine :=
  {| session := s; sink := sink p; native_domains := native_domains p; clock := clock p; line_no := line_no p |}.
Definition feed_line_bytes (p : SmtpLine) (line : bytes) : string * SmtpLine :=
  let '(reply, s) := ss_feed_line_bytes (session p) line in
  (reply, route_pending (with_session s p)).
#[export] Instance Smtp_LineProtocol : LineProtocol SmtpLine := {
  greeting p := let '(g, s) := ss_greeting (session p) in (g, with_session s p);
  LegacyNet.feed_line_bytes := feed_line_bytes;
  is_starttls _ line := bool_decide (verb_of line = "STARTTLS"%string);
  accepts_upgrade _ reply := starts_with "220" reply;
  is_quit _ line := bool_decide (verb_of line = "QUIT"%string);
}.
Definition handle_connection (new : bool → S) (k : K) (domains : list string) (clk : nat → Z)
    (peer : Peer) (socket : list ReadResult) (mode : LegacyTls) :=
  serve_line_session peer socket mode
    {| session := new (is_implicit mode); sink := k; native_domains := domains; clock := clk; line_no := 0 |}.

(** A line whose first word is [QUIT], in any case, ends the session also inside a
    message: the line goes to the session as content, which gives no reply, and the
    connection is closed with nothing written and the message never finished. *)
Theorem quit_word_ends_any_session (peer : Peer) cmd (st : Session (P := SmtpLine)) s :
  verb_of (from_utf8_lossy cmd) = "QUIT"%string →
  ss_feed_line_bytes (session (proto st)) cmd = (EmptyString, s) →
  handle_line peer cmd st = (Some (Ok tt), with_proto (route_pending (with_session s (proto st))) st).
Proof.
  intros Hq Hf. unfold handle_line.
  assert (is_quit (proto st) (from_utf8_lossy cmd) = true) as -> by (cbn; by rewrite Hq).
  assert (is_starttls (proto st) (from_utf8_lossy cmd) = false) as -> by (cbn; by rewrite Hq).
  rewrite andb_false_r. cbn [LegacyNet.feed_line_bytes Smtp_LineProtocol]. unfold feed_line_bytes. rewrite Hf. done.
Qed.
End line.

(** ** The spool *)

(** The directory by file name.  [disk] says which writes succeed, [wall] what the
    clock gives, both by the number of the delivery. *)
Record SpoolSink := { dir : gmap string bytes; seq : Z; disk : Z → bool; wall : Z → Z }.
Definition SpoolSink_new (is_dir : bool) (files : gmap string bytes) (disk : Z → bool) (wall : Z → Z) : option SpoolSink :=
  if is_dir then Some {| dir := files; seq := 0; disk := disk; wall := wall |} else None.
Definition sanitize_char (c : ascii) : bool := negb (is_char "013" c) && negb (is_char "010" c) && negb (is_char "000" c).
Fixpoint sanitize (v : string) : string :=
  match v with
  | EmptyString => EmptyString
  | String c r => if sanitize_char c then String c (sanitize r) else sanitize r
  end.
Definition tag_of (d : Destination) : string := match d with Native => "native" | Legacy => "legacy" end.
Definition crlf : string := String "013" (String "010" EmptyString).
Definition trace_headers (r : RoutedSubmission) : string :=
  "X-Envoir-Destination: " +:+ tag_of (destination r) +:+ crlf +:+
  "X-Envoir-Mail-From: " +:+ sanitize (from r) +:+ crlf +:+
  "X-Envoir-Rcpt-To: " +:+ sanitize (rcpt_to r) +:+ crlf.
Definition spool_content (r : RoutedSubmission) : bytes := as_bytes (trace_headers r) ++ rfc5322 r.
Definition file_name (now n : Z) (d : Destination) : string :=
  u64_to_string now +:+ String "-" (u64_to_string n +:+ String "-" (tag_of d +:+ ".eml")).
(** [std::fs::write] creates the file or replaces what it holds. *)
Definition spool_deliver (k : SpoolSink) (r : RoutedSubmission) : bool * SpoolSink :=
  let n := seq k in
  let seq' := U64.wrap (n + 1) in
  if disk k n then
    (true, {| dir := <[file_name (wall k n) n (destination r) := spool_content r]> (dir k); seq := seq'; disk := disk k; wall := wall k |})
  else (false, {| dir := dir k; seq := seq'; disk := disk k; wall := wall k |}).
#[export] Instance SpoolSink_sink : SubmissionSink SpoolSink := { deliver := spool_deliver }.

(** *** One file per recipient *)





(** A sink that is started anew on the directory of another counts from zero again: when
    its clock gives the time the other's gave (it was set back, or both run at once), its
    first file takes the name of the other's first file, and replaces it with no error. *)
Theorem restarted_sink_replaces files wall wall' r r' k1 k2 :
  SpoolSink_new true files (λ _, true) wall = Some k1 →
  SpoolSink_new true (dir (spool_deliver k1 r).2) (λ _, true) wall' = Some k2 →
  wall 0 = wall' 0 → destination r = destination r' →
  let name := file_name (wall 0) 0 (destination r) in
  dir (spool_deliver k1 r).2 !! name = Some (spool_content r) ∧
  (spool_deliver k2 r').1 = true ∧ dir (spool_deliver k2 r').2 = <[name := spool_content r']> (dir (spool_deliver k1 r).2).
Proof.
  intros E1 E2 Hw Hd name. unfold SpoolSink_new in E1, E2. apply (inj Some) in E1, E2. subst k1 k2. cbn. rewrite lookup_insert_eq. unfold name. by rewrite Hw, Hd.
Qed.

(** *** Reading a spooled file back *)

(** The bytes before the first CR LF and those behind it. *)
Fixpoint split_crlf (bs : bytes) : option (bytes * bytes) :=
  match bs with
  | Byte.x0d :: (Byte.x0a :: r) => Some ([], r)
  | b :: bs => '(l, r) ← split_crlf bs; Some (b :: l, r)
  | [] => None
  end.
Definition read_header (name : string) (bs : bytes) : option (bytes * bytes) :=
  '(l, r) ← split_crlf bs; v ← strip_bytes (as_bytes name) l; Some (v, r).
(** What a node that picks the file up reads: the three trace headers and the
    message. *)
Definition read_spool (bs : bytes) : option (bytes * bytes * bytes * bytes) :=
  '(t, bs) ← read_header "X-Envoir-Destination: " bs;
  '(f, bs) ← read_header "X-Envoir-Mail-From: " bs;
  '(r, bs) ← read_header "X-Envoir-Rcpt-To: " bs;
  Some (t, f, r, bs).

Definition no_cr (bs : bytes) : Prop := Forall (λ b, b ≠ Byte.x0d) bs.
Lemma first_crlf_app l r : no_cr l → split_crlf (l ++ Byte.x0d :: Byte.x0a :: r) = Some (l, r).
Proof.
  induction 1 as [|b l Hb Hl IH]; [done|]. cbn [app split_crlf]. rewrite IH. by destruct b.
Qed.
Lemma read_header_app name v r :
  no_cr (as_bytes name) → no_cr (as_bytes v) → read_header name (as_bytes (name +:+ v +:+ crlf) ++ r) = Some (as_bytes v, r).
Proof.
  intros Hn Hv. unfold read_header. rewrite !as_bytes_app, <- !app_assoc. change (as_bytes crlf ++ r) with (Byte.x0d :: Byte.x0a :: r).
  rewrite app_assoc, first_crlf_app by (by apply Forall_app). cbn [mbind option_bind].
  by rewrite (proj2 (strip_bytes_Some (as_bytes name) (as_bytes name ++ as_bytes v) (as_bytes v)) eq_refl).
Qed.
Lemma sanitize_clean v : str_all sanitize_char (sanitize v) = true.
Proof. induction v as [|c v IH]; [done|]. cbn [sanitize]. destruct (sanitize_char c) eqn:E; [|done]. cbn [str_all]. by rewrite E. Qed.
Lemma sanitize_id v : str_all sanitize_char v = true → sanitize v = v.
Proof.
  induction v as [|c v IH]; [done|]. cbn [str_all sanitize]. intros [Hc Hv]%andb_true_iff. by rewrite Hc, (IH Hv).
Qed.
Lemma sanitize_no_cr v : no_cr (as_bytes (sanitize v)).
Proof.
  pose proof (sanitize_clean v) as H. induction (sanitize v) as [|c s IH]; [by apply Forall_nil|].
  cbn [str_all] in H. apply andb_true_iff in H as [Hc Hs]. rewrite as_bytes_cons. apply Forall_cons. split; [|by apply IH].
  intros E. clear -Hc E. destruct c as [[] [] [] [] [] [] [] []]; cbn in E, Hc; try discriminate E; discriminate Hc.
Qed.
(** The envelope survives the spool: the node reads back the class, the sender and the
    recipient, with line breaks and NUL dropped and nothing else changed, and the
    submitted bytes exactly; no envelope value reaches into the next header. *)
Theorem spool_roundtrip (r : RoutedSubmission) :
  read_spool (spool_content r) = Some (as_bytes (tag_of (destination r)), as_bytes (sanitize (from r)), as_bytes (sanitize (rcpt_to r)), rfc5322 r) ∧
  (str_all sanitize_char (from r) = true → sanitize (from r) = from r).
Proof.
  split; [|apply sanitize_id]. unfold read_spool, spool_content, trace_headers.
  rewrite !str_app_assoc. rewrite <- (str_app_assoc "X-Envoir-Destination: "), <- !str_app_assoc.
  set (f := sanitize (from r)). set (t := sanitize (rcpt_to r)).
  assert (∀ a b c x, as_bytes (a +:+ (b +:+ (c +:+ x))) = as_bytes (a +:+ (b +:+ c)) ++ as_bytes x) as Hsplit
    by (intros; rewrite !as_bytes_app; by rewrite <- !app_assoc).
  rewrite Hsplit, <- app_assoc, read_header_app; [|repeat constructor; done|destruct (destination r); repeat constructor; done].
  cbn [mbind option_bind]. rewrite Hsplit, <- app_assoc, read_header_app; [|repeat constructor; done|apply sanitize_no_cr].
  cbn [mbind option_bind]. rewrite read_header_app; [done|repeat constructor; done|apply sanitize_no_cr].
Qed.

(** Nothing separates the trace headers from the message: a message whose first line
    starts with white space continues the [X-Envoir-Rcpt-To] header for a reader that
    unfolds headers the way RFC 5322 has it. *)
Definition is_wsp (b : byte) : bool := bool_decide (b = Byte.x20) || bool_decide (b = Byte.x09).
Definition folds (bs : bytes) : bool := match bs with b :: _ => is_wsp b | [] => false end.
Fixpoint read_field (fuel : nat) (bs : bytes) : option (bytes * bytes) :=
  match fuel with
  | O => None
  | S fuel =>
      '(l, r) ← split_crlf bs;
      if folds r then '(l', r') ← read_field fuel r; Some (l ++ l', r') else Some (l, r)
  end.
Theorem message_extends_trace_header (r : RoutedSubmission) l rest :
  rfc5322 r = Byte.x20 :: l ++ Byte.x0d :: Byte.x0a :: rest → no_cr l → folds rest = false →
  ∃ head,
    spool_content r = head ++ as_bytes ("X-Envoir-Rcpt-To: " +:+ sanitize (rcpt_to r) +:+ crlf) ++ rfc5322 r ∧
    read_field 2 (as_bytes ("X-Envoir-Rcpt-To: " +:+ sanitize (rcpt_to r) +:+ crlf) ++ rfc5322 r) =
      Some (as_bytes ("X-Envoir-Rcpt-To: " +:+ sanitize (rcpt_to r)) ++ Byte.x20 :: l, rest).
Proof.
  intros E Hl Hf. eexists (as_bytes ("X-Envoir-Destination: " +:+ (tag_of (destination r) +:+ (crlf +:+ ("X-Envoir-Mail-From: " +:+ (sanitize (from r) +:+ crlf)))))).
  split.
  - unfold spool_content, trace_headers. rewrite !as_bytes_app. by rewrite <- !app_assoc.
  - rewrite E. rewrite !as_bytes_app, <- !app_assoc. set (h := as_bytes "X-Envoir-Rcpt-To: ").
    change (as_bytes crlf ++ ?x) with (Byte.x0d :: Byte.x0a :: x). rewrite app_assoc. cbn [read_field].
    rewrite first_crlf_app; [|apply Forall_app; split; [repeat constructor; done|apply sanitize_no_cr]].
    cbn [mbind option_bind folds is_wsp bool_decide].
    change (Byte.x20 :: l ++ Byte.x0d :: Byte.x0a :: rest) with ((Byte.x20 :: l) ++ Byte.x0d :: Byte.x0a :: rest).
    rewrite first_crlf_app by (by constructor). cbn [mbind option_bind app folds]. rewrite Hf. done.
Qed.

(** *** Which recipients are native *)

Lemma trim_start_other c s : starts_with_char c s = false → trim_start_matches c s = s.
Proof. destruct s as [|d s]; [done|]. cbn. by intros ->. Qed.
(** A recipient is native exactly when the domain of its address, bracketed or not
    and in any case, is one of the configured ones. *)
Theorem native_by_domain local d ds :
  str_all printable (local +:+ String "@" d) = true → contains_char ">" (local +:+ String "@" d) = false →
  starts_with_char "<" (local +:+ String "@" d) = false → contains_char "@" d = false → d ≠ EmptyString →
  let a := local +:+ String "@" d in
  is_native (bind_domains ds) a = is_native (bind_domains ds) (String "<" (a +:+ ">")) ∧
  (is_native (bind_domains ds) a = true ↔ ∃ n, n ∈ ds ∧ to_ascii_lowercase (trim n) = to_ascii_lowercase d).
Proof.
  intros Hp Hgt Hlt Hat Hd a.
  assert (domain_of a = Some (to_ascii_lowercase d)) as E1.
  { unfold domain_of. rewrite trim_printable, trim_start_other, trim_end_none by done. unfold a. rewrite rsplit_once_app by done.
    by destruct d. }
  assert (domain_of (String "<" (a +:+ ">")) = Some (to_ascii_lowercase d)) as E2.
  { unfold domain_of. rewrite trim_printable.
    2: { cbn [str_all]. rewrite str_all_app. unfold a. by rewrite Hp. }
    cbn [trim_start_matches]. change (is_char "<" "<") with true. cbn [trim_start_matches].
    rewrite (trim_start_other "<" (a +:+ ">")), trim_end_app, trim_end_none; [unfold a; rewrite rsplit_once_app by done; by destruct d|done|].
    clear -Hlt. fold a in Hlt. destruct a as [|x y]; [done|]. by rewrite str_app_cons. }
  unfold is_native. rewrite E1, E2. split; [done|]. rewrite existsb_exists. unfold bind_domains. split.
  - intros (n & Hn & ->%bool_decide_eq_true). apply list_elem_of_In in Hn. apply list_elem_of_fmap in Hn as (m & E & Hm).
    by exists m.
  - intros (n & Hn & E). exists (to_ascii_lowercase d). split; [|by apply bool_decide_eq_true].
    apply list_elem_of_In. apply list_elem_of_fmap. by exists n.
Qed.
End routing.

(** ** Witnesses *)

Module Witness.
(** A session that takes every line up to [.] as a message from [a@x] to two
    recipients. *)
Record Toy := { body : bytes; ready : list Submission }.
#[export] Instance toy_session : SmtpSession Toy := {
  ss_greeting s := ("220 ready"%string, s);
  ss_feed_line_bytes s line :=
    if bool_decide (line = as_bytes ".") then
      ("250 queued"%string, {| body := []; ready := [{| mail_from := "a@x"; sub_rcpt_to := ["b@vulos.to"; "c@other.org"]; data := body s |}]%string |})
    else (EmptyString, {| body := body s ++ line ++ as_bytes crlf; ready := ready s |});
  take_submissions s := (ready s, {| body := body s; ready := [] |});
}.
#[export] Instance toy_drafts : MoteDrafts Z := { build_mote_draft bs now := Z.of_nat (length bs) }.
Definition empty_spool : SpoolSink := {| dir := ∅; seq := 0; disk := λ _, true; wall := λ _, 1700000000000 |}.
Definition line0 : SmtpLine (S := Toy) (K := SpoolSink) := {|
  session := {| body := as_bytes "Subject: hi"; ready := [] |}; sink := empty_spool;
  native_domains := bind_domains [" Vulos.TO"]%string; clock := λ _, 1700000000000; line_no := 0 |}.
End Witness.
Import Witness.

Lemma quit_word_ends_any_session_witness :
  let st := {| proto := line0; buffer := []; stream := Tls []; secured := true; out := [] |} in
  (handle_line {| behind := Some []; write_fault := λ _, None |} (as_bytes "Quit smoking today") st).1 = Some (Ok tt) ∧
  out (handle_line {| behind := Some []; write_fault := λ _, None |} (as_bytes "Quit smoking today") st).2 = [].
Proof.
  intros st. erewrite (quit_word_ends_any_session _ (as_bytes "Quit smoking today") st); [done|vm_compute; reflexivity|vm_compute; reflexivity].
Defined.
Lemma restarted_sink_replaces_witness :
  let r := {| from := "a@x"; rcpt_to := "b@y"; destination := Legacy; rfc5322 := as_bytes "one"; mote := 0 |}%string in
  let r' := {| from := "a@x"; rcpt_to := "b@y"; destination := Legacy; rfc5322 := as_bytes "two"; mote := 0 |}%string in
  let k2 := default empty_spool (SpoolSink_new true (dir (spool_deliver empty_spool r).2) (λ _, true) (wall empty_spool)) in
  (spool_deliver k2 r').1 = true ∧
  dir (spool_deliver k2 r').2 = <["1700000000000-0-legacy.eml" := spool_content r']>%string (dir (spool_deliver empty_spool r).2).
Proof.
  intros r r' k2.
  exact (proj2 (restarted_sink_replaces ∅ (wall empty_spool) (wall empty_spool) r r' empty_spool k2 eq_refl eq_refl eq_refl eq_refl)).
Defined.
Lemma native_by_domain_witness :
  is_native (bind_domains [" Vulos.TO"]%string) "<bob@VULOS.to>" = is_native (bind_domains [" Vulos.TO"]%string) "bob@VULOS.to".
Proof.
  destruct (native_by_domain "bob" "VULOS.to" [" Vulos.TO"]%string) as [E _]; [vm_compute; reflexivity..|discriminate|].
  symmetry. exact E.
Defined.
Lemma message_extends_trace_header_witness :
  ∃ head, spool_content {| from := "a@x"; rcpt_to := "b@y"; destination := Native; rfc5322 := as_bytes (" , evil@z" +:+ crlf +:+ "Subject: s" +:+ crlf); mote := 0 |}%string
    = head ++ as_bytes ("X-Envoir-Rcpt-To: " +:+ sanitize "b@y" +:+ crlf) ++ as_bytes (" , evil@z" +:+ crlf +:+ "Subject: s" +:+ crlf).
Proof.
  destruct (message_extends_trace_header {| from := "a@x"; rcpt_to := "b@y"; destination := Native; rfc5322 := as_bytes (" , evil@z" +:+ crlf +:+ "Subject: s" +:+ crlf); mote := 0 |}%string
    (as_bytes ", evil@z") (as_bytes ("Subject: s" +:+ crlf))) as (h & E & _).
  - vm_compute; reflexivity.
  - repeat constructor; discriminate.
  - vm_compute; reflexivity.
  - exists h. exact E.
Defined.

(** The accept loop is the one of the other access servers. *)
Definition submission_serve_until : list Listener.Round → Listener.Server → bool * Listener.Server := Listener.serve_until.
End Submission.
