(* ===== verification/Admin.v ===== *)
(** * The admin API of the multi-tenant gateway

    [crates/gateway/src/admin.rs]: the bearer token, the request and response types,
    the dispatch over the operations of [MultiDomain], the form and JSON helpers, and
    the HTTPS transport that reads one request per connection.  The shared gateway is
    passed along; what the operating system draws at random is an argument
    ([Ambient]).  The [Debug] text of a string, which escapes by the tables of the
    Unicode standard, is a parameter. *)

From Stdlib Require Import ZArith Lia Ascii String.
From stdpp Require Import base decidable option sets list strings gmap.
From S2P Require Import Prelude RustStr RustText B64 Kotva Provenance Dkim Directory AliasMap Admission Quota AliasAllocator MultiDomain MtaSts LegacyNet Submission.
Local Open Scope Z_scope.

(** [format!("{s:?}")]. *)
Class StrDebug := { str_debug : string → string }.

Module Admin.

Definition MAX_HEAD_BYTES : Z := 64 * 1024.
Definition MAX_BODY_BYTES : Z := 256 * 1024.

(** ** Authentication *)

Record AdminAuth := { token : option string }.
Definition disabled : AdminAuth := {| token := None |}.
Definition with_token (t : string) : AdminAuth :=
  if bool_decide (trim t = EmptyString) then {| token := None |} else {| token := Some t |}.
Definition is_enabled (a : AdminAuth) : bool := bool_decide (is_Some (token a)).
(** The loop over the pairs: [diff |= x ^ y] on bytes. *)
Fixpoint ct_diff (a b : bytes) (diff : Z) : Z :=
  match a, b with
  | x :: a, y :: b => ct_diff a b (Z.lor diff (Z.lxor (b2z x) (b2z y)))
  | _, _ => diff
  end.
Definition ct_eq (a b : bytes) : bool :=
  if (length a =? length b)%nat then ct_diff a b 0 =? 0 else false.
Definition authorize (presented : option string) (a : AdminAuth) : bool :=
  match token a, presented with
  | Some expected, Some presented => ct_eq (as_bytes expected) (as_bytes presented)
  | _, _ => false
  end.

(** ** Text helpers *)

(** In the texts below an apostrophe stands for a double quote. *)
Definition dq (s : string) : string := replace_char "'" "034" s.

Definition hex_digit (n : Z) : ascii := if n <? 10 then Ascii.ascii_of_N (Z.to_N (48 + n)) else Ascii.ascii_of_N (Z.to_N (87 + n)).
(** [format!("\\u{:04x}", c)] for a character below 0x20. *)
Definition unicode_escape (c : ascii) : string :=
  "\u00" +:+ String (hex_digit (code c / 16)) (String (hex_digit (code c mod 16)) EmptyString).
Definition json_char (c : ascii) : string :=
  if is_char "034" c then String "\" (String "034" EmptyString)
  else if is_char "\" c then "\\"
  else if is_char "010" c then "\n"
  else if is_char "013" c then "\r"
  else if is_char "009" c then "\t"
  else if code c <? 32 then unicode_escape c
  else String c EmptyString.
Fixpoint json_chars (s : string) : string :=
  match s with EmptyString => EmptyString | String c r => json_char c +:+ json_chars r end.
Definition json_str (s : string) : string := String "034" (json_chars s +:+ String "034" EmptyString).
Definition bool_text (b : bool) : string := if b then "true" else "false".

(** [text.split(['&', '\n'])]. *)
Definition split_pairs (s : string) : list string := split_char "&" (replace_char "010" "&" s).
Definition form_insert (m : gmap string string) (pair : string) : gmap string string :=
  let pair := trim pair in
  if bool_decide (pair = EmptyString) then m
  else match split_once "=" pair with
       | Some (k, v) => <[trim k := trim v]> m
       | None => m
       end.
Definition parse_form (body : bytes) : gmap string string := foldl form_insert ∅ (split_pairs (from_utf8_lossy body)).
Definition field (key : string) (form : gmap string string) : option string :=
  v ← form !! key; if bool_decide (v = EmptyString) then None else Some v.

Definition parse_cap (name : string) (v : option string) : result string Z :=
  match v with
  | Some v => ok_or (name +:+ " must be a non-negative integer") (MtaSts.parse_u64 v)
  | None => Ok 0
  end.
Definition Quota_new (free_messages hard_messages free_bytes hard_bytes : Z) : Admission.Quota := {|
  Admission.free_messages := free_messages; Admission.hard_cap_messages := hard_messages;
  Admission.free_bytes := free_bytes; Admission.hard_cap_bytes := hard_bytes |}.
Definition parse_quota (form : gmap string string) : result string (option Admission.Quota) :=
  let msgs := field "quota_messages" form in
  let bts := field "quota_bytes" form in
  match msgs, bts with
  | None, None => Ok None
  | _, _ =>
      m ← parse_cap "quota_messages" msgs;
      b ← parse_cap "quota_bytes" bts;
      Ok (Some (Quota_new m m b b))
  end.
Definition parse_target (raw : string) : result string AliasMap.AliasTarget :=
  match strip_prefix "native:" raw with
  | Some rest =>
      match rsplit_once "@" rest with
      | None => Err "native target must be native:<local>@<domain>"%string
      | Some (local, domain) =>
          if bool_decide (local = EmptyString) || bool_decide (domain = EmptyString)
          then Err "native target local-part and domain must be non-empty"%string
          else Ok (AliasMap.Native local domain)
      end
  | None =>
      match strip_prefix "identity:" raw with
      | Some b64 =>
          key ← map_err (λ e, "bad identity base64: " +:+ e) (B64.decode b64);
          if bool_decide (key = []) then Err "identity target key is empty"%string else Ok (AliasMap.Identity key)
      | None => Err "target must be native:<local>@<domain> or identity:<b64>"%string
      end
  end.
Definition decode_seed (b64 : string) : result string bytes :=
  bs ← map_err (λ e, "bad dkim_seed_b64: " +:+ e) (B64.decode b64);
  if (length bs =? 32)%nat then Ok bs else Err "dkim_seed_b64 must decode to exactly 32 bytes"%string.
Definition is_true (v : string) : bool :=
  bool_decide (to_ascii_lowercase (trim v) ∈ ["true"; "1"; "yes"; "on"]%string).

(** ** Requests and responses *)

Record AdminRequest := { method : string; path : string; r_token : option string; body : bytes; now_ms : Z }.
Record AdminResponse := { status : Z; resp_body : string }.
Definition ok (b : string) : AdminResponse := {| status := 200; resp_body := b |}.
Definition created (b : string) : AdminResponse := {| status := 201; resp_body := b |}.
Definition err (s : Z) (message : string) : AdminResponse :=
  {| status := s; resp_body := dq "{'ok':false,'error':" +:+ json_str message +:+ "}" |}.
Definition reason (r : AdminResponse) : string :=
  if status r =? 200 then "OK"
  else if status r =? 201 then "Created"
  else if status r =? 400 then "Bad Request"
  else if status r =? 401 then "Unauthorized"
  else if status r =? 404 then "Not Found"
  else if status r =? 405 then "Method Not Allowed"
  else if status r =? 409 then "Conflict"
  else "Internal Server Error".

(** ** The API *)

Import MultiDomain.
Section api.
Context `{DC : DkimCrypto, DS : !DkimSeed, KD : KotvaContentId, HI : HashMapIter, SD : StrDebug}.
Local Notation Form := (gmap string string).
Local Notation Gateway := MultiDomainGateway.

Definition alias_error_text (e : AliasAllocator.AliasError) : string :=
  match e with
  | AliasAllocator.InvalidLocalPart s => "vanity local-part " +:+ str_debug s +:+ " is empty, over-length, or contains a disallowed character"
  | AliasAllocator.ContainsDot s =>
      "vanity local-part " +:+ str_debug s +:+ " contains a '.' — dotted local-parts are reserved for forwarded addresses"
  | AliasAllocator.Taken s => "vanity local-part " +:+ str_debug s +:+ " is already taken by another identity on this gateway"
  | AliasAllocator.ReservedCollision s =>
      "vanity local-part " +:+ str_debug s +:+ " collides with the reserved auto-derived (key-derived) namespace"
  | AliasAllocator.ShadowsDirectoryIdentity s =>
      "vanity local-part " +:+ str_debug s +:+ " would shadow an existing directory identity on this gateway"
  | AliasAllocator.InvalidGatewayDomain s => "gateway domain " +:+ str_debug s +:+ " is not a valid DNS domain"
  end.
Definition md_error_text (e : MultiDomainError) : string :=
  match e with
  | InvalidDomain s => str_debug s +:+ " is not a valid DNS domain"
  | DomainExists s => "domain " +:+ str_debug s +:+ " is already served by this gateway"
  | NoSuchDomain s => "domain " +:+ str_debug s +:+ " is not served by this gateway"
  | Alias e => alias_error_text e
  | BadKey s => "invalid key material: " +:+ s
  end.
Definition map_md_err (e : MultiDomainError) : AdminResponse :=
  err (match e with InvalidDomain _ => 400 | DomainExists _ => 409 | NoSuchDomain _ => 404 | Alias _ => 409 | BadKey _ => 400 end)
    (md_error_text e).

(** What the operating system's generator gives: a DKIM seed, and the draws of a
    random alias. *)
Record Ambient := { fresh_seed : bytes; draws : list bytes }.
Record AdminApi := { meter : UsageMeter; auth : AdminAuth }.
(** An answer, and the gateway left.  No answer when the thread panics, or while the
    generator draws tokens in use. *)
Definition Answer : Type := option AdminResponse * Gateway.

Definition list_domains (g : Gateway) : Answer :=
  (Some (ok (dq "{'ok':true,'domains':[" +:+ join "," (json_str <$> domains g) +:+ "]}")), g).
Definition domain_created (seed : bytes) (t : DomainTenant) : AdminResponse :=
  created (dq "{'ok':true,'domain':" +:+ json_str (domain t) +:+ dq ",'selector':" +:+ json_str (Dkim.dk_selector (dkim t)) +:+
           dq ",'dkim_public':" +:+ json_str (Dkim.public_p_tag (dkim t)) +:+ dq ",'dkim_seed_b64':" +:+ json_str (B64.encode seed) +:+ "}").
Definition add_domain (amb : Ambient) (form : Form) (g : Gateway) : Answer :=
  match field "domain" form with
  | None => (Some (err 400 "missing domain"), g)
  | Some d =>
      let selector := default "gw1"%string (field "selector" form) in
      match transpose (decode_seed <$> field "dkim_seed_b64" form) with
      | Err e => (Some (err 400 e), g)
      | Ok seed =>
          match parse_quota form with
          | Err e => (Some (err 400 e), g)
          | Ok quota =>
              match MultiDomain.add_domain d seed (fresh_seed amb) selector g with
              | (Err e, g) => (Some (map_md_err e), g)
              | (Ok used_seed, g) =>
                  let g := match quota with Some q => (set_domain_quota d q g).2 | None => g end in
                  (domain_created used_seed <$> tenant d g, g)
              end
          end
      end
  end.
Definition domain_shown (t : DomainTenant) : AdminResponse :=
  ok (dq "{'ok':true,'domain':" +:+ json_str (domain t) +:+ dq ",'selector':" +:+ json_str (Dkim.dk_selector (dkim t)) +:+
      dq ",'dkim_public':" +:+ json_str (Dkim.public_p_tag (dkim t)) +:+
      dq ",'recipients':" +:+ u64_to_string (Z.of_nat (recipient_count t)) +:+
      dq ",'quota_messages':" +:+ u64_to_string (Admission.hard_cap_messages (quota t)) +:+
      dq ",'quota_bytes':" +:+ u64_to_string (Admission.hard_cap_bytes (quota t)) +:+
      dq ",'used_messages':" +:+ u64_to_string (Quota.messages (tenant_usage t)) +:+
      dq ",'used_bytes':" +:+ u64_to_string (Quota.u_bytes (tenant_usage t)) +:+ "}").
Definition get_domain (d : string) (g : Gateway) : Answer :=
  (Some match tenant d g with None => err 404 "domain not served" | Some t => domain_shown t end, g).
Definition remove_domain (d : string) (g : Gateway) : Answer :=
  let '(was, g) := MultiDomain.remove_domain d g in
  (Some (if was then ok (dq "{'ok':true,'removed':" +:+ json_str d +:+ "}") else err 404 "domain not served"), g).

Definition same_domain (email d : string) : bool :=
  match rsplit_once "@" email with Some (_, dom) => eq_ignore_ascii_case dom d | None => false end.
Definition add_recipient (d : string) (form : Form) (g : Gateway) : Answer :=
  match field "email" form, field "ik_b64" form, field "seal_b64" form with
  | Some email, Some ik, Some seal =>
      if negb (same_domain email d) then (Some (err 400 "email domain does not match path domain"), g)
      else
        match B64.decode ik with
        | Err e => (Some (err 400 ("bad ik_b64: " +:+ e)), g)
        | Ok ik =>
            match B64.decode seal with
            | Err e => (Some (err 400 ("bad seal_b64: " +:+ e)), g)
            | Ok seal_pub =>
                match MultiDomain.add_recipient email {| rk_ik := ik; rk_seal_pub := seal_pub |} g with
                | (Ok _, g) => (Some (created (dq "{'ok':true,'recipient':" +:+ json_str email +:+ "}")), g)
                | (Err e, g) => (Some (map_md_err e), g)
                end
            end
        end
  | _, _, _ => (Some (err 400 "missing email/ik_b64/seal_b64"), g)
  end.
(** The domain of the path is not looked at ([let _ = d;]). *)
Definition remove_recipient (d : string) (form : Form) (g : Gateway) : Answer :=
  match field "email" form with
  | None => (Some (err 400 "missing email"), g)
  | Some email =>
      match MultiDomain.remove_recipient email g with
      | (Ok true, g) => (Some (ok (dq "{'ok':true,'removed':" +:+ json_str email +:+ "}")), g)
      | (Ok false, g) => (Some (err 404 "recipient not found"), g)
      | (Err e, g) => (Some (map_md_err e), g)
      end
  end.

Definition allocate_vanity (d : string) (form : Form) (g : Gateway) : Answer :=
  match field "key_b64" form, field "local_part" form with
  | Some key_b64, Some local =>
      match B64.decode key_b64 with
      | Err e => (Some (err 400 ("bad key_b64: " +:+ e)), g)
      | Ok key =>
          match MultiDomain.allocate_vanity d key local g with
          | (Ok addr, g) => (Some (created (dq "{'ok':true,'alias':" +:+ json_str addr +:+ "}")), g)
          | (Err e, g) => (Some (map_md_err e), g)
          end
      end
  | _, _ => (Some (err 400 "missing key_b64/local_part"), g)
  end.
Definition revoke_vanity (d : string) (form : Form) (g : Gateway) : Answer :=
  match field "key_b64" form with
  | None => (Some (err 400 "missing key_b64"), g)
  | Some key_b64 =>
      match B64.decode key_b64 with
      | Err e => (Some (err 400 ("bad key_b64: " +:+ e)), g)
      | Ok key =>
          match MultiDomain.revoke_vanity d key g with
          | (Ok (Some addr), g) => (Some (ok (dq "{'ok':true,'revoked':" +:+ json_str addr +:+ "}")), g)
          | (Ok None, g) => (Some (err 404 "key holds no vanity on this domain"), g)
          | (Err e, g) => (Some (map_md_err e), g)
          end
      end
  end.
Definition parse_ttl (v : option string) : option (option Z) :=
  match v with
  | Some v => Some <$> MtaSts.parse_u64 v
  | None => Some None
  end.
Definition mint_random (amb : Ambient) (d : string) (form : Form) (now : Z) (g : Gateway) : Answer :=
  match field "target" form with
  | None => (Some (err 400 "missing target"), g)
  | Some target_raw =>
      match parse_target target_raw with
      | Err e => (Some (err 400 e), g)
      | Ok target =>
          match parse_ttl (field "ttl_ms" form) with
          | None => (Some (err 400 "ttl_ms must be a non-negative integer"), g)
          | Some ttl_ms =>
              let one_time := match field "one_time" form with Some v => is_true v | None => false end in
              match mint_random_alias d (draws amb) target (field "correspondent" form) ttl_ms one_time now g with
              | (Ok addr, g) => ((λ a, created (dq "{'ok':true,'alias':" +:+ json_str a +:+ "}")) <$> addr, g)
              | (Err e, g) => (Some (map_md_err e), g)
              end
          end
      end
  end.
Definition burn_random (d token : string) (g : Gateway) : Answer :=
  match burn_random_alias d token g with
  | (Ok true, g) => (Some (ok (dq "{'ok':true,'burned':" +:+ json_str token +:+ "}")), g)
  | (Ok false, g) => (Some (err 404 "alias token not found"), g)
  | (Err e, g) => (Some (map_md_err e), g)
  end.

Definition global_scope (form : Form) : bool :=
  match field "scope" form with Some s => eq_ignore_ascii_case s "global" | None => false end.
Definition block (d : string) (form : Form) (g : Gateway) : Answer :=
  match field "sender" form with
  | None => (Some (err 400 "missing sender"), g)
  | Some sender =>
      if global_scope form then
        (Some (ok (dq "{'ok':true,'blocked':" +:+ json_str sender +:+ dq ",'scope':'global'}")), block_sender_global sender g)
      else
        match block_sender d sender g with
        | (Ok _, g) => (Some (ok (dq "{'ok':true,'blocked':" +:+ json_str sender +:+ "}")), g)
        | (Err e, g) => (Some (map_md_err e), g)
        end
  end.
Definition unblock (d : string) (form : Form) (g : Gateway) : Answer :=
  match field "sender" form with
  | None => (Some (err 400 "missing sender"), g)
  | Some sender =>
      if global_scope form then
        let '(was, g) := unblock_sender_global sender g in
        (Some (ok (dq "{'ok':true,'unblocked':" +:+ bool_text was +:+ "}")), g)
      else
        match unblock_sender d sender g with
        | (Ok was, g) => (Some (ok (dq "{'ok':true,'unblocked':" +:+ bool_text was +:+ "}")), g)
        | (Err e, g) => (Some (map_md_err e), g)
        end
  end.
Definition suspend (d : string) (form : Form) (g : Gateway) : Answer :=
  match field "user" form with
  | None => (Some (err 400 "missing user"), g)
  | Some user =>
      match suspend_user d user g with
      | (Ok _, g) => (Some (ok (dq "{'ok':true,'suspended':" +:+ json_str user +:+ "}")), g)
      | (Err e, g) => (Some (map_md_err e), g)
      end
  end.
Definition unsuspend (d : string) (form : Form) (g : Gateway) : Answer :=
  match field "user" form with
  | None => (Some (err 400 "missing user"), g)
  | Some user =>
      match unsuspend_user d user g with
      | (Ok was, g) => (Some (ok (dq "{'ok':true,'reinstated':" +:+ bool_text was +:+ "}")), g)
      | (Err e, g) => (Some (map_md_err e), g)
      end
  end.
Definition set_quota (d : string) (form : Form) (g : Gateway) : Answer :=
  match parse_quota form with
  | Err e => (Some (err 400 e), g)
  | Ok q =>
      let q := default (Quota.Quota_messages 0 0) q in
      match set_domain_quota d q g with
      | (Ok _, g) =>
          (Some (ok (dq "{'ok':true,'domain':" +:+ json_str d +:+
             dq ",'quota_messages':" +:+ u64_to_string (Admission.hard_cap_messages q) +:+
             dq ",'quota_bytes':" +:+ u64_to_string (Admission.hard_cap_bytes q) +:+ "}")), g)
      | (Err e, g) => (Some (map_md_err e), g)
      end
  end.
Definition usage_item (du : string * DomainUsage) : string :=
  dq "{'domain':" +:+ json_str du.1 +:+ dq ",'inbound':" +:+ u64_to_string (inbound du.2) +:+
  dq ",'outbound':" +:+ u64_to_string (outbound du.2) +:+ dq ",'messages':" +:+ u64_to_string (du_messages du.2) +:+ "}".
Definition usage (api : AdminApi) (g : Gateway) : Answer :=
  (Some (ok (dq "{'ok':true,'usage':[" +:+ join "," (usage_item <$> snapshot (meter api)) +:+ "]}")), g).

(** ** Dispatch *)

Definition eqs (a b : string) : bool := bool_decide (a = b).
Definition is_known_path (rest : list string) : bool :=
  match rest with
  | [a] => eqs a "health" || eqs a "domains" || eqs a "usage"
  | [a; _] => eqs a "domains"
  | [a; _; b] => eqs a "domains" && (eqs b "recipients" || eqs b "blocklist" || eqs b "suspend" || eqs b "quota")
  | [a; _; b; c] => eqs a "domains" && eqs b "aliases" && (eqs c "vanity" || eqs c "random")
  | [a; _; b; c; _] => eqs a "domains" && eqs b "aliases" && eqs c "random"
  | _ => false
  end.
Definition no_route (rest : list string) (g : Gateway) : Answer :=
  (Some (if is_known_path rest then err 405 "method not allowed" else err 404 "unknown path"), g).
Definition dispatch (api : AdminApi) (amb : Ambient) (m : string) (rest : list string) (form : Form) (now : Z) (g : Gateway) : Answer :=
  match rest with
  | [a] =>
      if eqs a "health" && eqs m "GET" then (Some (ok (dq "{'ok':true,'status':'live'}")), g)
      else if eqs a "domains" && eqs m "GET" then list_domains g
      else if eqs a "domains" && eqs m "POST" then add_domain amb form g
      else if eqs a "usage" && eqs m "GET" then usage api g
      else no_route rest g
  | [a; d] =>
      if eqs a "domains" && eqs m "GET" then get_domain d g
      else if eqs a "domains" && eqs m "DELETE" then remove_domain d g
      else no_route rest g
  | [a; d; b] =>
      if negb (eqs a "domains") then no_route rest g
      else if eqs b "recipients" && eqs m "POST" then add_recipient d form g
      else if eqs b "recipients" && eqs m "DELETE" then remove_recipient d form g
      else if eqs b "blocklist" && eqs m "POST" then block d form g
      else if eqs b "blocklist" && eqs m "DELETE" then unblock d form g
      else if eqs b "suspend" && eqs m "POST" then suspend d form g
      else if eqs b "suspend" && eqs m "DELETE" then unsuspend d form g
      else if eqs b "quota" && eqs m "PUT" then set_quota d form g
      else no_route rest g
  | [a; d; b; c] =>
      if negb (eqs a "domains" && eqs b "aliases") then no_route rest g
      else if eqs c "vanity" && eqs m "POST" then allocate_vanity d form g
      else if eqs c "vanity" && eqs m "DELETE" then revoke_vanity d form g
      else if eqs c "random" && eqs m "POST" then mint_random amb d form now g
      else no_route rest g
  | [a; d; b; c; tok] =>
      if eqs a "domains" && eqs b "aliases" && eqs c "random" && eqs m "DELETE" then burn_random d tok g
      else no_route rest g
  | _ => no_route rest g
  end.
Definition segments (p : string) : list string := List.filter (λ s, negb (eqs s EmptyString)) (split_char "/" p).
Definition handle (api : AdminApi) (amb : Ambient) (req : AdminRequest) (g : Gateway) : Answer :=
  if negb (authorize (r_token req) (auth api)) then (Some (err 401 "unauthorized"), g)
  else
    match segments (path req) with
    | v :: rest =>
        if eqs v "v1" then dispatch api amb (method req) rest (parse_form (body req)) (now_ms req) g
        else (Some (err 404 "unknown path"), g)
    | [] => (Some (err 404 "unknown path"), g)
    end.

(** ** The transport *)

Inductive ParseError := Io (e : LegacyNet.IoError) | Malformed (msg : string).
Definition parse_error (e : LegacyNet.IoError) : ParseError :=
  match e with
  | LegacyNet.ProtocolLineTooLong => Malformed "request line/header too long"
  | e => Io e
  end.
(** The reader: its buffer and the reads to come. *)
Record Reader := { buf : bytes; reads : list LegacyNet.ReadResult }.
Definition read_line_capped (max : Z) (r : Reader) : result ParseError bytes * Reader :=
  let '(line, b, s) := LegacyNet.read_line_capped max (buf r) (LegacyNet.Tls (reads r)) in
  (map_err parse_error line, {| buf := b; reads := LegacyNet.pending s |}).
Fixpoint read_rest (n : nat) (acc : bytes) (rs : list LegacyNet.ReadResult) : result ParseError bytes * Reader :=
  match rs with
  | [] => (Err (Io LegacyNet.UnexpectedEof), {| buf := []; reads := [] |})
  | LegacyNet.Interrupted :: rs => read_rest n acc rs
  | LegacyNet.Failed e :: rs => (Err (Io e), {| buf := []; reads := rs |})
  | LegacyNet.Got b bs :: rs =>
      if (n <=? length (b :: bs))%nat then (Ok (acc ++ take n (b :: bs)), {| buf := drop n (b :: bs); reads := rs |})
      else read_rest (n - length (b :: bs)) (acc ++ b :: bs) rs
  end.
(** [reader.read_exact(&mut body)]. *)
Definition read_exact (n : nat) (r : Reader) : result ParseError bytes * Reader :=
  if (n <=? length (buf r))%nat then (Ok (take n (buf r)), {| buf := drop n (buf r); reads := reads r |})
  else read_rest (n - length (buf r)) (buf r) (reads r).

(** The variables of the header loop. *)
Record Head := { h_token : option string; content_length : Z }.
Definition trim_eol (s : string) : string := String.string_of_list_byte (LegacyNet.strip_eol (as_bytes s)).
Definition bearer (value : string) : option string :=
  trim <$> match strip_prefix "Bearer " value with Some t => Some t | None => strip_prefix "bearer " value end.
Definition header (trimmed : string) (h : Head) : result ParseError Head :=
  match split_once ":" trimmed with
  | None => Ok h
  | Some (name, value) =>
      let name := to_ascii_lowercase (trim name) in
      let value := trim value in
      if eqs name "authorization" then Ok {| h_token := bearer value; content_length := content_length h |}
      else if eqs name "content-length" then
        n ← ok_or (Malformed "bad Content-Length") (MtaSts.parse_u64 value);
        if MAX_BODY_BYTES <? n then Err (Malformed "request body too large")
        else Ok {| h_token := h_token h; content_length := n |}
      else Ok h
  end.
(** [None] when the fuel runs out. *)
Fixpoint read_headers (fuel : nat) (budget : Z) (h : Head) (r : Reader) : option (result ParseError Head * Reader) :=
  match fuel with
  | O => None
  | S fuel =>
      match read_line_capped budget r with
      | (Err e, r) => Some (Err e, r)
      | (Ok [], r) => Some (Err (Malformed "headers truncated (no blank line)"), r)
      | (Ok hline, r) =>
          let budget := Z.max 0 (budget - Z.of_nat (length hline)) in
          let trimmed := trim_eol (from_utf8_lossy hline) in
          if eqs trimmed EmptyString then Some (Ok h, r)
          else match header trimmed h with
               | Err e => Some (Err e, r)
               | Ok h => read_headers fuel budget h r
               end
      end
  end.
(** A line takes at least one byte. *)
Definition head_fuel (r : Reader) : nat := S (length (buf r ++ LegacyNet.received (reads r))).
Definition request_line (line : bytes) : result ParseError (string * string) :=
  match split_whitespace (from_utf8_lossy line) with
  | [] => Err (Malformed "empty request line")
  | [_] => Err (Malformed "missing request target")
  | m :: target :: _ => Ok (to_ascii_uppercase m, match split_once "?" target with Some (p, _) => p | None => target end)
  end.
Definition read_body (m p : string) (now : Z) (h : Head) (r : Reader) : result ParseError (option AdminRequest) * Reader :=
  match read_exact (Z.to_nat (content_length h)) r with
  | (Err e, r) => (Err e, r)
  | (Ok b, r) => (Ok (Some {| method := m; path := p; r_token := h_token h; body := b; now_ms := now |}), r)
  end.
Definition read_request (now : Z) (r : Reader) : option (result ParseError (option AdminRequest) * Reader) :=
  match read_line_capped MAX_HEAD_BYTES r with
  | (Err e, r) => Some (Err e, r)
  | (Ok [], r) => Some (Ok None, r)
  | (Ok line, r) =>
      match request_line line with
      | Err e => Some (Err e, r)
      | Ok (m, p) =>
          '(h, r) ← read_headers (head_fuel r) (Z.max 0 (MAX_HEAD_BYTES - Z.of_nat (length line)))
                      {| h_token := None; content_length := 0 |} r;
          Some (match h with Err e => (Err e, r) | Ok h => read_body m p now h r end)
      end
  end.

Definition crlf : string := String "013" (String "010" EmptyString).
Definition response_head (r : AdminResponse) : string :=
  "HTTP/1.1 " +:+ u64_to_string (status r) +:+ " " +:+ reason r +:+ crlf +:+ "Content-Type: application/json" +:+ crlf +:+
  "Content-Length: " +:+ u64_to_string (str_len (resp_body r)) +:+ crlf +:+ "Connection: close" +:+ crlf +:+ crlf.
(** What the connection leaves: what was written, and the gateway.  [None] when the
    thread panics or never answers. *)
Definition handle_connection (api : AdminApi) (amb : Ambient) (now : Z) (handshake : option (list LegacyNet.ReadResult)) (g : Gateway)
    : option (result LegacyNet.IoError (list string) * Gateway) :=
  match handshake with
  | None => Some (Err LegacyNet.HandshakeFailed, g)
  | Some rs =>
      '(req, _) ← read_request now {| buf := []; reads := rs |};
      match req with
      | Err (Io e) => Some (Err e, g)
      | Ok None => Some (Ok [], g)
      | Err (Malformed msg) => let r := err 400 msg in Some (Ok [response_head r; resp_body r], g)
      | Ok (Some req) => let '(r, g) := handle api amb req g in r ← r; Some (Ok [response_head r; resp_body r], g)
      end
  end.
End api.
(** The accept loop is the one of the access servers. *)
Definition serve_until : list Listener.Round → Listener.Server → bool * Listener.Server := Listener.serve_until.
End Admin.
