(* ===== verification/AdminProofs.v ===== *)
(** * What the admin API promises

    Theorems on the definitions of [Admin]: the token is compared exactly and decides
    everything; a request changes only the domain it names, but for the requests that
    are shown to reach further; texts in responses are read back; a request is parsed the same however it arrives. *)

From Stdlib Require Import ZArith Lia Ascii String.
From stdpp Require Import base decidable option sets list strings gmap.
From S2P Require Import Prelude RustStr RustText B64 Kotva Provenance Dkim Directory AliasMap Admission Quota AliasAllocator MultiDomain MtaSts LegacyNet Admin.
Local Open Scope Z_scope.

Module AdminProofs.
Import Admin MultiDomain.

(** ** The token *)

Lemma ct_diff_zero a b d : length a = length b → ct_diff a b d = 0 ↔ d = 0 ∧ a = b.
Proof.
  revert b d. induction a as [|x a IH]; intros [|y b] d H; try done; [by cbn; naive_solver|].
  cbn [ct_diff]. rewrite IH by (cbn in H; congruence). rewrite Z.lor_eq_0_iff, Z.lxor_eq_0_iff. split.
  - intros [[-> E%b2z_inj] ->]. by subst.
  - by intros [-> [= -> ->]].
Qed.
Lemma ct_eq_spec a b : ct_eq a b = bool_decide (a = b).
Proof.
  unfold ct_eq. destruct (Nat.eqb_spec (length a) (length b)) as [E|E].
  - apply Bool.eq_iff_eq_true. rewrite Z.eqb_eq, bool_decide_eq_true, ct_diff_zero by done. naive_solver.
  - symmetry. apply bool_decide_eq_false. by intros ->.
Qed.
Lemma authorize_spec p a : authorize p a = true ↔ ∃ t, token a = Some t ∧ p = Some t.
Proof.
  unfold authorize. destruct (token a) as [t|]; [|naive_solver]. destruct p as [q|]; [|naive_solver].
  rewrite ct_eq_spec, bool_decide_eq_true. split.
  - intros E. exists t. split; [done|]. f_equal. rewrite <- (String.string_of_list_byte_of_string q), <- E.
    apply String.string_of_list_byte_of_string.
  - intros (? & [= <-] & [= <-]). done.
Qed.

Section proofs.
Context `{DC : DkimCrypto, DS : !DkimSeed, KD : KotvaContentId, HI : HashMapIter, SD : StrDebug}.
Implicit Types g : MultiDomainGateway.

(** The constant-time comparison is equality, so a request is let in exactly when it
    shows the configured token: never when none is configured or the configured one is
    blank, and what is not let in gets 401 and leaves the gateway as it was. *)
Theorem token_decides t api amb req g :
  auth api = with_token t →
  (authorize (r_token req) (auth api) = true ↔ trim t ≠ EmptyString ∧ r_token req = Some t) ∧
  (authorize (r_token req) (auth api) = false → handle api amb req g = (Some (err 401 "unauthorized"), g)) ∧
  authorize (r_token req) disabled = false.
Proof.
  intros E. rewrite authorize_spec, E. split_and!; [|intros H; unfold handle; by rewrite E, H|done].
  unfold with_token. case_bool_decide; cbn [token]; naive_solver.
Qed.

(** ** One domain per request *)

(** The domain a request names: in its path, or for a new domain in its form. *)
Definition named (rest : list string) (form : gmap string string) : option string :=
  match rest with
  | [_] => field "domain" form
  | _ :: d :: _ => Some d
  | [] => None
  end.
(** The requests that reach further: a blocklist entry of global scope, and the removal
    of a recipient. *)
Definition far_reaching (m : string) (rest : list string) (form : gmap string string) : bool :=
  match rest with
  | [_; _; b] => (eqs b "blocklist" && global_scope form) || (eqs b "recipients" && eqs m "DELETE")
  | _ => false
  end.
Definition unchanged (d : string) (g g' : MultiDomainGateway) : Prop :=
  tenants g' !! d = tenants g !! d ∧ global_blocked g' = global_blocked g ∧ default_quota g' = default_quota g.

Lemma unchanged_refl d g : unchanged d g g.
Proof using. done. Qed.
Lemma unchanged_op d o g : op_domain o ≠ Some d → is_global o = false → unchanged d g (run_op g o).
Proof using.
  intros Hd Hg. destruct (run_op_effect o g) as (H1 & H2 & H3 & H4). split_and!; [|rewrite H2; by apply H4|done].
  rewrite H1. by rewrite decide_False.
Qed.
Lemma unchanged_trans d g1 g2 g3 : unchanged d g1 g2 → unchanged d g2 g3 → unchanged d g1 g3.
Proof using. unfold unchanged. intros (-> & -> & ->) (H1 & H2 & H3). done. Qed.

(** *** The recipient's domain *)

Lemma white_space_bytes : Forall (Forall (λ b, ¬ (33 ≤ b2z b ≤ 126))) white_space ∧ Forall (Forall (λ b, ¬ (33 ≤ b2z b ≤ 126))) (reverse <$> white_space).
Proof using. split; apply (bool_decide_unpack _); vm_compute; exact I. Qed.
Lemma strip_while_stop fuel ps xs b ys :
  Forall (Forall (λ b, ¬ (33 ≤ b2z b ≤ 126))) ps → 33 ≤ b2z b ≤ 126 →
  ∃ xs', strip_while fuel ps (xs ++ b :: ys) = xs' ++ b :: ys.
Proof using.
  intros Hps Hb. revert xs. induction fuel as [|fuel IH]; intros xs; cbn [strip_while]; [by exists xs|].
  destruct (strip_any ps (xs ++ b :: ys)) as [r|] eqn:E; [|by exists xs].
  apply strip_any_Some in E as (p & Hp & E). apply (proj1 (Forall_forall _ _) Hps) in Hp.
  assert (∃ xs', r = xs' ++ b :: ys) as [xs' ->]; [|apply IH].
  clear -Hp E Hb. revert p Hp E. induction xs as [|x xs IH]; intros [|c p] Hp E; cbn [app] in E.
  - by exists [].
  - injection E as <- _. apply Forall_cons in Hp as [? _]. done.
  - by exists (x :: xs).
  - injection E as <- E. apply Forall_cons in Hp as [_ Hp]. by apply (IH p).
Qed.
Lemma trim_keeps_tail l c d :
  printable c = true → str_all printable d = true → d ≠ EmptyString → ∃ l', trim (l +:+ String c d) = l' +:+ String c d.
Proof using.
  intros Hc Hd Hne. destruct white_space_bytes as [W1 _]. destruct white_space_heads as [_ W2].
  pose proof (printable_byte c Hc) as Hcb. pose proof (printable_bytes d Hd) as Hdb.
  unfold trim, trim_bytes. rewrite as_bytes_app, as_bytes_cons.
  destruct (strip_while_stop (length (as_bytes l ++ byte_of_ascii c :: as_bytes d)) white_space (as_bytes l) (byte_of_ascii c) (as_bytes d) W1) as [xs ->]; [done|].
  set (w := xs ++ byte_of_ascii c :: as_bytes d).
  assert (∃ y ys, reverse w = y :: ys ∧ 33 ≤ b2z y ≤ 126) as (y & ys & E & Hy).
  { unfold w. destruct d as [|e d]; [done|].
    assert (∃ z zs, reverse (as_bytes (String e d)) = z :: zs ∧ 33 ≤ b2z z ≤ 126) as (z & zs & Ez & Hz).
    { destruct (reverse (as_bytes (String e d))) as [|z zs] eqn:Er.
      - apply (f_equal reverse) in Er. rewrite reverse_involutive, as_bytes_cons in Er. done.
      - exists z, zs. split; [done|]. apply Forall_reverse in Hdb. rewrite Er in Hdb. by apply Forall_cons in Hdb as [? _]. }
    exists z. eexists. split; [|done]. rewrite reverse_app, reverse_cons, Ez. cbn [app]. by rewrite <- !app_assoc. }
  cbv zeta. rewrite E. rewrite strip_while_head by done. rewrite <- E, reverse_involutive.
  exists (String.string_of_list_byte xs). unfold w. rewrite <- (String.string_of_list_byte_of_string (_ +:+ _)).
  by rewrite as_bytes_app, as_bytes_cons, String.list_byte_of_string_of_list_byte.
Qed.
Lemma trim_start_keeps_tail x l c d : is_char x c = false → ∃ l', trim_start_matches x (l +:+ String c d) = l' +:+ String c d.
Proof using.
  intros Hx. induction l as [|e l IH].
  - exists EmptyString. rewrite str_app_nil_l. cbn [trim_start_matches]. by rewrite Hx.
  - rewrite str_app_cons. cbn [trim_start_matches]. destruct (is_char x e); [done|]. exists (String e l). by rewrite str_app_cons.
Qed.
Lemma trim_end_keeps x a d : trim_end_matches x d = d → d ≠ EmptyString → trim_end_matches x (a +:+ d) = a +:+ d.
Proof using.
  intros Hd Hne. induction a as [|e a IH]; [by rewrite str_app_nil_l|]. rewrite str_app_cons. cbn [trim_end_matches]. rewrite IH.
  destruct a; [rewrite str_app_nil_l|rewrite str_app_cons]; by destruct d.
Qed.
Lemma addr_all_lower s : str_all AliasAllocator.addr_char (to_ascii_lowercase s) = str_all AliasAllocator.addr_char s.
Proof using.
  assert (∀ c, AliasAllocator.addr_char (ascii_lower c) = AliasAllocator.addr_char c) as Hc by (intros [[] [] [] [] [] [] [] []]; reflexivity).
  induction s as [|c s IH]; [done|]. cbn [to_ascii_lowercase str_all]. by rewrite Hc, IH.
Qed.
(** The address as [MultiDomain] reads it has the domain the form check compared. *)
Lemma split_address_domain email d l0 dom local d' :
  addr_text d → rsplit_once "@" email = Some (l0, dom) → to_ascii_lowercase dom = to_ascii_lowercase d →
  split_address email = Some (local, d') → d' = to_ascii_lowercase d.
Proof using.
  intros Hd E Hlow H.
  assert (addr_text dom) as Hdom.
  { destruct Hd as [H1 H2]. split; [|destruct dom; [by destruct d|done]]. by rewrite <- addr_all_lower, Hlow, addr_all_lower. }
  apply rsplit_once_eq in E as ->. unfold split_address in H.
  destruct (trim_keeps_tail l0 "@" dom) as [l1 E1]; [done|by apply addr_text_printable|apply Hdom|]. rewrite E1 in H.
  destruct (trim_start_keeps_tail "<" l1 "@" dom) as [l2 E2]; [done|]. rewrite E2 in H.
  assert (trim_end_matches ">" (l2 +:+ String "@" dom) = l2 +:+ String "@" dom) as E3.
  { apply trim_end_keeps; [|done]. apply trim_end_none. unfold contains_char. cbn [str_any].
    pose proof (addr_text_no ">" dom Hdom eq_refl) as Hn. unfold contains_char in Hn. by rewrite Hn. }
  rewrite E3 in H. destruct (trim_keeps_tail l2 "@" dom) as [l3 E4]; [done|by apply addr_text_printable|apply Hdom|]. rewrite E4 in H.
  rewrite rsplit_once_app in H by by apply addr_text_no. cbn [mbind option_bind] in H. case_match; [done|].
  assert (∀ a b c e : string, Some (a, b) = Some (c, e) → b = e) as Hinj by congruence. apply Hinj in H. by rewrite <- H.
Qed.

(** *** Handler by handler *)

Lemma unchanged_run d o g g' : run_op g o = g' → op_domain o ≠ Some d → is_global o = false → unchanged d g g'.
Proof. intros <-. apply unchanged_op. Qed.
Ltac confined o :=
  eapply (unchanged_run _ o);
  [cbn [run_op]; match goal with H : _ = (_, _) |- _ => rewrite H; reflexivity end|cbn [op_domain]; congruence|reflexivity].
Ltac handler := cbn [snd]; try apply unchanged_refl.

Lemma add_domain_confined amb form g d :
  (normal <$> field "domain" form) ≠ Some d → unchanged d g (Admin.add_domain amb form g).2.
Proof.
  intros Hd. unfold Admin.add_domain. destruct (field "domain" form) as [raw|]; [|handler]. cbn in Hd.
  destruct (transpose _) as [seed|]; [|handler]. destruct (parse_quota form) as [q|]; [|handler].
  destruct (MultiDomain.add_domain raw seed _ _ g) as [[used|e] g1] eqn:E; handler.
  2: confined (AddDomain raw seed (fresh_seed amb) (default "gw1"%string (field "selector" form))).
  apply (unchanged_trans d g g1).
  - confined (AddDomain raw seed (fresh_seed amb) (default "gw1"%string (field "selector" form))).
  - destruct q as [q|]; [|handler]. apply (unchanged_op d (SetQuota raw q)); [cbn; congruence|done].
Qed.
Lemma remove_domain_confined raw g d : normal raw ≠ d → unchanged d g (Admin.remove_domain raw g).2.
Proof.
  intros Hd. unfold Admin.remove_domain. destruct (MultiDomain.remove_domain raw g) as [was g1] eqn:E. handler. confined (RemoveDomain raw).
Qed.
Lemma add_recipient_confined raw form g d :
  addr_text raw → normal raw ≠ d → unchanged d g (Admin.add_recipient raw form g).2.
Proof.
  intros Hr Hd. unfold Admin.add_recipient. destruct (field "email" form) as [email|]; [|handler].
  destruct (field "ik_b64" form) as [ik|]; [|handler]. destruct (field "seal_b64" form) as [seal|]; [|handler].
  destruct (same_domain email raw) eqn:Es; handler. destruct (B64.decode ik) as [ikb|]; [|handler].
  destruct (B64.decode seal) as [sb|]; [|handler]. set (key := {| rk_ik := ikb; rk_seal_pub := sb |}).
  assert (unchanged d g (run_op g (AddRecipient email key))) as H.
  { apply unchanged_op; [|done]. cbn [op_domain]. destruct (split_address email) as [[local d']|] eqn:Ea; [|done].
    unfold same_domain in Es. destruct (rsplit_once "@" email) as [[l0 dom]|] eqn:Er; [|done].
    unfold eq_ignore_ascii_case in Es. apply bool_decide_eq_true in Es.
    rewrite (split_address_domain email raw l0 dom local d' Hr Er Es Ea). cbn [mbind option_bind]. intros [= E]. apply Hd. rewrite <- E.
    unfold normal. by rewrite trim_lower, to_ascii_lowercase_idem. }
  cbn [run_op] in H. destruct (MultiDomain.add_recipient email key g) as [[[]|e] g1]; exact H.
Qed.
Lemma allocate_vanity_confined raw form g d : normal raw ≠ d → unchanged d g (Admin.allocate_vanity raw form g).2.
Proof.
  intros Hd. unfold Admin.allocate_vanity. destruct (field "key_b64" form) as [k|]; [|handler]. destruct (field "local_part" form) as [l|]; [|handler].
  destruct (B64.decode k) as [key|]; [|handler]. destruct (MultiDomain.allocate_vanity raw key l g) as [[a|e] g1] eqn:E; handler; confined (AllocateVanity raw key l).
Qed.
Lemma revoke_vanity_confined raw form g d : normal raw ≠ d → unchanged d g (Admin.revoke_vanity raw form g).2.
Proof.
  intros Hd. unfold Admin.revoke_vanity. destruct (field "key_b64" form) as [k|]; [|handler].
  destruct (B64.decode k) as [key|]; [|handler]. destruct (MultiDomain.revoke_vanity raw key g) as [[[a|]|e] g1] eqn:E; handler; confined (RevokeVanity raw key).
Qed.
Lemma mint_random_confined amb raw form now g d : normal raw ≠ d → unchanged d g (mint_random amb raw form now g).2.
Proof.
  intros Hd. unfold mint_random. destruct (field "target" form) as [tr|]; [|handler]. destruct (parse_target tr) as [target|]; [|handler].
  destruct (parse_ttl _) as [ttl|]; [|handler]. set (one := match field "one_time" form with Some v => is_true v | None => false end).
  destruct (mint_random_alias raw (draws amb) target (field "correspondent" form) ttl one now g) as [[a|e] g1] eqn:E; handler;
    confined (MintAlias raw (draws amb) target (field "correspondent" form) ttl one now).
Qed.
Lemma burn_random_confined raw tok g d : normal raw ≠ d → unchanged d g (burn_random raw tok g).2.
Proof.
  intros Hd. unfold burn_random. destruct (burn_random_alias raw tok g) as [[[]|e] g1] eqn:E; handler; confined (BurnAlias raw tok).
Qed.
Lemma block_confined raw form g d :
  normal raw ≠ d → global_scope form = false → unchanged d g (block raw form g).2 ∧ unchanged d g (unblock raw form g).2.
Proof.
  intros Hd Hg. unfold block, unblock. rewrite Hg. destruct (field "sender" form) as [sender|]; [|done]. split.
  - destruct (block_sender raw sender g) as [[a|e] g1] eqn:E; handler; confined (BlockSender raw sender).
  - destruct (unblock_sender raw sender g) as [[a|e] g1] eqn:E; handler; confined (UnblockSender raw sender).
Qed.
Lemma suspend_confined raw form g d : normal raw ≠ d → unchanged d g (suspend raw form g).2 ∧ unchanged d g (unsuspend raw form g).2.
Proof.
  intros Hd. unfold suspend, unsuspend. destruct (field "user" form) as [user|]; [|done]. split.
  - destruct (suspend_user raw user g) as [[a|e] g1] eqn:E; handler; confined (SuspendUser raw user).
  - destruct (unsuspend_user raw user g) as [[a|e] g1] eqn:E; handler; confined (UnsuspendUser raw user).
Qed.
Lemma set_quota_confined raw form g d : normal raw ≠ d → unchanged d g (Admin.set_quota raw form g).2.
Proof.
  intros Hd. unfold Admin.set_quota. destruct (parse_quota form) as [q|]; [|handler]. set (q' := default _ q).
  destruct (set_domain_quota raw q' g) as [[a|e] g1] eqn:E; handler; confined (SetQuota raw q').
Qed.

(** For the addition of a recipient, the domain in the path is in the characters of an
    address. *)
Definition addition_well_formed (m : string) (rest : list string) : Prop :=
  match rest with
  | [_; raw; b] => b = "recipients"%string → m = "POST"%string → addr_text raw
  | _ => True
  end.

(** C21: A request changes at most the tenant of the domain it names, in its path or for
    a new domain in its form, as trimmed and lower-cased: every other tenant, the global
    blocklist and the default quota stay as they are.  Exempt are the blocklist entries
    of global scope and the removal of a recipient, which reaches every domain
    ([removal_crosses_tenants]).  For the addition of a recipient alone there is a side
    condition: the domain in the path is not empty and consists of the characters of an
    address (letters, digits and . _ + -).  It is needed: with a closing bracket after
    the domain in the path and in the address the check of the domains passes, and the
    tenant of the domain without the bracket is changed
    ([bracketed_path_crosses_tenants]). *)
Theorem request_confined api amb req g d :
  let rest := tail (segments (path req)) in
  let form := parse_form (body req) in
  far_reaching (method req) rest form = false →
  addition_well_formed (method req) rest →
  (∀ raw, named rest form = Some raw → normal raw ≠ d) →
  unchanged d g (handle api amb req g).2.
Proof.
  intros rest form Hfar Hadd Hn'. unfold handle. destruct (authorize _ _); handler. cbn [negb]. unfold rest in *. clear rest.
  destruct (segments (path req)) as [|v rest]; [handler|]. cbn [tail] in *. destruct (eqs v "v1"); [|handler]. fold form.
  unfold dispatch. destruct rest as [|a [|x [|b [|c [|tok [|]]]]]]; try apply unchanged_refl.
  - destruct (_ && _); handler. destruct (_ && _); handler. destruct (_ && _); [|by destruct (_ && _); handler].
    apply add_domain_confined. cbn [named] in Hn'. destruct (field "domain" form) as [raw|]; [|done]. cbn. intros [= E].
    by destruct (Hn' raw eq_refl).
  - pose proof (Hn' x eq_refl) as Hd. destruct (_ && _); handler. destruct (_ && _); handler. by apply remove_domain_confined.
  - pose proof (Hn' x eq_refl) as Hd. cbn [far_reaching] in Hfar. destruct (eqs a "domains"); handler.
    destruct (eqs b "recipients" && eqs (method req) "POST") eqn:Eb.
    { apply andb_true_iff in Eb as [Eb%bool_decide_eq_true Em%bool_decide_eq_true]. apply add_recipient_confined; [by apply Hadd|done]. }
    clear Eb Hadd.
    destruct (eqs b "recipients" && eqs (method req) "DELETE"); [by rewrite orb_true_r in Hfar|]. rewrite orb_false_r in Hfar.
    destruct (eqs b "blocklist").
    + cbn [andb] in Hfar |- *. destruct (eqs (method req) "POST"); [by apply block_confined|].
      destruct (eqs (method req) "DELETE"); [by apply block_confined|]. clear Hfar.
      rewrite ?andb_false_r. repeat (destruct (eqs b _ && _); [first [by apply suspend_confined|by apply set_quota_confined]|]). handler.
    + clear Hfar. cbn [andb]. destruct (_ && _); [by apply suspend_confined|]. destruct (_ && _); [by apply suspend_confined|].
      destruct (_ && _); [by apply set_quota_confined|]. handler.
  - pose proof (Hn' x eq_refl) as Hd. destruct (negb _); handler. destruct (_ && _); [by apply allocate_vanity_confined|].
    destruct (_ && _); [by apply revoke_vanity_confined|]. destruct (_ && _); [by apply mint_random_confined|]. handler.
  - pose proof (Hn' x eq_refl) as Hd. destruct (_ && _ && _ && _); [by apply burn_random_confined|]. handler.
Qed.

(** Adding a recipient checks that its address is on the domain of the path, with the
    comment that there are no cross-tenant writes.  Removing one does not: under the
    path of any domain, served or not, a recipient of any other is removed. *)
Theorem removal_crosses_tenants d l d' form g t :
  addr_text l → addr_text d' → field "email" form = Some (clean_address l d') →
  tenants g !! to_ascii_lowercase d' = Some t → is_Some (Directory.resolve (directory t) (clean_address l d')) →
  ∃ g', Admin.remove_recipient d form g = (Some (ok (dq "{'ok':true,'removed':" +:+ json_str (clean_address l d') +:+ "}")), g') ∧
    (∃ t', tenants g' !! to_ascii_lowercase d' = Some t' ∧ Directory.resolve (directory t') (clean_address l d') = None).
Proof.
  intros Hl Hd Hf Ht Hr. unfold Admin.remove_recipient. rewrite Hf. unfold MultiDomain.remove_recipient. rewrite split_clean by done.
  unfold tenant_mut. assert (normal (to_ascii_lowercase d') = to_ascii_lowercase d') as En.
  { unfold normal. rewrite trim_lower, trim_printable by (by apply addr_text_printable). by rewrite to_ascii_lowercase_idem. }
  rewrite En, Ht. unfold Directory.remove. unfold Directory.resolve in Hr. rewrite bool_decide_true by done.
  eexists. split; [reflexivity|]. cbn [set_tenants tenants]. rewrite lookup_insert_eq. eexists. split; [reflexivity|].
  unfold Directory.resolve. cbn. apply lookup_delete_eq.
Qed.

(** ** Every request is answered *)

Lemma add_domain_answers amb form g : is_Some (Admin.add_domain amb form g).1.
Proof.
  unfold Admin.add_domain. destruct (field "domain" form) as [raw|]; [|by eexists]. destruct (transpose _) as [seed|]; [|by eexists].
  destruct (parse_quota form) as [q|]; [|by eexists].
  destruct (MultiDomain.add_domain raw seed _ _ g) as [[used|e] g1] eqn:E; [|by eexists]. cbn [fst].
  assert (is_Some (tenant raw g1)) as [t Ht].
  { unfold MultiDomain.add_domain in E. unfold tenant. destruct (AliasAllocator.for_domain _); [|done]. case_bool_decide; [done|].
    injection E as _ <-. cbn [set_tenants tenants]. rewrite lookup_insert_eq. by eexists. }
  destruct q as [q|]; [|by rewrite Ht; eexists]. unfold tenant in *. unfold set_domain_quota, tenant_mut. rewrite Ht. cbn [snd set_tenants tenants].
  rewrite lookup_insert_eq. by eexists.
Qed.
Ltac answers := cbn [fst]; by eexists.
(** Every request gets an answer, so no handler panics and none forgets to reply; the
    one exception is a request for a random alias while the generator draws tokens that
    are in use.  Unknown paths get 404, known ones with another method 405, and neither
    changes the gateway. *)
Theorem every_request_answered api amb req g :
  ((handle api amb req g).1 = None →
     method req = "POST"%string ∧ ∃ d, segments (path req) = ["v1"; "domains"; d; "aliases"; "random"]%string) ∧
  (authorize (r_token req) (auth api) = true →
     is_known_path (tail (segments (path req))) = false → (handle api amb req g).1 = Some (err 404 "unknown path") ∧ (handle api amb req g).2 = g).
Proof.
  split.
  - intros H. destruct (handle api amb req g).1 as [r|] eqn:E; [done|]. clear H. revert E. unfold handle.
    destruct (authorize _ _); [|done]. cbn [negb]. destruct (segments (path req)) as [|v rest]; [done|].
    destruct (eqs v "v1") eqn:Ev; [|done]. apply bool_decide_eq_true in Ev as ->. unfold dispatch.
    destruct rest as [|a [|x [|b [|c [|tok [|]]]]]]; try done.
    + destruct (_ && _); [done|]. destruct (_ && _); [done|]. destruct (_ && _); [|by destruct (_ && _)].
      destruct (add_domain_answers amb (parse_form (body req)) g) as [r E]. congruence.
    + destruct (_ && _); [done|]. destruct (_ && _); [|done]. unfold Admin.remove_domain. by destruct (MultiDomain.remove_domain x g).
    + destruct (eqs a "domains"); [|done]. cbn [negb].
      unfold Admin.add_recipient, Admin.remove_recipient, block, unblock, suspend, unsuspend, Admin.set_quota.
      intros H. exfalso. repeat (case_match; try done).
    + destruct (eqs a "domains" && eqs b "aliases") eqn:Eab; [|done]. cbn [negb].
      apply andb_true_iff in Eab as [->%bool_decide_eq_true ->%bool_decide_eq_true].
      destruct (eqs c "vanity" && eqs (method req) "POST"); [unfold Admin.allocate_vanity; intros H; exfalso; repeat (case_match; try done)|].
      destruct (eqs c "vanity" && eqs (method req) "DELETE"); [unfold Admin.revoke_vanity; intros H; exfalso; repeat (case_match; try done)|].
      destruct (eqs c "random" && eqs (method req) "POST") eqn:Ec; [|done].
      apply andb_true_iff in Ec as [->%bool_decide_eq_true ->%bool_decide_eq_true]. intros _. split; [done|by exists x].
    + destruct (_ && _ && _ && _); [|done]. unfold burn_random. intros H. exfalso. repeat (case_match; try done).
  - intros Ha Hk. unfold handle. rewrite Ha. cbn [negb]. destruct (segments (path req)) as [|v rest]; [done|]. cbn [tail] in Hk.
    destruct (eqs v "v1"); [|done]. unfold dispatch, no_route.
    destruct rest as [|a [|x [|b [|c [|tok [|]]]]]]; try done; rewrite ?Hk; cbn [is_known_path] in Hk;
      repeat match type of Hk with _ || _ = false => apply orb_false_iff in Hk as [Hk ?] end.
    + by rewrite ?Hk, ?H, ?H0.
    + by rewrite Hk.
    + destruct (eqs a "domains"); [|done]. cbn [andb] in Hk. repeat (apply orb_false_iff in Hk as [Hk ?]). by rewrite ?Hk, ?H, ?H0, ?H1.
    + destruct (eqs a "domains" && eqs b "aliases"); [|done]. cbn [andb] in Hk. apply orb_false_iff in Hk as [-> ->]. done.
    + destruct (eqs a "domains" && eqs b "aliases"); cbn [andb] in Hk |- *; [by rewrite Hk|done].
Qed.
End proofs.

(** ** Texts that are read back *)

(** A reader of JSON string literals: the characters up to the closing quote, and what
    follows it. *)
Definition unhex (c : ascii) : option Z := hex_value c.
Fixpoint json_read (s : string) : option (string * string) :=
  match s with
  | EmptyString => None
  | String c r =>
      if is_char "034" c then Some (EmptyString, r)
      else if is_char "\" c then
        match r with
        | String e r' =>
            if is_char "034" e || is_char "\" e then '(t, rest) ← json_read r'; Some (String e t, rest)
            else if is_char "n" e then '(t, rest) ← json_read r'; Some (String "010" t, rest)
            else if is_char "r" e then '(t, rest) ← json_read r'; Some (String "013" t, rest)
            else if is_char "t" e then '(t, rest) ← json_read r'; Some (String "009" t, rest)
            else if is_char "u" e then
              match r' with
              | String "0" (String "0" (String x (String y r''))) =>
                  h ← unhex x; l ← unhex y; '(t, rest) ← json_read r'';
                  Some (String (Ascii.ascii_of_N (Z.to_N (16 * h + l))) t, rest)
              | _ => None
              end
            else None
        | EmptyString => None
        end
      else if code c <? 32 then None
      else '(t, rest) ← json_read r; Some (String c t, rest)
  end.
Lemma json_read_char c s t rest : json_read s = Some (t, rest) → json_read (json_char c +:+ s) = Some (String c t, rest).
Proof.
  intros H. unfold json_char. destruct (is_char "034" c) eqn:E1.
  { apply is_char_true in E1 as <-. rewrite !str_app_cons, str_app_nil_l. cbn. by rewrite H. }
  destruct (is_char "\" c) eqn:E2.
  { apply is_char_true in E2 as <-. rewrite !str_app_cons, str_app_nil_l. cbn. by rewrite H. }
  destruct (is_char "010" c) eqn:E3.
  { apply is_char_true in E3 as <-. rewrite !str_app_cons, str_app_nil_l. cbn. by rewrite H. }
  destruct (is_char "013" c) eqn:E4.
  { apply is_char_true in E4 as <-. rewrite !str_app_cons, str_app_nil_l. cbn. by rewrite H. }
  destruct (is_char "009" c) eqn:E5.
  { apply is_char_true in E5 as <-. rewrite !str_app_cons, str_app_nil_l. cbn. by rewrite H. }
  destruct (code c <? 32) eqn:E6.
  - assert (∀ u : string, unicode_escape c +:+ u = String "\" (String "u" (String "0" (String "0"
      (String (hex_digit (code c / 16)) (String (hex_digit (code c mod 16)) u)))))) as -> by done.
    assert (unhex (hex_digit (code c / 16)) = Some (code c / 16) ∧ unhex (hex_digit (code c mod 16)) = Some (code c mod 16) ∧
      Ascii.ascii_of_N (Z.to_N (16 * (code c / 16) + code c mod 16)) = c) as (U1 & U2 & U3).
    { clear -E6. destruct c as [[] [] [] [] [] [] [] []]; try discriminate E6; split_and!; reflexivity. }
    cbn. rewrite U1, U2. cbn. rewrite H. cbn. by rewrite U3.
  - rewrite str_app_cons, str_app_nil_l. cbn [json_read]. rewrite E1, E2, E6, H. done.
Qed.
(** A text in a response is read back as it is, whatever it holds: no quote, backslash
    or control character in it ends or alters the literal. *)
Theorem json_roundtrip s rest : json_read (json_chars s +:+ String "034" rest) = Some (s, rest) ∧ json_str s = String "034" (json_chars s +:+ String "034" EmptyString).
Proof.
  split; [|done]. induction s as [|c s IH]; [done|]. cbn [json_chars]. rewrite <- str_app_assoc. by apply json_read_char.
Qed.

(** *** Forms *)

Definition form_pair (kv : string * string) : string := kv.1 +:+ String "=" kv.2.
Definition form_key (k : string) : Prop := word_ok k ∧ contains_char "=" k = false ∧ contains_char "&" k = false.
Definition form_value (v : string) : Prop := word_ok v ∧ contains_char "&" v = false.
Definition render_form (l : list (string * string)) : bytes := as_bytes (join "&" (form_pair <$> l)).

Lemma printable_no_lf s : str_all printable s = true → replace_char "010" "&" s = s.
Proof.
  induction s as [|c s IH]; [done|]. cbn [str_all replace_char]. intros [Hc Hs]%andb_true_iff. rewrite (IH Hs).
  assert (is_char "010" c = false) as ->; [|done]. apply is_char_false. by intros <-.
Qed.
Lemma join_all p sep l : str_all p sep = true → Forall (λ s, str_all p s = true) l → str_all p (join sep l) = true.
Proof.
  intros Hs. induction 1 as [|s l H HF IH]; [done|]. destruct l as [|s' l]; [done|].
  change (join sep (s :: s' :: l)) with (s +:+ (sep +:+ join sep (s' :: l))). by rewrite !str_all_app, H, Hs, IH.
Qed.
Lemma pair_ok kv :
  form_key kv.1 → form_value kv.2 →
  str_all printable (form_pair kv) = true ∧ contains_char "&" (form_pair kv) = false ∧ ∀ m, form_insert m (form_pair kv) = <[kv.1 := kv.2]> m.
Proof.
  intros ((Hk & Hk0) & Hk1 & Hk2) ((Hv & Hv0) & Hv2). assert (str_all printable (form_pair kv) = true) as Hp.
  { unfold form_pair. rewrite str_all_app. cbn [str_all]. by rewrite Hk, Hv. }
  split_and!; [done| |].
  - unfold form_pair. unfold contains_char in *. rewrite Dkim.str_any_app. cbn [str_any]. by rewrite Hk2, Hv2.
  - intros m. unfold form_insert. rewrite trim_printable by done. rewrite bool_decide_false by (unfold form_pair; by destruct kv.1).
    unfold form_pair. rewrite split_once_app by done. by rewrite !trim_printable.
Qed.
Lemma inserts_lookup (l : list (string * string)) m k :
  NoDup l.*1 → (∀ v, (k, v) ∈ l → foldl (λ m kv, <[kv.1 := kv.2]> m) m l !! k = Some v) ∧
  (k ∉ l.*1 → foldl (λ m kv, <[kv.1 := kv.2]> m) m l !! k = (m : gmap string string) !! k).
Proof.
  induction l as [|[k0 v0] l IH] using rev_ind; [set_solver|]. rewrite fmap_app, foldl_app. cbn [foldl fmap list_fmap fst snd].
  intros (Hn1 & Hn2 & _)%NoDup_app. destruct (IH Hn1) as [I1 I2]. split.
  - intros v [Hv|[= -> ->]%list_elem_of_singleton]%elem_of_app; [|apply lookup_insert_eq].
    rewrite lookup_insert_ne; [by apply I1|]. intros <-. apply (Hn2 k0); [|set_solver]. apply list_elem_of_fmap. by exists (k0, v).
  - intros Hk. rewrite lookup_insert_ne by set_solver. apply I2. set_solver.
Qed.
(** A form is read back field by field: values keep their [=] signs, so base64 survives,
    and a key that was not sent is absent. *)
Theorem form_roundtrip l k :
  l ≠ [] → NoDup l.*1 → Forall (λ kv, form_key kv.1 ∧ form_value kv.2) l →
  (∀ v, (k, v) ∈ l → field k (parse_form (render_form l)) = Some v) ∧ (k ∉ l.*1 → field k (parse_form (render_form l)) = None).
Proof.
  intros Hne Hnd Hok. assert (Forall (λ s, str_all printable s = true ∧ contains_char "&" s = false) (form_pair <$> l)) as Hps.
  { apply Forall_fmap. eapply Forall_impl; [exact Hok|]. intros kv [H1 H2]. by destruct (pair_ok kv H1 H2) as (? & ? & _). }
  assert (parse_form (render_form l) = foldl (λ m kv, <[kv.1 := kv.2]> m) ∅ l) as ->.
  { unfold parse_form, render_form, split_pairs. assert (str_all printable (join "&" (form_pair <$> l)) = true) as Hall.
    { apply join_all; [done|]. eapply Forall_impl; [exact Hps|]. by intros ? [? _]. }
    rewrite from_utf8_lossy_ascii.
    2: { eapply str_all_impl; [|exact Hall]. intros c Hc%printable_byte. rewrite code_byte_of_ascii in Hc. apply Z.ltb_lt. lia. }
    rewrite printable_no_lf by done. rewrite split_join; [|by destruct l|eapply Forall_impl; [exact Hps|]; by intros ? [_ ?]].
    clear -Hok. generalize (∅ : gmap string string) as m. induction Hok as [|kv l [H1 H2] HF IH]; intros m; [done|].
    cbn [fmap list_fmap foldl]. destruct (pair_ok kv H1 H2) as (_ & _ & ->). apply IH. }
  destruct (inserts_lookup l ∅ k Hnd) as [I1 I2]. unfold field. split.
  - intros v Hv. rewrite (I1 v Hv). cbn. rewrite bool_decide_false; [done|]. apply (proj1 (Forall_forall _ _) Hok) in Hv as [_ [[_ ?] _]]. done.
  - intros Hk. by rewrite (I2 Hk).
Qed.

(** ** The transport *)

Definition left_over (r : Reader) : bytes := buf r ++ LegacyNet.received (reads r).
Definition good (r : Reader) : Prop := LegacyNet.no_failure (reads r).

Lemma no_lf_split l r : Forall (λ b, b ≠ Byte.x0a) l → LegacyNet.lines (l ++ Byte.x0a :: r) = (l ++ [Byte.x0a]) :: LegacyNet.lines r.
Proof. induction 1 as [|b l Hb Hl IH]; [done|]. cbn [app LegacyNet.lines]. rewrite bool_decide_false by done. by rewrite IH. Qed.
(** A line that is there and not too long is read, however the bytes arrive; [max] is
    what the head may still take. *)
Lemma read_line_there max r l rest :
  good r → left_over r = l ++ Byte.x0a :: rest → Forall (λ b, b ≠ Byte.x0a) l → Z.of_nat (length l) < max →
  ∃ r', read_line_capped max r = (Ok (l ++ [Byte.x0a]), r') ∧ good r' ∧ left_over r' = rest.
Proof.
  intros Hg E Hl Hm. unfold left_over in E. pose proof (no_lf_split l rest Hl) as Hlines.
  destruct (LegacyNet.read_line_ok max (buf r) (reads r)) as (line & b & rs & Er & Hn & Hne); [done| |lia|].
  { unfold LegacyNet.short_first. rewrite E, Hlines, length_app. cbn. lia. }
  unfold read_line_capped. rewrite Er. cbn [map_err LegacyNet.pending].
  assert (line ≠ []) as Hln. { intros ->. rewrite E in Hne. by destruct (app_cons_not_nil l rest Byte.x0a); rewrite Hne. }
  destruct (LegacyNet.read_line_lines _ _ _ _ _ _ Er Hln) as [Hll _]. cbn [LegacyNet.pending] in Hll. rewrite E, Hlines in Hll.
  injection Hll as <- Hll. eexists. split; [reflexivity|]. split; [done|]. unfold left_over. cbn [buf reads].
  rewrite <- (LegacyNet.lines_concat (b ++ _)), <- Hll. apply LegacyNet.lines_concat.
Qed.
Lemma read_rest_there n acc rs b rest :
  LegacyNet.no_failure rs → LegacyNet.received rs = b ++ rest → length b = n → (0 < n)%nat →
  ∃ r', read_rest n acc rs = (Ok (acc ++ b), r') ∧ good r' ∧ left_over r' = rest.
Proof.
  revert n acc b. induction rs as [|[c bs| |e] rs IH]; intros n acc b Hn E Hb H0; cbn [read_rest LegacyNet.received] in *.
  - symmetry in E. apply app_nil in E as [-> ->]. cbn in Hb. lia.
  - apply Forall_cons in Hn as [_ Hn]. destruct (n <=? length (c :: bs))%nat eqn:El.
    + apply Nat.leb_le in El. exists {| buf := drop n (c :: bs); reads := rs |}. split; [|split; [exact Hn|]].
      * f_equal. f_equal. f_equal. rewrite <- (take_app_le (c :: bs) (LegacyNet.received rs)) by done. rewrite E. by apply take_app_length'.
      * unfold left_over. cbn [buf reads]. rewrite <- drop_app_le by done. rewrite E. by apply drop_app_length'.
    + apply Nat.leb_gt in El. set (ch := c :: bs) in *. assert (b = ch ++ drop (length ch) b) as Eb.
      { rewrite <- (take_drop (length ch) b) at 1. f_equal. rewrite <- (take_app_le b rest) by lia. rewrite <- E. by rewrite take_app_length. }
      rewrite Eb in E. rewrite <- app_assoc in E. apply app_inv_head in E.
      destruct (IH (n - length ch)%nat (acc ++ ch) (drop (length ch) b) Hn E) as (r' & -> & ? & ?); [by rewrite length_drop, Hb|lia|].
      exists r'. split; [|done]. rewrite <- app_assoc. by rewrite <- Eb.
  - apply Forall_cons in Hn as [_ Hn]. by apply IH.
  - by apply Forall_cons in Hn as [? _].
Qed.
Lemma read_exact_there r b rest :
  good r → left_over r = b ++ rest → ∃ r', read_exact (length b) r = (Ok b, r') ∧ good r' ∧ left_over r' = rest.
Proof.
  intros Hg E. unfold read_exact, left_over in *. destruct (length b <=? length (buf r))%nat eqn:El.
  - apply Nat.leb_le in El. exists {| buf := drop (length b) (buf r); reads := reads r |}. split; [|split; [exact Hg|]].
    + f_equal. f_equal. rewrite <- (take_app_le (buf r) (LegacyNet.received (reads r))) by done. rewrite E. by apply take_app_length.
    + cbn [buf reads]. rewrite <- drop_app_le by done. rewrite E. by apply drop_app_length.
  - apply Nat.leb_gt in El. assert (b = buf r ++ drop (length (buf r)) b) as Eb.
    { rewrite <- (take_drop (length (buf r)) b) at 1. f_equal. rewrite <- (take_app_le b rest) by lia. rewrite <- E. by rewrite take_app_length. }
    rewrite Eb in E. rewrite <- app_assoc in E. apply app_inv_head in E.
    destruct (read_rest_there (length b - length (buf r)) (buf r) (reads r) (drop (length (buf r)) b) rest Hg E) as (r' & -> & ? & ?);
      [by rewrite length_drop|lia|]. exists r'. by rewrite <- Eb.
Qed.

(** *** Text lines *)

Definition text_char (c : ascii) : bool := printable c || is_char " " c.
Lemma text_char_bytes s : str_all text_char s = true → Forall (λ b, 32 ≤ b2z b ≤ 126) (as_bytes s).
Proof.
  apply (str_all_bytes (λ z, 32 ≤ z ≤ 126)). intros c. unfold text_char, printable, char_in. rewrite orb_true_iff, andb_true_iff, !Z.leb_le.
  intros [?|<-%is_char_true]; [lia|vm_compute; split; discriminate].
Qed.
Lemma printable_text s : str_all printable s = true → str_all text_char s = true.
Proof. apply str_all_impl. intros c Hc. unfold text_char. by rewrite Hc. Qed.
Lemma crlf_line_bytes s : as_bytes (s +:+ crlf) = (as_bytes s ++ [Byte.x0d]) ++ [Byte.x0a].
Proof. rewrite as_bytes_app. by rewrite <- app_assoc. Qed.
Lemma line_no_lf s : str_all text_char s = true → Forall (λ b, b ≠ Byte.x0a) (as_bytes s ++ [Byte.x0d]).
Proof.
  intros H%text_char_bytes. apply Forall_app. split; [|by repeat constructor]. eapply Forall_impl; [exact H|]. intros b Hb ->. change (b2z Byte.x0a) with 10 in Hb. lia.
Qed.
Lemma drop_while_none p l : Forall (λ b, p b = false) l → LegacyNet.drop_while p l = l.
Proof. destruct 1 as [|b l H _]; [done|]. cbn. by rewrite H. Qed.
Lemma line_trimmed s : str_all text_char s = true → trim_eol (from_utf8_lossy ((as_bytes s ++ [Byte.x0d]) ++ [Byte.x0a])) = s.
Proof.
  intros Hs. rewrite <- crlf_line_bytes. assert (str_all is_ascii (s +:+ crlf) = true) as Ha.
  { rewrite str_all_app. apply andb_true_iff. split; [|done]. eapply str_all_impl; [|exact Hs]. intros c. clear.
    destruct c as [[] [] [] [] [] [] [] []]; vm_compute; done. }
  rewrite from_utf8_lossy_ascii by done. unfold trim_eol. rewrite as_bytes_app. unfold LegacyNet.strip_eol. rewrite rev_app_distr.
  cbn [rev app]. change (rev (as_bytes crlf)) with [Byte.x0a; Byte.x0d]. cbn [app LegacyNet.drop_while].
  change (LegacyNet.is_eol Byte.x0a) with true. change (LegacyNet.is_eol Byte.x0d) with true. cbn iota.
  rewrite drop_while_none; [rewrite rev_involutive; apply String.string_of_list_byte_of_string|].
  apply Forall_rev. eapply Forall_impl; [by apply text_char_bytes|]. intros b Hb. unfold LegacyNet.is_eol.
  rewrite !bool_decide_false; [done|intros ->; cbn in Hb; lia..].
Qed.
Lemma trim_lead_space s : trim (String " " s) = trim s.
Proof. done. Qed.

(** *** A request *)

Definition render_request (m p t : string) (b : bytes) : bytes :=
  as_bytes ((m +:+ String " " (p +:+ " HTTP/1.1")) +:+ crlf) ++
  as_bytes (("Authorization: Bearer " +:+ t) +:+ crlf) ++
  as_bytes (("Content-Length: " +:+ u64_to_string (Z.of_nat (length b))) +:+ crlf) ++
  as_bytes (EmptyString +:+ crlf) ++ b.

Lemma request_line_text m p :
  word_ok m → word_ok p → contains_char "?" p = false →
  request_line ((as_bytes (m +:+ String " " (p +:+ " HTTP/1.1")) ++ [Byte.x0d]) ++ [Byte.x0a]) = Ok (to_ascii_uppercase m, p).
Proof.
  intros Hm Hp Hq. unfold request_line. rewrite <- crlf_line_bytes. rewrite from_utf8_lossy_ascii.
  2: { rewrite !str_all_app. cbn [str_all]. rewrite !str_all_app. destruct Hm as [Hm _], Hp as [Hp _].
    assert (∀ s, str_all printable s = true → str_all is_ascii s = true) as Hi.
    { intros s. apply str_all_impl. intros c. clear. destruct c as [[] [] [] [] [] [] [] []]; vm_compute; done. }
    by rewrite (Hi m Hm), (Hi p Hp). }
  destruct (word_bytes m Hm) as [Hmb Hm0], (word_bytes p Hp) as [Hpb Hp0].
  assert (∃ ws, split_whitespace ((m +:+ String " " (p +:+ " HTTP/1.1")) +:+ crlf) = m :: p :: ws) as [ws ->].
  { unfold split_whitespace. rewrite !as_bytes_app, as_bytes_cons, as_bytes_app. change (byte_of_ascii " ") with Byte.x20.
    change (as_bytes " HTTP/1.1") with (Byte.x20 :: as_bytes "HTTP/1.1"). rewrite <- !app_assoc. cbn [app]. rewrite <- !app_assoc. cbn [app].
    rewrite !length_app. cbn [length]. rewrite !length_app.
    match goal with |- context [split_ws_loop ?f _ _] => replace f with (length (as_bytes m) + S (length (as_bytes p) + S (S (length (as_bytes "HTTP/1.1" ++ as_bytes crlf)))))%nat by (rewrite length_app; cbn [length]; rewrite length_app; lia) end.
    rewrite split_ws_word by done. rewrite split_ws_word by done. rewrite !app_nil_l, !fmap_cons, !String.string_of_list_byte_of_string.
    by eexists. }
  cbn. assert (split_once "?" p = None) as ->; [|done].
  clear -Hq. unfold contains_char in Hq. induction p as [|c p IH]; [done|]. cbn [str_any split_once] in *.
  apply orb_false_iff in Hq as [-> Hq]. by rewrite IH.
Qed.
Lemma auth_header t h : word_ok t → header ("Authorization: Bearer " +:+ t) h = Ok {| h_token := Some t; content_length := content_length h |}.
Proof.
  intros Ht. unfold header. change ("Authorization: Bearer " +:+ t) with ("Authorization" +:+ String ":" (String " " ("Bearer" +:+ (" " +:+ t)))).
  rewrite split_once_app by done. rewrite trim_lead_space, trim_ends by done. change (to_ascii_lowercase (trim "Authorization")) with "authorization"%string.
  cbn [eqs]. unfold eqs. rewrite bool_decide_true by done. unfold bearer.
  assert (strip_prefix "Bearer " ("Bearer" +:+ (" " +:+ t)) = Some t) as -> by reflexivity. cbn. by rewrite trim_printable by apply Ht.
Qed.
Lemma length_header n h :
  0 ≤ n ≤ MAX_BODY_BYTES → header ("Content-Length: " +:+ u64_to_string n) h = Ok {| h_token := h_token h; content_length := n |}.
Proof.
  intros Hn. assert (0 ≤ n ≤ U64.MAX) as Hu by (unfold MAX_BODY_BYTES, U64.MAX in *; lia). destruct (MtaSts.parse_printed n Hu) as [Hp Hw].
  unfold header. change ("Content-Length: " +:+ u64_to_string n) with ("Content-Length" +:+ String ":" (String " " (u64_to_string n))).
  rewrite split_once_app by done. rewrite trim_space by apply Hw. change (to_ascii_lowercase (trim "Content-Length")) with "content-length"%string.
  unfold eqs. rewrite (bool_decide_false (_ = "authorization"%string)) by done. rewrite bool_decide_true by done. rewrite Hp. cbn [ok_or mbind result_bind].
  rewrite (proj2 (Z.ltb_ge _ _)) by lia. done.
Qed.

Lemma decimal_len fuel n acc : (length (as_bytes (decimal_loop fuel n acc)) ≤ S fuel + length (as_bytes acc))%nat.
Proof.
  revert n acc. induction fuel as [|fuel IH]; intros n acc; cbn [decimal_loop]; [rewrite as_bytes_cons; cbn; lia|].
  case_match; [rewrite as_bytes_cons; cbn; lia|]. etransitivity; [apply IH|]. rewrite as_bytes_cons. cbn. lia.
Qed.
Lemma read_headers_line fuel budget h r s rest :
  good r → left_over r = as_bytes (s +:+ crlf) ++ rest → str_all text_char s = true → Z.of_nat (length (as_bytes s)) + 1 < budget →
  ∃ r', good r' ∧ left_over r' = rest ∧
    read_headers (S fuel) budget h r =
      if eqs s EmptyString then Some (Ok h, r')
      else match header s h with
           | Err e => Some (Err e, r')
           | Ok h => read_headers fuel (Z.max 0 (budget - (Z.of_nat (length (as_bytes s)) + 2))) h r'
           end.
Proof.
  intros Hg E Hs Hb. rewrite crlf_line_bytes, <- app_assoc in E. cbn [app] in E.
  destruct (read_line_there budget r (as_bytes s ++ [Byte.x0d]) rest Hg E (line_no_lf s Hs)) as (r' & Er & Hg' & El); [rewrite length_app; cbn; lia|].
  exists r'. split_and!; [done..|]. cbn [read_headers]. rewrite Er.
  destruct ((as_bytes s ++ [Byte.x0d]) ++ [Byte.x0a]) as [|c cs] eqn:Ec; [by destruct (as_bytes s)|]. rewrite <- Ec. rewrite line_trimmed by done.
  rewrite !length_app. cbn [length]. replace (Z.of_nat (length (as_bytes s) + 1 + 1)) with (Z.of_nat (length (as_bytes s)) + 2) by lia. done.
Qed.

(** A request is read as it was sent, in whatever pieces it arrives: the method in
    upper case, the path, the bearer token and exactly the body that was announced;
    what follows the body is left in the stream. *)
Theorem request_roundtrip m p t b now r rest :
  word_ok m → word_ok p → contains_char "?" p = false → word_ok t → Z.of_nat (length b) ≤ MAX_BODY_BYTES →
  str_len m + str_len p + str_len t + 100 < MAX_HEAD_BYTES →
  LegacyNet.no_failure (reads r) → left_over r = render_request m p t b ++ rest →
  ∃ r', read_request now r =
      Some (Ok (Some {| method := to_ascii_uppercase m; path := p; r_token := Some t; body := b; now_ms := now |}), r') ∧
    left_over r' = rest.
Proof.
  intros Hm Hp Hq Ht Hb Hlen Hg E. unfold render_request in E. rewrite <- !app_assoc in E.
  assert (∀ s, word_ok s → str_all text_char s = true) as Htxt by (intros s [? _]; by apply printable_text).
  destruct (MtaSts.parse_printed (Z.of_nat (length b))) as [_ Hw]; [unfold MAX_BODY_BYTES, U64.MAX in *; lia|].
  assert (str_all text_char (m +:+ String " " (p +:+ " HTTP/1.1")) = true) as Ht1.
  { rewrite str_all_app. cbn [str_all]. rewrite str_all_app. by rewrite (Htxt m Hm), (Htxt p Hp). }
  assert (str_all text_char ("Authorization: Bearer " +:+ t) = true) as Ht2 by (rewrite str_all_app; by rewrite (Htxt t Ht)).
  assert (str_all text_char ("Content-Length: " +:+ u64_to_string (Z.of_nat (length b))) = true) as Ht3 by (rewrite str_all_app; by rewrite (Htxt _ Hw)).
  assert (str_len (u64_to_string (Z.of_nat (length b))) ≤ 20) as Hdig.
  { unfold str_len, u64_to_string. pose proof (decimal_len 19 (Z.of_nat (length b)) EmptyString). cbn in *. lia. }
  unfold str_len in *. unfold read_request. unfold MAX_HEAD_BYTES in *. rewrite crlf_line_bytes, <- app_assoc in E. cbn [app] in E.
  edestruct (read_line_there (64 * 1024) r _ _ Hg E (line_no_lf _ Ht1)) as (r1 & Er1 & Hg1 & E1).
  { rewrite !as_bytes_app, as_bytes_cons, as_bytes_app, !length_app. cbn [length]. rewrite !length_app. cbn. lia. }
  rewrite Er1. set (l1 := (as_bytes (m +:+ String " " (p +:+ " HTTP/1.1")) ++ [Byte.x0d]) ++ [Byte.x0a]).
  assert (Z.of_nat (length l1) = Z.of_nat (length (as_bytes m)) + Z.of_nat (length (as_bytes p)) + 12) as Hl1.
  { unfold l1. rewrite !as_bytes_app, as_bytes_cons, as_bytes_app, !length_app. cbn [length]. rewrite !length_app. cbn. lia. }
  destruct l1 as [|c1 cs1] eqn:Ec1; [cbn in Hl1; lia|]. rewrite <- Ec1 in *. unfold l1 at 1. rewrite request_line_text by done. clear Ec1 c1 cs1.
  unfold head_fuel. rewrite (E1 : buf r1 ++ LegacyNet.received (reads r1) = _).
  match goal with |- context [S (length ?l)] => assert (∃ k, S (length l) = S (S (S k))) as [k ->] end.
  { rewrite !length_app, as_bytes_app, length_app. cbn. by eexists. }
  edestruct (read_headers_line (S (S k)) (Z.max 0 (64 * 1024 - Z.of_nat (length l1))) {| h_token := None; content_length := 0 |} r1) as (r2 & Hg2 & E2 & ->);
    [exact Hg1|exact E1|exact Ht2| |].
  { rewrite as_bytes_app, length_app. change (length (as_bytes "Authorization: Bearer ")) with 22%nat. lia. }
  unfold eqs at 1. rewrite bool_decide_false by done. rewrite auth_header by done. cbn [content_length].
  edestruct (read_headers_line (S k)) as (r3 & Hg3 & E3 & ->); [exact Hg2|exact E2|exact Ht3| |].
  { rewrite !as_bytes_app, !length_app. change (length (as_bytes "Authorization: Bearer ")) with 22%nat. change (length (as_bytes "Content-Length: ")) with 16%nat. lia. }
  unfold eqs at 1. rewrite bool_decide_false by done. rewrite length_header by lia. cbn [h_token].
  edestruct (read_headers_line k) as (r4 & Hg4 & E4 & ->); [exact Hg3|exact E3|done| |].
  { rewrite !as_bytes_app, !length_app. change (length (as_bytes "Authorization: Bearer ")) with 22%nat.
    change (length (as_bytes "Content-Length: ")) with 16%nat. change (length (as_bytes EmptyString)) with 0%nat. lia. }
  unfold eqs. rewrite bool_decide_true by done. cbn [mbind option_bind]. unfold read_body. cbn [content_length h_token]. rewrite Nat2Z.id.
  destruct (read_exact_there r4 b rest Hg4 E4) as (r5 & -> & _ & E5). by exists r5.
Qed.

(** *** The head is not capped *)

Definition got (s : string) : LegacyNet.ReadResult := match as_bytes s with b :: bs => LegacyNet.Got b bs | [] => LegacyNet.Interrupted end.
Definition filler : string := "a: b" +:+ crlf.
Lemma filler_read max h fuel rs :
  0 ≤ max → read_headers (S fuel) max h {| buf := []; reads := got filler :: rs |} = read_headers fuel (Z.max 0 (max - 6)) h {| buf := []; reads := rs |}.
Proof.
  intros Hm. cbn [read_headers]. unfold read_line_capped. cbn [buf reads]. unfold LegacyNet.read_line_capped. cbn [LegacyNet.split_lf length].
  rewrite (proj2 (Z.ltb_ge _ _)) by (cbn; lia). done.
Qed.
Lemma fillers_read n max h fuel rs :
  0 ≤ max → read_headers (n + fuel) max h {| buf := []; reads := replicate n (got filler) ++ rs |} =
  read_headers fuel (Z.max 0 (max - 6 * Z.of_nat n)) h {| buf := []; reads := rs |}.
Proof.
  revert max. induction n as [|n IH]; intros max Hm; cbn [replicate Nat.add app].
  - rewrite Z.sub_0_r, Z.max_r by lia. done.
  - rewrite filler_read by done. rewrite IH by lia. f_equal. lia.
Qed.
Lemma received_fillers n rs : length (LegacyNet.received (replicate n (got filler) ++ rs)) = (6 * n + length (LegacyNet.received rs))%nat.
Proof.
  induction n as [|n IH]; [done|].
  change (replicate (S n) (got filler) ++ rs) with (LegacyNet.Got Byte.x61 (tail (as_bytes filler)) :: (replicate n (got filler) ++ rs)).
  cbn [LegacyNet.received]. rewrite length_app, IH. change (length (Byte.x61 :: tail (as_bytes filler))) with 6%nat. lia.
Qed.
(** The head of a request is read with no bound: what is left of [MAX_HEAD_BYTES] is
    compared only with a piece of a line that holds no line feed, so header lines that
    arrive whole pass when nothing is left.  A client that is not authenticated makes
    the server read any number of them. *)
Theorem head_not_capped n now :
  ∃ req r', read_request now {| buf := []; reads := got ("GET / HTTP/1.1" +:+ crlf) :: replicate n (got filler) ++ [got crlf] |} = Some (Ok (Some req), r') ∧
    r_token req = None ∧ LegacyNet.received (reads r') = [] ∧
    Z.of_nat (length (LegacyNet.received (replicate n (got filler) ++ [got crlf]))) = 6 * Z.of_nat n + 2.
Proof.
  assert (length (LegacyNet.received (replicate n (got filler) ++ [got crlf])) = (6 * n + 2)%nat) as Hlen by (by rewrite received_fillers).
  assert (∃ k, head_fuel {| buf := []; reads := replicate n (got filler) ++ [got crlf] |} = (n + S k)%nat) as [k Hk].
  { unfold head_fuel. cbn [buf reads app]. rewrite Hlen. exists (5 * n + 2)%nat. lia. }
  unfold read_request, read_line_capped. cbn [buf reads]. unfold LegacyNet.read_line_capped. cbn [LegacyNet.split_lf length].
  rewrite (proj2 (Z.ltb_ge _ _)) by (unfold MAX_HEAD_BYTES; cbn; lia). cbn [LegacyNet.read_more got].
  change (got ("GET / HTTP/1.1" +:+ crlf)) with (LegacyNet.Got Byte.x47 (tail (as_bytes ("GET / HTTP/1.1" +:+ crlf)))). cbn [LegacyNet.read_more].
  set (line := Byte.x47 :: tail (as_bytes ("GET / HTTP/1.1" +:+ crlf))).
  assert (LegacyNet.split_lf line = Some (line, [])) as -> by reflexivity. cbn [map_err app LegacyNet.pending].
  assert (request_line line = Ok ("GET", "/")%string) as Hline by (vm_compute; reflexivity).
  change (line) with (Byte.x47 :: tail (as_bytes ("GET / HTTP/1.1" +:+ crlf))) at 1. cbn match. rewrite Hline. cbn match.
  rewrite Hk. rewrite fillers_read by lia. cbn [read_headers]. unfold read_line_capped. cbn [buf reads]. unfold LegacyNet.read_line_capped.
  cbn [LegacyNet.split_lf length]. rewrite (proj2 (Z.ltb_ge _ _)) by (cbn; lia).
  eexists _, _. split; [vm_compute; reflexivity|]. split_and!; [done|done|]. rewrite Hlen. lia.
Qed.

(** *** Connections *)

Lemma read_line_shorter max r line r' :
  read_line_capped max r = (Ok line, r') → line ≠ [] → (length (left_over r') < length (left_over r))%nat.
Proof.
  unfold read_line_capped. destruct (LegacyNet.read_line_capped _ _ _) as [[[l|e] b] s] eqn:E; intros [= <- <-] Hl.
  destruct (LegacyNet.read_line_lines _ _ _ _ _ _ E Hl) as [H _]. apply LegacyNet.lines_length in H. unfold left_over. cbn [buf reads] in *.
  cbn [LegacyNet.pending] in H. destruct l; [done|]. cbn [length] in H. lia.
Qed.
Lemma read_headers_total fuel budget h r : (length (left_over r) < fuel)%nat → is_Some (read_headers fuel budget h r).
Proof.
  revert budget h r. induction fuel as [|fuel IH]; intros budget h r Hf; [lia|]. cbn [read_headers].
  destruct (read_line_capped budget r) as [[line|e] r'] eqn:E; [|by eexists]. destruct line as [|c line]; [by eexists|].
  pose proof (read_line_shorter _ _ _ _ E ltac:(done)) as Hs. destruct (eqs _ _); [by eexists|]. destruct (header _ _); [|by eexists].
  apply IH. lia.
Qed.
Lemma read_request_total now r : is_Some (read_request now r).
Proof.
  unfold read_request. destruct (read_line_capped _ _) as [[line|e] r1]; [|by eexists]. destruct line as [|c line]; [by eexists|].
  destruct (request_line _) as [[m p]|]; [|by eexists].
  destruct (read_headers_total (head_fuel r1) (Z.max 0 (MAX_HEAD_BYTES - Z.of_nat (length (c :: line)))) {| h_token := None; content_length := 0 |} r1) as [[h r2] ->].
  - unfold head_fuel, left_over. lia.
  - by eexists.
Qed.

Section connections.
Context `{DC : DkimCrypto, DS : !DkimSeed, KD : KotvaContentId, HI : HashMapIter, SD : StrDebug}.

(** A connection that changes the gateway carried a request with the configured token;
    one that fails in the handshake, sends nothing, sends something malformed or shows
    another token leaves it as it was.  Every request is read to its end. *)
Theorem connection_needs_token api amb now hs (g : MultiDomainGateway) :
  (∀ rs, hs = Some rs → is_Some (read_request now {| buf := []; reads := rs |})) ∧
  (∀ res g', handle_connection api amb now hs g = Some (res, g') → g' ≠ g →
     ∃ rs req r' t, hs = Some rs ∧ read_request now {| buf := []; reads := rs |} = Some (Ok (Some req), r') ∧
       token (auth api) = Some t ∧ r_token req = Some t).
Proof.
  split; [intros rs _; apply read_request_total|]. unfold handle_connection. intros res g' H Hne.
  destruct hs as [rs|]; [|by injection H as _ <-]. destruct (read_request now _) as [[req r']|] eqn:Er; [|done]. cbn [mbind option_bind] in H.
  destruct req as [[req|]|[e|msg]]; try (by injection H as _ <-).
  destruct (authorize (r_token req) (auth api)) eqn:Ea.
  - apply authorize_spec in Ea as (t & Ht & Hp). by exists rs, req, r', t.
  - unfold handle in H. rewrite Ea in H. cbn [negb] in H. cbn in H. by injection H as _ <-.
Qed.
End connections.
End AdminProofs.

Module AdminWitness.
Import Admin MultiDomain AdminProofs DkimWitness ProvenanceWitness MultiDomainWitness.
#[local] Existing Instance toy_crypto.
#[local] Instance debug : StrDebug := {| str_debug s := s |}.

Definition api : AdminApi := {| meter := UsageMeter_new; auth := with_token "secret" |}.
Definition amb : Ambient := {| fresh_seed := []; draws := [] |}.
Definition req (m p : string) (t : option string) (form : string) : AdminRequest :=
  {| method := m; path := p; r_token := t; Admin.body := as_bytes form; now_ms := 0 |}.

Lemma token_decides_witness :
  handle api amb (req "DELETE" "/v1/domains/host.net" (Some "Secret"%string) "") g = (Some (err 401 "unauthorized"), g).
Proof.
  apply (token_decides "secret" api amb (req "DELETE" "/v1/domains/host.net" (Some "Secret"%string) "") g); [reflexivity|vm_compute; reflexivity].
Defined.
Lemma request_confined_witness :
  unchanged "other.org" g (handle api amb (req "POST" "/v1/domains/Host.net/recipients" (Some "secret"%string) "email=bob@Host.net&ik_b64=AQ==&seal_b64=Ag==") g).2 ∧
  status <$> (handle api amb (req "POST" "/v1/domains/Host.net/recipients" (Some "secret"%string) "email=bob@Host.net&ik_b64=AQ==&seal_b64=Ag==") g).1 =
    Some 201.
Proof.
  split; [|vm_compute; reflexivity].
  apply (request_confined api amb (req "POST" "/v1/domains/Host.net/recipients" (Some "secret"%string) "email=bob@Host.net&ik_b64=AQ==&seal_b64=Ag==") g "other.org").
  - vm_compute; reflexivity.
  - intros _ _. split; [vm_compute; reflexivity|discriminate].
  - intros raw H. vm_compute in H. injection H as <-. vm_compute. discriminate.
Defined.
(** The domain check of an added recipient compares the texts as they are; the address is
    then read without the closing bracket, so the tenant that gets the entry is not the
    one of the path, which need not exist. *)
Lemma bracketed_path_crosses_tenants :
  let r := req "POST" "/v1/domains/other.org>/recipients" (Some "secret"%string) "email=alice@other.org>&ik_b64=AQ==&seal_b64=Ag==" in
  let g' := (handle api amb r g).2 in
  status <$> (handle api amb r g).1 = Some 201 ∧ tenants g !! "other.org>"%string = None ∧ tenants g' !! "other.org>"%string = None ∧
  (t ← tenants g !! "other.org"%string; Directory.resolve (directory t) "alice@other.org>") = None ∧
  (t ← tenants g' !! "other.org"%string; Directory.resolve (directory t) "alice@other.org>") =
    Some {| rk_ik := [Byte.x01]; rk_seal_pub := [Byte.x02] |}.
Proof. split_and!; vm_compute; reflexivity. Qed.
Lemma form_roundtrip_witness :
  field "key_b64" (parse_form (render_form [("local_part", "bob"); ("key_b64", "AQ==")]%string)) = Some "AQ=="%string.
Proof.
  apply (form_roundtrip [("local_part", "bob"); ("key_b64", "AQ==")]%string "key_b64").
  - discriminate.
  - apply (bool_decide_unpack _); vm_compute; exact I.
  - repeat constructor; try (vm_compute; reflexivity); discriminate.
  - set_solver.
Defined.
Lemma request_roundtrip_witness :
  ∃ r', read_request 7 {| buf := []; reads := [got "post /v1/do"; LegacyNet.Interrupted;
      got ("mains HTTP/1.1" +:+ crlf +:+ "Authorization: Bearer secret" +:+ crlf +:+ "Content-Length: 3" +:+ crlf +:+ crlf +:+ "a="); got "bXX"] |} =
    Some (Ok (Some {| method := "POST"; path := "/v1/domains"; r_token := Some "secret"; Admin.body := as_bytes "a=b"; now_ms := 7 |}%string), r') ∧ left_over r' = as_bytes "XX".
Proof.
  apply (request_roundtrip "post" "/v1/domains" "secret" (as_bytes "a=b") 7 _ (as_bytes "XX")).
  - split; [vm_compute; reflexivity|discriminate].
  - split; [vm_compute; reflexivity|discriminate].
  - vm_compute; reflexivity.
  - split; [vm_compute; reflexivity|discriminate].
  - vm_compute; discriminate.
  - vm_compute; reflexivity.
  - repeat constructor.
  - vm_compute; reflexivity.
Defined.
Lemma removal_crosses_tenants_witness :
  let g1 := (MultiDomain.add_recipient "alice@host.net" alice g).2 in
  (Admin.remove_recipient "other.org" {["email" := "alice@host.net"]}%string g1).1 = Some (ok (dq "{'ok':true,'removed':" +:+ json_str "alice@host.net" +:+ "}")).
Proof.
  intros g1. assert (is_Some (tenants g1 !! "host.net"%string)) as [t Ht] by (apply (bool_decide_unpack _); vm_compute; exact I).
  destruct (removal_crosses_tenants "other.org" "alice" "host.net" {["email" := "alice@host.net"]}%string g1 t) as (g' & E & _).
  - by split.
  - by split.
  - reflexivity.
  - exact Ht.
  - assert (is_Some (t ← tenants g1 !! "host.net"%string; Directory.resolve (directory t) (clean_address "alice" "host.net"))) as H by (apply (bool_decide_unpack _); vm_compute; exact I).
    rewrite Ht in H. exact H.
  - rewrite E. reflexivity.
Defined.
Definition removal : option (list LegacyNet.ReadResult) :=
  Some [got (String.string_of_list_byte (render_request "DELETE" "/v1/domains/host.net" "secret" []))].
Lemma connection_needs_token_witness :
  ∃ rs req r', removal = Some rs ∧ read_request 0 {| buf := []; reads := rs |} = Some (Ok (Some req), r') ∧ r_token req = Some "secret"%string.
Proof.
  assert (match handle_connection api amb 0 removal g with Some (_, g') => bool_decide (is_Some (tenants g' !! "host.net"%string)) | None => true end = false) as Hg
    by (vm_compute; reflexivity).
  destruct (handle_connection api amb 0 removal g) as [[res g']|] eqn:E; [|discriminate].
  destruct (connection_needs_token api amb 0 removal g) as [_ H].
  destruct (H res g' E) as (rs & rq & r' & t & H1 & H2 & H3 & H4).
  - intros ->. vm_compute in Hg. discriminate Hg.
  - exists rs, rq, r'. split_and!; [exact H1|exact H2|].
    assert (token (auth api) = Some "secret"%string) as H5 by (vm_compute; reflexivity). congruence.
Defined.
End AdminWitness.
