(* ===== verification/Mesh.v ===== *)
(** * Mesh delivery over HTTP

    [crates/gateway/src/mesh.rs]: the ingest URL, the POST of a sealed message to a
    node, and the decision whether the node took it.  The node behind the socket is a
    function from the address and the bytes sent to the bytes it answers, [None] when
    the name does not resolve or the connection fails; the canonical form of an
    envelope is the mail library's ([KotvaMoteCbor]). *)

From Stdlib Require Import ZArith Lia Ascii String.
From stdpp Require Import base decidable option sets list strings gmap.
From S2P Require Import Prelude RustStr RustText B64 Kotva KotvaMail Directory Provenance Attestation ColdGate Dkim Spf Dmarc Net Inbound Submission MtaSts.
Local Open Scope Z_scope.

Class KotvaMoteCbor `{KotvaMote} := { env_det_cbor : Envelope → bytes }.

Module Mesh.

Inductive MeshConfigError := UnsupportedScheme (s : string) | MissingHost (s : string) | BadPort (s : string).
Record Endpoint := { host : string; port : Z; path : string; connect_timeout : Z; io_timeout : Z }.
(** [rest.find('/')]: the text before the first slash, and that from it on. *)
Definition split_path (rest : string) : string * string :=
  match break_at (is_char "/") rest with
  | (a, EmptyString) => (a, "/"%string)
  | (a, p) => (a, p)
  end.
Definition Endpoint_new (endpoint : string) : result MeshConfigError Endpoint :=
  match strip_prefix "http://" endpoint with
  | None => Err (UnsupportedScheme endpoint)
  | Some rest =>
      let '(authority, p) := split_path rest in
      if bool_decide (authority = EmptyString) then Err (MissingHost endpoint)
      else
        '(h, n) ← match rsplit_once ":" authority with
                  | Some (h, n) => n' ← ok_or (BadPort n) (Net.parse_u16 n); Ok (h, n')
                  | None => Ok (authority, 80)
                  end;
        if bool_decide (h = EmptyString) then Err (MissingHost endpoint)
        else Ok {| host := h; port := n; path := p; connect_timeout := 10; io_timeout := 10 |}
  end.
Definition with_timeouts (connect io : Z) (e : Endpoint) : Endpoint :=
  {| host := host e; port := port e; path := path e; connect_timeout := connect; io_timeout := io |}.
Definition authority (e : Endpoint) : string := host e +:+ ":" +:+ u64_to_string (port e).

Definition safe_char (c : ascii) : bool := negb (is_char "013" c) && negb (is_char "010" c).
Fixpoint header_safe (v : string) : string :=
  match v with
  | EmptyString => EmptyString
  | String c r => if safe_char c then String c (header_safe r) else header_safe r
  end.
(** [status.split_whitespace().nth(1).map(|c| c.starts_with('2')).unwrap_or(false)]. *)
Definition code_ok (status : string) : bool :=
  match split_whitespace status !! 1%nat with Some c => starts_with_char "2" c | None => false end.

Section delivery.
Context `{KI : KotvaIdentity} `{KM : !KotvaMote} `{KC : !KotvaMoteCbor}.

(** The lines of the request head. *)
Definition head_lines (e : Endpoint) (len : Z) (env : Envelope) (att : Attestation.Attestation) : list string := [
  "POST " +:+ path e +:+ " HTTP/1.1";
  "Host: " +:+ host e;
  "User-Agent: envoir-gateway"%string;
  "Content-Type: application/dmtap-mote"%string;
  "Content-Length: " +:+ u64_to_string len;
  "X-Dmtap-Mote-Id: " +:+ B64.encode (env_id env);
  "X-Dmtap-Gateway-Domain: " +:+ Attestation.at_domain att;
  "X-Dmtap-Gateway-Selector: " +:+ Attestation.at_selector att;
  "X-Dmtap-Attestation-Sig: " +:+ B64.encode (Attestation.at_sig att);
  "X-Dmtap-Smtp-From: " +:+ header_safe (Attestation.smtp_mail_from att);
  "X-Dmtap-Smtp-Rcpt: " +:+ header_safe (Attestation.smtp_rcpt_to att);
  "Connection: close"%string].
Definition request_head (e : Endpoint) (len : Z) (env : Envelope) (att : Attestation.Attestation) : bytes :=
  concat ((λ l, as_bytes l ++ Dkim.CRLF) <$> head_lines e len env att) ++ Dkim.CRLF.

(** The node the adapter talks to, and what was sent to it so far. *)
Record HttpMesh := { endpoint : Endpoint; node : string → Z → bytes → option bytes; sent : list bytes }.
Definition post (env : Envelope) (att : Attestation.Attestation) (m : HttpMesh) : option bool * HttpMesh :=
  let e := endpoint m in
  let body := env_det_cbor env in
  let request := request_head e (Z.of_nat (length body)) env att ++ body in
  match node m (host e) (port e) request with
  | None => (None, m)
  | Some answer =>
      let m := {| endpoint := e; node := node m; sent := sent m ++ [request] |} in
      match Net.read_line_str answer with
      | (Ok (Some status), _) => (Some (code_ok status), m)
      | _ => (None, m)
      end
  end.
Definition mesh_deliver (env : Envelope) (att : Attestation.Attestation) (m : HttpMesh) : DeliveryOutcome * HttpMesh :=
  match post env att m with
  | (Some true, m) => (Acked, m)
  | (_, m) => (NoAck, m)
  end.
#[export] Instance HttpMesh_MeshDelivery : MeshDelivery HttpMesh := { deliver := mesh_deliver }.

(** What was written to the node for a message. *)
Definition request_of (e : Endpoint) (env : Envelope) (att : Attestation.Attestation) : bytes :=
  request_head e (Z.of_nat (length (env_det_cbor env))) env att ++ env_det_cbor env.
Lemma mesh_acked env att m m' :
  mesh_deliver env att m = (Acked, m') ↔
  ∃ answer status rest, node m (host (endpoint m)) (port (endpoint m)) (request_of (endpoint m) env att) = Some answer ∧
    Net.read_line_str answer = (Ok (Some status), rest) ∧ code_ok status = true ∧
    m' = {| endpoint := endpoint m; node := node m; sent := sent m ++ [request_of (endpoint m) env att] |}.
Proof.
  unfold mesh_deliver, post, request_of. set (req := request_head _ _ _ _ ++ _).
  destruct (node m (host (endpoint m)) (port (endpoint m)) req) as [answer|]; [|split; [done|by intros (? & ? & ? & ? & ?)]].
  destruct (Net.read_line_str answer) as [[[status|]|e] rest] eqn:Er; [|split; [done|]; intros (a & st & r & Ha & E & _); apply (inj Some) in Ha as <-; rewrite Er in E; by injection E..].
  destruct (code_ok status) eqn:Ec.
  - split; [intros [= <-]; by exists answer, status, rest|intros (a & st & r & Ha & E & _ & ->); done].
  - split; [done|]. intros (a & st & r & Ha & E & H & _). apply (inj Some) in Ha as <-. rewrite Er in E. simplify_eq. congruence.
Qed.

(** *** The head of the request *)

Lemma header_safe_clean v : str_all safe_char (header_safe v) = true.
Proof using. induction v as [|c v IH]; [done|]. cbn [header_safe]. destruct (safe_char c) eqn:E; [|done]. cbn [str_all]. by rewrite E. Qed.
Lemma header_safe_id v : str_all safe_char v = true → header_safe v = v.
Proof using. induction v as [|c v IH]; [done|]. cbn [str_all header_safe]. intros [Hc Hv]%andb_true_iff. by rewrite Hc, (IH Hv). Qed.
Lemma header_no_cr s : str_all safe_char s = true → Dkim.no_cr (as_bytes s).
Proof using.
  induction s as [|c s IH]; [by constructor|]. cbn [str_all]. intros [Hc Hs]%andb_true_iff. rewrite as_bytes_cons. constructor; [|by apply IH].
  intros E. clear -Hc E. destruct c as [[] [] [] [] [] [] [] []]; cbn in E, Hc; try discriminate E; discriminate Hc.
Qed.
Lemma printable_safe s : str_all printable s = true → str_all safe_char s = true.
Proof using. apply str_all_impl. intros c. destruct c as [[] [] [] [] [] [] [] []]; vm_compute; done. Qed.
Lemma base64_safe bs : str_all safe_char (B64.encode bs) = true.
Proof using. apply printable_safe. destruct bs; [done|]. by apply (Directory.encode_word). Qed.
Lemma split_lines ls rest :
  Forall (λ l, str_all safe_char l = true) ls →
  Dkim.split_crlf (concat ((λ l, as_bytes l ++ Dkim.CRLF) <$> ls) ++ rest) = (as_bytes <$> ls) ++ Dkim.split_crlf rest.
Proof using.
  induction 1 as [|l ls Hl HF IH]; [done|]. cbn [fmap list_fmap concat app]. rewrite <- !app_assoc.
  rewrite Dkim.split_crlf_app by by apply header_no_cr. by rewrite IH.
Qed.
(** The head of the request, read back line by line, is the request line, the eleven
    headers and a blank line, followed by the sealed message, whatever the sender put
    into the envelope addresses; they appear with their line breaks dropped and
    nothing else changed. *)
Theorem mesh_headers_not_injectable e env att :
  str_all safe_char (path e) = true → str_all safe_char (host e) = true →
  str_all safe_char (Attestation.at_domain att) = true → str_all safe_char (Attestation.at_selector att) = true →
  Z.of_nat (length (env_det_cbor env)) ≤ U64.MAX →
  Dkim.split_crlf (request_of e env att) =
    (as_bytes <$> head_lines e (Z.of_nat (length (env_det_cbor env))) env att) ++ [] :: Dkim.split_crlf (env_det_cbor env) ∧
  length (head_lines e (Z.of_nat (length (env_det_cbor env))) env att) = 12%nat ∧
  (str_all safe_char (Attestation.smtp_mail_from att) = true → header_safe (Attestation.smtp_mail_from att) = Attestation.smtp_mail_from att).
Proof.
  intros Hp Hh Hd Hs Hl. split_and!; [|done|apply header_safe_id]. unfold request_of, request_head. rewrite <- !app_assoc. rewrite split_lines.
  - f_equal.
  - destruct (MtaSts.parse_printed (Z.of_nat (length (env_det_cbor env)))) as [_ [Hw _]]; [lia|].
    unfold head_lines. repeat apply Forall_cons_2; try apply Forall_nil_2; rewrite ?str_all_app; rewrite ?Hp, ?Hh, ?Hd, ?Hs, ?base64_safe, ?header_safe_clean; try done.
    by rewrite (printable_safe _ Hw).
Qed.
End delivery.

(** ** The endpoint *)

(** An ingest URL gives the address and the path it was written from. *)
Theorem endpoint_roundtrip h n p :
  h ≠ EmptyString → contains_char "/" h = false → 0 ≤ n ≤ 65535 →
  Endpoint_new ("http://" +:+ (h +:+ String ":" (u64_to_string n +:+ String "/" p))) =
    Ok {| host := h; port := n; path := String "/" p; connect_timeout := 10; io_timeout := 10 |}.
Proof.
  intros Hh Hs Hn. destruct (MtaSts.parse_printed n) as [Hpr [Hw Hne]]; [unfold U64.MAX; lia|].
  destruct (MtaSts.decimal_digits 19 n EmptyString) as [Hdig _]; [done|lia|].
  assert (∀ c, is_ascii_digit c = false → contains_char c (u64_to_string n) = false) as Hnone.
  { intros c Hc. apply str_any_all. eapply str_all_impl; [|exact Hdig]. intros d Hd. apply negb_true_iff, is_char_false. intros <-. congruence. }
  unfold Endpoint_new. assert (∀ x, strip_prefix "http://" ("http://" +:+ x) = Some x) as -> by reflexivity.
  set (a := h +:+ String ":" (u64_to_string n)).
  assert (h +:+ String ":" (u64_to_string n +:+ String "/" p) = a +:+ String "/" p) as -> by (unfold a; by rewrite <- str_app_assoc, str_app_cons).
  assert (contains_char "/" a = false) as Ha.
  { unfold a, contains_char. rewrite Dkim.str_any_app. cbn [str_any]. unfold contains_char in *. by rewrite Hs, (Hnone "/"%char eq_refl). }
  assert (break_at (is_char "/") (a +:+ String "/" p) = (a, String "/" p)) as Hb.
  { clear -Ha. unfold contains_char in Ha. induction a as [|c a IH]; [done|]. rewrite str_app_cons. cbn [break_at str_any] in *.
    apply orb_false_iff in Ha as [-> Ha]. by rewrite (IH Ha). }
  unfold split_path. rewrite Hb. rewrite bool_decide_false by (unfold a; by destruct h).
  unfold a. rewrite rsplit_once_app by (by apply Hnone).
  assert (Net.parse_u16 (u64_to_string n) = Some n) as ->.
  { revert Hpr. unfold MtaSts.parse_u64, Net.parse_u16. destruct (match u64_to_string n with EmptyString => _ | _ => _ end); [done|].
    destruct (read_digits _ _) as [k|]; [|done]. cbn. destruct (k <=? U64.MAX); [|done]. intros [= ->]. by rewrite (proj2 (Z.leb_le _ _)) by lia. }
  cbn. by rewrite bool_decide_false.
Qed.

(** ** Through the inbound gateway *)

Section composed.
Context `{KCb : KotvaCbor} `{KI : KotvaIdentity} `{KD : KotvaContentId} `{KM : !KotvaMote} `{KC : !KotvaMoteCbor} `{MM : KotvaMime}
  `{PSL : PublicSuffixList} `{DC : DkimCrypto}.
Context `{HD : KeyDirectory D} `{HG : AntiAbuse G} `{HK : Dkim.DkimKeyResolver KR} `{HS : Spf.SpfResolver SR} `{HR : Dmarc.DmarcTxtResolver DR}.
Local Notation Gateway := (Inbound.InboundGateway (D := D) (M := HttpMesh) (G := G) (KR := KR) (SR := SR) (DR := DR)).

(** A gateway that delivers over HTTP answers 250 only for a message whose sealed form
    and attestation were sent to the configured node as one request and for which the
    node answered with a status that starts with 2; in every other case nothing is
    acknowledged, and the sender keeps the message. *)
Theorem accepted_means_node_took_it (gw : Gateway) from to d now spf eph r gw' :
  Inbound.accept_message_with_spf gw from to d now spf eph = (r, gw') → Inbound.reply_code r = 250 →
  let m := Inbound.delivery gw in
  ∃ env att answer status rest,
    Inbound.wrap_and_attest gw from to d now eph = Ok (env, att) ∧
    node m (host (endpoint m)) (port (endpoint m)) (request_of (endpoint m) env att) = Some answer ∧
    Net.read_line_str answer = (Ok (Some status), rest) ∧ code_ok status = true ∧
    sent (Inbound.delivery gw') = sent m ++ [request_of (endpoint m) env att].
Proof.
  intros H Hr m. apply Inbound.accept_250 in H as (_ & _ & env & att & Hw & Hdel); [|done].
  apply mesh_acked in Hdel as (answer & status & rest & H1 & H2 & H3 & H4). exists env, att, answer, status, rest.
  split_and!; try done. by rewrite H4.
Qed.
End composed.
End Mesh.

Module MeshWitness.
Import Mesh Inbound.
#[local] Existing Instance Reference.ref_identity.
#[local] Existing Instance DkimWitness.toy_crypto.
#[local] Existing Instance DmarcWitness.toy_psl.
#[local] Existing Instance Directory.InMemoryDirectory_KeyDirectory.
#[local] Existing Instance Dkim.StaticDkimKeys_DkimKeyResolver.
#[local] Existing Instance Spf.InMemorySpfResolver_SpfResolver.
#[local] Existing Instance Dmarc.InMemoryDmarcResolver_DmarcTxtResolver.
#[local] Existing Instance InboundWitness.toy_mote.
#[local] Existing Instance InboundWitness.toy_mime.
#[local] Instance toy_cbor : KotvaMoteCbor := {| env_det_cbor := env_id |}.

Definition ep : Endpoint := {| host := "127.0.0.1"; port := 8080; path := "/ingest"; connect_timeout := 10; io_timeout := 10 |}.
Lemma endpoint_roundtrip_witness : Endpoint_new "http://127.0.0.1:8080/ingest" = Ok ep.
Proof. refine (endpoint_roundtrip "127.0.0.1" 8080 "ingest" _ _ _); [discriminate|vm_compute; reflexivity|lia]. Defined.

Definition att : Attestation.Attestation := {|
  Attestation.at_domain := "example.org"; Attestation.at_selector := "gw1"; Attestation.gateway_key := []; Attestation.received_at := 0;
  Attestation.smtp_mail_from := "a@x" +:+ String "013" (String "010" "X-Evil: 1"); Attestation.smtp_rcpt_to := "b@y";
  Attestation.mote_id := []; Attestation.at_sig := [] |}%string.
Definition env0 : @Envelope _ InboundWitness.toy_mote := ([] : bytes, as_bytes "sealed").
Lemma mesh_headers_not_injectable_witness :
  length (Dkim.split_crlf (request_of ep env0 att)) = 14%nat.
Proof.
  destruct (mesh_headers_not_injectable ep env0 att) as (E & _ & _); [vm_compute; reflexivity..|vm_compute; discriminate|].
  rewrite E. vm_compute. reflexivity.
Defined.

(** A node that takes everything. *)
Definition mesh0 : HttpMesh := {| endpoint := ep; node := λ _ _ _, Some (as_bytes "HTTP/1.1 202 Accepted" ++ Dkim.CRLF); sent := [] |}.
Definition gw : InboundGateway (D := Directory.InMemoryDirectory) (M := HttpMesh) (G := AllowAllAbuse)
    (KR := Dkim.StaticDkimKeys) (SR := Spf.InMemorySpfResolver) (DR := Dmarc.InMemoryDmarcResolver) :=
  for_own_domains [Byte.x07] [("example.org", "gw1")]%string InboundWitness.users mesh0 allow_all_abuse.
Definition accepted := accept_message_with_spf gw "<x@sender.example>" "alice@example.org" (as_bytes "hi") 1000 None [Byte.x09].
Lemma accepted_means_node_took_it_witness : ∃ env a, wrap_and_attest gw "<x@sender.example>" "alice@example.org" (as_bytes "hi") 1000 [Byte.x09] = Ok (env, a) ∧
  sent (delivery accepted.2) = [request_of ep env a].
Proof.
  destruct (accepted_means_node_took_it gw "<x@sender.example>" "alice@example.org" (as_bytes "hi") 1000 None [Byte.x09] accepted.1 accepted.2) as (env & a & _ & _ & _ & Hw & _ & _ & _ & Hs).
  - apply surjective_pairing.
  - vm_compute. reflexivity.
  - exists env, a. split; [exact Hw|exact Hs].
Defined.
End MeshWitness.
