(* ===== verification/ImapAccess.v ===== *)
(** * The IMAP access server

    [crates/gateway/src/imap_access.rs]: the transport around the mail library's IMAP
    session, with its STARTTLS upgrade, and the loading of a mailbox snapshot.  The
    session ([ImapSession]) and the framing of commands with their literals
    ([ImapFraming]) are the mail library's and parameters here; the stream is that of
    [LegacyNet], whose shape the source repeats. *)

From Stdlib Require Import ZArith Lia Ascii String.
From stdpp Require Import base decidable option sets list strings gmap sorting.
From S2P Require Import Prelude RustStr RustText LegacyNet Submission.
Local Open Scope Z_scope.

(** [kotva_mail::imap::Session]. *)
Class ImapSession (S : Type) := {
  im_greeting : S → bytes;
  im_process : S → bytes → bytes * S;
  im_logged_out : S → bool;
}.
(** [read_imap_command]: a command, if the peer sent one; what was written to ask for
    its literals; and the buffer and the stream left.  [frames raw cmd]: [raw] are the
    bytes of [cmd] on the wire. *)
Class ImapFraming := {
  read_imap_command : bytes → LegacyNet.UpgradableStream →
    result LegacyNet.IoError (option bytes) * list bytes * bytes * LegacyNet.UpgradableStream;
  frames : bytes → bytes → Prop;
}.
(** It reads the bytes of one command from the reader and nothing else. *)
Class ImapFramingLaws `{ImapFraming} := {
  frame_reads buf s cmd ws b s' :
    read_imap_command buf s = (Ok (Some cmd), ws, b, s') → s ≠ LegacyNet.Taken →
    LegacyNet.on_tls s' = LegacyNet.on_tls s ∧ s' ≠ LegacyNet.Taken ∧
    ∃ raw, raw ≠ [] ∧ frames raw cmd ∧
      buf ++ LegacyNet.received (LegacyNet.pending s) = raw ++ b ++ LegacyNet.received (LegacyNet.pending s');
}.

(** [kotva_mail::store::MemoryStore]: [deliver_raw("INBOX", raw, vec![Flag::Recent], ts)],
    with whether the message was taken. *)
Class MailStore (S : Type) := { store_new : S; deliver_raw : bytes → Z → S → bool * S }.

Module ImapAccess.
Import LegacyNet.

Definition is_starttls_command (cmd : bytes) : bool :=
  match split_whitespace (from_utf8_lossy cmd) !! 1%nat with
  | Some word => eq_ignore_ascii_case word "STARTTLS"
  | None => false
  end.
Definition response_is_ok (resp : bytes) : bool :=
  existsb (λ l, negb (starts_with_char "*" l) && negb (starts_with_char "+" l) && contains_str " OK" l) (str_lines (from_utf8_lossy resp)).

Section session.
Context {S : Type} `{IS : ImapSession S} `{IF : !ImapFraming}.
Record Conn := {
  session : S;
  buffer : bytes;
  stream : UpgradableStream;
  secured : bool;
  out : list (bool * bytes);
}.
Definition say (peer : Peer) (text : bytes) (c : Conn) : result IoError unit * Conn :=
  match write_fault peer (length (out c)) with
  | Some e => (Err e, c)
  | None => (Ok tt, {| session := session c; buffer := buffer c; stream := stream c; secured := secured c;
                       out := out c ++ [(on_tls (stream c), text)] |})
  end.
Definition with_input (ws : list bytes) (b : bytes) (s : UpgradableStream) (c : Conn) : Conn :=
  {| session := session c; buffer := b; stream := s; secured := secured c; out := out c ++ (pair (on_tls (stream c)) <$> ws) |}.
Definition with_session (s : S) (c : Conn) : Conn :=
  {| session := s; buffer := buffer c; stream := stream c; secured := secured c; out := out c |}.
Definition with_secured (s : UpgradableStream) (b : bool) (c : Conn) : Conn :=
  {| session := session c; buffer := buffer c; stream := s; secured := b; out := out c |}.

Definition upgrade_conn (peer : Peer) (c : Conn) : result IoError unit * Conn :=
  if bool_decide (buffer c = []) then
    match upgrade (behind peer) (stream c) with
    | (Err e, s) => (Err e, with_secured s (secured c) c)
    | (Ok _, s) => (Ok tt, with_secured s true c)
    end
  else (Err PipelinedData, c).
Definition handle_command (peer : Peer) (cmd : bytes) (c : Conn) : option (result IoError unit) * Conn :=
  let wants_starttls := negb (secured c) && is_starttls_command cmd in
  let '(resp, s) := im_process (session c) cmd in
  let accepted := response_is_ok resp in
  match say peer resp (with_session s c) with
  | (Err e, c) => (Some (Err e), c)
  | (Ok _, c) =>
      match (if wants_starttls && accepted then upgrade_conn peer c else (Ok tt, c)) with
      | (Err e, c) => (Some (Err e), c)
      | (Ok _, c) => (if im_logged_out (session c) then Some (Ok tt) else None, c)
      end
  end.
Definition iterate (peer : Peer) (c : Conn) : option (result IoError unit) * Conn :=
  match read_imap_command (buffer c) (stream c) with
  | (Err e, ws, b, s) => (Some (Err e), with_input ws b s c)
  | (Ok None, ws, b, s) => (Some (Ok tt), with_input ws b s c)
  | (Ok (Some cmd), ws, b, s) => handle_command peer cmd (with_input ws b s c)
  end.
Fixpoint serve_loop (peer : Peer) (fuel : nat) (c : Conn) : option (result IoError unit * Conn) :=
  match fuel with
  | O => None
  | Datatypes.S fuel =>
      match iterate peer c with
      | (Some r, c) => Some (r, c)
      | (None, c) => serve_loop peer fuel c
      end
  end.
(** [new tls]: the session for a channel that is confidential or not yet. *)
Definition start (implicit : bool) (peer : Peer) (socket : list ReadResult) (new : bool → S) : result IoError Conn :=
  if implicit then
    match behind peer with
    | None => Err HandshakeFailed
    | Some rs => Ok {| session := new true; buffer := []; stream := Tls rs; secured := true; out := [] |}
    end
  else Ok {| session := new false; buffer := []; stream := Plain socket; secured := false; out := [] |}.
Definition handle_connection (implicit : bool) (peer : Peer) (socket : list ReadResult) (new : bool → S)
    : option (result IoError unit * option Conn) :=
  match start implicit peer socket new with
  | Err e => Some (Err e, None)
  | Ok c =>
      match say peer (im_greeting (session c)) c with
      | (Err e, c) => Some (Err e, Some c)
      | (Ok _, c) => '(r, c) ← serve_loop peer (fuel_for peer socket) c; Some (r, Some c)
      end
  end.

(** ** Which commands reach the session *)

Definition commands (s : S) (cmds : list bytes) : S := foldl (λ s c, (im_process s c).2) s cmds.
(** The bytes of a sequence of commands. *)
Inductive framed : bytes → list bytes → Prop :=
| framed_nil : framed [] []
| framed_snoc raw cmds r cmd : framed raw cmds → frames r cmd → framed (raw ++ r) (cmds ++ [cmd]).

Context `{FL : !ImapFramingLaws}.
Definition coherent (c : Conn) : Prop :=
  match stream c with Plain _ => secured c = false | Tls _ => secured c = true | Taken => False end.
Definition remaining (peer : Peer) (c : Conn) : nat :=
  length (buffer c ++ received (pending (stream c))) +
  (match stream c with Plain _ => length (received (default [] (behind peer))) | _ => 0 end).

(** The connection after a command: as it was, upgraded with an empty buffer, or
    ended. *)
Lemma handle_command_effect peer cmd c o c' :
  coherent c → handle_command peer cmd c = (o, c') →
  session c' = (im_process (session c) cmd).2 ∧
  ((buffer c' = buffer c ∧ stream c' = stream c ∧ secured c' = secured c) ∨
   (secured c = false ∧ buffer c = [] ∧ buffer c' = [] ∧ secured c' = true ∧
      ∃ rs0 rs, stream c = Plain rs0 ∧ behind peer = Some rs ∧ stream c' = Tls rs) ∨
   (secured c = false ∧ o ≠ None)).
Proof using.
  intros Hc H. unfold handle_command in H. destruct (im_process (session c) cmd) as [resp s] eqn:Ep. cbn [snd].
  assert (∀ r c1, say peer resp (with_session s c) = (r, c1) →
    session c1 = s ∧ buffer c1 = buffer c ∧ stream c1 = stream c ∧ secured c1 = secured c) as Hsay.
  { intros r c1. unfold say. destruct (write_fault _ _); intros [= <- <-]; done. }
  destruct (say peer resp (with_session s c)) as [[[]|e] c1]; destruct (Hsay _ _ eq_refl) as (S1 & S2 & S3 & S4).
  2: { apply pair_equal_spec in H as [<- <-]. split; [done|by left]. }
  destruct (negb (secured c) && is_starttls_command cmd && response_is_ok resp) eqn:Ew.
  2: { apply pair_equal_spec in H as [<- <-]. split; [done|by left]. }
  apply andb_true_iff in Ew as [[Hns%negb_true_iff _]%andb_true_iff _]. unfold upgrade_conn in H. case_bool_decide as Hb.
  2: { apply pair_equal_spec in H as [<- <-]. split; [done|by left]. }
  unfold coherent in Hc. destruct (stream c) as [rs0|rs0|] eqn:Es; [|congruence|done]. rewrite S3 in H. cbn [upgrade] in H.
  destruct (behind peer) as [rs|] eqn:Ebh; apply pair_equal_spec in H as [<- <-]; (split; [done|]).
  - right; left. cbn. split_and!; try done; [congruence|]. by exists rs0, rs.
  - right; right. done.
Qed.
Lemma iterate_command peer c o c' :
  coherent c → iterate peer c = (o, c') →
  (∃ cmd raw ws b s, raw ≠ [] ∧ frames raw cmd ∧ coherent (with_input ws b s c) ∧
     buffer c ++ received (pending (stream c)) = raw ++ b ++ received (pending s) ∧ on_tls s = on_tls (stream c) ∧
     handle_command peer cmd (with_input ws b s c) = (o, c')) ∨
  (o ≠ None ∧ session c' = session c ∧ secured c' = secured c).
Proof using FL.
  intros Hc H. unfold iterate in H. destruct (read_imap_command _ _) as [[[[cmd|e] ws] b] s] eqn:E.
  - destruct cmd as [cmd|]; [|right; by apply pair_equal_spec in H as [<- <-]].
    left. destruct (frame_reads _ _ _ _ _ _ E) as (Ht & Hnt & raw & Hne & Hf & Hraw).
    { intros Et. unfold coherent in Hc. by rewrite Et in Hc. }
    exists cmd, raw, ws, b, s. split_and!; try done. unfold coherent in *. cbn. by destruct s, (stream c).
  - right. by apply pair_equal_spec in H as [<- <-].
Qed.
Lemma iterate_coherent peer c c' :
  coherent c → iterate peer c = (None, c') → coherent c' ∧ (remaining peer c' < remaining peer c)%nat.
Proof using FL.
  intros Hc H. destruct (iterate_command _ _ _ _ Hc H) as [(cmd & raw & ws & b & s & Hne & _ & Hi & Hraw & Ht & Hh)|(? & _)]; [|done].
  assert (0 < length raw)%nat by (destruct raw; [done|cbn; lia]). apply (f_equal length) in Hraw. rewrite (length_app raw) in Hraw.
  destruct (handle_command_effect _ _ _ _ _ Hi Hh) as [_ [(K1 & K2 & K3)|[(U1 & U2 & U3 & U4 & rs0 & rs & U5 & U6 & U7)|(_ & ?)]]]; [..|done].
  - unfold coherent, remaining in *. rewrite K1, K2, K3. cbn in *. split; [done|]. destruct (stream c), s; cbn in *; try done; lia.
  - unfold coherent, remaining in *. rewrite U7, U3. cbn in *. split; [done|]. subst s b. destruct (stream c); [|done..]. cbn in *. rewrite U6. cbn. lia.
Qed.
Lemma imap_loop_ends peer fuel c : coherent c → (remaining peer c < fuel)%nat → is_Some (serve_loop peer fuel c).
Proof using FL.
  revert c. induction fuel as [|fuel IH]; intros c Hc Hf; [lia|]. cbn [serve_loop]. destruct (iterate peer c) as [[r|] c'] eqn:E; [by eauto|].
  destruct (iterate_coherent _ _ _ Hc E). apply IH; [done|lia].
Qed.

Section origin.
Context (peer : Peer) (socket : list ReadResult) (s0 : S).
Local Notation behind_reads := (default [] (behind peer)).
(** The commands processed so far, [l1] of what came in clear and [l2] of what came
    through TLS, with their bytes. *)
Definition processed (c : Conn) (raw1 raw2 : bytes) (l1 l2 : list bytes) : Prop :=
  session c = commands s0 (l1 ++ l2) ∧ framed raw1 l1 ∧ framed raw2 l2 ∧
  raw1 `prefix_of` received socket ∧ raw2 `prefix_of` received behind_reads ∧ (secured c = false → l2 = []).
Definition ahead (c : Conn) (raw1 raw2 : bytes) : Prop :=
  match stream c with
  | Plain rs => received socket = raw1 ++ buffer c ++ received rs ∧ raw2 = []
  | Tls rs => received behind_reads = raw2 ++ buffer c ++ received rs
  | Taken => False
  end.
Lemma commands_snoc l c : commands s0 (l ++ [c]) = (im_process (commands s0 l) c).2.
Proof using. unfold commands. by rewrite foldl_app. Qed.
Lemma iterate_processed c o c' raw1 raw2 l1 l2 :
  coherent c → iterate peer c = (o, c') → processed c raw1 raw2 l1 l2 → ahead c raw1 raw2 →
  ∃ raw1' raw2' l1' l2', processed c' raw1' raw2' l1' l2' ∧ (secured c = true → l1' = l1 ∧ secured c' = true) ∧ (o = None → ahead c' raw1' raw2').
Proof using FL.
  intros Hc H (P1 & P2 & P3 & P4 & P5 & P6) Ha.
  destruct (iterate_command _ _ _ _ Hc H) as [(cmd & raw & ws & b & s & Hne & Hf & Hi & Hraw & Ht & Hh)|(Ho & Hs & Hsec)].
  2: { exists raw1, raw2, l1, l2. unfold processed. rewrite Hs, Hsec. split_and!; done. }
  destruct (handle_command_effect _ _ _ _ _ Hi Hh) as [Hsess Hcase]. cbn in Hsess, Hcase. unfold coherent in Hc. unfold ahead in Ha.
  destruct (stream c) as [rs|rs|] eqn:Es; [..|done]; cbn [pending] in Hraw.
  - destruct Ha as [Ha ->]. rewrite (P6 Hc), app_nil_r in *. exists (raw1 ++ raw), [], (l1 ++ [cmd]), []. split; [|split; [congruence|]].
    + split_and!; [rewrite app_nil_r, commands_snoc; congruence|by constructor|done| |apply prefix_nil|done].
      rewrite Ha, Hraw, app_assoc. by eexists.
    + intros Hn. unfold ahead. destruct Hcase as [(K1 & K2 & K3)|[(_ & U2 & U3 & U4 & rs0 & rs1 & U5 & U6 & U7)|(_ & ?)]]; [..|done].
      * rewrite K1, K2. destruct s as [rs'|rs'|]; [|done..]. cbn [pending] in Hraw. rewrite Ha, Hraw. by rewrite <- app_assoc.
      * rewrite U7, U6, U3. done.
  - destruct Hcase as [(K1 & K2 & K3)|[(U & _)|(U & _)]]; [|congruence..]. exists raw1, (raw2 ++ raw), l1, (l2 ++ [cmd]).
    destruct s as [rs'|rs'|]; [done| |done]. cbn [pending] in Hraw. split; [|split; [by rewrite K3|]].
    + split_and!; [rewrite app_assoc, commands_snoc; congruence|done|by constructor|done| |congruence].
      rewrite Ha, Hraw, app_assoc. by eexists.
    + intros _. unfold ahead. rewrite K1, K2, Ha, Hraw. by rewrite <- app_assoc.
Qed.
Lemma serve_loop_processed fuel c r c' raw1 raw2 l1 l2 :
  coherent c → serve_loop peer fuel c = Some (r, c') → processed c raw1 raw2 l1 l2 → ahead c raw1 raw2 →
  ∃ raw1' raw2' l1' l2', processed c' raw1' raw2' l1' l2' ∧ (secured c = true → l1' = l1).
Proof using FL.
  revert c raw1 raw2 l1 l2. induction fuel as [|fuel IH]; intros c raw1 raw2 l1 l2 Hc H Hp Ha; [done|]. cbn [serve_loop] in H.
  destruct (iterate peer c) as [o c1] eqn:E. destruct (iterate_processed _ _ _ _ _ _ _ Hc E Hp Ha) as (r1 & r2 & m1 & m2 & Hp' & H1 & Ha').
  destruct o as [r0|].
  { injection H as <- <-. exists r1, r2, m1, m2. split; [done|]. intros Hs. by apply H1. }
  destruct (iterate_coherent _ _ _ Hc E) as [Hc' _]. destruct (IH _ _ _ _ _ Hc' H Hp' (Ha' eq_refl)) as (r1' & r2' & m1' & m2' & Hp'' & H2).
  exists r1', r2', m1', m2'. split; [done|]. intros Hs. destruct (H1 Hs) as [<- Hs1]. auto.
Qed.
End origin.

Lemma start_ok implicit peer socket new c :
  start implicit peer socket new = Ok c →
  coherent c ∧ session c = new implicit ∧ secured c = implicit ∧ (remaining peer c < fuel_for peer socket)%nat ∧
  ahead peer socket c [] [].
Proof using.
  unfold start, fuel_for, remaining, coherent, ahead. destruct implicit; [destruct (behind peer) as [rs|] eqn:E|]; intros H; simplify_eq; cbn; rewrite ?E; cbn; split_and!; try done; lia.
Qed.
(** Whatever the peer does, an IMAP connection ends, and the session has processed
    commands framed from the bytes that came in clear and then commands framed from
    the bytes that came through TLS: nothing a peer sends in clear behind [STARTTLS]
    becomes a command of the secured session.  With implicit TLS there are no commands
    in clear. *)
Theorem imap_upgrade_isolates_plaintext implicit peer socket new :
  ∃ r oc, handle_connection implicit peer socket new = Some (r, oc) ∧
    ∀ c, oc = Some c → ∃ raw1 raw2 l1 l2,
      session c = commands (new implicit) (l1 ++ l2) ∧ framed raw1 l1 ∧ framed raw2 l2 ∧
      raw1 `prefix_of` received socket ∧ raw2 `prefix_of` received (default [] (behind peer)) ∧
      (secured c = false → l2 = []) ∧ (implicit = true → l1 = []).
Proof using FL.
  unfold handle_connection. destruct (start implicit peer socket new) as [c0|e] eqn:E0; [|by eexists _, _].
  destruct (start_ok _ _ _ _ _ E0) as (Hc & Hs & Hsec & Hf & Ha).
  assert (∀ r c1, say peer (im_greeting (session c0)) c0 = (r, c1) →
    session c1 = session c0 ∧ buffer c1 = buffer c0 ∧ stream c1 = stream c0 ∧ secured c1 = secured c0) as Hsay.
  { intros r c1. unfold say. destruct (write_fault _ _); intros [= <- <-]; done. }
  destruct (say peer (im_greeting (session c0)) c0) as [r c1] eqn:Ew. destruct (Hsay _ _ eq_refl) as (S1 & S2 & S3 & S4).
  assert (processed peer socket (new implicit) c1 [] [] [] []) as Hp.
  { split_and!; [by rewrite S1, Hs|constructor|constructor|apply prefix_nil..|done]. }
  destruct r as [[]|e].
  2: { eexists _, _. split; [done|]. intros c [= <-]. destruct Hp as (? & ? & ? & ? & ? & ?). by exists [], [], [], []. }
  assert (coherent c1) as Hc1 by (unfold coherent in *; by rewrite S3, S4).
  assert (ahead peer socket c1 [] []) as Ha1 by (unfold ahead in *; by rewrite S2, S3).
  destruct (imap_loop_ends peer (fuel_for peer socket) c1 Hc1) as [[r c2] El]; [unfold remaining in *; by rewrite S2, S3|].
  rewrite El. eexists _, _. split; [done|]. intros c [= <-].
  destruct (serve_loop_processed _ _ _ _ _ _ _ _ _ _ _ Hc1 El Hp Ha1) as (raw1 & raw2 & l1 & l2 & (P1 & P2 & P3 & P4 & P5 & P6) & Hi).
  exists raw1, raw2, l1, l2. split_and!; try done. intros ->. apply Hi. congruence.
Qed.
End session.

(** ** The mailbox snapshot *)

(** [path.extension()] of a file name. *)
Definition extension (name : string) : option string :=
  match rsplit_once "." name with
  | Some (EmptyString, _) | None => None
  | Some (_, e) => Some e
  end.
Definition is_eml (name : string) : bool := match extension name with Some x => eq_ignore_ascii_case x "eml" | None => false end.
(** A directory as [read_dir] lists it, and what reading a file of it gives. *)
Record Maildir := { listing : list string; read_file : string → option bytes; mtime : string → option Z }.
Definition file_mtime_ms (d : Maildir) (name : string) : Z := default 0 (mtime d name).
Fixpoint read_all (d : Maildir) (names : list string) : option (list (bytes * Z)) :=
  match names with
  | [] => Some []
  | n :: names => raw ← read_file d n; rest ← read_all d names; Some ((raw, file_mtime_ms d n) :: rest)
  end.
(** [None]: the directory is missing or a file cannot be read. *)
Definition load_maildir_messages (d : option Maildir) : option (list (bytes * Z)) :=
  d ← d; read_all d (merge_sort String.le (List.filter is_eml (listing d))).

Fixpoint seed_inbox {S} `{MailStore S} (messages : list (bytes * Z)) (st : S) : nat * S :=
  match messages with
  | [] => (0%nat, st)
  | (raw, ts) :: messages =>
      let '(taken, st) := deliver_raw raw ts st in
      let '(n, st) := seed_inbox messages st in
      ((if taken then Datatypes.S n else n), st)
  end.
Definition seed_store_from_maildir {S} `{MailStore S} (d : option Maildir) (st : S) : option nat * S :=
  match load_maildir_messages d with
  | None => (None, st)
  | Some messages => let '(n, st) := seed_inbox messages st in (Some n, st)
  end.
(** The accept loop is the one of the other access servers. *)
Definition serve_until : list Listener.Round → Listener.Server → bool * Listener.Server := Listener.serve_until.

Lemma filter_perm (p : string → bool) l l' : l ≡ₚ l' → List.filter p l ≡ₚ List.filter p l'.
Proof.
  induction 1 as [|x l l' _ IH|x y l|l l' l'' _ IH1 _ IH2]; cbn; [done| | |by etransitivity].
  - destruct (p x); [by constructor|done].
  - destruct (p x), (p y); try done. constructor.
Qed.
(** The snapshot does not depend on the order in which the directory is listed. *)
Theorem maildir_order_independent l l' rd mt :
  l ≡ₚ l' →
  load_maildir_messages (Some {| listing := l; read_file := rd; mtime := mt |}) =
  load_maildir_messages (Some {| listing := l'; read_file := rd; mtime := mt |}).
Proof.
  intros Hp. unfold load_maildir_messages. cbn [mbind option_bind listing].
  assert (merge_sort String.le (List.filter is_eml l) = merge_sort String.le (List.filter is_eml l')) as ->.
  { apply (StronglySorted_unique String.le); try (apply StronglySorted_merge_sort; apply _); [apply _..|].
    etransitivity; [apply merge_sort_Permutation|]. etransitivity; [by apply filter_perm|]. symmetry. apply merge_sort_Permutation. }
  generalize (merge_sort String.le (List.filter is_eml l')) as ns. induction ns as [|n ns IH]; [done|]. cbn [read_all]. by rewrite IH.
Qed.
End ImapAccess.

(** A framing that takes a whole read as a command, and a session that remembers its
    commands. *)
Module ImapWitness.
Import LegacyNet ImapAccess.
Definition take_chunk (rs : list ReadResult) : option (bytes * list ReadResult) :=
  match rs with Got b bs :: rs => Some (b :: bs, rs) | _ => None end.
#[local] Instance chunks : ImapFraming := {|
  read_imap_command buf s :=
    match buf with
    | _ :: _ => (Ok (Some buf), [], [], s)
    | [] =>
        match s, take_chunk (pending s) with
        | Plain _, Some (c, rs) => (Ok (Some c), [], [], Plain rs)
        | Tls _, Some (c, rs) => (Ok (Some c), [], [], Tls rs)
        | _, _ => (Ok None, [], [], s)
        end
    end;
  frames raw cmd := raw = cmd
|}.
#[local] Instance chunks_laws : ImapFramingLaws.
Proof.
  split. intros [|b buf] s cmd ws b' s' H Hs; cbn in H.
  - destruct s as [rs|rs|]; [..|done]; destruct rs as [|[c cs| |] rs]; cbn in H; inversion H; subst; clear H;
      (split; [done|]; split; [done|]; by exists (c :: cs)).
  - inversion H; subst; clear H. split; [done|]. split; [done|]. exists (b :: buf). by rewrite app_nil_l.
Qed.
#[local] Instance recorder : ImapSession (list bytes) := {|
  im_greeting _ := as_bytes "* OK";
  im_process s c := (as_bytes "a OK", s ++ [c]);
  im_logged_out s := bool_decide (length s = 3%nat);
|}.
Definition got (s : string) : list ReadResult := match as_bytes s with b :: r => [Got b r] | [] => [] end.
Definition peer : Peer := {| behind := Some (got "a LOGIN" ++ got "a LOGOUT"); write_fault _ := None |}.
Definition clear_text : list ReadResult := got "a STARTTLS" ++ got "a LOGIN".
(** The command sent in clear behind [STARTTLS] does not reach the session. *)
Lemma imap_upgrade_isolates_plaintext_witness :
  ∃ r c, handle_connection false peer clear_text (λ _, []) = Some (r, Some c) ∧
    session c = [as_bytes "a STARTTLS"; as_bytes "a LOGIN"; as_bytes "a LOGOUT"] ∧
    ∃ raw1 raw2 l1 l2, session c = commands [] (l1 ++ l2) ∧ framed raw1 l1 ∧ framed raw2 l2 ∧
      raw1 `prefix_of` received clear_text.
Proof.
  destruct (imap_upgrade_isolates_plaintext false peer clear_text (λ _, [])) as (r & oc & E & H).
  assert (∃ c, oc = Some c ∧ session c = [as_bytes "a STARTTLS"; as_bytes "a LOGIN"; as_bytes "a LOGOUT"]) as (c & Hc & Hs).
  { revert E. vm_compute. intros E. inversion E; subst. eexists. split; reflexivity. }
  exists r, c. rewrite Hc in *. split; [exact E|]. split; [exact Hs|].
  destruct (H c eq_refl) as (raw1 & raw2 & l1 & l2 & H1 & H2 & H3 & H4 & _). exists raw1, raw2, l1, l2. split_and!; assumption.
Defined.
Lemma maildir_order_independent_witness :
  load_maildir_messages (Some {| listing := ["b.eml"; "notes"; "a.EML"]%string; read_file n := Some (as_bytes n); mtime _ := None |}) =
  load_maildir_messages (Some {| listing := ["a.EML"; "b.eml"; "notes"]%string; read_file n := Some (as_bytes n); mtime _ := None |}).
Proof.
  apply (maildir_order_independent ["b.eml"; "notes"; "a.EML"]%string ["a.EML"; "b.eml"; "notes"]%string).
  apply (Permutation_app_comm ["b.eml"; "notes"]%string ["a.EML"]%string).
Defined.
End ImapWitness.
