(* ===== verification/Personal.v ===== *)
(** * The configuration of the personal gateway

    [crates/gateway/src/personal.rs] with the spelling of [ImapTls] from
    [imap_access.rs]: the configuration, its file format and its environment
    variables.  The start of the daemon from a configuration is in [Startup.v]. *)

From Stdlib Require Import ZArith Lia Ascii String.
From stdpp Require Import base decidable option sets list strings gmap.
From S2P Require Import Prelude RustStr RustText B64 Kotva Provenance Dkim Directory Admission Quota MultiDomain MtaSts LegacyNet Submission Admin.
Local Open Scope Z_scope.

Module Personal.
Notation dq := Admin.dq.

(** ** Values *)

Record SocketAddr := { sa_ip : IpAddr; sa_scope : Z; sa_port : Z }.
#[global] Instance SocketAddr_eq_dec : EqDecision SocketAddr.
Proof. solve_decision. Defined.
Definition read_given (c : ascii) (s : string) : option string :=
  match s with String d r => if is_char c d then Some r else None | EmptyString => None end.
(** [Parser::read_port] and [Parser::read_scope_id]: any number of digits. *)
Definition read_port (s : string) : option (Z * string) :=
  s ← read_given ":" s; read_number digit_value 10 (String.length s) true 65535 s.
Definition read_scope_id (s : string) : option (Z * string) :=
  s ← read_given "%" s; read_number digit_value 10 (String.length s) true 4294967295 s.
Definition read_socket_addr_v4 (s : string) : option (SocketAddr * string) :=
  '(ip, s) ← read_ipv4_addr s; '(port, s) ← read_port s;
  Some ({| sa_ip := V4 ip; sa_scope := 0; sa_port := port |}, s).
Definition read_socket_addr_v6 (s : string) : option (SocketAddr * string) :=
  s ← read_given "[" s; '(ip, s) ← read_ipv6_addr s;
  let '(scope, s) := match read_scope_id s with Some (n, s) => (n, s) | None => (0, s) end in
  s ← read_given "]" s; '(port, s) ← read_port s;
  Some ({| sa_ip := V6 ip; sa_scope := scope; sa_port := port |}, s).
(** [v.parse::<SocketAddr>()]. *)
Definition parse_socket_addr (s : string) : option SocketAddr :=
  parse_with (λ s, match read_socket_addr_v4 s with Some r => Some r | None => read_socket_addr_v6 s end) s.
Definition default_dns_server : SocketAddr := {| sa_ip := V4 16843009; sa_scope := 0; sa_port := 53 |}.

Inductive ImapTls := ImapStartTls | ImapImplicit.
#[global] Instance imap_tls_eq_dec : EqDecision ImapTls.
Proof. solve_decision. Defined.
Definition ImapTls_parse (v : string) : option ImapTls :=
  let w := to_ascii_lowercase (trim v) in
  if bool_decide (w ∈ ["starttls"; "start-tls"; "start_tls"]%string) then Some ImapStartTls
  else if bool_decide (w ∈ ["implicit"; "implicit-tls"; "tls"; "993"]%string) then Some ImapImplicit
  else None.

Record PersonalConfig := {
  domain : string;
  listen : string;
  selector : string;
  dns_server : SocketAddr;
  directory : option string;
  mesh_endpoint : option string;
  tls_cert : option string;
  tls_key : option string;
  authz_mode : Admission.AuthzMode;
  dkim_enforce : bool;
  spf_enforce : bool;
  dmarc_enforce : bool;
  quota_messages : Z;
  quota_bytes : Z;
  imap_enable : bool;
  imap_listen : string;
  imap_tls : ImapTls;
  imap_credentials : option string;
  imap_maildir : option string;
  gateway_mode : Admission.GatewayMode;
  pop3_enable : bool;
  pop3_listen : string;
  pop3_tls : LegacyNet.LegacyTls;
  submission_enable : bool;
  submission_listen : string;
  submission_tls : LegacyNet.LegacyTls;
  submission_spool : option string;
  submission_native_domains : option string;
}.

Definition default_config : PersonalConfig := {|
  domain := "localhost";
  listen := "0.0.0.0:2525";
  selector := "gw1";
  dns_server := default_dns_server;
  directory := None;
  mesh_endpoint := None;
  tls_cert := None;
  tls_key := None;
  authz_mode := Admission.KeyRegistered;
  dkim_enforce := false;
  spf_enforce := false;
  dmarc_enforce := false;
  quota_messages := 0;
  quota_bytes := 0;
  imap_enable := false;
  imap_listen := "127.0.0.1:1143";
  imap_tls := ImapStartTls;
  imap_credentials := None;
  imap_maildir := None;
  gateway_mode := Admission.Private;
  pop3_enable := false;
  pop3_listen := "127.0.0.1:1110";
  pop3_tls := LegacyNet.StartTls;
  submission_enable := false;
  submission_listen := "127.0.0.1:1587";
  submission_tls := LegacyNet.StartTls;
  submission_spool := None;
  submission_native_domains := None |}%string.

Inductive ConfigError :=
| IoFailed (path : string)
| Syntax (line : nat) (raw : string)
| BadValue (line : nat) (key value reason : string)
| UnknownKey (line : nat) (key : string)
| PartialTls.

(** ** The file format *)

Definition is_ascii_whitespace (c : ascii) : bool :=
  is_char " " c || is_char "009" c || is_char "010" c || is_char "012" c || is_char "013" c.
(** The text before a [#] that starts the line or follows white space; [start]: the
    place in front of [s] is such a one. *)
Fixpoint comment_scan (start : bool) (s : string) : string :=
  match s with
  | EmptyString => EmptyString
  | String c r => if is_char "#" c && start then EmptyString else String c (comment_scan (is_ascii_whitespace c) r)
  end.
Definition strip_comment (line : string) : string := comment_scan true line.
(** The last character, dropped. *)
Fixpoint init (s : string) : string :=
  match s with
  | EmptyString | String _ EmptyString => EmptyString
  | String c r => String c (init r)
  end.
Definition unquote (value : string) : string :=
  let v := trim value in
  match v with
  | String c (String _ _ as r) => if is_char "034" c && ends_with_char "034" v then init r else v
  | _ => v
  end.
Definition non_empty (v : string) : option string :=
  let t := trim v in if bool_decide (t = EmptyString) then None else Some t.
Definition parse_bool (v : string) : option bool :=
  let w := to_ascii_lowercase (trim v) in
  if bool_decide (w ∈ ["true"; "1"; "yes"; "on"]%string) then Some true
  else if bool_decide (w ∈ ["false"; "0"; "no"; "off"]%string) then Some false
  else None.
Definition parse_authz_mode (v : string) : option Admission.AuthzMode :=
  let w := replace_char "_" "-" (to_ascii_lowercase (trim v)) in
  if bool_decide (w ∈ ["key-registered"; "keyregistered"; "registered"]%string) then Some Admission.KeyRegistered
  else if bool_decide (w ∈ ["open-public"; "openpublic"; "open"; "public"]%string) then Some Admission.OpenPublic
  else None.

(** Field updates. *)
Definition set_domain (x : string) (c : PersonalConfig) : PersonalConfig := {|
  domain := x; listen := listen c; selector := selector c; dns_server := dns_server c; directory := directory c;
  mesh_endpoint := mesh_endpoint c; tls_cert := tls_cert c; tls_key := tls_key c; authz_mode := authz_mode c;
  dkim_enforce := dkim_enforce c; spf_enforce := spf_enforce c; dmarc_enforce := dmarc_enforce c;
  quota_messages := quota_messages c; quota_bytes := quota_bytes c; imap_enable := imap_enable c;
  imap_listen := imap_listen c; imap_tls := imap_tls c; imap_credentials := imap_credentials c;
  imap_maildir := imap_maildir c; gateway_mode := gateway_mode c; pop3_enable := pop3_enable c;
  pop3_listen := pop3_listen c; pop3_tls := pop3_tls c; submission_enable := submission_enable c;
  submission_listen := submission_listen c; submission_tls := submission_tls c;
  submission_spool := submission_spool c; submission_native_domains := submission_native_domains c |}.
Definition set_listen (x : string) (c : PersonalConfig) : PersonalConfig := {|
  domain := domain c; listen := x; selector := selector c; dns_server := dns_server c; directory := directory c;
  mesh_endpoint := mesh_endpoint c; tls_cert := tls_cert c; tls_key := tls_key c; authz_mode := authz_mode c;
  dkim_enforce := dkim_enforce c; spf_enforce := spf_enforce c; dmarc_enforce := dmarc_enforce c;
  quota_messages := quota_messages c; quota_bytes := quota_bytes c; imap_enable := imap_enable c;
  imap_listen := imap_listen c; imap_tls := imap_tls c; imap_credentials := imap_credentials c;
  imap_maildir := imap_maildir c; gateway_mode := gateway_mode c; pop3_enable := pop3_enable c;
  pop3_listen := pop3_listen c; pop3_tls := pop3_tls c; submission_enable := submission_enable c;
  submission_listen := submission_listen c; submission_tls := submission_tls c;
  submission_spool := submission_spool c; submission_native_domains := submission_native_domains c |}.
Definition set_selector (x : string) (c : PersonalConfig) : PersonalConfig := {|
  domain := domain c; listen := listen c; selector := x; dns_server := dns_server c; directory := directory c;
  mesh_endpoint := mesh_endpoint c; tls_cert := tls_cert c; tls_key := tls_key c; authz_mode := authz_mode c;
  dkim_enforce := dkim_enforce c; spf_enforce := spf_enforce c; dmarc_enforce := dmarc_enforce c;
  quota_messages := quota_messages c; quota_bytes := quota_bytes c; imap_enable := imap_enable c;
  imap_listen := imap_listen c; imap_tls := imap_tls c; imap_credentials := imap_credentials c;
  imap_maildir := imap_maildir c; gateway_mode := gateway_mode c; pop3_enable := pop3_enable c;
  pop3_listen := pop3_listen c; pop3_tls := pop3_tls c; submission_enable := submission_enable c;
  submission_listen := submission_listen c; submission_tls := submission_tls c;
  submission_spool := submission_spool c; submission_native_domains := submission_native_domains c |}.
Definition set_dns_server (x : SocketAddr) (c : PersonalConfig) : PersonalConfig := {|
  domain := domain c; listen := listen c; selector := selector c; dns_server := x; directory := directory c;
  mesh_endpoint := mesh_endpoint c; tls_cert := tls_cert c; tls_key := tls_key c; authz_mode := authz_mode c;
  dkim_enforce := dkim_enforce c; spf_enforce := spf_enforce c; dmarc_enforce := dmarc_enforce c;
  quota_messages := quota_messages c; quota_bytes := quota_bytes c; imap_enable := imap_enable c;
  imap_listen := imap_listen c; imap_tls := imap_tls c; imap_credentials := imap_credentials c;
  imap_maildir := imap_maildir c; gateway_mode := gateway_mode c; pop3_enable := pop3_enable c;
  pop3_listen := pop3_listen c; pop3_tls := pop3_tls c; submission_enable := submission_enable c;
  submission_listen := submission_listen c; submission_tls := submission_tls c;
  submission_spool := submission_spool c; submission_native_domains := submission_native_domains c |}.
Definition set_directory (x : option string) (c : PersonalConfig) : PersonalConfig := {|
  domain := domain c; listen := listen c; selector := selector c; dns_server := dns_server c; directory := x;
  mesh_endpoint := mesh_endpoint c; tls_cert := tls_cert c; tls_key := tls_key c; authz_mode := authz_mode c;
  dkim_enforce := dkim_enforce c; spf_enforce := spf_enforce c; dmarc_enforce := dmarc_enforce c;
  quota_messages := quota_messages c; quota_bytes := quota_bytes c; imap_enable := imap_enable c;
  imap_listen := imap_listen c; imap_tls := imap_tls c; imap_credentials := imap_credentials c;
  imap_maildir := imap_maildir c; gateway_mode := gateway_mode c; pop3_enable := pop3_enable c;
  pop3_listen := pop3_listen c; pop3_tls := pop3_tls c; submission_enable := submission_enable c;
  submission_listen := submission_listen c; submission_tls := submission_tls c;
  submission_spool := submission_spool c; submission_native_domains := submission_native_domains c |}.
Definition set_mesh_endpoint (x : option string) (c : PersonalConfig) : PersonalConfig := {|
  domain := domain c; listen := listen c; selector := selector c; dns_server := dns_server c;
  directory := directory c; mesh_endpoint := x; tls_cert := tls_cert c; tls_key := tls_key c;
  authz_mode := authz_mode c; dkim_enforce := dkim_enforce c; spf_enforce := spf_enforce c;
  dmarc_enforce := dmarc_enforce c; quota_messages := quota_messages c; quota_bytes := quota_bytes c;
  imap_enable := imap_enable c; imap_listen := imap_listen c; imap_tls := imap_tls c;
  imap_credentials := imap_credentials c; imap_maildir := imap_maildir c; gateway_mode := gateway_mode c;
  pop3_enable := pop3_enable c; pop3_listen := pop3_listen c; pop3_tls := pop3_tls c;
  submission_enable := submission_enable c; submission_listen := submission_listen c;
  submission_tls := submission_tls c; submission_spool := submission_spool c;
  submission_native_domains := submission_native_domains c |}.
Definition set_tls_cert (x : option string) (c : PersonalConfig) : PersonalConfig := {|
  domain := domain c; listen := listen c; selector := selector c; dns_server := dns_server c;
  directory := directory c; mesh_endpoint := mesh_endpoint c; tls_cert := x; tls_key := tls_key c;
  authz_mode := authz_mode c; dkim_enforce := dkim_enforce c; spf_enforce := spf_enforce c;
  dmarc_enforce := dmarc_enforce c; quota_messages := quota_messages c; quota_bytes := quota_bytes c;
  imap_enable := imap_enable c; imap_listen := imap_listen c; imap_tls := imap_tls c;
  imap_credentials := imap_credentials c; imap_maildir := imap_maildir c; gateway_mode := gateway_mode c;
  pop3_enable := pop3_enable c; pop3_listen := pop3_listen c; pop3_tls := pop3_tls c;
  submission_enable := submission_enable c; submission_listen := submission_listen c;
  submission_tls := submission_tls c; submission_spool := submission_spool c;
  submission_native_domains := submission_native_domains c |}.
Definition set_tls_key (x : option string) (c : PersonalConfig) : PersonalConfig := {|
  domain := domain c; listen := listen c; selector := selector c; dns_server := dns_server c;
  directory := directory c; mesh_endpoint := mesh_endpoint c; tls_cert := tls_cert c; tls_key := x;
  authz_mode := authz_mode c; dkim_enforce := dkim_enforce c; spf_enforce := spf_enforce c;
  dmarc_enforce := dmarc_enforce c; quota_messages := quota_messages c; quota_bytes := quota_bytes c;
  imap_enable := imap_enable c; imap_listen := imap_listen c; imap_tls := imap_tls c;
  imap_credentials := imap_credentials c; imap_maildir := imap_maildir c; gateway_mode := gateway_mode c;
  pop3_enable := pop3_enable c; pop3_listen := pop3_listen c; pop3_tls := pop3_tls c;
  submission_enable := submission_enable c; submission_listen := submission_listen c;
  submission_tls := submission_tls c; submission_spool := submission_spool c;
  submission_native_domains := submission_native_domains c |}.
Definition set_authz_mode (x : Admission.AuthzMode) (c : PersonalConfig) : PersonalConfig := {|
  domain := domain c; listen := listen c; selector := selector c; dns_server := dns_server c;
  directory := directory c; mesh_endpoint := mesh_endpoint c; tls_cert := tls_cert c; tls_key := tls_key c;
  authz_mode := x; dkim_enforce := dkim_enforce c; spf_enforce := spf_enforce c; dmarc_enforce := dmarc_enforce c;
  quota_messages := quota_messages c; quota_bytes := quota_bytes c; imap_enable := imap_enable c;
  imap_listen := imap_listen c; imap_tls := imap_tls c; imap_credentials := imap_credentials c;
  imap_maildir := imap_maildir c; gateway_mode := gateway_mode c; pop3_enable := pop3_enable c;
  pop3_listen := pop3_listen c; pop3_tls := pop3_tls c; submission_enable := submission_enable c;
  submission_listen := submission_listen c; submission_tls := submission_tls c;
  submission_spool := submission_spool c; submission_native_domains := submission_native_domains c |}.
Definition set_dkim_enforce (x : bool) (c : PersonalConfig) : PersonalConfig := {|
  domain := domain c; listen := listen c; selector := selector c; dns_server := dns_server c;
  directory := directory c; mesh_endpoint := mesh_endpoint c; tls_cert := tls_cert c; tls_key := tls_key c;
  authz_mode := authz_mode c; dkim_enforce := x; spf_enforce := spf_enforce c; dmarc_enforce := dmarc_enforce c;
  quota_messages := quota_messages c; quota_bytes := quota_bytes c; imap_enable := imap_enable c;
  imap_listen := imap_listen c; imap_tls := imap_tls c; imap_credentials := imap_credentials c;
  imap_maildir := imap_maildir c; gateway_mode := gateway_mode c; pop3_enable := pop3_enable c;
  pop3_listen := pop3_listen c; pop3_tls := pop3_tls c; submission_enable := submission_enable c;
  submission_listen := submission_listen c; submission_tls := submission_tls c;
  submission_spool := submission_spool c; submission_native_domains := submission_native_domains c |}.
Definition set_spf_enforce (x : bool) (c : PersonalConfig) : PersonalConfig := {|
  domain := domain c; listen := listen c; selector := selector c; dns_server := dns_server c;
  directory := directory c; mesh_endpoint := mesh_endpoint c; tls_cert := tls_cert c; tls_key := tls_key c;
  authz_mode := authz_mode c; dkim_enforce := dkim_enforce c; spf_enforce := x; dmarc_enforce := dmarc_enforce c;
  quota_messages := quota_messages c; quota_bytes := quota_bytes c; imap_enable := imap_enable c;
  imap_listen := imap_listen c; imap_tls := imap_tls c; imap_credentials := imap_credentials c;
  imap_maildir := imap_maildir c; gateway_mode := gateway_mode c; pop3_enable := pop3_enable c;
  pop3_listen := pop3_listen c; pop3_tls := pop3_tls c; submission_enable := submission_enable c;
  submission_listen := submission_listen c; submission_tls := submission_tls c;
  submission_spool := submission_spool c; submission_native_domains := submission_native_domains c |}.
Definition set_dmarc_enforce (x : bool) (c : PersonalConfig) : PersonalConfig := {|
  domain := domain c; listen := listen c; selector := selector c; dns_server := dns_server c;
  directory := directory c; mesh_endpoint := mesh_endpoint c; tls_cert := tls_cert c; tls_key := tls_key c;
  authz_mode := authz_mode c; dkim_enforce := dkim_enforce c; spf_enforce := spf_enforce c; dmarc_enforce := x;
  quota_messages := quota_messages c; quota_bytes := quota_bytes c; imap_enable := imap_enable c;
  imap_listen := imap_listen c; imap_tls := imap_tls c; imap_credentials := imap_credentials c;
  imap_maildir := imap_maildir c; gateway_mode := gateway_mode c; pop3_enable := pop3_enable c;
  pop3_listen := pop3_listen c; pop3_tls := pop3_tls c; submission_enable := submission_enable c;
  submission_listen := submission_listen c; submission_tls := submission_tls c;
  submission_spool := submission_spool c; submission_native_domains := submission_native_domains c |}.
Definition set_quota_messages (x : Z) (c : PersonalConfig) : PersonalConfig := {|
  domain := domain c; listen := listen c; selector := selector c; dns_server := dns_server c;
  directory := directory c; mesh_endpoint := mesh_endpoint c; tls_cert := tls_cert c; tls_key := tls_key c;
  authz_mode := authz_mode c; dkim_enforce := dkim_enforce c; spf_enforce := spf_enforce c;
  dmarc_enforce := dmarc_enforce c; quota_messages := x; quota_bytes := quota_bytes c; imap_enable := imap_enable c;
  imap_listen := imap_listen c; imap_tls := imap_tls c; imap_credentials := imap_credentials c;
  imap_maildir := imap_maildir c; gateway_mode := gateway_mode c; pop3_enable := pop3_enable c;
  pop3_listen := pop3_listen c; pop3_tls := pop3_tls c; submission_enable := submission_enable c;
  submission_listen := submission_listen c; submission_tls := submission_tls c;
  submission_spool := submission_spool c; submission_native_domains := submission_native_domains c |}.
Definition set_quota_bytes (x : Z) (c : PersonalConfig) : PersonalConfig := {|
  domain := domain c; listen := listen c; selector := selector c; dns_server := dns_server c;
  directory := directory c; mesh_endpoint := mesh_endpoint c; tls_cert := tls_cert c; tls_key := tls_key c;
  authz_mode := authz_mode c; dkim_enforce := dkim_enforce c; spf_enforce := spf_enforce c;
  dmarc_enforce := dmarc_enforce c; quota_messages := quota_messages c; quota_bytes := x;
  imap_enable := imap_enable c; imap_listen := imap_listen c; imap_tls := imap_tls c;
  imap_credentials := imap_credentials c; imap_maildir := imap_maildir c; gateway_mode := gateway_mode c;
  pop3_enable := pop3_enable c; pop3_listen := pop3_listen c; pop3_tls := pop3_tls c;
  submission_enable := submission_enable c; submission_listen := submission_listen c;
  submission_tls := submission_tls c; submission_spool := submission_spool c;
  submission_native_domains := submission_native_domains c |}.
Definition set_imap_enable (x : bool) (c : PersonalConfig) : PersonalConfig := {|
  domain := domain c; listen := listen c; selector := selector c; dns_server := dns_server c;
  directory := directory c; mesh_endpoint := mesh_endpoint c; tls_cert := tls_cert c; tls_key := tls_key c;
  authz_mode := authz_mode c; dkim_enforce := dkim_enforce c; spf_enforce := spf_enforce c;
  dmarc_enforce := dmarc_enforce c; quota_messages := quota_messages c; quota_bytes := quota_bytes c;
  imap_enable := x; imap_listen := imap_listen c; imap_tls := imap_tls c; imap_credentials := imap_credentials c;
  imap_maildir := imap_maildir c; gateway_mode := gateway_mode c; pop3_enable := pop3_enable c;
  pop3_listen := pop3_listen c; pop3_tls := pop3_tls c; submission_enable := submission_enable c;
  submission_listen := submission_listen c; submission_tls := submission_tls c;
  submission_spool := submission_spool c; submission_native_domains := submission_native_domains c |}.
Definition set_imap_listen (x : string) (c : PersonalConfig) : PersonalConfig := {|
  domain := domain c; listen := listen c; selector := selector c; dns_server := dns_server c;
  directory := directory c; mesh_endpoint := mesh_endpoint c; tls_cert := tls_cert c; tls_key := tls_key c;
  authz_mode := authz_mode c; dkim_enforce := dkim_enforce c; spf_enforce := spf_enforce c;
  dmarc_enforce := dmarc_enforce c; quota_messages := quota_messages c; quota_bytes := quota_bytes c;
  imap_enable := imap_enable c; imap_listen := x; imap_tls := imap_tls c; imap_credentials := imap_credentials c;
  imap_maildir := imap_maildir c; gateway_mode := gateway_mode c; pop3_enable := pop3_enable c;
  pop3_listen := pop3_listen c; pop3_tls := pop3_tls c; submission_enable := submission_enable c;
  submission_listen := submission_listen c; submission_tls := submission_tls c;
  submission_spool := submission_spool c; submission_native_domains := submission_native_domains c |}.
Definition set_imap_tls (x : ImapTls) (c : PersonalConfig) : PersonalConfig := {|
  domain := domain c; listen := listen c; selector := selector c; dns_server := dns_server c;
  directory := directory c; mesh_endpoint := mesh_endpoint c; tls_cert := tls_cert c; tls_key := tls_key c;
  authz_mode := authz_mode c; dkim_enforce := dkim_enforce c; spf_enforce := spf_enforce c;
  dmarc_enforce := dmarc_enforce c; quota_messages := quota_messages c; quota_bytes := quota_bytes c;
  imap_enable := imap_enable c; imap_listen := imap_listen c; imap_tls := x; imap_credentials := imap_credentials c;
  imap_maildir := imap_maildir c; gateway_mode := gateway_mode c; pop3_enable := pop3_enable c;
  pop3_listen := pop3_listen c; pop3_tls := pop3_tls c; submission_enable := submission_enable c;
  submission_listen := submission_listen c; submission_tls := submission_tls c;
  submission_spool := submission_spool c; submission_native_domains := submission_native_domains c |}.
Definition set_imap_credentials (x : option string) (c : PersonalConfig) : PersonalConfig := {|
  domain := domain c; listen := listen c; selector := selector c; dns_server := dns_server c;
  directory := directory c; mesh_endpoint := mesh_endpoint c; tls_cert := tls_cert c; tls_key := tls_key c;
  authz_mode := authz_mode c; dkim_enforce := dkim_enforce c; spf_enforce := spf_enforce c;
  dmarc_enforce := dmarc_enforce c; quota_messages := quota_messages c; quota_bytes := quota_bytes c;
  imap_enable := imap_enable c; imap_listen := imap_listen c; imap_tls := imap_tls c; imap_credentials := x;
  imap_maildir := imap_maildir c; gateway_mode := gateway_mode c; pop3_enable := pop3_enable c;
  pop3_listen := pop3_listen c; pop3_tls := pop3_tls c; submission_enable := submission_enable c;
  submission_listen := submission_listen c; submission_tls := submission_tls c;
  submission_spool := submission_spool c; submission_native_domains := submission_native_domains c |}.
Definition set_imap_maildir (x : option string) (c : PersonalConfig) : PersonalConfig := {|
  domain := domain c; listen := listen c; selector := selector c; dns_server := dns_server c;
  directory := directory c; mesh_endpoint := mesh_endpoint c; tls_cert := tls_cert c; tls_key := tls_key c;
  authz_mode := authz_mode c; dkim_enforce := dkim_enforce c; spf_enforce := spf_enforce c;
  dmarc_enforce := dmarc_enforce c; quota_messages := quota_messages c; quota_bytes := quota_bytes c;
  imap_enable := imap_enable c; imap_listen := imap_listen c; imap_tls := imap_tls c;
  imap_credentials := imap_credentials c; imap_maildir := x; gateway_mode := gateway_mode c;
  pop3_enable := pop3_enable c; pop3_listen := pop3_listen c; pop3_tls := pop3_tls c;
  submission_enable := submission_enable c; submission_listen := submission_listen c;
  submission_tls := submission_tls c; submission_spool := submission_spool c;
  submission_native_domains := submission_native_domains c |}.
Definition set_gateway_mode (x : Admission.GatewayMode) (c : PersonalConfig) : PersonalConfig := {|
  domain := domain c; listen := listen c; selector := selector c; dns_server := dns_server c;
  directory := directory c; mesh_endpoint := mesh_endpoint c; tls_cert := tls_cert c; tls_key := tls_key c;
  authz_mode := authz_mode c; dkim_enforce := dkim_enforce c; spf_enforce := spf_enforce c;
  dmarc_enforce := dmarc_enforce c; quota_messages := quota_messages c; quota_bytes := quota_bytes c;
  imap_enable := imap_enable c; imap_listen := imap_listen c; imap_tls := imap_tls c;
  imap_credentials := imap_credentials c; imap_maildir := imap_maildir c; gateway_mode := x;
  pop3_enable := pop3_enable c; pop3_listen := pop3_listen c; pop3_tls := pop3_tls c;
  submission_enable := submission_enable c; submission_listen := submission_listen c;
  submission_tls := submission_tls c; submission_spool := submission_spool c;
  submission_native_domains := submission_native_domains c |}.
Definition set_pop3_enable (x : bool) (c : PersonalConfig) : PersonalConfig := {|
  domain := domain c; listen := listen c; selector := selector c; dns_server := dns_server c;
  directory := directory c; mesh_endpoint := mesh_endpoint c; tls_cert := tls_cert c; tls_key := tls_key c;
  authz_mode := authz_mode c; dkim_enforce := dkim_enforce c; spf_enforce := spf_enforce c;
  dmarc_enforce := dmarc_enforce c; quota_messages := quota_messages c; quota_bytes := quota_bytes c;
  imap_enable := imap_enable c; imap_listen := imap_listen c; imap_tls := imap_tls c;
  imap_credentials := imap_credentials c; imap_maildir := imap_maildir c; gateway_mode := gateway_mode c;
  pop3_enable := x; pop3_listen := pop3_listen c; pop3_tls := pop3_tls c; submission_enable := submission_enable c;
  submission_listen := submission_listen c; submission_tls := submission_tls c;
  submission_spool := submission_spool c; submission_native_domains := submission_native_domains c |}.
Definition set_pop3_listen (x : string) (c : PersonalConfig) : PersonalConfig := {|
  domain := domain c; listen := listen c; selector := selector c; dns_server := dns_server c;
  directory := directory c; mesh_endpoint := mesh_endpoint c; tls_cert := tls_cert c; tls_key := tls_key c;
  authz_mode := authz_mode c; dkim_enforce := dkim_enforce c; spf_enforce := spf_enforce c;
  dmarc_enforce := dmarc_enforce c; quota_messages := quota_messages c; quota_bytes := quota_bytes c;
  imap_enable := imap_enable c; imap_listen := imap_listen c; imap_tls := imap_tls c;
  imap_credentials := imap_credentials c; imap_maildir := imap_maildir c; gateway_mode := gateway_mode c;
  pop3_enable := pop3_enable c; pop3_listen := x; pop3_tls := pop3_tls c; submission_enable := submission_enable c;
  submission_listen := submission_listen c; submission_tls := submission_tls c;
  submission_spool := submission_spool c; submission_native_domains := submission_native_domains c |}.
Definition set_pop3_tls (x : LegacyNet.LegacyTls) (c : PersonalConfig) : PersonalConfig := {|
  domain := domain c; listen := listen c; selector := selector c; dns_server := dns_server c;
  directory := directory c; mesh_endpoint := mesh_endpoint c; tls_cert := tls_cert c; tls_key := tls_key c;
  authz_mode := authz_mode c; dkim_enforce := dkim_enforce c; spf_enforce := spf_enforce c;
  dmarc_enforce := dmarc_enforce c; quota_messages := quota_messages c; quota_bytes := quota_bytes c;
  imap_enable := imap_enable c; imap_listen := imap_listen c; imap_tls := imap_tls c;
  imap_credentials := imap_credentials c; imap_maildir := imap_maildir c; gateway_mode := gateway_mode c;
  pop3_enable := pop3_enable c; pop3_listen := pop3_listen c; pop3_tls := x; submission_enable := submission_enable c;
  submission_listen := submission_listen c; submission_tls := submission_tls c;
  submission_spool := submission_spool c; submission_native_domains := submission_native_domains c |}.
Definition set_submission_enable (x : bool) (c : PersonalConfig) : PersonalConfig := {|
  domain := domain c; listen := listen c; selector := selector c; dns_server := dns_server c;
  directory := directory c; mesh_endpoint := mesh_endpoint c; tls_cert := tls_cert c; tls_key := tls_key c;
  authz_mode := authz_mode c; dkim_enforce := dkim_enforce c; spf_enforce := spf_enforce c;
  dmarc_enforce := dmarc_enforce c; quota_messages := quota_messages c; quota_bytes := quota_bytes c;
  imap_enable := imap_enable c; imap_listen := imap_listen c; imap_tls := imap_tls c;
  imap_credentials := imap_credentials c; imap_maildir := imap_maildir c; gateway_mode := gateway_mode c;
  pop3_enable := pop3_enable c; pop3_listen := pop3_listen c; pop3_tls := pop3_tls c; submission_enable := x;
  submission_listen := submission_listen c; submission_tls := submission_tls c;
  submission_spool := submission_spool c; submission_native_domains := submission_native_domains c |}.
Definition set_submission_listen (x : string) (c : PersonalConfig) : PersonalConfig := {|
  domain := domain c; listen := listen c; selector := selector c; dns_server := dns_server c;
  directory := directory c; mesh_endpoint := mesh_endpoint c; tls_cert := tls_cert c; tls_key := tls_key c;
  authz_mode := authz_mode c; dkim_enforce := dkim_enforce c; spf_enforce := spf_enforce c;
  dmarc_enforce := dmarc_enforce c; quota_messages := quota_messages c; quota_bytes := quota_bytes c;
  imap_enable := imap_enable c; imap_listen := imap_listen c; imap_tls := imap_tls c;
  imap_credentials := imap_credentials c; imap_maildir := imap_maildir c; gateway_mode := gateway_mode c;
  pop3_enable := pop3_enable c; pop3_listen := pop3_listen c; pop3_tls := pop3_tls c;
  submission_enable := submission_enable c; submission_listen := x; submission_tls := submission_tls c;
  submission_spool := submission_spool c; submission_native_domains := submission_native_domains c |}.
Definition set_submission_tls (x : LegacyNet.LegacyTls) (c : PersonalConfig) : PersonalConfig := {|
  domain := domain c; listen := listen c; selector := selector c; dns_server := dns_server c;
  directory := directory c; mesh_endpoint := mesh_endpoint c; tls_cert := tls_cert c; tls_key := tls_key c;
  authz_mode := authz_mode c; dkim_enforce := dkim_enforce c; spf_enforce := spf_enforce c;
  dmarc_enforce := dmarc_enforce c; quota_messages := quota_messages c; quota_bytes := quota_bytes c;
  imap_enable := imap_enable c; imap_listen := imap_listen c; imap_tls := imap_tls c;
  imap_credentials := imap_credentials c; imap_maildir := imap_maildir c; gateway_mode := gateway_mode c;
  pop3_enable := pop3_enable c; pop3_listen := pop3_listen c; pop3_tls := pop3_tls c;
  submission_enable := submission_enable c; submission_listen := submission_listen c; submission_tls := x;
  submission_spool := submission_spool c; submission_native_domains := submission_native_domains c |}.
Definition set_submission_spool (x : option string) (c : PersonalConfig) : PersonalConfig := {|
  domain := domain c; listen := listen c; selector := selector c; dns_server := dns_server c;
  directory := directory c; mesh_endpoint := mesh_endpoint c; tls_cert := tls_cert c; tls_key := tls_key c;
  authz_mode := authz_mode c; dkim_enforce := dkim_enforce c; spf_enforce := spf_enforce c;
  dmarc_enforce := dmarc_enforce c; quota_messages := quota_messages c; quota_bytes := quota_bytes c;
  imap_enable := imap_enable c; imap_listen := imap_listen c; imap_tls := imap_tls c;
  imap_credentials := imap_credentials c; imap_maildir := imap_maildir c; gateway_mode := gateway_mode c;
  pop3_enable := pop3_enable c; pop3_listen := pop3_listen c; pop3_tls := pop3_tls c;
  submission_enable := submission_enable c; submission_listen := submission_listen c;
  submission_tls := submission_tls c; submission_spool := x; submission_native_domains := submission_native_domains c |}.
Definition set_submission_native_domains (x : option string) (c : PersonalConfig) : PersonalConfig := {|
  domain := domain c; listen := listen c; selector := selector c; dns_server := dns_server c;
  directory := directory c; mesh_endpoint := mesh_endpoint c; tls_cert := tls_cert c; tls_key := tls_key c;
  authz_mode := authz_mode c; dkim_enforce := dkim_enforce c; spf_enforce := spf_enforce c;
  dmarc_enforce := dmarc_enforce c; quota_messages := quota_messages c; quota_bytes := quota_bytes c;
  imap_enable := imap_enable c; imap_listen := imap_listen c; imap_tls := imap_tls c;
  imap_credentials := imap_credentials c; imap_maildir := imap_maildir c; gateway_mode := gateway_mode c;
  pop3_enable := pop3_enable c; pop3_listen := pop3_listen c; pop3_tls := pop3_tls c;
  submission_enable := submission_enable c; submission_listen := submission_listen c;
  submission_tls := submission_tls c; submission_spool := submission_spool c; submission_native_domains := x |}.

Definition set (line : nat) (key value : string) (c : PersonalConfig) : result ConfigError PersonalConfig :=
  let bad reason := BadValue line key value reason in
  let eqk k := bool_decide (key = k%string) in
  if eqk "domain" then Ok (set_domain value c)
  else if eqk "listen" then Ok (set_listen value c)
  else if eqk "selector" then Ok (set_selector value c)
  else if eqk "dns_server" then x ← ok_or (bad "not an ip:port socket address") (parse_socket_addr value); Ok (set_dns_server x c)
  else if eqk "directory" then Ok (set_directory (non_empty value) c)
  else if eqk "mesh_endpoint" then Ok (set_mesh_endpoint (non_empty value) c)
  else if eqk "tls_cert" then Ok (set_tls_cert (non_empty value) c)
  else if eqk "tls_key" then Ok (set_tls_key (non_empty value) c)
  else if eqk "authz_mode" then x ← ok_or (bad (dq "expected 'key-registered' or 'open-public'")) (parse_authz_mode value); Ok (set_authz_mode x c)
  else if eqk "dkim_enforce" then x ← ok_or (bad "expected true/false") (parse_bool value); Ok (set_dkim_enforce x c)
  else if eqk "spf_enforce" then x ← ok_or (bad "expected true/false") (parse_bool value); Ok (set_spf_enforce x c)
  else if eqk "dmarc_enforce" then x ← ok_or (bad "expected true/false") (parse_bool value); Ok (set_dmarc_enforce x c)
  else if eqk "quota_messages" then x ← ok_or (bad "expected a non-negative integer") (MtaSts.parse_u64 value); Ok (set_quota_messages x c)
  else if eqk "quota_bytes" then x ← ok_or (bad "expected a non-negative integer") (MtaSts.parse_u64 value); Ok (set_quota_bytes x c)
  else if eqk "imap_enable" then x ← ok_or (bad "expected true/false") (parse_bool value); Ok (set_imap_enable x c)
  else if eqk "imap_listen" then Ok (set_imap_listen value c)
  else if eqk "imap_tls" then x ← ok_or (bad (dq "expected 'starttls' or 'implicit'")) (ImapTls_parse value); Ok (set_imap_tls x c)
  else if eqk "imap_credentials" then Ok (set_imap_credentials (non_empty value) c)
  else if eqk "imap_maildir" then Ok (set_imap_maildir (non_empty value) c)
  else if eqk "gateway_mode" then x ← ok_or (bad (dq "expected 'private', 'registered-clients-only', or 'public'")) (Admission.GatewayMode_parse value); Ok (set_gateway_mode x c)
  else if eqk "pop3_enable" then x ← ok_or (bad "expected true/false") (parse_bool value); Ok (set_pop3_enable x c)
  else if eqk "pop3_listen" then Ok (set_pop3_listen value c)
  else if eqk "pop3_tls" then x ← ok_or (bad (dq "expected 'starttls' or 'implicit'")) (LegacyNet.parse value); Ok (set_pop3_tls x c)
  else if eqk "submission_enable" then x ← ok_or (bad "expected true/false") (parse_bool value); Ok (set_submission_enable x c)
  else if eqk "submission_listen" then Ok (set_submission_listen value c)
  else if eqk "submission_tls" then x ← ok_or (bad (dq "expected 'starttls' or 'implicit'")) (LegacyNet.parse value); Ok (set_submission_tls x c)
  else if eqk "submission_spool" then Ok (set_submission_spool (non_empty value) c)
  else if eqk "submission_native_domains" then Ok (set_submission_native_domains (non_empty value) c)
  else Err (UnknownKey line key).
Definition parse_line (line : nat) (raw : string) (c : PersonalConfig) : result ConfigError PersonalConfig :=
  let trimmed := trim (strip_comment raw) in
  if bool_decide (trimmed = EmptyString) then Ok c
  else
    match split_once "=" trimmed with
    | None => Err (Syntax line (trim raw))
    | Some (key, value) => set line (to_ascii_lowercase (trim key)) (unquote (trim value)) c
    end.
Fixpoint parse_lines (line : nat) (ls : list string) (c : PersonalConfig) : result ConfigError PersonalConfig :=
  match ls with
  | [] => Ok c
  | raw :: ls => c ← parse_line line raw c; parse_lines (S line) ls c
  end.
Definition parse (text : string) : result ConfigError PersonalConfig := parse_lines 1 (str_lines text) default_config.
(** [read]: the text of a file, if it can be read. *)
Definition load (read : string → option string) (path : string) : result ConfigError PersonalConfig :=
  text ← ok_or (IoFailed path) (read path); parse text.

(** ** The environment *)

Definition env_flag (env : gmap string string) (name : string) : bool :=
  match env !! name with
  | Some v => bool_decide (to_ascii_lowercase v ∈ ["1"; "true"; "yes"]%string)
  | None => false
  end.
Definition from_env (env : gmap string string) : PersonalConfig :=
  let d := default_config in {|
  domain := default (domain d) (env !! "GATEWAY_DOMAIN");
  listen := default (listen d) (env !! "GATEWAY_LISTEN");
  selector := default (selector d) (env !! "GATEWAY_GW_SELECTOR");
  dns_server := match env !! "GATEWAY_DNS_SERVER" with Some v => default default_dns_server (parse_socket_addr v) | None => dns_server d end;
  directory := env !! "GATEWAY_DIRECTORY" ≫= non_empty;
  mesh_endpoint := env !! "GATEWAY_MESH_ENDPOINT" ≫= non_empty;
  tls_cert := env !! "GATEWAY_TLS_CERT" ≫= non_empty;
  tls_key := env !! "GATEWAY_TLS_KEY" ≫= non_empty;
  authz_mode := default (authz_mode d) (env !! "GATEWAY_AUTHZ_MODE" ≫= parse_authz_mode);
  dkim_enforce := env_flag env "GATEWAY_DKIM_ENFORCE";
  spf_enforce := env_flag env "GATEWAY_SPF_ENFORCE";
  dmarc_enforce := env_flag env "GATEWAY_DMARC_ENFORCE";
  quota_messages := match env !! "GATEWAY_QUOTA_MESSAGES" with Some v => default 0 (MtaSts.parse_u64 v) | None => quota_messages d end;
  quota_bytes := match env !! "GATEWAY_QUOTA_BYTES" with Some v => default 0 (MtaSts.parse_u64 v) | None => quota_bytes d end;
  imap_enable := env_flag env "GATEWAY_IMAP_ENABLE";
  imap_listen := default (imap_listen d) (env !! "GATEWAY_IMAP_LISTEN");
  imap_tls := default (imap_tls d) (env !! "GATEWAY_IMAP_TLS" ≫= ImapTls_parse);
  imap_credentials := env !! "GATEWAY_IMAP_CREDENTIALS" ≫= non_empty;
  imap_maildir := env !! "GATEWAY_IMAP_MAILDIR" ≫= non_empty;
  gateway_mode := default (gateway_mode d) (env !! "GATEWAY_MODE" ≫= Admission.GatewayMode_parse);
  pop3_enable := env_flag env "GATEWAY_POP3_ENABLE";
  pop3_listen := default (pop3_listen d) (env !! "GATEWAY_POP3_LISTEN");
  pop3_tls := default (pop3_tls d) (env !! "GATEWAY_POP3_TLS" ≫= LegacyNet.parse);
  submission_enable := env_flag env "GATEWAY_SUBMISSION_ENABLE";
  submission_listen := default (submission_listen d) (env !! "GATEWAY_SUBMISSION_LISTEN");
  submission_tls := default (submission_tls d) (env !! "GATEWAY_SUBMISSION_TLS" ≫= LegacyNet.parse);
  submission_spool := env !! "GATEWAY_SUBMISSION_SPOOL" ≫= non_empty;
  submission_native_domains := env !! "GATEWAY_SUBMISSION_NATIVE_DOMAINS" ≫= non_empty |}%string.

(** ** What the configuration describes *)

Definition quota (c : PersonalConfig) : option Admission.Quota :=
  if (quota_messages c =? 0) && (quota_bytes c =? 0) then None
  else Some (Admin.Quota_new (quota_messages c) (quota_messages c) (quota_bytes c) (quota_bytes c)).
Definition native_separator (c : ascii) : ascii := if is_char "," c || is_char "009" c then " "%char else c.
Fixpoint separated (s : string) : string :=
  match s with EmptyString => EmptyString | String c r => String (native_separator c) (separated r) end.
Definition native_domains (c : PersonalConfig) : list string :=
  match submission_native_domains c with
  | Some l => List.filter (λ s, negb (bool_decide (s = EmptyString))) (trim <$> split_char " " (separated l))
  | None => [domain c]
  end.

(** ** The configuration as a table of settings *)

(** A key of the format, the field it stands for and how its value is read. *)
Record Field := { f_key : string; f_type : Type; f_get : PersonalConfig → f_type; f_parse : string → option f_type }.
Definition fields : list Field := [
  {| f_key := "domain"; f_get := domain; f_parse := Some |};
  {| f_key := "listen"; f_get := listen; f_parse := Some |};
  {| f_key := "selector"; f_get := selector; f_parse := Some |};
  {| f_key := "dns_server"; f_get := dns_server; f_parse := parse_socket_addr |};
  {| f_key := "directory"; f_get := directory; f_parse := (λ v, Some (non_empty v)) |};
  {| f_key := "mesh_endpoint"; f_get := mesh_endpoint; f_parse := (λ v, Some (non_empty v)) |};
  {| f_key := "tls_cert"; f_get := tls_cert; f_parse := (λ v, Some (non_empty v)) |};
  {| f_key := "tls_key"; f_get := tls_key; f_parse := (λ v, Some (non_empty v)) |};
  {| f_key := "authz_mode"; f_get := authz_mode; f_parse := parse_authz_mode |};
  {| f_key := "dkim_enforce"; f_get := dkim_enforce; f_parse := parse_bool |};
  {| f_key := "spf_enforce"; f_get := spf_enforce; f_parse := parse_bool |};
  {| f_key := "dmarc_enforce"; f_get := dmarc_enforce; f_parse := parse_bool |};
  {| f_key := "quota_messages"; f_get := quota_messages; f_parse := MtaSts.parse_u64 |};
  {| f_key := "quota_bytes"; f_get := quota_bytes; f_parse := MtaSts.parse_u64 |};
  {| f_key := "imap_enable"; f_get := imap_enable; f_parse := parse_bool |};
  {| f_key := "imap_listen"; f_get := imap_listen; f_parse := Some |};
  {| f_key := "imap_tls"; f_get := imap_tls; f_parse := ImapTls_parse |};
  {| f_key := "imap_credentials"; f_get := imap_credentials; f_parse := (λ v, Some (non_empty v)) |};
  {| f_key := "imap_maildir"; f_get := imap_maildir; f_parse := (λ v, Some (non_empty v)) |};
  {| f_key := "gateway_mode"; f_get := gateway_mode; f_parse := Admission.GatewayMode_parse |};
  {| f_key := "pop3_enable"; f_get := pop3_enable; f_parse := parse_bool |};
  {| f_key := "pop3_listen"; f_get := pop3_listen; f_parse := Some |};
  {| f_key := "pop3_tls"; f_get := pop3_tls; f_parse := LegacyNet.parse |};
  {| f_key := "submission_enable"; f_get := submission_enable; f_parse := parse_bool |};
  {| f_key := "submission_listen"; f_get := submission_listen; f_parse := Some |};
  {| f_key := "submission_tls"; f_get := submission_tls; f_parse := LegacyNet.parse |};
  {| f_key := "submission_spool"; f_get := submission_spool; f_parse := (λ v, Some (non_empty v)) |};
  {| f_key := "submission_native_domains"; f_get := submission_native_domains; f_parse := (λ v, Some (non_empty v)) |}
]%string.
Inductive Line := Blank | Assign (key value : string) | Garbage.
Definition line_of (raw : string) : Line :=
  let trimmed := trim (strip_comment raw) in
  if bool_decide (trimmed = EmptyString) then Blank
  else
    match split_once "=" trimmed with
    | None => Garbage
    | Some (key, value) => Assign (to_ascii_lowercase (trim key)) (unquote (trim value))
    end.
(** The values a text assigns to a key, in order. *)
Definition value_of (key : string) (raw : string) : option string :=
  match line_of raw with Assign k v => if bool_decide (k = key) then Some v else None | _ => None end.
Definition values (key : string) (ls : list string) : list string := omap (value_of key) ls.
Definition accepted (raw : string) : Prop :=
  match line_of raw with
  | Blank => True
  | Assign k v => ∃ f, f ∈ fields ∧ f_key f = k ∧ is_Some (f_parse f v)
  | Garbage => False
  end.

Lemma parse_line_of n raw c :
  parse_line n raw c =
    match line_of raw with Blank => Ok c | Assign k v => set n k v c | Garbage => Err (Syntax n (trim raw)) end.
Proof. unfold parse_line, line_of. case_bool_decide; [done|]. by destruct (split_once _ _) as [[]|]. Qed.

(** What [set] does to each field of the table. *)
Definition sets (k v : string) (c c' : PersonalConfig) (f : Field) : Prop :=
  if bool_decide (f_key f = k) then f_parse f v = Some (f_get f c') else f_get f c' = f_get f c.
Lemma set_known n k v c c' : set n k v c = Ok c' → k ∈ f_key <$> fields.
Proof.
  intros H. destruct (decide (k ∈ f_key <$> fields)) as [|Hk]; [done|exfalso]. cbn [fmap list_fmap fields f_key] in Hk.
  repeat (apply not_elem_of_cons in Hk as [? Hk]). revert H. unfold set. do 28 (rewrite bool_decide_false by done). done.
Qed.
(** Decide the comparisons of closed strings. *)
Ltac decide_keys :=
  cbv beta zeta delta [set];
  repeat match goal with
    |- context [if bool_decide (?a = ?b) then _ else _] =>
      let r := eval vm_compute in (bool_decide (a = b)) in change (bool_decide (a = b)) with r; cbv iota
    end.
Lemma set_sets n k v c c' : set n k v c = Ok c' → Forall (sets k v c c') fields.
Proof.
  intros H. pose proof (set_known _ _ _ _ _ H) as Hk. revert H. cbn [fmap list_fmap fields f_key] in Hk.
  repeat (apply elem_of_cons in Hk as [->|Hk]; [
    decide_keys; intros H;
    match type of H with
    | mbind _ (ok_or _ ?o) = _ => destruct o eqn:Eo; cbn [mbind result_bind ok_or] in H; [|discriminate H]
    | _ => idtac
    end; injection H as <-;
    repeat (constructor; [lazymatch goal with |- sets ?k _ _ _ {| f_key := ?k |} => first [exact Eo|reflexivity] | _ => reflexivity end|]); constructor |]).
  by apply elem_of_nil in Hk.
Qed.
Lemma set_total n f v c : f ∈ fields → is_Some (f_parse f v) → ∃ c', set n (f_key f) v c = Ok c'.
Proof.
  intros Hf [x Hx]. unfold fields in Hf.
  repeat (apply elem_of_cons in Hf as [->|Hf]; [
    cbn [f_key f_parse f_type] in *; unfold set; cbn [bool_decide decide decide_rel]; rewrite ?Hx; eexists; reflexivity |]).
  by apply elem_of_nil in Hf.
Qed.
Lemma fields_ext c c' : Forall (λ f, f_get f c = f_get f c') fields → c = c'.
Proof.
  intros H. unfold fields in H. repeat (apply Forall_cons in H as [? H]). clear H. cbn [f_get f_type] in *.
  destruct c, c'; cbn in *. by subst.
Qed.

Definition latest (f : Field) (ls : list string) (c : PersonalConfig) : option (f_type f) :=
  match last (values (f_key f) ls) with Some v => f_parse f v | None => Some (f_get f c) end.
Lemma parse_lines_latest n ls c c' :
  parse_lines n ls c = Ok c' → Forall accepted ls ∧ ∀ f, f ∈ fields → Some (f_get f c') = latest f ls c.
Proof.
  revert n c. induction ls as [|raw ls IH]; intros n c H; cbn [parse_lines] in H.
  { injection H as <-. split; [constructor|done]. }
  rewrite parse_line_of in H. unfold latest, values. cbn [omap list_omap]. unfold value_of at 1, accepted at 1.
  destruct (line_of raw) as [|k v|] eqn:El; [| |done].
  - destruct (IH _ _ H) as [HF HL]. split; [by constructor; [rewrite El|]|]. intros f Hf. rewrite (HL _ Hf). done.
  - destruct (set n k v c) as [c1|] eqn:Es; [|done]. destruct (IH _ _ H) as [HF HL].
    pose proof (set_sets _ _ _ _ _ Es) as Hs. pose proof (set_known _ _ _ _ _ Es) as Hk. rewrite Forall_forall in Hs. split.
    + constructor; [|done]. rewrite El. apply list_elem_of_fmap in Hk as (f & -> & Hf). exists f. split; [done|]. split; [done|].
      pose proof (Hs f Hf) as Hf'. unfold sets in Hf'. rewrite bool_decide_true in Hf' by done. by eexists.
    + intros f Hf. rewrite (HL _ Hf). unfold latest, values. pose proof (Hs f Hf) as Hf'. unfold sets in Hf'.
      destruct (bool_decide (k = f_key f)) eqn:Eb; [apply bool_decide_eq_true in Eb|apply bool_decide_eq_false in Eb].
      * rewrite bool_decide_true in Hf' by done. rewrite last_cons. by destruct (last (omap _ ls)).
      * rewrite bool_decide_false in Hf' by done. destruct (last (omap _ ls)); [done|by rewrite Hf'].
Qed.
Lemma parse_lines_total n ls c : Forall accepted ls → ∃ c', parse_lines n ls c = Ok c'.
Proof.
  intros HF. revert n c. induction HF as [|raw ls Ha HF IH]; intros n c; cbn [parse_lines]; [by eexists|].
  rewrite parse_line_of. unfold accepted in Ha. destruct (line_of raw) as [|k v|]; [by apply IH| |done].
  destruct Ha as (f & Hf & <- & Hv). destruct (set_total n f v c Hf Hv) as [c1 ->]. apply IH.
Qed.
(** C22: A text is a configuration exactly when each of its lines is blank or assigns to a
    known key a value that the key's field admits; and then the field of every key
    has the value of the last line that assigns to it, and its default when none
    does.  Nothing else sets a field: no surface, mode or policy is on by accident, and
    no unknown key or malformed value is ignored. *)
Theorem parse_refines_table text c :
  parse text = Ok c ↔
  Forall accepted (str_lines text) ∧ ∀ f, f ∈ fields → Some (f_get f c) = latest f (str_lines text) default_config.
Proof.
  split; [apply parse_lines_latest|]. intros [HF HL]. destruct (parse_lines_total 1 _ default_config HF) as [c' H].
  unfold parse. rewrite H. f_equal. apply parse_lines_latest in H as [_ HL']. apply fields_ext, Forall_forall.
  intros f Hf. specialize (HL f Hf). specialize (HL' f Hf). rewrite <- HL in HL'. by injection HL'.
Qed.

(** The environment variables are more lenient than the file: what a file turns on or
    refuses to load leaves an enforcement off, or a cap unlimited. *)
Theorem env_fails_open :
  (∃ c, parse (String.append "dkim_enforce = on" (String "010" EmptyString)) = Ok c ∧ dkim_enforce c = true) ∧
  dkim_enforce (from_env {[ "GATEWAY_DKIM_ENFORCE" := "on" ]}%string) = false ∧
  (∃ e, parse "quota_messages = 1O0" = Err e) ∧
  quota (from_env {[ "GATEWAY_QUOTA_MESSAGES" := "1O0" ]}%string) = None.
Proof.
  split; [eexists; split; vm_compute; reflexivity|]. split; [by vm_compute|].
  split; [eexists; vm_compute; reflexivity|by vm_compute].
Qed.
End Personal.
