(* ===== verification/Startup.v ===== *)
(** * The start of the personal gateway

    [PersonalConfig::serve] of [crates/gateway/src/personal.rs] up to the bound
    listeners, with everything it builds: the recipient directory, the mesh adapter,
    the inbound and the outbound gateway, the admission registry, the quota ledger and
    the three access surfaces for legacy clients.  The file system, the sockets, the
    DNS client and the TLS library are the fields of a [World]; the table of
    application passwords and the message store are the mail library's and parameters
    ([Authenticators], [MailStore]).  The texts of start-up errors are abbreviated to
    a constructor each. *)

From Stdlib Require Import ZArith Lia Ascii String.
From stdpp Require Import base decidable option sets list strings gmap.
From S2P Require Import Prelude RustStr RustText B64 Kotva KotvaMail Directory Provenance Attestation ColdGate Dkim Spf Dmarc Dns Net Inbound.
From S2P Require Import Admission Quota OutboundGuard OutboundTcp Mx MtaSts DnsResolvers Outbound MultiDomain LegacyNet Submission Admin Mesh ImapAccess Personal.
Local Open Scope Z_scope.

(** [kotva_mail::auth::StaticAuthenticator]. *)
Class Authenticators (A : Type) := {
  auth_new : A;
  auth_issue : string → string → bytes → string → A → A;
}.

Module Startup.
Import Personal.
#[local] Existing Instance Mesh.HttpMesh_MeshDelivery.
#[local] Existing Instance Directory.InMemoryDirectory_KeyDirectory.
#[local] Existing Instance DnsResolvers.DnsDkimKeyResolver_DkimKeyResolver.
#[local] Existing Instance DnsResolvers.DnsSpfResolver_SpfResolver.
#[local] Existing Instance DnsResolvers.DnsDmarcResolver_DmarcTxtResolver.

Inductive DirectorySource := FileDir (d : Directory.InMemoryDirectory) | EmptyDir (d : Directory.InMemoryDirectory).
Definition dir_of (s : DirectorySource) : Directory.InMemoryDirectory := match s with FileDir d | EmptyDir d => d end.
Definition dir_len (s : DirectorySource) : nat := size (Directory.entries (dir_of s)).
Definition dir_is_empty (s : DirectorySource) : bool := (dir_len s =? 0)%nat.
Definition into_boxed (s : DirectorySource) : Directory.InMemoryDirectory := dir_of s.

Inductive Surface := Imap | Pop3 | Submit.
Inductive StartError :=
| DirectoryUnreadable (path : string)
| DirectoryInvalid (e : Directory.DirectoryError)
| BadMesh (e : Mesh.MeshConfigError)
| Unreadable (path : string)
| BadCertificate
| BadConfig (e : ConfigError)
| RequiresTls (s : Surface)
| BadCredentials (line : nat) (reason : string)
| ManyAccounts (distinct : list string)
| NotRegistered (account : string)
| MaildirUnreadable (path : string)
| SpoolRequired
| SpoolNotDirectory (path : string)
| BindFailed (addr : string)
| ThreadPanicked
| ServeFailed.

(** [Box<dyn MeshDelivery>]. *)
Inductive AnyMesh := Http (m : Mesh.HttpMesh) | Null (m : NullMesh).

Section startup.
Context {A C : Type} `{AU : Authenticators A} `{HI : HashMapIter} `{RND : StrDebug}.

(** What the daemon finds around it.  [bind bound addr] is the address a listener gets
    when [bound] are already taken. *)
Record World := {
  read_text : string → option string;
  read_bytes : string → option bytes;
  server_config_from_pem : bytes → bytes → option C;
  maildir : string → option ImapAccess.Maildir;
  spool_dir : string → option (gmap string bytes);
  spool_disk : Z → bool;
  spool_clock : Z → Z;
  node : string → Z → bytes → option bytes;
  dns : SocketAddr → Dns.UdpDnsClient;
  https : Outbound.HttpsPolicyFetcher;
  bind : list SocketAddr → string → option SocketAddr;
}.
Context (w : World) (c : PersonalConfig).

Definition dir_iter (s : DirectorySource) : list (string * RecipientKey) := hm_iter (Directory.entries (dir_of s)).

Definition load_directory : result StartError DirectorySource :=
  match directory c with
  | Some path =>
      text ← ok_or (DirectoryUnreadable path) (read_text w path);
      d ← map_err DirectoryInvalid (Directory.parse text);
      Ok (FileDir d)
  | None => Ok (EmptyDir Directory.InMemoryDirectory_new)
  end.
Definition build_mesh : result StartError AnyMesh :=
  match mesh_endpoint c with
  | Some e =>
      endpoint ← map_err BadMesh (Mesh.Endpoint_new e);
      Ok (Http {| Mesh.endpoint := endpoint; Mesh.node := node w; Mesh.sent := [] |})
  | None => Ok (Null null_mesh)
  end.
Definition build_tls : result StartError (option C) :=
  match tls_cert c, tls_key c with
  | Some cert_path, Some key_path =>
      cert_pem ← ok_or (Unreadable cert_path) (read_bytes w cert_path);
      key_pem ← ok_or (Unreadable key_path) (read_bytes w key_path);
      cfg ← ok_or BadCertificate (server_config_from_pem w cert_pem key_pem);
      Ok (Some cfg)
  | None, None => Ok None
  | _, _ => Err (BadConfig PartialTls)
  end.
Definition build_outbound {AZ} `{DkimCrypto} : Outbound.OutboundGateway (T := OutboundTcp.SmtpTcpTransport)
    (P := MtaSts.MtaStsTlsPolicy (T := MtaSts.DnsTxtResolver) (F := Outbound.HttpsPolicyFetcher)) (R := Mx.DnsMxResolver) (A := AZ) := {|
  Outbound.dkim_keys := [];
  Outbound.tls_policy := {| MtaSts.txt := {| MtaSts.client := dns w (dns_server c) |}; MtaSts.fetcher := https w |};
  Outbound.transport := {| OutboundTcp.ehlo_name := domain c; OutboundTcp.port := 25; OutboundTcp.fixed_addr := None |};
  Outbound.mx_resolver := {| Mx.client := dns w (dns_server c) |};
  Outbound.sender_guard := None;
  Outbound.address_authz := None |}.

(** ** Admission and quotas *)

Definition registered (q : Admission.Quota) (e : string * RecipientKey) : Admission.RegisteredIdentity := {|
  Admission.ri_public_key := rk_ik e.2; Admission.ri_account := e.1; Admission.ri_domain := domain c; Admission.ri_quota := q |}.
Definition build_registry (s : DirectorySource) : Admission.IdentityRegistry :=
  match authz_mode c with
  | Admission.OpenPublic => Admission.open_public
  | Admission.KeyRegistered =>
      let q := default (Quota.Quota_messages 0 0) (quota c) in
      foldl (λ reg e, Admission.register (registered q e) reg) Admission.key_registered (dir_iter s)
  end.
Definition build_quota_ledger (s : DirectorySource) : Quota.QuotaLedger :=
  match quota c with
  | Some q => foldl (λ l e, Quota.set_quota e.1 q l) Quota.QuotaLedger_new (dir_iter s)
  | None => Quota.QuotaLedger_new
  end.
Definition describe_quota (q : option Admission.Quota) : string :=
  match q with
  | None => "unlimited"
  | Some q => "cap " +:+ u64_to_string (Admission.hard_cap_messages q) +:+ " msgs / " +:+
              u64_to_string (Admission.hard_cap_bytes q) +:+ " bytes per identity"
  end.

(** ** Credentials and the operator's mode *)

Definition resolve_identity (s : DirectorySource) (user : string) : option bytes :=
  (λ e, rk_ik e.2) <$> find_first (λ e : string * RecipientKey, eq_ignore_ascii_case e.1 user) (dir_iter s).
Record Credential := { user : string; password : string; identity : bytes }.
Definition parse_credential (s : DirectorySource) (line : nat) (trimmed : string) : result StartError Credential :=
  match split_whitespace trimmed with
  | [] => Err (BadCredentials line "non-empty line has a first field")
  | [_] => Err (BadCredentials line "expected `<username> <app-password> [<identity-pub-b64>]`")
  | u :: p :: rest =>
      ik ← match rest with
           | b64 :: _ => map_err (λ e, BadCredentials line ("bad identity-pub base64: " +:+ e)) (B64.decode b64)
           | [] => ok_or (BadCredentials line ("user " +:+ str_debug u +:+ " not in directory and no identity-pub given")) (resolve_identity s u)
           end;
      match rest with
      | _ :: _ :: _ => Err (BadCredentials line "too many fields")
      | _ => Ok {| user := u; password := p; identity := ik |}
      end
  end.
Fixpoint parse_credentials (s : DirectorySource) (line : nat) (ls : list string) : result StartError (list Credential) :=
  match ls with
  | [] => Ok []
  | raw :: ls =>
      let trimmed := trim (strip_comment raw) in
      if bool_decide (trimmed = EmptyString) then parse_credentials s (S line) ls
      else cr ← parse_credential s line trimmed; crs ← parse_credentials s (S line) ls; Ok (cr :: crs)
  end.
Definition issue (a : A) (cr : Credential) : A := auth_issue (user cr) (password cr) (identity cr) "app-password" a.
Definition credentials (s : DirectorySource) : result StartError (list Credential) :=
  match imap_credentials c with
  | None => Ok []
  | Some path => text ← ok_or (Unreadable path) (read_text w path); parse_credentials s 1 (str_lines text)
  end.
Definition load_legacy_credentials (s : DirectorySource) : result StartError (A * list string) :=
  crs ← credentials s; Ok (foldl issue auth_new crs, user <$> crs).

Definition add_distinct (d : list string) (a : string) : list string :=
  let lc := to_ascii_lowercase a in if bool_decide (lc ∈ d) then d else d ++ [lc].
Definition distinct (accounts : list string) : list string := foldl add_distinct [] accounts.
Definition is_registered (s : DirectorySource) (a : string) : bool :=
  existsb (λ e : string * RecipientKey, eq_ignore_ascii_case e.1 a) (dir_iter s).
Definition enforce_gateway_mode (s : DirectorySource) (accounts : list string) : result StartError nat :=
  let d := distinct accounts in
  match gateway_mode c with
  | Admission.Private => if (1 <? length d)%nat then Err (ManyAccounts d) else Ok (length d)
  | Admission.RegisteredClientsOnly =>
      match find_first (λ a, negb (is_registered s a)) d with
      | Some a => Err (NotRegistered a)
      | None => Ok (length d)
      end
  | Admission.Public => Ok (length d)
  end.

(** ** The access surfaces *)

(** A bound listener: its address, TLS configuration, mode and connection limiter. *)
Record AccessServer (M : Type) := { server_addr : SocketAddr; server_tls : C; server_mode : M; limiter : Listener.Server }.
Definition bind_server {M} (addr : string) (tls : C) (mode : M) (bound : list SocketAddr)
    : result StartError (AccessServer M * list SocketAddr) :=
  a ← ok_or (BindFailed addr) (bind w bound addr);
  Ok ({| server_addr := a; server_tls := tls; server_mode := mode; limiter := Listener.bind |}, bound ++ [a]).
Record MailDeployment (M : Type) := { md_server : AccessServer M; md_seed : list (bytes * Z); md_auth : A }.
Record SubmissionDeployment := {
  sd_server : AccessServer LegacyNet.LegacyTls; sd_native : list string; sd_auth : A; sd_sink : Submission.SpoolSink }.

Definition load_seed : result StartError (list (bytes * Z)) :=
  match imap_maildir c with
  | Some d => ok_or (MaildirUnreadable d) (ImapAccess.load_maildir_messages (maildir w d))
  | None => Ok []
  end.
Definition build_imap (s : DirectorySource) (tls : option C) (bound : list SocketAddr)
    : result StartError (option (MailDeployment ImapTls) * list SocketAddr) :=
  if negb (imap_enable c) then Ok (None, bound)
  else
    tls ← ok_or (RequiresTls Imap) tls;
    '(auth, accounts) ← load_legacy_credentials s;
    _ ← enforce_gateway_mode s accounts;
    seed ← load_seed;
    '(server, bound) ← bind_server (imap_listen c) tls (imap_tls c) bound;
    Ok (Some {| md_server := server; md_seed := seed; md_auth := auth |}, bound).
Definition build_pop3 (s : DirectorySource) (tls : option C) (bound : list SocketAddr)
    : result StartError (option (MailDeployment LegacyNet.LegacyTls) * list SocketAddr) :=
  if negb (pop3_enable c) then Ok (None, bound)
  else
    tls ← ok_or (RequiresTls Pop3) tls;
    '(auth, accounts) ← load_legacy_credentials s;
    _ ← enforce_gateway_mode s accounts;
    seed ← load_seed;
    '(server, bound) ← bind_server (pop3_listen c) tls (pop3_tls c) bound;
    Ok (Some {| md_server := server; md_seed := seed; md_auth := auth |}, bound).
Definition build_submission (s : DirectorySource) (tls : option C) (bound : list SocketAddr)
    : result StartError (option SubmissionDeployment * list SocketAddr) :=
  if negb (submission_enable c) then Ok (None, bound)
  else
    tls ← ok_or (RequiresTls Submit) tls;
    '(auth, accounts) ← load_legacy_credentials s;
    _ ← enforce_gateway_mode s accounts;
    sink ← match submission_spool c with
           | Some spool =>
               ok_or (SpoolNotDirectory spool)
                 (Submission.SpoolSink_new (bool_decide (is_Some (spool_dir w spool))) (default ∅ (spool_dir w spool)) (spool_disk w) (spool_clock w))
           | None => Err SpoolRequired
           end;
    '(server, bound) ← bind_server (submission_listen c) tls (submission_tls c) bound;
    Ok (Some {| sd_server := server; sd_native := Submission.bind_domains (native_domains c); sd_auth := auth; sd_sink := sink |}, bound).

(** The store a connection gets. *)
Definition seed_store {S} `{MailStore S} (seed : list (bytes * Z)) : S := foldl (λ st m, (deliver_raw m.1 m.2 st).2) store_new seed.
(** What the surfaces' threads and the MX listener returned, [None] for a panic. *)
Fixpoint join_all (handles : list (option (result StartError unit))) (mx : result StartError unit) : result StartError unit :=
  match handles with
  | [] => mx
  | h :: handles => r ← ok_or ThreadPanicked h; _ ← r; join_all handles mx
  end.

(** ** The daemon *)

Section daemon.
Context `{KC : KotvaCbor} `{KI : KotvaIdentity} `{KD : KotvaContentId} `{KM : !KotvaMote} `{KMC : !KotvaMoteCbor} `{MM : KotvaMime}
  `{PSL : PublicSuffixList} `{DC : DkimCrypto} `{ID : Idna}.
#[export] Instance AnyMesh_MeshDelivery : MeshDelivery AnyMesh := {
  deliver env att m :=
    match m with
    | Http m => let '(o, m) := deliver env att m in (o, Http m)
    | Null m => let '(o, m) := deliver env att m in (o, Null m)
    end }.
Definition Gateway : Type := Inbound.InboundGateway (D := Directory.InMemoryDirectory) (M := AnyMesh) (G := AllowAllAbuse)
  (KR := DnsResolvers.DnsDkimKeyResolver) (SR := DnsResolvers.DnsSpfResolver) (DR := DnsResolvers.DnsDmarcResolver).
Definition build_inbound (ik : IdentityKey) (d : Directory.InMemoryDirectory) (m : AnyMesh) : Gateway :=
  let client := dns w (dns_server c) in
  let dkim_policy := if dkim_enforce c then Inbound.DkimEnforce else Inbound.DkimAnnotate in
  let spf_policy := if spf_enforce c then Inbound.SpfEnforce else Inbound.SpfAnnotate in
  let dmarc_policy := if dmarc_enforce c then Inbound.DmarcEnforce else Inbound.DmarcAnnotate in
  Inbound.with_dmarc {| DnsResolvers.dmarc_client := client |} dmarc_policy
    (Inbound.with_spf {| DnsResolvers.spf_client := client |} spf_policy
      (Inbound.with_dkim {| DnsResolvers.dkim_client := client |} dkim_policy
        (Inbound.for_own_domains ik [(domain c, selector c)] d m allow_all_abuse))).

Record Running := {
  gateway : Gateway;
  mx_addr : SocketAddr;
  mx_tls : option C;
  imap : option (MailDeployment ImapTls);
  pop3 : option (MailDeployment LegacyNet.LegacyTls);
  submission : option SubmissionDeployment;
  registry : Admission.IdentityRegistry;
  quota_ledger : Quota.QuotaLedger;
}.
(** [serve] up to the threads; [ik] is the key [IdentityKey::generate] draws. *)
Definition serve (ik : IdentityKey) : result StartError Running :=
  s ← load_directory;
  m ← build_mesh;
  tls ← build_tls;
  '(im, bound) ← build_imap s tls [];
  '(po, bound) ← build_pop3 s tls bound;
  '(su, bound) ← build_submission s tls bound;
  a ← ok_or (BindFailed (listen c)) (bind w bound (listen c));
  Ok {| gateway := build_inbound ik (into_boxed s) m; mx_addr := a; mx_tls := tls; imap := im; pop3 := po; submission := su;
        registry := build_registry s; quota_ledger := build_quota_ledger s |}.
End daemon.

(** ** Directory look-ups *)

Definition keys_lower (d : Directory.InMemoryDirectory) : Prop :=
  ∀ k v, Directory.entries d !! k = Some v → to_ascii_lowercase k = k.
Lemma dir_iter_elem s e : e ∈ dir_iter s ↔ Directory.entries (dir_of s) !! e.1 = Some e.2.
Proof using.
  unfold dir_iter. rewrite (list.elem_of_Permutation_proper _ _ _ (hm_iter_perm _)). destruct e. apply elem_of_map_to_list.
Qed.
Lemma parse_keys_lower n ls d d' : Directory.parse_lines n ls d = Ok d' → keys_lower d → keys_lower d'.
Proof using.
  revert n d. induction ls as [|raw ls IH]; intros n d H Hd; cbn [Directory.parse_lines] in H; [by injection H as <-|].
  case_bool_decide; [by eapply IH|]. destruct (Directory.parse_line _ _ _) as [d1|] eqn:E; [|done]. eapply IH; [exact H|].
  unfold Directory.parse_line in E. destruct (split_whitespace _) as [|em [|ik [|sl [|]]]]; try done.
  destruct (contains_char _ em); [|done]. cbn [negb] in E. destruct (B64.decode ik) as [x|]; [|done]. destruct (B64.decode sl) as [y|]; [|done].
  assert (d1 = Directory.insert em {| rk_ik := x; rk_seal_pub := y |} d) as -> by (by injection E).
  intros k v. unfold Directory.insert. cbn [Directory.entries]. rewrite lookup_insert. case_decide as Ek; [|apply Hd]. intros _. subst k.
  unfold Directory.key_of. apply to_ascii_lowercase_idem.
Qed.
Lemma load_directory_lower s : load_directory = Ok s → keys_lower (dir_of s).
Proof using.
  unfold load_directory. destruct (directory c) as [path|].
  - destruct (read_text w path) as [text|]; [|done]. cbn. destruct (Directory.parse text) as [d|] eqn:E; [|done]. cbn. intros [= <-].
    eapply parse_keys_lower; [exact E|]. by intros k v.
  - intros [= <-]. by intros k v.
Qed.
(** The order in which the directory is visited does not matter. *)
Lemma resolve_identity_lookup s u :
  keys_lower (dir_of s) → resolve_identity s u = rk_ik <$> Directory.entries (dir_of s) !! to_ascii_lowercase u.
Proof using.
  intros Hl. unfold resolve_identity. destruct (find_first _ _) as [[k v]|] eqn:E.
  - apply find_first_Some in E as [Hin Hk]. apply dir_iter_elem in Hin. cbn in Hin, Hk. apply bool_decide_eq_true in Hk.
    rewrite (Hl _ _ Hin) in Hk. rewrite <- Hk, Hin. done.
  - destruct (Directory.entries (dir_of s) !! to_ascii_lowercase u) as [v|] eqn:El; [|done].
    assert ((to_ascii_lowercase u, v) ∈ dir_iter s) as Hin by (by apply dir_iter_elem).
    apply (find_first_None _ _ _ E) in Hin. apply bool_decide_eq_false in Hin. cbn in Hin. by rewrite to_ascii_lowercase_idem in Hin.
Qed.
Lemma is_registered_lookup s a :
  keys_lower (dir_of s) → is_registered s a = true ↔ is_Some (Directory.entries (dir_of s) !! to_ascii_lowercase a).
Proof using.
  intros Hl. unfold is_registered. rewrite existsb_exists. split.
  - intros ([k v] & Hin & Hk). apply list_elem_of_In, dir_iter_elem in Hin. apply bool_decide_eq_true in Hk. cbn in Hin, Hk.
    rewrite (Hl _ _ Hin) in Hk. rewrite <- Hk, Hin. by eexists.
  - intros [v Hv]. exists (to_ascii_lowercase a, v). split; [by apply list_elem_of_In, dir_iter_elem|].
    apply bool_decide_eq_true. cbn. apply to_ascii_lowercase_idem.
Qed.

(** ** The operator's mode *)

Lemma distinct_elem accounts x : x ∈ distinct accounts ↔ ∃ a, a ∈ accounts ∧ to_ascii_lowercase a = x.
Proof using.
  unfold distinct. assert (∀ d, x ∈ foldl add_distinct d accounts ↔ x ∈ d ∨ ∃ a, a ∈ accounts ∧ to_ascii_lowercase a = x) as H; [|by rewrite H; set_solver].
  induction accounts as [|a l IH]; intros d; cbn [foldl]; [set_solver|]. rewrite IH. unfold add_distinct. case_bool_decide; set_solver.
Qed.
Lemma distinct_NoDup accounts : NoDup (distinct accounts).
Proof using.
  unfold distinct. assert (∀ d, NoDup d → NoDup (foldl add_distinct d accounts)) as H; [|apply H; constructor].
  induction accounts as [|a l IH]; intros d Hd; cbn [foldl]; [done|]. apply IH. unfold add_distinct. case_bool_decide; [done|].
  apply NoDup_app. split; [done|]. split; [set_solver|]. apply NoDup_singleton.
Qed.
(** What a mode promises about the accounts served. *)
Definition mode_allows (s : DirectorySource) (accounts : list string) : Prop :=
  match gateway_mode c with
  | Admission.Private => ∀ a b, a ∈ accounts → b ∈ accounts → eq_ignore_ascii_case a b = true
  | Admission.RegisteredClientsOnly => ∀ a, a ∈ accounts → is_Some (Directory.entries (dir_of s) !! to_ascii_lowercase a)
  | Admission.Public => True
  end.
Lemma enforce_spec s accounts n :
  keys_lower (dir_of s) → enforce_gateway_mode s accounts = Ok n ↔ mode_allows s accounts ∧ n = length (distinct accounts).
Proof using.
  intros Hl. unfold enforce_gateway_mode, mode_allows. destruct (gateway_mode c).
  - destruct (1 <? length (distinct accounts))%nat eqn:E.
    + apply Nat.ltb_lt in E. split; [done|]. intros [H _]. exfalso.
      pose proof (distinct_NoDup accounts) as Hnd. pose proof (distinct_elem accounts) as He.
      destruct (distinct accounts) as [|x [|y d]]; [cbn in E; lia..|]. apply NoDup_cons in Hnd as [Hx _].
      destruct (proj1 (He x)) as (a & Ha & <-); [set_solver|]. destruct (proj1 (He y)) as (b & Hb & <-); [set_solver|].
      specialize (H a b Ha Hb). apply bool_decide_eq_true in H. rewrite H in Hx. set_solver.
    + apply Nat.ltb_ge in E. split; [|by intros [_ ->]]. intros [= <-]. split; [|done]. intros a b Ha Hb. apply bool_decide_eq_true.
      assert (to_ascii_lowercase a ∈ distinct accounts) as Ha' by (apply distinct_elem; eauto).
      assert (to_ascii_lowercase b ∈ distinct accounts) as Hb' by (apply distinct_elem; eauto).
      destruct (distinct accounts) as [|x [|y d]]; [set_solver| |cbn in E; lia]. apply list_elem_of_singleton in Ha', Hb'. congruence.
  - destruct (find_first _ _) as [a|] eqn:E.
    + split; [done|]. intros [H _]. apply find_first_Some in E as [Ha Hr]. apply distinct_elem in Ha as (a0 & Ha & <-).
      apply negb_true_iff in Hr. apply H in Ha. rewrite <- (to_ascii_lowercase_idem a0) in Ha. apply is_registered_lookup in Ha; [congruence|done].
    + split; [|by intros [_ ->]]. intros [= <-]. split; [|done]. intros a Ha.
      assert (to_ascii_lowercase a ∈ distinct accounts) as Ha' by (apply distinct_elem; eauto).
      apply (find_first_None _ _ _ E), negb_false_iff, is_registered_lookup in Ha'; [|done]. by rewrite to_ascii_lowercase_idem in Ha'.
  - split; [by intros [= <-]|by intros [_ ->]].
Qed.

(** ** Credentials *)

(** Where the key of an account comes from: the third field of its line, or the
    directory's entry for its name. *)
Definition bound_key (s : DirectorySource) (ls : list string) (cr : Credential) : Prop :=
  ∃ raw, raw ∈ ls ∧
    ((split_whitespace (trim (strip_comment raw)) = [user cr; password cr] ∧
      rk_ik <$> Directory.entries (dir_of s) !! to_ascii_lowercase (user cr) = Some (identity cr)) ∨
     ∃ b64, split_whitespace (trim (strip_comment raw)) = [user cr; password cr; b64] ∧ B64.decode b64 = Ok (identity cr)).
Lemma parse_credential_bound s n t cr :
  keys_lower (dir_of s) → parse_credential s n t = Ok cr →
  (split_whitespace t = [user cr; password cr] ∧
     rk_ik <$> Directory.entries (dir_of s) !! to_ascii_lowercase (user cr) = Some (identity cr)) ∨
  ∃ b64, split_whitespace t = [user cr; password cr; b64] ∧ B64.decode b64 = Ok (identity cr).
Proof using.
  intros Hl. unfold parse_credential. destruct (split_whitespace t) as [|u [|p [|b [|x r]]]]; try done.
  - rewrite resolve_identity_lookup by done. destruct (_ <$> _) as [ik|] eqn:E; [|done]. intros [= <-]. by left.
  - destruct (B64.decode b) as [ik|] eqn:E; [|done]. intros [= <-]. right. by exists b.
  - by destruct (B64.decode b) as [ik|].
Qed.
Lemma parse_credentials_bound s n ls crs :
  keys_lower (dir_of s) → parse_credentials s n ls = Ok crs → Forall (bound_key s ls) crs.
Proof using.
  intros Hl. revert n crs. induction ls as [|raw ls IH]; intros n crs H; cbn [parse_credentials] in H; [by injection H as <-|].
  assert (∀ l, Forall (bound_key s ls) l → Forall (bound_key s (raw :: ls)) l) as Hw.
  { intros l HF. eapply Forall_impl; [exact HF|]. intros cr (r & Hr & Hc). exists r. split; [by right|done]. }
  case_bool_decide; [by eapply Hw, IH|]. destruct (parse_credential _ _ _) as [cr|] eqn:E; [|done].
  destruct (parse_credentials s (S n) ls) as [crs'|] eqn:E'; [|done]. injection H as <-. constructor; [|by eapply Hw, IH].
  exists raw. split; [by left|]. by eapply parse_credential_bound.
Qed.

(** ** What has started *)

(** The table of passwords a surface checks against. *)
Definition credentials_served (s : DirectorySource) (a : A) : Prop :=
  ∃ crs, credentials s = Ok crs ∧ a = foldl issue auth_new crs ∧ mode_allows s (user <$> crs) ∧
    match imap_credentials c with
    | Some path => ∃ text, read_text w path = Some text ∧ Forall (bound_key s (str_lines text)) crs
    | None => crs = []
    end.
Lemma credentials_checked s a accounts n :
  keys_lower (dir_of s) → load_legacy_credentials s = Ok (a, accounts) → enforce_gateway_mode s accounts = Ok n → credentials_served s a.
Proof using.
  intros Hl H Hm. unfold load_legacy_credentials in H. destruct (credentials s) as [crs|] eqn:Ec; [|done]. injection H as <- <-.
  apply enforce_spec in Hm as [Hm _]; [|done]. exists crs. split_and!; try done. unfold credentials in Ec.
  destruct (imap_credentials c) as [path|]; [|by injection Ec as <-]. destruct (read_text w path) as [text|] eqn:Et; [|done].
  exists text. split; [done|]. eapply parse_credentials_bound; [done|exact Ec].
Qed.
(** A surface with its server [sv] and table of passwords [a], for a listener whose
    TLS configuration is [tls]. *)
Definition surface_ok {M} (s : DirectorySource) (tls : option C) (sv : AccessServer M) (a : A) : Prop :=
  tls = Some (server_tls _ sv) ∧ credentials_served s a.
Lemma bind_server_tls {M} addr tls (m : M) bound sv bound' :
  bind_server addr tls m bound = Ok (sv, bound') → server_tls _ sv = tls ∧ server_mode _ sv = m ∧ bound' = bound ++ [server_addr _ sv].
Proof using. unfold bind_server. destruct (bind w bound addr); [|done]. by intros [= <- <-]. Qed.

(** The steps the three surfaces share: TLS, credentials and mode; and the listener. *)
Ltac surface_steps s tls :=
  destruct tls as [tls|]; [|done]; simpl_res;
  destruct (load_legacy_credentials s) as [[a acc]|] eqn:E1; [|done]; simpl_res;
  destruct (enforce_gateway_mode s acc) eqn:E2; [|done]; simpl_res.
Ltac bound_server :=
  destruct (bind_server _ _ _ _) as [[sv b]|] eqn:E4; [|done]; intros [= <- <-];
  apply bind_server_tls in E4 as (<- & Hm & _); eexists; split; [done|].
Lemma build_imap_ok s tls bound d bound' :
  keys_lower (dir_of s) → build_imap s tls bound = Ok (d, bound') →
  if imap_enable c then ∃ dep, d = Some dep ∧ surface_ok s tls (md_server _ dep) (md_auth _ dep) ∧ server_mode _ (md_server _ dep) = imap_tls c ∧
    load_seed = Ok (md_seed _ dep)
  else d = None.
Proof using.
  intros Hl. unfold build_imap. destruct (imap_enable c); cbn [negb]; [|by intros [= <- <-]]. surface_steps s tls.
  destruct load_seed as [seed|] eqn:E3; [|done]. simpl_res. bound_server. split_and!; try done. split; [done|]. by eapply credentials_checked.
Qed.
Lemma build_pop3_ok s tls bound d bound' :
  keys_lower (dir_of s) → build_pop3 s tls bound = Ok (d, bound') →
  if pop3_enable c then ∃ dep, d = Some dep ∧ surface_ok s tls (md_server _ dep) (md_auth _ dep) ∧ server_mode _ (md_server _ dep) = pop3_tls c ∧
    load_seed = Ok (md_seed _ dep)
  else d = None.
Proof using.
  intros Hl. unfold build_pop3. destruct (pop3_enable c); cbn [negb]; [|by intros [= <- <-]]. surface_steps s tls.
  destruct load_seed as [seed|] eqn:E3; [|done]. simpl_res. bound_server. split_and!; try done. split; [done|]. by eapply credentials_checked.
Qed.
Lemma build_submission_ok s tls bound d bound' :
  keys_lower (dir_of s) → build_submission s tls bound = Ok (d, bound') →
  if submission_enable c then ∃ dep, d = Some dep ∧ surface_ok s tls (sd_server dep) (sd_auth dep) ∧ server_mode _ (sd_server dep) = submission_tls c ∧
    ∃ path files, submission_spool c = Some path ∧ spool_dir w path = Some files ∧ Submission.dir (sd_sink dep) = files
  else d = None.
Proof using.
  intros Hl. unfold build_submission. destruct (submission_enable c); cbn [negb]; [|by intros [= <- <-]]. surface_steps s tls.
  destruct (submission_spool c) as [path|]; [|done]. destruct (spool_dir w path) as [files|] eqn:E3; [|done]. rewrite bool_decide_true by (by eexists).
  cbn [Submission.SpoolSink_new default]. simpl_res. bound_server. split_and!; [|done|by exists path, files]. split; [done|]. by eapply credentials_checked.
Qed.

(** ** The admission registry and the quota ledger *)

Lemma register_fold q l r :
  let r' := foldl (λ reg e, Admission.register (registered q e) reg) r l in
  (∀ id, id ∈ Admission.entries r' → id ∈ Admission.entries r ∨ ∃ e, e ∈ l ∧ id = registered q e) ∧
  (∀ k, (∃ id, id ∈ Admission.entries r ∧ Admission.ri_public_key id = k) ∨ (∃ e, e ∈ l ∧ rk_ik e.2 = k) →
        ∃ id, id ∈ Admission.entries r' ∧ Admission.ri_public_key id = k).
Proof using.
  revert r. induction l as [|e l IH]; intros r; cbn [foldl]; [split; [by left|set_solver]|].
  destruct (IH (Admission.register (registered q e) r)) as [IH1 IH2]. clear IH. cbn zeta. split.
  - intros id Hid. destruct (IH1 id Hid) as [Hr|(e' & He & ->)]; [|right; exists e'; set_solver].
    unfold Admission.register in Hr. cbn [Admission.entries] in Hr. apply elem_of_app in Hr as [Hr|Hr].
    + left. by apply list_elem_of_filter in Hr as [_ Hr].
    + apply list_elem_of_singleton in Hr as ->. right. exists e. set_solver.
  - intros k Hk. apply IH2. unfold Admission.register. cbn [Admission.entries]. destruct (decide (rk_ik e.2 = k)) as [He|He].
    + left. exists (registered q e). split; [|done]. apply elem_of_app. right. by apply list_elem_of_singleton.
    + destruct Hk as [(id & Hid & <-)|(e' & He' & <-)].
      * left. exists id. split; [|done]. apply elem_of_app. left. apply list_elem_of_filter. split; [|done]. cbn. congruence.
      * right. exists e'. split; [|done]. apply elem_of_cons in He' as [->|He']; [done|done].
Qed.
(** In key-registered mode the registry knows exactly the keys of the directory, each
    under an address the directory has it for; in open mode it registers nobody. *)
Theorem registry_is_directory s k :
  match authz_mode c with
  | Admission.OpenPublic => Admission.identity_for_key k (build_registry s) = None
  | Admission.KeyRegistered =>
      (∀ id, Admission.identity_for_key k (build_registry s) = Some id →
        ∃ rk, Directory.entries (dir_of s) !! Admission.ri_account id = Some rk ∧ rk_ik rk = k ∧
          Admission.ri_public_key id = k ∧ Admission.ri_domain id = domain c) ∧
      (is_Some (Admission.identity_for_key k (build_registry s)) ↔
        ∃ email rk, Directory.entries (dir_of s) !! email = Some rk ∧ rk_ik rk = k)
  end.
Proof using.
  unfold build_registry. destruct (authz_mode c); [done|]. set (q := default _ _).
  destruct (register_fold q (dir_iter s) Admission.key_registered) as [H1 H2]. set (r := foldl _ _ _) in *. clearbody r. cbn [Admission.entries Admission.key_registered] in H1, H2.
  assert (∀ id, Admission.identity_for_key k r = Some id →
    ∃ e, e ∈ dir_iter s ∧ id = registered q e ∧ rk_ik e.2 = k) as Hid.
  { intros id Hf. apply find_first_Some in Hf as [Hin Hk]. apply bool_decide_eq_true in Hk.
    destruct (H1 _ Hin) as [Hn|(e & He & ->)]; [by apply elem_of_nil in Hn|]. by exists e. }
  split.
  - intros id Hf. destruct (Hid _ Hf) as (e & He & -> & Hk). apply dir_iter_elem in He. by exists e.2.
  - split.
    + intros [id Hf]. destruct (Hid _ Hf) as (e & He & _ & Hk). apply dir_iter_elem in He. by exists e.1, e.2.
    + intros (email & rk & He & Hk). destruct (H2 k) as (id & Hin & Hid').
      { right. exists (email, rk). split; [by apply dir_iter_elem|done]. }
      eapply find_first_is_Some; [exact Hin|]. by apply bool_decide_eq_true.
Qed.
Lemma ledger_fold q (l : list (string * RecipientKey)) led account :
  Quota.limits (foldl (λ l e, Quota.set_quota e.1 q l) led l) !! account =
    if bool_decide (account ∈ (fst <$> l : list string)) then Some q else Quota.limits led !! account.
Proof using.
  revert led. induction l as [|e l IH]; intros led; cbn [foldl fmap list_fmap]; [done|]. rewrite IH. cbn [Quota.limits Quota.set_quota].
  rewrite lookup_insert. repeat case_bool_decide; try case_decide; set_solver.
Qed.
(** With a quota every directory address has a limit.  Without one, which the start-up
    log calls unlimited, the ledger is empty and refuses every charge. *)
Theorem unlimited_quota_refuses s account n :
  match quota c with
  | Some q => is_Some (Directory.entries (dir_of s) !! account) ↔ Quota.limits (build_quota_ledger s) !! account = Some q
  | None => describe_quota (quota c) = "unlimited"%string ∧
            Quota.try_charge account n (build_quota_ledger s) = (Err (Quota.Unregistered account), build_quota_ledger s)
  end.
Proof using.
  unfold build_quota_ledger. destruct (quota c) as [q|]; [|done]. rewrite ledger_fold. cbn [Quota.limits Quota.QuotaLedger_new].
  rewrite lookup_empty. case_bool_decide as Ha.
  - split; [done|]. intros _. apply list_elem_of_fmap in Ha as (e & -> & He). apply dir_iter_elem in He. by eexists.
  - split; [|done]. intros [rk Hrk]. destruct Ha. apply list_elem_of_fmap. exists (account, rk). split; [done|]. by apply dir_iter_elem.
Qed.

Section outbound.
Context `{ID : Idna} (idn_display : Idn.IdnError → string) `{KE : KotvaMimeEncode} `{KD : KotvaContentId} `{DC : DkimCrypto}
  `{HT : !OutboundTransport OutboundTcp.SmtpTcpTransport} `{HA : AddressClaimAuthz AZ}.
#[local] Existing Instance MtaSts.MtaStsTlsPolicy_TlsPolicy.
#[local] Existing Instance MtaSts.DnsTxtResolver_TxtResolver.
#[local] Existing Instance Mx.DnsMxResolver_MxResolver.
#[local] Existing Instance Outbound.HttpsPolicyFetcher_PolicyFetcher.
(** The outbound gateway is built without signing keys, sender guard or address
    authority: it refuses whatever it is asked to send. *)
Theorem outbound_sends_nothing payload from to account now t1 t2 :
  let gw := build_outbound (AZ := AZ) in
  (∃ e, Outbound.send idn_display gw payload from to now = (Outbound.Failed e, gw)) ∧
  ∃ why, Outbound.send_authenticated idn_display gw payload from to account now t1 t2 = (Outbound.Blocked (OutboundGuard.Refuse why), gw).
Proof.
  cbn zeta. split; [|by eexists]. unfold Outbound.send, Outbound.prepare, Outbound.translate_and_sign.
  destruct (Outbound.wire_address _ _) as [[n spec]|e]; [|by eexists]. simpl_res.
  destruct (Outbound.domain_of spec); [|by eexists]. by eexists.
Qed.
End outbound.

(** ** The started daemon *)

Section running.
Context `{KC : KotvaCbor} `{KI : KotvaIdentity} `{KD : KotvaContentId} `{KM : !KotvaMote} `{KMC : !KotvaMoteCbor} `{MM : KotvaMime}
  `{PSL : PublicSuffixList} `{DC : DkimCrypto} `{ID : Idna}.

Lemma serve_Ok ik r :
  serve ik = Ok r →
  ∃ s m b1 b2 b3, load_directory = Ok s ∧ build_mesh = Ok m ∧ build_tls = Ok (mx_tls r) ∧
    build_imap s (mx_tls r) [] = Ok (imap r, b1) ∧ build_pop3 s (mx_tls r) b1 = Ok (pop3 r, b2) ∧
    build_submission s (mx_tls r) b2 = Ok (submission r, b3) ∧ gateway r = build_inbound ik (into_boxed s) m.
Proof using.
  unfold serve. destruct load_directory as [s|] eqn:Ed; [|done]. simpl_res. destruct build_mesh as [m|] eqn:Em; [|done]. simpl_res.
  destruct build_tls as [tls|] eqn:Et; [|done]. simpl_res. destruct (build_imap _ _ _) as [[im b1]|] eqn:E1; [|done]. simpl_res.
  destruct (build_pop3 _ _ _) as [[po b2]|] eqn:E2; [|done]. simpl_res. destruct (build_submission _ _ _) as [[su b3]|] eqn:E3; [|done]. simpl_res.
  destruct (bind w b3 (listen c)); [|done]. simpl_res. intros [= <-]. by exists s, m, b1, b2, b3.
Qed.
(** The TLS configuration of the daemon: the one the TLS library makes of the contents of
    the configured certificate and key files; none when neither is configured. *)
Definition tls_as_configured (tls : option C) : Prop :=
  match tls_cert c, tls_key c with
  | Some cert_path, Some key_path => ∃ cert key cfg,
      read_bytes w cert_path = Some cert ∧ read_bytes w key_path = Some key ∧
      server_config_from_pem w cert key = Some cfg ∧ tls = Some cfg
  | None, None => tls = None
  | _, _ => False
  end.
Lemma build_tls_configured tls : build_tls = Ok tls → tls_as_configured tls.
Proof using.
  unfold build_tls, tls_as_configured. destruct (tls_cert c) as [cert|], (tls_key c) as [key|]; [|done..|by intros [= <-]].
  destruct (read_bytes w cert) as [cp|] eqn:E1; [|done]. destruct (read_bytes w key) as [kp|] eqn:E2; [|done]. cbn.
  destruct (server_config_from_pem w cp kp) as [cfg|] eqn:E3; [|done]. intros [= <-]. by exists cp, kp, cfg.
Qed.
(** C13: The daemon comes up only as configured.  Its TLS configuration is the one made of the
    contents of the configured certificate and key files; with one of the two files
    unconfigured, missing or refused by the TLS library it does not start.  Each legacy
    surface is there exactly when it is enabled, and then with that TLS configuration and
    the configured mode: implicit TLS, or STARTTLS, which begins in clear.  The
    application passwords are those of the credentials file, each bound to the key its
    line or the directory gives, for accounts the operator's mode allows; and submissions
    have an existing spool directory. *)
Theorem startup_fails_closed ik r :
  serve ik = Ok r →
  ∃ s, load_directory = Ok s ∧
    tls_as_configured (mx_tls r) ∧
    (if imap_enable c then ∃ d, imap r = Some d ∧ surface_ok s (mx_tls r) (md_server _ d) (md_auth _ d) ∧ server_mode _ (md_server _ d) = imap_tls c ∧
       load_seed = Ok (md_seed _ d)
     else imap r = None) ∧
    (if pop3_enable c then ∃ d, pop3 r = Some d ∧ surface_ok s (mx_tls r) (md_server _ d) (md_auth _ d) ∧ server_mode _ (md_server _ d) = pop3_tls c ∧
       load_seed = Ok (md_seed _ d)
     else pop3 r = None) ∧
    (if submission_enable c then ∃ d, submission r = Some d ∧ surface_ok s (mx_tls r) (sd_server d) (sd_auth d) ∧ server_mode _ (sd_server d) = submission_tls c ∧
       ∃ path files, submission_spool c = Some path ∧ spool_dir w path = Some files ∧ Submission.dir (sd_sink d) = files
     else submission r = None).
Proof.
  intros (s & m & b1 & b2 & b3 & Ed & _ & Ht%build_tls_configured & E1 & E2 & E3 & _)%serve_Ok.
  pose proof (load_directory_lower _ Ed) as Hl. exists s.
  split_and!; try done; [by eapply build_imap_ok|by eapply build_pop3_ok|by eapply build_submission_ok].
Qed.
(** C20: A started gateway answers a message with 250 only if the recipient's domain is
    the configured one and the recipient is in the directory, a mesh endpoint is
    configured, and the node at that endpoint answered the request that carries the
    sealed message with a status that starts with 2. *)
Theorem started_gateway_acks_honestly ik r from to d now spf eph reply gw' :
  serve ik = Ok r →
  Inbound.accept_message_with_spf (gateway r) from to d now spf eph = (reply, gw') → Inbound.reply_code reply = 250 →
  ∃ s dom rk url ep env att answer status rest,
    load_directory = Ok s ∧ Inbound.domain_of to = Some dom ∧ eq_ignore_ascii_case (domain c) dom = true ∧
    Directory.resolve (dir_of s) to = Some rk ∧
    mesh_endpoint c = Some url ∧ Mesh.Endpoint_new url = Ok ep ∧
    Inbound.wrap_and_attest (gateway r) from to d now eph = Ok (env, att) ∧
    node w (Mesh.host ep) (Mesh.port ep) (Mesh.request_of ep env att) = Some answer ∧
    Net.read_line_str answer = (Ok (Some status), rest) ∧ Mesh.code_ok status = true.
Proof.
  intros (s & m & b1 & b2 & b3 & Ed & Em & _ & _ & _ & _ & Hg)%serve_Ok Ha Hr.
  apply Inbound.accept_250 in Ha as (_ & _ & env & att & Hw & Hdel); [|done].
  pose proof Hw as (dom & rk & k & Hdom & Hrk & Hk & _)%Inbound.wrap_Ok.
  apply find_first_Some in Hk as [Hin Hk]. rewrite Hg in Hin, Hrk, Hdel. apply list_elem_of_singleton in Hin as ->.
  unfold build_mesh in Em. destruct (mesh_endpoint c) as [url|]; [|injection Em as <-; by cbn in Hdel].
  destruct (Mesh.Endpoint_new url) as [ep|] eqn:Eu; [|done]. injection Em as <-.
  assert (∃ m', Mesh.mesh_deliver env att {| Mesh.endpoint := ep; Mesh.node := node w; Mesh.sent := [] |} = (Acked, m')) as (m' & Hm).
  { cbn -[Mesh.mesh_deliver] in Hdel. destruct (Mesh.mesh_deliver _ _ _) as [o m'] eqn:E. exists m'. by injection Hdel as -> _. }
  apply Mesh.mesh_acked in Hm as (answer & status & rest & H1 & H2 & H3 & _).
  by exists s, dom, rk, url, ep, env, att, answer, status, rest.
Qed.
End running.
End startup.
End Startup.

(** A gateway for one operator, with all three surfaces on. *)
Module StartupWitness.
Import Personal Startup.
#[local] Existing Instance Reference.ref_identity.
#[local] Existing Instance DkimWitness.toy_crypto.
#[local] Existing Instance DmarcWitness.toy_psl.
#[local] Existing Instance Directory.InMemoryDirectory_KeyDirectory.
#[local] Existing Instance DnsResolvers.DnsDkimKeyResolver_DkimKeyResolver.
#[local] Existing Instance DnsResolvers.DnsSpfResolver_SpfResolver.
#[local] Existing Instance DnsResolvers.DnsDmarcResolver_DmarcTxtResolver.
#[local] Existing Instance InboundWitness.toy_mote.
#[local] Existing Instance InboundWitness.toy_mime.
#[local] Instance ascii_idna : Idna := {| idna_to_ascii s := if str_all is_ascii s then Ok (to_ascii_lowercase s) else Err "not ASCII"%string |}.
#[local] Instance toy_cbor : KotvaMoteCbor := {| env_det_cbor := env_id |}.
#[local] Instance debug : StrDebug := {| str_debug s := s |}.
#[local] Instance iter : HashMapIter := {| hm_iter := λ V m, map_to_list m; hm_iter_perm := λ V m, reflexivity _ |}.
#[local] Instance table : Authenticators (list (string * string * bytes)) := {|
  auth_new := []; auth_issue u p ik _ a := a ++ [(u, p, ik)] |}.
Definition nl : string := String "010" EmptyString.
Definition text : string :=
  "domain = example.org" +:+ nl +:+ "directory = dir" +:+ nl +:+ "mesh_endpoint = http://127.0.0.1:8080/ingest" +:+ nl +:+
  "tls_cert = cert.pem" +:+ nl +:+ "tls_key = key.pem" +:+ nl +:+ "imap_enable = yes" +:+ nl +:+ "pop3_enable = 1" +:+ nl +:+
  "submission_enable = on" +:+ nl +:+ "submission_spool = out" +:+ nl +:+ "imap_credentials = creds # application passwords" +:+ nl.
Definition cfg : PersonalConfig := match parse text with Ok c => c | Err _ => default_config end.
Definition files (path : string) : option string :=
  if bool_decide (path = "dir")%string then Some "alice@example.org AQ== Ag=="%string
  else if bool_decide (path = "creds")%string then Some ("Alice@Example.org secret" +:+ nl)
  else if bool_decide (path ∈ ["cert.pem"; "key.pem"])%string then Some path
  else None.
Definition world : World (C := bytes * bytes) := {|
  read_text := files; read_bytes p := as_bytes <$> files p; server_config_from_pem cert key := Some (cert, key); maildir _ := None;
  spool_dir p := if bool_decide (p = "out")%string then Some ∅ else None; spool_disk _ := true; spool_clock _ := 0;
  node _ _ _ := Some (as_bytes "HTTP/1.1 202 Accepted" ++ Dkim.CRLF);
  dns _ := {| Dns.txn_id _ _ := 0; Dns.datagram _ := None |};
  https := {| Outbound.https_resolve _ _ := None; Outbound.https_response _ _ := None |};
  bind bound _ := Some {| sa_ip := V4 0; sa_scope := 0; sa_port := Z.of_nat (length bound) |} |}.
Definition ik : @IdentityKey Reference.ref_identity := [Byte.x07].
Definition started : result StartError Running := serve world cfg ik.
Lemma startup_fails_closed_witness :
  ∃ r d, started = Ok r ∧ imap r = Some d ∧ md_auth _ d = [("Alice@Example.org", "secret", [Byte.x01])%string] ∧
    mx_tls r = Some (as_bytes "cert.pem", as_bytes "key.pem") ∧ mx_tls r = Some (server_tls _ (md_server _ d)).
Proof.
  assert (∃ r, started = Ok r) as [r E] by (vm_compute; eexists; reflexivity).
  destruct (startup_fails_closed world cfg ik r) as (s & Es & Hp & Hi & _); [exact E|].
  change (imap_enable cfg) with true in Hi. cbv iota in Hi. destruct Hi as (d & Hd & [Ht (crs & Ec & Ha & _)] & _).
  exists r, d. split; [exact E|]. split; [exact Hd|]. split; [|split; [|exact Ht]].
  2: { assert (tls_cert cfg = Some "cert.pem" ∧ tls_key cfg = Some "key.pem")%string as [E1 E2] by (split; vm_compute; reflexivity).
       unfold tls_as_configured in Hp. rewrite E1, E2 in Hp. destruct Hp as (cert & key & tls & Hc & Hk & Hcfg & Htls). rewrite Htls.
       cbn [read_bytes world] in Hc, Hk. assert (Some (as_bytes "cert.pem") = Some cert) as Hc' by exact Hc. assert (Some (as_bytes "key.pem") = Some key) as Hk' by exact Hk.
       injection Hc' as <-. injection Hk' as <-. symmetry. exact Hcfg. }
  rewrite Ha. vm_compute in Es.
  apply (f_equal (λ x, match x with Ok s => s | Err _ => s end)) in Es. subst s. vm_compute in Ec.
  apply (f_equal (λ x, match x with Ok s => s | Err _ => crs end)) in Ec. subst crs. vm_compute. reflexivity.
Defined.
Definition gw : Gateway := match started with Ok r => gateway r | Err _ => build_inbound world cfg [] Directory.InMemoryDirectory_new (Null null_mesh) end.
Definition accepted := Inbound.accept_message_with_spf gw "<x@sender.example>" "alice@example.org" (as_bytes "hi") 1000 None [Byte.x09].
Lemma started_gateway_acks_honestly_witness :
  ∃ ep, Mesh.Endpoint_new "http://127.0.0.1:8080/ingest" = Ok ep ∧ Inbound.reply_code accepted.1 = 250.
Proof.
  assert (∃ r, started = Ok r ∧ gw = gateway r) as (r & E & Eg) by (vm_compute; eexists; split; reflexivity).
  destruct (started_gateway_acks_honestly world cfg ik r "<x@sender.example>" "alice@example.org" (as_bytes "hi") 1000 None ([Byte.x09] : @IdentityKey Reference.ref_identity) accepted.1 accepted.2)
    as (s & dom & rk & url & ep & _ & _ & _ & _ & _ & _ & _ & _ & _ & Hu & Hep & _).
  - exact E.
  - rewrite <- Eg. apply surjective_pairing.
  - vm_compute. reflexivity.
  - exists ep. split; [|vm_compute; reflexivity]. rewrite <- Hep. vm_compute in Hu. by injection Hu as <-.
Defined.
End StartupWitness.
