(* ===== verification/Patala.v ===== *)
(** * The prepaid settlement rail over a payment network

    [crates/broker-billing-patala/src/lib.rs]: the prepaid balances that verified
    receipts of a payment rail credit, and the [SettlementRail] that charges them.  The
    payment rail is a parameter ([PaymentRail]), as are its requests and receipts as
    far as the code reads them.  [credit_from_receipt] is asynchronous and takes its
    three locks one after another, so it is also given as the steps of a task, and a
    service runs any number of tasks and charges in any order. *)

From Stdlib Require Import ZArith Lia.
From stdpp Require Import base decidable option sets list strings gmap relations.
From S2P Require Import Prelude BillingSettlement.

(** [patala_core]: what the adapter reads of a receipt and writes to a request. *)
Record Receipt := { rc_amount_minor : Z; rc_currency : string; rc_reference : string; rc_proof : bytes }.
Record PayRequest := { pr_amount_minor : Z; pr_currency : string; pr_destination : string; pr_reference : string }.
Class PaymentRail (R : Type) := { rail_verify : R → Receipt → result string bool }.

Module Patala.
Import Settlement.

Inductive PatalaSettlementError :=
| CurrencyMismatch (requested configured : string)
| InsufficientCredit (balance amount : Z) (currency : string)
| Rail (e : string)
| NotVerified
| ReceiptCurrencyMismatch (receipt expected : string).

Section adapter.
Context {R : Type} `{PR : PaymentRail R}.
Record PatalaSettlement := {
  rail : R;
  destination : string;
  currency : string;
  ledger : gmap bytes Z;
  credited_references : gset string;
  next_tx_seq : Z;
}.
Definition PatalaSettlement_new (r : R) (dest cur : string) : PatalaSettlement := {|
  rail := r; destination := dest; currency := cur; ledger := ∅; credited_references := ∅; next_tx_seq := 0 |}.
Definition with_ledger (l : gmap bytes Z) (p : PatalaSettlement) : PatalaSettlement := {|
  rail := rail p; destination := destination p; currency := currency p; ledger := l;
  credited_references := credited_references p; next_tx_seq := next_tx_seq p |}.
Definition with_credited (c : gset string) (p : PatalaSettlement) : PatalaSettlement := {|
  rail := rail p; destination := destination p; currency := currency p; ledger := ledger p;
  credited_references := c; next_tx_seq := next_tx_seq p |}.
Definition local_balance (payer : bytes) (p : PatalaSettlement) : Z := default 0 (ledger p !! payer).
Definition next_seq (p : PatalaSettlement) : Z * PatalaSettlement :=
  (next_tx_seq p, {| rail := rail p; destination := destination p; currency := currency p; ledger := ledger p;
                     credited_references := credited_references p; next_tx_seq := U64.wrap (next_tx_seq p + 1) |}).
Definition top_up_pay_request (amount_minor : Z) (reference : string) (p : PatalaSettlement) : PayRequest := {|
  pr_amount_minor := amount_minor; pr_currency := currency p; pr_destination := destination p; pr_reference := reference |}.

Definition credit_ledger (payer : bytes) (r : Receipt) (p : PatalaSettlement) : Z * PatalaSettlement :=
  let b := U64.saturating_add (local_balance payer p) (rc_amount_minor r) in (b, with_ledger (<[payer := b]> (ledger p)) p).
Definition mark_credited (r : Receipt) (p : PatalaSettlement) : PatalaSettlement :=
  with_credited ({[rc_reference r]} ∪ credited_references p) p.
Definition credit_from_receipt (payer : bytes) (r : Receipt) (p : PatalaSettlement)
    : result PatalaSettlementError Z * PatalaSettlement :=
  if negb (bool_decide (rc_currency r = currency p)) then (Err (ReceiptCurrencyMismatch (rc_currency r) (currency p)), p)
  else if bool_decide (rc_reference r ∈ credited_references p) then (Ok (local_balance payer p), p)
  else
    match rail_verify (rail p) r with
    | Err e => (Err (Rail e), p)
    | Ok false => (Err NotVerified, p)
    | Ok true => let '(b, p) := credit_ledger payer r p in (Ok b, mark_credited r p)
    end.

Definition patala_charge (payer : bytes) (amount : Z) (cur : string) (p : PatalaSettlement)
    : result PatalaSettlementError SettlementReceipt * PatalaSettlement :=
  if negb (bool_decide (cur = currency p)) then (Err (CurrencyMismatch cur (currency p)), p)
  else
    let balance := local_balance payer p in
    if balance <? amount then (Err (InsufficientCredit balance amount cur), p)
    else
      let p := with_ledger (<[payer := balance - amount]> (ledger p)) p in
      let '(seq, p) := next_seq p in
      (Ok {| sr_payer := payer; sr_amount := amount; sr_currency := cur; sr_tx_seq := seq |}, p).
Definition patala_balance (payer : bytes) (cur : string) (p : PatalaSettlement) : result PatalaSettlementError Z :=
  if negb (bool_decide (cur = currency p)) then Ok 0 else Ok (I64.wrap (local_balance payer p)).
#[export] Instance PatalaSettlement_SettlementRail : SettlementRail PatalaSettlement PatalaSettlementError := {|
  charge := patala_charge; balance := patala_balance |}.
#[export] Instance PatalaSettlement_laws : SettlementRailLaws PatalaSettlement PatalaSettlementError.
Proof.
  split; cbn; unfold patala_charge, next_seq; intros; repeat case_match; simplify_eq; done.
Qed.

(** ** A service *)

(** Where a call of [credit_from_receipt] is. *)
Inductive Phase :=
| Called
| Checked
| Verified
| Credited (new_balance : Z)
| Returned (res : result PatalaSettlementError Z).
Record Task := { payer : bytes; receipt : Receipt; phase : Phase }.
Definition at_phase (ph : Phase) (t : Task) : Task := {| payer := payer t; receipt := receipt t; phase := ph |}.
Definition task_step (t : Task) (p : PatalaSettlement) : Task * PatalaSettlement :=
  let r := receipt t in
  match phase t with
  | Called =>
      if negb (bool_decide (rc_currency r = currency p)) then (at_phase (Returned (Err (ReceiptCurrencyMismatch (rc_currency r) (currency p)))) t, p)
      else if bool_decide (rc_reference r ∈ credited_references p) then (at_phase (Returned (Ok (local_balance (payer t) p))) t, p)
      else (at_phase Checked t, p)
  | Checked =>
      match rail_verify (rail p) r with
      | Err e => (at_phase (Returned (Err (Rail e))) t, p)
      | Ok false => (at_phase (Returned (Err NotVerified)) t, p)
      | Ok true => (at_phase Verified t, p)
      end
  | Verified => let '(b, p) := credit_ledger (payer t) r p in (at_phase (Credited b) t, p)
  | Credited b => (at_phase (Returned (Ok b)) t, mark_credited r p)
  | Returned _ => (t, p)
  end.
(** A task that runs with nothing in between is the function. *)
Theorem task_alone_is_call who r p :
  let '(t, p') := Nat.iter 4 (λ '(t, p), task_step t p) ({| payer := who; receipt := r; phase := Called |}, p) in
  let '(res, q) := credit_from_receipt who r p in
  phase t = Returned res ∧ p' = q.
Proof.
  cbn [Nat.iter nat_rect]. unfold credit_from_receipt.
  assert (∀ res q, task_step {| payer := who; receipt := r; phase := Returned res |} q = ({| payer := who; receipt := r; phase := Returned res |}, q)) as Hret by done.
  remember {| payer := who; receipt := r; phase := Called |} as t0 eqn:E0.
  destruct (task_step t0 p) as [t1 p1] eqn:E1. subst t0. unfold task_step in E1. cbn in E1.
  destruct (bool_decide (rc_currency r = currency p)); cbn [negb] in E1 |- *; [|by injection E1 as <- <-].
  destruct (bool_decide (rc_reference r ∈ credited_references p)); [by injection E1 as <- <-|].
  injection E1 as <- <-. unfold at_phase. cbn [payer receipt].
  destruct (task_step _ p) as [t2 p2] eqn:E2. unfold task_step in E2. cbn in E2.
  destruct (rail_verify (rail p) r) as [[]|]; injection E2 as <- <-; done.
Qed.

(** The adapter, the calls under way, and what has happened so far: the credits to the
    ledger and the receipts of the charges. *)
Record Service := { adapter : PatalaSettlement; tasks : list Task; credits : list (bytes * Receipt); charged : list SettlementReceipt }.
Definition credit_of (t : Task) : list (bytes * Receipt) := match phase t with Verified => [(payer t, receipt t)] | _ => [] end.
Inductive service_step : Service → Service → Prop :=
| call_starts s who r :
    0 ≤ rc_amount_minor r ≤ U64.MAX →
    service_step s {| adapter := adapter s; tasks := tasks s ++ [{| payer := who; receipt := r; phase := Called |}];
                      credits := credits s; charged := charged s |}
| task_moves s i t t' p' :
    tasks s !! i = Some t → task_step t (adapter s) = (t', p') →
    service_step s {| adapter := p'; tasks := <[i := t']> (tasks s); credits := credits s ++ credit_of t; charged := charged s |}
| charge_made s who amount cur r p' :
    0 ≤ amount ≤ U64.MAX → patala_charge who amount cur (adapter s) = (Ok r, p') →
    service_step s {| adapter := p'; tasks := tasks s; credits := credits s; charged := charged s ++ [r] |}
| charge_refused s who amount cur e p' :
    patala_charge who amount cur (adapter s) = (Err e, p') →
    service_step s {| adapter := p'; tasks := tasks s; credits := credits s; charged := charged s |}.
Definition Service_new (r : R) (dest cur : string) : Service := {|
  adapter := PatalaSettlement_new r dest cur; tasks := []; credits := []; charged := [] |}.

Definition credited_to (who : bytes) (s : Service) : Z :=
  sum_Z ((λ c, if bool_decide (c.1 = who) then rc_amount_minor c.2 else 0) <$> credits s).
Definition charged_to (who : bytes) (s : Service) : Z :=
  sum_Z ((λ r, if bool_decide (sr_payer r = who) then sr_amount r else 0) <$> charged s).
(** A receipt the rail confirmed. *)
Definition genuine (p : PatalaSettlement) (r : Receipt) : Prop :=
  rail_verify (rail p) r = Ok true ∧ rc_currency r = currency p ∧ 0 ≤ rc_amount_minor r ≤ U64.MAX.
Definition task_ok (p : PatalaSettlement) (t : Task) : Prop :=
  match phase t with
  | Called => 0 ≤ rc_amount_minor (receipt t) ≤ U64.MAX
  | Checked => rc_currency (receipt t) = currency p ∧ 0 ≤ rc_amount_minor (receipt t) ≤ U64.MAX
  | Verified | Credited _ => genuine p (receipt t)
  | Returned _ => True
  end.
Definition uncredited (t : Task) : nat := match phase t with Called | Checked | Verified => 1 | _ => 0 end.
Record backed (r : R) (dest cur : string) (s : Service) : Prop := {
  b_config : rail (adapter s) = r ∧ destination (adapter s) = dest ∧ currency (adapter s) = cur;
  b_tasks : Forall (task_ok (adapter s)) (tasks s);
  b_credits : Forall (λ c, genuine (adapter s) c.2) (credits s);
  b_once : (length (credits s) + sum_list_with uncredited (tasks s) ≤ length (tasks s))%nat;
  b_solvent who : 0 ≤ local_balance who (adapter s) ∧ local_balance who (adapter s) + charged_to who s ≤ credited_to who s ∧
    (credited_to who s ≤ U64.MAX → local_balance who (adapter s) + charged_to who s = credited_to who s);
  b_charges : Forall (λ r, 0 ≤ sr_amount r) (charged s);
}.

Lemma balance_credited who who0 r p :
  local_balance who (credit_ledger who0 r p).2 =
    if bool_decide (who0 = who) then U64.saturating_add (local_balance who p) (rc_amount_minor r) else local_balance who p.
Proof. unfold credit_ledger, local_balance. cbn. rewrite lookup_insert. case_bool_decide; case_decide; subst; done. Qed.
(** What a step of a task changes. *)
Lemma task_step_effect t p t' p' :
  task_ok p t → task_step t p = (t', p') →
  rail p' = rail p ∧ destination p' = destination p ∧ currency p' = currency p ∧ task_ok p t' ∧
  (length (credit_of t) + uncredited t' ≤ uncredited t)%nat ∧
  Forall (λ c, genuine p c.2) (credit_of t) ∧
  ∀ who, 0 ≤ local_balance who p →
    let d := sum_Z ((λ c, if bool_decide (c.1 = who) then rc_amount_minor c.2 else 0) <$> credit_of t) in
    0 ≤ local_balance who p' ≤ local_balance who p + d ∧ (local_balance who p + d ≤ U64.MAX → local_balance who p' = local_balance who p + d).
Proof.
  intros Hok H. unfold task_step, task_ok, credit_of, uncredited in *. destruct t as [who0 r ph]. cbn [phase receipt payer] in *.
  destruct ph as [| | |b|res].
  - destruct (bool_decide (rc_currency r = currency p)) eqn:Ec; [|injection H as <- <-; cbn; split_and!; try done; intros; cbn; lia].
    destruct (bool_decide (rc_reference r ∈ _)); injection H as <- <-; cbn; split_and!; try done; try (intros; cbn; lia).
    by apply bool_decide_eq_true in Ec.
  - destruct (rail_verify (rail p) r) as [[]|] eqn:Ev; injection H as <- <-; cbn; split_and!; try done; try (intros; cbn; lia).
  - injection H as <- <-. cbn. split_and!; try done; [by constructor|]. intros who Hb. destruct Hok as (_ & _ & Ha).
    change (with_ledger _ p) with (credit_ledger who0 r p).2. rewrite balance_credited. unfold U64.saturating_add, U64.MAX in *.
    case_bool_decide; subst; cbn; lia.
  - injection H as <- <-. cbn. split_and!; try done. intros who Hb. cbn. unfold local_balance in *. cbn. lia.
  - injection H as <- <-. cbn. split_and!; try done. intros. cbn. lia.
Qed.
Lemma patala_charge_effect who amount cur p r p' :
  patala_charge who amount cur p = (Ok r, p') →
  rail p' = rail p ∧ destination p' = destination p ∧ currency p' = currency p ∧ cur = currency p ∧
  sr_payer r = who ∧ sr_amount r = amount ∧ amount ≤ local_balance who p ∧
  ∀ x, local_balance x p' = if bool_decide (x = who) then local_balance who p - amount else local_balance x p.
Proof.
  unfold patala_charge, next_seq. destruct (bool_decide (cur = currency p)) eqn:Ec; [|done]. cbn [negb].
  destruct (local_balance who p <? amount) eqn:Eb; [done|]. apply Z.ltb_ge in Eb. apply bool_decide_eq_true in Ec. intros [= <- <-]. cbn.
  split_and!; try done. intros x. unfold local_balance. cbn. rewrite lookup_insert. case_bool_decide; case_decide; subst; done.
Qed.

Lemma task_ok_config p p' t : rail p' = rail p → currency p' = currency p → task_ok p t → task_ok p' t.
Proof. intros H1 H2. unfold task_ok, genuine. destruct (phase t); by rewrite ?H1, ?H2. Qed.
Lemma genuine_config p p' (l : list (bytes * Receipt)) :
  rail p' = rail p → currency p' = currency p → Forall (λ c, genuine p c.2) l → Forall (λ c, genuine p' c.2) l.
Proof. intros H1 H2 HF. eapply Forall_impl; [exact HF|]. intros c. cbn. unfold genuine. by rewrite H1, H2. Qed.
Lemma sum_list_insert (f : Task → nat) l i t t' :
  l !! i = Some t → (sum_list_with f (<[i := t']> l) + f t = sum_list_with f l + f t')%nat.
Proof.
  revert i. induction l as [|x l IH]; intros [|i] H; try done.
  - cbn in H. injection H as ->. change (<[0%nat := t']> (t :: l)) with (t' :: l). cbn [sum_list_with]. lia.
  - change (<[S i := t']> (x :: l)) with (x :: <[i := t']> l). cbn [sum_list_with]. specialize (IH i H). lia.
Qed.
Lemma charged_nonneg who (s : Service) : Forall (λ r, 0 ≤ sr_amount r) (charged s) → 0 ≤ charged_to who s.
Proof.
  intros H. apply sum_Z_nonneg, Forall_fmap. eapply Forall_impl; [exact H|]. intros r ?. cbn. by case_bool_decide.
Qed.
Lemma backed_step r dest cur s s' : backed r dest cur s → service_step s s' → backed r dest cur s'.
Proof.
  intros [Hcfg Ht Hc Ho Hs Hq] Hstep. destruct Hstep as [s who rc Ha|s i t t' p' Hi Hts|s who amount cu rc p' Ha Hch|s who amount cu e p' Hch].
  - split; cbn; try done.
    + apply Forall_app. split; [done|]. constructor; [exact Ha|constructor].
    + rewrite sum_list_with_app, length_app. cbn. lia.
  - pose proof (Forall_lookup_1 _ _ _ _ Ht Hi) as Htok.
    destruct (task_step_effect _ _ _ _ Htok Hts) as (E1 & E2 & E3 & Htok' & Hlen & Hg & Hbal). split; cbn [adapter tasks credits charged].
    + by rewrite E1, E2, E3.
    + apply Forall_insert; [|by eapply task_ok_config]. eapply Forall_impl; [exact Ht|]. intros x. by apply task_ok_config.
    + apply Forall_app. split; by eapply genuine_config.
    + rewrite length_insert, length_app. pose proof (sum_list_insert uncredited _ _ _ t' Hi). lia.
    + intros who. destruct (Hs who) as (Hb0 & Hb & He). specialize (Hbal who Hb0). pose proof (charged_nonneg who _ Hq) as Hc0.
      unfold credited_to, charged_to in *. cbn [credits charged]. rewrite fmap_app, sum_Z_app. cbn zeta in Hbal. destruct Hbal as [Hb1 Hb2].
      assert (0 ≤ sum_Z ((λ c, if bool_decide (c.1 = who) then rc_amount_minor c.2 else 0) <$> credit_of t)) as Hd.
      { apply sum_Z_nonneg, Forall_fmap. eapply Forall_impl; [exact Hg|]. intros x (_ & _ & ?). cbn. case_bool_decide; lia. }
      split_and!; [lia..|]. intros Hm. rewrite Hb2 by lia. rewrite <- He by lia. lia.
    + done.
  - destruct (patala_charge_effect _ _ _ _ _ _ Hch) as (E1 & E2 & E3 & _ & P1 & P2 & Hle & Hbal). split; cbn [adapter tasks credits charged].
    + by rewrite E1, E2, E3.
    + eapply Forall_impl; [exact Ht|]. intros x. by apply task_ok_config.
    + by eapply genuine_config.
    + done.
    + intros x. destruct (Hs x) as (Hb0 & Hb & He). unfold credited_to, charged_to in *. cbn [credits charged]. rewrite fmap_app, sum_Z_app.
      assert (sum_Z ((λ r, if bool_decide (sr_payer r = x) then sr_amount r else 0) <$> [rc]) = if bool_decide (who = x) then amount else 0) as ->
        by (cbn; rewrite P1, P2; apply Z.add_0_r).
      rewrite Hbal. repeat case_bool_decide; subst; try done; split_and!; try lia; intros; rewrite <- He by done; lia.
    + apply Forall_app. split; [done|]. constructor; [rewrite P2; lia|constructor].
  - assert (p' = adapter s) as ->; [|split; done].
    unfold patala_charge, next_seq in Hch. repeat case_match; simplify_eq; done.
Qed.
(** *** References *)

Definition has_reference (f : string) (r : Receipt) : bool := bool_decide (rc_reference r = f).
Definition credits_for (f : string) (s : Service) : nat := length (List.filter (λ c, has_reference f c.2) (credits s)).
(** Calls for a reference that are past its check and have not credited it yet. *)
Definition past_check (f : string) (t : Task) : nat :=
  match phase t with Checked | Verified => if has_reference f (receipt t) then 1 else 0 | _ => 0 end.
Definition under_way (f : string) (s : Service) : nat := sum_list_with (past_check f) (tasks s).
(** Marks and credits belong together: what is credited is marked or about to be, and what
    is marked has been credited. *)
Record marks_ok (s : Service) : Prop := {
  m_credited c : c ∈ credits s →
    rc_reference c.2 ∈ credited_references (adapter s) ∨ ∃ t b, t ∈ tasks s ∧ phase t = Credited b ∧ receipt t = c.2;
  m_marked f : f ∈ credited_references (adapter s) → ∃ c, c ∈ credits s ∧ rc_reference c.2 = f;
  m_tasks t b : t ∈ tasks s → phase t = Credited b → (payer t, receipt t) ∈ credits s;
}.
Lemma patala_charge_marks who amount cur p : credited_references (patala_charge who amount cur p).2 = credited_references p.
Proof. unfold patala_charge, next_seq. by repeat case_match. Qed.
(** What a step of a task does to the marks. *)
Lemma task_step_marks t p t' p' :
  task_step t p = (t', p') →
  receipt t' = receipt t ∧ payer t' = payer t ∧
  credited_references p' = match phase t with Credited _ => {[rc_reference (receipt t)]} ∪ credited_references p | _ => credited_references p end ∧
  (∀ b, phase t' = Credited b → phase t = Verified) ∧
  (phase t = Verified → ∃ b, phase t' = Credited b) ∧
  (∀ f, f ∈ credited_references p → (length (List.filter (λ c, has_reference f c.2) (credit_of t)) + past_check f t' ≤ past_check f t)%nat).
Proof.
  destruct t as [who r ph]. unfold task_step, past_check, credit_of. cbn [phase receipt payer].
  destruct ph as [| | |b|res].
  - case_bool_decide as Ec; cbn [negb]; [|intros [= <- <-]; cbn; split_and!; try done].
    case_bool_decide as Em; intros [= <- <-]; cbn; split_and!; try done. intros f Hf. unfold has_reference. by rewrite bool_decide_false by (by intros <-).
  - destruct (rail_verify _ r) as [[]|]; intros [= <- <-]; cbn; split_and!; try done; intros; lia.
  - intros [= <- <-]. cbn. split_and!; try done; [intros; by eexists|]. intros f _. unfold has_reference. case_bool_decide; cbn; lia.
  - intros [= <- <-]. cbn. split_and!; try done.
  - intros [= <- <-]. cbn. split_and!; try done.
Qed.
Lemma task_inserted (l : list Task) i t t' x : l !! i = Some t → x ∈ <[i := t']> l → x = t' ∨ x ∈ l.
Proof.
  intros Hi [j Hj]%list_elem_of_lookup. destruct (decide (j = i)) as [->|Hne].
  - rewrite list_lookup_insert_eq in Hj by (by eapply lookup_lt_Some). injection Hj as <-. by left.
  - rewrite list_lookup_insert_ne in Hj by done. right. by eapply list_elem_of_lookup_2.
Qed.
Lemma task_kept (l : list Task) i t t' x : l !! i = Some t → x ∈ l → x = t ∨ x ∈ <[i := t']> l.
Proof.
  intros Hi [j Hj]%list_elem_of_lookup. destruct (decide (j = i)) as [->|Hne]; [left; congruence|].
  right. eapply (list_elem_of_lookup_2 _ j). by rewrite list_lookup_insert_ne.
Qed.
Lemma marks_step s s' : service_step s s' → marks_ok s → marks_ok s'.
Proof.
  intros Hst [Hc Hm Ht]. destruct Hst as [s who r _|s i t t' p' Hi Hts|s who amount cur rc p' _ Hch|s who amount cur e p' Hch].
  - split; cbn; [|done|].
    + intros c [?|(t & b & ? & ? & ?)]%Hc; [by left|]. right. exists t, b. split; [|done]. apply elem_of_app. by left.
    + intros t b [Hin| ->%list_elem_of_singleton]%elem_of_app; [by apply Ht|done].
  - destruct (task_step_marks _ _ _ _ Hts) as (Er & Ep & Em & Hcr & Hvf & _). apply list_elem_of_lookup_2 in Hi as Hin.
    assert (∀ x, x ∈ credited_references (adapter s) → x ∈ credited_references p') as Hmono by (rewrite Em; case_match; set_solver).
    split; cbn [adapter tasks credits].
    + intros c [Hold|Hnew]%elem_of_app.
      * destruct (Hc c Hold) as [?|(x & b & Hx & Hph & Hrx)]; [left; by apply Hmono|].
        destruct (task_kept _ _ _ t' _ Hi Hx) as [->|Hk]; [|right; by exists x, b].
        left. rewrite Em, Hph, Hrx. set_solver.
      * unfold credit_of in Hnew. destruct (phase t) eqn:Hph; try by apply elem_of_nil in Hnew. apply list_elem_of_singleton in Hnew as ->.
        destruct (Hvf eq_refl) as [b Hb]. right. exists t', b. split_and!; [|done|done]. eapply (list_elem_of_lookup_2 _ i).
        by rewrite list_lookup_insert_eq by (by eapply lookup_lt_Some).
    + intros f Hf. assert (f ∈ credited_references (adapter s) ∨ ∃ b, phase t = Credited b ∧ f = rc_reference (receipt t)) as [Hold|(b & Hph & ->)].
      { rewrite Em in Hf. destruct (phase t) eqn:Hph; [by left..| |by left]. apply elem_of_union in Hf as [->%elem_of_singleton|Hf]; [right; by eexists|by left]. }
      * destruct (Hm f Hold) as (c & ? & ?). exists c. split; [|done]. apply elem_of_app. by left.
      * exists (payer t, receipt t). split; [|done]. apply elem_of_app. left. by eapply Ht.
    + intros x b Hx Hph. apply elem_of_app. destruct (task_inserted _ _ _ _ _ Hi Hx) as [->|Hk]; [|left; by eapply Ht].
      right. rewrite Er, Ep. unfold credit_of. rewrite (Hcr b Hph). by apply list_elem_of_singleton.
  - pose proof (patala_charge_marks who amount cur (adapter s)) as E. rewrite Hch in E. cbn in E. split; cbn; rewrite ?E; done.
  - pose proof (patala_charge_marks who amount cur (adapter s)) as E. rewrite Hch in E. cbn in E. split; cbn; rewrite ?E; done.
Qed.
(** Once a reference is marked, it stays so, and each further credit of it uses up a call
    that was past the check. *)
Lemma marked_step f s s' :
  service_step s s' → f ∈ credited_references (adapter s) →
  f ∈ credited_references (adapter s') ∧ (credits_for f s' + under_way f s' ≤ credits_for f s + under_way f s)%nat.
Proof.
  intros Hst Hf. destruct Hst as [s who r _|s i t t' p' Hi Hts|s who amount cur rc p' _ Hch|s who amount cur e p' Hch].
  - split; [done|]. unfold under_way. cbn. rewrite sum_list_with_app. unfold credits_for. cbn. lia.
  - destruct (task_step_marks _ _ _ _ Hts) as (_ & _ & Em & _ & _ & Hp). split; [cbn; rewrite Em; case_match; set_solver|].
    unfold credits_for, under_way. cbn [credits tasks]. rewrite List.filter_app, length_app.
    pose proof (sum_list_insert (past_check f) _ _ _ t' Hi). specialize (Hp f Hf). lia.
  - pose proof (patala_charge_marks who amount cur (adapter s)) as E. rewrite Hch in E. cbn in E. split; [cbn; by rewrite E|]. done.
  - pose proof (patala_charge_marks who amount cur (adapter s)) as E. rewrite Hch in E. cbn in E. split; [cbn; by rewrite E|]. done.
Qed.
Lemma marked_steps f s s' :
  rtc service_step s s' → f ∈ credited_references (adapter s) → (credits_for f s' + under_way f s' ≤ credits_for f s + under_way f s)%nat.
Proof.
  induction 1 as [|s1 s2 s3 Hst _ IH]; [done|]. intros Hf. destruct (marked_step f _ _ Hst Hf) as [Hf2 Hle]. specialize (IH Hf2). lia.
Qed.
Lemma reachable_backed r dest cur s : rtc service_step (Service_new r dest cur) s → backed r dest cur s ∧ marks_ok s.
Proof.
  intros Hr. assert (backed r dest cur (Service_new r dest cur) ∧ marks_ok (Service_new r dest cur)) as H0.
  { split; [split; cbn; try done; constructor|]. split; cbn; [intros c Hc; by apply elem_of_nil in Hc|set_solver|intros t b Ht; by apply elem_of_nil in Ht]. }
  revert H0. induction Hr as [|s1 s2 s3 Hst _ IH]; [done|]. intros [H1 H2]. apply IH. split; [by eapply backed_step|by eapply marks_step].
Qed.
(** C23: In every interleaving of top-ups and charges: what a payer has and has been charged is
    covered by the receipts credited to it, and equals their sum below the cap; each of
    them the payment rail confirmed, in the rail's currency.  The references that count as
    credited are those of the credits, but for a credit whose call is about to mark it.
    Once a reference counts as credited, no call that starts later credits it, whoever
    makes it: its further credits are at most the calls that were already past the check
    then, and none when there are none.  (Calls that are past the check together do credit
    it more than once, [overlapping_calls_credit_twice].) *)
Theorem credit_backed_by_receipts r dest cur s s' :
  rtc service_step (Service_new r dest cur) s → rtc service_step s s' →
  Forall (λ c, rail_verify r c.2 = Ok true ∧ rc_currency c.2 = cur) (credits s') ∧
  (length (credits s') ≤ length (tasks s'))%nat ∧
  (∀ who, 0 ≤ local_balance who (adapter s') ∧ local_balance who (adapter s') + charged_to who s' ≤ credited_to who s' ∧
     (credited_to who s' ≤ U64.MAX → local_balance who (adapter s') + charged_to who s' = credited_to who s')) ∧
  (∀ c, c ∈ credits s' → rc_reference c.2 ∈ credited_references (adapter s') ∨
     ∃ t b, t ∈ tasks s' ∧ phase t = Credited b ∧ receipt t = c.2) ∧
  (∀ f, f ∈ credited_references (adapter s') → ∃ c, c ∈ credits s' ∧ rc_reference c.2 = f) ∧
  (∀ f, f ∈ credited_references (adapter s) → (credits_for f s' ≤ credits_for f s + under_way f s)%nat).
Proof.
  intros H1 H2. destruct (reachable_backed r dest cur s') as [[(E1 & _ & E3) _ Hc Ho Hs _] [M1 M2 _]]; [by etrans|].
  split_and!; [|lia|done..|].
  - eapply Forall_impl; [exact Hc|]. intros c (G1 & G2 & _). by rewrite <- E1, <- E3.
  - intros f Hf. pose proof (marked_steps f s s' H2 Hf). lia.
Qed.

(** ** One call after another *)

Fixpoint top_ups (calls : list (bytes * Receipt)) (p : PatalaSettlement) : list string * PatalaSettlement :=
  match calls with
  | [] => ([], p)
  | (who, r) :: calls =>
      let p1 := (credit_from_receipt who r p).2 in
      let new := if bool_decide (rc_reference r ∈ credited_references p1) && negb (bool_decide (rc_reference r ∈ credited_references p))
                 then [rc_reference r] else [] in
      let '(l, p2) := top_ups calls p1 in (new ++ l, p2)
  end.
Lemma credit_call who r p :
  (∃ res, credit_from_receipt who r p = (res, p)) ∨
  (rc_reference r ∉ credited_references p ∧
   credited_references (credit_from_receipt who r p).2 = {[rc_reference r]} ∪ credited_references p ∧
   ledger (credit_from_receipt who r p).2 = <[who := U64.saturating_add (local_balance who p) (rc_amount_minor r)]> (ledger p)).
Proof.
  unfold credit_from_receipt, credit_ledger. destruct (bool_decide (rc_currency r = _)); cbn [negb]; [|left; by eexists].
  case_bool_decide; [left; by eexists|]. destruct (rail_verify _ _) as [[]|]; [|left; by eexists..]. by right.
Qed.
(** Calls that do not overlap credit a payment reference at most once, whoever presents
    it and however often; and a call that credits adds the receipt's amount to its
    payer's balance and to no other. *)
Theorem sequential_credits_once calls p :
  let '(refs, p') := top_ups calls p in
  NoDup refs ∧ (∀ x, x ∈ refs → x ∉ credited_references p) ∧
  (∀ x, x ∈ credited_references p' ↔ x ∈ refs ∨ x ∈ credited_references p) ∧
  ∀ who r x, x ≠ who → local_balance x (credit_from_receipt who r p').2 = local_balance x p'.
Proof.
  revert p. induction calls as [|[who r] calls IH]; intros p; cbn [top_ups].
  { split_and!; [constructor|intros x Hx; by apply elem_of_nil in Hx|set_solver|]. intros who r x Hx.
    destruct (credit_call who r p) as [[res ->]|(_ & _ & Hl)]; [done|]. unfold local_balance. by rewrite Hl, lookup_insert_ne. }
  specialize (IH (credit_from_receipt who r p).2). destruct (top_ups calls _) as [refs p'] eqn:E. destruct IH as (I1 & I2 & I3 & I4).
  destruct (credit_call who r p) as [[res Hr]|(Hn & Hc & _)].
  - rewrite Hr in *. cbn [snd] in *. assert (∀ b, b && negb b = false) as -> by (by intros []). done.
  - rewrite Hc in *. rewrite bool_decide_true, bool_decide_false by set_solver. cbn. split_and!; [|set_solver..|done].
    apply NoDup_cons. split; [set_solver|done].
Qed.

(** Two calls that overlap both pass the check for a known reference before either
    records it, and both credit. *)
Theorem overlapping_calls_credit_twice rl dest r who :
  rail_verify rl r = Ok true → 0 ≤ rc_amount_minor r → 2 * rc_amount_minor r ≤ U64.MAX →
  ∃ s, rtc service_step (Service_new rl dest (rc_currency r)) s ∧
    credits s = [(who, r); (who, r)] ∧ local_balance who (adapter s) = 2 * rc_amount_minor r ∧
    Forall (λ t, ∃ b, phase t = Returned (Ok b)) (tasks s).
Proof.
  intros Hv H0 H2. set (s0 := Service_new rl dest (rc_currency r)).
  set (t ph := {| payer := who; receipt := r; phase := ph |}).
  set (p0 := PatalaSettlement_new rl dest (rc_currency r)).
  set (a := rc_amount_minor r) in *.
  assert (∀ p, rail p = rl → task_step (t Checked) p = (t Verified, p)) as Hck.
  { intros p Hp. unfold task_step. cbn. by rewrite Hp, Hv. }
  assert (task_step (t Called) p0 = (t Checked, p0)) as Hcall.
  { unfold task_step. cbn. rewrite bool_decide_true by done. cbn. by rewrite bool_decide_false by set_solver. }
  set (p1 := (credit_ledger who r p0).2). set (p2 := (credit_ledger who r p1).2).
  set (b1 := (credit_ledger who r p0).1). set (b2 := (credit_ledger who r p1).1).
  set (st p l c := {| adapter := p; tasks := l; credits := c; charged := [] |}).
  exists (st (mark_credited r (mark_credited r p2)) [t (Returned (Ok b1)); t (Returned (Ok b2))] [(who, r); (who, r)]).
  assert (∀ i p l c x x' p', l !! i = Some x → task_step x p = (x', p') →
    service_step (st p l c) (st p' (<[i := x']> l) (c ++ credit_of x))) as Hmv.
  { intros i p l c x x' p' Hl Hs. exact (task_moves (st p l c) i x x' p' Hl Hs). }
  assert (rail p0 = rl) as Hp0 by done.
  split.
  - eapply rtc_l; [apply (call_starts s0 who r); unfold U64.MAX in *; lia|].
    eapply rtc_l; [eapply (call_starts (st p0 [t Called] []) who r); unfold U64.MAX in *; lia|].
    eapply rtc_l; [apply (Hmv 0%nat p0 [t Called; t Called] [] _ _ _ eq_refl Hcall)|].
    eapply rtc_l; [apply (Hmv 1%nat p0 [t Checked; t Called] [] _ _ _ eq_refl Hcall)|].
    eapply rtc_l; [apply (Hmv 0%nat p0 [t Checked; t Checked] [] _ _ _ eq_refl (Hck _ Hp0))|].
    eapply rtc_l; [apply (Hmv 1%nat p0 [t Verified; t Checked] [] _ _ _ eq_refl (Hck _ Hp0))|].
    eapply rtc_l; [apply (Hmv 0%nat p0 [t Verified; t Verified] [] _ (t (Credited b1)) p1 eq_refl eq_refl)|].
    eapply rtc_l; [apply (Hmv 1%nat p1 [t (Credited b1); t Verified] [(who, r)] _ (t (Credited b2)) p2 eq_refl eq_refl)|].
    eapply rtc_l; [apply (Hmv 0%nat p2 [t (Credited b1); t (Credited b2)] [(who, r); (who, r)] _ (t (Returned (Ok b1))) (mark_credited r p2) eq_refl eq_refl)|].
    eapply rtc_l; [apply (Hmv 1%nat (mark_credited r p2) [t (Returned (Ok b1)); t (Credited b2)] [(who, r); (who, r)] _ (t (Returned (Ok b2))) (mark_credited r (mark_credited r p2)) eq_refl eq_refl)|].
    apply rtc_refl.
  - split_and!; [done| |].
    + change (local_balance who (credit_ledger who r p1).2 = 2 * a). rewrite balance_credited, bool_decide_true by done. unfold p1.
      rewrite balance_credited, bool_decide_true by done. assert (local_balance who p0 = 0) as -> by done. fold a. unfold U64.saturating_add, U64.MAX in *. lia.
    + repeat constructor; by eexists.
Qed.
End adapter.
End Patala.

Module PatalaWitness.
Import Patala Settlement.
#[local] Instance trusting : PaymentRail unit := {| rail_verify _ _ := Ok true |}.
Definition r : Receipt := {| rc_amount_minor := 500; rc_currency := "USDC"; rc_reference := "ref-1"; rc_proof := [] |}.
(** A top-up that is credited, a charge, and a replay of the same receipt for another
    payer. *)
Definition move (i : nat) (s : Service (R := unit)) : Service :=
  match tasks s !! i with
  | Some t => let '(t', p') := task_step t (adapter s) in
              {| adapter := p'; tasks := <[i := t']> (tasks s); credits := credits s ++ credit_of t; charged := charged s |}
  | None => s
  end.
Definition call (who : bytes) (s : Service (R := unit)) : Service :=
  {| adapter := adapter s; tasks := tasks s ++ [{| payer := who; receipt := r; phase := Called |}]; credits := credits s; charged := charged s |}.
Definition spend (who : bytes) (amount : Z) (s : Service (R := unit)) : Service :=
  match patala_charge who amount "USDC" (adapter s) with
  | (Ok rc, p') => {| adapter := p'; tasks := tasks s; credits := credits s; charged := charged s ++ [rc] |}
  | (Err _, p') => {| adapter := p'; tasks := tasks s; credits := credits s; charged := charged s |}
  end.
Lemma turn_steps i s : rtc service_step s (move i s).
Proof.
  unfold move. destruct (tasks s !! i) as [t|] eqn:Hi; [|apply rtc_refl]. destruct (task_step t (adapter s)) as [t' p'] eqn:E.
  by eapply rtc_once, task_moves.
Defined.
Lemma call_steps who s : rtc service_step s (call who s).
Proof. apply rtc_once, (call_starts s who r). cbn. unfold U64.MAX. lia. Defined.
Lemma spend_steps who amount s : 0 ≤ amount ≤ U64.MAX → rtc service_step s (spend who amount s).
Proof.
  intros Ha. unfold spend. destruct (patala_charge who amount "USDC" (adapter s)) as [[rc|e] p'] eqn:E; apply rtc_once.
  - by eapply charge_made.
  - by eapply charge_refused.
Defined.
Definition funded : Service := Nat.iter 4 (move 0) (call [Byte.x01] (Service_new tt "G1" "USDC")).
Definition replayed : Service := Nat.iter 4 (move 1) (call [Byte.x02] (spend [Byte.x01] 200 funded)).
Lemma turns_steps n i s : rtc service_step s (Nat.iter n (move i) s).
Proof. induction n as [|n IH]; [apply rtc_refl|]. etransitivity; [exact IH|apply turn_steps]. Defined.
Lemma credit_backed_by_receipts_witness :
  credits replayed = [([Byte.x01], r)] ∧ (length (tasks replayed) = 2)%nat ∧ local_balance [Byte.x01] (adapter replayed) = 300 ∧
  local_balance [Byte.x01] (adapter replayed) + charged_to [Byte.x01] replayed = credited_to [Byte.x01] replayed ∧
  (credits_for "ref-1" replayed ≤ credits_for "ref-1" funded + under_way "ref-1" funded)%nat ∧
  (credits_for "ref-1" funded + under_way "ref-1" funded = 1)%nat.
Proof.
  assert (rtc service_step (Service_new tt "G1" "USDC") funded) as H1.
  { etransitivity; [apply call_steps|apply turns_steps]. }
  assert (rtc service_step funded replayed) as H2.
  { etransitivity; [apply (spend_steps [Byte.x01] 200)|etransitivity; [apply call_steps|apply turns_steps]]. unfold U64.MAX. lia. }
  destruct (credit_backed_by_receipts tt "G1" "USDC" funded replayed H1 H2) as (_ & _ & Hb & _ & _ & Hf).
  split; [vm_compute; reflexivity|]. split; [vm_compute; reflexivity|]. split; [vm_compute; reflexivity|].
  split; [apply Hb; vm_compute; discriminate|]. split; [|vm_compute; reflexivity].
  apply Hf. apply (bool_decide_unpack _). vm_compute. exact I.
Defined.
Lemma overlapping_calls_credit_twice_witness : ∃ s, rtc service_step (Service_new tt "G1" "USDC") s ∧ local_balance [] (adapter s) = 1000.
Proof.
  destruct (overlapping_calls_credit_twice tt "G1" r []) as (s & Hs & _ & Hb & _); [reflexivity|cbn; lia|cbn; unfold U64.MAX; lia|].
  exists s. split; [exact Hs|exact Hb].
Defined.
End PatalaWitness.
