(* ===== verification/Operator.v ===== *)
(** * The operator's control plane

    [crates/admin/src]: the keys, the descriptor, the tariff, metering and receipts,
    quotas and the conformance report that an operator manages over HTTP.  The web
    framework and the JSON codec are not modelled: a request is given in its decoded
    form, and hexadecimal ([hex]) is a parameter.  The locks are taken one at a time;
    each handler is a state transformer here, and [sign_descriptor] is also given as the two
    critical sections it consists of; [OperatorTasks] does this for every handler.  The texts of refusals are cut to their fixed
    part. *)

From Stdlib Require Import ZArith Lia Ascii String.
From stdpp Require Import base decidable option sets list strings gmap sorting.
From S2P Require Import Prelude RustStr RustText Visibility Kotva Descriptor BillingMeter BillingTariff BillingReceipt Conformance Provenance Admin AdminProofs Personal.
Import Visibility Kinds.
Local Open Scope Z_scope.

(** [hex::encode] and [hex::decode]. *)
Class HexCodec := { hex_encode : bytes → string; hex_decode : string → option bytes }.

Module Operator.

(** ** Authentication *)

Definition AdminAuth : Type := Admin.AdminAuth.
Definition disabled : AdminAuth := Admin.disabled.
Definition with_token : string → AdminAuth := Admin.with_token.
Definition authorize : option string → AdminAuth → bool := Admin.authorize.
(** [header]: the value of [Authorization], when it is there and printable. *)
Definition bearer_token (header : option string) : option string :=
  value ← header;
  match strip_prefix "Bearer " value with Some t => Some t | None => strip_prefix "bearer " value end.

Inductive AdminError := Unauthorized | BadRequest (what : string) | NotFound (what : string) | Conflict (what : string) | Internal (what : string).
Definition error_status (e : AdminError) : Z :=
  match e with Unauthorized => 401 | BadRequest _ => 400 | NotFound _ => 404 | Conflict _ => 409 | Internal _ => 500 end.

(** ** Visibility *)

Definition class_rank (c : VisibilityClass) : Z := match c with Blind => 0 | BlindRouting => 1 | Terminating => 2 end.
Definition level_rank (l : AssuranceLevel) : Z := match l with Structural => 0 | Attested => 1 | Declared => 2 end.
Definition is_downgrade (from to : ContentVisibility) : bool :=
  (class_rank (class from) <? class_rank (class to)) ||
  (bool_decide (class to = class from) && (level_rank (level from) <? level_rank (level to))).
Record VisibilityDto := { d_class : string; d_level : string }.
Definition class_of (s : string) : option VisibilityClass :=
  if bool_decide (s = "blind"%string) then Some Blind
  else if bool_decide (s = "blind-routing"%string) then Some BlindRouting
  else if bool_decide (s = "terminating"%string) then Some Terminating
  else None.
Definition level_of (s : string) : option AssuranceLevel :=
  if bool_decide (s = "structural"%string) then Some Structural
  else if bool_decide (s = "attested"%string) then Some Attested
  else if bool_decide (s = "declared"%string) then Some Declared
  else None.
Definition to_domain (d : VisibilityDto) : result AdminError ContentVisibility :=
  c ← ok_or (BadRequest "unknown visibility class") (class_of (d_class d));
  l ← ok_or (BadRequest "unknown assurance level") (level_of (d_level d));
  Ok (new c l).
Definition from_domain (v : ContentVisibility) : VisibilityDto := {| d_class := class_fmt (class v); d_level := level_fmt (level v) |}.

(** ** Tariff schedules *)

Definition resource_kind_name (k : ResourceKind) : string :=
  match k with
  | BytesForwarded => "bytes_forwarded"
  | Connections => "connections"
  | Messages => "messages"
  | ComputeSeconds => "compute_seconds"
  end.
Definition resource_kind_from_name (s : string) : result AdminError ResourceKind :=
  if bool_decide (s = "bytes_forwarded"%string) then Ok BytesForwarded
  else if bool_decide (s = "connections"%string) then Ok Connections
  else if bool_decide (s = "messages"%string) then Ok Messages
  else if bool_decide (s = "compute_seconds"%string) then Ok ComputeSeconds
  else Err (BadRequest "unknown resource kind").
(** [token]: whether the field is there; the tables are in the order of their keys. *)
Record TariffScheduleDto := {
  td_currency : string;
  td_prices : list (string * Z);
  td_free_allowance : list (string * Z);
  td_period_seconds : option Z;
  td_token : bool;
}.
Fixpoint kind_table (l : list (string * Z)) (m : gmap ResourceKind Z) : result AdminError (gmap ResourceKind Z) :=
  match l with
  | [] => Ok m
  | (name, n) :: l => k ← resource_kind_from_name name; kind_table l (<[k := n]> m)
  end.
Definition schedule_from_dto (d : TariffScheduleDto) : result AdminError TariffSchedule :=
  if td_token d then Err (BadRequest "no protocol token")
  else
    prices ← kind_table (td_prices d) ∅;
    free ← kind_table (td_free_allowance d) ∅;
    Ok {| currency := td_currency d; prices := prices; free_allowance := free; period_seconds := td_period_seconds d |}.
(** [collect] into a table ordered by name. *)
Definition by_name (a b : string * Z) : Prop := String.le a.1 b.1.
#[local] Instance by_name_dec a b : Decision (by_name a b).
Proof. unfold by_name, String.le. apply _. Defined.
Definition name_table (m : gmap ResourceKind Z) : list (string * Z) :=
  merge_sort by_name ((λ kv, (resource_kind_name kv.1, kv.2)) <$> btree_iter m).
Definition schedule_to_dto (s : TariffSchedule) : TariffScheduleDto := {|
  td_currency := currency s; td_prices := name_table (prices s); td_free_allowance := name_table (free_allowance s);
  td_period_seconds := period_seconds s; td_token := false |}.

Record QuotaPolicy := { requests_per_minute : option Z; max_connections : option Z; daily_byte_quota : option Z; q_notes : option string }.
Definition QuotaPolicy_default : QuotaPolicy :=
  {| requests_per_minute := None; max_connections := None; daily_byte_quota := None; q_notes := None |}.

(** ** The operator's policy *)

Record OperatorPolicy := { region : option string; capabilities : list string; contact : option string; notes : option string }.
Definition OperatorPolicy_default : OperatorPolicy := {| region := None; capabilities := []; contact := None; notes := None |}.

Section state.
Context `{KC : KotvaCbor} `{KA : !KotvaCborArray} `{KI : KotvaIdentity} `{HX : HexCodec} {T : Type} `{MT : Meter T}.

Definition text_pair (k : Z) (v : option string) : list (Z * Cv) := match v with Some s => [(k, cv_text s)] | None => [] end.
Definition policy_pairs (p : OperatorPolicy) : list (Z * Cv) :=
  text_pair 1 (region p) ++
  (if bool_decide (capabilities p = []) then [] else [(2, cv_array (cv_text <$> capabilities p))]) ++
  text_pair 3 (contact p) ++ text_pair 4 (notes p).
Definition policy_to_cv (p : OperatorPolicy) : Cv := cv_map (policy_pairs p).
Fixpoint texts (l : list Cv) : result CborError (list string) :=
  match l with [] => Ok [] | c :: l => s ← as_text c; r ← texts l; Ok (s :: r) end.
Definition policy_from_cv (cv : Cv) : result CborError OperatorPolicy :=
  f ← fields_from_cv cv;
  let '(o, f) := fields_take 1 f in
  region ← transpose (as_text <$> o);
  let '(o, f) := fields_take 2 f in
  capabilities ← match o with Some cv => l ← as_array cv; texts l | None => Ok [] end;
  let '(o, f) := fields_take 3 f in
  contact ← transpose (as_text <$> o);
  let '(o, f) := fields_take 4 f in
  notes ← transpose (as_text <$> o);
  _ ← fields_deny_unknown f;
  Ok {| region := region; capabilities := capabilities; contact := contact; notes := notes |}.
Definition policy_to_cbor (p : OperatorPolicy) : Cbor := Cbor_from_cv (policy_to_cv p).
Definition policy_from_cbor (c : Cbor) : result CborError OperatorPolicy :=
  if bool_decide (c = []) then Ok OperatorPolicy_default else cv ← Cbor_decode c; policy_from_cv cv.

(** ** State *)

Record KeyState := { current : IdentityKey; history : list bytes }.
Definition KeyState_new (ik : IdentityKey) : KeyState := {| current := ik; history := [] |}.
(** [fresh]: what [IdentityKey::generate] gives. *)
Definition rotate (fresh : IdentityKey) (k : KeyState) : (bytes * bytes) * KeyState :=
  ((public (current k), public fresh), {| current := fresh; history := history k ++ [public (current k)] |}).

Record DescriptorState := { ds_kind : CoordinatorKind; ds_visibility : ContentVisibility; ds_policy : OperatorPolicy }.
Record AdminState := {
  keys : KeyState;
  desc : DescriptorState;
  st_tariff : option Tariff;
  meter : T;
  log : ReceiptLog;
  quota : QuotaPolicy;
  auth : AdminAuth;
}.
Definition AdminState_new (kind : CoordinatorKind) (v : ContentVisibility) (k : KeyState) (m : T) (a : AdminAuth) : AdminState := {|
  keys := k; desc := {| ds_kind := kind; ds_visibility := v; ds_policy := OperatorPolicy_default |}; st_tariff := None;
  meter := m; log := ReceiptLog_new; quota := QuotaPolicy_default; auth := a |}.
Definition with_keys (k : KeyState) (s : AdminState) : AdminState := {|
  keys := k; desc := desc s; st_tariff := st_tariff s; meter := meter s; log := log s; quota := quota s; auth := auth s |}.
Definition with_desc (d : DescriptorState) (s : AdminState) : AdminState := {|
  keys := keys s; desc := d; st_tariff := st_tariff s; meter := meter s; log := log s; quota := quota s; auth := auth s |}.
Definition with_tariff (t : option Tariff) (s : AdminState) : AdminState := {|
  keys := keys s; desc := desc s; st_tariff := t; meter := meter s; log := log s; quota := quota s; auth := auth s |}.
Definition with_meter (m : T) (s : AdminState) : AdminState := {|
  keys := keys s; desc := desc s; st_tariff := st_tariff s; meter := m; log := log s; quota := quota s; auth := auth s |}.
Definition with_log (l : ReceiptLog) (s : AdminState) : AdminState := {|
  keys := keys s; desc := desc s; st_tariff := st_tariff s; meter := meter s; log := l; quota := quota s; auth := auth s |}.
Definition with_quota (q : QuotaPolicy) (s : AdminState) : AdminState := {|
  keys := keys s; desc := desc s; st_tariff := st_tariff s; meter := meter s; log := log s; quota := q; auth := auth s |}.

Definition build_descriptor (s : AdminState) : Descriptor := {|
  identity := public (current (keys s)); kind := ds_kind (desc s); visibility := ds_visibility (desc s);
  policy := policy_to_cbor (ds_policy (desc s)); tariff := st_tariff s |}.
Definition sign_descriptor (s : AdminState) : SignedDescriptor := Descriptor_sign (build_descriptor s) (current (keys s)).

(** ** What the handlers answer *)

Record TariffDto := { t_identity_hex : string; t_schedule : TariffScheduleDto; t_sig_hex : string }.
Definition tariff_to_dto (now : Z) (t : Tariff) : result AdminError TariffDto :=
  _ ← map_err (λ _, Internal "stored tariff no longer verifies") (Tariff_verify now t);
  s ← map_err (λ _, Internal "stored tariff schedule malformed") (TariffSchedule_from_tariff t);
  Ok {| t_identity_hex := hex_encode (tariff_identity t); t_schedule := schedule_to_dto s; t_sig_hex := hex_encode (tariff_sig t) |}.
Record SignedDescriptorDto := {
  sd_kind : string; sd_identity_hex : string; sd_visibility : VisibilityDto; sd_policy : OperatorPolicy;
  sd_tariff : option TariffDto; sd_sig_hex : string; sd_det_cbor_hex : string }.
Definition to_dto (now : Z) (sd : SignedDescriptor) : SignedDescriptorDto :=
  let d := descriptor sd in {|
  sd_kind := as_str (kind d); sd_identity_hex := hex_encode (identity d); sd_visibility := from_domain (visibility d);
  sd_policy := match policy_from_cbor (policy d) with Ok p => p | Err _ => OperatorPolicy_default end;
  sd_tariff := t ← tariff d; match tariff_to_dto now t with Ok t => Some t | Err _ => None end;
  sd_sig_hex := hex_encode (sd_sig sd); sd_det_cbor_hex := hex_encode (SignedDescriptor_det_cbor sd) |}.
Record ReceiptDto := {
  r_identity_hex : string; r_sig_hex : string; r_payer_hex : string; r_kind : string; r_metered_units : Z; r_billed_units : Z;
  r_amount : Z; r_currency : string; r_sequence : Z; r_verifies : bool }.
Definition receipt_dto (r : UsageReceipt) : ReceiptDto :=
  let op := match BilledOperation_from_receipt r with Ok o => Some o | Err _ => None end in {|
  r_identity_hex := hex_encode (receipt_identity r); r_sig_hex := hex_encode (receipt_sig r);
  r_payer_hex := default EmptyString ((λ o, hex_encode (op_payer o)) <$> op);
  r_kind := default EmptyString ((λ o, resource_kind_name (op_kind o)) <$> op);
  r_metered_units := default 0 (op_metered_units <$> op); r_billed_units := default 0 (op_billed_units <$> op);
  r_amount := default 0 (op_amount <$> op); r_currency := default EmptyString (op_currency <$> op);
  r_sequence := default 0 (op_sequence <$> op);
  r_verifies := match UsageReceipt_verify r with Ok _ => true | Err _ => false end |}.

(** [Posture]: what the control plane declares for its coordinator. *)
Record Posture := { p_descriptor : Descriptor; p_metered : bool }.
#[export] Instance Posture_Coordinator : Conformance.Coordinator Posture := {|
  Conformance.coord_kind p := kind (p_descriptor p);
  Conformance.coord_descriptor p := p_descriptor p;
  Conformance.lock_in _ := Conformance.LockIn_None;
  Conformance.self_host p :=
    if is_scarce_reachability (kind (p_descriptor p)) then Conformance.ScarceReachabilityException else Conformance.Backstop;
  Conformance.delivery_path_gate p :=
    match kind (p_descriptor p) with
    | Relay | MediaRelay => Conformance.NoDeliveryPath
    | Indexer | Labeler | Matcher => Conformance.DerivedViewOnly
    | _ => Conformance.Authorization
    end;
  Conformance.metering p := if p_metered p then Conformance.SignedReceiptsToPayer else Conformance.NotMetered;
  Conformance.settlement _ := Conformance.ExistingAssetsOnly |}.
Definition run_conformance (s : AdminState) : Conformance.Report :=
  Conformance.check {| p_descriptor := build_descriptor s; p_metered := bool_decide (is_Some (st_tariff s)) |}.

(** ** Handlers *)

Record DescriptorPutRequest := { b_kind : string; b_visibility : VisibilityDto; b_policy : OperatorPolicy; confirm_downgrade : bool }.
Definition put_descriptor (now : Z) (b : DescriptorPutRequest) (s : AdminState)
    : result AdminError (SignedDescriptorDto * Conformance.Report) * AdminState :=
  match (k ← ok_or (BadRequest "unknown coordinator kind") (from_wire_str (b_kind b)); v ← to_domain (b_visibility b); Ok (k, v)) with
  | Err e => (Err e, s)
  | Ok (k, v) =>
      if is_downgrade (ds_visibility (desc s)) v && negb (confirm_downgrade b) then (Err (Conflict "visibility downgrade"), s)
      else
        let s := with_desc {| ds_kind := k; ds_visibility := v; ds_policy := b_policy b |} s in
        (Ok (to_dto now (sign_descriptor s), run_conformance s), s)
  end.
Definition get_tariff (now : Z) (s : AdminState) : result AdminError (option TariffDto) := transpose (tariff_to_dto now <$> st_tariff s).
Definition put_tariff (now : Z) (d : TariffScheduleDto) (s : AdminState) : result AdminError TariffDto * AdminState :=
  match schedule_from_dto d with
  | Err e => (Err e, s)
  | Ok sch =>
      let t := TariffSchedule_sign sch (current (keys s)) in
      (tariff_to_dto now t, with_tariff (Some t) s)
  end.
Definition decode_payer (h : string) : result AdminError bytes := ok_or (BadRequest "bad payer hex") (hex_decode h).
Definition get_usage (h : string) (s : AdminState) : result AdminError (list (string * Z)) :=
  p ← decode_payer h; Ok (name_table (usage p (meter s))).
Definition get_receipts (s : AdminState) : list ReceiptDto := receipt_dto <$> receipts (log s).
Definition is_for (payer : bytes) (r : UsageReceipt) : bool :=
  match BilledOperation_from_receipt r with Ok o => bool_decide (op_payer o = payer) | Err _ => false end.
Definition get_receipts_for_payer (h : string) (s : AdminState) : result AdminError (list ReceiptDto) :=
  p ← decode_payer h; Ok (receipt_dto <$> List.filter (is_for p) (receipts (log s))).
(** The state at an error is the one the handler leaves: the meter is reset before the
    usage is evaluated. *)
Definition run_billing (now : Z) (h : string) (s : AdminState) : result AdminError (list ReceiptDto) * AdminState :=
  match (p ← decode_payer h;
         t ← ok_or (Conflict "no tariff configured") (st_tariff s);
         _ ← map_err (λ _, Internal "stored tariff no longer verifies") (Tariff_verify now t);
         sch ← map_err (λ _, Internal "stored tariff schedule malformed") (TariffSchedule_from_tariff t);
         Ok (p, sch)) with
  | Err e => (Err e, s)
  | Ok (p, sch) =>
      let '(u, m) := reset p (meter s) in
      let s := with_meter m s in
      match evaluate sch u with
      | Err _ => (Err (BadRequest "usage not priced"), s)
      | Ok bill =>
          let '(issued, l) := issue_for_bill p bill (current (keys s)) (log s) in
          (Ok (receipt_dto <$> issued), with_log l s)
      end
  end.
Definition rotate_keys (now : Z) (fresh : IdentityKey) (s : AdminState) : (string * string * SignedDescriptorDto) * AdminState :=
  let '((old, new_), k) := rotate fresh (keys s) in
  let s := with_keys k s in
  ((hex_encode old, hex_encode new_, to_dto now (sign_descriptor s)), s).

(** ** The router *)

Inductive Request :=
| GetDescriptor | PutDescriptor (b : DescriptorPutRequest) | GetTariff | PutTariff (d : TariffScheduleDto)
| GetUsage (h : string) | GetReceipts | GetReceiptsFor (h : string) | RunBilling (h : string)
| GetQuota | PutQuota (q : QuotaPolicy) | GetKeys | RotateKeys | GetConformance.
Inductive Reply :=
| RDescriptor (d : SignedDescriptorDto) | RPublished (d : SignedDescriptorDto) (r : Conformance.Report)
| RTariff (t : option TariffDto) | RUsage (u : list (string * Z)) | RReceipts (l : list ReceiptDto) | RQuota (q : QuotaPolicy)
| RKeys (pub : string) (hist : list string) | RRotated (old new_ : string) (d : SignedDescriptorDto) | RReport (r : Conformance.Report).
(** What the system provides to a request: the time, and the key [generate] would give. *)
Record Ambient := { now : Z; fresh_key : IdentityKey }.
Definition route (amb : Ambient) (r : Request) (s : AdminState) : result AdminError Reply * AdminState :=
  match r with
  | GetDescriptor => (Ok (RDescriptor (to_dto (now amb) (sign_descriptor s))), s)
  | PutDescriptor b => let '(r, s) := put_descriptor (now amb) b s in ('(d, rep) ← r; Ok (RPublished d rep), s)
  | GetTariff => (t ← get_tariff (now amb) s; Ok (RTariff t), s)
  | PutTariff d => let '(r, s) := put_tariff (now amb) d s in (t ← r; Ok (RTariff (Some t)), s)
  | GetUsage h => (u ← get_usage h s; Ok (RUsage u), s)
  | GetReceipts => (Ok (RReceipts (get_receipts s)), s)
  | GetReceiptsFor h => (l ← get_receipts_for_payer h s; Ok (RReceipts l), s)
  | RunBilling h => let '(r, s) := run_billing (now amb) h s in (l ← r; Ok (RReceipts l), s)
  | GetQuota => (Ok (RQuota (quota s)), s)
  | PutQuota q => (Ok (RQuota q), with_quota q s)
  | GetKeys => (Ok (RKeys (hex_encode (public (current (keys s)))) (hex_encode <$> history (keys s))), s)
  | RotateKeys => let '((o, n, d), s) := rotate_keys (now amb) (fresh_key amb) s in (Ok (RRotated o n d), s)
  | GetConformance => (Ok (RReport (run_conformance s)), s)
  end.
(** [require_auth] in front of every route. *)
Definition serve (amb : Ambient) (header : option string) (r : Request) (s : AdminState) : result AdminError Reply * AdminState :=
  if authorize (bearer_token header) (auth s) then route amb r s else (Err Unauthorized, s).

(** A history of requests. *)
Fixpoint serve_all (rs : list (Ambient * option string * Request)) (s : AdminState) : AdminState :=
  match rs with
  | [] => s
  | (amb, h, r) :: rs => serve_all rs (serve amb h r s).2
  end.
Lemma serve_all_ind (P : AdminState → Prop) (ok : Request → Prop) rs s :
  (∀ amb r s, ok r → P s → P (route amb r s).2) → Forall (λ x, ok x.2) rs → P s → P (serve_all rs s).
Proof using.
  intros Hstep HF. revert s. induction HF as [|[[amb h] r] rs Hr HF IH]; intros s Hs; [done|]. cbn [serve_all]. apply IH.
  unfold serve. destruct (authorize _ _); [by apply Hstep|done].
Qed.

(** Without the configured token nothing is answered and nothing changes; with no token
    configured, nobody is let in. *)
Theorem operator_token_required amb h r s :
  (authorize (bearer_token h) (auth s) = true ↔ ∃ t, Admin.token (auth s) = Some t ∧ bearer_token h = Some t) ∧
  (¬ (∃ t, Admin.token (auth s) = Some t ∧ bearer_token h = Some t) → serve amb h r s = (Err Unauthorized, s)) ∧
  auth (serve amb h r s).2 = auth s.
Proof using.
  assert (authorize (bearer_token h) (auth s) = true ↔ ∃ t, Admin.token (auth s) = Some t ∧ bearer_token h = Some t) as Ha by apply AdminProofs.authorize_spec.
  split; [done|]. unfold serve. split.
  - intros Hn. destruct (authorize _ _); [|done]. destruct Hn. by apply Ha.
  - destruct (authorize _ _); [|done]. destruct r; cbn [route]; try done.
    + unfold put_descriptor. repeat case_match; simplify_eq; done.
    + unfold put_tariff. repeat case_match; simplify_eq; done.
    + unfold run_billing. repeat case_match; simplify_eq; done.
Qed.

(** ** Visibility *)

Lemma is_downgrade_refl v : is_downgrade v v = false.
Proof using. destruct v as [[] []]; done. Qed.
Lemma is_downgrade_trans a b c : is_downgrade a b = false → is_downgrade b c = false → is_downgrade a c = false.
Proof using. destruct a as [[] []], b as [[] []], c as [[] []]; done. Qed.
Definition discloses (r : Request) : bool := match r with PutDescriptor b => confirm_downgrade b | _ => false end.
Lemma put_descriptor_visibility nw b s :
  confirm_downgrade b = false → is_downgrade (ds_visibility (desc s)) (ds_visibility (desc (put_descriptor nw b s).2)) = false.
Proof using.
  intros Hc. unfold put_descriptor. destruct (_ ≫= _) as [[k v]|]; [|apply is_downgrade_refl]. rewrite Hc. cbn [negb]. rewrite andb_true_r.
  destruct (is_downgrade (ds_visibility (desc s)) v) eqn:E; [apply is_downgrade_refl|exact E].
Qed.
(** Whatever the requests, as long as none discloses a downgrade, what the descriptor
    declares at the end is not weaker than what it declared at first: no class less
    blind, and not the same class on a weaker assurance. *)
Theorem no_silent_downgrade rs s :
  Forall (λ x, discloses x.2 = false) rs →
  is_downgrade (ds_visibility (desc s)) (ds_visibility (desc (serve_all rs s))) = false.
Proof using.
  intros HF. set (v0 := ds_visibility (desc s)).
  apply (serve_all_ind (λ s, is_downgrade v0 (ds_visibility (desc s)) = false) (λ r, discloses r = false)); [|done|apply is_downgrade_refl].
  clearbody v0. clear s HF. intros amb r s Hr Hs. destruct r; cbn [route]; try done.
  - cbn [discloses] in Hr. pose proof (put_descriptor_visibility (now amb) b s Hr) as Hp.
    destruct (put_descriptor (now amb) b s) as [x s']. cbn [snd] in *. by eapply is_downgrade_trans.
  - unfold put_tariff. by destruct (schedule_from_dto d).
  - unfold run_billing. repeat case_match; simplify_eq; done.
Qed.

(** ** Signatures and keys *)

Definition trail (s : AdminState) : list bytes := history (keys s) ++ [public (current (keys s))].
Record accountable (s : AdminState) : Prop := {
  ac_receipts : Forall (λ r, UsageReceipt_verify r = Ok tt ∧ receipt_identity r ∈ trail s) (receipts (log s));
  ac_tariff : match st_tariff s with
              | Some t => (∀ nw, Tariff_verify nw t = Ok tt) ∧ tariff_identity t ∈ trail s
              | None => True
              end;
}.
Context `{KIL : !KotvaIdentityLaws}.
Lemma sign_descriptor_verifies s : SignedDescriptor_verify (sign_descriptor s) = Ok tt.
Proof using KIL. unfold SignedDescriptor_verify, sign_descriptor, Descriptor_sign. cbn. by rewrite sign_verify. Qed.
Lemma receipt_verifies op ik : UsageReceipt_verify (BilledOperation_sign op ik) = Ok tt.
Proof using KIL. unfold UsageReceipt_verify, BilledOperation_sign, UsageReceipt_sign. cbn. by rewrite sign_verify. Qed.
Lemma tariff_verifies nw sch ik : Tariff_verify nw (TariffSchedule_sign sch ik) = Ok tt.
Proof using KIL. unfold Tariff_verify, TariffSchedule_sign, Tariff_sign, Tariff_sign_with_validity. cbn. by rewrite sign_verify. Qed.
Lemma issued_receipts payer b ik items l :
  let '(rs, l') := issue_items payer b ik items l in
  receipts l' = receipts l ++ rs ∧ Forall (λ r, UsageReceipt_verify r = Ok tt ∧ receipt_identity r = public ik) rs.
Proof using KIL.
  revert l. induction items as [|it items IH]; intros l; cbn [issue_items]; [by rewrite app_nil_r|].
  specialize (IH {| receipts := receipts l ++ [BilledOperation_sign (line_operation payer b it (next_sequence l)) ik];
                    next_sequence := U64.wrap (next_sequence l + 1) |}).
  destruct (issue_items payer b ik items _) as [rs l']. destruct IH as [-> HF]. cbn [receipts]. split.
  - by rewrite <- app_assoc.
  - constructor; [|done]. split; [apply receipt_verifies|done].
Qed.
Lemma route_accountable amb r s : accountable s → accountable (route amb r s).2.
Proof using KIL.
  intros [Hr Ht]. destruct r as [|b| |d|h| |h|h| |q| | |]; cbn [route]; try (by split).
  - unfold put_descriptor. destruct (_ ≫= _) as [[k v]|]; [|by split]. destruct (_ && _); (split; [exact Hr|exact Ht]).
  - unfold put_tariff. destruct (schedule_from_dto d) as [sch|]; [|by split]. split; [done|]. cbn. split; [intros; apply tariff_verifies|].
    apply elem_of_app. right. by apply list_elem_of_singleton.
  - unfold run_billing. destruct (_ ≫= _) as [[p sch]|]; [|by split]. destruct (reset p (meter s)) as [u m].
    destruct (evaluate sch u) as [bill|]; [|by split].
    pose proof (issued_receipts p bill (current (keys s)) (line_items bill) (log s)) as Hi. unfold issue_for_bill. cbn [keys with_meter log].
    destruct (issue_items p bill _ (line_items bill) (log s)) as [rs l']. destruct Hi as [Hl HF]. split; [|done]. cbn. rewrite Hl.
    apply Forall_app. split; [done|]. eapply Forall_impl; [exact HF|]. intros x [? ->]. split; [done|].
    apply elem_of_app. right. by apply list_elem_of_singleton.
  - cbn. unfold trail in *. split; cbn.
    + eapply Forall_impl; [exact Hr|]. intros x [? Hx]. split; [done|]. unfold trail. cbn. by apply elem_of_app; left.
    + destruct (st_tariff s) as [t|]; [|done]. destruct Ht as [? Hx]. split; [done|]. unfold trail. cbn. by apply elem_of_app; left.
Qed.
(** Through any requests, key rotations among them: the descriptor that is served
    verifies under the identity it names; every receipt ever issued and the tariff on
    offer verify, and were signed by the current key or one that is kept in the list of
    prior keys. *)
Theorem identity_trail_kept rs kind v k m a :
  let s := serve_all rs (AdminState_new kind v k m a) in
  SignedDescriptor_verify (sign_descriptor s) = Ok tt ∧ accountable s ∧ trail (AdminState_new kind v k m a) `prefix_of` trail s.
Proof using KIL.
  cbn zeta. split; [apply sign_descriptor_verifies|]. split.
  - apply (serve_all_ind accountable (λ _, True)); [intros; by apply route_accountable|by apply Forall_true|]. by split; [constructor|].
  - set (t0 := trail _).
    apply (serve_all_ind (λ s, t0 `prefix_of` trail s) (λ _, True)); [|by apply Forall_true|done]. clearbody t0.
    intros amb r s _ Hp. destruct r; cbn [route]; try done.
    + unfold put_descriptor. repeat case_match; simplify_eq; done.
    + unfold put_tariff. repeat case_match; simplify_eq; done.
    + unfold run_billing. repeat case_match; simplify_eq; done.
    + etransitivity; [exact Hp|]. unfold trail. cbn. by eexists.
Qed.

(** The descriptor is put together under one lock and signed under another.  A rotation
    in between gives a descriptor that names the old key and carries a signature of the
    new one, and it does not verify. *)
Theorem rotation_between_breaks_descriptor `{KU : !KotvaUnforgeable} fresh s :
  public fresh ≠ public (current (keys s)) →
  let s' := with_keys (rotate fresh (keys s)).2 s in
  ∃ e, SignedDescriptor_verify (Descriptor_sign (build_descriptor s) (current (keys s'))) = Err e.
Proof using.
  intros Hne s'. unfold SignedDescriptor_verify, Descriptor_sign. cbn.
  destruct (verify_domain _ _ _ _) as [[]|e] eqn:E; [|by eexists]. apply verify_binding in E as [E _]. congruence.
Qed.

(** ** Conformance *)

(** The self-check never reports a violation, whatever the operator declares: a relay
    that is redeclared as terminating, its strongest claim given up, passes COORD-4 like
    one that is blind by construction. *)
Theorem self_check_always_conformant s :
  Conformance.is_conformant (run_conformance s) = true ∧
  (class (ds_visibility (desc s)) = Terminating →
     ∀ f, f ∈ Conformance.findings (run_conformance s) → Conformance.finding_id f = "COORD-4"%string → Conformance.outcome f = Conformance.Pass).
Proof using.
  split.
  - unfold run_conformance. apply Conformance.posture_check. split; cbn; try done.
    + destruct (is_scarce_reachability _) eqn:E; [by right|by left].
    + intros why. by destruct (ds_kind (desc s)).
    + intros why. by case_bool_decide.
  - intros Hc f Hf Hid. unfold run_conformance, Conformance.check in Hf. cbn in Hf. unfold Conformance.coord4, must_not_present_as_verified in Hf.
    rewrite Hc in Hf. cbn in Hf. repeat (apply elem_of_cons in Hf as [->|Hf]; [by cbn in *|]). by apply elem_of_nil in Hf.
Qed.
End state.

(** ** Billing *)

Section billing.
Context `{KC : KotvaCbor} `{KA : !KotvaCborArray} `{KI : KotvaIdentity} `{HX : HexCodec}.
(** C39: Closing a period for a payer: if every kind of usage is priced, the payer gets a
    receipt for each, the log grows by them and the meter starts over, for that payer
    only.  If a kind is not priced the request is refused with 400, and the usage is
    gone all the same: the meter has been reset, and there is no receipt. *)
Theorem failed_billing_loses_usage nw h p t sch (s : AdminState (T := InMemoryMeter)) :
  hex_decode h = Some p → st_tariff s = Some t → Tariff_verify nw t = Ok tt → TariffSchedule_from_tariff t = Ok sch → schedule_wf sch →
  let u := usage p (meter s) in
  let s' := (run_billing nw h s).2 in
  usage p (meter s') = ∅ ∧ (∀ q, q ≠ p → usage q (meter s') = usage q (meter s)) ∧
  if bool_decide (Forall (λ kv, is_Some (prices sch !! kv.1)) (btree_iter u)) then
    ∃ bill, evaluate sch u = Ok bill ∧
      (run_billing nw h s).1 = Ok (receipt_dto <$> (issue_for_bill p bill (current (keys s)) (log s)).1) ∧
      log s' = (issue_for_bill p bill (current (keys s)) (log s)).2
  else (run_billing nw h s).1 = Err (BadRequest "usage not priced") ∧ log s' = log s.
Proof.
  intros Hh Ht Hv Hs Hwf u s'. subst s'. unfold run_billing, decode_payer. rewrite Hh, Ht. simpl_res. rewrite Hv. simpl_res. rewrite Hs. simpl_res.
  cbn [reset InMemoryMeter_Meter]. change (default ∅ (table (meter s) !! p)) with u.
  assert (is_ok (evaluate sch u) = true ↔ Forall (λ kv, is_Some (prices sch !! kv.1)) (btree_iter u)) as Hiff.
  { unfold evaluate. destruct (priced_or_first_unpriced sch (btree_iter u)) as [Hall|(l1 & k & n & l2 & Hu & Hl1 & Hk)].
    - change 0 with (Z.min 0 U64.MAX). by rewrite evaluate_loop_Ok.
    - rewrite Hu, (evaluate_loop_Err sch l1 k n l2) by done. split; [done|]. intros [_ [[x Hx] _]%Forall_cons]%Forall_app. cbn in Hx. congruence. }
  destruct (evaluate sch u) as [bill|e] eqn:E.
  - rewrite bool_decide_true by (by apply Hiff). cbn [keys with_meter log]. destruct (issue_for_bill p bill (current (keys s)) (log s)) as [iss l] eqn:Ei. cbn. rewrite lookup_delete_eq. split; [done|].
    split; [intros q Hq; by rewrite lookup_delete_ne by done|]. exists bill. by rewrite Ei.
  - rewrite bool_decide_false by (by intros H%Hiff). cbn. rewrite lookup_delete_eq. split; [done|].
    split; [intros q Hq; by rewrite lookup_delete_ne by done|done].
Qed.
End billing.

(** ** The binary *)

Section binary.
Context `{KC : KotvaCbor} `{KA : !KotvaCborArray} `{KI : KotvaIdentity} `{HX : HexCodec}.
(** [127.0.0.1:8090]. *)
Definition DEFAULT_BIND : Personal.SocketAddr := {| Personal.sa_ip := V4 2130706433; Personal.sa_scope := 0; Personal.sa_port := 8090 |}.
Record AdminBinConfig := {
  bind_addr : Personal.SocketAddr;
  admin_token : option string;
  bin_kind : CoordinatorKind;
  bin_visibility : ContentVisibility;
  key_seed : option bytes;
}.
Definition parse_visibility (c l : string) : result string ContentVisibility :=
  c ← ok_or "unknown visibility class"%string (class_of c); l ← ok_or "unknown assurance level"%string (level_of l); Ok (new c l).
Definition parse_seed_hex (s : string) : result string bytes :=
  b ← ok_or "key seed is not valid hex"%string (hex_decode s);
  if bool_decide (length b = 32%nat) then Ok b else Err "key seed must be 32 bytes"%string.
Definition bin_from_env (env : gmap string string) (read_file : string → option string) : result string AdminBinConfig :=
  bind_addr ← match env !! "EPHOR_ADMIN_BIND" with
              | Some v => ok_or "EPHOR_ADMIN_BIND is not a socket address" (Personal.parse_socket_addr v)
              | None => Ok DEFAULT_BIND
              end;
  kind ← match env !! "EPHOR_ADMIN_KIND" with
         | Some v => ok_or "EPHOR_ADMIN_KIND is not a known coordinator kind" (from_wire_str v)
         | None => Ok Relay
         end;
  visibility ← match env !! "EPHOR_ADMIN_VISIBILITY_CLASS", env !! "EPHOR_ADMIN_VISIBILITY_LEVEL" with
               | Some c, Some l => parse_visibility c l
               | None, None => Ok (default (new Terminating Declared) (typical_visibility kind))
               | _, _ => Err "EPHOR_ADMIN_VISIBILITY_CLASS and EPHOR_ADMIN_VISIBILITY_LEVEL must both be set together, or both omitted"
               end;
  key_seed ← match env !! "EPHOR_ADMIN_KEY_SEED_HEX" with
             | Some v => s ← parse_seed_hex v; Ok (Some s)
             | None =>
                 match env !! "EPHOR_ADMIN_KEY_FILE" with
                 | Some path => t ← ok_or "reading EPHOR_ADMIN_KEY_FILE" (read_file path); s ← parse_seed_hex (trim t); Ok (Some s)
                 | None => Ok None
                 end
             end;
  Ok {| bind_addr := bind_addr; admin_token := env !! "EPHOR_ADMIN_TOKEN"; bin_kind := kind; bin_visibility := visibility; key_seed := key_seed |}%string.
(** [main] up to the listener: [from_seed] and [generated] are the library's keys. *)
Definition bin_state (from_seed : bytes → IdentityKey) (generated : IdentityKey) (cfg : AdminBinConfig) : AdminState (T := InMemoryMeter) :=
  AdminState_new (bin_kind cfg) (bin_visibility cfg)
    (KeyState_new (match key_seed cfg with Some seed => from_seed seed | None => generated end)) InMemoryMeter_new
    (match admin_token cfg with Some t => with_token t | None => disabled end).
(** Without a token in the environment, or with a blank one, the control plane comes up
    closed: through any number of requests, with any header, every answer is 401 and
    nothing changes.  Without an address it listens on the loopback interface. *)
Theorem unconfigured_operator_is_inert env read_file cfg from_seed generated rs amb h r :
  bin_from_env env read_file = Ok cfg →
  (env !! "EPHOR_ADMIN_BIND" = None → bind_addr cfg = DEFAULT_BIND)%string ∧
  ((∀ t, env !! "EPHOR_ADMIN_TOKEN" = Some t → trim t = EmptyString)%string →
   let s := serve_all rs (bin_state from_seed generated cfg) in
   s = bin_state from_seed generated cfg ∧ serve amb h r s = (Err Unauthorized, s)).
Proof.
  intros H. assert (admin_token cfg = env !! "EPHOR_ADMIN_TOKEN"%string ∧ ((env !! "EPHOR_ADMIN_BIND")%string = None → bind_addr cfg = DEFAULT_BIND)) as [Ht Hb].
  { unfold bin_from_env in H. inv_ok. cbn. split; [done|]. intros E. rewrite E in *. congruence. }
  split; [done|]. intros Hblank. set (s0 := bin_state from_seed generated cfg).
  assert (∀ x, authorize x (auth s0) = false) as Hoff.
  { intros x. unfold s0, bin_state. cbn [auth AdminState_new]. rewrite Ht. destruct (env !! _) as [t|]; [|done].
    unfold with_token, Admin.with_token. rewrite bool_decide_true by (by apply Hblank). done. }
  assert (serve_all rs s0 = s0) as Hs.
  { induction rs as [|[[a hd] q] rs IH]; [done|]. cbn [serve_all]. unfold serve at 1. by rewrite Hoff. }
  cbn zeta. rewrite Hs. split; [done|]. unfold serve. by rewrite Hoff.
Qed.
End binary.

(** ** What is read back *)

Lemma resource_kind_names k : resource_kind_from_name (resource_kind_name k) = Ok k.
Proof. by destruct k. Qed.
Lemma kind_table_names (l : list (ResourceKind * Z)) m :
  kind_table ((λ kv, (resource_kind_name kv.1, kv.2)) <$> l) m = Ok (foldl (λ m kv, <[kv.1 := kv.2]> m) m l).
Proof. revert m. induction l as [|[k n] l IH]; intros m; [done|]. cbn [fmap list_fmap kind_table foldl]. rewrite resource_kind_names. simpl_res. apply IH. Qed.
(** Reading a table does not depend on the order of its lines. *)
Lemma insert_all_lookup (l : list (ResourceKind * Z)) (m : gmap ResourceKind Z) k :
  NoDup l.*1 → foldl (λ m kv, <[kv.1 := kv.2]> m) m l !! k =
    match find_first (λ kv : ResourceKind * Z, bool_decide (kv.1 = k)) l with Some kv => Some kv.2 | None => m !! k end.
Proof.
  revert m. induction l as [|[k' n] l IH]; intros m Hnd; [done|]. rewrite fmap_cons in Hnd. apply NoDup_cons in Hnd as [Hk Hnd]. cbn [foldl find_first fst snd].
  rewrite IH by done. case_bool_decide as E.
  - subst k'. destruct (find_first _ l) as [[k2 n2]|] eqn:Ef; [|by rewrite lookup_insert_eq].
    apply find_first_Some in Ef as [Hin Hb]. apply bool_decide_eq_true in Hb. cbn in Hb. subst k2. destruct Hk. apply list_elem_of_fmap. by exists (k, n2).
  - destruct (find_first _ l); [done|]. by rewrite lookup_insert_ne.
Qed.
Lemma btree_keys_nodup (m : gmap ResourceKind Z) : NoDup (btree_iter m).*1.
Proof.
  unfold btree_iter, all_kinds. cbn [omap list_omap].
  destruct (m !! BytesForwarded), (m !! Connections), (m !! Messages), (m !! ComputeSeconds); cbn;
    repeat (constructor; [intros H; repeat (apply elem_of_cons in H as [H|H]; [done|]); by apply elem_of_nil in H|]); constructor.
Qed.
Lemma nodup_key (l : list (ResourceKind * Z)) k n n' : NoDup l.*1 → (k, n) ∈ l → (k, n') ∈ l → n' = n.
Proof.
  intros Hnd H1 H2. apply list_elem_of_lookup_1 in H1 as [i Hi], H2 as [j Hj].
  assert (i = j) as <-; [|congruence]. eapply (NoDup_lookup l.*1 i j k); [done|by rewrite list_lookup_fmap, Hi|by rewrite list_lookup_fmap, Hj].
Qed.
Lemma table_perm (l l' : list (ResourceKind * Z)) (m : gmap ResourceKind Z) :
  NoDup l.*1 → l' ≡ₚ l → foldl (λ m kv, <[kv.1 := kv.2]> m) m l' = foldl (λ m kv, <[kv.1 := kv.2]> m) m l.
Proof.
  intros Hnd Hp. assert (NoDup l'.*1) as Hnd' by (by rewrite Hp). apply map_eq. intros k. rewrite !insert_all_lookup by done.
  destruct (find_first _ l') as [[k1 n1]|] eqn:E1.
  - apply find_first_Some in E1 as [H1 Hb1]. apply bool_decide_eq_true in Hb1. cbn in Hb1. subst k1. rewrite Hp in H1.
    destruct (find_first_is_Some (λ kv : ResourceKind * Z, bool_decide (kv.1 = k)) l (k, n1) H1) as [[k2 n2] E2]; [by apply bool_decide_eq_true|].
    rewrite E2. apply find_first_Some in E2 as [H2 Hb2]. apply bool_decide_eq_true in Hb2. cbn in Hb2. subst k2. cbn. f_equal.
    by apply (nodup_key l k).
  - destruct (find_first _ l) as [[k2 n2]|] eqn:E2; [|done]. apply find_first_Some in E2 as [H2 Hb2]. rewrite <- Hp in H2.
    apply (find_first_None _ _ _ E1) in H2. congruence.
Qed.
(** Sorting the named lines by name permutes the kinds. *)
Lemma name_table_read m : kind_table (name_table m) ∅ = Ok m.
Proof.
  unfold name_table. set (f := λ kv : ResourceKind * Z, (resource_kind_name kv.1, kv.2)).
  pose proof (merge_sort_Permutation by_name (f <$> btree_iter m)) as Hp. apply Permutation_map_inv in Hp as (l & Hl & Hp).
  change (map f l) with (f <$> l) in Hl. rewrite Hl. unfold f. rewrite kind_table_names. f_equal.
  rewrite (table_perm (btree_iter m) l ∅ (btree_keys_nodup m)) by done. apply btree_iter_insert_all.
Qed.
(** A schedule that is shown is read back as it was: what [GET] returns can be [PUT]. *)
Theorem schedule_dto_roundtrip s : schedule_from_dto (schedule_to_dto s) = Ok s.
Proof. unfold schedule_from_dto, schedule_to_dto. cbn [td_token td_prices td_free_allowance]. rewrite !name_table_read. simpl_res. by destruct s. Qed.

(** No encoding is empty (RFC 8949: every item has an initial byte). *)
Class KotvaCborNonEmpty `{KotvaCbor} := { cbor_encode_nonempty cv : cbor_encode cv ≠ [] }.
Section policy.
Context `{KC : KotvaCbor} `{KCL : !KotvaCborLaws} `{KA : !KotvaCborArray} `{KAL : !KotvaCborArrayLaws} `{KN : !KotvaCborNonEmpty}.
Lemma texts_text l : texts (cv_text <$> l) = Ok l.
Proof using KCL. induction l as [|s l IH]; [done|]. cbn [fmap list_fmap texts]. rewrite as_text_text. simpl_res. by rewrite IH. Qed.
(** The operator's policy survives the descriptor's payload, with every field absent or
    present. *)
Theorem operator_policy_roundtrip p : policy_from_cbor (policy_to_cbor p) = Ok p.
Proof using KCL KAL KN.
  unfold policy_from_cbor, policy_to_cbor, Cbor_from_cv, Cbor_decode. rewrite bool_decide_false by apply cbor_encode_nonempty.
  set (arr := cv_array (cv_text <$> capabilities p)).
  assert (cv_ok arr) as Harr by (apply cv_ok_array, Forall_fmap, Forall_true; intros; apply cv_ok_text).
  assert (as_array arr = Ok (cv_text <$> capabilities p)) as Has by apply as_array_array.
  assert (policy_pairs p = text_pair 1 (region p) ++ (if bool_decide (capabilities p = []) then [] else [(2, arr)]) ++ text_pair 3 (contact p) ++ text_pair 4 (notes p)) as Hpp by done.
  clearbody arr. unfold policy_to_cv. rewrite Hpp. clear Hpp.
  destruct p as [re ca co no]. cbn [region capabilities contact notes] in *. case_bool_decide as Hc.
  - subst ca. destruct re, co, no; cbn [text_pair app];
      (rewrite cbor_decode_encode by (apply cv_ok_map; [solve_ascending|solve_cv_ok])); simpl_res; unfold policy_from_cv;
      repeat first [fields_step|rewrite as_text_text; simpl_res]; done.
  - destruct re, co, no; cbn [text_pair app];
      (rewrite cbor_decode_encode by (apply cv_ok_map; [solve_ascending|solve_cv_ok])); simpl_res; unfold policy_from_cv;
      repeat first [fields_step|rewrite as_text_text; simpl_res|rewrite Has; simpl_res; rewrite texts_text; simpl_res]; done.
Qed.
End policy.
End Operator.

Module OperatorWitness.
Import Operator Reference.
#[local] Existing Instance ProvenanceWitness.arrays.
#[local] Existing Instance ProvenanceWitness.arrays_laws.
#[local] Instance nonempty : KotvaCborNonEmpty.
Proof. split. intros cv. cbn. generalize (encode (to_tree cv)). intros p. by destruct p. Qed.
#[local] Instance hex : HexCodec := {| hex_encode := String.string_of_list_byte; hex_decode s := Some (as_bytes s) |}.

Definition key : IdentityKey := [Byte.x11].
Definition key2 : IdentityKey := [Byte.x12].
Definition from_seed (seed : bytes) : IdentityKey := seed.
Definition s0 : AdminState :=
  AdminState_new Relay (new Blind Structural) (KeyState_new key) InMemoryMeter_new (with_token "secret").
Definition amb : Ambient := {| now := 0; fresh_key := key2 |}.
Definition by_operator (r : Request) : Ambient * option string * Request := (amb, Some "Bearer secret"%string, r).
Definition weaker (confirm : bool) : Request := PutDescriptor
  {| b_kind := "relay"; b_visibility := {| d_class := "terminating"; d_level := "declared" |}; b_policy := OperatorPolicy_default; confirm_downgrade := confirm |}.
Definition prices0 : TariffScheduleDto :=
  {| td_currency := "USD"; td_prices := [("messages", 5)]; td_free_allowance := []; td_period_seconds := None; td_token := false |}%string.

Lemma unconfigured_operator_is_inert_witness :
  ∃ cfg, bin_from_env ∅ (λ _, None) = Ok cfg ∧ bind_addr cfg = DEFAULT_BIND ∧
    serve amb (Some "Bearer secret"%string) RotateKeys (bin_state from_seed key cfg) = (Err Unauthorized, bin_state from_seed key cfg).
Proof.
  assert (∃ cfg, bin_from_env ∅ (λ _, None) = Ok cfg) as [cfg E] by (vm_compute; eexists; reflexivity).
  destruct (unconfigured_operator_is_inert ∅ (λ _, None) cfg from_seed key [] amb (Some "Bearer secret"%string) RotateKeys E) as [H1 H2].
  exists cfg. split; [exact E|]. split; [apply H1; reflexivity|]. apply H2. intros t Ht. discriminate Ht.
Defined.
Lemma no_silent_downgrade_witness :
  is_downgrade (new Blind Structural) (ds_visibility (desc (serve_all [by_operator (weaker false); by_operator RotateKeys] s0))) = false ∧
  is_downgrade (new Blind Structural) (ds_visibility (desc (serve_all [by_operator (weaker true)] s0))) = true.
Proof.
  split; [|vm_compute; reflexivity].
  apply (no_silent_downgrade [by_operator (weaker false); by_operator RotateKeys] s0). repeat constructor.
Defined.
Lemma identity_trail_kept_witness :
  let s := serve_all [by_operator (PutTariff prices0); by_operator RotateKeys] s0 in
  SignedDescriptor_verify (sign_descriptor s) = Ok tt ∧ trail s = [key; key2].
Proof.
  destruct (identity_trail_kept [by_operator (PutTariff prices0); by_operator RotateKeys] Relay (new Blind Structural) (KeyState_new key) InMemoryMeter_new (with_token "secret")) as (H & _ & _).
  split; [exact H|vm_compute; reflexivity].
Defined.
Lemma rotation_between_breaks_descriptor_witness :
  ∃ e, SignedDescriptor_verify (Descriptor_sign (build_descriptor s0) key2) = Err e.
Proof. apply (rotation_between_breaks_descriptor key2 s0). discriminate. Defined.
Lemma operator_policy_roundtrip_witness :
  policy_from_cbor (policy_to_cbor {| region := Some "eu-west"; capabilities := ["relay"; "media-relay"]; contact := None; notes := Some "x" |})%string =
  Ok {| region := Some "eu-west"; capabilities := ["relay"; "media-relay"]; contact := None; notes := Some "x" |}%string.
Proof. apply operator_policy_roundtrip. Defined.
(** Forwarded bytes are metered, but only messages are priced. *)
Definition sch : TariffSchedule := {| currency := "USD"; prices := {[Messages := 5]}; free_allowance := ∅; period_seconds := None |}.
Definition s1 : AdminState :=
  with_meter (record [Byte.x01] BytesForwarded 700 InMemoryMeter_new) (serve_all [by_operator (PutTariff prices0)] s0).
Definition h : string := String.string_of_list_byte [Byte.x01].
Lemma sch_wf : schedule_wf sch.
Proof. split; [apply (bool_decide_unpack _); vm_compute; exact I..|exact I]. Qed.
Lemma failed_billing_loses_usage_witness :
  usage [Byte.x01] (meter s1) = {[BytesForwarded := 700]} ∧ usage [Byte.x01] (meter (run_billing 0 h s1).2) = ∅ ∧ log (run_billing 0 h s1).2 = log s1.
Proof.
  split; [vm_compute; reflexivity|].
  destruct (failed_billing_loses_usage 0 h [Byte.x01] (TariffSchedule_sign sch key) sch s1) as (H1 & _ & H2).
  - vm_compute. reflexivity.
  - vm_compute. reflexivity.
  - apply tariff_verifies.
  - apply signed_schedule_read, sch_wf.
  - apply sch_wf.
  - split; [exact H1|]. apply H2.
Defined.
End OperatorWitness.
