(* ===== verification/Media.v ===== *)
(** * The media relay's SFU control ([crates/media-relay])

    [sfu.rs] (the [MediaSfu] interface), [mock.rs] (Module MockSfu) and [external.rs]
    (Module ExternalSfu: the sidecar configurations and the adapter that spawns the
    sidecar's binary).  The operating system is explicit: a table of the processes
    spawned so far with their command lines, which end when they like; whether
    [spawn] finds the binary is its answer of the moment.  A history is a list of the
    adapter's calls and of what the system does between them. *)

From Stdlib Require Import ZArith Lia Ascii String.
From stdpp Require Import base decidable option gmap sets list strings.
From S2P Require Import Prelude RustStr RustText MtaSts.
Local Open Scope Z_scope.

(** ** [sfu.rs] *)

Record SessionConfig := { session_id : string; max_tracks : Z; max_bitrate_kbps : Z }.
Definition SessionConfig_new (id : string) (tracks kbps : Z) : SessionConfig :=
  {| session_id := id; max_tracks := tracks; max_bitrate_kbps := kbps |}.
Record SfuHandle := { handle_id : string }.
Inductive SfuStatus := Running (endpoint : string) | Stopped | Unavailable (reason : string).
Inductive SfuError := SfuUnavailable (reason : string) | AlreadyRunning (id : string) | NotFound (id : string).
Definition SfuError_display (e : SfuError) : string :=
  match e with
  | SfuUnavailable reason => "SFU unavailable: " +:+ reason
  | AlreadyRunning id => "session '" +:+ id +:+ "' is already running"
  | NotFound id => "no session '" +:+ id +:+ "' on this adapter"
  end.

(** The trait; [W] is what the adapter's calls can change: itself and its world. *)
Class MediaSfu (W : Type) := {
  sfu_start : SessionConfig → W → result SfuError SfuHandle * W;
  sfu_stop : SfuHandle → W → result SfuError unit * W;
  sfu_status : SfuHandle → W → SfuStatus;
}.

(** A caller's call and its answer. *)
Inductive Call := CallStart (cfg : SessionConfig) | CallStop (h : SfuHandle) | CallStatus (h : SfuHandle).
Inductive Answer := Started (r : result SfuError SfuHandle) | Ended (r : result SfuError unit) | Is (s : SfuStatus).
Definition answer `{MediaSfu W} (c : Call) (w : W) : Answer * W :=
  match c with
  | CallStart cfg => let '(r, w) := sfu_start cfg w in (Started r, w)
  | CallStop h => let '(r, w) := sfu_stop h w in (Ended r, w)
  | CallStatus h => (Is (sfu_status h w), w)
  end.
Fixpoint answers `{MediaSfu W} (cs : list Call) (w : W) : list Answer :=
  match cs with [] => [] | c :: cs => let '(a, w) := answer c w in a :: answers cs w end.

(** What the interface's documentation promises, over the set of running sessions. *)
Module SessionSet.
Definition endpoint_of (scheme id : string) : string := scheme +:+ "://" +:+ id.
#[export] Instance SessionSet_MediaSfu (scheme : string) : MediaSfu (gset string) := {|
  sfu_start cfg S :=
    if decide (session_id cfg ∈ S) then (Err (AlreadyRunning (session_id cfg)), S)
    else (Ok {| handle_id := session_id cfg |}, {[session_id cfg]} ∪ S);
  sfu_stop h S := if decide (handle_id h ∈ S) then (Ok tt, S ∖ {[handle_id h]}) else (Err (NotFound (handle_id h)), S);
  sfu_status h S := if decide (handle_id h ∈ S) then Running (endpoint_of scheme (handle_id h)) else Stopped;
|}.
End SessionSet.

(** ** [mock.rs] *)
Module MockSfu.
Inductive State := SRunning | SStopped.
#[export] Instance State_eq_dec : EqDecision State.
Proof. solve_decision. Defined.
Record MockSfu := { mock_sessions : gmap string State }.
Definition MockSfu_new : MockSfu := {| mock_sessions := ∅ |}.

Definition mock_start (config : SessionConfig) (m : MockSfu) : result SfuError SfuHandle * MockSfu :=
  if bool_decide (mock_sessions m !! session_id config = Some SRunning)
  then (Err (AlreadyRunning (session_id config)), m)
  else (Ok {| handle_id := session_id config |},
        {| mock_sessions := <[session_id config := SRunning]> (mock_sessions m) |}).
Definition mock_stop (h : SfuHandle) (m : MockSfu) : result SfuError unit * MockSfu :=
  match mock_sessions m !! handle_id h with
  | Some SRunning => (Ok tt, {| mock_sessions := <[handle_id h := SStopped]> (mock_sessions m) |})
  | Some SStopped | None => (Err (NotFound (handle_id h)), m)
  end.
Definition mock_status (h : SfuHandle) (m : MockSfu) : SfuStatus :=
  match mock_sessions m !! handle_id h with
  | Some SRunning => Running ("mock://" +:+ handle_id h)
  | Some SStopped | None => Stopped
  end.
#[export] Instance MockSfu_MediaSfu : MediaSfu MockSfu :=
  {| sfu_start := mock_start; sfu_stop := mock_stop; sfu_status := mock_status |}.

Definition related (m : MockSfu) (S : gset string) : Prop := ∀ id, id ∈ S ↔ mock_sessions m !! id = Some SRunning.
Lemma answer_related c m S : related m S →
  let spec := @answer _ (SessionSet.SessionSet_MediaSfu "mock") c S in
  (answer c m).1 = spec.1 ∧ related (answer c m).2 spec.2.
Proof.
  intros R. destruct c as [[id t k]|[id]|[id]]; cbn; unfold mock_start, mock_stop, mock_status; cbn.
  - pose proof (R id) as Rid. case_bool_decide; case_decide; cbn; try tauto.
    + split; [done|]. intros i. cbn. destruct (decide (i = id)) as [->|]; [rewrite lookup_insert_eq|rewrite lookup_insert_ne by done; specialize (R i)]; set_solver.
  - pose proof (R id) as Rid. case_decide; destruct (mock_sessions m !! id) as [[]|] eqn:E; cbn; try (exfalso; naive_solver); try done.
    split; [done|]. intros i. cbn. destruct (decide (i = id)) as [->|]; [rewrite lookup_insert_eq|rewrite lookup_insert_ne by done; specialize (R i)]; set_solver.
  - pose proof (R id) as Rid. case_decide; destruct (mock_sessions m !! id) as [[]|] eqn:E; cbn; try (exfalso; naive_solver); done.
Qed.

(** The mock answers every sequence of calls as the set of running sessions does. *)
Theorem mock_refines_sessions cs :
  answers cs MockSfu_new = @answers _ (SessionSet.SessionSet_MediaSfu "mock") cs ∅.
Proof.
  assert (∀ m S, related m S → answers cs m = @answers _ (SessionSet.SessionSet_MediaSfu "mock") cs S) as H.
  { induction cs as [|c cs IH]; intros m S R; [done|]. destruct (answer_related c m S R) as [Ha Hr].
    cbn [answers]. destruct (answer c m) as [a m'], (@answer _ (SessionSet.SessionSet_MediaSfu "mock") c S) as [a' S']. cbn in Ha, Hr. subst a'. f_equal. by apply IH. }
  apply H. intros id. cbn. set_solver.
Qed.
End MockSfu.

(** ** [external.rs] *)
Module ExternalSfu.
Inductive ExternalSfuKind := Coturn | LiveKit.
Definition kind_label (k : ExternalSfuKind) : string :=
  match k with Coturn => "coturn" | LiveKit => "livekit-server" end.

(** *** The configurations handed to an operator *)
Definition DENIED_PEER_IP_RANGES : list string := [
  "0.0.0.0-0.255.255.255"; "10.0.0.0-10.255.255.255"; "100.64.0.0-100.127.255.255"; "127.0.0.0-127.255.255.255";
  "169.254.0.0-169.254.255.255"; "172.16.0.0-172.31.255.255"; "192.0.0.0-192.0.0.255"; "192.0.2.0-192.0.2.255";
  "192.88.99.0-192.88.99.255"; "192.168.0.0-192.168.255.255"; "198.18.0.0-198.19.255.255";
  "198.51.100.0-198.51.100.255"; "203.0.113.0-203.0.113.255"; "240.0.0.0-255.255.255.255"; "::1";
  "fc00::-fdff:ffff:ffff:ffff:ffff:ffff:ffff:ffff"; "fe80::-febf:ffff:ffff:ffff:ffff:ffff:ffff:ffff"]%string.
Record CoturnConfig := {
  listening_port : Z; relay_ip : string; external_ip : option string; realm : string;
  min_port : Z; max_port : Z; static_auth_secret : string }.
Definition CoturnConfig_reference (realm secret : string) : CoturnConfig := {|
  listening_port := 3478; relay_ip := "0.0.0.0"; external_ip := None; realm := realm;
  min_port := 49152; max_port := 49452; static_auth_secret := secret |}.
Definition NL : string := String "010" EmptyString.
(** The lines [to_conf_text] pushes, without their line feeds. *)
Definition conf_lines (c : CoturnConfig) : list string :=
  ["# generated by ephor media-relay — coturn sidecar config (RFC 8656)";
   "listening-port=" +:+ u64_to_string (listening_port c);
   "relay-ip=" +:+ relay_ip c]%string ++
  match external_ip c with Some ip => ["external-ip=" +:+ ip] | None => [] end ++
  ["realm=" +:+ realm c; "min-port=" +:+ u64_to_string (min_port c); "max-port=" +:+ u64_to_string (max_port c);
   "use-auth-secret"; "static-auth-secret=" +:+ static_auth_secret c; "fingerprint"; "no-cli";
   "no-loopback-peers"; "no-multicast-peers"]%string ++
  map (λ range, "denied-peer-ip=" +:+ range) DENIED_PEER_IP_RANGES.
Definition to_conf_text (c : CoturnConfig) : string :=
  foldr (λ line text, line +:+ NL +:+ text) EmptyString (conf_lines c).
Definition coturn_launch_command (config_path : string) : list string := ["turnserver"; "-c"; config_path; "-n"]%string.

Record LiveKitRtcConfig := { tcp_port : Z; port_range_start : Z; port_range_end : Z; use_external_ip : bool }.
Record LiveKitTurnConfig := { turn_enabled : bool; turn_domain : string; tls_port : Z }.
Record LiveKitConfig := { lk_port : Z; rtc : LiveKitRtcConfig; keys : gmap string string; turn : LiveKitTurnConfig }.
Definition LiveKitConfig_reference (api_key api_secret domain : string) : LiveKitConfig := {|
  lk_port := 7880;
  rtc := {| tcp_port := 7881; port_range_start := 50000; port_range_end := 60000; use_external_ip := true |};
  keys := {[api_key := api_secret]};
  turn := {| turn_enabled := true; turn_domain := domain; tls_port := 5349 |} |}.
Definition livekit_launch_command (config_path : string) : list string := ["livekit-server"; "--config"; config_path]%string.

(** *** The operating system *)

(** A spawned process: its command line, and what [try_wait] would answer. *)
Inductive Life := Alive | Exited | WaitFails.
#[export] Instance Life_eq_dec : EqDecision Life.
Proof. solve_decision. Defined.
Record Process := { argv : list string; life : Life }.
Inductive SpawnError := SpawnNotFound | SpawnOther (message : string).
(** A process id is the order of spawning; [finds] is what a spawn meets now. *)
Record Os := { procs : list Process; finds : string → option SpawnError }.
Definition spawn (binary : string) (args : list string) (os : Os) : result SpawnError nat * Os :=
  match finds os binary with
  | Some e => (Err e, os)
  | None => (Ok (length (procs os)), {| procs := procs os ++ [{| argv := binary :: args; life := Alive |}]; finds := finds os |})
  end.
Definition set_life (l : Life) (pid : nat) (os : Os) : Os :=
  {| procs := alter (λ p, {| argv := argv p; life := l |}) pid (procs os); finds := finds os |}.
Definition try_wait (pid : nat) (os : Os) : Life :=
  match procs os !! pid with Some p => life p | None => WaitFails end.

(** *** The adapter *)
Inductive SessionState := SRunning (child : nat) (endpoint : string) | SUnavailable (reason : string).
Record ExternalSfu := { kind : ExternalSfuKind; binary : string; sessions : gmap string SessionState }.
Definition new (k : ExternalSfuKind) (b : string) : ExternalSfu := {| kind := k; binary := b; sessions := ∅ |}.
Definition coturn : ExternalSfu := new Coturn "turnserver".
Definition livekit : ExternalSfu := new LiveKit "livekit-server".
Definition with_binary (b : string) (x : ExternalSfu) : ExternalSfu := {| kind := kind x; binary := b; sessions := sessions x |}.
Definition with_sessions (ss : gmap string SessionState) (x : ExternalSfu) : ExternalSfu :=
  {| kind := kind x; binary := binary x; sessions := ss |}.

Definition not_found_reason (x : ExternalSfu) : string :=
  kind_label (kind x) +:+ " binary '" +:+ binary x +:+
  "' not found on PATH — sidecar not installed; see ExternalSfu's crate docs for the documented launch command an operator runs".
Definition other_reason (x : ExternalSfu) (e : string) : string := "failed to spawn " +:+ kind_label (kind x) +:+ ": " +:+ e.
Definition external_start (config : SessionConfig) (w : ExternalSfu * Os) : result SfuError SfuHandle * (ExternalSfu * Os) :=
  let '(x, os) := w in
  let id := session_id config in
  match sessions x !! id with
  | Some (SRunning _ _) => (Err (AlreadyRunning id), w)
  | _ =>
      match spawn (binary x) ["--version"%string] os with
      | (Ok child, os) =>
          (Ok {| handle_id := id |},
           (with_sessions (<[id := SRunning child (kind_label (kind x) +:+ "://" +:+ id)]> (sessions x)) x, os))
      | (Err e, os) =>
          let reason := match e with SpawnNotFound => not_found_reason x | SpawnOther m => other_reason x m end in
          (Err (SfuUnavailable reason), (with_sessions (<[id := SUnavailable reason]> (sessions x)) x, os))
      end
  end.
Definition external_stop (h : SfuHandle) (w : ExternalSfu * Os) : result SfuError unit * (ExternalSfu * Os) :=
  let '(x, os) := w in
  let x' := with_sessions (delete (handle_id h) (sessions x)) x in
  match sessions x !! handle_id h with
  | Some (SRunning child _) => (Ok tt, (x', set_life Exited child os))
  | Some (SUnavailable _) | None => (Err (NotFound (handle_id h)), (x', os))
  end.
Definition external_status (h : SfuHandle) (w : ExternalSfu * Os) : SfuStatus :=
  match sessions w.1 !! handle_id h with
  | Some (SRunning child endpoint) =>
      match try_wait child w.2 with Alive => Running endpoint | Exited | WaitFails => Stopped end
  | Some (SUnavailable reason) => Unavailable reason
  | None => Stopped
  end.
#[export] Instance ExternalSfu_MediaSfu : MediaSfu (ExternalSfu * Os) :=
  {| sfu_start := external_start; sfu_stop := external_stop; sfu_status := external_status |}.

(** A history: calls on the adapter, and what the system does meanwhile. *)
Inductive Event := Calls (c : Call) | Dies (pid : nat) (l : Life) | Installs (f : string → option SpawnError).
Definition event (e : Event) (w : ExternalSfu * Os) : ExternalSfu * Os :=
  match e with
  | Calls c => (answer c w).2
  | Dies pid l => (w.1, if decide (l = Alive) then w.2 else set_life l pid w.2)
  | Installs f => (w.1, {| procs := procs w.2; finds := f |})
  end.
Definition history (es : list Event) (w : ExternalSfu * Os) : ExternalSfu * Os := foldl (flip event) w es.

(** *** The text of a configuration *)

(** Gluing a text before a line feed: its own pieces come first. *)
Lemma split_line l t : split_char "010" (l +:+ NL +:+ t) = split_char "010" l ++ split_char "010" t.
Proof.
  unfold NL. rewrite str_app_cons, str_app_nil_l.
  induction l as [|c l IH]; [done|]. rewrite str_app_cons. cbn [split_char]. rewrite IH.
  destruct (is_char _ _); [done|]. destruct (split_char "010" l) eqn:E; [|done].
  exfalso. clear IH. destruct l as [|d l]; cbn in E; [done|]. repeat case_match; done.
Qed.
Lemma conf_split c : split_char "010" (to_conf_text c) = (conf_lines c ≫= split_char "010") ++ [EmptyString].
Proof.
  unfold to_conf_text. induction (conf_lines c) as [|l ls IH]; [done|].
  cbn [foldr]. by rewrite split_line, bind_cons, <- app_assoc, <- IH.
Qed.
Lemma split_conf_lines ls : Forall (λ l, contains_char "010" l = false) ls → ls ≫= split_char "010" = ls.
Proof. induction 1 as [|l ls Hl _ IH]; [done|]. by rewrite bind_cons, split_char_none, IH by done. Qed.

Definition field_clean (f : string) : Prop := contains_char "010" f = false.
Definition config_clean (c : CoturnConfig) : Prop :=
  field_clean (relay_ip c) ∧ field_clean (realm c) ∧ field_clean (static_auth_secret c) ∧
  match external_ip c with Some ip => field_clean ip | None => True end ∧
  0 ≤ listening_port c ∧ 0 ≤ min_port c ∧ 0 ≤ max_port c.
Lemma decimal_clean n : 0 ≤ n → contains_char "010" (u64_to_string n) = false.
Proof.
  intros Hn. destruct (MtaSts.decimal_digits 19 n EmptyString) as [Hd _]; [done|lia|].
  apply str_any_all. eapply str_all_impl, Hd. intros c Hc. unfold is_char. case_bool_decide as E; [|done]. by subst c.
Qed.
Lemma clean_lines c : config_clean c → Forall (λ l, contains_char "010" l = false) (conf_lines c).
Proof.
  intros (H1 & H2 & H3 & H4 & Hl & Hm & HM). unfold field_clean in *. unfold conf_lines.
  pose proof (decimal_clean _ Hl) as D1. pose proof (decimal_clean _ Hm) as D2. pose proof (decimal_clean _ HM) as D3.
  repeat (apply Forall_app; split); destruct (external_ip c); repeat constructor; rewrite ?contains_app, ?H1, ?H2, ?H3, ?H4, ?D1, ?D2, ?D3; reflexivity.
Qed.

(** The file read line by line is the lines written, when no field holds a line
    feed; each private range is denied on a line of its own whatever the fields
    hold; but a realm with a line feed adds a directive of its own. *)
Theorem coturn_file_lines c :
  (config_clean c → split_char "010" (to_conf_text c) = conf_lines c ++ [EmptyString]) ∧
  (∀ range, range ∈ DENIED_PEER_IP_RANGES → ("denied-peer-ip=" +:+ range) ∈ split_char "010" (to_conf_text c)) ∧
  (∀ name directive, realm c = name +:+ NL +:+ directive → field_clean directive → directive ∈ split_char "010" (to_conf_text c)).
Proof.
  rewrite conf_split. split; [|split].
  - intros Hc. by rewrite split_conf_lines by (by apply clean_lines).
  - intros range Hr. apply elem_of_app. left. apply list_elem_of_bind.
    exists ("denied-peer-ip=" +:+ range). split.
    + assert (contains_char "010" ("denied-peer-ip=" +:+ range) = false) as E.
      { revert range Hr. apply Forall_forall. repeat constructor. }
      rewrite split_char_none by done. by apply list_elem_of_singleton.
    + unfold conf_lines. rewrite !elem_of_app. do 3 right. by apply (list_elem_of_fmap_2 (λ range, "denied-peer-ip=" +:+ range)).
  - intros name d Hr Hd. apply elem_of_app. left. apply list_elem_of_bind. exists ("realm=" +:+ realm c). split.
    + rewrite Hr, str_app_assoc, split_line. apply elem_of_app. right. rewrite split_char_none by done. by apply list_elem_of_singleton.
    + unfold conf_lines. rewrite !elem_of_app. do 2 right. left. apply list_elem_of_here.
Qed.

(** *** Sessions and processes *)
Section owned.
Context (k : ExternalSfuKind) (b : string) (n0 : nat).

(** A running session owns a process spawned after the adapter was made, no two
    sessions the same one, and such a process is a version probe that only lives
    while a session owns it. *)
Definition owned (w : ExternalSfu * Os) : Prop :=
  kind w.1 = k ∧ binary w.1 = b ∧ (n0 ≤ length (procs w.2))%nat ∧
  (∀ id c ep, sessions w.1 !! id = Some (SRunning c ep) →
    ep = kind_label k +:+ "://" +:+ id ∧ (n0 ≤ c < length (procs w.2))%nat ∧
    ∀ id' ep', sessions w.1 !! id' = Some (SRunning c ep') → id' = id) ∧
  (∀ pid p, (n0 ≤ pid)%nat → procs w.2 !! pid = Some p → argv p = [b; "--version"%string] ∧
    (life p = Alive → ∃ id ep, sessions w.1 !! id = Some (SRunning pid ep))).

Lemma owned_set_life x os pid l : l ≠ Alive → owned (x, os) → owned (x, set_life l pid os).
Proof.
  intros Hl (Hk & Hb & Hn & Hs & Hp). cbn in *. unfold owned, set_life. cbn. rewrite length_alter.
  split_and!; [done..|]. intros pid' p Hge E. destruct (decide (pid' = pid)) as [->|].
  - rewrite list_lookup_alter_eq in E. destruct (procs os !! pid) as [q|] eqn:Eq; [|done].
    injection E as <-. cbn. destruct (Hp pid q Hge Eq). split; [done|]. by intros.
  - rewrite list_lookup_alter_ne in E by done. by apply (Hp pid').
Qed.
Lemma owned_unavailable x os id reason :
  owned (x, os) → (∀ c ep, sessions x !! id ≠ Some (SRunning c ep)) →
  owned (with_sessions (<[id := SUnavailable reason]> (sessions x)) x, os).
Proof.
  intros (Hk & Hb & Hn & Hs & Hp) Hno. unfold owned. cbn in *. split_and!; [done..| |].
  - intros i c ep E. apply lookup_insert_Some in E as [[_ ?]|[Hi E]]; [done|].
    destruct (Hs i c ep E) as (He & Hc & Hu). split_and!; [done|lia..|]. intros i' ep' E'.
    apply lookup_insert_Some in E' as [[_ ?]|[_ E']]; [done|]. by apply (Hu i' ep').
  - intros pid p Hge E. destruct (Hp pid p Hge E) as [Ha Hl]. split; [done|]. intros HA.
    destruct (Hl HA) as (i & ep & Ei). exists i, ep. rewrite lookup_insert_ne; [done|]. intros ->. by apply (Hno pid ep).
Qed.
Lemma owned_running x os id :
  owned (x, os) → (∀ c ep, sessions x !! id ≠ Some (SRunning c ep)) →
  owned (with_sessions (<[id := SRunning (length (procs os)) (kind_label k +:+ "://" +:+ id)]> (sessions x)) x,
         {| procs := procs os ++ [{| argv := [b; "--version"%string]; life := Alive |}]; finds := finds os |}).
Proof.
  intros (Hk & Hb & Hn & Hs & Hp) Hno. unfold owned. cbn in *. rewrite length_app. cbn. split_and!; [done..|lia| |].
  - intros i c ep E. apply lookup_insert_Some in E as [[<- [= <- <-]]|[Hi E]].
    + split_and!; [done|lia..|]. intros i' ep' E'. apply lookup_insert_Some in E' as [[? _]|[_ E']]; [done|].
      destruct (Hs _ _ _ E'); lia.
    + destruct (Hs i c ep E) as (He & Hc & Hu). split_and!; [done|lia..|]. intros i' ep' E'.
      apply lookup_insert_Some in E' as [[_ [= ? _]]|[_ E']]; [lia|by apply (Hu i' ep')].
  - intros pid p Hge E. apply lookup_app_Some in E as [E|[Hlen E]].
    + destruct (Hp pid p Hge E) as [Ha Hl]. split; [done|]. intros HA. destruct (Hl HA) as (i & ep & Ei).
      exists i, ep. rewrite lookup_insert_ne; [done|]. intros ->. by apply (Hno pid ep).
    + apply list_lookup_singleton_Some in E as [E0 <-]. split; [done|]. intros _.
      exists id, (kind_label k +:+ "://" +:+ id). rewrite lookup_insert_eq. do 2 f_equal. lia.
Qed.
Lemma owned_forget x os id :
  owned (x, os) → (∀ c ep p, sessions x !! id = Some (SRunning c ep) → procs os !! c = Some p → life p ≠ Alive) →
  owned (with_sessions (delete id (sessions x)) x, os).
Proof.
  intros (Hk & Hb & Hn & Hs & Hp) Hdead. unfold owned. cbn in *. split_and!; [done..| |].
  - intros i c ep [Hi E]%lookup_delete_Some. destruct (Hs i c ep E) as (He & Hc & Hu). split_and!; [done|lia..|].
    intros i' ep' [_ E']%lookup_delete_Some. by apply (Hu i' ep').
  - intros pid p Hge E. destruct (Hp pid p Hge E) as [Ha Hl]. split; [done|]. intros HA. destruct (Hl HA) as (i & ep & Ei).
    exists i, ep. rewrite lookup_delete_ne; [done|]. intros ->. by apply (Hdead pid ep p).
Qed.
Lemma owned_start cfg w : owned w → owned (external_start cfg w).2.
Proof.
  destruct w as [x os]. intros Ho. assert (kind x = k ∧ binary x = b) as [Hk Hb] by (destruct Ho as (? & ? & _); done).
  unfold external_start, spawn. rewrite Hk, Hb.
  destruct (sessions x !! session_id cfg) as [[c ep|r]|] eqn:Es; [done|..]; (destruct (finds os b);
    [apply owned_unavailable|apply owned_running]; first [done|intros ?? E; congruence]).
Qed.
Lemma owned_stop h w : owned w → owned (external_stop h w).2.
Proof.
  destruct w as [x os]. intros Ho. unfold external_stop.
  destruct (sessions x !! handle_id h) as [[c ep|r]|] eqn:Es; (apply owned_forget; [by try apply owned_set_life|]);
    intros c' ep' p E' Ep; [|congruence..]. assert (c' = c) as -> by congruence.
  cbn in Ep. rewrite list_lookup_alter_eq in Ep. destruct (procs os !! c); [|done]. by injection Ep as <-.
Qed.
Lemma owned_event e w : owned w → owned (event e w).
Proof.
  intros Ho. destruct e as [[cfg|h|h]|pid l|f]; cbn.
  - pose proof (owned_start cfg w Ho). by destruct (external_start cfg w).
  - pose proof (owned_stop h w Ho). by destruct (external_stop h w).
  - done.
  - destruct w as [x os]. case_decide; cbn; [done|]. by apply owned_set_life.
  - destruct w as [x os]. exact Ho.
Qed.
Lemma owned_history es w : owned w → owned (history es w).
Proof. revert w. induction es as [|e es IH]; intros w Ho; [done|]. cbn. by apply IH, owned_event. Qed.
End owned.
Lemma owned_new k b os : owned k b (length (procs os)) (new k b, os).
Proof.
  unfold owned. cbn. split_and!; [done..| |].
  - intros id c ep E. by rewrite lookup_empty in E.
  - intros pid p Hge E. apply lookup_lt_Some in E. lia.
Qed.

(** After any history a session reported [Running] has a live process of its own,
    spawned by this adapter; no process of the adapter outlives its session's
    entry; and every process it ever spawned is the binary's version probe: none is
    a sidecar started with the generated configuration. *)
Theorem running_is_a_live_probe k b os es :
  let w := history es (new k b, os) in
  (∀ h ep, external_status h w = Running ep →
    ep = kind_label k +:+ "://" +:+ handle_id h ∧
    ∃ pid p, sessions w.1 !! handle_id h = Some (SRunning pid ep) ∧ (length (procs os) ≤ pid)%nat ∧
      procs w.2 !! pid = Some p ∧ life p = Alive ∧
      ∀ id' ep', sessions w.1 !! id' = Some (SRunning pid ep') → id' = handle_id h) ∧
  (∀ pid p, (length (procs os) ≤ pid)%nat → procs w.2 !! pid = Some p →
    argv p = [b; "--version"%string] ∧ (life p = Alive → ∃ id, external_status {| handle_id := id |} w = Running (kind_label k +:+ "://" +:+ id))).
Proof.
  intros w. destruct (owned_history k b _ es _ (owned_new k b os)) as (_ & _ & _ & Hs & Hp). fold w in Hs, Hp. split.
  - intros h ep. unfold external_status. destruct (sessions w.1 !! handle_id h) as [[c e|]|] eqn:E; [|done..].
    destruct (Hs _ _ _ E) as (-> & Hc & Hu). unfold try_wait. destruct (procs w.2 !! c) as [p|] eqn:Ep; [|done].
    destruct (life p) eqn:El; [|done..]. intros [= <-]. split; [done|]. exists c, p. split_and!; [done|lia|done..].
  - intros pid p Hge E. destruct (Hp pid p Hge E) as [Ha Hl]. split; [done|]. intros HA. destruct (Hl HA) as (id & ep & Ei).
    exists id. unfold external_status, try_wait. cbn. rewrite Ei, E, HA. by destruct (Hs _ _ _ Ei) as (-> & _).
Qed.

(** When the probe has exited, the session is [Stopped] but cannot be started again
    until it is stopped; then it can. *)
Theorem exited_probe_blocks_restart k b os cfg e (He : e ≠ Alive) :
  finds os b = None →
  let h := {| handle_id := session_id cfg |} in
  let w := history [Calls (CallStart cfg); Dies (length (procs os)) e] (new k b, os) in
  external_status h w = Stopped ∧ (external_start cfg w).1 = Err (AlreadyRunning (session_id cfg)) ∧
  (external_stop h w).1 = Ok tt ∧ (external_start cfg (external_stop h w).2).1 = Ok h.
Proof.
  intros Hf h w. set (id := session_id cfg) in *. set (n := length (procs os)) in *.
  assert (w = (with_sessions {[id := SRunning n (kind_label k +:+ "://" +:+ id)]} (new k b),
    set_life e n {| procs := procs os ++ [{| argv := [b; "--version"%string]; life := Alive |}]; finds := finds os |})) as ->.
  { subst w. unfold history. cbn [foldl flip event answer sfu_start ExternalSfu_MediaSfu]. unfold external_start.
    cbn [sessions new]. rewrite lookup_empty. unfold spawn. cbn [binary new]. rewrite Hf. cbn. by rewrite decide_False. }
  unfold external_status, external_start, external_stop, try_wait, set_life, n, h. cbn. fold id. rewrite lookup_singleton_eq.
  rewrite list_lookup_alter_eq, list_lookup_middle by done. cbn. rewrite lookup_delete_eq. unfold spawn. cbn. rewrite Hf. by destruct e.
Qed.

(** While the binary cannot be run no session is ever reported [Running] and every
    start says [Unavailable]. *)
Definition lacks (b : string) (e : Event) : Prop := match e with Installs f => f b ≠ None | _ => True end.
Lemma lacks_event b e w :
  lacks b e → binary w.1 = b → finds w.2 b ≠ None → (∀ id c ep, sessions w.1 !! id ≠ Some (SRunning c ep)) →
  let w' := event e w in binary w'.1 = b ∧ finds w'.2 b ≠ None ∧ (∀ id c ep, sessions w'.1 !! id ≠ Some (SRunning c ep)).
Proof.
  destruct w as [x os]. cbn. intros Hl Hb Hf Hs. destruct e as [[cfg|h|h]|pid l|f]; cbn; try done.
  - unfold external_start, spawn. rewrite Hb.
    destruct (sessions x !! session_id cfg) as [[c ep|r]|] eqn:E; [by destruct (Hs _ _ _ E)|..];
      (destruct (finds os b) eqn:Ef; [|done]); cbn; rewrite Ef; (split_and!; [done..|]);
      intros id c ep [[_ ?]|[_ E']]%lookup_insert_Some; [done|by apply (Hs id c ep)|done|by apply (Hs id c ep)].
  - unfold external_stop. destruct (sessions x !! handle_id h) as [[c ep|r]|] eqn:E; [by destruct (Hs _ _ _ E)|..]; cbn;
      (split_and!; [done..|]); intros id c ep [_ E']%lookup_delete_Some; by apply (Hs id c ep).
  - by case_decide.
Qed.
Theorem absent_binary_never_runs k b os es :
  finds os b ≠ None → Forall (lacks b) es →
  let w := history es (new k b, os) in
  (∀ h ep, external_status h w ≠ Running ep) ∧
  (∀ cfg, ∃ reason, (external_start cfg w).1 = Err (SfuUnavailable reason) ∧
     external_status {| handle_id := session_id cfg |} (external_start cfg w).2 = Unavailable reason).
Proof.
  intros Hf Hes w.
  assert (binary w.1 = b ∧ finds w.2 b ≠ None ∧ (∀ id c ep, sessions w.1 !! id ≠ Some (SRunning c ep))) as (Hb & Hf' & Hs).
  { subst w. assert (∀ id c ep, sessions (new k b, os).1 !! id ≠ Some (SRunning c ep)) as Hs by (intros ??? E; cbn in E; by rewrite lookup_empty in E).
    assert (binary (new k b, os).1 = b) as Hb by done. change os with (new k b, os).2 in Hf.
    revert Hb Hf Hs. generalize (new k b, os). induction Hes as [|e es He _ IH]; intros w Hb Hf Hs; [done|].
    cbn. destruct (lacks_event b e w He Hb Hf Hs) as (? & ? & ?). by apply IH. }
  clearbody w. destruct w as [x os']. cbn in *. split.
  - intros h ep. unfold external_status. cbn. destruct (sessions x !! handle_id h) as [[]|] eqn:E; [by destruct (Hs _ _ _ E)|done..].
  - intros cfg. unfold external_start, spawn. rewrite Hb. destruct (finds os' b) as [e|]; [|done].
    destruct (sessions x !! session_id cfg) as [[]|] eqn:E; [by destruct (Hs _ _ _ E)|..]; cbn; eexists;
      (split; [done|]); unfold external_status; cbn; by rewrite lookup_insert_eq.
Qed.
End ExternalSfu.

Module MediaWitness.
Import ExternalSfu.
Definition os0 (f : string → option SpawnError) : Os := {| procs := []; finds := f |}.
Definition call1 : SessionConfig := SessionConfig_new "call-1" 4 2000.
Lemma exited_probe_blocks_restart_witness :
  (external_start call1 (history [Calls (CallStart call1); Dies 0 Exited] (livekit, os0 (λ _, None)))).1 = Err (AlreadyRunning "call-1").
Proof. apply (exited_probe_blocks_restart LiveKit "livekit-server" (os0 (λ _, None)) call1 Exited); [discriminate|reflexivity]. Defined.
Lemma absent_binary_never_runs_witness :
  external_status {| handle_id := "call-1" |} (history [Calls (CallStart call1)] (coturn, os0 (λ _, Some SpawnNotFound))) ≠ Running "coturn://call-1".
Proof. apply (absent_binary_never_runs Coturn "turnserver" (os0 (λ _, Some SpawnNotFound)) [Calls (CallStart call1)]); [discriminate|repeat constructor]. Defined.
End MediaWitness.
