(* ===== verification/Main.v ===== *)
(** * The gateway's command line

    [crates/gateway/src/main.rs]: the commands of [envoir-gateway], the start of the
    public multi-tenant gateway ([serve_public]) and the run of its administration API.
    The files, sockets and the TLS library are those of [Startup.World].  A daemon that
    came up is an outcome of its own: it runs until a signal sets [SHUTDOWN]. *)

From Stdlib Require Import ZArith Lia Ascii String.
From stdpp Require Import base decidable option list strings gmap.
From S2P Require Import Prelude RustStr RustText Kotva KotvaMail Attestation Dkim Dmarc Dns Spf MultiDomain LegacyNet Submission Admin AdminProofs ImapAccess Personal Startup.
Local Open Scope Z_scope.

Module Main.
Import Personal Startup.

Section main.
Context {A C : Type} `{AU : Authenticators A} `{HI : HashMapIter} `{RND : StrDebug}.
Context `{KC : KotvaCbor} `{KI : KotvaIdentity} `{KD : KotvaContentId} `{KM : !KotvaMote} `{KMC : !KotvaMoteCbor} `{MM : KotvaMime}
  `{PSL : PublicSuffixList} `{DC : DkimCrypto} `{DS : !DkimSeed} `{ID : Idna}.
Context (w : World (C := C)) (env : gmap string string).

(** ** The public gateway *)

Inductive PublicError := NoToken | NoTls | PublicUnreadable (path : string) | PublicBadCertificate | PublicBindFailed (addr : string).
Record PublicServer := {
  ps_addr : SocketAddr;
  ps_tls : C;
  ps_api : Admin.AdminApi;
  ps_gateway : MultiDomain.MultiDomainGateway;
  ps_limiter : Listener.Server;
}.
Definition serve_public : result PublicError PublicServer :=
  let listen := default "127.0.0.1:9443"%string (env !! "GATEWAY_ADMIN_LISTEN"%string) in
  let token := default EmptyString (env !! "GATEWAY_ADMIN_TOKEN"%string) in
  if bool_decide (trim token = EmptyString) then Err NoToken
  else
    match env !! "GATEWAY_TLS_CERT"%string, env !! "GATEWAY_TLS_KEY"%string with
    | Some cert_path, Some key_path =>
        cert_pem ← ok_or (PublicUnreadable cert_path) (read_bytes w cert_path);
        key_pem ← ok_or (PublicUnreadable key_path) (read_bytes w key_path);
        tls ← ok_or PublicBadCertificate (server_config_from_pem w cert_pem key_pem);
        bound ← ok_or (PublicBindFailed listen) (bind w [] listen);
        Ok {| ps_addr := bound; ps_tls := tls;
              ps_api := {| Admin.meter := MultiDomain.UsageMeter_new; Admin.auth := Admin.with_token token |};
              ps_gateway := MultiDomain.MultiDomainGateway_new; ps_limiter := Listener.bind |}
    | _, _ => Err NoTls
    end.

(** ** The commands *)

Inductive Outcome :=
| PrintedVersion
| PrintedHelp
| Exited (code : Z)
| RunningPersonal (r : Running (A := A) (C := C))
| RunningPublic (p : PublicServer).
Definition daemon (ik : IdentityKey) (c : PersonalConfig) : Outcome :=
  match serve w c ik with Ok r => RunningPersonal r | Err _ => Exited 1 end.
Definition main (args : list string) (ik : IdentityKey) : Outcome :=
  let cmd := default "help"%string (args !! 1%nat) in
  if bool_decide (cmd = "version"%string) then PrintedVersion
  else if bool_decide (cmd = "personal"%string) then
    match args !! 2%nat with
    | None => Exited 2
    | Some path => match load (read_text w) path with Ok c => daemon ik c | Err _ => Exited 1 end
    end
  else if bool_decide (cmd = "run"%string) then daemon ik (from_env env)
  else if bool_decide (cmd = "public"%string) then
    match serve_public with Ok p => RunningPublic p | Err _ => Exited 1 end
  else PrintedHelp.

(** The public gateway's connections in the order they are accepted: what a connection
    draws at random, its time, and what it sends once its handshake is done. *)
Record Visit := { v_ambient : Admin.Ambient; v_now : Z; v_bytes : option (list LegacyNet.ReadResult) }.
Definition visit (p : PublicServer) (v : Visit) (g : MultiDomain.MultiDomainGateway) : MultiDomain.MultiDomainGateway :=
  match Admin.handle_connection (ps_api p) (v_ambient v) (v_now v) (v_bytes v) g with Some (_, g) => g | None => g end.
Definition visits (p : PublicServer) (vs : list Visit) : MultiDomain.MultiDomainGateway := foldl (flip (visit p)) (ps_gateway p) vs.
(** The connection sends a request that presents [t]. *)
Definition presents (t : string) (v : Visit) : Prop :=
  ∃ rs req r, v_bytes v = Some rs ∧ Admin.read_request (v_now v) {| Admin.buf := []; Admin.reads := rs |} = Some (Ok (Some req), r) ∧
    Admin.r_token req = Some t.

Lemma visit_refused p v g : (∀ t, Admin.token (Admin.auth (ps_api p)) = Some t → ¬ presents t v) → visit p v g = g.
Proof.
  intros Hno. unfold visit, Admin.handle_connection. destruct (v_bytes v) as [rs|] eqn:Eb; [|done].
  destruct (Admin.read_request _ _) as [[req r]|] eqn:Er; [|done]. cbn [mbind option_bind].
  destruct req as [[req|]|[|]]; try done. unfold Admin.handle. destruct (Admin.authorize _ _) eqn:Ea; [|done].
  apply AdminProofs.authorize_spec in Ea as (t & Ht & Hp). exfalso. apply (Hno t Ht). by exists rs, req, r.
Qed.
Lemma serve_public_Ok p :
  serve_public = Ok p →
  ∃ t cert key cert_pem key_pem, env !! "GATEWAY_ADMIN_TOKEN"%string = Some t ∧ trim t ≠ EmptyString ∧
    env !! "GATEWAY_TLS_CERT"%string = Some cert ∧ env !! "GATEWAY_TLS_KEY"%string = Some key ∧
    read_bytes w cert = Some cert_pem ∧ read_bytes w key = Some key_pem ∧ server_config_from_pem w cert_pem key_pem = Some (ps_tls p) ∧
    Admin.token (Admin.auth (ps_api p)) = Some t ∧ ps_gateway p = MultiDomain.MultiDomainGateway_new.
Proof.
  unfold serve_public. case_bool_decide as Ht; [done|].
  destruct (env !! "GATEWAY_TLS_CERT"%string) as [cert|]; [|done]. destruct (env !! "GATEWAY_TLS_KEY"%string) as [key|]; [|done].
  destruct (read_bytes w cert) as [cp|] eqn:E1; [|done]. destruct (read_bytes w key) as [kp|] eqn:E2; [|done]. cbn.
  destruct (server_config_from_pem w cp kp) as [tls|] eqn:E3; [|done]. cbn.
  destruct (bind w [] _); [|done]. intros [= <-]. cbn. destruct (env !! "GATEWAY_ADMIN_TOKEN"%string) as [t|]; [|done].
  exists t, cert, key, cp, kp. cbn in Ht. unfold Admin.with_token. rewrite bool_decide_false by done. by split_and!.
Qed.

(** The public gateway comes up only with a token that is not blank and a loaded
    certificate and key, and then serves no domain; the tenants stay as they are, over
    any sequence of connections, until one sends a request that presents the token. *)
Theorem public_gateway_guarded p vs1 vs2 :
  serve_public = Ok p →
  ∃ t, env !! "GATEWAY_ADMIN_TOKEN"%string = Some t ∧ trim t ≠ EmptyString ∧
    (∃ cert key cert_pem key_pem, env !! "GATEWAY_TLS_CERT"%string = Some cert ∧ env !! "GATEWAY_TLS_KEY"%string = Some key ∧
      read_bytes w cert = Some cert_pem ∧ read_bytes w key = Some key_pem ∧ server_config_from_pem w cert_pem key_pem = Some (ps_tls p)) ∧
    (Forall (λ v, ¬ presents t v) vs2 →
      visits p (vs1 ++ vs2) = visits p vs1 ∧ MultiDomain.tenants (visits p vs2) = ∅).
Proof.
  intros (t & cert & key & cp & kp & Ht & Hb & Hc & Hk & H1 & H2 & H3 & Htok & Hg)%serve_public_Ok.
  exists t. split; [done|]. split; [done|]. split; [by exists cert, key, cp, kp|]. intros Hvs.
  assert (∀ g, foldl (flip (visit p)) g vs2 = g) as Hsame.
  { induction Hvs as [|v vs Hv _ IH]; intros g; [done|]. cbn. rewrite IH. apply visit_refused.
    intros t' Ht'. rewrite Htok in Ht'. by injection Ht' as <-. }
  unfold visits. rewrite foldl_app, !Hsame, Hg. done.
Qed.
End main.
End Main.

Module MainWitness.
Import Main Personal Startup StartupWitness.
#[local] Existing Instance DkimWitness.toy_crypto.
#[local] Existing Instance MultiDomainWitness.seed.
#[local] Existing Instance MultiDomainWitness.iter.
#[local] Existing Instance StartupWitness.debug.
Definition env0 : gmap string string := {["GATEWAY_ADMIN_TOKEN" := "secret"; "GATEWAY_TLS_CERT" := "cert.pem"; "GATEWAY_TLS_KEY" := "key.pem"]}%string.
Definition knock : Visit := {| v_ambient := AdminWitness.amb; v_now := 0; v_bytes := Some [] |}.
Lemma public_gateway_guarded_witness :
  ∃ p, serve_public world env0 = Ok p ∧ MultiDomain.tenants (visits p [knock]) = ∅.
Proof.
  assert (∃ p, serve_public world env0 = Ok p) as [p E] by (vm_compute; eexists; reflexivity).
  exists p. split; [exact E|]. destruct (public_gateway_guarded world env0 p [] [knock] E) as (t & _ & _ & _ & H).
  apply H. constructor; [|constructor]. intros (rs & req & r & [= <-] & Hr & _). vm_compute in Hr. discriminate Hr.
Defined.
End MainWitness.
