(* ===== verification/Adapter.v ===== *)
(** * The reachability adapter as a running system

    The tasks of [crates/reachability-adapter] working together: the control listener
    with its handshakes, the tunnel tasks that [TunnelHandle::spawn] of [tunnel.rs]
    starts, the clean-up tasks, and the ingress listener with its handlers from the
    peek to the end of the splice ([ingress.rs]).  They run interleaved: a step of the
    system is one await-to-await stretch of one task, a delivery by the multiplexer or
    a move of a peer.  The registry, the handshake, the driver and the peek are those
    of [Tunnel], [Auth] and [Sni].

    A handle is the number of its tunnel task, a reply channel the number of the
    handler that waits on it, a stream the number of its opening.  Of the multiplexer
    it is assumed that a stream delivers its bytes in order and to one peer. *)

From Stdlib Require Import ZArith Lia.
From stdpp Require Import base decidable option list strings gmap relations.
From S2P Require Import Prelude Kotva Descriptor Sni Tunnel Auth Ingress.
Local Open Scope nat_scope.

Module Adapter.
Import Ingress.

(** ** Tunnel tasks *)

(** What [TunnelHandle::spawn] leaves: the channel of open requests, the driver, the
    guard that the clean-up task holds once the registration is in, and (for the
    proofs) the handshake it came from. *)
Record TunnelTask := {
  requests : list nat;
  driver : Tunnel.DriverState (Reply := nat) (Stream := nat);
  running : bool;
  guard : option Tunnel.RegistrationGuard;
  origin : Auth.Challenged;
}.
Definition spawn (ch : Auth.Challenged) (g : option Tunnel.RegistrationGuard) : TunnelTask := {|
  requests := []; driver := Tunnel.DriverState_new; running := true; guard := g; origin := ch |}.
Definition with_guard (g : option Tunnel.RegistrationGuard) (t : TunnelTask) : TunnelTask := {|
  requests := requests t; driver := driver t; running := running t; guard := g; origin := origin t |}.
(** [self.open_tx.send(tx)]: refused once the driver has dropped the receiver. *)
Definition send_request (i : nat) (t : TunnelTask) : option TunnelTask :=
  if running t then
    Some {| requests := requests t ++ [i]; driver := driver t; running := true; guard := guard t; origin := origin t |}
  else None.
(** [rx.await]: the reply, or an error once the sender is gone. *)
Definition await_reply (i : nat) (t : TunnelTask) : option (result Tunnel.TunnelError nat) :=
  match list_find (λ a, a.1 = i) (Tunnel.answered (driver t)) with
  | Some (_, (_, res)) => Some res
  | None => if running t then None else Some (Err Tunnel.Closed)
  end.
(** A turn of the driver that opens a stream, [fresh] when it succeeds. *)
Definition opened (p : Tunnel.Polls (Reply := nat) (Stream := nat)) (d : Tunnel.DriverState (Reply := nat) (Stream := nat)) : option nat :=
  let queue := Tunnel.pending d ++ (if Tunnel.open_rx_closed d then [] else match Tunnel.poll_recv p with Tunnel.OpenReady r => [r] | _ => [] end) in
  match queue, Tunnel.poll_new_outbound p with r :: _, Tunnel.OutReady (Ok _) => Some r | _, _ => None end.
Definition drive_task (p : Tunnel.Polls (Reply := nat) (Stream := nat)) (t : TunnelTask) : TunnelTask :=
  let rest := if Tunnel.open_rx_closed (driver t) then requests t
    else match Tunnel.poll_recv p with Tunnel.OpenReady _ => tail (requests t) | _ => requests t end in
  match Tunnel.drive_turn p (driver t) with
  | inl d => {| requests := []; driver := d; running := false; guard := guard t; origin := origin t |}
  | inr (d, _) => {| requests := rest; driver := d; running := true; guard := guard t; origin := origin t |}
  end.

(** ** Streams and handlers *)

(** The bytes each end wrote, and (for the proofs) whose request opened it. *)
Record Stream := { st_tunnel : nat; st_for : nat; to_box : bytes; from_box : bytes }.
Definition write_stream (b : bytes) (st : Stream) : Stream :=
  {| st_tunnel := st_tunnel st; st_for := st_for st; to_box := to_box st ++ b; from_box := from_box st |}.
Definition box_writes (b : bytes) (st : Stream) : Stream :=
  {| st_tunnel := st_tunnel st; st_for := st_for st; to_box := to_box st; from_box := from_box st ++ b |}.

(** Where [handle_ingress_connection] is. *)
Inductive Phase :=
| Accepted
| Peeked (p : Sni.ClientHelloPeek) (rest : list Sni.Read)
| Found (h : nat) (p : Sni.ClientHelloPeek) (rest : list Sni.Read)
| Waiting (h : nat) (p : Sni.ClientHelloPeek) (rest : list Sni.Read)
| Opened (p : Sni.ClientHelloPeek) (rest : list Sni.Read)
| Splicing (rest : list Sni.Read)
| Returned (res : result IngressError unit).
(** [via]: the stream once it is open; [got]: what was copied to the client. *)
Record Client := { service : string; input : list Sni.Read; phase : Phase; via : option nat; got : bytes }.
Definition at_phase (ph : Phase) (c : Client) : Client :=
  {| service := service c; input := input c; phase := ph; via := via c; got := got c |}.
Definition accept_client (svc : string) (stream : list Sni.Read) : Client :=
  {| service := svc; input := stream; phase := Accepted; via := None; got := [] |}.
Definition fail_closed (e : IngressError) (c : Client) : Client := at_phase (Returned (Err e)) c.

Definition peek (c : Client) : Client :=
  match Sni.peek_client_hello (input c) with
  | (Ok p, rest) => at_phase (Peeked p rest) c
  | (Err e, _) => fail_closed (SniErr e) c
  end.
Definition find_tunnel (p : Sni.ClientHelloPeek) (rest : list Sni.Read) (reg : Tunnel.RegistryState nat) (c : Client) : Client :=
  match Tunnel.lookup_name (Sni.server_name p) reg with
  | None => fail_closed (UnregisteredName (Sni.server_name p)) c
  | Some l =>
      if service_allowed (Tunnel.tl_allowed_services l) (service c) then at_phase (Found (Tunnel.tl_handle l) p rest) c
      else fail_closed (ServiceNotAllowed (Sni.server_name p) (service c)) c
  end.
Definition take_reply (p : Sni.ClientHelloPeek) (rest : list Sni.Read) (r : result Tunnel.TunnelError nat) (c : Client) : Client :=
  match r with
  | Ok sid => {| service := service c; input := input c; phase := Opened p rest; via := Some sid; got := got c |}
  | Err e => fail_closed (TunnelErr e) c
  end.
Definition receive (b : bytes) (c : Client) : Client :=
  {| service := service c; input := input c; phase := phase c; via := via c; got := got c ++ b |}.

(** ** The system *)

Inductive Control := Challenging (ch : Auth.Challenged) (unread : bytes) | Settled (res : result TunnelAcceptError nat).
Section system.
Context `{KI : KotvaIdentity}.

Record System := {
  server : AdapterServer nat;
  controls : list Control;
  tunnels : list TunnelTask;
  cleanups : list Tunnel.RegistrationGuard;
  streams : list Stream;
  clients : list Client;
}.
Definition System_new : System :=
  {| server := AdapterServer_new; controls := []; tunnels := []; cleanups := []; streams := []; clients := [] |}.
Definition with_clients (cs : list Client) (s : System) : System := {|
  server := server s; controls := controls s; tunnels := tunnels s; cleanups := cleanups s; streams := streams s; clients := cs |}.
Definition with_streams (x : list Stream) (s : System) : System := {|
  server := server s; controls := controls s; tunnels := tunnels s; cleanups := cleanups s; streams := x; clients := clients s |}.
Definition with_tunnels (x : list TunnelTask) (s : System) : System := {|
  server := server s; controls := controls s; tunnels := x; cleanups := cleanups s; streams := streams s; clients := clients s |}.
Definition with_cleanups (x : list Tunnel.RegistrationGuard) (s : System) : System := {|
  server := server s; controls := controls s; tunnels := tunnels s; cleanups := x; streams := streams s; clients := clients s |}.
Definition with_registry (r : Tunnel.RegistryState nat) (s : System) : System := {|
  server := {| registry := r; nonces := nonces (server s) |}; controls := controls s; tunnels := tunnels s;
  cleanups := cleanups s; streams := streams s; clients := clients s |}.

(** A control connection is accepted and sends [bs]; [nonce] is drawn for it. *)
Definition control_arrives (bs nonce : bytes) (s : System) : System :=
  let '(res, srv) := accept_box_challenge bs nonce (server s) in
  {| server := srv;
     controls := controls s ++ [match res with Ok (_, ch, rest) => Challenging ch rest | Err e => Settled (Err e) end];
     tunnels := tunnels s; cleanups := cleanups s; streams := streams s; clients := clients s |}.
(** The box answers: authenticated, the connection becomes a tunnel task whether or
    not the registration is granted. *)
Definition control_answers (j : nat) (ch : Auth.Challenged) (bs : bytes) (s : System) : System :=
  let h := length (tunnels s) in
  let '(res, srv) := accept_box_response ch bs h (server s) in
  {| server := srv;
     controls := <[j := Settled (match res with Ok _ => Ok h | Err e => Err e end)]> (controls s);
     tunnels := tunnels s ++ match res with
                             | Ok g => [spawn ch (Some g)]
                             | Err (AcceptRegistry _) => [spawn ch None]
                             | Err _ => []
                             end;
     cleanups := cleanups s; streams := streams s; clients := clients s |}.

(** Somebody holds a clone of the handle: the registry, or a handler that found it. *)
Definition holds (h : nat) (s : System) (c : Client) : Prop :=
  match phase c with
  | Found h' _ _ | Waiting h' _ _ => h' = h
  | Opened _ _ | Splicing _ => ∃ sid st, via c = Some sid ∧ streams s !! sid = Some st ∧ st_tunnel st = h
  | _ => False
  end.
Definition held (h : nat) (s : System) : Prop :=
  (∃ n t, Tunnel.tunnels (registry (server s)) !! n = Some t ∧ Tunnel.handle t = h) ∨ Exists (holds h s) (clients s).

(** What the polls of a turn can be: the channel gives its oldest request, and is
    closed when it is empty and no sender is left; a stream opened is a new one. *)
Definition polls_ok (h : nat) (t : TunnelTask) (p : Tunnel.Polls (Reply := nat) (Stream := nat)) (s : System) : Prop :=
  match Tunnel.poll_recv p with
  | Tunnel.OpenReady r => head (requests t) = Some r
  | Tunnel.OpenClosed => requests t = [] ∧ ¬ held h s
  | Tunnel.OpenPending => True
  end ∧
  match Tunnel.poll_new_outbound p with Tunnel.OutReady (Ok sid) => sid = length (streams s) | _ => True end.
Definition driver_turns (h : nat) (t : TunnelTask) (p : Tunnel.Polls (Reply := nat) (Stream := nat)) (s : System) : System :=
  with_streams (streams s ++ match opened p (driver t) with
                             | Some i => [{| st_tunnel := h; st_for := i; to_box := []; from_box := [] |}]
                             | None => []
                             end)
    (with_tunnels (<[h := drive_task p t]> (tunnels s)) s).

Definition client_moves (i : nat) (c : Client) (s : System) : System := with_clients (<[i := c]> (clients s)) s.

Definition unread (b : bytes) (rest : list Sni.Read) : list Sni.Read :=
  match b with [] => rest | _ => Sni.ReadBytes b :: rest end.
Inductive step : System → System → Prop :=
(* control connections *)
| s_control bs nonce s : length nonce = Auth.NONCE_LEN → step s (control_arrives bs nonce s)
| s_answer j ch bs more s :
    controls s !! j = Some (Challenging ch bs) → (Tunnel.next_generation (registry (server s)) < U64.MAX)%Z →
    step s (control_answers j ch (bs ++ more) s)
(* tunnel tasks and their clean-up *)
| s_drive h t p s :
    tunnels s !! h = Some t → running t = true → polls_ok h t p s → step s (driver_turns h t p s)
| s_release h t g s :
    tunnels s !! h = Some t → running t = false → guard t = Some g →
    step s (with_cleanups (g :: cleanups s) (with_tunnels (<[h := with_guard None t]> (tunnels s)) s))
| s_deregister g gs s :
    cleanups s ≡ₚ g :: gs →
    step s (with_cleanups gs (with_registry (Tunnel.drop_guard g (registry (server s))) s))
(* handlers of public connections *)
| s_accept svc stream s :
    Forall Sni.read_ok stream → step s (with_clients (clients s ++ [accept_client svc stream]) s)
| s_peek i c s : clients s !! i = Some c → phase c = Accepted → step s (client_moves i (peek c) s)
| s_lookup i c p rest s :
    clients s !! i = Some c → phase c = Peeked p rest →
    step s (client_moves i (find_tunnel p rest (registry (server s)) c) s)
| s_request i c h p rest t t' s :
    clients s !! i = Some c → phase c = Found h p rest → tunnels s !! h = Some t → send_request i t = Some t' →
    step s (client_moves i (at_phase (Waiting h p rest) c) (with_tunnels (<[h := t']> (tunnels s)) s))
| s_request_refused i c h p rest t s :
    clients s !! i = Some c → phase c = Found h p rest → tunnels s !! h = Some t → send_request i t = None →
    step s (client_moves i (fail_closed (TunnelErr Tunnel.Closed) c) s)
| s_reply i c h p rest t r s :
    clients s !! i = Some c → phase c = Waiting h p rest → tunnels s !! h = Some t → await_reply i t = Some r →
    step s (client_moves i (take_reply p rest r c) s)
| s_write i c p rest sid st s :
    clients s !! i = Some c → phase c = Opened p rest → via c = Some sid → streams s !! sid = Some st →
    step s (client_moves i (at_phase (Splicing rest) c) (with_streams (<[sid := write_stream (Sni.raw p) st]> (streams s)) s))
| s_write_fails i c p rest sid st k e s :
    clients s !! i = Some c → phase c = Opened p rest → via c = Some sid → streams s !! sid = Some st →
    step s (client_moves i (fail_closed (TunnelErr (Tunnel.Io e)) c) (with_streams (<[sid := write_stream (take k (Sni.raw p)) st]> (streams s)) s))
(* the splice, in both directions, until either side closes *)
| s_up i c b b' rest sid st s :
    clients s !! i = Some c → phase c = Splicing (Sni.ReadBytes (b ++ b') :: rest) → via c = Some sid → streams s !! sid = Some st →
    step s (client_moves i (at_phase (Splicing (unread b' rest)) c) (with_streams (<[sid := write_stream b st]> (streams s)) s))
| s_down i c b rest sid st s :
    clients s !! i = Some c → phase c = Splicing rest → via c = Some sid → streams s !! sid = Some st →
    got c ++ b `prefix_of` from_box st → step s (client_moves i (receive b c) s)
| s_end i c rest s :
    clients s !! i = Some c → phase c = Splicing rest → step s (client_moves i (at_phase (Returned (Ok tt)) c) s)
| s_box sid st b s :
    streams s !! sid = Some st → step s (with_streams (<[sid := box_writes b st]> (streams s)) s).

(** ** The registry within the system *)

Definition guards (s : System) : list Tunnel.RegistrationGuard := omap guard (tunnels s) ++ cleanups s.
Definition registry_of (s : System) : Tunnel.RegistryState nat := registry (server s).

Lemma guards_insert h t t' (ts : list TunnelTask) :
  ts !! h = Some t → guard t' = guard t → omap guard (<[h := t']> ts) = omap guard ts.
Proof.
  revert h. induction ts as [|x ts IH]; intros [|h] E Hg; try done.
  - injection E as ->. cbn. by rewrite Hg.
  - cbn. destruct (guard x); [f_equal|]; by apply (IH h).
Qed.
Lemma guards_release h t g (ts : list TunnelTask) :
  ts !! h = Some t → guard t = Some g → omap guard ts ≡ₚ g :: omap guard (<[h := with_guard None t]> ts).
Proof.
  revert h. induction ts as [|x ts IH]; intros [|h] E Hg; try done.
  - injection E as ->. cbn. by rewrite Hg.
  - cbn. destruct (guard x); [|by apply IH]. etrans; [apply Permutation_skip; by apply (IH h)|apply Permutation_swap].
Qed.
Lemma drive_task_guard p t : guard (drive_task p t) = guard t ∧ origin (drive_task p t) = origin t.
Proof. unfold drive_task. by destruct (Tunnel.drive_turn _ _) as [|[]]. Qed.
Lemma send_request_guard i t t' : send_request i t = Some t' → guard t' = guard t ∧ origin t' = origin t ∧ driver t' = driver t ∧ requests t' = requests t ++ [i].
Proof. unfold send_request. destruct (running t); [|done]. by intros [= <-]. Qed.
Lemma answers_registry ch bs h (srv : AdapterServer nat) :
  let '(res, srv') := accept_box_response ch bs h srv in
  match res with
  | Ok g => ∃ a, Tunnel.register (Auth.registration a) (Auth.claimed_ik a) h (registry srv) = (Ok g, registry srv') ∧ a = Auth.ch_announce ch
  | Err _ => registry srv' = registry srv
  end.
Proof.
  unfold accept_box_response. destruct (Auth.auth_response ch bs (nonces srv)) as [[[ar rest]|e] ns] eqn:E; [|done].
  apply Auth.auth_response_inv in E as (sig & _ & _ & _ & _ & -> & _). cbn [Auth.ar_registration Auth.authenticated_ik].
  destruct (Tunnel.register _ _ h (registry srv)) as [[g|e] reg] eqn:Er; cbn; [by eexists|].
  unfold Tunnel.register in Er. destruct (match Tunnel.tunnels (registry srv) !! _ with Some _ => _ | None => _ end); by simplify_eq.
Qed.

(** What the system does to the registry and the guards in one step is one step of the
    abstract registry, or none. *)
Lemma step_registry s s' w :
  step s s' → Tunnel.w_reg w = registry_of s → Tunnel.w_guards w ≡ₚ guards s →
  ∃ w', rtc Tunnel.world_step w w' ∧ Tunnel.w_reg w' = registry_of s' ∧ Tunnel.w_guards w' ≡ₚ guards s'.
Proof.
  intros Hs Hr Hg. assert (∀ s1, registry_of s1 = registry_of s → guards s1 ≡ₚ guards s →
    ∃ w', rtc Tunnel.world_step w w' ∧ Tunnel.w_reg w' = registry_of s1 ∧ Tunnel.w_guards w' ≡ₚ guards s1) as Hsame.
  { intros s1 E1 E2. exists w. split_and!; [apply rtc_refl|congruence|by rewrite E2]. }
  destruct w as [reg gs]. cbn in Hr, Hg. subst reg.
  destruct Hs as [bs nonce s _|j ch bs more s Hj Hgen|h t p s Ht Hrun _|h t g s Ht _ Hgd|g gs' s Hc|svc stream s _|i c s _ _|i c p rest s _ _|i c h p rest t t' s _ _ Ht Hsend
    |i c h p rest t s _ _ _ _|i c h p rest t r s _ _ _ _|i c p rest sid st s _ _ _ _|i c p rest sid st k e s _ _ _ _|i c b b' rest sid st s _ _ _ _|i c b rest sid st s _ _ _ _ _|i c rest s _ _|sid st b s _];
    try (apply Hsame; done).
  - apply Hsame; unfold registry_of, guards, control_arrives, accept_box_challenge;
      by destruct (Auth.auth_challenge bs nonce (nonces (server s))).
  - unfold registry_of, guards, control_answers in *. pose proof (answers_registry ch (bs ++ more) (length (tunnels s)) (server s)) as Ha.
    destruct (accept_box_response ch (bs ++ more) _ (server s)) as [[g|e] srv]; cbn [tunnels cleanups server] in *.
    + destruct Ha as (a & Ha & _). exists {| Tunnel.w_reg := registry srv; Tunnel.w_guards := g :: gs |}. split_and!; [|done|].
      * eapply rtc_once, Tunnel.step_registered; [exact Hgen|exact Ha].
      * cbn. rewrite Hg, omap_app. cbn. rewrite <- app_assoc. cbn. apply Permutation_middle.
    + eexists. split_and!; [apply rtc_refl|by cbn; rewrite Ha|]. cbn. rewrite Hg, omap_app. destruct e; cbn; by rewrite app_nil_r.
  - apply Hsame; [done|]. unfold guards. cbn. rewrite (guards_insert h t); [done..|]. apply drive_task_guard.
  - apply Hsame; [done|]. unfold guards. cbn. rewrite (guards_release h t g (tunnels s)) by done. cbn. symmetry. apply Permutation_middle.
  - unfold registry_of, guards in *. cbn in *. exists {| Tunnel.w_reg := Tunnel.drop_guard g (registry (server s)); Tunnel.w_guards := omap guard (tunnels s) ++ gs' |}.
    split_and!; [|done..]. eapply rtc_once, Tunnel.step_drop. rewrite Hg, Hc. symmetry. apply Permutation_middle.
  - apply Hsame; [done|]. unfold guards. cbn. by rewrite (guards_insert h t) by (by try apply (send_request_guard i)).
Qed.

Lemma refines_registry s :
  rtc step System_new s →
  ∃ w, rtc Tunnel.world_step Tunnel.World_new w ∧ Tunnel.w_reg w = registry_of s ∧ Tunnel.w_guards w ≡ₚ guards s.
Proof.
  intros Hr. enough (∀ w, Tunnel.w_reg w = registry_of System_new → Tunnel.w_guards w ≡ₚ guards System_new →
    ∃ w', rtc Tunnel.world_step w w' ∧ Tunnel.w_reg w' = registry_of s ∧ Tunnel.w_guards w' ≡ₚ guards s) as H by (by apply H).
  induction Hr as [s|s1 s2 s3 Hs _ IH]; intros w E1 E2; [by exists w|].
  destruct (step_registry s1 s2 w Hs E1 E2) as (w1 & Hw1 & F1 & F2). destruct (IH w1 F1 F2) as (w2 & Hw2 & G).
  exists w2. split; [by etrans|done].
Qed.
(** C24: Whatever the control connections, tunnels and handlers do in whatever order, the
    registry and the guards not yet dropped are always in a state of the abstract
    registry: that a single identity holds a name, and that a live entry will be
    released, are so guaranteed in the running system. *)
Theorem adapter_refines_registry s :
  rtc step System_new s →
  ∃ w, rtc Tunnel.world_step Tunnel.World_new w ∧ Tunnel.w_reg w = registry_of s ∧ Tunnel.w_guards w ≡ₚ guards s.
Proof. apply refines_registry. Qed.

(** ** Clean-up *)

(** The guard of an entry is with its tunnel task, or on its way to be dropped once
    that task has ended. *)
Definition entry_guarded (s : System) (n : string) (e : Tunnel.RegisteredTunnel nat) : Prop :=
  let g := {| Tunnel.guard_name := n; Tunnel.guard_generation := Tunnel.generation e |} in
  ∃ t, tunnels s !! Tunnel.handle e = Some t ∧ (guard t = Some g ∨ running t = false ∧ g ∈ cleanups s).
Definition all_guarded (s : System) : Prop := ∀ n e, Tunnel.tunnels (registry_of s) !! n = Some e → entry_guarded s n e.

Lemma guarded_task h t t' s :
  tunnels s !! h = Some t → guard t' = guard t → (running t = false → running t' = false) →
  all_guarded s → all_guarded (with_tunnels (<[h := t']> (tunnels s)) s).
Proof.
  intros Ht Hg Hr HA n e E. destruct (HA n e E) as (t1 & E1 & Hcase). unfold entry_guarded. cbn.
  destruct (decide (Tunnel.handle e = h)) as [<-|Hne].
  - exists t'. rewrite list_lookup_insert_eq by (by eapply lookup_lt_Some). split; [done|]. rewrite Ht in E1. injection E1 as <-. rewrite Hg.
    naive_solver.
  - exists t1. by rewrite list_lookup_insert_ne.
Qed.
Lemma guarded_same s s' :
  registry_of s' = registry_of s → tunnels s' = tunnels s → cleanups s' = cleanups s → all_guarded s → all_guarded s'.
Proof. intros E1 E2 E3 HA n e. unfold entry_guarded. rewrite E1, E2, E3. apply HA. Qed.
Lemma deregister_lookup n g (st : Tunnel.RegistryState nat) m e :
  Tunnel.tunnels (Tunnel.deregister n g st) !! m = Some e ↔
  Tunnel.tunnels st !! m = Some e ∧ ¬ (m = n ∧ Tunnel.generation e = g).
Proof.
  unfold Tunnel.deregister. destruct (Tunnel.tunnels st !! n) as [x|] eqn:E; [|naive_solver].
  destruct (Z.eqb_spec (Tunnel.generation x) g); cbn; [|naive_solver].
  rewrite lookup_delete_Some. naive_solver.
Qed.
Lemma guarded_deregister g gs s :
  cleanups s ≡ₚ g :: gs → all_guarded s →
  all_guarded (with_cleanups gs (with_registry (Tunnel.drop_guard g (registry_of s)) s)).
Proof.
  intros Hc HA n e E. unfold registry_of in E. cbn in E. apply deregister_lookup in E as [E Hne].
  destruct (HA n e E) as (t & Ht & Hcase). exists t. cbn. split; [done|].
  destruct Hcase as [Hg|[Hr Hin]]; [by left|]. right. split; [done|]. rewrite Hc in Hin.
  apply elem_of_cons in Hin as [<-|Hin]; [|done]. exfalso. by apply Hne.
Qed.
Lemma guarded_release h t g s :
  tunnels s !! h = Some t → running t = false → guard t = Some g → all_guarded s →
  all_guarded (with_cleanups (g :: cleanups s) (with_tunnels (<[h := with_guard None t]> (tunnels s)) s)).
Proof.
  intros Ht Hr Hg HA n e E. destruct (HA n e E) as (t1 & E1 & Hcase). unfold entry_guarded. cbn.
  destruct (decide (Tunnel.handle e = h)) as [<-|Hne].
  - exists (with_guard None t). rewrite list_lookup_insert_eq by (by eapply lookup_lt_Some). split; [done|]. right. split; [done|].
    rewrite Ht in E1. injection E1 as <-. destruct Hcase as [Hg'|[_ Hin]]; [|by right]. rewrite Hg in Hg'. injection Hg' as ->. by left.
  - exists t1. rewrite list_lookup_insert_ne by done. split; [done|]. destruct Hcase as [|[]]; [by left|]. right. split; [done|]. by right.
Qed.
Lemma guarded_answer j ch bs s : all_guarded s → all_guarded (control_answers j ch bs s).
Proof.
  intros HA. unfold control_answers. pose proof (answers_registry ch bs (length (tunnels s)) (server s)) as Ha.
  destruct (accept_box_response ch bs _ (server s)) as [[g|e] srv].
  - destruct Ha as (a & Hr & _). intros n x E. unfold registry_of in E. unfold entry_guarded. cbn in E |- *.
    unfold Tunnel.register in Hr. destruct (match Tunnel.tunnels (registry (server s)) !! _ with Some _ => _ | None => _ end); [done|].
    injection Hr as <- Hr. rewrite <- Hr in E. cbn in E. apply lookup_insert_Some in E as [[<- <-]|[_ E]].
    + cbn. rewrite list_lookup_middle by done. eexists. split; [done|]. by left.
    + destruct (HA n x E) as (t & Ht & Hc). exists t. split; [by apply lookup_app_l_Some|done].
  - intros n x E. unfold registry_of in E. cbn in E. rewrite Ha in E. destruct (HA n x E) as (t & Ht & Hc). exists t. cbn.
    split; [by apply lookup_app_l_Some|done].
Qed.
Lemma step_guarded s s' : step s s' → all_guarded s → all_guarded s'.
Proof.
  intros Hs HA. destruct Hs as [bs nonce s _|j ch bs more s Hj Hgen|h t p s Ht Hrun _|h t g s Ht Hr Hgd|g gs' s Hc|svc stream s _|i c s _ _|i c p rest s _ _|i c h p rest t t' s _ _ Ht Hsend
    |i c h p rest t s _ _ _ _|i c h p rest t r s _ _ _ _|i c p rest sid st s _ _ _ _|i c p rest sid st k e s _ _ _ _|i c b b' rest sid st s _ _ _ _|i c b rest sid st s _ _ _ _ _|i c rest s _ _|sid st b s _];
    try (by eapply guarded_same; [..|exact HA]).
  - eapply guarded_same; [..|exact HA]; unfold registry_of, control_arrives, accept_box_challenge; by destruct (Auth.auth_challenge _ _ _).
  - by apply guarded_answer.
  - eapply guarded_same; [..|eapply (guarded_task h t (drive_task p t)); [done|apply drive_task_guard|congruence|exact HA]]; done.
  - by apply guarded_release.
  - by apply guarded_deregister.
  - destruct (send_request_guard _ _ _ Hsend) as (Hg & _). eapply guarded_same; [..|eapply (guarded_task h t t'); [done|done| |exact HA]]; [done..|].
    unfold send_request in Hsend. by destruct (running t).
Qed.
Lemma reachable_guarded s : rtc step System_new s → all_guarded s.
Proof.
  intros Hr. assert (all_guarded System_new) as H0 by (intros n e E; cbn in E; by rewrite lookup_empty in E).
  revert H0. induction Hr as [|s1 s2 s3 Hs _ IH]; [done|]. intros HA. by apply IH, (step_guarded s1).
Qed.

(** The steps of the clean-up tasks: after [driver_join.await] the guard is dropped, and
    the task that the drop spawns removes the entry. *)
Inductive cleanup_step : System → System → Prop :=
| c_release h t g s :
    tunnels s !! h = Some t → running t = false → guard t = Some g →
    cleanup_step s (with_cleanups (g :: cleanups s) (with_tunnels (<[h := with_guard None t]> (tunnels s)) s))
| c_deregister g gs s :
    cleanups s ≡ₚ g :: gs →
    cleanup_step s (with_cleanups gs (with_registry (Tunnel.drop_guard g (registry (server s))) s)).
Lemma cleanup_steps s s' : rtc cleanup_step s s' → rtc step s s'.
Proof. apply rtc_subrel. intros ? ? []; by econstructor. Qed.

Definition dead_guard (t : TunnelTask) : bool := negb (running t) && bool_decide (is_Some (guard t)).
Lemma release_all s :
  ∃ s', rtc cleanup_step s s' ∧ registry_of s' = registry_of s ∧ guards s' ≡ₚ guards s ∧
    (∀ h t, tunnels s' !! h = Some t → dead_guard t = false) ∧
    (∀ h t, tunnels s !! h = Some t → running t = true → tunnels s' !! h = Some t).
Proof.
  remember (length (filter dead_guard (tunnels s))) as m eqn:Em. revert s Em.
  induction m as [m IH] using lt_wf_ind. intros s ->.
  destruct (decide (Exists (λ t, dead_guard t = true) (tunnels s))) as [Hex|Hno].
  - apply Exists_exists in Hex as (t & Hin & Hd). apply list_elem_of_lookup in Hin as (h & Ht).
    unfold dead_guard in Hd. apply andb_true_iff in Hd as [Hr%negb_true_iff Hg%bool_decide_eq_true]. destruct Hg as [g Hg].
    pose (s1 := with_cleanups (g :: cleanups s) (with_tunnels (<[h := with_guard None t]> (tunnels s)) s)).
    assert (cleanup_step s s1) as Hs by by apply (c_release h t g).
    destruct (IH (length (filter dead_guard (tunnels s1)))) with (s := s1) as (s2 & H1 & H2 & H3 & H4 & H5); [|done|].
    + cbn. pose proof (take_drop_middle _ _ _ Ht) as Et. rewrite <- Et at 2.
      rewrite insert_take_drop by (by eapply lookup_lt_Some). rewrite !filter_app, !filter_cons, !length_app.
      rewrite (decide_False (P := dead_guard (with_guard None t))), decide_True.
      * cbn. lia.
      * unfold dead_guard. rewrite Hr, Hg. cbn. done.
      * unfold dead_guard. cbn. rewrite Hr. cbn. intros [].
    + exists s2. split_and!; [by eapply rtc_l|done| |done|].
      * rewrite H3. unfold guards. cbn. rewrite (guards_release h t g (tunnels s)) by done. cbn. symmetry. apply Permutation_middle.
      * intros h' t' E Hrun. apply H5; [|done]. cbn. rewrite list_lookup_insert_ne; [done|]. intros <-. congruence.
  - exists s. split_and!; [apply rtc_refl|done|done| |done]. intros h t E.
    destruct (dead_guard t) eqn:Ed; [|done]. exfalso. apply Hno. apply Exists_exists. exists t. split; [by eapply list_elem_of_lookup_2|done].
Qed.
Lemma deregister_all s :
  ∃ s', rtc cleanup_step s s' ∧ cleanups s' = [] ∧ tunnels s' = tunnels s ∧
    ∀ n e, Tunnel.tunnels (registry_of s') !! n = Some e ↔
      Tunnel.tunnels (registry_of s) !! n = Some e ∧ {| Tunnel.guard_name := n; Tunnel.guard_generation := Tunnel.generation e |} ∉ cleanups s.
Proof.
  remember (cleanups s) as gs eqn:Eg. revert s Eg. induction gs as [|g gs IH]; intros s Eg.
  - exists s. split_and!; [apply rtc_refl|done..|]. intros n e. split; [|naive_solver]. intros E. split; [done|]. intros H%elem_of_nil. done.
  - pose (s1 := with_cleanups gs (with_registry (Tunnel.drop_guard g (registry_of s)) s)).
    destruct (IH s1) as (s2 & H1 & H2 & H3 & H4); [done|]. exists s2. split_and!; [|done..|].
    + eapply rtc_l; [|exact H1]. apply c_deregister. by rewrite <- Eg.
    + intros n e. rewrite H4. unfold registry_of at 1. cbn. unfold Tunnel.drop_guard. rewrite deregister_lookup, not_elem_of_cons.
      destruct g as [gn gg]. cbn. unfold registry_of. naive_solver.
Qed.
(** C25: A tunnel that has ended does not stay registered: from every reachable state the
    clean-up tasks, with no help from a peer, lead to a state in which every name is
    registered to a tunnel that runs; and they take no name away from a tunnel that
    runs. *)
Theorem ended_tunnels_are_released s :
  rtc step System_new s →
  ∃ s', rtc cleanup_step s s' ∧
    (∀ n e, Tunnel.tunnels (registry_of s') !! n = Some e →
       ∃ t, tunnels s' !! Tunnel.handle e = Some t ∧ running t = true) ∧
    (∀ n e t, Tunnel.tunnels (registry_of s) !! n = Some e → tunnels s !! Tunnel.handle e = Some t → running t = true →
       Tunnel.tunnels (registry_of s') !! n = Some e).
Proof.
  intros Hr. destruct (release_all s) as (s1 & R1 & E1 & G1 & D1 & L1). destruct (deregister_all s1) as (s2 & R2 & C2 & T2 & L2).
  exists s2. split; [by etrans|]. apply cleanup_steps in R1, R2.
  assert (all_guarded s1) as HA1 by (apply reachable_guarded; by etrans).
  assert (all_guarded s2) as HA2 by (apply reachable_guarded; etrans; [done|by etrans]).
  split.
  - intros n e E. destruct (HA2 n e E) as (t & Ht & Hcase). exists t. split; [done|]. rewrite C2 in Hcase.
    destruct Hcase as [Hg|[_ []%elem_of_nil]]. rewrite T2 in Ht. specialize (D1 _ _ Ht). unfold dead_guard in D1. rewrite Hg in D1.
    rewrite bool_decide_true in D1 by done. by destruct (running t).
  - intros n e t E Ht Hrun. apply L2. rewrite E1. split; [done|]. intros Hin.
    destruct (HA1 n e) as (t1 & Ht1 & Hcase); [by rewrite E1|]. specialize (L1 _ _ Ht Hrun). rewrite L1 in Ht1. injection Ht1 as <-.
    destruct Hcase as [Hg|[Hd _]]; [|congruence].
    assert (NoDup (Tunnel.guard_generation <$> guards s1)) as HN.
    { destruct (refines_registry s1) as (w & Hw & _ & Hp); [by etrans|].
      rewrite <- Hp. apply Tunnel.world_reachable_inv in Hw. apply (Tunnel.wi_nodup _ Hw). }
    unfold guards in HN. rewrite fmap_app in HN. apply NoDup_app in HN as (_ & HN & _). apply (HN (Tunnel.generation e)).
    + apply list_elem_of_fmap. exists {| Tunnel.guard_name := n; Tunnel.guard_generation := Tunnel.generation e |}. split; [done|].
      apply list_elem_of_omap. exists t. split; [by eapply list_elem_of_lookup_2|done].
    + apply list_elem_of_fmap. by exists {| Tunnel.guard_name := n; Tunnel.guard_generation := Tunnel.generation e |}.
Qed.

(** ** Routing *)

Definition reg_of (ch : Auth.Challenged) : Tunnel.Registration := Auth.registration (Auth.ch_announce ch).
(** The box signed this challenge of the adapter for this name, under the key that the
    registry holds the name for. *)
Definition box_signed (ch : Auth.Challenged) : Prop :=
  ∃ sig, verify_domain (Auth.claimed_ik (Auth.ch_announce ch)) Auth.TUNNEL_AUTH_DS
    (Auth.signing_preimage (Auth.ch_nonce ch) (Tunnel.name (reg_of ch))) sig = Ok tt.
Definition origins (s : System) : list Auth.Challenged := origin <$> tunnels s.

(** The client's hello names the tunnel's box, and the box offers the service. *)
Definition names (og : list Auth.Challenged) (h : nat) (c : Client) : Prop :=
  ∃ ch name, og !! h = Some ch ∧ Sni.try_parse (Sni.stream_bytes (input c)) = Ok (Sni.Complete name) ∧
    to_ascii_lowercase name = Tunnel.name (reg_of ch) ∧ service c ∈ Tunnel.allowed_services (reg_of ch).
Definition hello (p : Sni.ClientHelloPeek) (rest : list Sni.Read) (c : Client) : Prop :=
  Sni.try_parse (Sni.stream_bytes (input c)) = Ok (Sni.Complete (Sni.server_name p)) ∧
  Sni.raw p ++ Sni.stream_bytes rest = Sni.stream_bytes (input c).
Definition unopened (c : Client) : Prop := via c = None ∧ got c = [].
(** The handler's stream, and that [P] holds of it. *)
Definition on_stream (og : list Auth.Challenged) (str : list Stream) (i : nat) (c : Client) (P : Stream → Prop) : Prop :=
  ∃ sid st, via c = Some sid ∧ str !! sid = Some st ∧ st_for st = i ∧ names og (st_tunnel st) c ∧
    got c `prefix_of` from_box st ∧ P st.
Definition client_ok (og : list Auth.Challenged) (str : list Stream) (i : nat) (c : Client) : Prop :=
  Forall Sni.read_ok (input c) ∧
  match phase c with
  | Accepted => unopened c
  | Peeked p rest => unopened c ∧ hello p rest c
  | Found h p rest | Waiting h p rest => unopened c ∧ hello p rest c ∧ names og h c
  | Opened p rest => hello p rest c ∧ on_stream og str i c (λ st, to_box st = [])
  | Splicing rest => on_stream og str i c (λ st, to_box st ++ Sni.stream_bytes rest = Sni.stream_bytes (input c))
  | Returned _ => unopened c ∨ on_stream og str i c (λ st, to_box st `prefix_of` Sni.stream_bytes (input c))
  end.

Record sound (s : System) : Prop := {
  so_boxes : Forall box_signed (origins s);
  so_registry n e : Tunnel.tunnels (registry_of s) !! n = Some e →
    ∃ ch, origins s !! Tunnel.handle e = Some ch ∧ n = Tunnel.name (reg_of ch) ∧
      Tunnel.rt_allowed_services e = Tunnel.allowed_services (reg_of ch) ∧ Tunnel.owner_ik e = Auth.claimed_ik (Auth.ch_announce ch);
  so_requests h t i : tunnels s !! h = Some t →
    i ∈ requests t ++ Tunnel.pending (driver t) → (i < length (clients s))%nat;
  so_answers h t i sid : tunnels s !! h = Some t → (i, Ok sid) ∈ Tunnel.answered (driver t) →
    ∃ st, streams s !! sid = Some st ∧ st_tunnel st = h ∧ st_for st = i;
  so_streams sid st : streams s !! sid = Some st →
    ∃ c, clients s !! st_for st = Some c ∧ (via c = Some sid ∨ to_box st = []);
  so_clients i c : clients s !! i = Some c → client_ok (origins s) (streams s) i c;
}.

Lemma names_mono og og' h c c' : og `prefix_of` og' → input c' = input c → service c' = service c → names og h c → names og' h c'.
Proof. intros Hp Hi Hs (ch & n & H1 & H2 & H3 & H4). exists ch, n. rewrite Hi, Hs. split_and!; try done. by eapply prefix_lookup_Some. Qed.
Lemma on_stream_mono og og' str str' i c P :
  og `prefix_of` og' → (∀ sid st, via c = Some sid → str !! sid = Some st → st_for st = i → str' !! sid = Some st) →
  on_stream og str i c P → on_stream og' str' i c P.
Proof.
  intros Hp Hstr (sid & st & H1 & H2 & H3 & H4 & H5 & H6). exists sid, st. split_and!; try done; [by apply Hstr|by eapply names_mono].
Qed.
Lemma client_mono og og' str str' i c :
  og `prefix_of` og' → (∀ sid st, via c = Some sid → str !! sid = Some st → st_for st = i → str' !! sid = Some st) →
  client_ok og str i c → client_ok og' str' i c.
Proof.
  intros Hp Hstr [Hi Hph]. split; [done|].
  destruct (phase c); naive_solver eauto using names_mono, on_stream_mono.
Qed.
Lemma client_return og str i c e : client_ok og str i c → client_ok og str i (fail_closed e c).
Proof.
  intros [Hi Hph]. split; [done|]. cbn. destruct (phase c); try (left; naive_solver); [right|right|done].
  - destruct Hph as [_ (sid & st & H1 & H2 & H3 & H4 & H5 & H6)]. exists sid, st. split_and!; try done. rewrite H6. apply prefix_nil.
  - destruct Hph as (sid & st & H1 & H2 & H3 & H4 & H5 & H6). exists sid, st. split_and!; try done. by eexists.
Qed.
Lemma sound_client i c c' s :
  sound s → clients s !! i = Some c → client_ok (origins s) (streams s) i c' →
  (∀ sid st, streams s !! sid = Some st → st_for st = i → via c = Some sid ∨ to_box st = [] → via c' = Some sid ∨ to_box st = []) →
  sound (client_moves i c' s).
Proof.
  intros [S1 S2 S3 S4 S5 S6] Hc Hok Hvia. pose proof (lookup_lt_Some _ _ _ Hc) as Hlt. split; cbn; try done.
  - intros h t j Ht Hj. rewrite length_insert. by eapply S3.
  - intros sid st Est. destruct (S5 sid st Est) as (c1 & E1 & Hcase). destruct (decide (st_for st = i)) as [E|].
    + rewrite E in *. exists c'. rewrite list_lookup_insert_eq by done. split; [done|]. assert (c1 = c) as -> by congruence. by apply (Hvia sid st).
    + exists c1. by rewrite list_lookup_insert_ne.
  - intros j c1 E. destruct (decide (i = j)) as [<-|].
    + rewrite list_lookup_insert_eq in E by done. by injection E as <-.
    + rewrite list_lookup_insert_ne in E by done. by apply S6.
Qed.
Lemma sound_client_stream i c c' sid st st' s :
  sound s → clients s !! i = Some c → via c = Some sid → streams s !! sid = Some st → st_for st = i →
  st_tunnel st' = st_tunnel st → st_for st' = st_for st → via c' = Some sid →
  client_ok (origins s) (<[sid := st']> (streams s)) i c' →
  sound (client_moves i c' (with_streams (<[sid := st']> (streams s)) s)).
Proof.
  intros [S1 S2 S3 S4 S5 S6] Hc Hv Est Hfor Ht' Hf' Hv' Hok.
  pose proof (lookup_lt_Some _ _ _ Hc) as Hlt. pose proof (lookup_lt_Some _ _ _ Est) as Hlt'. split; cbn; try done.
  - intros h t j Ht Hj. rewrite length_insert. by eapply S3.
  - intros h t j sid1 Ht Hin. destruct (S4 h t j sid1 Ht Hin) as (st1 & E1 & F1 & F2). destruct (decide (sid = sid1)) as [<-|].
    + exists st'. rewrite list_lookup_insert_eq by done. rewrite Est in E1. injection E1 as <-. split_and!; congruence.
    + exists st1. by rewrite list_lookup_insert_ne.
  - intros sid1 st1 E1. destruct (decide (sid = sid1)) as [<-|Hne].
    + rewrite list_lookup_insert_eq in E1 by done. injection E1 as <-. exists c'. rewrite Hf', Hfor, list_lookup_insert_eq by done. split; [done|by left].
    + rewrite list_lookup_insert_ne in E1 by done. destruct (S5 sid1 st1 E1) as (c1 & G1 & Hcase). destruct (decide (st_for st1 = i)) as [E|].
      * rewrite E in *. exists c'. rewrite list_lookup_insert_eq by done. split; [done|]. right. assert (c1 = c) as -> by congruence. destruct Hcase; [congruence|done].
      * exists c1. by rewrite list_lookup_insert_ne.
  - intros j c1 E. destruct (decide (i = j)) as [<-|Hne].
    + rewrite list_lookup_insert_eq in E by done. by injection E as <-.
    + rewrite list_lookup_insert_ne in E by done. eapply client_mono; [done| |by apply S6].
      intros sid1 st1 Hv1 E1 F1. destruct (decide (sid = sid1)) as [<-|]; [exfalso; congruence|by rewrite list_lookup_insert_ne].
Qed.
Lemma sound_box sid st b s : sound s → streams s !! sid = Some st → sound (with_streams (<[sid := box_writes b st]> (streams s)) s).
Proof.
  intros [S1 S2 S3 S4 S5 S6] Est. pose proof (lookup_lt_Some _ _ _ Est) as Hlt. split; cbn; try done.
  - intros h t j sid1 Ht Hin. destruct (S4 h t j sid1 Ht Hin) as (st1 & E1 & F1 & F2). destruct (decide (sid = sid1)) as [<-|].
    + exists (box_writes b st). rewrite list_lookup_insert_eq by done. rewrite Est in E1. by injection E1 as <-.
    + exists st1. by rewrite list_lookup_insert_ne.
  - intros sid1 st1 E1. destruct (decide (sid = sid1)) as [<-|].
    + rewrite list_lookup_insert_eq in E1 by done. injection E1 as <-. exact (S5 sid st Est).
    + rewrite list_lookup_insert_ne in E1 by done. by apply S5.
  - intros j c E. assert (∀ P, (∀ x, P x → P (box_writes b x)) → on_stream (origins s) (streams s) j c P →
      on_stream (origins s) (<[sid := box_writes b st]> (streams s)) j c P) as Hon.
    { intros P HP (sid1 & st1 & H1 & H2 & H3 & H4 & H5 & H6). destruct (decide (sid = sid1)) as [<-|].
      - exists sid, (box_writes b st). rewrite list_lookup_insert_eq by done. rewrite Est in H2. injection H2 as <-.
        split_and!; try done; [by apply prefix_app_r|by apply HP].
      - exists sid1, st1. by rewrite list_lookup_insert_ne. }
    destruct (S6 j c E) as [Hi Hph]. split; [done|].
    destruct (phase c); naive_solver eauto.
Qed.
Lemma sound_tunnels h t t' s :
  sound s → tunnels s !! h = Some t → origin t' = origin t → Tunnel.answered (driver t') = Tunnel.answered (driver t) →
  (∀ i, i ∈ requests t' ++ Tunnel.pending (driver t') → (i < length (clients s))%nat) →
  sound (with_tunnels (<[h := t']> (tunnels s)) s).
Proof.
  intros [S1 S2 S3 S4 S5 S6] Ht Ho Ha Hreq. pose proof (lookup_lt_Some _ _ _ Ht) as Hlt.
  assert (origins (with_tunnels (<[h := t']> (tunnels s)) s) = origins s) as Eo.
  { unfold origins. cbn. rewrite list_fmap_insert, Ho. apply list_insert_id. by rewrite list_lookup_fmap, Ht. }
  split; rewrite ?Eo; cbn; try done.
  - intros h1 t1 i E Hi. destruct (decide (h = h1)) as [<-|].
    + rewrite list_lookup_insert_eq in E by done. injection E as <-. by apply Hreq.
    + rewrite list_lookup_insert_ne in E by done. by eapply S3.
  - intros h1 t1 i sid E Hi. destruct (decide (h = h1)) as [<-|].
    + rewrite list_lookup_insert_eq in E by done. injection E as <-. rewrite Ha in Hi. by eapply S4.
    + rewrite list_lookup_insert_ne in E by done. by eapply S4.
Qed.
Lemma drive_task_answers p t i sid :
  (i, Ok sid) ∈ Tunnel.answered (driver (drive_task p t)) →
  (i, Ok sid) ∈ Tunnel.answered (driver t) ∨ opened p (driver t) = Some i ∧ Tunnel.poll_new_outbound p = Tunnel.OutReady (Ok sid).
Proof.
  unfold drive_task, opened, Tunnel.drive_turn. destruct t as [rq [pd cl an] rn gd og], p as [pr po pi]. cbn.
  destruct cl, pr, pd as [|r pd], po as [[]|], pi; cbn; set_solver.
Qed.
Lemma drive_task_requests p t i :
  match Tunnel.poll_recv p with Tunnel.OpenReady r => head (requests t) = Some r | _ => True end →
  i ∈ requests (drive_task p t) ++ Tunnel.pending (driver (drive_task p t)) → i ∈ requests t ++ Tunnel.pending (driver t).
Proof.
  unfold drive_task, Tunnel.drive_turn. destruct t as [rq [pd cl an] rn gd og], p as [pr po pi]. cbn.
  destruct cl, pr, pd as [|x pd], po as [[]|], pi; cbn; intros Hh; destruct rq as [|y rq]; simplify_eq/=; set_solver.
Qed.
Lemma opened_requested p t i :
  match Tunnel.poll_recv p with Tunnel.OpenReady r => head (requests t) = Some r | _ => True end →
  opened p (driver t) = Some i → i ∈ requests t ++ Tunnel.pending (driver t).
Proof.
  unfold opened. destruct t as [rq [pd cl an] rn gd og], p as [pr po pi]. cbn.
  destruct cl, pr, pd as [|x pd], po as [[]|]; cbn; intros Hh; destruct rq as [|y rq]; simplify_eq/=; set_solver.
Qed.
Lemma sound_drive h t p s :
  sound s → tunnels s !! h = Some t → polls_ok h t p s → sound (driver_turns h t p s).
Proof.
  intros [S1 S2 S3 S4 S5 S6] Ht [Hrecv Hopen]. pose proof (lookup_lt_Some _ _ _ Ht) as Hlt.
  assert (match Tunnel.poll_recv p with Tunnel.OpenReady r => head (requests t) = Some r | _ => True end) as Hr by (by destruct (Tunnel.poll_recv p)).
  assert (origins (driver_turns h t p s) = origins s) as Eo.
  { unfold origins, driver_turns. cbn. rewrite list_fmap_insert, (proj2 (drive_task_guard p t)). apply list_insert_id. by rewrite list_lookup_fmap, Ht. }
  set (new := match opened p (driver t) with Some i => [{| st_tunnel := h; st_for := i; to_box := []; from_box := [] |}] | None => [] end).
  split; rewrite ?Eo; try done.
  - intros h1 t1 i E Hi. change (clients (driver_turns h t p s)) with (clients s). cbn in E. destruct (decide (h = h1)) as [<-|].
    + rewrite list_lookup_insert_eq in E by done. injection E as <-. eapply S3; [done|]. by eapply drive_task_requests.
    + rewrite list_lookup_insert_ne in E by done. by eapply S3.
  - intros h1 t1 i sid E Hi. change (streams (driver_turns h t p s)) with (streams s ++ new). cbn in E. destruct (decide (h = h1)) as [<-|].
    + rewrite list_lookup_insert_eq in E by done. injection E as <-. apply drive_task_answers in Hi as [Hi|[Ho Hp]].
      * destruct (S4 h t i sid Ht Hi) as (st & E1 & F). exists st. split; [by apply lookup_app_l_Some|done].
      * rewrite Hp in Hopen. subst sid new. rewrite Ho. rewrite list_lookup_middle by done. by eexists.
    + rewrite list_lookup_insert_ne in E by done. destruct (S4 h1 t1 i sid E Hi) as (st & E1 & F). exists st. split; [by apply lookup_app_l_Some|done].
  - intros sid st E. change (clients (driver_turns h t p s)) with (clients s). change (streams (driver_turns h t p s)) with (streams s ++ new) in E.
    apply lookup_app_Some in E as [E|[_ E]]; [by apply S5|]. unfold new in E. destruct (opened p (driver t)) as [i|] eqn:Ho; [|done].
    apply list_lookup_singleton_Some in E as [_ <-]. cbn. destruct (lookup_lt_is_Some_2 (clients s) i) as [c Hc]; [|exists c; by auto].
    eapply S3; [done|]. by eapply opened_requested.
  - intros i c E. change (streams (driver_turns h t p s)) with (streams s ++ new). eapply client_mono; [done| |by apply S6].
    intros sid st _ E1 _. by apply lookup_app_l_Some.
Qed.
Lemma answers_signed ch bs h (srv : AdapterServer nat) :
  match (accept_box_response ch bs h srv).1 with Ok _ | Err (AcceptRegistry _) => box_signed ch | _ => True end.
Proof.
  unfold accept_box_response. destruct (Auth.auth_response ch bs (nonces srv)) as [[[ar rest]|e] ns] eqn:E; [|done].
  apply Auth.auth_response_inv in E as (sig & _ & _ & _ & _ & -> & Hv). cbn [Auth.ar_registration Auth.authenticated_ik] in *.
  destruct (Tunnel.register _ _ h (registry srv)) as [[g|e] reg]; by exists sig.
Qed.
Lemma sound_answer j ch bs s : sound s → sound (control_answers j ch bs s).
Proof.
  intros [S1 S2 S3 S4 S5 S6]. unfold control_answers.
  pose proof (answers_registry ch bs (length (tunnels s)) (server s)) as Ha. pose proof (answers_signed ch bs (length (tunnels s)) (server s)) as Hb.
  destruct (accept_box_response ch bs _ (server s)) as [res srv]. cbn [fst] in Hb.
  set (new := match res with Ok g => [spawn ch (Some g)] | Err (AcceptRegistry _) => [spawn ch None] | Err _ => [] end).
  assert (∀ h t, new !! h = Some t → requests t = [] ∧ driver t = Tunnel.DriverState_new ∧ box_signed ch ∧ origin t = ch) as Hnew.
  { intros h t. unfold new. destruct res as [g|[]]; [|done|done|]; intros [_ <-]%list_lookup_singleton_Some; done. }
  split; cbn [tunnels streams clients server]; unfold origins; cbn [tunnels]; rewrite ?fmap_app.
  - apply Forall_app. split; [done|]. apply Forall_fmap, Forall_lookup. intros h t E. cbn. by destruct (Hnew h t E) as (_ & _ & Hs & ->).
  - intros n e E. unfold registry_of in E. cbn in E. destruct res as [g|e1].
    + destruct Ha as (a & Hr & ->). unfold Tunnel.register in Hr.
      destruct (match Tunnel.tunnels (registry (server s)) !! _ with Some _ => _ | None => _ end); [done|]. injection Hr as _ Hr.
      rewrite <- Hr in E. cbn in E. apply lookup_insert_Some in E as [[<- <-]|[_ E]].
      * exists ch. cbn. by rewrite list_lookup_middle by by rewrite length_fmap.
      * destruct (S2 n e E) as (ch1 & E1 & F). exists ch1. split; [by apply lookup_app_l_Some|done].
    + rewrite Ha in E. destruct (S2 n e E) as (ch1 & E1 & F). exists ch1. split; [by apply lookup_app_l_Some|done].
  - intros h t i E Hi. apply lookup_app_Some in E as [E|[_ E]]; [by eapply S3|]. destruct (Hnew _ _ E) as (H1 & H2 & _). rewrite H1, H2 in Hi. by apply elem_of_nil in Hi.
  - intros h t i sid E Hi. apply lookup_app_Some in E as [E|[_ E]]; [by eapply S4|]. destruct (Hnew _ _ E) as (_ & H2 & _). rewrite H2 in Hi. by apply elem_of_nil in Hi.
  - done.
  - intros i c E. eapply client_mono; [|done|by apply S6]. by apply prefix_app_r.
Qed.
Lemma peek_ok og str i c : client_ok og str i c → phase c = Accepted → client_ok og str i (peek c).
Proof.
  intros [Hi Hph] E. rewrite E in Hph. unfold peek.
  pose proof (Sni.peek_loop_spec [] (input c) ltac:(cbn [length]; lia) Hi) as Hspec. unfold Sni.peek_client_hello.
  destruct (Sni.peek_loop [] (input c)) as [[p|e] rest]; split; cbn; try done; [|by left].
  destruct Hspec as (Hc & Hb & _). cbn [app] in Hb. split; [done|]. split; [|done]. cbn [input at_phase].
  rewrite <- Hb. by apply Sni.try_parse_complete_app.
Qed.
Lemma find_tunnel_ok s i c p rest :
  sound s → client_ok (origins s) (streams s) i c → phase c = Peeked p rest →
  client_ok (origins s) (streams s) i (find_tunnel p rest (registry (server s)) c).
Proof.
  intros Hs Hok E. unfold find_tunnel, Tunnel.lookup_name.
  destruct (Tunnel.tunnels (registry (server s)) !! to_ascii_lowercase (Sni.server_name p)) as [e|] eqn:El; cbn; [|by apply client_return].
  unfold service_allowed. case_bool_decide as Hal; [|by apply client_return].
  destruct (so_registry s Hs _ e El) as (ch & E1 & E2 & E3 & _). destruct Hok as [Hi Hph]. rewrite E in Hph. destruct Hph as [Hu Hh].
  split; [done|]. cbn. split_and!; try done. exists ch, (Sni.server_name p). split_and!; [done|apply Hh|done|by rewrite <- E3].
Qed.
Lemma await_answered i t r : await_reply i t = Some r → ∀ sid, r = Ok sid → (i, Ok sid) ∈ Tunnel.answered (driver t).
Proof.
  unfold await_reply. destruct (list_find _ _) as [[k [j res]]|] eqn:E; [|destruct (running t); [done|by intros [= <-]]].
  apply list_find_Some in E as (Hk & Hj & _). cbn in Hj. subst j. intros [= <-] sid ->. by eapply list_elem_of_lookup_2.
Qed.
Lemma take_reply_sound s i c h p rest t r :
  sound s → clients s !! i = Some c → phase c = Waiting h p rest → tunnels s !! h = Some t → await_reply i t = Some r →
  sound (client_moves i (take_reply p rest r c) s).
Proof.
  intros Hs Hc E Ht Hr. pose proof (so_clients s Hs i c Hc) as Hok. destruct r as [sid|e]; cbn [take_reply].
  - destruct Hok as [Hi Hph]. rewrite E in Hph. destruct Hph as ([Hv Hg] & Hh & Hn).
    destruct (so_answers s Hs h t i sid Ht) as (st & Est & <- & Hf); [by eapply await_answered|].
    assert (∀ sid st, streams s !! sid = Some st → st_for st = i → to_box st = []) as Hempty.
    { intros sid1 st1 E1 F1. destruct (so_streams s Hs sid1 st1 E1) as (c1 & G1 & Hcase). rewrite F1 in G1. destruct Hcase; congruence. }
    eapply sound_client; [done|done| |].
    + split; [done|]. cbn. split; [done|]. exists sid, st. cbn. rewrite Hg. split_and!; try done; [apply prefix_nil|by eapply Hempty].
    + intros sid1 st1 E1 F1 _. right. by eapply Hempty.
  - eapply sound_client; [done|done|by apply client_return|done].
Qed.
(** A handler on its stream: where it goes next, with the bytes it wrote. *)
Lemma stream_write_sound s i c c' sid st b :
  sound s → clients s !! i = Some c → via c = Some sid → streams s !! sid = Some st →
  on_stream (origins s) (streams s) i c (λ _, True) → via c' = via c → got c' = got c → input c' = input c → service c' = service c →
  (match phase c' with
   | Splicing rest => to_box st ++ b ++ Sni.stream_bytes rest = Sni.stream_bytes (input c)
   | Returned _ => to_box st ++ b `prefix_of` Sni.stream_bytes (input c)
   | _ => False
   end) →
  sound (client_moves i c' (with_streams (<[sid := write_stream b st]> (streams s)) s)).
Proof.
  intros Hs Hc Hv Est (sid' & st' & H1 & H2 & H3 & H4 & H5 & _) Ev Eg Ei Es Hph.
  assert (sid' = sid) as -> by congruence. assert (st' = st) as -> by congruence. pose proof (lookup_lt_Some _ _ _ Est) as Hlt.
  eapply sound_client_stream; try done; [congruence|].
  pose proof (so_clients s Hs i c Hc) as [Hi _]. split; [by rewrite Ei|].
  assert (∀ P : Stream → Prop, P (write_stream b st) → on_stream (origins s) (<[sid := write_stream b st]> (streams s)) i c' P) as Hon.
  { intros P HP. exists sid, (write_stream b st). rewrite list_lookup_insert_eq by done. rewrite Ev, Eg. split_and!; try done.
    by eapply (names_mono (origins s) (origins s)). }
  destruct (phase c'); try done; [|right]; apply Hon; cbn; rewrite Ei; [by rewrite <- app_assoc|done].
Qed.
Lemma stream_bytes_cons b rest : Sni.stream_bytes (Sni.ReadBytes b :: rest) = b ++ Sni.stream_bytes rest.
Proof. done. Qed.
Lemma unread_bytes b rest : Sni.stream_bytes (unread b rest) = b ++ Sni.stream_bytes rest.
Proof. by destruct b. Qed.
Lemma on_stream_weaken og str i c (P Q : Stream → Prop) : (∀ st, P st → Q st) → on_stream og str i c P → on_stream og str i c Q.
Proof. intros H (sid & st & ? & ? & ? & ? & ? & ?). exists sid, st. naive_solver. Qed.
Lemma on_stream_at og str i c P sid st : on_stream og str i c P → via c = Some sid → str !! sid = Some st → P st.
Proof. intros (sid1 & st1 & H1 & H2 & _ & _ & _ & H6) Hv E. congruence. Qed.

Lemma step_sound s s' : step s s' → sound s → sound s'.
Proof.
  intros Hs S. destruct Hs as [bs nonce s _|j ch bs more s Hj Hgen|h t p s Ht Hrun Hp|h t g s Ht Hr Hgd|g gs' s Hc|svc stream s Hok|i c s Hc E|i c p rest s Hc E|i c h p rest t t' s Hc E Ht Hsend
    |i c h p rest t s Hc E _ _|i c h p rest t r s Hc E Ht Hr|i c p rest sid st s Hc E Hv Est|i c p rest sid st k e s Hc E Hv Est|i c b b' rest sid st s Hc E Hv Est|i c b rest sid st s Hc E Hv Est Hpre|i c rest s Hc E|sid st b s Est];
    try pose proof (so_clients s S i c Hc) as Hcl.
  - unfold control_arrives. unfold accept_box_challenge. destruct (Auth.auth_challenge bs nonce (nonces (server s))) as [res ns]. by destruct S.
  - by apply sound_answer.
  - by apply sound_drive.
  - assert (sound (with_tunnels (<[h := with_guard None t]> (tunnels s)) s)) as [] by (by eapply sound_tunnels; [| |..|intros i; apply (so_requests s S h t)]). done.
  - destruct S as [S1 S2 S3 S4 S5 S6]. split; try done. intros n e E. unfold registry_of in E. cbn in E.
    apply deregister_lookup in E as [E _]. by apply S2.
  - destruct S as [S1 S2 S3 S4 S5 S6]. split; cbn; try done.
    + intros h t i Ht Hi. rewrite length_app. specialize (S3 h t i Ht Hi). lia.
    + intros sid st E. destruct (S5 sid st E) as (c & Hc & H). exists c. split; [by apply lookup_app_l_Some|done].
    + intros i c [E|[_ [_ <-]%list_lookup_singleton_Some]]%lookup_app_Some; [by apply S6|]. by split.
  - eapply sound_client; [done|done|by apply peek_ok|]. unfold peek. by destruct (Sni.peek_client_hello _) as [[]].
  - eapply sound_client; [done|done|by apply find_tunnel_ok|]. unfold find_tunnel. by destruct (Tunnel.lookup_name _ _); [destruct (service_allowed _ _)|].
  - destruct (send_request_guard _ _ _ Hsend) as (_ & Ho & Hd & Hq).
    apply (sound_client i c _ (with_tunnels (<[h := t']> (tunnels s)) s)); [|done| |done].
    + eapply sound_tunnels; [done|done|done|by rewrite Hd|]. intros i1. rewrite Hd, Hq, <- app_assoc. intros Hi1.
      destruct (decide (i1 = i)) as [->|]; [by eapply lookup_lt_Some|]. eapply (so_requests s S h t); [done|]. set_solver.
    + replace (origins _) with (origins s).
      * destruct Hcl as [Hi Hph]. rewrite E in Hph. by split.
      * unfold origins. cbn. rewrite list_fmap_insert, Ho. symmetry. apply list_insert_id. by rewrite list_lookup_fmap, Ht.
  - eapply sound_client; [done|done|by apply client_return|done].
  - by eapply take_reply_sound.
  - destruct Hcl as [Hi Hph]. rewrite E in Hph. destruct Hph as [Hh Hon].
    eapply stream_write_sound; try done; [by eapply on_stream_weaken|]. cbn. rewrite (on_stream_at _ _ _ _ _ _ _ Hon Hv Est). apply Hh.
  - destruct Hcl as [Hi Hph]. rewrite E in Hph. destruct Hph as [Hh Hon].
    eapply stream_write_sound; try done; [by eapply on_stream_weaken|]. cbn. rewrite (on_stream_at _ _ _ _ _ _ _ Hon Hv Est).
    destruct Hh as [_ <-]. cbn. apply prefix_app_r. exists (drop k (Sni.raw p)). by rewrite take_drop.
  - destruct Hcl as [Hi Hph]. rewrite E in Hph.
    eapply stream_write_sound; try done; [by eapply on_stream_weaken|]. cbn. rewrite unread_bytes.
    pose proof (on_stream_at _ _ _ _ _ _ _ Hph Hv Est) as Hb. cbv beta in Hb. by rewrite stream_bytes_cons, <- app_assoc in Hb.
  - destruct Hcl as [Hi Hph]. rewrite E in Hph. eapply sound_client; [done|done| |done]. split; [done|]. cbn. rewrite E.
    destruct Hph as (sid1 & st1 & H1 & H2 & H3 & H4 & H5 & H6). exists sid1, st1. split_and!; try done. cbn. assert (st1 = st) as -> by congruence. done.
  - destruct Hcl as [Hi Hph]. rewrite E in Hph. eapply sound_client; [done|done| |done]. split; [done|]. cbn. right.
    eapply on_stream_weaken; [|exact Hph]. intros st Hb. exists (Sni.stream_bytes rest). symmetry. exact Hb.
  - by apply sound_box.
Qed.
Lemma reachable_sound s : rtc step System_new s → sound s.
Proof.
  intros Hr. assert (sound System_new) as H0 by by split.
  revert H0. induction Hr as [|s1 s2 s3 Hs _ IH]; [done|]. intros S. by apply IH, (step_sound s1).
Qed.
(** C3: What reaches a box and what reaches a client, in every interleaving of the whole
    adapter.  The bytes written to a stream are a prefix of what one client sent, its
    hello first and verbatim; the name in that hello is the one for which the box at
    the other end signed a challenge of this adapter, and the box offers the
    listener's service.  A client's bytes go to at most one stream, and what it gets
    back is a prefix of what the box wrote on that very stream. *)
Theorem client_and_box_only s :
  rtc step System_new s →
  (∀ sid st, streams s !! sid = Some st → to_box st ≠ [] →
     ∃ c t name, clients s !! st_for st = Some c ∧ via c = Some sid ∧ tunnels s !! st_tunnel st = Some t ∧
       to_box st `prefix_of` Sni.stream_bytes (input c) ∧
       Sni.try_parse (Sni.stream_bytes (input c)) = Ok (Sni.Complete name) ∧
       to_ascii_lowercase name = Tunnel.name (reg_of (origin t)) ∧
       service c ∈ Tunnel.allowed_services (reg_of (origin t)) ∧ box_signed (origin t)) ∧
  (∀ i c, clients s !! i = Some c → got c ≠ [] →
     ∃ sid st, via c = Some sid ∧ streams s !! sid = Some st ∧ st_for st = i ∧ got c `prefix_of` from_box st).
Proof.
  intros S%reachable_sound.
  assert (∀ i c, clients s !! i = Some c → unopened c ∨ on_stream (origins s) (streams s) i c (λ st, to_box st `prefix_of` Sni.stream_bytes (input c))) as Hcases.
  { intros i c Hc. destruct (so_clients s S i c Hc) as [_ Hph]. destruct (phase c) as [| | | | |rest|]; [naive_solver..| | |done]; right.
    - destruct Hph as [_ Hon]. eapply on_stream_weaken; [|exact Hon]. intros st ->. apply prefix_nil.
    - eapply on_stream_weaken; [|exact Hph]. intros st Hb. exists (Sni.stream_bytes rest). symmetry. exact Hb. }
  split.
  - intros sid st Est Hne. destruct (so_streams s S sid st Est) as (c & Hc & [Hv|]); [|done].
    destruct (Hcases _ c Hc) as [[? _]|Hon]; [congruence|]. destruct Hon as (sid1 & st1 & H1 & H2 & H3 & (ch & n & N1 & N2 & N3 & N4) & _ & H6).
    assert (sid1 = sid) as -> by congruence. assert (st1 = st) as -> by congruence.
    pose proof (Forall_lookup_1 _ _ _ _ (so_boxes s S) N1) as Hsig. unfold origins in N1. rewrite list_lookup_fmap in N1.
    destruct (tunnels s !! st_tunnel st) as [t|] eqn:Ht; [|done]. injection N1 as <-. exists c, t, n. by split_and!.
  - intros i c Hc Hg. destruct (Hcases i c Hc) as [[_ ?]|(sid & st & H1 & H2 & H3 & _ & H5 & _)]; [done|]. by exists sid, st.
Qed.

(** ** What a refused registration leaves *)

(** A box that authenticates but asks for a name that another identity holds is
    refused, and yet its tunnel task runs on, unregistered and with no guard, as long
    as the multiplexer's connection does not end: the driver does not stop when the
    last handle is dropped. *)
Theorem refused_box_keeps_task j ch bs e srv s (turns : list (Tunnel.Polls (Reply := nat) (Stream := nat))) :
  accept_box_response ch bs (length (tunnels s)) (server s) = (Err (AcceptRegistry e), srv) →
  Forall (λ p, Tunnel.poll_next_inbound p ≠ Tunnel.InEnd) turns →
  registry_of (control_answers j ch bs s) = registry_of s ∧
  tunnels (control_answers j ch bs s) !! length (tunnels s) = Some (spawn ch None) ∧
  running (foldl (flip drive_task) (spawn ch None) turns) = true.
Proof.
  intros Ha Ht. unfold registry_of, control_answers. pose proof (answers_registry ch bs (length (tunnels s)) (server s)) as Hreg.
  rewrite Ha in Hreg |- *. cbn. split; [done|]. rewrite list_lookup_middle by done. split; [done|].
  assert (running (spawn ch None) = true) as H0 by done. revert H0. generalize (spawn ch None).
  induction Ht as [|p ps Hp _ IH]; intros t Hr; [done|]. cbn. apply IH. unfold drive_task, Tunnel.drive_turn.
  destruct p as [pr po []]; [|done|]; repeat case_match; done.
Qed.
End system.
End Adapter.

(** ** Witnesses *)

(** One box registers, one client reaches it and gets an answer; a second identity asks
    for the same name; then the box's connection ends. *)
Module AdapterWitness.
Import Adapter Ingress.
#[local] Existing Instance AuthWitness.Short.identity.

Definition services : list string := ["443"%string].
Definition other : bytes := replicate 32 Byte.x09.
Definition nonce2 : bytes := replicate 32 Byte.x2b.
Definition announce (k : bytes) : bytes := Auth.box_announce k AuthWitness.reg services.
Definition challenged (k n : bytes) : Auth.Challenged :=
  {| Auth.ch_announce := {| Auth.claimed_ik := k; Auth.registration := AuthWitness.reg |}; Auth.ch_nonce := n |}.
Definition signature (k : bytes) : bytes := take 64 (k ++ k).
Definition idle : Tunnel.Polls (Reply := nat) (Stream := nat) :=
  {| Tunnel.poll_recv := Tunnel.OpenPending; Tunnel.poll_new_outbound := Tunnel.OutPending; Tunnel.poll_next_inbound := Tunnel.InPending |}.
Definition opens : Tunnel.Polls (Reply := nat) (Stream := nat) :=
  {| Tunnel.poll_recv := Tunnel.OpenReady 0; Tunnel.poll_new_outbound := Tunnel.OutReady (Ok 0); Tunnel.poll_next_inbound := Tunnel.InPending |}.
Definition ends : Tunnel.Polls (Reply := nat) (Stream := nat) :=
  {| Tunnel.poll_recv := Tunnel.OpenPending; Tunnel.poll_new_outbound := Tunnel.OutPending; Tunnel.poll_next_inbound := Tunnel.InEnd |}.
Definition hello_raw : bytes := Sni.encode_record (Byte.x03, Byte.x01) IngressWitness.hello.
Definition sent : list Sni.Read := [Sni.ReadBytes hello_raw; Sni.ReadBytes [Byte.x41; Byte.x42]].
Definition peeked : Sni.ClientHelloPeek := {| Sni.server_name := "A.Example"; Sni.raw := hello_raw |}.
Definition rest : list Sni.Read := [Sni.ReadBytes [Byte.x41; Byte.x42]].

Definition c0 : Client := accept_client "443" sent.
Definition c1 : Client := at_phase (Peeked peeked rest) c0.
Definition c2 : Client := at_phase (Found 0 peeked rest) c0.
Definition c3 : Client := at_phase (Waiting 0 peeked rest) c0.
Definition c4 : Client := take_reply peeked rest (Ok 0) c3.
Definition c5 : Client := at_phase (Splicing rest) c4.
Definition t0 : TunnelTask := spawn (challenged AuthWitness.key AuthWitness.nonce) (Some {| Tunnel.guard_name := "a.example"; Tunnel.guard_generation := 0 |}).
Definition t1 : TunnelTask := {| requests := [0]; driver := driver t0; running := true; guard := guard t0; origin := origin t0 |}.
Definition t2 : TunnelTask := drive_task opens t1.
Definition st0 : Stream := {| st_tunnel := 0; st_for := 0; to_box := []; from_box := [] |}.
Definition st1 : Stream := write_stream hello_raw st0.
Definition st2 : Stream := box_writes [Byte.x43] st1.

Definition s1 : System := control_arrives (announce AuthWitness.key) AuthWitness.nonce System_new.
Definition s2 : System := control_answers 0 (challenged AuthWitness.key AuthWitness.nonce) (signature AuthWitness.key) s1.
Definition s3 : System := control_arrives (announce other) nonce2 s2.
Definition s4 : System := {| server := server s3; controls := controls s3; tunnels := [t2]; cleanups := []; streams := [st2]; clients := [receive [Byte.x43] c5] |}.

Lemma run_to_s3 : rtc step System_new s3.
Proof.
  apply (rtc_l _ _ s1); [apply s_control; reflexivity|].
  apply (rtc_l _ _ s2); [apply (s_answer 0 (challenged AuthWitness.key AuthWitness.nonce) [] (signature AuthWitness.key) s1); vm_compute; reflexivity|].
  apply (rtc_l _ _ s3); [apply s_control; reflexivity|]. apply rtc_refl.
Defined.
Definition with_parts (ts : list TunnelTask) (str : list Stream) (cs : list Client) : System :=
  {| server := server s3; controls := controls s3; tunnels := ts; cleanups := []; streams := str; clients := cs |}.
Lemma sent_ok : Forall Sni.read_ok sent.
Proof. unfold sent. repeat apply Forall_cons_2; [..|apply Forall_nil_2]; apply (bool_decide_unpack _); vm_compute; exact I. Defined.
Lemma run_client : rtc step s3 s4.
Proof.
  apply (rtc_l _ _ (with_parts [t0] [] [c0])).
  { apply (s_accept "443" sent s3). exact sent_ok. }
  apply (rtc_l _ _ (with_parts [t0] [] [c1])).
  { replace c1 with (peek c0) by (vm_compute; reflexivity). apply (s_peek 0 c0 (with_parts [t0] [] [c0])); reflexivity. }
  apply (rtc_l _ _ (with_parts [t0] [] [c2])).
  { replace c2 with (find_tunnel peeked rest (registry (server s3)) c1) by (vm_compute; reflexivity).
    apply (s_lookup 0 c1 peeked rest (with_parts [t0] [] [c1])); reflexivity. }
  apply (rtc_l _ _ (with_parts [t1] [] [c3])); [apply (s_request 0 c2 0 peeked rest t0 t1 (with_parts [t0] [] [c2])); reflexivity|].
  apply (rtc_l _ _ (with_parts [t2] [st0] [c3])).
  { apply (s_drive 0 t1 opens (with_parts [t1] [] [c3])); [reflexivity..|split; reflexivity]. }
  apply (rtc_l _ _ (with_parts [t2] [st0] [c4])); [apply (s_reply 0 c3 0 peeked rest t2 (Ok 0) (with_parts [t2] [st0] [c3])); reflexivity|].
  apply (rtc_l _ _ (with_parts [t2] [st1] [c5])); [apply (s_write 0 c4 peeked rest 0 st0 (with_parts [t2] [st0] [c4])); reflexivity|].
  apply (rtc_l _ _ (with_parts [t2] [st2] [c5])); [apply (s_box 0 st1 [Byte.x43] (with_parts [t2] [st1] [c5])); reflexivity|].
  apply (rtc_l _ _ s4); [|apply rtc_refl].
  apply (s_down 0 c5 [Byte.x43] rest 0 st2 (with_parts [t2] [st2] [c5])); [reflexivity..|]. apply (bool_decide_unpack _). vm_compute. exact I.
Defined.
Lemma reachable_s4 : rtc step System_new s4.
Proof. transitivity s3; [exact run_to_s3|exact run_client]. Defined.

Lemma client_and_box_only_witness :
  ∃ c t name, clients s4 !! 0 = Some c ∧ got c = [Byte.x43] ∧ to_ascii_lowercase name = Tunnel.name (reg_of (origin t)) ∧ box_signed (origin t).
Proof.
  destruct (client_and_box_only s4 reachable_s4) as [H _].
  destruct (H 0 st2 eq_refl) as (c & t & name & Hc & _ & _ & _ & _ & Hn & _ & Hs); [discriminate|].
  exists c, t, name. split; [exact Hc|]. cbn in Hc. injection Hc as <-. split; [reflexivity|]. split; [exact Hn|exact Hs].
Defined.
Lemma adapter_refines_registry_witness :
  ∃ w, rtc Tunnel.world_step Tunnel.World_new w ∧ Tunnel.w_reg w = registry_of s4.
Proof. destruct (adapter_refines_registry s4 reachable_s4) as (w & H1 & H2 & _). exists w. split; [exact H1|exact H2]. Defined.
(** The box hangs up while its client is being served. *)
Definition t3 : TunnelTask := drive_task ends t2.
Definition s5 : System := with_parts [t3] [st2] [receive [Byte.x43] c5].
Lemma reachable_s5 : rtc step System_new s5.
Proof.
  apply (rtc_r _ s4 _); [exact reachable_s4|].
  apply (s_drive 0 t2 ends s4); [reflexivity..|split; exact I].
Defined.
Lemma ended_tunnels_are_released_witness :
  is_Some (Tunnel.tunnels (registry_of s5) !! "a.example"%string) ∧
  ∃ s', rtc cleanup_step s5 s' ∧
    ∀ n e, Tunnel.tunnels (registry_of s') !! n = Some e → ∃ t, tunnels s' !! Tunnel.handle e = Some t ∧ running t = true.
Proof.
  split; [eexists; vm_compute; reflexivity|].
  destruct (ended_tunnels_are_released s5 reachable_s5) as (s' & H1 & H2 & _). exists s'. split; [exact H1|exact H2].
Defined.
Lemma refused_box_keeps_task_witness :
  tunnels (control_answers 1 (challenged other nonce2) (signature other) s3) !! 1 = Some (spawn (challenged other nonce2) None) ∧
  running (foldl (flip drive_task) (spawn (challenged other nonce2) None) [idle; idle]) = true.
Proof.
  destruct (refused_box_keeps_task 1 (challenged other nonce2) (signature other) (Tunnel.OwnedByDifferentIdentity "a.example")
    (accept_box_response (challenged other nonce2) (signature other) 1 (server s3)).2 s3 [idle; idle]) as (_ & H1 & H2).
  - vm_compute. reflexivity.
  - repeat constructor; discriminate.
  - split; [exact H1|exact H2].
Defined.
End AdapterWitness.
