(* ===== verification/RelayServer.v ===== *)
(** * The libp2p relay server

    [crates/relay/src/server.rs]: the handle [RelayServer], its start, and the task
    that drives the swarm ([swarm_loop]).  libp2p is a parameter, the class [Libp2p]:
    its addresses and peers, what its swarm does with a call, and what it reports when
    polled.  The handle and the task share the command channel and the list of
    listeners; they run in any order, so a run is a list of actions, each of them one
    call on the handle, one turn of the task's [select!], or one half of dropping the
    handle (its fields drop in order: the sender first, the runtime last).  The trace of a
    run lists what was sent and which calls were made on the swarm, with what they gave;
    [swarm_run] says what such a trace makes of a swarm. *)

From Stdlib Require Import ZArith Lia String.
From stdpp Require Import base decidable option list strings.
From S2P Require Import Prelude.
Local Open Scope Z_scope.

(** What the code takes from libp2p: a fresh swarm may fail to build, listening may
    fail, and a poll, given what the network does meanwhile, yields one event. *)
Class Libp2p := {
  Multiaddr : Type;
  PeerId : Type;
  Swarm : Type;
  Keys : Type;
  Network : Type;
  with_p2p : PeerId → Multiaddr → option Multiaddr;
  new_swarm : Keys → string → Z → option Swarm;
  listen_on : Multiaddr → Swarm → option Swarm;
  swarm_add_external_address : Multiaddr → Swarm → Swarm;
  local_peer_id : Swarm → PeerId;
  select_next_some : Network → Swarm → option Multiaddr * Swarm;
}.
(** A swarm keeps the peer id it was built with. *)
Class Libp2pLaws (L : Libp2p) := {
  listen_on_peer a s s' : listen_on a s = Some s' → local_peer_id s' = local_peer_id s;
  add_external_peer a s : local_peer_id (swarm_add_external_address a s) = local_peer_id s;
  select_peer n s : local_peer_id (select_next_some n s).2 = local_peer_id s;
}.

Module RelayServer.
Section relay.
Context `{L : Libp2p}.

Definition IDLE_TIMEOUT : Z := 60.
Definition IDENTIFY_PROTOCOL : string := "/ephor/relay/id/1.0.0".

Inductive Command := AddExternalAddress (addr : Multiaddr).
Inductive BuildError := RuntimeFailed | SwarmFailed | ListenFailed (addr : Multiaddr).

(** The handle with what it shares with the task.  [sender] says that [cmd_tx] has not
    been dropped; [task] is the swarm inside the running task, [None] once it is gone. *)
Record RelayServer := {
  peer_id : PeerId;
  commands : list Command;
  sender : bool;
  listeners : list Multiaddr;
  task : option Swarm;
}.

(** ** Start *)

Definition build_swarm (k : Keys) : result BuildError Swarm := ok_or SwarmFailed (new_swarm k IDENTIFY_PROTOCOL IDLE_TIMEOUT).
Fixpoint listen_all (addrs : list Multiaddr) (s : Swarm) : result BuildError Swarm :=
  match addrs with
  | [] => Ok s
  | a :: addrs => s ← ok_or (ListenFailed a) (listen_on a s); listen_all addrs s
  end.
Definition start (runtime_built : bool) (k : Keys) (addrs : list Multiaddr) : result BuildError RelayServer :=
  if runtime_built then
    s ← build_swarm k;
    s ← listen_all addrs s;
    Ok {| peer_id := local_peer_id s; commands := []; sender := true; listeners := []; task := Some s |}
  else Err RuntimeFailed.

(** ** The calls on the handle and the turns of the task *)

(** An address sent to the task; an address the swarm is given; a poll of the swarm and the
    event it gave, if it was a new listen address. *)
Inductive Obs := Sent (a : Multiaddr) | Applied (a : Multiaddr) | Polled (n : Network) (event : option Multiaddr).

Definition with_task (t : option Swarm) (r : RelayServer) : RelayServer :=
  {| peer_id := peer_id r; commands := commands r; sender := sender r; listeners := listeners r; task := t |}.
(** A command sent to a task that is gone is dropped with the error. *)
Definition add_external_address (a : Multiaddr) (r : RelayServer) : RelayServer :=
  {| peer_id := peer_id r; commands := if task r then commands r ++ [AddExternalAddress a] else commands r;
     sender := sender r; listeners := listeners r; task := task r |}.
(** [cmd_rx.recv()]: the oldest command; [None] once the queue is empty and the sender
    gone, which ends the task; otherwise it is pending. *)
Definition recv_turn (s : Swarm) (r : RelayServer) : RelayServer * list Obs :=
  match commands r with
  | AddExternalAddress a :: cs =>
      ({| peer_id := peer_id r; commands := cs; sender := sender r; listeners := listeners r;
          task := Some (swarm_add_external_address a s) |}, [Applied a])
  | [] => (if sender r then r else with_task None r, [])
  end.
Definition full_address (p : PeerId) (a : Multiaddr) : Multiaddr := default a (with_p2p p a).
Definition event_turn (n : Network) (s : Swarm) (r : RelayServer) : RelayServer * list Obs :=
  let '(event, s) := select_next_some n s in
  match event with
  | Some a =>
      ({| peer_id := peer_id r; commands := commands r; sender := sender r;
          listeners := listeners r ++ [full_address (local_peer_id s) a]; task := Some s |}, [Polled n event])
  | None => (with_task (Some s) r, [Polled n event])
  end.

(** [shutdown], and going out of scope: the sender is dropped, then the runtime, which
    takes the task with it. *)
Definition drop_sender (r : RelayServer) : RelayServer :=
  {| peer_id := peer_id r; commands := commands r; sender := false; listeners := listeners r; task := task r |}.
Definition drop_runtime (r : RelayServer) : RelayServer := if sender r then r else with_task None r.

Inductive Action := CallAdd (a : Multiaddr) | TurnRecv | TurnEvent (n : Network) | DropSender | DropRuntime.
Definition loop_turn (turn : Swarm → RelayServer → RelayServer * list Obs) (r : RelayServer) : RelayServer * list Obs :=
  match task r with Some s => turn s r | None => (r, []) end.
(** A call needs the handle, so nothing is called once it is being dropped. *)
Definition act (x : Action) (r : RelayServer) : RelayServer * list Obs :=
  match x with
  | CallAdd a => if sender r then (add_external_address a r, [Sent a]) else (r, [])
  | TurnRecv => loop_turn recv_turn r
  | TurnEvent n => loop_turn (event_turn n) r
  | DropSender => (drop_sender r, [])
  | DropRuntime => (drop_runtime r, [])
  end.
Fixpoint run (xs : list Action) (r : RelayServer) : RelayServer * list Obs :=
  match xs with
  | [] => (r, [])
  | x :: xs => let '(r, o) := act x r in let '(r, os) := run xs r in (r, o ++ os)
  end.

(** ** Waiting for a listener *)

(** [wait_for_listener]: at its [i]-th look the thread reads [looks i] and, when that is
    empty, the clock, [clock i] milliseconds; [None] is a wait that goes on. *)
Fixpoint wait_loop (fuel : nat) (deadline : Z) (looks : nat → list Multiaddr) (clock : nat → Z) (i : nat) : option (list Multiaddr) :=
  match fuel with
  | O => None
  | S fuel =>
      match looks i with
      | [] => if deadline <=? clock i then Some [] else wait_loop fuel deadline looks clock (S i)
      | ls => Some ls
      end
  end.
Definition wait_for_listener (fuel : nat) (now timeout : Z) (looks : nat → list Multiaddr) (clock : nat → Z) : option (list Multiaddr) :=
  wait_loop fuel (now + timeout) looks clock 0.

(** ** What a run shows *)

Definition sent : list Obs → list Multiaddr := omap (λ o, match o with Sent a => Some a | _ => None end).
Definition applied : list Obs → list Multiaddr := omap (λ o, match o with Applied a => Some a | _ => None end).
Definition reported : list Obs → list Multiaddr := omap (λ o, match o with Polled _ event => event | _ => None end).
(** The calls of a trace, made on [s] in order, give the events of the trace and leave
    [s']. *)
Fixpoint swarm_run (os : list Obs) (s s' : Swarm) : Prop :=
  match os with
  | [] => s' = s
  | Sent _ :: os => swarm_run os s s'
  | Applied a :: os => swarm_run os (swarm_add_external_address a s) s'
  | Polled n event :: os => event = (select_next_some n s).1 ∧ swarm_run os (select_next_some n s).2 s'
  end.
(** The addresses declared while there is a handle to declare them on. *)
Fixpoint declared (alive : bool) (xs : list Action) : list Multiaddr :=
  match xs with
  | [] => []
  | CallAdd a :: xs => (if alive then [a] else []) ++ declared alive xs
  | DropSender :: xs => declared false xs
  | _ :: xs => declared alive xs
  end.
Definition queued (r : RelayServer) : list Multiaddr := (λ '(AddExternalAddress a), a) <$> commands r.
(** The polls of a trace, and those the turns of a running task ask for. *)
Definition polled : list Obs → list Network := omap (λ o, match o with Polled n _ => Some n | _ => None end).
Definition event_turns : list Action → list Network := omap (λ x, match x with TurnEvent n => Some n | _ => None end).
(** The addresses that wait for a task that takes one at each turn for commands. *)
Fixpoint backlog (alive : bool) (q : list Multiaddr) (xs : list Action) : list Multiaddr :=
  match xs with
  | [] => q
  | CallAdd a :: xs => backlog alive (if alive then q ++ [a] else q) xs
  | TurnRecv :: xs => backlog alive (tail q) xs
  | DropSender :: xs => backlog false q xs
  | _ :: xs => backlog alive q xs
  end.

Section laws.
Context `{LL : !Libp2pLaws L}.

(** A handle that has not been dropped has a running task, and the task's swarm has the
    handle's peer id. *)
Record sound (r : RelayServer) : Prop := {
  so_alive : sender r = true → is_Some (task r);
  so_peer s : task r = Some s → local_peer_id s = peer_id r;
}.
Lemma listen_all_peer addrs s s' : listen_all addrs s = Ok s' → local_peer_id s' = local_peer_id s.
Proof.
  revert s. induction addrs as [|a addrs IH]; intros s; [by intros [= ->]|]. cbn.
  destruct (listen_on a s) as [s1|] eqn:E; [|done]. cbn. intros H. by rewrite (IH _ H), (listen_on_peer a s s1).
Qed.
Lemma start_sound b k addrs r :
  start b k addrs = Ok r →
  sound r ∧ listeners r = [] ∧ queued r = [] ∧ sender r = true ∧
  ∃ s0 s, build_swarm k = Ok s0 ∧ listen_all addrs s0 = Ok s ∧ task r = Some s.
Proof.
  unfold start. destruct b; [|done]. destruct (build_swarm k) as [s0|]; [|done]. cbn.
  destruct (listen_all addrs s0) as [s|] eqn:E; [|done]. cbn. intros [= <-].
  split; [split; cbn; [by eexists|by intros ? [= ->]]|]. split_and!; try done. by exists s0, s.
Qed.
Lemma swarm_run_app os1 os2 s s1 s2 : swarm_run os1 s s1 → swarm_run os2 s1 s2 → swarm_run (os1 ++ os2) s s2.
Proof.
  revert s. induction os1 as [|[a|a|n e] os1 IH]; intros s; cbn.
  - by intros ->.
  - apply IH.
  - apply IH.
  - intros [-> H1] H2. split; [done|]. by apply IH.
Qed.
(** The calls that an action's trace lists were made on the swarm the task had, and the
    task has what they leave, as long as it runs. *)
Lemma act_swarm x r s : task r = Some s → ∃ s', swarm_run (act x r).2 s s' ∧ (∀ t, task (act x r).1 = Some t → t = s').
Proof.
  intros Ht. destruct x as [a| |n| |]; cbn; unfold loop_turn, drop_runtime; rewrite ?Ht.
  - exists s. destruct (sender r); cbn; (split; [done|intros; congruence]).
  - unfold recv_turn. destruct (commands r) as [|[a] cs]; cbn.
    + exists s. split; [done|]. destruct (sender r); cbn; intros; congruence.
    + exists (swarm_add_external_address a s). split; [done|intros; congruence].
  - unfold event_turn. destruct (select_next_some n s) as [[a|] s'] eqn:Es; cbn; exists s'; rewrite Es; (split; [done|intros; congruence]).
  - exists s. split; [done|intros; congruence].
  - exists s. destruct (sender r); cbn; (split; [done|intros; congruence]).
Qed.
(** Once the task is gone, the swarm is left alone. *)
Lemma act_gone x r : task r = None → task (act x r).1 = None ∧ ∀ s, swarm_run (act x r).2 s s.
Proof.
  intros Hn. destruct x as [a| |n| |]; cbn; unfold loop_turn, drop_runtime; rewrite ?Hn; try done; by destruct (sender r).
Qed.
Lemma run_gone xs r : task r = None → task (run xs r).1 = None.
Proof.
  revert r. induction xs as [|x xs IH]; intros r Hn; [done|]. cbn. destruct (act_gone x r Hn) as [H1 _].
  destruct (act x r) as [r1 o]. specialize (IH r1 H1). by destruct (run xs r1).
Qed.
Lemma run_gone_swarm xs r s : task r = None → swarm_run (run xs r).2 s s.
Proof.
  revert r. induction xs as [|x xs IH]; intros r Hn; [done|]. cbn. destruct (act_gone x r Hn) as [H1 H2].
  destruct (act x r) as [r1 o]. specialize (IH r1 H1). destruct (run xs r1). by eapply swarm_run_app.
Qed.
Lemma run_swarm xs r s : task r = Some s → ∃ s', swarm_run (run xs r).2 s s' ∧ (∀ t, task (run xs r).1 = Some t → t = s').
Proof.
  revert r s. induction xs as [|x xs IH]; intros r s Ht.
  - exists s. split; [done|]. cbn. rewrite Ht. by intros ? [= ->].
  - cbn. destruct (act_swarm x r s Ht) as (s1 & R1 & T1). destruct (act x r) as [r1 o]. cbn [fst snd] in R1, T1.
    destruct (task r1) as [t1|] eqn:Et1.
    + destruct (IH r1 t1 Et1) as (s2 & R2 & T2). rewrite (T1 t1 eq_refl) in R2. destruct (run xs r1) as [r2 os].
      exists s2. split; [by eapply swarm_run_app|done].
    + pose proof (run_gone xs r1 Et1) as G1. pose proof (run_gone_swarm xs r1 s1 Et1) as G2. destruct (run xs r1) as [r2 os]. cbn [fst snd] in *.
      exists s1. split; [by eapply swarm_run_app|]. rewrite G1. done.
Qed.
Lemma act_sent x r : sent (act x r).2 = declared (sender r) [x] ∧ sender (act x r).1 = match x with DropSender => false | _ => sender r end.
Proof.
  destruct x as [a| |n| |]; cbn; unfold loop_turn.
  - destruct (sender r) eqn:E; cbn; by rewrite ?E.
  - destruct (task r); [|done]. unfold recv_turn. destruct (commands r) as [|[a] cs]; [|done]. cbn. by destruct (sender r) eqn:E; cbn; rewrite ?E.
  - destruct (task r) as [s|]; [|done]. unfold event_turn. by destruct (select_next_some n s) as [[a|] s'].
  - done.
  - unfold drop_runtime. by destruct (sender r) eqn:E; cbn; rewrite ?E.
Qed.
Lemma run_sent xs r r' os : run xs r = (r', os) → sent os = declared (sender r) xs.
Proof.
  revert r os. induction xs as [|x xs IH]; intros r os; cbn [run]; [by intros [= _ <-]|].
  pose proof (act_sent x r) as [H1 H2]. destruct (act x r) as [r1 o]. destruct (run xs r1) as [r2 os2] eqn:E. intros [= <- <-].
  cbn [fst snd] in H1, H2. unfold sent in *. rewrite omap_app, H1, (IH _ _ E), H2. destruct x; cbn; by rewrite ?app_nil_r.
Qed.
(** One action: the peer id stays, the listeners grow by what was reported, and what
    was sent joins the queue behind what the swarm is given next. *)
Definition act_spec (r r' : RelayServer) (os : list Obs) : Prop :=
  sound r' ∧ peer_id r' = peer_id r ∧ listeners r' = listeners r ++ (full_address (peer_id r) <$> reported os) ∧
  queued r ++ sent os = applied os ++ queued r'.
Lemma unchanged_spec r : sound r → act_spec r r [].
Proof. intros S. unfold act_spec. cbn. by rewrite !app_nil_r. Qed.
(** The task going on, or gone with its sender. *)
Lemma with_task_spec r t :
  sound r → (t = None → sender r = false) → (∀ s, t = Some s → local_peer_id s = peer_id r) → act_spec r (with_task t r) [].
Proof.
  intros S Hn Hs. unfold act_spec, queued. cbn. rewrite !app_nil_r. split; [|done]. split; cbn; [|done].
  intros E. destruct t; [by eexists|]. rewrite Hn in E; done.
Qed.
Lemma add_spec a r : sound r → sender r = true → act_spec r (add_external_address a r) [Sent a].
Proof.
  intros [Hal Hp] E. destruct (Hal E) as [s Hs]. unfold act_spec, queued, add_external_address. rewrite Hs. cbn.
  rewrite fmap_app, app_nil_r. split; [|done]. split; cbn; [by eexists|]. rewrite <- Hs. apply Hp.
Qed.
Lemma recv_spec s r : sound r → task r = Some s → act_spec r (recv_turn s r).1 (recv_turn s r).2.
Proof.
  intros S Ht. unfold recv_turn. destruct (commands r) as [|[a] cs] eqn:Ec; cbn.
  - destruct (sender r) eqn:E; [by apply unchanged_spec|]. by apply with_task_spec.
  - unfold act_spec, queued. cbn. rewrite Ec, !app_nil_r. split; [|done]. split; cbn; [by eexists|].
    intros ? [= <-]. rewrite add_external_peer. by apply S.
Qed.
Lemma event_spec n s r : sound r → task r = Some s → act_spec r (event_turn n s r).1 (event_turn n s r).2.
Proof.
  intros S Ht. pose proof (select_peer n s) as Hq. rewrite (so_peer r S s Ht) in Hq.
  unfold event_turn. destruct (select_next_some n s) as [[a|] s']; cbn in *.
  - unfold act_spec, queued. cbn. rewrite Hq, !app_nil_r. split; [|done]. split; cbn; [by eexists|by intros ? [= <-]].
  - apply with_task_spec; [done|done|by intros ? [= <-]].
Qed.
Lemma act_sound x r : sound r → act_spec r (act x r).1 (act x r).2.
Proof.
  intros S. destruct x as [a| |n| |]; cbn.
  - destruct (sender r) eqn:E; [by apply add_spec|by apply unchanged_spec].
  - unfold loop_turn. destruct (task r) eqn:Et; [by apply recv_spec|by apply unchanged_spec].
  - unfold loop_turn. destruct (task r) eqn:Et; [by apply event_spec|by apply unchanged_spec].
  - unfold act_spec, queued. cbn. rewrite !app_nil_r. split; [|done]. split; [done|apply S].
  - unfold drop_runtime. destruct (sender r) eqn:E; [by apply unchanged_spec|by apply with_task_spec].
Qed.
Lemma run_spec xs r r' os : run xs r = (r', os) → sound r → act_spec r r' os.
Proof.
  revert r os. induction xs as [|x xs IH]; intros r os; cbn.
  - intros [= <- <-] S. unfold act_spec. cbn. rewrite !app_nil_r. by split.
  - destruct (act x r) as [r1 o] eqn:E1, (run xs r1) as [r2 os2] eqn:E2. intros [= <- <-] S.
    pose proof (act_sound x r S) as H. rewrite E1 in H. cbn [fst snd] in H. destruct H as (S1 & P1 & L1 & Q1). destruct (IH _ _ E2 S1) as (S2 & P2 & L2 & Q2).
    unfold act_spec, sent, applied, reported in *. rewrite !omap_app. split; [done|]. split; [by rewrite P2|]. split.
    + by rewrite L2, L1, P1, fmap_app, <- app_assoc.
    + by rewrite app_assoc, Q1, <- app_assoc, Q2, app_assoc.
Qed.

(** A task that still runs has taken every turn. *)
Lemma run_turns xs r r' os :
  run xs r = (r', os) → is_Some (task r') → polled os = event_turns xs ∧ queued r' = backlog (sender r) (queued r) xs.
Proof.
  revert r os. induction xs as [|x xs IH]; intros r os; cbn [run]; [by intros [= <- <-]|].
  destruct (act x r) as [r1 o] eqn:E1. destruct (run xs r1) as [r2 os2] eqn:E2. intros [= <- <-] Hend.
  destruct (IH _ _ E2 Hend) as [H1 H2]. destruct (task r) as [s|] eqn:Et.
  2: { pose proof (run_gone (x :: xs) r Et) as Hg. cbn in Hg. rewrite E1, E2 in Hg. cbn in Hg. rewrite Hg in Hend. by destruct Hend. }
  unfold polled, event_turns in *. rewrite omap_app, H1, H2. clear H1 H2 IH E2 Hend.
  destruct x as [a| |n| |]; cbn in E1; unfold loop_turn, drop_runtime in E1; rewrite ?Et in E1.
  - unfold add_external_address, queued in *. destruct (sender r) eqn:Es; injection E1 as <- <-; cbn; [|by rewrite ?Es].
    rewrite ?Es, Et, fmap_app. done.
  - unfold recv_turn, queued in *. destruct (commands r) as [|[a] cs] eqn:Ec; injection E1 as <- <-; [|done].
    destruct (sender r) eqn:Es; cbn; by rewrite ?Es, Ec.
  - unfold event_turn in E1. by destruct (select_next_some n s) as [[a|] s']; injection E1 as <- <-.
  - by injection E1 as <- <-.
  - destruct (sender r) eqn:Es; injection E1 as <- <-; cbn; by rewrite ?Es.
Qed.

(** C35: In every run of a started relay, the task's swarm is the one that was built and
    told to listen, after exactly the calls of the trace: the polls, each of which gave the
    event the trace has, and the external addresses applied.  The addresses declared on
    the handle are those applied, once each and in order, followed by those still queued.
    As long as the handle lives its task runs, and a task that runs has polled at every
    turn for an event and applied an address at every turn for a command that found one.
    The listeners are the addresses the swarm reported, in order: each extended with the
    peer id that the handle hands out, or as reported where libp2p refuses that. *)
Theorem relay_listeners_and_commands b k addrs r0 xs r os :
  start b k addrs = Ok r0 → run xs r0 = (r, os) →
  (∃ built s0 s, build_swarm k = Ok built ∧ listen_all addrs built = Ok s0 ∧ swarm_run os s0 s ∧ (∀ t, task r = Some t → t = s)) ∧
  declared true xs = applied os ++ queued r ∧ (sender r = true → is_Some (task r)) ∧
  (is_Some (task r) → polled os = event_turns xs ∧ queued r = backlog true [] xs) ∧
  peer_id r = peer_id r0 ∧
  listeners r = ((λ a, match with_p2p (peer_id r0) a with Some full => full | None => a end) <$> reported os).
Proof.
  intros (S & Hl & Hq & Hs & built & s0 & Hb & Hls & Ht)%start_sound Hr. destruct (run_spec _ _ _ _ Hr S) as (S' & HP & HL & HQ).
  rewrite Hl in HL. rewrite Hq in HQ. pose proof (run_sent _ _ _ _ Hr) as Hd. rewrite Hs in Hd. rewrite <- Hd.
  split; [|split_and!; try done; [apply S'|]; rewrite <- Hq, <- Hs; by apply run_turns].
  destruct (run_swarm xs r0 s0 Ht) as (s & R1 & R2). rewrite Hr in R1, R2. by exists built, s0, s.
Qed.

(** ** The end of the task *)

Lemma run_recv_drains cs r s :
  commands r = cs → sender r = false → task r = Some s →
  task (run (replicate (S (length cs)) TurnRecv) r).1 = None ∧ applied (run (replicate (S (length cs)) TurnRecv) r).2 = queued r.
Proof.
  revert r s. induction cs as [|[a] cs IH]; intros r s Ec Es Et; rewrite replicate_S; cbn [run act]; unfold loop_turn;
    rewrite Et; unfold recv_turn, queued; rewrite Ec.
  - by rewrite Es.
  - set (r1 := {| commands := cs |}). destruct (IH r1 _ eq_refl Es eq_refl) as [H1 H2].
    change (length (AddExternalAddress a :: cs)) with (S (length cs)).
    destruct (run (replicate (S (length cs)) TurnRecv) r1) as [r2 os2]. split; [done|]. unfold applied in *. cbn in *. by rewrite H2.
Qed.
(** After the handle's sender is dropped, the task tells the swarm every address still
    queued and then ends by itself, in one turn more than there are commands; dropping
    the runtime ends it at once, queued commands and all. *)
Theorem relay_task_ends r s :
  task r = Some s →
  task (run (DropSender :: replicate (S (length (commands r))) TurnRecv) r).1 = None ∧
  applied (run (DropSender :: replicate (S (length (commands r))) TurnRecv) r).2 = queued r ∧
  task (run [DropSender; DropRuntime] r).1 = None.
Proof.
  intros Ht. destruct (run_recv_drains (commands r) (drop_sender r) s eq_refl eq_refl Ht) as [H1 H2].
  cbn [run act]. destruct (run _ (drop_sender r)) as [r2 os2]. done.
Qed.
End laws.

Lemma wait_loop_now fuel deadline looks clock i :
  looks i ≠ [] ∨ deadline ≤ clock i → wait_loop (S fuel) deadline looks clock i = Some (looks i).
Proof. intros H. cbn. destruct (looks i); [|done]. destruct H as [|H]; [done|]. by rewrite (proj2 (Z.leb_le _ _) H). Qed.
Lemma wait_loop_stops deadline looks clock d : ∀ i,
  looks (i + d)%nat ≠ [] ∨ deadline ≤ clock (i + d)%nat →
  ∃ m, (i ≤ m ≤ i + d)%nat ∧ (∀ fuel, (m < i + fuel)%nat → wait_loop fuel deadline looks clock i = Some (looks m)) ∧
    (∀ j, (i ≤ j < m)%nat → looks j = []) ∧ (looks m = [] → deadline ≤ clock m).
Proof.
  assert (∀ n i, looks i ≠ [] ∨ deadline ≤ clock i →
    ∃ m, (i ≤ m ≤ i + n)%nat ∧ (∀ fuel, (m < i + fuel)%nat → wait_loop fuel deadline looks clock i = Some (looks m)) ∧
    (∀ j, (i ≤ j < m)%nat → looks j = []) ∧ (looks m = [] → deadline ≤ clock m)) as Hnow.
  { intros n i Hi. exists i. split_and!; [lia|lia| |lia|naive_solver]. intros [|fuel] Hf; [lia|]. by apply wait_loop_now. }
  induction d as [|d IH]; intros i Hs; [apply Hnow; by rewrite Nat.add_0_r in Hs|].
  destruct (decide (deadline ≤ clock i)); [apply Hnow; by right|].
  destruct (looks i) eqn:Ei; [|apply Hnow; left; by rewrite Ei].
  destruct (IH (S i)) as (m & Hm & Hw & Hb & Hd); [by rewrite Nat.add_succ_comm|].
  exists m. split_and!; [lia|lia| |intros j Hj; destruct (decide (j = i)) as [->|]; [done|apply Hb; lia]|done].
  intros [|fuel] Hf; [lia|]. cbn. rewrite Ei, (proj2 (Z.leb_gt _ _)) by lia. apply Hw. lia.
Qed.
Lemma clock_advances clock : (∀ i, clock i + 10 ≤ clock (S i)) → ∀ n, clock 0%nat + 10 * Z.of_nat n ≤ clock n.
Proof. intros H. induction n as [|n IH]; [lia|]. specialize (H n). lia. Qed.
(** Each sleep takes at least ten milliseconds, so the wait ends after at most
    [timeout / 10 + 2] looks: with the listeners of its first look that finds some, or
    empty once the deadline has passed. *)
Theorem wait_for_listener_returns now timeout looks clock :
  0 ≤ timeout → now ≤ clock 0%nat → (∀ i, clock i + 10 ≤ clock (S i)) →
  ∃ i, (i ≤ Z.to_nat (timeout / 10 + 1))%nat ∧
    (∀ fuel, (i < fuel)%nat → wait_for_listener fuel now timeout looks clock = Some (looks i)) ∧
    (∀ j, (j < i)%nat → looks j = []) ∧ (looks i = [] → now + timeout ≤ clock i).
Proof.
  intros Ht H0 Hc. pose proof (clock_advances clock Hc) as Hadv.
  destruct (wait_loop_stops (now + timeout) looks clock (Z.to_nat (timeout / 10 + 1)) 0) as (m & Hm & Hw & Hb & Hd).
  - right. specialize (Hadv (Z.to_nat (timeout / 10 + 1))). pose proof (Z.div_mod timeout 10). pose proof (Z.mod_pos_bound timeout 10). cbn. lia.
  - exists m. split_and!; [lia|intros fuel Hf; by apply Hw|intros j Hj; apply Hb; lia|done].
Qed.
End relay.
End RelayServer.

(** ** Witnesses *)

(** A libp2p whose addresses are lists of components and whose swarm reports the
    addresses it listens on. *)
Module RelayWitness.
Import RelayServer.
Record ToySwarm := { toy_peer : nat; toy_external : list (list string); toy_pending : list (list string) }.
#[local] Instance toy : Libp2p := {|
  Multiaddr := list string; PeerId := nat; Swarm := ToySwarm; Keys := nat; Network := unit;
  with_p2p p a := match last a with Some "relay"%string => None | _ => Some (a ++ ["p2p"%string]) end;
  new_swarm k _ _ := Some {| toy_peer := k; toy_external := []; toy_pending := [] |};
  listen_on a s := match a with [] => None | _ => Some {| toy_peer := toy_peer s; toy_external := toy_external s; toy_pending := toy_pending s ++ [a] |} end;
  swarm_add_external_address a s := {| toy_peer := toy_peer s; toy_external := toy_external s ++ [a]; toy_pending := toy_pending s |};
  local_peer_id := toy_peer;
  select_next_some _ s :=
    match toy_pending s with
    | [] => (None, s)
    | a :: l => (Some a, {| toy_peer := toy_peer s; toy_external := toy_external s; toy_pending := l |})
    end;
|}.
#[local] Instance toy_laws : Libp2pLaws toy.
Proof.
  split; cbn.
  - intros [|c a] s s'; [done|]. by intros [= <-].
  - done.
  - intros _ s. by destruct (toy_pending s).
Qed.
Definition lan : list string := ["ip4"; "tcp"]%string.
Definition wan : list string := ["ip4"; "tcp"; "relay"]%string.
Definition actions : list (Action (L := toy)) := [CallAdd wan; TurnEvent tt; TurnRecv; CallAdd lan; TurnEvent tt; TurnEvent tt; DropSender; CallAdd wan].
Lemma relay_listeners_and_commands_witness :
  ∃ r0 r os, start true 7%nat [lan; wan] = Ok r0 ∧ run actions r0 = (r, os) ∧ peer_id r = 7%nat ∧
    task r = Some {| toy_peer := 7; toy_external := [wan]; toy_pending := [] |} ∧
    [wan; lan] = applied os ++ queued r ∧ applied os = [wan] ∧
    listeners r = [["ip4"; "tcp"; "p2p"]; wan]%string.
Proof.
  assert (∃ r0, start true 7%nat [lan; wan] = Ok r0) as [r0 E] by (eexists; reflexivity).
  destruct (run actions r0) as [r os] eqn:Er.
  destruct (relay_listeners_and_commands (L := toy) true 7%nat [lan; wan] r0 actions r os E Er)
    as ((built & s0 & s & Hb & Hl & Hs & Ht) & H2 & _ & _ & H4 & H5).
  injection E as <-. vm_compute in Er. injection Er as <- <-. vm_compute in Hb. injection Hb as <-. vm_compute in Hl. injection Hl as <-.
  vm_compute in Hs. destruct Hs as (_ & _ & _ & ->).
  eexists _, _, _. split; [reflexivity|]. split; [vm_compute; reflexivity|].
  split; [exact H4|]. split; [f_equal; apply Ht; reflexivity|]. split; [exact H2|]. split; [reflexivity|].
  etransitivity; [exact H5|vm_compute; reflexivity].
Defined.
Definition up : RelayServer := {| peer_id := 7%nat; commands := [AddExternalAddress wan; AddExternalAddress lan]; sender := true; listeners := []; task := Some {| toy_peer := 7; toy_external := []; toy_pending := [] |} |}.
Lemma relay_task_ends_witness : applied (run (DropSender :: replicate 3 TurnRecv) up).2 = [wan; lan] ∧ task (run (DropSender :: replicate 3 TurnRecv) up).1 = None.
Proof. destruct (relay_task_ends (L := toy) up {| toy_peer := 7; toy_external := []; toy_pending := [] |} eq_refl) as (H1 & H2 & _). split; [exact H2|exact H1]. Defined.
Lemma wait_for_listener_returns_witness :
  ∃ i, (i ≤ 3)%nat ∧ wait_for_listener (L := toy) 4 0 25 (λ i, if bool_decide (i < 2)%nat then [] else [lan]) (λ i, 11 * Z.of_nat i) =
    Some (if bool_decide (i < 2)%nat then [] else [lan]).
Proof.
  destruct (wait_for_listener_returns (L := toy) 0 25 (λ i, if bool_decide (i < 2)%nat then [] else [lan]) (λ i, 11 * Z.of_nat i)) as (i & H1 & H2 & _);
    [lia|lia|lia|].
  change (Z.to_nat (25 / 10 + 1)) with 3%nat in H1. exists i. split; [exact H1|]. apply H2. lia.
Defined.
End RelayWitness.
