(* ===== verification/OperatorTasks.v ===== *)
(** * The control plane under concurrent requests

    [crates/admin/src] once more: the web server runs the handlers of [Operator] on
    several threads, and each of them takes the locks of the state one after another.
    Here a handler is a task that moves from one critical section to the next, and the
    system runs any number of tasks, and the data plane that records usage, in any
    order.  A task that runs alone is the handler of [Operator] ([alone_is_serve]).  What
    holds in every interleaving: the trail of identities, the signatures, that nothing
    fails with 500 for a tariff, and that every metered unit is billed once.  What only
    holds when updates of the descriptor do not overlap: that there is no silent
    downgrade. *)

From Stdlib Require Import ZArith Lia.
From stdpp Require Import base decidable option sets list strings gmap relations.
From S2P Require Import Prelude Visibility Kotva Descriptor BillingMeter BillingTariff BillingReceipt Conformance Provenance Operator.
Import Visibility Kinds.
Local Open Scope Z_scope.

Module OperatorTasks.
Import Operator.

Section tasks.
Context `{KC : KotvaCbor} `{KA : !KotvaCborArray} `{KI : KotvaIdentity} `{HX : HexCodec} {T : Type} `{MT : Meter T}.
Local Notation AdminState := (AdminState (T := T)).

(** ** Tasks *)

(** What a descriptor is put together for. *)
Inductive Purpose :=
| ToGet
| ToPublish
| ToRotate (old new_ : bytes)
| ToReport (published : option SignedDescriptor).
(** Where a handler is: the critical section it enters next, with its locals. *)
Inductive Phase :=
| Arrived
| PolicyChecked (d : DescriptorState)
| Building (why : Purpose)
| StateRead (why : Purpose) (d : DescriptorState)
| KeyRead (why : Purpose) (d : DescriptorState) (id : bytes)
| Built (why : Purpose) (d : Descriptor)
| TariffSigned (t : Tariff)
| Priced (p : bytes) (sch : TariffSchedule)
| Drained (p : bytes) (bill : Bill)
| Swapped (old new_ : bytes)
| PublicRead (pub : bytes)
| Answered (res : result AdminError Reply).
Record Task := { request : Request; phase : Phase }.
Definition at_phase (ph : Phase) (t : Task) : Task := {| request := request t; phase := ph |}.
(** [require_auth]: the token never changes, and no lock guards it. *)
Definition arrive (header : option string) (r : Request) (s : AdminState) : Task :=
  {| request := r; phase := if authorize (bearer_token header) (auth s) then Arrived else Answered (Err Unauthorized) |}.

(** [put_descriptor] up to [state.descriptor.set]. *)
Definition check_policy (b : DescriptorPutRequest) (s : AdminState) : result AdminError DescriptorState :=
  k ← ok_or (BadRequest "unknown coordinator kind") (from_wire_str (b_kind b));
  v ← to_domain (b_visibility b);
  if is_downgrade (ds_visibility (desc s)) v && negb (confirm_downgrade b) then Err (Conflict "visibility downgrade")
  else Ok {| ds_kind := k; ds_visibility := v; ds_policy := b_policy b |}.
(** [run_billing] up to [state.meter.reset]. *)
Definition billing_terms (now : Z) (h : string) (s : AdminState) : result AdminError (bytes * TariffSchedule) :=
  p ← decode_payer h;
  t ← ok_or (Conflict "no tariff configured") (st_tariff s);
  _ ← map_err (λ _, Internal "stored tariff no longer verifies") (Tariff_verify now t);
  sch ← map_err (λ _, Internal "stored tariff schedule malformed") (TariffSchedule_from_tariff t);
  Ok (p, sch).
Definition refused {A} (ok : A → Phase) (r : result AdminError A) : Phase :=
  match r with Ok a => ok a | Err e => Answered (Err e) end.
(** The first critical section of each handler. *)
Definition first_section (amb : Ambient) (r : Request) (s : AdminState) : Phase * AdminState :=
  match r with
  | GetDescriptor => (Building ToGet, s)
  | PutDescriptor b => (refused PolicyChecked (check_policy b s), s)
  | GetTariff => (Answered (t ← get_tariff (now amb) s; Ok (RTariff t)), s)
  | PutTariff d => (refused (λ sch, TariffSigned (TariffSchedule_sign sch (current (keys s)))) (schedule_from_dto d), s)
  | GetUsage h => (Answered (u ← get_usage h s; Ok (RUsage u)), s)
  | GetReceipts => (Answered (Ok (RReceipts (get_receipts s))), s)
  | GetReceiptsFor h => (Answered (l ← get_receipts_for_payer h s; Ok (RReceipts l)), s)
  | RunBilling h => (refused (λ '(p, sch), Priced p sch) (billing_terms (now amb) h s), s)
  | GetQuota => (Answered (Ok (RQuota (quota s))), s)
  | PutQuota q => (Answered (Ok (RQuota q)), with_quota q s)
  | GetKeys => (PublicRead (public (current (keys s))), s)
  | RotateKeys =>
      (Swapped (public (current (keys s))) (public (fresh_key amb)),
       with_keys {| current := fresh_key amb; history := history (keys s) |} s)
  | GetConformance => (Building (ToReport None), s)
  end.
(** What a descriptor that has been put together is used for, under the next lock:
    the signing key, or, for the report, the tariff. *)
Definition use_descriptor (nw : Z) (why : Purpose) (d : Descriptor) (s : AdminState) : Phase :=
  let sd := Descriptor_sign d (current (keys s)) in
  match why with
  | ToGet => Answered (Ok (RDescriptor (to_dto nw sd)))
  | ToPublish => Building (ToReport (Some sd))
  | ToRotate old new_ => Answered (Ok (RRotated (hex_encode old) (hex_encode new_) (to_dto nw sd)))
  | ToReport published =>
      let rep := Conformance.check {| p_descriptor := d; p_metered := bool_decide (is_Some (st_tariff s)) |} in
      Answered (Ok (match published with Some sd => RPublished (to_dto nw sd) rep | None => RReport rep end))
  end.
(** One critical section: after the first, the write of [put_descriptor]; the three reads
    of [build_descriptor] (descriptor, key, tariff) and what follows them in
    [sign_descriptor] or [run_conformance]; the write of [put_tariff]; in [run_billing] the
    reset of the meter, then the issue of the receipts under the key and the log; in
    [KeyState::rotate] the push to the history; in [get_keys] the read of the history. *)
Definition section (amb : Ambient) (r : Request) (ph : Phase) (s : AdminState) : Phase * AdminState :=
  match ph with
  | Arrived => first_section amb r s
  | PolicyChecked d => (Building ToPublish, with_desc d s)
  | Building why => (StateRead why (desc s), s)
  | StateRead why d => (KeyRead why d (public (current (keys s))), s)
  | KeyRead why d id =>
      (Built why {| identity := id; kind := ds_kind d; visibility := ds_visibility d; policy := policy_to_cbor (ds_policy d); tariff := st_tariff s |}, s)
  | Built why d => (use_descriptor (now amb) why d s, s)
  | TariffSigned t => (Answered (d ← tariff_to_dto (now amb) t; Ok (RTariff (Some d))), with_tariff (Some t) s)
  | Priced p sch =>
      let '(u, m) := reset p (meter s) in
      (refused (Drained p) (map_err (λ _, BadRequest "usage not priced") (evaluate sch u)), with_meter m s)
  | Drained p bill =>
      let '(issued, l) := issue_for_bill p bill (current (keys s)) (log s) in
      (Answered (Ok (RReceipts (receipt_dto <$> issued))), with_log l s)
  | Swapped old new_ =>
      (Building (ToRotate old new_), with_keys {| current := current (keys s); history := history (keys s) ++ [old] |} s)
  | PublicRead pub => (Answered (Ok (RKeys (hex_encode pub) (hex_encode <$> history (keys s)))), s)
  | Answered res => (Answered res, s)
  end.
Definition task_step (amb : Ambient) (t : Task) (s : AdminState) : Task * AdminState :=
  let '(ph, s) := section amb (request t) (phase t) s in (at_phase ph t, s).

(** The longest handler, an update of the descriptor, has ten sections. *)
Definition alone (amb : Ambient) (t : Task) (s : AdminState) : Task * AdminState :=
  Nat.iter 10 (λ '(t, s), task_step amb t s) (t, s).
Lemma alone_section amb n r ph s ph' s' :
  section amb r ph s = (ph', s') →
  Nat.iter (S n) (λ '(t, s), task_step amb t s) ({| request := r; phase := ph |}, s) =
  Nat.iter n (λ '(t, s), task_step amb t s) ({| request := r; phase := ph' |}, s').
Proof using. intros H. rewrite Nat.iter_succ_r. unfold task_step at 2. cbn [request phase]. by rewrite H. Qed.
Lemma alone_answered amb n r res s :
  Nat.iter n (λ '(t, s), task_step amb t s) ({| request := r; phase := Answered res |}, s) = ({| request := r; phase := Answered res |}, s).
Proof using. induction n as [|n IH]; [done|]. by rewrite (alone_section amb n r (Answered res) s (Answered res) s). Qed.
(** A request that is served with nothing in between is answered, and changes the
    state, as the handler of [Operator] says. *)
Theorem alone_is_serve amb header r s :
  alone amb (arrive header r s) s =
  ({| request := r; phase := Answered (serve amb header r s).1 |}, (serve amb header r s).2).
Proof using.
  unfold alone, arrive, serve. destruct (authorize _ _); [|apply alone_answered].
  destruct r as [|b| |d|h| |h|h| |q| | |]; cbn [route].
  - reflexivity.
  - unfold put_descriptor. erewrite alone_section by done. unfold check_policy.
    destruct (ok_or _ (from_wire_str (b_kind b))) as [k|]; simpl_res; [|apply alone_answered].
    destruct (to_domain (b_visibility b)) as [v|]; simpl_res; [|apply alone_answered].
    destruct (is_downgrade _ _ && negb _); [apply alone_answered|]. reflexivity.
  - reflexivity.
  - unfold put_tariff. erewrite alone_section by done. destruct (schedule_from_dto d) as [sch|]; [|apply alone_answered]. reflexivity.
  - reflexivity.
  - reflexivity.
  - reflexivity.
  - unfold run_billing. erewrite alone_section by done. fold (billing_terms (now amb) h s).
    destruct (billing_terms (now amb) h s) as [[p sch]|]; [|apply alone_answered]. cbn [refused].
    destruct (reset p (meter s)) as [u m] eqn:Er. erewrite alone_section by (cbn [section]; by rewrite Er).
    destruct (evaluate sch u) as [bill|]; [|apply alone_answered]. cbn [map_err refused].
    destruct (issue_for_bill p bill (current (keys (with_meter m s))) (log (with_meter m s))) as [iss l] eqn:Ei.
    erewrite alone_section by (cbn [section]; by rewrite Ei). apply alone_answered.
  - reflexivity.
  - reflexivity.
  - reflexivity.
  - reflexivity.
  - reflexivity.
Qed.

(** ** The system *)

(** [recorded] and [dropped] are for the proofs: what the data plane has recorded, and
    the usage that was reset for a bill that could not be made out. *)
Record System := { admin : AdminState; running : list Task; recorded : list UsageEvent; dropped : list (bytes * Usage) }.
Definition System_new (kind : CoordinatorKind) (v : ContentVisibility) (k : KeyState) (m : T) (a : AdminAuth) : System :=
  {| admin := AdminState_new kind v k m a; running := []; recorded := []; dropped := [] |}.
(** The decoder of a request body refuses a number that is not a [u64]. *)
Definition decodes (r : Request) : Prop :=
  match r with
  | PutTariff d =>
      Forall (λ kv, U64.valid kv.2) (td_prices d) ∧ Forall (λ kv, U64.valid kv.2) (td_free_allowance d) ∧
      match td_period_seconds d with Some n => U64.valid n | None => True end
  | _ => True
  end.
Definition dropped_by (t : Task) (s : AdminState) : list (bytes * Usage) :=
  match phase t with
  | Priced p sch => match evaluate sch (reset p (meter s)).1 with Ok _ => [] | Err _ => [(p, (reset p (meter s)).1)] end
  | _ => []
  end.
Definition task_moves (amb : Ambient) (i : nat) (t : Task) (s : System) : System := {|
  admin := (task_step amb t (admin s)).2; running := <[i := (task_step amb t (admin s)).1]> (running s);
  recorded := recorded s; dropped := dropped s ++ dropped_by t (admin s) |}.
Definition data_plane_records (e : UsageEvent) (s : System) : System := {|
  admin := with_meter (record (ev_payer e) (ev_kind e) (ev_units e) (meter (admin s))) (admin s); running := running s;
  recorded := recorded s ++ [e]; dropped := dropped s |}.
Definition request_arrives (header : option string) (r : Request) (s : System) : System := {|
  admin := admin s; running := running s ++ [arrive header r (admin s)]; recorded := recorded s; dropped := dropped s |}.
Inductive step : System → System → Prop :=
| s_arrives header r s : decodes r → step s (request_arrives header r s)
| s_moves amb i t s : running s !! i = Some t → step s (task_moves amb i t s)
| s_records e s : U64.valid (ev_units e) → step s (data_plane_records e s).

(** ** Identities *)

(** A key that was rotated away from and has not reached the history yet. *)
Definition outgoing (ph : Phase) : list bytes := match ph with Swapped old _ => [old] | _ => [] end.
Definition identities (s : System) : list bytes :=
  history (keys (admin s)) ++ concat (outgoing ∘ phase <$> running s) ++ [public (current (keys (admin s)))].
Lemma section_identities amb r ph s ph' s' :
  section amb r ph s = (ph', s') →
  history (keys s) ++ outgoing ph ++ [public (current (keys s))] ⊆+ history (keys s') ++ outgoing ph' ++ [public (current (keys s'))].
Proof using.
  assert (∀ A (f : A → Phase) x, (∀ a, outgoing (f a) = []) → outgoing (refused f x) = []) as Hr by (by intros A f [a|e] Hf; cbn).
  destruct ph as [|d|why|why d|why d id|why d|t|p sch|p bill|old new_|pub|res]; cbn [section]; intros H; try (injection H as <- <-; cbn; reflexivity).
  - destruct r; cbn [first_section] in H; injection H as <- <-; try reflexivity; cbn; rewrite ?Hr by (by try intros []); try reflexivity.
    apply submseteq_app; [done|]. apply (submseteq_inserts_r [_] [_] [_]). reflexivity.
  - injection H as <- <-. unfold use_descriptor. destruct why as [| | |[]]; reflexivity.
  - destruct (reset p (meter s)) as [u m]. injection H as <- <-. cbn. by rewrite Hr.
  - destruct (issue_for_bill p bill _ (log s)) as [iss l]. injection H as <- <-. reflexivity.
  - injection H as <- <-. cbn. by rewrite <- app_assoc.
Qed.
Lemma step_identities s s' : step s s' → identities s ⊆+ identities s'.
Proof using.
  intros [header r x _|amb i t x Ht|e x _].
  - unfold identities, request_arrives. cbn. rewrite fmap_app, concat_app. cbn. unfold arrive.
    destruct (authorize _ _); cbn; by rewrite !app_nil_r.
  - unfold identities, task_moves, task_step. cbn [admin running]. destruct (section amb (request t) (phase t) (admin x)) as [ph s1] eqn:E. cbn [fst snd].
    apply section_identities in E. rewrite <- (take_drop_middle (running x) i t) at 1 by done.
    rewrite (insert_take_drop (running x) i) by (by eapply lookup_lt_Some).
    rewrite !fmap_app, !concat_app, !fmap_cons. cbn [concat compose at_phase phase].
    set (a := concat (outgoing ∘ phase <$> take i (running x))). set (b := concat (outgoing ∘ phase <$> drop (S i) (running x))).
    assert (∀ h o (c : list bytes), h ++ (a ++ o ++ b) ++ c ≡ₚ (a ++ b) ++ (h ++ o ++ c)) as Hp by (intros; solve_Permutation).
    rewrite !Hp. by apply submseteq_skips_l.
  - reflexivity.
Qed.
Lemma steps_identities s s' : rtc step s s' → identities s ⊆+ identities s'.
Proof using. induction 1 as [|s1 s2 s3 H _ IH]; [done|]. etrans; [by apply step_identities|done]. Qed.

(** ** Signatures *)

Lemma kind_table_u64 l m out : Forall (λ kv, U64.valid kv.2) l → all_u64 m → kind_table l m = Ok out → all_u64 out.
Proof using.
  intros Hl. revert m. induction Hl as [|[name n] l Hn _ IH]; intros m Hm; cbn [kind_table]; [by intros [= <-]|].
  destruct (resource_kind_from_name name) as [k|]; [|done]. cbn. apply IH. by apply map_Forall_insert_2.
Qed.
Lemma decoded_schedule_wf d sch : decodes (PutTariff d) → schedule_from_dto d = Ok sch → schedule_wf sch.
Proof using.
  intros (Hp & Hf & Hper). unfold schedule_from_dto. destruct (td_token d); [done|].
  destruct (kind_table (td_prices d) ∅) as [pr|] eqn:E1; [|done]. cbn. destruct (kind_table (td_free_allowance d) ∅) as [fr|] eqn:E2; [|done].
  intros [= <-]. split; cbn; [..|done]; (eapply kind_table_u64; [..|done]; [done|]; apply map_Forall_empty).
Qed.

Context `{KCL : !KotvaCborLaws} `{KIL : !KotvaIdentityLaws}.
Definition signed_under (ids : list bytes) (t : Tariff) : Prop :=
  ∃ sch ik, t = TariffSchedule_sign sch ik ∧ schedule_wf sch ∧ public ik ∈ ids.
Record state_ok (ids : list bytes) (s : AdminState) : Prop := {
  ok_current : public (current (keys s)) ∈ ids;
  ok_receipts : Forall (λ r, UsageReceipt_verify r = Ok tt ∧ receipt_identity r ∈ ids) (receipts (log s));
  ok_tariff : match st_tariff s with Some t => signed_under ids t | None => True end;
}.
(** A task on its way has no answer of the kind 500, and a tariff it is about to store
    is signed. *)
Definition phase_ok (ids : list bytes) (ph : Phase) : Prop :=
  match ph with
  | TariffSigned t => signed_under ids t
  | Answered (Err (Internal _)) => False
  | _ => True
  end.
Lemma signed_mono ids ids' t : ids ⊆ ids' → signed_under ids t → signed_under ids' t.
Proof using. intros Hs (sch & ik & ? & ? & ?). exists sch, ik. split_and!; [done..|by apply Hs]. Qed.
Lemma state_mono ids ids' s : ids ⊆ ids' → state_ok ids s → state_ok ids' s.
Proof using.
  intros Hs [H1 H2 H3]. split; [by apply Hs|..].
  - eapply Forall_impl; [exact H2|]. intros r [? ?]. split; [done|by apply Hs].
  - destruct (st_tariff s); [by eapply signed_mono|done].
Qed.
Lemma phase_mono ids ids' ph : ids ⊆ ids' → phase_ok ids ph → phase_ok ids' ph.
Proof using. intros Hs. destruct ph; try done. by apply signed_mono. Qed.
Lemma phase_ok_refused ids {A} (f : A → Phase) r :
  (∀ a, r = Ok a → phase_ok ids (f a)) → (∀ w, r ≠ Err (Internal w)) → phase_ok ids (refused f r).
Proof using. intros Hf He. destruct r as [a|[]]; cbn; try done; [by apply Hf|by eapply He]. Qed.

Lemma signed_tariff_shown ids nw t : signed_under ids t → ∃ d, tariff_to_dto nw t = Ok d.
Proof using KCL KIL.
  intros (sch & ik & -> & Hw & _). unfold tariff_to_dto. rewrite tariff_verifies, signed_schedule_read by done. cbn. by eexists.
Qed.
Lemma first_section_ok ids amb r s ph s' :
  decodes r → first_section amb r s = (ph, s') → state_ok ids s → ∀ ids', ids ⊆ ids' → public (current (keys s')) ∈ ids' →
  state_ok ids' s' ∧ phase_ok ids' ph.
Proof using KCL KIL.
  intros Hd H S ids' Hs Hc. pose proof (state_mono ids ids' s Hs S) as S'.
  destruct r as [|b| |d|h| |h|h| |q| | |]; cbn [first_section] in H; injection H as <- <-; try (by split).
  - split; [done|]. apply phase_ok_refused; [done|]. intros w. unfold check_policy.
    destruct (from_wire_str _); [|done]. cbn. unfold to_domain. destruct (class_of _); [|done]. cbn. destruct (level_of _); [|done]. cbn. by destruct (_ && _).
  - split; [done|]. unfold get_tariff. destruct (st_tariff s) as [t|] eqn:Et; [|done]. pose proof (ok_tariff _ _ S) as Ht. rewrite Et in Ht.
    destruct (signed_tariff_shown ids (now amb) t Ht) as [x Hx]. cbn. by rewrite Hx.
  - split; [done|]. apply phase_ok_refused.
    + intros sch Hsch. cbn. exists sch, (current (keys s)). split_and!; [done|by eapply decoded_schedule_wf|done].
    + intros w. unfold schedule_from_dto. destruct (td_token d); [done|].
      assert (∀ l m, kind_table l m ≠ Err (Internal w)) as Hk.
      { induction l as [|[n v] l IH]; intros m; [done|]. cbn. unfold resource_kind_from_name. repeat case_bool_decide; cbn; try apply IH; done. }
      intros He. destruct (kind_table (td_prices d) ∅) as [|e] eqn:E1; cbn in He; [|injection He as ->; by eapply Hk].
      destruct (kind_table (td_free_allowance d) ∅) as [|e] eqn:E2; cbn in He; [done|]. injection He as ->. by eapply Hk.
  - split; [done|]. unfold get_usage, decode_payer. by destruct (hex_decode h).
  - split; [done|]. unfold get_receipts_for_payer, decode_payer. by destruct (hex_decode h).
  - split; [done|]. apply phase_ok_refused; [by intros []|]. intros w. unfold billing_terms, decode_payer. destruct (hex_decode h); [|done]. cbn.
    destruct (st_tariff s) as [t|] eqn:Et; [|done]. cbn. pose proof (ok_tariff _ _ S) as Ht. rewrite Et in Ht. destruct Ht as (sch & ik & -> & Hw & _).
    by rewrite tariff_verifies, signed_schedule_read.
  - split; [|done]. split; [done|apply S'..].
  - split; [|done]. split; [done|apply S'..].
Qed.
Lemma section_ok ids amb r ph s ph' s' :
  decodes r → section amb r ph s = (ph', s') → state_ok ids s → phase_ok ids ph → ∀ ids', ids ⊆ ids' → public (current (keys s')) ∈ ids' →
  state_ok ids' s' ∧ phase_ok ids' ph'.
Proof using KCL KIL.
  intros Hd H S Hph ids' Hs Hc. pose proof (state_mono ids ids' s Hs S) as S'. apply (phase_mono ids ids') in Hph; [|done].
  destruct ph as [|d|why|why d|why d id|why d|t|p sch|p bill|old new_|pub|res]; cbn [section] in H; [by eapply first_section_ok|..].
  - injection H as <- <-. split; [|done]. split; [done|apply S'..].
  - injection H as <- <-. by split.
  - injection H as <- <-. by split.
  - injection H as <- <-. by split.
  - injection H as <- <-. split; [done|]. unfold use_descriptor. by destruct why as [| | |[]].
  - injection H as <- <-. split; [split; [done|apply S'|done]|]. destruct (signed_tariff_shown ids' (now amb) t Hph) as [x ->]. done.
  - destruct (reset p (meter s)) as [u m]. injection H as <- <-. split; [split; [done|apply S'..]|]. apply phase_ok_refused; [done|].
    intros w. by destruct (evaluate sch u).
  - unfold issue_for_bill in H. pose proof (issued_receipts p bill (current (keys s)) (line_items bill) (log s)) as Hi.
    destruct (issue_items p bill (current (keys s)) (line_items bill) (log s)) as [iss l]. injection H as <- <-. destruct Hi as [Hl Hv].
    split; [|done]. split; [done| |apply S']. cbn. rewrite Hl. apply Forall_app. split; [apply S'|]. eapply Forall_impl; [exact Hv|].
    intros x [? ->]. split; [done|]. apply S'.
  - injection H as <- <-. split; [|done]. split; [done|apply S'..].
  - injection H as <- <-. by split.
  - injection H as <- <-. by split.
Qed.

(** What every state of the system satisfies. *)
Record sound (s : System) : Prop := {
  so_state : state_ok (identities s) (admin s);
  so_tasks : Forall (λ t, decodes (request t) ∧ phase_ok (identities s) (phase t)) (running s);
}.
Lemma current_is_identity s : public (current (keys (admin s))) ∈ identities s.
Proof using. unfold identities. do 2 (apply elem_of_app; right). by apply list_elem_of_singleton. Qed.
Lemma admin_step_sound s s' : step s s' → sound s → sound s'.
Proof using KCL KIL.
  intros Hs [S Ht]. pose proof (step_identities s s' Hs) as Hi.
  assert (identities s ⊆ identities s') as Hsub by (intros x Hx; by eapply elem_of_submseteq).
  assert (Forall (λ t, decodes (request t) ∧ phase_ok (identities s') (phase t)) (running s)) as Ht'.
  { eapply Forall_impl; [exact Ht|]. intros t [? ?]. split; [done|by eapply phase_mono]. }
  destruct Hs as [header r x Hd|amb i t x Hl|e x _].
  - split; [by apply (state_mono (identities x))|]. cbn. apply Forall_app. split; [done|]. apply Forall_singleton. split; [done|].
    unfold arrive. cbn. by destruct (authorize _ _).
  - pose proof (Forall_lookup_1 _ _ _ _ Ht Hl) as [Hd Hph].
    pose proof (current_is_identity (task_moves amb i t x)) as Hc.
    unfold task_moves at 2 in Hc. unfold task_moves, task_step in *. cbn [admin running] in *.
    destruct (section amb (request t) (phase t) (admin x)) as [ph s1] eqn:E. cbn [fst snd] in *.
    destruct (section_ok _ _ _ _ _ _ _ Hd E S Hph _ Hsub Hc) as [S1 P1]. split; [done|]. cbn [running]. by apply Forall_insert.
  - split; [|done]. by destruct (state_mono _ _ _ Hsub S).
Qed.
Lemma admin_reachable_sound kind v k m a s : rtc step (System_new kind v k m a) s → sound s.
Proof using KCL KIL.
  assert (sound (System_new kind v k m a)) as H0.
  { split; [|by constructor]. split; [apply current_is_identity|by constructor|done]. }
  intros Hr. revert H0. induction Hr as [|s1 s2 s3 H _ IH]; [done|]. intros S. by apply IH, (admin_step_sound s1).
Qed.
(** C6: However the requests interleave: no public key is ever forgotten, from the
    moment it is used to the moment it is in the history, each as often as it was
    rotated away from; every receipt issued and the tariff on offer verify, under a
    key that is remembered; and no request is answered with 500. *)
Theorem identities_survive_interleaving kind v k m a s s' :
  rtc step (System_new kind v k m a) s → rtc step s s' →
  identities s ⊆+ identities s' ∧
  Forall (λ r, UsageReceipt_verify r = Ok tt ∧ receipt_identity r ∈ identities s') (receipts (log (admin s'))) ∧
  (∀ t, st_tariff (admin s') = Some t → (∀ nw, Tariff_verify nw t = Ok tt) ∧ tariff_identity t ∈ identities s') ∧
  Forall (λ t, ∀ w, phase t ≠ Answered (Err (Internal w))) (running s') ∧
  (Forall (λ t, outgoing (phase t) = []) (running s') → identities s' = trail (admin s')).
Proof using KCL KIL.
  intros H1 H2. assert (sound s') as [[_ Hr Ht] Hp] by (eapply admin_reachable_sound; etrans; [exact H1|exact H2]).
  split; [by apply steps_identities|]. split; [done|]. split; [|split].
  - intros t Et. rewrite Et in Ht. destruct Ht as (sch & ik & -> & Hw & Hin). split; [|done]. intros nw. apply tariff_verifies.
  - eapply Forall_impl; [exact Hp|]. intros t [_ Hph] w E. by rewrite E in Hph.
  - intros Hout. unfold identities, trail. replace (concat _) with (@nil bytes); [done|].
    clear Hp. induction Hout as [|t ts Ho _ IH]; [done|]. cbn. unfold compose in IH |- *. rewrite Ho. exact IH.
Qed.

(** ** Visibility *)

Lemma section_desc amb r ph s ph' s' :
  section amb r ph s = (ph', s') → desc s' = desc s ∨ ph = PolicyChecked (desc s').
Proof using.
  destruct ph as [|d|why|why d|why d id|why d|t|p sch|p bill|old new_|pub|res]; cbn [section]; intros H; try (injection H as _ <-; by left).
  - destruct r; injection H as _ <-; by left.
  - injection H as _ <-. by right.
  - destruct (reset p (meter s)). injection H as _ <-. by left.
  - destruct (issue_for_bill p bill _ (log s)). injection H as _ <-. by left.
Qed.
Lemma section_checked amb r ph s d s' :
  section amb r ph s = (PolicyChecked d, s') → ∃ b, r = PutDescriptor b ∧ check_policy b s = Ok d ∧ s' = s.
Proof using.
  destruct ph as [|d1|why|why d1|why d1 id|why d1|t|p sch|p bill|old new_|pub|res]; cbn [section]; intros H; try done.
  - destruct r as [|b| |x|h| |h|h| |q| | |]; cbn [first_section] in H; try done.
    + destruct (check_policy b s) as [d'|] eqn:E; [|done]. cbn in H. injection H as <- <-. by exists b.
    + by destruct (schedule_from_dto x).
    + by destruct (billing_terms (now amb) h s) as [[]|].
  - unfold use_descriptor in H. by destruct why as [| | |[]].
  - destruct (reset p (meter s)) as [u m]. by destruct (evaluate sch u).
  - by destruct (issue_for_bill p bill _ (log s)).
Qed.
Lemma check_policy_keeps b s d :
  confirm_downgrade b = false → check_policy b s = Ok d → is_downgrade (ds_visibility (desc s)) (ds_visibility d) = false.
Proof using.
  intros Hc. unfold check_policy. destruct (from_wire_str (b_kind b)) as [k|]; [|done]. cbn. destruct (to_domain (b_visibility b)) as [v|]; [|done]. cbn.
  rewrite Hc. destruct (is_downgrade _ v) eqn:E; [done|]. by intros [= <-].
Qed.

Definition updating (ph : Phase) : bool := match ph with PolicyChecked _ => true | _ => false end.
(** At most one update of the descriptor is between its check and its write, and no
    request discloses a downgrade. *)
Definition serialised (s : System) : Prop :=
  (length (List.filter (λ t, updating (phase t)) (running s)) ≤ 1)%nat ∧ Forall (λ t, discloses (request t) = false) (running s).
Lemma one_updating {A} (f : A → bool) l i j x y :
  (length (List.filter f l) ≤ 1)%nat → l !! i = Some x → l !! j = Some y → f x = true → f y = true → i = j.
Proof using.
  revert i j. induction l as [|a l IH]; intros i j Hl Hi Hj Hx Hy; [done|].
  assert (∀ m z, l !! m = Some z → f z = true → (1 ≤ length (List.filter f l))%nat) as Hpos.
  { intros m z Hm Hz. apply list_elem_of_lookup_2, list_elem_of_In in Hm. pose proof (proj2 (filter_In f z l) (conj Hm Hz)) as Hin. by destruct (List.filter f l); [|cbn; lia]. }
  destruct i as [|i], j as [|j]; cbn in *; [done|..].
  - injection Hi as ->. rewrite Hx in Hl. cbn in Hl. pose proof (Hpos j y Hj Hy). lia.
  - injection Hj as ->. rewrite Hy in Hl. cbn in Hl. pose proof (Hpos i x Hi Hx). lia.
  - f_equal. apply IH; [|done..]. destruct (f a); cbn in Hl; lia.
Qed.
Record not_weaker (v0 : ContentVisibility) (s : System) : Prop := {
  nw_now : is_downgrade v0 (ds_visibility (desc (admin s))) = false;
  nw_next t d : t ∈ running s → phase t = PolicyChecked d → is_downgrade (ds_visibility (desc (admin s))) (ds_visibility d) = false;
}.
Lemma step_not_weaker v0 s s' : step s s' → serialised s → not_weaker v0 s → not_weaker v0 s'.
Proof using.
  intros Hs [Hone Hdis] [Hn Hx]. destruct Hs as [header r x _|amb i t x Ht|e x _].
  - split; [done|]. intros t d. cbn. intros [Hin|Hin]%elem_of_app; [by apply Hx|]. apply list_elem_of_singleton in Hin as ->.
    unfold arrive. cbn. by destruct (authorize _ _).
  - unfold task_moves, task_step. destruct (section amb (request t) (phase t) (admin x)) as [ph s1] eqn:E. cbn [fst snd].
    assert (∀ u d, u ∈ <[i:=at_phase ph t]> (running x) → phase u = PolicyChecked d →
      ph = PolicyChecked d ∧ request u = request t ∨ ∃ j, j ≠ i ∧ running x !! j = Some u) as Hcases.
    { intros u d Hin Hu. apply list_elem_of_lookup in Hin as [j Hj]. destruct (decide (j = i)) as [->|Hne].
      - rewrite list_lookup_insert_eq in Hj by (by eapply lookup_lt_Some). injection Hj as <-. by left.
      - rewrite list_lookup_insert_ne in Hj by done. right. by exists j. }
    assert (discloses (request t) = false) as Hd by (by eapply (Forall_lookup_1 _ _ _ _ Hdis)).
    assert (∀ d, ph = PolicyChecked d → is_downgrade (ds_visibility (desc s1)) (ds_visibility d) = false) as Hnew.
    { intros d ->. apply section_checked in E as (b & Er & Hb & ->). rewrite Er in Hd. by eapply check_policy_keeps. }
    destruct (section_desc _ _ _ _ _ _ E) as [Hsame|Hset].
    + split; cbn; [by rewrite Hsame|]. intros u d Hin Hu. destruct (Hcases u d Hin Hu) as [[Hph _]|(j & _ & Hj)]; [by apply Hnew|].
      rewrite Hsame. eapply Hx; [by eapply list_elem_of_lookup_2|done].
    + split; cbn.
      * eapply is_downgrade_trans; [exact Hn|]. eapply Hx; [by eapply list_elem_of_lookup_2|exact Hset].
      * intros u d Hin Hu. destruct (Hcases u d Hin Hu) as [[Hph _]|(j & Hne & Hj)]; [by apply Hnew|].
        destruct Hne. eapply (one_updating _ _ _ _ _ _ Hone Hj Ht); [by rewrite Hu|by rewrite Hset].
  - by split.
Qed.
(** C27: As long as no two updates of the descriptor are under way at the same time, and none
    of them discloses a downgrade, the declared visibility is never weaker than the
    first one, whatever else runs. *)
Theorem serialised_updates_keep_visibility kind v k m a s :
  rtc (λ s s', step s s' ∧ serialised s') (System_new kind v k m a) s →
  is_downgrade v (ds_visibility (desc (admin s))) = false.
Proof using.
  intros Hr. enough (serialised s ∧ not_weaker v s) as [_ []] by done.
  assert (serialised (System_new kind v k m a) ∧ not_weaker v (System_new kind v k m a)) as H0.
  { split; split; cbn; [lia|by constructor|apply is_downgrade_refl|by intros t d ?%elem_of_nil]. }
  revert H0. induction Hr as [|s1 s2 s3 [Hs Hser] _ IH]; [done|]. intros [Hs1 Hn]. apply IH. split; [done|]. by eapply step_not_weaker.
Qed.

(** ** Interleavings that go wrong *)

Definition iterate (amb : Ambient) (n : nat) (t : Task) (s : AdminState) : Task * AdminState :=
  Nat.iter n (λ '(t, s), task_step amb t s) (t, s).
(** One task moves [n] times. *)
Lemma moves_alone amb n i t s :
  running s !! i = Some t →
  ∃ s', rtc step s s' ∧ admin s' = (iterate amb n t (admin s)).2 ∧ running s' = <[i := (iterate amb n t (admin s)).1]> (running s).
Proof using.
  intros Ht. induction n as [|n (s1 & H1 & H2 & H3)].
  - exists s. split; [apply rtc_refl|]. split; [done|]. cbn. by rewrite list_insert_id.
  - unfold iterate in *. rewrite Nat.iter_succ. destruct (Nat.iter n _ (t, admin s)) as [t1 a1]. cbn [fst snd] in *.
    assert (running s1 !! i = Some t1) as Ht1 by (rewrite H3; by rewrite list_lookup_insert_eq by (by eapply lookup_lt_Some)).
    exists (task_moves amb i t1 s1). split; [by eapply rtc_r, s_moves|].
    unfold task_moves. cbn. rewrite H2, H3. split; [done|]. by rewrite list_insert_insert_eq.
Qed.
(** A request arrives and moves [n] times before anything else does. *)
Lemma arrives_alone amb n header r s :
  decodes r →
  let x := iterate amb n (arrive header r (admin s)) (admin s) in
  ∃ s', rtc step s s' ∧ admin s' = x.2 ∧ running s' = running s ++ [x.1].
Proof using.
  intros Hd x. destruct (moves_alone amb n (length (running s)) (arrive header r (admin s)) (request_arrives header r s)) as (s' & H1 & H2 & H3).
  { cbn. by apply list_lookup_middle. }
  exists s'. split; [eapply rtc_l; [by apply s_arrives|done]|]. split; [done|]. rewrite H3. cbn. rewrite insert_app_r_alt by done. by rewrite Nat.sub_diag.
Qed.
(** A request that has arrived and moved [m] times, another one that is then served to its
    end, and [n] more moves of the first. *)
Lemma overtaken (amb : Ambient) header r1 r2 m n s :
  decodes r1 → decodes r2 →
  let x := iterate amb m (arrive header r1 (admin s)) (admin s) in
  let y := iterate amb 10 (arrive header r2 x.2) x.2 in
  let z := iterate amb n x.1 y.2 in
  ∃ s1 s2, rtc step s s1 ∧ rtc step s1 s2 ∧ admin s1 = y.2 ∧ admin s2 = z.2 ∧ running s2 = running s ++ [z.1; y.1].
Proof using.
  intros H1 H2 x y z. destruct (arrives_alone amb m header r1 s H1) as (sx & Hx1 & Hx2 & Hx3).
  destruct (arrives_alone amb 10 header r2 sx H2) as (sy & Hy1 & Hy2 & Hy3). rewrite Hx2 in Hy2, Hy3. rewrite Hx3, <- app_assoc in Hy3. cbn [app] in Hy3.
  destruct (moves_alone amb n (length (running s)) x.1 sy) as (sz & Hz1 & Hz2 & Hz3); [rewrite Hy3; by apply list_lookup_middle|].
  exists sy, sz. split; [by etrans|]. split; [done|]. split; [done|]. rewrite Hy2 in Hz2, Hz3. split; [done|].
  rewrite Hz3, Hy3, insert_app_r_alt, Nat.sub_diag by done. reflexivity.
Qed.

(** The check of an update and its write are separate: an update [dl] that was checked
    against the old descriptor is written over the update [dh] that came in between,
    without being checked against it.  Both are answered 200, and when [dl] is the
    weaker one the descriptor has been downgraded though no request disclosed it. *)
Theorem overlapping_updates_downgrade (amb : Ambient) header low high dl dh s :
  authorize (bearer_token header) (auth (admin s)) = true →
  check_policy low (admin s) = Ok dl → check_policy high (admin s) = Ok dh →
  ∃ s1 s2 r1 r2, rtc step s s1 ∧ rtc step s1 s2 ∧ desc (admin s1) = dh ∧ desc (admin s2) = dl ∧
    running s2 = running s ++ [{| request := PutDescriptor low; phase := Answered (Ok r1) |}; {| request := PutDescriptor high; phase := Answered (Ok r2) |}].
Proof using.
  intros Ha Hl Hh.
  destruct (overtaken amb header (PutDescriptor low) (PutDescriptor high) 1 9 s I I) as (s1 & s2 & H1 & H2 & H3 & H4 & H5).
  assert (∀ n b d a, auth a = auth (admin s) → check_policy b a = Ok d →
    iterate amb (S n) (arrive header (PutDescriptor b) a) a = iterate amb n {| request := PutDescriptor b; phase := PolicyChecked d |} a) as Hfirst.
  { intros n b d a Eau E. unfold iterate, arrive. rewrite Eau, Ha. apply alone_section. cbn. by rewrite E. }
  rewrite (Hfirst 0%nat low dl) in H3, H4, H5 by done. rewrite (Hfirst 9%nat high dh) in H3, H4, H5 by done.
  exists s1, s2. eexists _, _. split; [done|]. split; [done|]. split; [by rewrite H3|]. split; [by rewrite H4|]. exact H5.
Qed.

(** A rotation while a descriptor is put together: the descriptor that is served names
    the old key, is signed by the new one, and does not verify. *)
Theorem rotation_serves_unverifiable `{KU : !KotvaUnforgeable} (amb : Ambient) header s :
  authorize (bearer_token header) (auth (admin s)) = true → public (fresh_key amb) ≠ public (current (keys (admin s))) →
  ∃ s' sd ts t e, rtc step s s' ∧
    running s' = running s ++ {| request := GetDescriptor; phase := Answered (Ok (RDescriptor (to_dto (now amb) sd))) |} :: ts ++ [t] ∧
    SignedDescriptor_verify sd = Err e.
Proof using.
  intros Ha Hne. destruct (overtaken amb header GetDescriptor RotateKeys 4 1 s I I) as (s1 & s2 & H1 & H2 & H3 & H4 & H5).
  revert H3 H4 H5. unfold iterate, arrive. rewrite Ha. cbn. rewrite Ha. cbn. intros H3 H4 H5.
  eexists s2, _, [], _. assert (∀ d, identity d = public (current (keys (admin s))) → ∃ e, SignedDescriptor_verify (Descriptor_sign d (fresh_key amb)) = Err e) as Hbad.
  { intros d Hd. unfold SignedDescriptor_verify, Descriptor_sign. cbn. rewrite Hd. destruct (verify_domain _ _ _ _) as [[]|e] eqn:E; [|by eexists].
    apply verify_binding in E as [E _]. congruence. }
  edestruct Hbad as [e He]; [|exists e; split; [by etrans|]; split; [exact H5|exact He]]. reflexivity.
Qed.

(** Two rotations at the same time leave the history out of order: the key that was
    current first comes last. *)
Theorem rotations_out_of_order (amb : Ambient) header s :
  authorize (bearer_token header) (auth (admin s)) = true →
  ∃ s', rtc step s s' ∧
    history (keys (admin s')) = history (keys (admin s)) ++ [public (fresh_key amb); public (current (keys (admin s)))].
Proof using.
  intros Ha. destruct (overtaken amb header RotateKeys RotateKeys 1 1 s I I) as (s1 & s2 & H1 & H2 & H3 & H4 & H5).
  exists s2. split; [by etrans|]. rewrite H4. unfold iterate, arrive. rewrite Ha. cbn. rewrite Ha. cbn. by rewrite <- app_assoc.
Qed.
End tasks.

(** ** Runs *)

(** A run as a list of moves. *)
Section runs.
Context `{KC : KotvaCbor} `{KA : !KotvaCborArray} `{KI : KotvaIdentity} `{HX : HexCodec} {T : Type} `{MT : Meter T}.
Inductive Move := Arrives (header : option string) (r : Request) | Moves (amb : Ambient) (i : nat) | Records (e : UsageEvent).
Definition apply_move (x : Move) (s : System (T := T)) : System (T := T) :=
  match x with
  | Arrives header r => request_arrives header r s
  | Moves amb i => match running s !! i with Some t => task_moves amb i t s | None => s end
  | Records e => data_plane_records e s
  end.
Definition move_ok (x : Move) : Prop :=
  match x with Arrives _ r => decodes r | Moves _ _ => True | Records e => U64.valid (ev_units e) end.
Definition run (xs : list Move) (s : System (T := T)) : System (T := T) := foldl (flip apply_move) s xs.
Fixpoint along (Q : System (T := T) → Prop) (xs : list Move) (s : System (T := T)) : Prop :=
  match xs with [] => True | x :: xs => Q (apply_move x s) ∧ along Q xs (apply_move x s) end.
Lemma run_steps_along (Q : System (T := T) → Prop) xs s : Forall move_ok xs → along Q xs s → rtc (λ s s', step s s' ∧ Q s') s (run xs s).
Proof using.
  intros Hx. revert s. induction Hx as [|x xs Hx _ IH]; intros s; [intros _; apply rtc_refl|]. unfold run in *. cbn [foldl flip along]. intros [HQ Hal].
  destruct x as [header r|amb i|e]; cbn [apply_move move_ok] in *.
  - eapply rtc_l; [split; [by apply s_arrives|done]|by apply IH].
  - destruct (running s !! i) as [t|] eqn:E; [eapply rtc_l; [split; [by apply s_moves|done]|by apply IH]|by apply IH].
  - eapply rtc_l; [split; [by apply s_records|done]|by apply IH].
Qed.
Lemma run_steps xs s : Forall move_ok xs → rtc step s (run xs s).
Proof using.
  intros Hx. eapply rtc_subrel; [|apply (run_steps_along (λ _, True))]; [by intros ? ? []|done|]. clear Hx.
  revert s. induction xs as [|x xs IH]; intros s; [done|]. by split.
Qed.
End runs.

(** ** Billing *)

(** Where the units of a payer [p] and a kind [k] are, with the in-memory meter. *)
Section billing.
Context `{KC : KotvaCbor} `{KA : !KotvaCborArray} `{KI : KotvaIdentity} `{HX : HexCodec}.
Context (p : bytes) (k : ResourceKind).
Local Notation System := (System (T := InMemoryMeter)).

Definition bill_units (b : Bill) : Z := sum_Z ((λ i, if bool_decide (li_kind i = k) then metered_units i else 0) <$> line_items b).
Definition in_flight (ph : Phase) : Z :=
  match ph with Drained q b => if bool_decide (q = p) then bill_units b else 0 | _ => 0 end.
Definition receipt_units (r : UsageReceipt) : Z :=
  match BilledOperation_from_receipt r with
  | Ok o => if bool_decide (op_payer o = p ∧ op_kind o = k) then op_metered_units o else 0
  | Err _ => 0
  end.
Definition usage_units (d : bytes * Usage) : Z := if bool_decide (d.1 = p) then default 0 (d.2 !! k) else 0.
Definition account (m : InMemoryMeter) (l : ReceiptLog) (ph : Phase) : Z :=
  default 0 (usage p m !! k) + in_flight ph + sum_Z (receipt_units <$> receipts l).

Lemma sum_insert {A} (f : A → Z) (l : list A) i x y :
  l !! i = Some x → sum_Z (f <$> <[i := y]> l) + f x = sum_Z (f <$> l) + f y.
Proof using.
  intros H. rewrite insert_take_drop by (by eapply lookup_lt_Some). rewrite <- (take_drop_middle l i x) at 3 by done.
  rewrite !fmap_app, !sum_Z_app, !fmap_cons. unfold sum_Z. cbn. lia.
Qed.
(** The lines of a bill are the usage it was made of. *)
Lemma bill_of_usage sch u b : schedule_wf sch → evaluate sch u = Ok b → bill_units b = default 0 (u !! k).
Proof using.
  intros Hs He. assert (line_items b = items_of sch (btree_iter u)) as Hl.
  { unfold evaluate in He. destruct (priced_or_first_unpriced sch (btree_iter u)) as [Hp|(l1 & j & n & l2 & Hu & Hl1 & Hj)].
    - change 0 with (Z.min 0 U64.MAX) in He. rewrite evaluate_loop_Ok in He by done. by injection He as <-.
    - rewrite Hu, (evaluate_loop_Err sch l1 j n l2) in He by done. done. }
  unfold bill_units, items_of. rewrite Hl. unfold btree_iter, all_kinds. cbn [omap list_omap].
  destruct (u !! BytesForwarded) eqn:E1, (u !! Connections) eqn:E2, (u !! Messages) eqn:E3, (u !! ComputeSeconds) eqn:E4;
    unfold sum_Z; cbn; repeat case_bool_decide; destruct k; try done; rewrite ?E1, ?E2, ?E3, ?E4; cbn; lia.
Qed.
Lemma bill_typed sch u b : schedule_wf sch → all_u64 u → evaluate sch u = Ok b → items_wf (line_items b).
Proof using.
  intros Hs Hu He. apply (evaluate_loop_u64 sch _ _ _ _ Hs) in He as [_ Hi]; [|by apply btree_iter_forall|split; unfold U64.MAX; lia|done].
  eapply Forall_impl; [exact Hi|]. intros i (? & ? & ? & ? & ?). by split_and!.
Qed.

Context `{KCL : !KotvaCborLaws}.
Definition decodable (r : UsageReceipt) : Prop := ∃ op, BilledOperation_from_receipt r = Ok op ∧ operation_wf op.
Lemma issue_items_units q b ik items l :
  items_wf items → U64.valid (next_sequence l) → Forall decodable (receipts l) →
  let l' := (issue_items q b ik items l).2 in
  U64.valid (next_sequence l') ∧ Forall decodable (receipts l') ∧
  sum_Z (receipt_units <$> receipts l') = sum_Z (receipt_units <$> receipts l) +
    (if bool_decide (q = p) then sum_Z ((λ i, if bool_decide (li_kind i = k) then metered_units i else 0) <$> items) else 0).
Proof using KCL.
  intros Hw. revert l. induction Hw as [|it items (H1 & H2 & H3) Hw IH]; intros l Hn Hd.
  - cbn. split_and!; [done..|]. case_bool_decide; lia.
  - set (op := line_operation q b it (next_sequence l)).
    set (l1 := {| receipts := receipts l ++ [BilledOperation_sign op ik]; next_sequence := U64.wrap (next_sequence l + 1) |}).
    assert (operation_wf op) as Hop by (by split_and!).
    assert (BilledOperation_from_receipt (BilledOperation_sign op ik) = Ok op) as Hrd by (by apply operation_from_receipt_sign).
    destruct (IH l1) as (J1 & J2 & J3).
    + apply U64.wrap_valid.
    + apply Forall_app. split; [done|]. apply Forall_singleton. by exists op.
    + cbn [issue_items]. fold op. fold l1. destruct (issue_items q b ik items l1) as [rs l']. cbn [snd] in *.
      split_and!; [done..|]. rewrite J3. unfold l1. cbn [receipts]. rewrite fmap_app, sum_Z_app. cbn. unfold receipt_units at 2. rewrite Hrd. unfold op. cbn.
      unfold sum_Z. cbn. repeat case_bool_decide; try lia; naive_solver.
Qed.
(** The numbers that a task and the state carry are [u64]. *)
Definition phase_typed (ph : Phase) : Prop :=
  match ph with Priced _ sch => schedule_wf sch | Drained _ b => items_wf (line_items b) | _ => True end.
Record state_typed (s : AdminState (T := InMemoryMeter)) : Prop := {
  ty_meter : map_Forall (λ _ u, all_u64 u) (table (meter s));
  ty_seq : U64.valid (next_sequence (log s));
  ty_receipts : Forall decodable (receipts (log s));
}.
Lemma usage_typed q s : state_typed s → all_u64 (usage q (meter s)).
Proof using. intros [Hm _ _]. cbn. destruct (table (meter s) !! q) as [u|] eqn:E; [by apply (Hm q)|apply map_Forall_empty]. Qed.
Definition dropped_units (ph : Phase) (s : AdminState (T := InMemoryMeter)) : Z :=
  sum_Z (usage_units <$> dropped_by {| request := GetQuota; phase := ph |} s).
(** No critical section makes or loses a unit. *)
Lemma section_account amb r ph s ph' s' :
  section amb r ph s = (ph', s') → state_typed s → phase_typed ph →
  state_typed s' ∧ phase_typed ph' ∧
  account (meter s') (log s') ph' + dropped_units ph s = account (meter s) (log s) ph.
Proof using KCL.
  intros H S P. destruct ph as [|d|why|why d|why d id|why d|t|q sch|q bill|old new_|pub|res]; cbn [section] in H;
    try (injection H as <- <-; split_and!; [by destruct S|done|unfold account; cbn; lia]).
  - assert (meter s' = meter s ∧ log s' = log s ∧ phase_typed ph' ∧ in_flight ph' = 0) as (E1 & E2 & E3 & E4).
    { destruct r; cbn [first_section] in H; injection H as <- <-; split_and!; try done.
      - by destruct (check_policy b s).
      - by destruct (check_policy b s).
      - by destruct (schedule_from_dto d).
      - by destruct (schedule_from_dto d).
      - destruct (billing_terms (now amb) h s) as [[q sch]|] eqn:E; [|done]. cbn. revert E. unfold billing_terms.
        destruct (decode_payer h); [|done]. cbn. destruct (st_tariff s) as [t|]; [|done]. cbn. destruct (Tariff_verify (now amb) t); [|done]. cbn.
        unfold TariffSchedule_from_tariff, TariffSchedule_from_cbor. destruct (Cbor_decode (schedule t)) as [cv|]; [|done]. cbn.
        destruct (TariffSchedule_from_cv cv) as [sch'|] eqn:Ecv; [|done]. cbn. intros [= _ <-]. by eapply schedule_from_cv_wf.
      - by destruct (billing_terms (now amb) h s) as [[q sch]|]. }
    split; [destruct S; split; rewrite ?E1, ?E2; done|]. split; [done|]. unfold account, dropped_units. rewrite E1, E2, E4. cbn. lia.
  - injection H as <- <-. split; [done|]. unfold use_descriptor. by destruct why as [| | |[]]; (split; [done|unfold account, dropped_units; cbn; lia]).
  - pose proof (usage_typed q s S) as Hu. cbn [reset InMemoryMeter_Meter] in H. injection H as <- <-. change (default ∅ (table (meter s) !! q)) with (usage q (meter s)) in *.
    split; [destruct S; split; [by apply map_Forall_delete|done..]|].
    assert (default 0 (usage p {| table := delete q (table (meter s)) |} !! k) + usage_units (q, usage q (meter s)) = default 0 (usage p (meter s) !! k)) as Hdel.
    { unfold usage_units. cbn. destruct (decide (q = p)) as [->|Hne].
      - rewrite lookup_delete_eq, bool_decide_true by done. cbn. by rewrite lookup_empty.
      - rewrite lookup_delete_ne, bool_decide_false by done. lia. }
    unfold account, dropped_units, dropped_by. cbn [phase reset InMemoryMeter_Meter fst]. change (default ∅ (table (meter s) !! q)) with (usage q (meter s)).
    destruct (evaluate sch (usage q (meter s))) as [b|e] eqn:E; cbn [map_err refused phase_typed in_flight].
    + split; [by eapply bill_typed|]. rewrite (bill_of_usage sch (usage q (meter s))) by done. cbn [meter log with_meter]. unfold usage_units in Hdel. cbn [fst snd] in Hdel.
      unfold sum_Z in *. cbn in *. lia.
    + split; [done|]. cbn [meter log with_meter]. unfold sum_Z in *. cbn in *. lia.
  - unfold issue_for_bill in H. destruct S as [S1 S2 S3].
    pose proof (issue_items_units q bill (current (keys s)) (line_items bill) (log s) P S2 S3) as Hi.
    destruct (issue_items q bill (current (keys s)) (line_items bill) (log s)) as [iss l]. injection H as <- <-. destruct Hi as (J1 & J2 & J3).
    split; [by split|]. split; [done|]. unfold account, dropped_units. cbn in *. rewrite J3. fold (bill_units bill). destruct (bool_decide (q = p)); lia.
Qed.

Record books (s : System) : Prop := {
  bk_state : state_typed (admin s);
  bk_tasks : Forall (λ t, phase_typed (phase t)) (running s);
  bk_dropped : Forall (λ d, all_u64 d.2) (dropped s);
  bk_balance :
    sum_Z (logged p k (recorded s)) ≤ U64.MAX →
    sum_Z (logged p k (recorded s)) =
      default 0 (usage p (meter (admin s)) !! k) + sum_Z (in_flight ∘ phase <$> running s) +
      sum_Z (receipt_units <$> receipts (log (admin s))) + sum_Z (usage_units <$> dropped s);
}.
Lemma units_u64 (u : Usage) j : all_u64 u → U64.valid (default 0 (u !! j)).
Proof using. intros Hu. destruct (u !! j) as [n|] eqn:E; [by apply (Hu j)|split; [done|by apply Z.leb_le]]. Qed.
Lemma books_nonneg s :
  books s → 0 ≤ sum_Z (in_flight ∘ phase <$> running s) ∧ 0 ≤ sum_Z (receipt_units <$> receipts (log (admin s))) ∧ 0 ≤ sum_Z (usage_units <$> dropped s).
Proof using.
  intros [[_ _ Hr] Ht Hd _]. split_and!; apply sum_Z_nonneg, Forall_fmap.
  - eapply Forall_impl; [exact Ht|]. intros t. unfold compose. cbv beta. destruct (phase t) as [| | | | | | | |q b| | |]; cbn; try done. intros Hp.
    case_bool_decide; [|done]. apply sum_Z_nonneg, Forall_fmap. eapply Forall_impl; [exact Hp|]. intros i ([? _] & _). cbn. by case_bool_decide.
  - eapply Forall_impl; [exact Hr|]. intros r (op & Hop & ([? _] & _)). unfold receipt_units. cbn. rewrite Hop. by case_bool_decide.
  - eapply Forall_impl; [exact Hd|]. intros d Hu. unfold usage_units. cbn. case_bool_decide; [|done]. apply (units_u64 _ k Hu).
Qed.
Lemma data_plane_books e s : U64.valid (ev_units e) → books s → books (data_plane_records e s).
Proof using.
  intros Hv B. pose proof (books_nonneg s B) as (N1 & N2 & N3). destruct B as [S Bt Bd Hb]. destruct e as [q j n]. cbn in Hv.
  assert (all_u64 (usage q (meter (admin s)))) as Hu by (by apply usage_typed). destruct S as [S1 S2 S3].
  split; [split; [|done..]|done..|].
  - cbn. apply map_Forall_insert_2; [|done]. apply map_Forall_insert_2; [|done]. apply U64.saturating_add_valid; [by apply units_u64|done].
  - cbn [data_plane_records recorded running dropped admin]. rewrite logged_app, sum_Z_app. intros Hm.
    assert (sum_Z (logged p k [{| ev_payer := q; ev_kind := j; ev_units := n |}]) = if decide (q = p ∧ j = k) then n else 0) as He.
    { unfold logged. rewrite filter_cons, filter_nil. cbn. case_decide; unfold sum_Z; cbn; lia. }
    rewrite He in *. cbn [with_meter meter log ev_payer ev_kind ev_units] in *.
    enough (default 0 (usage p (record q j n (meter (admin s))) !! k) = default 0 (usage p (meter (admin s)) !! k) + if decide (q = p ∧ j = k) then n else 0) as ->.
    { rewrite Hb; [lia|]. destruct Hv. case_decide; lia. }
    destruct Hv. case_decide as Hd.
    + destruct Hd as [-> ->]. cbn. rewrite lookup_insert_eq. cbn. rewrite lookup_insert_eq. cbn in *. unfold U64.saturating_add.
      rewrite Hb in Hm by lia. lia.
    + cbn. destruct (decide (q = p)) as [->|Hq]; [|by rewrite lookup_insert_ne, Z.add_0_r].
      rewrite lookup_insert_eq. cbn. rewrite lookup_insert_ne by naive_solver. lia.
Qed.
Lemma step_books s s' : step s s' → books s → books s'.
Proof using KCL.
  intros [header r x _|amb i t x Ht|e x Hv] B; [| |by apply data_plane_books].
  - destruct B as [S Bt Bd Hb]. assert (phase_typed (phase (arrive header r (admin x))) ∧ in_flight (phase (arrive header r (admin x))) = 0) as [Hp Hf].
    { unfold arrive. cbn. by destruct (authorize _ _). }
    split; [done| |done|].
    + cbn. apply Forall_app. split; [done|]. by apply Forall_singleton.
    + cbn [request_arrives admin running recorded dropped]. intros Hm. specialize (Hb Hm). rewrite fmap_app, sum_Z_app.
      replace (sum_Z (in_flight ∘ phase <$> [arrive header r (admin x)])) with 0; [lia|]. unfold sum_Z, compose. cbn [fmap list_fmap foldr]. lia.
  - destruct B as [S Bt Bd Hb]. pose proof (Forall_lookup_1 _ _ _ _ Bt Ht) as Hp. unfold task_moves, task_step.
    destruct (section amb (request t) (phase t) (admin x)) as [ph s1] eqn:E. destruct (section_account _ _ _ _ _ _ E S Hp) as (S1 & P1 & A1).
    cbn [fst snd]. split; cbn [admin running dropped recorded]; [done|by apply Forall_insert| |].
    + apply Forall_app. split; [done|]. unfold dropped_by. destruct (phase t); try done. destruct (evaluate _ _); [done|]. apply Forall_singleton.
      by apply usage_typed.
    + intros Hm. rewrite Hb by done. rewrite fmap_app, sum_Z_app. unfold account, dropped_units, dropped_by in A1. cbn [phase] in A1. fold (dropped_by t (admin x)) in A1.
      pose proof (sum_insert (in_flight ∘ phase) (running x) i t (at_phase ph t) Ht) as Hsum. unfold compose at 2 4 in Hsum. cbn [at_phase phase] in Hsum. lia.
Qed.
(** C26: Whatever the requests do in whatever order, every unit that the data plane has
    recorded for a payer is in exactly one place: still in the meter, in a bill about
    to be receipted, in a receipt, or in usage that was reset for a bill that could not
    be made out.  No unit is billed twice, however many billing runs overlap.  (Below
    the cap of the meter, that is.) *)
Theorem every_unit_billed_once kind v ks a s :
  rtc step (System_new kind v ks InMemoryMeter_new a) s →
  sum_Z (logged p k (recorded s)) ≤ U64.MAX →
  sum_Z (logged p k (recorded s)) =
    default 0 (usage p (meter (admin s)) !! k) + sum_Z (in_flight ∘ phase <$> running s) +
    sum_Z (receipt_units <$> receipts (log (admin s))) + sum_Z (usage_units <$> dropped s).
Proof using KCL.
  intros Hr. enough (books s) as [] by done.
  assert (books (System_new kind v ks InMemoryMeter_new a)) as H0.
  { split; [split|..]; cbn; try done; by constructor. }
  revert H0. induction Hr as [|s1 s2 s3 H _ IH]; [done|]. intros B. by apply IH, (step_books s1).
Qed.
End billing.
End OperatorTasks.

(** ** Witnesses *)

(** Two billing runs, a key rotation and an update of the tariff that overlap. *)
Module OperatorTasksWitness.
Import Operator OperatorTasks OperatorWitness Reference.
#[local] Existing Instance ProvenanceWitness.arrays.
#[local] Existing Instance OperatorWitness.hex.

Definition start : System := System_new Relay (new Blind Structural) (KeyState_new key) InMemoryMeter_new (with_token "secret").
Definition token : option string := Some "Bearer secret"%string.
Definition payer : bytes := [Byte.x01].
Definition event : UsageEvent := {| ev_payer := payer; ev_kind := Messages; ev_units := 7 |}.
Definition overlap : list Move :=
  [Arrives token (PutTariff prices0); Moves amb 0; Moves amb 0; Records event; Arrives token (RunBilling h); Arrives token (RunBilling h);
   Arrives token RotateKeys; Moves amb 1; Moves amb 2; Moves amb 1; Moves amb 3; Records event; Moves amb 2; Moves amb 2; Moves amb 1].
Lemma overlap_ok : Forall move_ok overlap.
Proof. repeat (apply Forall_cons_2; [first [exact I | apply (bool_decide_unpack _); vm_compute; exact I | split; [repeat constructor; vm_compute; discriminate|split; [constructor|exact I]]]|]). constructor. Defined.

Lemma identities_survive_interleaving_witness :
  identities (run overlap start) = [key; key2] ∧ history (keys (admin (run overlap start))) = [] ∧
  length (receipts (log (admin (run overlap start)))) = 2%nat ∧
  Forall (λ r, UsageReceipt_verify r = Ok tt ∧ receipt_identity r ∈ identities (run overlap start)) (receipts (log (admin (run overlap start)))).
Proof.
  split; [vm_compute; reflexivity|]. split; [vm_compute; reflexivity|]. split; [vm_compute; reflexivity|].
  destruct (identities_survive_interleaving Relay (new Blind Structural) (KeyState_new key) InMemoryMeter_new (with_token "secret") start (run overlap start)) as (_ & H & _).
  - apply rtc_refl.
  - apply run_steps, overlap_ok.
  - exact H.
Defined.
Lemma every_unit_billed_once_witness :
  sum_Z (logged payer Messages (recorded (run overlap start))) = 14 ∧ usage payer (meter (admin (run overlap start))) = ∅ ∧
  14 = sum_Z (receipt_units payer Messages <$> receipts (log (admin (run overlap start)))).
Proof.
  split; [vm_compute; reflexivity|]. split; [vm_compute; reflexivity|].
  pose proof (every_unit_billed_once payer Messages Relay (new Blind Structural) (KeyState_new key) (with_token "secret") (run overlap start)) as H.
  assert (rtc step start (run overlap start)) as Hr by (apply run_steps, overlap_ok).
  specialize (H Hr). vm_compute in H. vm_compute. apply H. discriminate.
Defined.
(** An update that keeps the visibility goes through while a rotation is under way. *)
Definition same (region : string) : Request := PutDescriptor
  {| b_kind := "relay"; b_visibility := {| d_class := "blind"; d_level := "structural" |};
     b_policy := {| region := Some region; capabilities := []; contact := None; notes := None |}; confirm_downgrade := false |}.
Definition orderly : list Move :=
  [Arrives token (same "eu"); Arrives token RotateKeys; Arrives token (weaker false); Moves amb 0; Moves amb 1; Moves amb 0; Moves amb 2].
Lemma serialised_updates_keep_visibility_witness :
  region (ds_policy (desc (admin (run orderly start)))) = Some "eu"%string ∧
  is_downgrade (new Blind Structural) (ds_visibility (desc (admin (run orderly start)))) = false.
Proof.
  split; [vm_compute; reflexivity|].
  apply (serialised_updates_keep_visibility Relay (new Blind Structural) (KeyState_new key) InMemoryMeter_new (with_token "secret")).
  apply run_steps_along; [repeat (apply Forall_cons_2; [exact I|]); constructor|].
  repeat split; first [apply (bool_decide_unpack _); vm_compute; exact I | repeat constructor].
Defined.
Definition strong : DescriptorState := {| ds_kind := Relay; ds_visibility := new Blind Structural; ds_policy := OperatorPolicy_default |}.
Definition weak : DescriptorState := {| ds_kind := Relay; ds_visibility := new Terminating Declared; ds_policy := OperatorPolicy_default |}.
Definition stronger : DescriptorPutRequest :=
  {| b_kind := "relay"; b_visibility := {| d_class := "blind"; d_level := "structural" |}; b_policy := OperatorPolicy_default; confirm_downgrade := false |}.
Definition unchanged : DescriptorPutRequest :=
  {| b_kind := "relay"; b_visibility := {| d_class := "terminating"; d_level := "declared" |}; b_policy := OperatorPolicy_default; confirm_downgrade := false |}.
Definition weak_start : System := System_new Relay (new Terminating Declared) (KeyState_new key) InMemoryMeter_new (with_token "secret").
(** One request keeps the visibility as it is, the other strengthens it; at the end it
    has been strengthened and weakened again. *)
Lemma overlapping_updates_downgrade_witness :
  ∃ s1 s2, rtc step weak_start s1 ∧ rtc step s1 s2 ∧ desc (admin s1) = strong ∧ desc (admin s2) = weak ∧
    is_downgrade (ds_visibility (desc (admin s1))) (ds_visibility (desc (admin s2))) = true ∧ Forall (λ t, discloses (request t) = false) (running s2).
Proof.
  destruct (overlapping_updates_downgrade amb token unchanged stronger weak strong weak_start) as (s1 & s2 & r1 & r2 & H1 & H2 & H3 & H4 & H5);
    [vm_compute; reflexivity..|].
  exists s1, s2. split; [exact H1|]. split; [exact H2|]. split; [exact H3|]. split; [exact H4|]. rewrite H3, H4, H5.
  split; [reflexivity|]. repeat constructor.
Defined.
Lemma rotation_serves_unverifiable_witness :
  ∃ s' sd e, rtc step start s' ∧ SignedDescriptor_verify sd = Err e.
Proof.
  destruct (rotation_serves_unverifiable amb token start) as (s' & sd & ts & t & e & H1 & _ & H2); [vm_compute; reflexivity|discriminate|].
  exists s', sd, e. split; [exact H1|exact H2].
Defined.
Lemma rotations_out_of_order_witness : ∃ s', rtc step start s' ∧ history (keys (admin s')) = [key2; key].
Proof. destruct (rotations_out_of_order amb token start) as (s' & H1 & H2); [vm_compute; reflexivity|]. exists s'. split; [exact H1|exact H2]. Defined.
End OperatorTasksWitness.
