(* ===== verification/PrepaidTasks.v ===== *)
(** * The prepaid ledger under concurrent calls

    [crates/broker-billing/src/prepaid.rs] once more: the methods take [&self], and a
    ledger that is shared between threads is entered through several mutexes, one after
    another.  [BillingPrepaid] treats a call as one step.  Here a call is a sequence of
    critical sections - a top-up holds [credited_refs] from its check to its end, while
    the balance, the counter and the audit trail each have a lock of their own - and
    any number of calls interleave.  For every state so reached there is a state of the
    atomic ledger with the same balances and currency, and with the same entries in the
    audit trails up to their order and without their numbers, the entries of calls still
    under way included.  The order and the numbers themselves need not be those of any
    atomic run: [debits_out_of_order] shows a trail that no atomic run leaves. *)

From Stdlib Require Import ZArith Lia.
From stdpp Require Import base decidable option sets list strings gmap relations.
From S2P Require Import Prelude Kotva Descriptor BillingMeter BillingTariff BillingReceipt BillingPrepaid.
Local Open Scope Z_scope.

Module PrepaidTasks.

(** ** Calls *)

Inductive Op :=
| TopUp (payer : bytes) (amount : Z) (fref : string)
| Debit (payer : bytes) (bill : Bill)
| Refund (payer : bytes) (amount : Z).
(** What a call returns; [None] is the panic of a replay that finds no record. *)
Inductive Outcome :=
| ToppedUp (r : option TopUpRecord)
| Debited (r : result PrepaidError DebitRecord)
| Refunded (r : result PrepaidError RefundRecord).
Inductive Phase :=
| Called
| Replaying
| Checked
| Moved
| Numbered (seq : Z)
| Filed (r : TopUpRecord)
| Returned (o : Outcome).
Record Call := { op : Op; phase : Phase }.
Definition at_phase (ph : Phase) (c : Call) : Call := {| op := op c; phase := ph |}.

(** ** Critical sections *)

Definition with_balance (p : bytes) (b : Z) (l : PrepaidLedger) : PrepaidLedger := {|
  pl_currency := pl_currency l; low_balance_threshold := low_balance_threshold l; balances := <[p := b]> (balances l);
  top_ups := top_ups l; debits := debits l; refunds := refunds l; next_tx_seq := next_tx_seq l; credited_refs := credited_refs l |}.
Definition next_seq (l : PrepaidLedger) : Z * PrepaidLedger :=
  (next_tx_seq l, {|
  pl_currency := pl_currency l; low_balance_threshold := low_balance_threshold l; balances := balances l;
  top_ups := top_ups l; debits := debits l; refunds := refunds l; next_tx_seq := advanced l; credited_refs := credited_refs l |}).
Definition with_trails (t : list TopUpRecord) (d : list DebitRecord) (r : list RefundRecord) (l : PrepaidLedger) : PrepaidLedger := {|
  pl_currency := pl_currency l; low_balance_threshold := low_balance_threshold l; balances := balances l;
  top_ups := t; debits := d; refunds := r; next_tx_seq := next_tx_seq l; credited_refs := credited_refs l |}.
Definition with_credited (f : gset string) (l : PrepaidLedger) : PrepaidLedger := {|
  pl_currency := pl_currency l; low_balance_threshold := low_balance_threshold l; balances := balances l;
  top_ups := top_ups l; debits := debits l; refunds := refunds l; next_tx_seq := next_tx_seq l; credited_refs := f |}.

Definition top_up_record (p : bytes) (amount : Z) (fref : string) (seq : Z) (l : PrepaidLedger) : TopUpRecord :=
  {| tu_payer := p; tu_amount := amount; tu_currency := pl_currency l; funding_ref := fref; tu_tx_seq := seq |}.
Definition debit_record (p : bytes) (bill : Bill) (seq : Z) (l : PrepaidLedger) : DebitRecord :=
  {| de_payer := p; de_amount := bill_amount bill; de_currency := pl_currency l; de_tx_seq := seq |}.
Definition refund_record (p : bytes) (amount : Z) (seq : Z) (l : PrepaidLedger) : RefundRecord :=
  {| re_payer := p; re_amount := amount; re_currency := pl_currency l; re_tx_seq := seq |}.

(** The next section of a call of thread [i]; [holder] is the thread that holds
    [credited_refs].  [None]: it waits for that lock, or has returned.  In the order of
    the source: the check of the reference, the balance, the number ([next_seq]), the
    record and the mark of [top_up]; the balance, the number and the record of [debit] and
    of [refund]. *)
Definition section (i : nat) (o : Op) (ph : Phase) (holder : option nat) (l : PrepaidLedger) : option (Phase * option nat * PrepaidLedger) :=
  match o, ph with
  | TopUp p a f, Called =>
      match holder with
      | Some _ => None
      | None => if decide (f ∈ credited_refs l) then Some (Replaying, None, l) else Some (Checked, Some i, l)
      end
  | TopUp p a f, Replaying =>
      Some (Returned (ToppedUp (find_first (λ r, bool_decide (funding_ref r = f)) (top_ups l))), holder, l)
  | TopUp p a f, Checked => Some (Moved, holder, with_balance p (U64.saturating_add (balance p l) a) l)
  | TopUp p a f, Numbered n =>
      let r := top_up_record p a f n l in Some (Filed r, holder, with_trails (top_ups l ++ [r]) (debits l) (refunds l) l)
  | TopUp p a f, Filed r => Some (Returned (ToppedUp (Some r)), None, with_credited ({[f]} ∪ credited_refs l) l)
  | Debit p b, Called =>
      if decide (bill_currency b ≠ pl_currency l) then
        Some (Returned (Debited (Err (CurrencyMismatch (bill_currency b) (pl_currency l)))), holder, l)
      else if balance p l <? bill_amount b then
        Some (Returned (Debited (Err (Exhausted p (balance p l) (bill_amount b) (pl_currency l)))), holder, l)
      else Some (Moved, holder, with_balance p (balance p l - bill_amount b) l)
  | Debit p b, Numbered n =>
      let r := debit_record p b n l in Some (Returned (Debited (Ok r)), holder, with_trails (top_ups l) (debits l ++ [r]) (refunds l) l)
  | Refund p a, Called =>
      if balance p l <? a then Some (Returned (Refunded (Err (RefundExceedsBalance p a (balance p l)))), holder, l)
      else Some (Moved, holder, with_balance p (balance p l - a) l)
  | Refund p a, Numbered n =>
      let r := refund_record p a n l in Some (Returned (Refunded (Ok r)), holder, with_trails (top_ups l) (debits l) (refunds l ++ [r]) l)
  | _, Moved => let '(n, l) := next_seq l in Some (Numbered n, holder, l)
  | _, _ => None
  end.

(** ** A shared ledger *)

Record Shared := { ledger : PrepaidLedger; holder : option nat; calls : list Call }.
Definition Shared_new (cur : string) (thr : Z) : Shared := {| ledger := PrepaidLedger_new cur thr; holder := None; calls := [] |}.
Definition amount_ok (o : Op) : Prop :=
  match o with TopUp _ a _ => U64.valid a | Debit _ b => U64.valid (bill_amount b) | Refund _ a => U64.valid a end.
Inductive step : Shared → Shared → Prop :=
| s_call o s : amount_ok o → step s {| ledger := ledger s; holder := holder s; calls := calls s ++ [{| op := o; phase := Called |}] |}
| s_section i c ph h l s :
    calls s !! i = Some c → section i (op c) (phase c) (holder s) (ledger s) = Some (ph, h, l) →
    step s {| ledger := l; holder := h; calls := <[i := at_phase ph c]> (calls s) |}.

(** A call that runs with nothing in between is the method. *)
Fixpoint alone (n : nat) (i : nat) (o : Op) (ph : Phase) (h : option nat) (l : PrepaidLedger) : Phase * option nat * PrepaidLedger :=
  match n with
  | O => (ph, h, l)
  | S n => match section i o ph h l with Some (ph, h, l) => alone n i o ph h l | None => (ph, h, l) end
  end.
Definition method (o : Op) (l : PrepaidLedger) : Outcome * PrepaidLedger :=
  match o with
  | TopUp p a f => match top_up p a f l with Some (r, l) => (ToppedUp (Some r), l) | None => (ToppedUp None, l) end
  | Debit p b => let '(r, l) := debit p b l in (Debited r, l)
  | Refund p a => let '(r, l) := refund p a l in (Refunded r, l)
  end.
Theorem alone_is_method i o l :
  alone 5 i o Called None l = (Returned (method o l).1, None, (method o l).2).
Proof.
  destruct o as [p a f|p b|p a]; cbn [alone section method].
  - unfold top_up. destruct (decide (f ∈ credited_refs l)); cbn [alone section]; [by destruct (find_first _ _)|reflexivity].
  - unfold debit. destruct (decide _); [done|]. destruct (balance p l <? bill_amount b); reflexivity.
  - unfold refund. destruct (balance p l <? a); reflexivity.
Qed.

(** ** Refinement of the atomic ledger *)

(** An entry of an audit trail without its number. *)
Definition top_up_entry (r : TopUpRecord) : bytes * Z * string * string := (tu_payer r, tu_amount r, tu_currency r, funding_ref r).
Definition debit_entry (r : DebitRecord) : bytes * Z * string := (de_payer r, de_amount r, de_currency r).
Definition refund_entry (r : RefundRecord) : bytes * Z * string := (re_payer r, re_amount r, re_currency r).
(** The balance has changed and the record is not on file yet. *)
Definition under_way (ph : Phase) : bool := match ph with Moved | Numbered _ => true | _ => false end.
Definition due_top_ups (cur : string) (c : Call) : list (bytes * Z * string * string) :=
  match op c with TopUp p a f => if under_way (phase c) then [(p, a, cur, f)] else [] | _ => [] end.
Definition due_debits (cur : string) (c : Call) : list (bytes * Z * string) :=
  match op c with Debit p b => if under_way (phase c) then [(p, bill_amount b, cur)] else [] | _ => [] end.
Definition due_refunds (cur : string) (c : Call) : list (bytes * Z * string) :=
  match op c with Refund p a => if under_way (phase c) then [(p, a, cur)] else [] | _ => [] end.
Definition taken_numbers (c : Call) : list Z := match phase c with Numbered n => [n] | _ => [] end.
(** The reference of a top-up whose balance has changed and that is not marked yet. *)
Definition unmarked (c : Call) : list string :=
  match op c, phase c with TopUp _ _ f, (Moved | Numbered _ | Filed _) => [f] | _, _ => [] end.
Definition due {A} (f : Call → list A) (s : Shared) : list A := concat (f <$> calls s).

Record refines (s : Shared) (l : PrepaidLedger) : Prop := {
  rf_currency : pl_currency l = pl_currency (ledger s);
  rf_balances : balances l = balances (ledger s);
  rf_top_ups : top_up_entry <$> top_ups l ≡ₚ (top_up_entry <$> top_ups (ledger s)) ++ due (due_top_ups (pl_currency (ledger s))) s;
  rf_debits : debit_entry <$> debits l ≡ₚ (debit_entry <$> debits (ledger s)) ++ due (due_debits (pl_currency (ledger s))) s;
  rf_refunds : refund_entry <$> refunds l ≡ₚ (refund_entry <$> refunds (ledger s)) ++ due (due_refunds (pl_currency (ledger s))) s;
  rf_credited f : f ∈ credited_refs l ↔ f ∈ credited_refs (ledger s) ∨ f ∈ due unmarked s;
}.
(** A top-up past its check holds the lock. *)
Definition inside (c : Call) : Prop :=
  match op c, phase c with TopUp _ _ _, (Checked | Moved | Numbered _ | Filed _) => True | _, _ => False end.
Definition call_ok (s : Shared) (c : Call) : Prop :=
  amount_ok (op c) ∧
  match op c, phase c with
  | TopUp _ _ f, Checked => f ∉ credited_refs (ledger s)
  | TopUp _ _ f, Replaying => f ∈ credited_refs (ledger s)
  | TopUp _ _ f, Filed r => r ∈ top_ups (ledger s) ∧ funding_ref r = f
  | (Debit _ _ | Refund _ _), (Replaying | Checked | Filed _) => False
  | _, Returned (ToppedUp None) => False
  | _, _ => True
  end.
Record sound (s : Shared) : Prop := {
  so_lock i c : calls s !! i = Some c → inside c → holder s = Some i;
  so_holder i : holder s = Some i → ∃ c, calls s !! i = Some c ∧ inside c;
  so_calls : Forall (call_ok s) (calls s);
  so_records f : f ∈ credited_refs (ledger s) → ∃ r, r ∈ top_ups (ledger s) ∧ funding_ref r = f;
  so_numbers : seqs_ok (all_seqs (ledger s) ++ due taken_numbers s) (next_tx_seq (ledger s));
}.

(** The other calls. *)
Definition others (i : nat) (s : Shared) : list Call := take i (calls s) ++ drop (S i) (calls s).
Lemma due_at {A} (f : Call → list A) s i c : calls s !! i = Some c → due f s ≡ₚ f c ++ concat (f <$> others i s).
Proof.
  intros H. unfold due, others. rewrite <- (take_drop_middle (calls s) i c) at 1 by done. rewrite !fmap_app, !concat_app, fmap_cons. cbn. solve_Permutation.
Qed.
Lemma due_update {A} (f : Call → list A) s i c c' l h :
  calls s !! i = Some c →
  due f {| ledger := l; holder := h; calls := <[i := c']> (calls s) |} ≡ₚ f c' ++ concat (f <$> others i s).
Proof.
  intros H. rewrite (due_at f _ i c') by (cbn; by rewrite list_lookup_insert_eq by (by eapply lookup_lt_Some)).
  unfold others. cbn. by rewrite take_insert_ge, drop_insert_lt by lia.
Qed.
Lemma due_elem {A} (f : Call → list A) s x : x ∈ due f s ↔ ∃ i c, calls s !! i = Some c ∧ x ∈ f c.
Proof.
  unfold due. rewrite list_elem_of_In, in_concat. setoid_rewrite <- list_elem_of_In. setoid_rewrite list_elem_of_fmap. split.
  - intros (y & (c & -> & [i Hi]%list_elem_of_lookup) & Hx). eauto.
  - intros (i & c & Hi & Hx). exists (f c). split; [|done]. exists c. split; [done|]. by eapply list_elem_of_lookup_2.
Qed.
(** While a top-up is inside, no other one is. *)
Lemma inside_alone s i c x j d : sound s → calls s !! i = Some c → inside c → calls s !! j = Some d → x ∈ unmarked d → j = i.
Proof.
  intros S Hi Hc Hj Hx. pose proof (so_lock s S i c Hi Hc) as H1. rewrite (so_lock s S j d Hj) in H1; [by injection H1|].
  unfold inside, unmarked in *. destruct (op d), (phase d); try done; by apply elem_of_nil in Hx.
Qed.

Lemma top_up_fresh p a f l :
  f ∉ credited_refs l →
  top_up p a f l = Some (top_up_record p a f (next_tx_seq l) l, {|
    pl_currency := pl_currency l; low_balance_threshold := low_balance_threshold l; balances := <[p := U64.saturating_add (balance p l) a]> (balances l);
    top_ups := top_ups l ++ [top_up_record p a f (next_tx_seq l) l]; debits := debits l; refunds := refunds l;
    next_tx_seq := advanced l; credited_refs := {[f]} ∪ credited_refs l |}).
Proof. intros H. unfold top_up. by rewrite decide_False. Qed.
(** Each section is a step of the atomic ledger, the one that changes the balance, or
    none. *)
Lemma section_refines i o ph0 ph h l' s L :
  calls s !! i = Some {| op := o; phase := ph0 |} → section i o ph0 (holder s) (ledger s) = Some (ph, h, l') → sound s → refines s L →
  ∃ L', rtc ledger_step L L' ∧ refines {| ledger := l'; holder := h; calls := <[i := {| op := o; phase := ph |}]> (calls s) |} L'.
Proof.
  intros Hc H S [R1 R2 R3 R4 R5 R6]. pose proof (Forall_lookup_1 _ _ _ _ (so_calls s S) Hc) as [Ham Hok]. cbn [op phase] in *.
  assert (∀ x, inside {| op := o; phase := ph0 |} → x ∈ due unmarked s → x ∈ unmarked {| op := o; phase := ph0 |}) as Hmine.
  { intros x Hin (j & d & Hj & Hx)%due_elem. assert (j = i) as -> by (by eapply inside_alone). congruence. }
  assert (balance (match o with TopUp p _ _ | Debit p _ | Refund p _ => p end) L = balance (match o with TopUp p _ _ | Debit p _ | Refund p _ => p end) (ledger s)) as Hbal by (unfold balance; by rewrite R2).
  assert (∀ x, x ∈ credited_refs L → x ∈ credited_refs (ledger s) ∨ x ∈ due unmarked s) as R7 by (intros x; by rewrite R6).
  rewrite (due_at _ s i _ Hc) in R3. rewrite (due_at _ s i _ Hc) in R4. rewrite (due_at _ s i _ Hc) in R5. setoid_rewrite (due_at _ s i _ Hc) in R6.
  assert (∀ L', pl_currency L' = pl_currency l' → balances L' = balances l' →
    top_up_entry <$> top_ups L' ≡ₚ (top_up_entry <$> top_ups l') ++ due_top_ups (pl_currency l') {| op := o; phase := ph |} ++ concat (due_top_ups (pl_currency l') <$> others i s) →
    debit_entry <$> debits L' ≡ₚ (debit_entry <$> debits l') ++ due_debits (pl_currency l') {| op := o; phase := ph |} ++ concat (due_debits (pl_currency l') <$> others i s) →
    refund_entry <$> refunds L' ≡ₚ (refund_entry <$> refunds l') ++ due_refunds (pl_currency l') {| op := o; phase := ph |} ++ concat (due_refunds (pl_currency l') <$> others i s) →
    (∀ f, f ∈ credited_refs L' ↔ f ∈ credited_refs l' ∨ f ∈ unmarked {| op := o; phase := ph |} ++ concat (unmarked <$> others i s)) →
    refines {| ledger := l'; holder := h; calls := <[i := {| op := o; phase := ph |}]> (calls s) |} L') as Hmk.
  { intros L' E1 E2 E3 E4 E5 E6. split; cbn [ledger]; rewrite ?(due_update _ s i _ _ _ _ Hc); try done. intros f. by rewrite (due_update _ s i _ _ _ _ Hc). }
  destruct o as [p a f|p b|p a], ph0 as [| | | |n|r|out]; cbn [section] in H; try done.
  - destruct (holder s) eqn:Eh; [done|]. destruct (decide (f ∈ credited_refs (ledger s))); injection H as <- <- <-; (exists L; split; [apply rtc_refl|by apply Hmk]).
  - injection H as <- <- <-. exists L. split; [apply rtc_refl|by apply Hmk].
  - injection H as <- <- <-. assert (f ∉ credited_refs L) as Hf.
    { intros [Hin|Hin]%R7; [done|]. apply Hmine in Hin; [by apply elem_of_nil in Hin|done]. }
    eexists. split; [by eapply rtc_once, (step_top_up p a f), top_up_fresh|]. apply Hmk; cbn; [done|by rewrite Hbal, R2| |done|done|].
    + rewrite fmap_app, R3. cbn. unfold top_up_entry at 2, top_up_record. cbn. rewrite R1. solve_Permutation.
    + intros x. specialize (R6 x). cbn in R6. rewrite elem_of_union, elem_of_singleton, elem_of_cons, R6. tauto.
  - injection H as <- <- <-. exists L. split; [apply rtc_refl|by apply Hmk].
  - injection H as <- <- <-. exists L. split; [apply rtc_refl|]. apply Hmk; try done. cbn. rewrite R3, fmap_app. cbn. solve_Permutation.
  - injection H as <- <- <-. exists L. split; [apply rtc_refl|]. apply Hmk; try done. intros x. specialize (R6 x). cbn in R6 |- *. rewrite elem_of_union, elem_of_singleton, R6, elem_of_cons. tauto.
  - destruct (decide _) as [|Hcur]; [injection H as <- <- <-; exists L; split; [apply rtc_refl|by apply Hmk]|].
    destruct (balance p (ledger s) <? bill_amount b) eqn:Eb; injection H as <- <- <-; [exists L; split; [apply rtc_refl|by apply Hmk]|].
    eexists. split; [eapply rtc_once, (step_debit p b); [done|]; unfold debit; rewrite R1, decide_False, Hbal, Eb by done; reflexivity|].
    apply Hmk; cbn; [done|by rewrite R2|done| |done|done]. rewrite fmap_app, R4. cbn. solve_Permutation.
  - injection H as <- <- <-. exists L. split; [apply rtc_refl|by apply Hmk].
  - injection H as <- <- <-. exists L. split; [apply rtc_refl|]. apply Hmk; try done. cbn. rewrite R4, fmap_app. cbn. solve_Permutation.
  - destruct (balance p (ledger s) <? a) eqn:Eb; injection H as <- <- <-; [exists L; split; [apply rtc_refl|by apply Hmk]|].
    eexists. split; [eapply rtc_once, (step_refund p a); [done|]; unfold refund; rewrite Hbal, Eb; reflexivity|].
    apply Hmk; cbn; [done|by rewrite R2|done|done| |done]. rewrite fmap_app, R5. cbn. rewrite R1. solve_Permutation.
  - injection H as <- <- <-. exists L. split; [apply rtc_refl|by apply Hmk].
  - injection H as <- <- <-. exists L. split; [apply rtc_refl|]. apply Hmk; try done. cbn. rewrite R5, fmap_app. cbn. solve_Permutation.
Qed.

(** ** Soundness of the shared state *)

(** What the sections of other calls leave of the facts about a call. *)
Lemma call_ok_mono s s' c :
  (∀ f, f ∈ credited_refs (ledger s) → f ∈ credited_refs (ledger s')) → (∀ r, r ∈ top_ups (ledger s) → r ∈ top_ups (ledger s')) →
  (∀ f, inside c → f ∈ credited_refs (ledger s') → f ∈ credited_refs (ledger s)) → call_ok s c → call_ok s' c.
Proof.
  intros H1 H2 H3 [Ha Hc]. split; [done|]. unfold inside in H3. destruct (op c) as [p a f|p b|p a], (phase c) as [| | | | |r|[[]| |]]; try done; auto.
  destruct Hc as [Hr Hf]. by split; [apply H2|].
Qed.
Record grows (i : nat) (ph0 : Phase) (h0 h : option nat) (l l' : PrepaidLedger) : Prop := {
  gr_top_ups r : r ∈ top_ups l → r ∈ top_ups l';
  gr_credited f : f ∈ credited_refs l → f ∈ credited_refs l';
  gr_marks : credited_refs l' = credited_refs l ∨ h = None ∧ ∃ r, ph0 = Filed r;
  gr_holder : h = h0 ∨ h = None ∧ (∃ r, ph0 = Filed r) ∨ h0 = None ∧ h = Some i;
}.
Lemma grows_same i ph0 h l l' : top_ups l' = top_ups l → credited_refs l' = credited_refs l → grows i ph0 h h l l'.
Proof. intros E1 E2. split; rewrite ?E1, ?E2; auto. Qed.
Lemma section_grows i o ph0 h0 l ph h l' : section i o ph0 h0 l = Some (ph, h, l') → grows i ph0 h0 h l l'.
Proof.
  destruct o as [p a f|p b|p a], ph0 as [| | | |n|r|out]; cbn [section]; intros H; try done;
    try (injection H as <- <- <-; by apply grows_same).
  - destruct h0; [done|]. destruct (decide _); injection H as <- <- <-; [by apply grows_same|]. split; auto.
  - injection H as <- <- <-. split; cbn; auto. intros r Hr. apply elem_of_app. by left.
  - injection H as <- <- <-. split; cbn; eauto. intros x Hx. apply elem_of_union. by right.
  - destruct (decide _); [injection H as <- <- <-; by apply grows_same|]. destruct (_ <? _); injection H as <- <- <-; by apply grows_same.
  - destruct (_ <? _); injection H as <- <- <-; by apply grows_same.
Qed.
(** The call itself. *)
Lemma section_call_ok i o ph0 ph h l' s cs :
  calls s !! i = Some {| op := o; phase := ph0 |} → section i o ph0 (holder s) (ledger s) = Some (ph, h, l') → sound s →
  call_ok {| ledger := l'; holder := h; calls := cs |} {| op := o; phase := ph |} ∧
  (inside {| op := o; phase := ph |} → h = Some i) ∧
  (∀ f, f ∈ credited_refs l' → ∃ r, r ∈ top_ups l' ∧ funding_ref r = f).
Proof.
  intros Hc H S. pose proof (Forall_lookup_1 _ _ _ _ (so_calls s S) Hc) as [Ham Hok]. pose proof (so_lock s S i _ Hc) as Hlk. cbn [op phase] in *.
  pose proof (section_grows _ _ _ _ _ _ _ _ H) as [Gt _ _ _].
  assert (credited_refs l' = credited_refs (ledger s) → ∀ f, f ∈ credited_refs l' → ∃ r, r ∈ top_ups l' ∧ funding_ref r = f) as Hrec.
  { intros -> f (r & Hr & Hf)%(so_records s S). exists r. split; [by apply Gt|done]. }
  unfold call_ok, inside. cbn [op phase ledger].
  destruct o as [p a f|p b|p a], ph0 as [| | | |n|r|out]; cbn [section] in H; try done;
    try (injection H as <- <- <-; split_and!; first [done|by apply Hrec|by intros; apply Hlk]).
  - destruct (holder s); [done|]. destruct (decide _) as [Hin|Hin]; injection H as <- <- <-; split_and!; try done; by apply Hrec.
  - injection H as <- <- <-. split_and!; try done; [|by apply Hrec]. destruct (so_records s S f Hok) as (r & Hr & Hf).
    destruct (find_first_is_Some (λ r', bool_decide (funding_ref r' = f)) _ r Hr) as [r' ->]; [by rewrite bool_decide_eq_true|done].
  - injection H as <- <- <-. split_and!; try done; [|by apply Hrec]. cbn. apply elem_of_app. right. by apply list_elem_of_singleton.
  - injection H as <- <- <-. split_and!; try done. cbn. intros x [Hx|Hx]%elem_of_union; [apply elem_of_singleton in Hx as ->; by exists r|by apply (so_records s S)].
  - destruct (decide _); [injection H as <- <- <-; split_and!; try done; by apply Hrec|].
    destruct (_ <? _); injection H as <- <- <-; split_and!; try done; by apply Hrec.
  - destruct (_ <? _); injection H as <- <- <-; split_and!; try done; by apply Hrec.
Qed.
Lemma section_numbers i o ph0 ph h l' s :
  calls s !! i = Some {| op := o; phase := ph0 |} → section i o ph0 (holder s) (ledger s) = Some (ph, h, l') →
  seqs_ok (all_seqs (ledger s) ++ due taken_numbers s) (next_tx_seq (ledger s)) →
  seqs_ok (all_seqs l' ++ due taken_numbers {| ledger := l'; holder := h; calls := <[i := {| op := o; phase := ph |}]> (calls s) |}) (next_tx_seq l').
Proof.
  intros Hc H Hs.
  assert (∀ seqs seqs' next, seqs ≡ₚ seqs' → seqs_ok seqs next → seqs_ok seqs' next) as Hperm.
  { intros x y n Hp. unfold seqs_ok. rewrite (Permutation_length Hp). intros [-> Hx]. split; [done|]. intros Hm. destruct (Hx Hm) as [H1 H2]. by rewrite <- Hp. }
  assert (∀ xs ys, all_seqs l' ++ xs ≡ₚ all_seqs (ledger s) ++ ys → next_tx_seq l' = next_tx_seq (ledger s) →
    xs = taken_numbers {| op := o; phase := ph |} → ys = taken_numbers {| op := o; phase := ph0 |} →
    seqs_ok (all_seqs l' ++ due taken_numbers {| ledger := l'; holder := h; calls := <[i := {| op := o; phase := ph |}]> (calls s) |}) (next_tx_seq l')) as Hsame.
  { intros xs ys Hp -> -> ->. eapply Hperm; [|exact Hs]. rewrite (due_update _ s i _ _ _ _ Hc), (due_at _ s i _ Hc), !app_assoc. by rewrite Hp. }
  destruct ph0 as [| | | |n|r|out].
  4: { assert (ph = Numbered (next_tx_seq (ledger s)) ∧ l' = (next_seq (ledger s)).2) as [-> ->] by (destruct o; cbn in H; by injection H as <- <- <-).
    cbn [next_seq snd next_tx_seq]. eapply seqs_ok_extend; [exact Hs|]. rewrite (due_update _ s i _ _ _ _ Hc), (due_at _ s i _ Hc). cbn. unfold all_seqs. cbn. solve_Permutation. }
  all: destruct o as [p a f|p b|p a]; cbn [section] in H; try done;
    try (injection H as <- <- <-; apply (Hsame [] []); [|done..]; unfold all_seqs; reflexivity).
  - destruct (holder s); [done|]. destruct (decide _); injection H as <- <- <-; by apply (Hsame [] []).
  - destruct (decide _); [|destruct (_ <? _)]; injection H as <- <- <-; by apply (Hsame [] []).
  - destruct (_ <? _); injection H as <- <- <-; by apply (Hsame [] []).
  - injection H as <- <- <-. apply (Hsame [] [n]); [|done..]. unfold all_seqs. cbn. rewrite fmap_app. cbn. solve_Permutation.
  - injection H as <- <- <-. apply (Hsame [] [n]); [|done..]. unfold all_seqs. cbn. rewrite fmap_app. cbn. solve_Permutation.
  - injection H as <- <- <-. apply (Hsame [] [n]); [|done..]. unfold all_seqs. cbn. rewrite fmap_app. cbn. solve_Permutation.
Qed.
Lemma section_inside i o ph0 h0 l ph h l' :
  section i o ph0 h0 l = Some (ph, h, l') → (h0 = Some i → inside {| op := o; phase := ph0 |}) → h = Some i → inside {| op := o; phase := ph |}.
Proof.
  intros H Hin ->. unfold inside in *. cbn [op phase] in *.
  destruct o as [p a f|p b|p a], ph0 as [| | | |n|r|out]; cbn [section next_seq] in H; try done;
    repeat case_match; simplify_eq; try done; by apply Hin.
Qed.
Lemma ledger_step_sound s s' : step s s' → sound s → sound s'.
Proof.
  intros Hs S. destruct Hs as [o s Ha|i [o ph0] ph h l' s Hc H].
  - split; cbn [ledger holder calls].
    + intros i c [Hi|[_ [_ <-]%list_lookup_singleton_Some]]%lookup_app_Some; [by apply (so_lock s S)|]. by destruct o.
    + intros i (c & Hc & Hin)%(so_holder s S). exists c. split; [by apply lookup_app_l_Some|done].
    + apply Forall_app. split; [apply S|]. apply Forall_singleton. by split; destruct o.
    + apply S.
    + unfold due. cbn. rewrite fmap_app, concat_app. cbn. rewrite app_nil_r. apply S.
  - cbn [op phase at_phase] in *. destruct (section_call_ok _ _ _ _ _ _ _ (<[i := {| op := o; phase := ph |}]> (calls s)) Hc H S) as (C1 & C2 & C3).
    pose proof (section_grows _ _ _ _ _ _ _ _ H) as [G1 G2 G3 G4].
    assert (∀ j c, j ≠ i → calls s !! j = Some c → inside c → h = Some j ∧ credited_refs l' = credited_refs (ledger s)) as Hothers.
    { intros j c Hne Hj Hin. pose proof (so_lock s S j c Hj Hin) as Hh. destruct G4 as [->|[[-> [r ->]]|[E _]]]; [|exfalso|congruence].
      - split; [done|]. destruct G3 as [|[E _]]; [done|congruence].
      - assert (inside {| op := o; phase := Filed r |}) as Hi by (by destruct o). pose proof (so_lock s S i _ Hc Hi). congruence. }
    split; cbn [ledger holder calls].
    + intros j c Hj Hin. destruct (decide (j = i)) as [->|Hne].
      * rewrite list_lookup_insert_eq in Hj by (by eapply lookup_lt_Some). injection Hj as <-. by apply C2.
      * rewrite list_lookup_insert_ne in Hj by done. by apply (Hothers j c).
    + intros j ->. destruct (decide (j = i)) as [->|Hne].
      * exists {| op := o; phase := ph |}. rewrite list_lookup_insert_eq by (by eapply lookup_lt_Some). split; [done|].
        eapply section_inside; [exact H| |done]. intros (c & E & Hin)%(so_holder s S). congruence.
      * destruct (so_holder s S j) as (c & Hj & Hin); [destruct G4 as [->|[[? _]|[_ ?]]]; congruence|].
        exists c. by rewrite list_lookup_insert_ne.
    + apply Forall_lookup. intros j c Hj. destruct (decide (j = i)) as [->|Hne].
      * rewrite list_lookup_insert_eq in Hj by (by eapply lookup_lt_Some). by injection Hj as <-.
      * rewrite list_lookup_insert_ne in Hj by done. apply (call_ok_mono s); cbn; [done|done| |by eapply (Forall_lookup_1 _ _ _ _ (so_calls s S))].
        intros f Hin. destruct (Hothers j c Hne Hj Hin) as [_ ->]. done.
    + done.
    + by eapply section_numbers, S.
Qed.
Lemma new_sound cur thr : sound (Shared_new cur thr).
Proof.
  split; cbn; try done. split; [done|]. intros _. split; [by apply NoDup_nil_2|constructor].
Qed.
Lemma ledger_reachable_sound cur thr s : rtc step (Shared_new cur thr) s → sound s ∧ ∃ l, reachable cur thr l ∧ refines s l.
Proof.
  intros Hr. enough (∀ l, sound (Shared_new cur thr) → refines (Shared_new cur thr) l → sound s ∧ ∃ l', rtc ledger_step l l' ∧ refines s l') as H.
  { apply (H (PrepaidLedger_new cur thr)); [apply new_sound|]. split; cbn; try done. intros f. rewrite elem_of_nil. tauto. }
  induction Hr as [s|s1 s2 s3 Hs _ IH]; intros l S R; [by eauto using rtc_refl|].
  assert (∃ l1, rtc ledger_step l l1 ∧ refines s2 l1) as (l1 & H1 & R1).
  { destruct Hs as [o s Ha|i [o ph0] ph h l' s Hc H]; [|by eapply section_refines].
    exists l. split; [apply rtc_refl|]. destruct R as [R1 R2 R3 R4 R5 R6].
    assert (∀ A (f : Call → list A), f {| op := o; phase := Called |} = [] →
      due f {| ledger := ledger s; holder := holder s; calls := calls s ++ [{| op := o; phase := Called |}] |} = due f s) as Hd.
    { intros A f E. unfold due. cbn. rewrite fmap_app, concat_app. cbn. by rewrite E, !app_nil_r. }
    split; cbn [ledger]; rewrite ?Hd by (by destruct o); done. }
  destruct (IH l1 (ledger_step_sound _ _ Hs S) R1) as (S3 & l' & H3 & R3). split; [done|]. exists l'. split; [by etrans|done].
Qed.

(** ** What it amounts to *)

Definition returned (c : Call) : Prop := ∃ o, phase c = Returned o.
Definition entries_of {A} (key : A → bytes) (amount : A → Z) (p : bytes) (l : list A) : Z := sum_Z (amount <$> filter (λ r, key r = p) l).
Lemma entries_perm {A} (key : A → bytes) amount p l k : l ≡ₚ k → entries_of key amount p l = entries_of key amount p k.
Proof.
  intros H. unfold entries_of. assert (amount <$> filter (λ r, key r = p) l ≡ₚ amount <$> filter (λ r, key r = p) k) as Hp by (by rewrite H).
  unfold sum_Z. clear H. induction Hp; cbn; lia.
Qed.
Lemma entries_fmap {A B} (f : A → B) (key : B → bytes) amount p l :
  entries_of key amount p (f <$> l) = sum_Z (amount ∘ f <$> filter (λ r, key (f r) = p) l).
Proof.
  unfold entries_of. induction l as [|x l IH]; [done|]. rewrite fmap_cons, !filter_cons. repeat case_decide; try done. unfold sum_Z in *. cbn. by rewrite IH.
Qed.
Lemma nothing_due {A} (f : Call → list A) s : (∀ c, returned c → f c = []) → Forall returned (calls s) → due f s = [].
Proof. intros Hf H. unfold due. induction H as [|c cs Hc _ IH]; [done|]. cbn. by rewrite Hf, IH. Qed.

(** C1: Whatever calls are made of a shared ledger, and however their critical sections
    interleave: there is a reachable state of the atomic ledger with the same currency
    and balances, and with the same audit trails up to the order of the entries and
    leaving their sequence numbers out, where for a call that has changed the balance
    and not yet filed its record, the record counts as filed, and the reference of a
    top-up as credited.  Order and numbers are not claimed to be those of an atomic run,
    and need not be ([debits_out_of_order]).  When all calls have returned, the books of
    every payer balance (below the cap); no replayed top-up panics; and no two records
    have the same number before the counter wraps. *)
Theorem shared_ledger_refines_atomic cur thr s :
  rtc step (Shared_new cur thr) s →
  (∃ l, reachable cur thr l ∧ refines s l) ∧
  (Forall returned (calls s) → ∀ p, U64.valid (balance p (ledger s)) ∧
     (topped_up p (ledger s) ≤ U64.MAX →
      balance p (ledger s) + debited p (ledger s) + refunded p (ledger s) = topped_up p (ledger s))) ∧
  Forall (λ c, phase c ≠ Returned (ToppedUp None)) (calls s) ∧
  (Z.of_nat (length (all_seqs (ledger s) ++ due taken_numbers s)) ≤ U64.MAX → NoDup (all_seqs (ledger s))).
Proof.
  intros Hr. destruct (ledger_reachable_sound cur thr s Hr) as (S & l & Hl & R). split; [by exists l|]. split; [|split].
  - intros Hret p. destruct R as [_ R2 R3 R4 R5 _]. pose proof (reachable_inv _ _ _ Hl) as I.
    rewrite nothing_due, app_nil_r in R3 by (try done; intros c [o E]; unfold due_top_ups; rewrite E; by destruct (op c)).
    rewrite nothing_due, app_nil_r in R4 by (try done; intros c [o E]; unfold due_debits; rewrite E; by destruct (op c)).
    rewrite nothing_due, app_nil_r in R5 by (try done; intros c [o E]; unfold due_refunds; rewrite E; by destruct (op c)).
    pose proof (entries_perm (λ e, e.1.1.1) (λ e, e.1.1.2) p _ _ R3) as E3. pose proof (entries_perm (λ e, e.1.1) (λ e, e.1.2) p _ _ R4) as E4.
    pose proof (entries_perm (λ e, e.1.1) (λ e, e.1.2) p _ _ R5) as E5. rewrite !entries_fmap in E3. rewrite !entries_fmap in E4. rewrite !entries_fmap in E5.
    assert (balance p l = balance p (ledger s)) as Eb by (unfold balance; by rewrite R2).
    pose proof (inv_balance l I p) as Hv. pose proof (inv_conserved l I p) as Hc. rewrite Eb in Hv, Hc. 
    change (topped_up p l = topped_up p (ledger s)) in E3. change (debited p l = debited p (ledger s)) in E4. change (refunded p l = refunded p (ledger s)) in E5.
    by rewrite E3, E4, E5 in Hc.
  - eapply Forall_impl; [apply (so_calls s S)|]. intros c [_ Hc] E. rewrite E in Hc. by destruct (op c).
  - intros Hlen. destruct (proj2 (so_numbers s S) Hlen) as [Hnd _]. by apply NoDup_app in Hnd as [? _].
Qed.

(** *** Progress *)

Definition left (ph : Phase) : nat :=
  match ph with Called => 5 | Checked => 4 | Moved => 3 | Numbered _ => 2 | Filed _ | Replaying => 1 | Returned _ => 0 end.
Definition sections_left (s : Shared) : nat := sum_list_with (left ∘ phase) (calls s).
Lemma section_left i o ph0 h0 l ph h l' : section i o ph0 h0 l = Some (ph, h, l') → (left ph < left ph0)%nat.
Proof.
  destruct o as [p a f|p b|p a], ph0 as [| | | |n|r|out]; cbn [section next_seq]; intros H; try done; repeat case_match; simplify_eq; cbn; lia.
Qed.
Lemma sections_left_update s i c ph l h :
  calls s !! i = Some c → (left ph < left (phase c))%nat →
  (sections_left {| ledger := l; holder := h; calls := <[i := at_phase ph c]> (calls s) |} < sections_left s)%nat.
Proof.
  intros Hc Hlt. unfold sections_left. cbn [calls]. rewrite insert_take_drop by (by eapply lookup_lt_Some).
  rewrite <- (take_drop_middle (calls s) i c) at 3 by done. rewrite !sum_list_with_app. cbn. lia.
Qed.
Lemma inside_enabled i o ph h l : inside {| op := o; phase := ph |} → is_Some (section i o ph h l).
Proof. unfold inside. cbn. destruct o, ph; try done; by eexists. Qed.
Lemma enabled s : sound s → ¬ Forall returned (calls s) → ∃ i c x, calls s !! i = Some c ∧ section i (op c) (phase c) (holder s) (ledger s) = Some x.
Proof.
  intros S Hn. assert (∃ i c, calls s !! i = Some c ∧ ¬ returned c) as (i & [o ph] & Hi & Hc).
  { apply not_Forall_Exists in Hn; [|intros c; unfold returned; destruct (phase c); (left; by eexists) || (right; by intros [? ?])].
    apply Exists_exists in Hn as (c & [i Hi]%list_elem_of_lookup & Hc). by exists i, c. }
  destruct (section i o ph (holder s) (ledger s)) as [x|] eqn:E; [by exists i, {| op := o; phase := ph |}, x|].
  destruct (holder s) as [j|] eqn:Eh.
  - destruct (so_holder s S j Eh) as ([o' ph'] & Hj & Hin). destruct (inside_enabled j o' ph' (Some j) (ledger s) Hin) as [x Hx].
    by exists j, {| op := o'; phase := ph' |}, x.
  - exfalso. pose proof (Forall_lookup_1 _ _ _ _ (so_calls s S) Hi) as [_ Hok]. cbn [op phase] in *.
    destruct o as [p a f|p b|p a], ph as [| | | |n|r|out]; cbn [section next_seq] in E; try done; repeat case_match; try done; apply Hc; by eexists.
Qed.
(** No call waits forever for the lock: from any state all the calls under way can
    return, without any other call. *)
Theorem no_call_is_stuck cur thr s :
  rtc step (Shared_new cur thr) s →
  ∃ s', rtc step s s' ∧ Forall returned (calls s') ∧ op <$> calls s' = (op <$> calls s).
Proof.
  intros Hr. destruct (ledger_reachable_sound cur thr s Hr) as [S _]. clear Hr. remember (sections_left s) as n eqn:En.
  revert s S En. induction n as [n IH] using lt_wf_ind. intros s S ->.
  destruct (decide (Forall (λ c, left (phase c) = 0%nat) (calls s))) as [Hall|Hn].
  - exists s. split; [apply rtc_refl|]. split; [|done]. eapply Forall_impl; [exact Hall|]. intros c. unfold returned. cbv beta. destruct (phase c); cbn; try lia. by eexists.
  - destruct (enabled s S) as (i & c & [[ph h] l'] & Hc & Hsec).
    { intros H. apply Hn. eapply Forall_impl; [exact H|]. intros d [o E]. by rewrite E. }
    assert (step s {| ledger := l'; holder := h; calls := <[i := at_phase ph c]> (calls s) |}) as Hst by (by eapply s_section).
    destruct (IH _ (sections_left_update s i c ph l' h Hc (section_left _ _ _ _ _ _ _ _ Hsec)) _ (ledger_step_sound _ _ Hst S) eq_refl) as (s' & H1 & H2 & H3).
    exists s'. split; [by eapply rtc_l|]. split; [done|]. rewrite H3. cbn. rewrite list_fmap_insert. cbn. apply list_insert_id. by rewrite list_lookup_fmap, Hc.
Qed.

(** Debits are numbered under one lock and put on file under another: of two debits that
    the balance covers, the second one can be on file first. *)
Theorem debits_out_of_order l p b :
  bill_currency b = pl_currency l → 0 ≤ bill_amount b → 2 * bill_amount b ≤ balance p l → U64.valid (bill_amount b) →
  ∃ s, rtc step {| ledger := l; holder := None; calls := [] |} s ∧
    debits (ledger s) = debits l ++ [debit_record p b (advanced l) l; debit_record p b (next_tx_seq l) l].
Proof.
  intros Hcur H0 Hb Hv.
  assert (∀ l1, pl_currency l1 = pl_currency l → bill_amount b ≤ balance p l1 → ∀ i,
    section i (Debit p b) Called None l1 = Some (Moved, None, with_balance p (balance p l1 - bill_amount b) l1)) as Hfirst.
  { intros l1 E Hle i. cbn. rewrite decide_False by congruence. by rewrite (proj2 (Z.ltb_ge _ _) Hle). }
  eexists. split.
  - eapply rtc_l; [by apply (s_call (Debit p b))|]. eapply rtc_l; [by apply (s_call (Debit p b))|]. cbn.
    eapply rtc_l; [eapply (s_section 0); [reflexivity|apply Hfirst; [done|cbn; unfold balance in *; lia]]|]. cbn.
    eapply rtc_l; [eapply (s_section 0); reflexivity|]. cbn.
    eapply rtc_l; [eapply (s_section 1); [reflexivity|apply Hfirst; [done|]]|].
    { unfold balance. cbn. rewrite lookup_insert_eq. cbn. unfold balance in *. lia. }
    cbn. eapply rtc_l; [eapply (s_section 1); reflexivity|]. cbn.
    eapply rtc_l; [eapply (s_section 1); reflexivity|]. cbn.
    eapply rtc_l; [eapply (s_section 0); reflexivity|]. apply rtc_refl.
  - cbn. by rewrite <- app_assoc.
Qed.
End PrepaidTasks.

(** ** Witnesses *)

(** Two top-ups for the same funding event, a debit and a refund, section by section. *)
Module PrepaidTasksWitness.
Import PrepaidTasks.
Definition p : bytes := [Byte.x01].
Definition bill : Bill := {| bill_currency := "USD"; bill_amount := 30; line_items := [] |}.
Definition ops : list Op := [TopUp p 100 "wire-1"; TopUp p 100 "wire-1"; Debit p bill; Refund p 20].
(** One section of call [i], or nothing when it waits. *)
Definition move (i : nat) (s : Shared) : Shared :=
  match calls s !! i with
  | Some c =>
      match section i (op c) (phase c) (holder s) (ledger s) with
      | Some (ph, h, l) => {| ledger := l; holder := h; calls := <[i := at_phase ph c]> (calls s) |}
      | None => s
      end
  | None => s
  end.
Lemma move_steps i s : rtc step s (move i s).
Proof.
  unfold move. destruct (calls s !! i) as [c|] eqn:Hc; [|apply rtc_refl].
  destruct (section i (op c) (phase c) (holder s) (ledger s)) as [[[ph h] l]|] eqn:E; [|apply rtc_refl].
  by eapply rtc_once, s_section.
Defined.
Definition called : Shared :=
  foldl (λ s o, {| ledger := ledger s; holder := holder s; calls := calls s ++ [{| op := o; phase := Called |}] |}) (Shared_new "USD" 10) ops.
Lemma called_steps : rtc step (Shared_new "USD" 10) called.
Proof.
  assert (∀ os s, Forall amount_ok os →
    rtc step s (foldl (λ s o, {| ledger := ledger s; holder := holder s; calls := calls s ++ [{| op := o; phase := Called |}] |}) s os)) as H.
  { intros os s Hos. revert s. induction Hos as [|o os Ho _ IH]; intros s; [apply rtc_refl|]. eapply rtc_l; [by apply s_call|apply IH]. }
  apply H. repeat (apply Forall_cons_2; [split; vm_compute; discriminate|]). constructor.
Defined.
Definition mixed : Shared := foldl (flip move) called [0; 1; 0; 2; 1; 3; 0; 2; 0; 3; 1; 0; 1; 2; 3; 1]%nat.
Lemma moves_steps xs s : rtc step s (foldl (flip move) s xs).
Proof. revert s. induction xs as [|i xs IH]; intros s; [apply rtc_refl|]. cbn. transitivity (move i s); [apply move_steps|apply IH]. Defined.
Lemma mixed_steps : rtc step (Shared_new "USD" 10) mixed.
Proof. transitivity called; [exact called_steps|apply moves_steps]. Defined.
Lemma all_returned cs : forallb (λ c, match phase c with Returned _ => true | _ => false end) cs = true → Forall returned cs.
Proof.
  induction cs as [|c cs IH]; [constructor|]. cbn. intros [Hc Hcs]%andb_true_iff. constructor; [|by apply IH].
  unfold returned. destruct (phase c); try done. by eexists.
Qed.
Lemma shared_ledger_refines_atomic_witness :
  length (top_ups (ledger mixed)) = 1%nat ∧ balance p (ledger mixed) = 50 ∧
  balance p (ledger mixed) + debited p (ledger mixed) + refunded p (ledger mixed) = topped_up p (ledger mixed).
Proof.
  split; [vm_compute; reflexivity|]. split; [vm_compute; reflexivity|].
  destruct (shared_ledger_refines_atomic "USD" 10 mixed mixed_steps) as (_ & H & _). apply H.
  - apply all_returned. vm_compute. reflexivity.
  - vm_compute. discriminate.
Defined.
Definition midway : Shared := foldl (flip move) called [0; 1; 0; 2]%nat.
Lemma no_call_is_stuck_witness : holder midway = Some 0%nat ∧ ∃ s', rtc step midway s' ∧ Forall returned (calls s').
Proof.
  split; [vm_compute; reflexivity|].
  destruct (no_call_is_stuck "USD" 10 midway) as (s' & H1 & H2 & _); [transitivity called; [exact called_steps|apply moves_steps]|].
  exists s'. split; [exact H1|exact H2].
Defined.
Lemma debits_out_of_order_witness :
  ∃ s, rtc step {| ledger := PrepaidWitness.l1; holder := None; calls := [] |} s ∧ (de_tx_seq <$> debits (ledger s)) = [2; 1].
Proof.
  destruct (debits_out_of_order PrepaidWitness.l1 p bill) as (s & H1 & H2);
    [reflexivity|apply (bool_decide_unpack _); vm_compute; exact I..|].
  exists s. split; [exact H1|]. rewrite H2. vm_compute. reflexivity.
Defined.
End PrepaidTasksWitness.
